(* ===== verification/_CoqProject ===== *)
-Q . S2P
Prelude.v
Pipeline.v
Dag.v
RunStore.v
Queue.v
QueueInv.v
QueueProgress.v
QueueTimers.v
QueueFlush.v
QueueSpec.v
ScheduleStore.v
Scheduler.v
Lifecycle.v
LifecycleFrame.v
LifecycleSpec.v
LifecycleRows.v
LifecycleDemo.v
DirectRuntime.v
DirectSpec.v
Outbox.v
OutboxSpec.v
Exporter.v
Runner.v
RunnerSpec.v
Prog.v
Jupyter.v
ExecutionModel.v
ExecutionService.v
ExecutionWorld.v
ExecutionRun.v
ExecutionSafety.v
ExecutionSlots.v
ExecutionApproval.v
ExecutionRows.v
ExecutionDemo.v
Stats.v
StatsPages.v
StatsBackends.v
Spool.v
SpoolWorld.v
SpoolSafety.v
SpoolInv.v
SpoolDrain.v
SpoolDemo.v
Alerting.v
AlertingWorld.v
AlertingSpec.v
AlertingDemo.v
Serving.v
ServingManager.v
ServingWorld.v
ServingSafety.v
ServingHistory.v
ServingSpec.v
ServingDemo.v
NotebookModel.v
NotebookManager.v
NotebookShell.v
Containers.v
ContainersSpec.v
NotebookDriver.v
NotebookWorld.v
NotebookPorts.v
NotebookPortsInv.v
NotebookHistory.v
NotebookDemo.v
AccessModel.v
AccessProvider.v
AccessHandlers.v
AccessRoutes.v
AccessWorld.v
AccessSpec.v
AccessSessions.v
AccessBootstrap.v
AccessDemo.v
