(* ===== verification/Prelude.v ===== *)
(** * Piper: a verification library

    Piper is a pipeline orchestrator: one server process that stores runs,
    steps and schedules in a database, keeps the runs in progress in an
    in-memory queue, executes their steps on its own host, and exports their
    life cycle to an external tracking server; beside them it keeps notebook
    servers and model services running, for the members of its projects.  This library models the part of
    it that decides what runs when, and proves what each part promises.

    ** Parts, files, sources

    The files, in the order in which they build on each other; every definition
    has the name it has in the source where Rocq allows it.

    - [Prelude]: results (Go's value-error pairs), the outcome of a repository
      call, Go strings and paths, 64-bit wrap-around, tactics, list lemmas.
    - [Pipeline] ([pkg/pipeline/spec.go], [parser.go], [pkg/manifest]): the
      manifest's types, validation with every error, defaulting, parsing.
    - [Dag] ([pkg/pipeline/dag.go]): Kahn's algorithm as written, the graph and
      its queries.
    - [RunStore] ([internal/store/sqlite/run.go], [step.go], [store.go]): the
      statements on the run and step tables, as functions on finite maps.
    - [Queue] ([internal/queue/queue.go], [internal/proto/types.go]): the queue.
      Its state is the Go struct, the heap of run objects (a stale callback can
      hold one that is no longer tracked), and the runtime: timers, dispatch
      goroutines, the [WaitGroup], the observable trace.  Every locked section,
      timer callback and goroutine step is one operation ([op]); deferred writes
      and effects are data that [flushPending] executes.
      [QueueInv]: the abstract step state machine that every operation refines,
      and the safety invariants.  [QueueProgress]: an unfinished run keeps
      a step that can go on; [QueueTimers]: and that step is with a goroutine, a
      timer or a callback that will take it on.
      [QueueFlush]: the deferred work against a failing database.
      [QueueSpec]: what single operations do on each branch.
    - [ScheduleStore] ([internal/store/sqlite/schedule.go], [submission.go]) and
      [Scheduler] ([internal/scheduler]): schedules, their conditional updates,
      and the alarms that fire them.
    - [Lifecycle] ([internal/runlifecycle], [pkg/pipeline/runtime.go]): the
      handlers above the queue, in a state and error monad [M] over the [World]
      (tables, queue, scheduler).  [LifecycleFrame]: what handlers leave alone,
      and that a tick fires once.  [LifecycleSpec]: recovery and starting a run.
      [LifecycleRows]: retention and idempotent submission.  [LifecycleDemo]:
      these theorems at concrete worlds, and histories that lose work.
    - [DirectRuntime] ([internal/directruntime], [internal/pipelinedispatch],
      [pkg/pipeline/pipelinedriver/{paths,resolve}.go]): where a dispatched step
      runs; [DirectSpec]: capacity, cancellation, colliding keys.
    - [Outbox] ([pkg/integration/outbox],
      [internal/store/sqlite/integration_outbox.go]) and [OutboxSpec]: the durable
      queue of exported events; [Exporter] ([pkg/integration/mlflow]): what is put
      into it, and the handler's answers.
    - [Runner] ([pkg/pipeline/runner.go]): the in-process runner of a pipeline,
      as a transition system of its main loop and the goroutines of the steps;
      [RunnerSpec]: it returns, its calls are bounded, dependencies are
      respected; and a pipeline for which they are not.
    - [Prog]: programs as trees of calls, disciplines on the calls of one
      program, and what disciplined threads keep in every interleaving.
      [Jupyter] ([pkg/notebook/execution/jupyter]): notebook documents, the
      messages of a kernel, the sink of a cell's outputs.
      [ExecutionModel], [ExecutionService] ([pkg/notebook/execution]): notebook
      executions and kernel sessions, the handlers, the run of an execution, the
      recovery, as programs of [Prog]; [ExecutionWorld]
      ([internal/store/sqlite/notebook_execution.go], [scheduler.go]): what each
      call does to the tables, slots, locks and contexts, and the system of
      concurrent threads.  [ExecutionRun]: one run, one recovery;
      [ExecutionSafety]: the user's notebook; [ExecutionSlots],
      [ExecutionApproval], [ExecutionRows]: slots, approvals and rows in every
      interleaving; [ExecutionDemo]: these at concrete worlds, and a cancelled
      execution that runs.
    - [Stats] ([pkg/statsstore/statsstore.go], [cursor.go]): log lines and metric
      points, what the two have in common (classes [Entry], [Stat] with its laws
      [StatLaws]), cursors and their encoding.  [StatsPages]
      ([spooled_backend.go]): the pages of a query.  [StatsBackends] ([open.go],
      [clickhouse.go], [influxdb.go]): which backends are opened, the texts sent
      to them.  [Spool] ([spool.go], [spooled_backend.go]): the durable spool and
      the delivery from it, as programs of [Prog]; [SpoolWorld]: the directory
      with what a power loss can undo, the mutexes, the backends, and the system
      of concurrent threads and crashes.  [SpoolSafety]: the discipline the
      programs obey; [SpoolInv]: the invariant, and delivery at least once;
      [SpoolDrain]: a turn of the loop delivers everything; [SpoolDemo]: these at
      concrete inputs.
    - [Alerting] ([pkg/alerting], [internal/alerting/engine.go]): alert rules,
      their conditions and validation, the service and the engine, as programs of
      [Prog]; [AlertingWorld] ([internal/store/sqlite/alert_rule.go]): the table,
      the cached rules, the queue of deliveries, the system of concurrent threads;
      [AlertingSpec]: conditions, valid rules, cooldown; [AlertingDemo]: runs.
    - [Serving] ([pkg/serving/{types,parse,placement,model}.go]): manifests of model
      services, their rows, and the calls to tables, artifact stores, slots and
      supervisors.  [ServingManager] ([manager.go], [status.go],
      [dispatch/localdriver/driver.go], [internal/artifact/localresolver.go],
      [service_api.go]): the manager, the status sink and the local driver, as
      programs of [Prog].  [ServingWorld] ([internal/store/sqlite/serving.go]): what
      each call does to the tables and the driver's slots, and the system of
      requests, health checks, exits, purges and restarts.  [ServingSafety]: what is
      let through after an exit; [ServingHistory]: no deployment is lost;
      [ServingSpec]: what single operations and health checks leave; [ServingDemo]: runs.
    - [NotebookModel] ([pkg/notebook/{spec,parse,prepare,model,volume}.go]): notebook
      manifests, launch scripts, rows, calls.  [NotebookManager] ([manager.go],
      [status.go]): servers and volumes; their driver is the class
      [NotebookDriver], whose instance is in [NotebookDriver]
      ([dispatch/localdriver/driver.go]): ports, active notebooks, background
      starts, recovery.  [NotebookShell]: a POSIX shell's reading of a script.
      [NotebookWorld] ([internal/store/sqlite/notebook.go], [notebook_volume.go]):
      tables, the driver's maps, the system of threads.  [NotebookPorts],
      [NotebookPortsInv]: ports in every interleaving; [NotebookHistory]: one row
      per run; [NotebookDemo]: runs.
    - [Containers] ([internal/docker/resources.go], the three Docker drivers): the
      containers they ask for; [ContainersSpec]: what a notebook's one may reach.
    - [AccessModel] ([pkg/auth], [pkg/security], [pkg/project]): accounts, sessions,
      roles, password hashes, requests and answers.  [AccessProvider]
      ([pkg/auth/provider.go], [jwt.go], [hash.go]): the built-in provider; the
      interface [Authorizer], through which the middleware asks for roles.
      [AccessHandlers] ([serve.go], [pkg/auth/handler.go], [pkg/project/context.go],
      [member_handler.go]): middleware and handlers; [AccessRoutes]
      ([pkg/project/handler.go], [routes_access.go]): projects, and what stands
      before each route.  [AccessWorld] ([internal/store/sqlite/auth.go],
      [project.go], [cmd/piper/commands/user.go]): tables, commands, the system of
      requests.  [AccessSpec]: passwords, and one request by itself;
      [AccessSessions]: revoked sessions; [AccessBootstrap]: the first account;
      [AccessDemo]: runs.

    ** How the parts interact

    A handler of [Lifecycle] validates and stores a run ([Pipeline], [Dag],
    [RunStore]) and hands it to the queue ([Queue.AddWithEnv]); the scheduler
    calls [Lifecycle.ScheduleFired]; the queue starts a step by a dispatch
    goroutine, which calls a backend ([DirectRuntime.dispatchBegin]) and whose
    result comes back through [Queue.Complete]; a new run is enqueued into the
    outbox ([Exporter.EnqueuePipelineRunCreated]).  [Runner] stands beside the
    queue: it executes a graph of [Dag] in one process, without a database.
    Notebook executions are a system of their own: [dispatch] starts a goroutine
    that waits for a slot of the notebook, takes the lock of a kernel session,
    runs the code cells and writes the result back; requests that create,
    approve, deny or cancel run beside it, and a restart keeps only the tables.
    An append of statistics numbers its entries, writes them to a file and
    returns; a loop delivers the files to a backend and removes them; a query
    merges what the backend and the files have; a power loss keeps of each file
    what was seen or what was synced.  The alerting engine gets the events that
    the other parts publish, and the outcome of every run.
    Model services and notebook servers have the same shape, each a system of its
    own: a manager writes rows and calls a driver; the driver keeps its slots
    under a mutex, starts a process or a container, and reports through a status
    sink what becomes of it, from goroutines that outlive the request.
    Every request passes the middleware of [AccessHandlers] before it reaches a
    handler of the other parts: a route under a project is there [RProject] with
    the role it requires, one of system credentials [RSystem].

    Concurrency is interleaving of atomic steps: a section under a mutex is one
    step, and what runs outside it (a callback that waits for the mutex, a
    driver that starts a container, a flush) is a step of its own.  The database
    can fail at every call, with or without the write having happened
    ([attempt]).

    ** What the theorems show

    - Queue: refinement of the step state machine, terminal statuses kept,
      bounded attempts, exact accounting of timers and goroutines, progress of
      every tracked run, the effect of a result on every branch, exactly when a
      result is accepted, the steps a failure skips, bounded retries of writes,
      a final status written at most once, and what a flush announces of a run's
      end; and the histories in which the code does not do what it means to.
    - Definitions and graphs: validation equals a declarative specification,
      accepted paths stay inside, defaulting is idempotent, the graph is built
      exactly for acyclic pipelines, and a ready step always exists.
    - Lifecycle: a tick fires once, recovery touches only what needs it, the
      outcome of starting a run on success and on every error, liveness of the
      queue kept, retention spares active runs, submissions are idempotent.
    - Scheduler: one job for each schedule.
    - Direct execution: exact and bounded capacity, cancellation is final while
      keys are distinct, and keys that are not.
    - Outbox: well-formed rows, order within an aggregate under all
      interleavings and crashes, progress with the configured policy, backoff
      within its bounds; parked events that die.
    - Notebook executions: a run ends with one final status along the transition
      table and never overwrites a changed original; slots are bounded and never
      leaked; approval is enforced; recovery settles every open execution and
      re-runs none; idempotency keys name one execution; kept outputs are
      bounded; and a cancellation that does not cancel.
    - Statistics: acknowledged entries are delivered at least once through every
      interleaving, failure and power loss, and one turn of the loop without
      faults delivers them; cursors are read back by their own query only;
      following them gives what the backend and the spool find once; opening gives the backends that the
      configuration names; and full pages that end the listing, a quoting that
      does not quote, a refused append that is kept.
    - Alerting: conditions are exactly those of their grammar, every rule stored
      or used is valid, notifications come from won claims only and a rule is
      claimed again only after its cooldown, in every interleaving, and a cooldown
      that overflows.
    - Model services: a deployment that had a row is the current row or in the
      history while requests are served one after another; nothing is reported
      for a generation after its exit; what a stop, a deletion and a health check
      leave, and ask of the workload, on every answer of the driver and the tables.
    - Notebook servers: one history row per run, which tells the end that the
      notebook's row showed, and no end without it but for statuses written back;
      no port is shared or lost; a launch script says what it was built from; and stops
      that orphan a workload, ends rewritten, volumes bound twice and purged in
      use.
    - Containers: mounts, network, ports and privileges of a notebook's container,
      and what the checks let through.
    - Access: a password is accepted exactly when it derives the stored key; a
      route under a project admits exactly the enabled accounts whose role
      suffices, and refuses with the status of the reason; accounts, projects and
      members change only for those who may; a revoked session gives no tokens
      again, and the first account is set up once, in every interleaving; and
      refreshes that overlap, a sign-out that misses one, a setup that reopens.
    - Runner: termination without deadlock under every interleaving, bounded
      concurrency and attempts, and execution after the dependencies succeeded
      for pipelines listed in dependency order.

    ** Bounds and fuel

    Durations and timeouts are [Z] nanoseconds with [wrap64] where the code
    multiplies an [int64].  [Dag.kahn] takes twice the number of steps as fuel
    and [Dag.topoSort_fuel] shows that it suffices; [Queue.skipDownstream] takes
    the number of tasks plus one, enough because each level of recursion skips a
    task, which [skipDownstream_exact] shows; [TrimSpace] and [RuntimeKey] take the
    length of their input.  [Lifecycle.backfillLoop] has the code's own limit of
    1000 runs and [fireTries] its four tries.

    ** Parameters

    A call of a notebook execution to a notebook server or a kernel, and a query
    of a statistics backend, may answer anything at any time.  Code outside the
    repository is an argument: the YAML and JSON codecs, the template parser, the
    cron expression parser, URL parsing, SHA-256, Argon2, the codec of signed
    tokens, the lower case of letters, UUIDs, clocks, random numbers,
    drivers of processes and containers, the executor function, the order in
    which Go iterates over a map, the parsers of sizes and of floating-point
    numbers, the host's file system ([Abs], [EvalSymlinks], [Stat]), and the texts
    of errors.  Hypotheses on them are those of their
    documentation, such as that a cron expression's next tick is later than the
    time it is asked for (for expressions that have one), that a map iteration
    visits each key once, that a digest has 32 bytes, that it tells the tokens of the
    random source apart, that this source and that of UUIDs do not repeat, or how a server reads a
    string literal ([StatsBackends.Literal]).

    ** Not modelled

    HTTP handlers but those of access, the command line but [piper user], the
    web UI and the MCP server (glue around the operations above); the Postgres back end (the same statements in another
    dialect); the drivers that run a step and the Kubernetes runtime (I/O against
    a process table, a container engine, a cluster); the capture of logs, the
    artifact storage and the built-in tables of statistics (I/O); of the external
    statistics backends, the HTTP client, Elasticsearch's JSON bodies and the
    set-up of retention; credentials and secrets, and another provider than the
    built-in one; for model services and notebook servers the drivers of processes,
    containers and clusters below the local driver (their answers may come in any
    order), the proxies to them, their files and their HTTP handlers but the one
    that creates a notebook; the listings of notebook executions, and the
    deletion of a project with its rows; the notifiers' HTTP; federation and
    templates, which are separate subsystems beside the pipeline engine. *)

From stdpp Require Export base tactics gmap strings list fin_maps sorting.
From stdpp Require Import options.
From Stdlib Require Export ZArith Lia Ascii.

#[local] Open Scope Z_scope.

(** ** Results: Go's [(value, error)] pairs *)

Inductive res (E A : Type) : Type :=
| Ok (a : A)
| Err (e : E).
Arguments Ok {E A} a.
Arguments Err {E A} e.

#[export] Instance res_ret E : MRet (res E) := fun A a => Ok a.
#[export] Instance res_bind E : MBind (res E) := fun A B f m =>
  match m with Ok a => f a | Err e => Err e end.
#[export] Instance res_fmap E : FMap (res E) := fun A B f m =>
  match m with Ok a => Ok (f a) | Err e => Err e end.

(** [check b e]: the early return [if b { return e }]. *)
Definition check {E} (b : bool) (e : E) : res E unit :=
  if b then Err e else Ok tt.

(** Go's [for _, x := range l { if err := f(x); err != nil { return err } }]. *)
Fixpoint each {E A} (f : A -> res E unit) (l : list A) : res E unit :=
  match l with
  | [] => Ok tt
  | x :: l => _ ← f x; each f l
  end.

(** The same with the index bound: [for i, x := range l]. *)
Fixpoint eachi_from {E A} (i : nat) (f : nat -> A -> res E unit) (l : list A) : res E unit :=
  match l with
  | [] => Ok tt
  | x :: l => _ ← f i x; eachi_from (S i) f l
  end.
Definition eachi {E A} (f : nat -> A -> res E unit) (l : list A) : res E unit :=
  eachi_from 0 f l.

Definition is_ok {E A} (r : res E A) : bool :=
  match r with Ok _ => true | Err _ => false end.

(** ** Repository calls *)

(** How one call of a repository ends: it succeeds; it fails with no effect; or
    it commits and the caller still gets an error. *)
Inductive attempt : Type := AttemptOk | AttemptLost | AttemptApplied.

(** ** Tactics *)

Create HintDb piper.

(** Case analysis on the scrutinee of a match or an if in the goal or in a
    hypothesis, keeping the equation. *)
Ltac case_goal :=
  match goal with
  | |- context [match ?x with _ => _ end] => destruct x eqn:?; simplify_eq/=
  end.
Ltac case_hyp H :=
  match type of H with
  | context [match ?x with _ => _ end] => destruct x eqn:?; simplify_eq/=
  end.

(** Prove a closed decidable proposition by evaluation. *)
Ltac compute_decide := apply (bool_decide_unpack _); vm_compute; exact I.

(** Turn boolean tests of the code into propositions. *)
Ltac to_prop :=
  repeat match goal with
  | H : negb _ = true |- _ => apply negb_true_iff in H
  | H : negb _ = false |- _ => apply negb_false_iff in H
  | H : (_ && _)%bool = true |- _ => apply andb_true_iff in H as [? ?]
  | H : (_ || _)%bool = false |- _ => apply orb_false_iff in H as [? ?]
  | H : bool_decide _ = true |- _ => apply bool_decide_eq_true in H
  | H : bool_decide _ = false |- _ => apply bool_decide_eq_false in H
  | H : String.eqb _ _ = true |- _ => apply String.eqb_eq in H
  | H : String.eqb _ _ = false |- _ => apply String.eqb_neq in H
  | H : (_ <? _) = true |- _ => apply Z.ltb_lt in H
  | H : (_ <? _) = false |- _ => apply Z.ltb_ge in H
  | H : (_ <=? _) = true |- _ => apply Z.leb_le in H
  | H : (_ <=? _) = false |- _ => apply Z.leb_gt in H
  | H : (_ =? _) = true |- _ => apply Z.eqb_eq in H
  | H : (_ =? _) = false |- _ => apply Z.eqb_neq in H
  end.

(** ** Errors in sequence *)

Lemma bind_ok {E A B} (m : res E A) (f : A -> res E B) b :
  (m ≫= f) = Ok b <-> exists a, m = Ok a /\ f a = Ok b.
Proof. destruct m; simpl; split; [eauto|by intros (? & [= ->] & ?)|done|by intros (? & ? & ?)]. Qed.

Lemma bind_unit_ok {E B} (m : res E unit) (k : res E B) b :
  (m ≫= fun _ => k) = Ok b <-> m = Ok tt /\ k = Ok b.
Proof. rewrite bind_ok. split; [intros ([] & ? & ?)|intros [? ?]; exists tt]; done. Qed.

Lemma check_ok {E} b (e : E) u : check b e = Ok u <-> b = false.
Proof. destruct b, u; unfold check; naive_solver. Qed.

Lemma each_ok {E A} (f : A -> res E unit) l :
  each f l = Ok tt <-> Forall (fun x => f x = Ok tt) l.
Proof.
  induction l as [|x l IH]; simpl; [split; auto|].
  rewrite bind_ok, Forall_cons, <- IH.
  split; [intros ([] & ? & ?) | intros [? ?]; exists tt]; auto.
Qed.

Lemma eachi_from_ok {E A} (f : nat -> A -> res E unit) l i :
  eachi_from i f l = Ok tt <-> forall k x, l !! k = Some x -> f (i + k)%nat x = Ok tt.
Proof.
  revert i; induction l as [|y l IH]; intros i; simpl; [split; [done|auto]|].
  rewrite bind_ok. split.
  - intros ([] & H1 & H2) [|k] x Hk; simpl in Hk; simplify_eq.
    + by rewrite Nat.add_0_r.
    + rewrite IH in H2. by rewrite <- Nat.add_succ_comm; apply H2.
  - intros H. exists tt. split.
    + specialize (H 0%nat y eq_refl). by rewrite Nat.add_0_r in H.
    + apply IH. intros k x Hk. rewrite Nat.add_succ_comm. by apply H.
Qed.

Lemma eachi_ok {E A} (f : nat -> A -> res E unit) l :
  eachi f l = Ok tt <-> forall k x, l !! k = Some x -> f k x = Ok tt.
Proof. apply eachi_from_ok. Qed.

(** ** Go strings: sequences of bytes *)

#[global] Arguments String.append !_ _ / : simpl nomatch.

Definition byte_of (n : nat) : ascii := ascii_of_nat n.

(** [strings.Index(s, c)] for a one-byte [c]. *)
Fixpoint str_index (c : ascii) (s : string) : option nat :=
  match s with
  | EmptyString => None
  | String d s => if Ascii.eqb d c then Some 0%nat else S <$> str_index c s
  end.

(** [s[i:]] *)
Fixpoint str_drop (i : nat) (s : string) : string :=
  match i, s with
  | O, _ => s
  | S i, String _ s => str_drop i s
  | S _, EmptyString => EmptyString
  end.

(** [s[:i]] *)
Fixpoint str_take (i : nat) (s : string) : string :=
  match i, s with
  | O, _ => EmptyString
  | S i, String d s => String d (str_take i s)
  | S _, EmptyString => EmptyString
  end.

(** [strings.Split(s, c)] for a one-byte separator. *)
Fixpoint str_split (c : ascii) (s : string) : list string :=
  match s with
  | EmptyString => [EmptyString]
  | String d s' =>
      if Ascii.eqb d c then EmptyString :: str_split c s'
      else match str_split c s' with
           | [] => [String d EmptyString]
           | w :: ws => String d w :: ws
           end
  end.

(** [strings.Join(l, c)] *)
Fixpoint str_join (c : ascii) (l : list string) : string :=
  match l with
  | [] => EmptyString
  | [w] => w
  | w :: l => (w +:+ String c (str_join c l))%string
  end.

Fixpoint str_mem (c : ascii) (s : string) : bool :=
  match s with
  | EmptyString => false
  | String d s => Ascii.eqb d c || str_mem c s
  end.

(** [strings.ReplaceAll(s, a, b)] for one-byte [a] and [b]. *)
Fixpoint str_replace (a b : ascii) (s : string) : string :=
  match s with
  | EmptyString => EmptyString
  | String d s => String (if Ascii.eqb d a then b else d) (str_replace a b s)
  end.

(** One leading white-space rune ([unicode.IsSpace], in its UTF-8 encoding)
    dropped, when there is one. *)
Definition drop_space_rune (s : string) : option string :=
  match s with
  | String c s1 =>
      let n := nat_of_ascii c in
      if (bool_decide (9 <= n <= 13)%nat || bool_decide (n = 32)%nat)%bool then Some s1 else
      match s1 with
      | String c2 s2 =>
          let n2 := nat_of_ascii c2 in
          if bool_decide (n = 194 /\ (n2 = 133 \/ n2 = 160))%nat then Some s2 else
          match s2 with
          | String c3 s3 =>
              let n3 := nat_of_ascii c3 in
              if bool_decide
                   ((n = 225 /\ n2 = 154 /\ n3 = 128) \/
                    (n = 226 /\ n2 = 128 /\ ((128 <= n3 <= 138) \/ n3 = 168 \/ n3 = 169 \/ n3 = 175)) \/
                    (n = 226 /\ n2 = 129 /\ n3 = 159) \/
                    (n = 227 /\ n2 = 128 /\ n3 = 128))%nat
              then Some s3 else None
          | EmptyString => None
          end
      | EmptyString => None
      end
  | EmptyString => None
  end.

Fixpoint trim_left (fuel : nat) (s : string) : string :=
  match fuel with
  | O => s
  | S fuel => match drop_space_rune s with Some s' => trim_left fuel s' | None => s end
  end.

Fixpoint trim_right (s : string) : string :=
  match s with
  | EmptyString => EmptyString
  | String c s' =>
      if String.eqb (trim_left (String.length s) s) "" then EmptyString
      else String c (trim_right s')
  end.

(** [strings.TrimSpace] *)
Definition TrimSpace (s : string) : string :=
  trim_right (trim_left (String.length s) s).

(** [path.Clean], on the components of the path. [out] is the reversed list of
    the components kept so far. *)
Fixpoint clean_parts (rooted : bool) (out : list string) (parts : list string) : list string :=
  match parts with
  | [] => rev out
  | p :: parts =>
      if (String.eqb p "" || String.eqb p ".")%bool then clean_parts rooted out parts
      else if String.eqb p ".." then
        match out with
        | w :: out' =>
            if String.eqb w ".." then clean_parts rooted (".." :: out) parts
            else clean_parts rooted out' parts
        | [] => clean_parts rooted (if rooted then [] else [".."%string]) parts
        end
      else clean_parts rooted (p :: out) parts
  end.

Definition slash : ascii := "/"%char.
Definition backslash : ascii := "\"%char.
Definition colon : ascii := ":"%char.

(** [%q] of [fmt]: the escapes of [strconv.Quote] for ASCII; other bytes are
    copied, as [strconv.Quote] copies a printable rune. *)
Definition hexDigit (n : nat) : ascii := ascii_of_nat (if Nat.ltb n 10 then 48 + n else 87 + n).
Definition escape (n : nat) : string :=
  let short c := String backslash (String (ascii_of_nat c) "") in
  match n with
  | 34 | 92 => short n
  | 7 => short 97 | 8 => short 98 | 12 => short 102 | 10 => short 110 | 13 => short 114 | 9 => short 116 | 11 => short 118
  | _ =>
      if (Nat.ltb n 32 || Nat.eqb n 127)%bool
      then String backslash (String "x" (String (hexDigit (Nat.div n 16)) (String (hexDigit (Nat.modulo n 16)) "")))
      else String (ascii_of_nat n) ""
  end%nat.
Fixpoint escapes (s : string) : string :=
  match s with
  | EmptyString => ""
  | String c s => escape (nat_of_ascii c) +:+ escapes s
  end.
Definition Quote (s : string) : string :=
  let dq := String (ascii_of_nat 34) "" in (dq +:+ escapes s +:+ dq)%string.

Definition path_Clean (s : string) : string :=
  let rooted := String.prefix "/" s in
  let body := str_join slash (clean_parts rooted [] (str_split slash s)) in
  if rooted then ("/" +:+ body)%string
  else if String.eqb body "" then "."%string else body.

(** *** Lemmas on strings *)

Lemma str_app_nil_r s : (s +:+ "")%string = s.
Proof. induction s as [|c s IH]; [done|]. simpl. by rewrite IH. Qed.

Lemma str_app_assoc a b c : ((a +:+ b) +:+ c)%string = (a +:+ (b +:+ c))%string.
Proof. induction a as [|x a IH]; [done|]. simpl. by rewrite IH. Qed.

Lemma str_mem_app c a b : str_mem c (a +:+ b) = (str_mem c a || str_mem c b)%bool.
Proof. induction a as [|x a IH]; simpl; [done|]. by rewrite IH, orb_assoc. Qed.

Lemma str_index_None c s : str_index c s = None <-> str_mem c s = false.
Proof.
  induction s as [|d s IH]; simpl; [done|].
  destruct (Ascii.eqb d c); simpl; [by split|].
  rewrite <- IH. by destruct (str_index c s).
Qed.

Lemma str_index_app c a b :
  str_mem c a = false -> str_index c (a +:+ String c b) = Some (String.length a).
Proof.
  induction a as [|d a IH]; simpl; intros H.
  - by rewrite Ascii.eqb_refl.
  - apply orb_false_iff in H as [-> H]. by rewrite IH.
Qed.

Lemma str_index_Some c s i :
  str_index c s = Some i ->
  s = (str_take i s +:+ String c (str_drop (S i) s))%string /\ str_mem c (str_take i s) = false.
Proof.
  revert i; induction s as [|d s IH]; intros i; simpl; [done|].
  destruct (Ascii.eqb d c) eqn:E.
  - intros [= <-]. apply Ascii.eqb_eq in E as ->. done.
  - destruct (str_index c s) as [j|]; simpl; intros [= <-].
    destruct (IH j eq_refl) as [H1 H2]. simpl. rewrite E. simpl. split; [|done].
    by rewrite H1 at 1.
Qed.

Lemma str_take_app a b : str_take (String.length a) (a +:+ b) = a.
Proof. induction a as [|d a IH]; simpl; [done|]. by rewrite IH. Qed.

Lemma str_drop_app a b : str_drop (String.length a) (a +:+ b) = b.
Proof. induction a as [|d a IH]; simpl; done. Qed.

Lemma str_drop_S_app c a b : str_drop (S (String.length a)) (a +:+ String c b) = b.
Proof. induction a as [|d a IH]; simpl; done. Qed.

Lemma str_split_nonempty c s : str_split c s <> [].
Proof.
  destruct s as [|d s]; simpl; [done|].
  destruct (Ascii.eqb d c); [done|]. by destruct (str_split c s).
Qed.

Lemma str_join_split c s : str_join c (str_split c s) = s.
Proof.
  induction s as [|d s IH]; simpl; [done|].
  pose proof (str_split_nonempty c s) as Hn.
  destruct (Ascii.eqb d c) eqn:E.
  - apply Ascii.eqb_eq in E as ->. destruct (str_split c s); [done|]. simpl in *.
    by rewrite IH.
  - destruct (str_split c s) as [|w [|w' ws]]; [done|..]; simpl in *; by rewrite IH.
Qed.

Lemma str_split_no_sep c s : Forall (fun w => str_mem c w = false) (str_split c s).
Proof.
  induction s as [|d s IH]; simpl; [by repeat constructor|].
  destruct (Ascii.eqb d c) eqn:E; [by constructor|].
  destruct (str_split c s) as [|w ws]; repeat constructor; simpl; rewrite ?E; try done.
  - by inv IH.
  - by inv IH.
Qed.

Lemma str_split_single c s : str_mem c s = false -> str_split c s = [s].
Proof.
  induction s as [|d s IH]; simpl; [done|]. intros [-> H]%orb_false_iff. by rewrite IH.
Qed.

Lemma str_split_app c a b :
  str_mem c a = false -> str_split c (a +:+ String c b) = a :: str_split c b.
Proof.
  induction a as [|d a IH]; simpl; intros H.
  - by rewrite Ascii.eqb_refl.
  - apply orb_false_iff in H as [-> H]. by rewrite IH.
Qed.

Lemma str_split_sep c a b : str_split c (a +:+ String c b) = str_split c a ++ str_split c b.
Proof.
  induction a as [|d a IH]; simpl; [by rewrite Ascii.eqb_refl|].
  destruct (Ascii.eqb d c); [by rewrite IH|].
  rewrite IH. pose proof (str_split_nonempty c a). by destruct (str_split c a).
Qed.

Lemma str_replace_app a b x y :
  str_replace a b (x +:+ y) = (str_replace a b x +:+ str_replace a b y)%string.
Proof. induction x as [|d x IH]; simpl; [done|]. by rewrite IH. Qed.

(** A path without [..] components cleans to a path without them. *)
Lemma clean_parts_no_dotdot rooted out parts :
  Forall (fun w => w <> ".."%string) out -> Forall (fun w => w <> ".."%string) parts ->
  Forall (fun w => w <> ".."%string) (clean_parts rooted out parts).
Proof.
  intros Ho Hp. revert out Ho. induction Hp as [|p parts Hp _ IH]; intros out Ho; simpl.
  - by apply Forall_rev.
  - destruct (String.eqb p "" || String.eqb p ".")%bool; [by apply IH|].
    destruct (String.eqb_spec p ".."); [done|]. apply IH. by constructor.
Qed.

Lemma str_split_join c l :
  l <> [] -> Forall (fun w => str_mem c w = false) l -> str_split c (str_join c l) = l.
Proof.
  intros Hn Hl. induction Hl as [|w l Hw Hl IH]; [done|].
  destruct l as [|w' l]; simpl.
  - by apply str_split_single.
  - rewrite str_split_app by done. f_equal. by apply IH.
Qed.

Lemma clean_parts_no_sep rooted out parts :
  Forall (fun w => str_mem slash w = false) out ->
  Forall (fun w => str_mem slash w = false) parts ->
  Forall (fun w => str_mem slash w = false) (clean_parts rooted out parts).
Proof.
  intros Ho Hp. revert out Ho. induction Hp as [|p parts Hp _ IH]; intros out Ho; simpl.
  - by apply Forall_rev.
  - destruct (String.eqb p "" || String.eqb p ".")%bool; [by apply IH|].
    destruct (String.eqb p ".."); [|by apply IH; constructor].
    destruct out as [|w out]; [apply IH; destruct rooted; by repeat constructor|].
    inversion Ho as [|? ? Hw Ho']; subst. destruct (String.eqb w ".."); apply IH; [|done].
    by repeat constructor.
Qed.

Lemma str_prefix_app a s : String.prefix a s = true -> exists b, s = (a +:+ b)%string.
Proof.
  revert s; induction a as [|c a IH]; intros s; [by exists s|].
  destruct s as [|d s]; simpl; [done|].
  destruct (Ascii.ascii_dec c d) as [->|]; [|done].
  intros [b ->]%IH. by exists b.
Qed.

(** [path.Clean] never yields a parent path from a relative path without [..]
    components. *)
Lemma path_Clean_no_escape s :
  String.prefix "/" s = false -> ".."%string ∉ str_split slash s ->
  path_Clean s <> ".."%string /\ String.prefix "../" (path_Clean s) = false.
Proof.
  intros Hr Hs. unfold path_Clean. rewrite Hr.
  set (l := clean_parts false [] (str_split slash s)).
  assert (Hd : Forall (fun w => w <> ".."%string) l).
  { apply clean_parts_no_dotdot; [done|]. apply Forall_forall. intros w Hw ->. done. }
  assert (Hl : Forall (fun w => str_mem slash w = false) l).
  { apply clean_parts_no_sep; [done|]. apply str_split_no_sep. }
  destruct (String.eqb_spec (str_join slash l) "") as [|Hne]; [by split|].
  assert (l <> []) by (intros ->; done).
  pose proof (str_split_join slash l H Hl) as Hsj.
  split.
  - intros E. rewrite E in Hsj. rewrite <- Hsj in Hd. by inv Hd.
  - destruct (String.prefix "../" _) eqn:E; [|done].
    apply str_prefix_app in E as [b E]. rewrite E in Hsj.
    change ("../" +:+ b)%string with (".." +:+ String slash b)%string in Hsj.
    rewrite str_split_app in Hsj by done. rewrite <- Hsj in Hd. by inv Hd.
Qed.

Lemma clean_parts_app rooted out a b :
  clean_parts rooted out (a ++ b) = clean_parts rooted (rev (clean_parts rooted out a)) b.
Proof.
  revert out; induction a as [|p a IH]; intros out; simpl; [by rewrite rev_involutive|].
  destruct (String.eqb p "" || String.eqb p ".")%bool; [apply IH|].
  destruct (String.eqb p ".."); [|apply IH].
  destruct out as [|w out]; [apply IH|]. destruct (String.eqb w ".."); apply IH.
Qed.

(** The components [path.Clean] keeps when there is no [..]. *)
Definition plain_part (p : string) : bool := negb (String.eqb p "" || String.eqb p ".").

Lemma clean_parts_plain rooted out parts :
  ".."%string ∉ parts ->
  clean_parts rooted out parts = rev out ++ List.filter plain_part parts.
Proof.
  revert out; induction parts as [|p parts IH]; intros out Hp; simpl; [by rewrite app_nil_r|].
  apply not_elem_of_cons in Hp as [Hp Hps]. unfold plain_part.
  destruct (String.eqb p "" || String.eqb p ".")%bool; simpl; [by apply IH|].
  destruct (String.eqb_spec p ".."); [done|].
  rewrite IH by done. simpl. by rewrite <- app_assoc.
Qed.

Lemma str_join_app c l1 l2 :
  l1 <> [] -> l2 <> [] -> str_join c (l1 ++ l2) = (str_join c l1 +:+ String c (str_join c l2))%string.
Proof.
  intros H1 H2. induction l1 as [|w l1 IH]; [done|].
  destruct l1 as [|w' l1]; simpl; [by destruct l2|].
  simpl in IH. rewrite IH by done. by rewrite str_app_assoc.
Qed.

(** An absolute path that is its own [path.Clean] and is not the root. *)
Definition clean_abs (base : string) : Prop :=
  String.prefix "/" base = true /\ path_Clean base = base /\ base <> "/"%string.

(** Joining a path without [..] components to a clean absolute path stays below
    that path. *)
Lemma path_Clean_join base v :
  clean_abs base -> ".."%string ∉ str_split slash v ->
  let rest := List.filter plain_part (str_split slash v) in
  path_Clean (base +:+ "/" +:+ v) =
    (if bool_decide (rest = []) then base else base +:+ "/" +:+ str_join slash rest)%string.
Proof.
  intros (Hr & Hc & Hne) Hv rest.
  apply str_prefix_app in Hr as [b ->]. change ("/" +:+ b)%string with (String slash b) in *.
  unfold path_Clean in *.
  assert (Hp : forall x, String.prefix "/" (String slash x) = true) by (intros []; done).
  change (String slash b +:+ "/" +:+ v)%string with (String slash (b +:+ String slash v)).
  rewrite Hp in *. injection Hc as Hc.
  assert (Hsp : forall x, str_split slash (String slash x) = ""%string :: str_split slash x) by done.
  rewrite Hsp in *. simpl in Hc. simpl.
  rewrite str_split_sep, clean_parts_app.
  set (l := clean_parts true [] (str_split slash b)) in *.
  rewrite clean_parts_plain, rev_involutive by done. fold rest.
  assert (Hl : l <> []). { intros E. rewrite E in Hc. simpl in Hc. by subst b. }
  case_bool_decide as E.
  - by rewrite E, app_nil_r, Hc.
  - rewrite str_join_app by done. simpl. by rewrite Hc.
Qed.

(** ** 64-bit integers *)

Definition wrap64 (z : Z) : Z := (z + 2^63) mod 2^64 - 2^63.

Lemma wrap64_id z : - 2^63 <= z < 2^63 -> wrap64 z = z.
Proof. intros. unfold wrap64. rewrite Z.mod_small; lia. Qed.

Lemma wrap64_range z : - 2^63 <= wrap64 z < 2^63.
Proof. unfold wrap64. pose proof (Z.mod_pos_bound (z + 2^63) (2^64)). lia. Qed.

(** Durations and instants are in nanoseconds. *)
Definition time_Millisecond : Z := 1000000.
Definition time_Second : Z := 1000000000.
Definition time_Minute : Z := 60 * time_Second.

(** ** Sizes of maps, as integers *)

Lemma size_delete_Z {A} (m : gmap nat A) i x :
  m !! i = Some x -> Z.of_nat (size (delete i m)) = Z.of_nat (size m) - 1.
Proof.
  intros H. rewrite map_size_delete, H. assert (size m <> 0%nat); [|lia].
  apply (map_size_ne_0_lookup_2 m i). eauto.
Qed.

Lemma size_insert_new_Z {A} (m : gmap nat A) i x :
  m !! i = None -> Z.of_nat (size (<[i := x]> m)) = Z.of_nat (size m) + 1.
Proof. intros H. rewrite map_size_insert_None by done. lia. Qed.

Lemma alter_twice `{Countable K} {A} (f g : A -> A) (i : K) (m : gmap K A) :
  alter f i (alter g i m) = alter (fun x => f (g x)) i m.
Proof.
  apply map_eq. intros j. destruct (decide (i = j)) as [->|Hne].
  - rewrite !lookup_alter_eq. by destruct (m !! j).
  - by rewrite !lookup_alter_ne.
Qed.

(** *** [TrimSpace] twice is [TrimSpace] once *)

Inductive spaces : string -> Prop :=
| spaces_nil : spaces ""
| spaces_cons s s' : drop_space_rune s = Some s' -> spaces s' -> spaces s.

Lemma drop_space_app s s' t : drop_space_rune s = Some s' -> drop_space_rune (s +:+ t) = Some (s' +:+ t)%string.
Proof. destruct s as [|c1 [|c2 [|c3 s]]]; simpl; intros H; repeat case_match; simplify_eq; done. Qed.

Lemma drop_space_length s s' : drop_space_rune s = Some s' -> (String.length s' < String.length s)%nat.
Proof. destruct s as [|c1 [|c2 [|c3 s]]]; simpl; intros H; repeat case_match; simplify_eq/=; lia. Qed.

Lemma spaces_app a b : spaces a -> spaces b -> spaces (a +:+ b).
Proof. induction 1 as [|s s' H _ IH]; intros Hb; [done|]. eapply spaces_cons; [by apply drop_space_app|by apply IH]. Qed.

Lemma trim_left_None fuel s : (String.length s <= fuel)%nat -> drop_space_rune (trim_left fuel s) = None.
Proof.
  revert s; induction fuel as [|fuel IH]; intros s Hl; simpl; [by destruct s; simpl in *; [|lia]|].
  destruct (drop_space_rune s) as [s'|] eqn:E; [|done]. apply IH. apply drop_space_length in E. lia.
Qed.

Lemma trim_left_spaces fuel s : (String.length s <= fuel)%nat -> trim_left fuel s = ""%string <-> spaces s.
Proof.
  revert s; induction fuel as [|fuel IH]; intros s Hl; simpl.
  - destruct s; simpl in *; [|lia]. split; [constructor|done].
  - destruct (drop_space_rune s) as [s'|] eqn:E.
    + pose proof (drop_space_length _ _ E). rewrite IH by lia. split; [by apply spaces_cons|].
      intros Hs. inversion Hs as [He|? ? E' Hs']; subst; [by destruct s'|congruence].
    + split; [intros ->; constructor|]. intros Hs. inversion Hs; subst; [done|congruence].
Qed.

Lemma trim_right_split s : exists w, s = (trim_right s +:+ w)%string /\ spaces w.
Proof.
  induction s as [|c s (w & Hw & Hs)]; [exists ""%string; split; [done|constructor]|]. cbn [trim_right].
  destruct (String.eqb_spec (trim_left (String.length (String c s)) (String c s)) "") as [E|E].
  - exists (String c s). split; [done|]. by apply trim_left_spaces in E.
  - exists w. split; [|done]. cbn [String.append]. by rewrite <- Hw.
Qed.

Lemma trim_right_idem s : trim_right (trim_right s) = trim_right s.
Proof.
  induction s as [|c s IH]; [done|]. cbn [trim_right].
  destruct (String.eqb_spec (trim_left (String.length (String c s)) (String c s)) "") as [E|E]; [done|].
  cbn [trim_right]. destruct (String.eqb_spec (trim_left (String.length (String c (trim_right s))) (String c (trim_right s))) "") as [E'|E'];
    [|by rewrite IH].
  exfalso. apply E. apply trim_left_spaces; [done|]. apply trim_left_spaces in E'; [|done].
  destruct (trim_right_split s) as (w & Hw & Hs). rewrite Hw. by apply (spaces_app (String c (trim_right s))).
Qed.

Lemma TrimSpace_idem s : TrimSpace (TrimSpace s) = TrimSpace s.
Proof.
  unfold TrimSpace at 1 3. set (u := trim_left (String.length s) s).
  assert (Hu : drop_space_rune (trim_right u) = None).
  { destruct (drop_space_rune (trim_right u)) as [x|] eqn:E; [|done]. destruct (trim_right_split u) as (w & Hw & _).
    apply (drop_space_app _ _ w) in E. rewrite <- Hw in E. by unfold u in E; rewrite trim_left_None in E. }
  change (TrimSpace s) with (trim_right u).
  assert (Ht : forall fuel, trim_left fuel (trim_right u) = trim_right u) by (intros [|fuel]; simpl; by rewrite ?Hu).
  by rewrite Ht, trim_right_idem.
Qed.
