(* ===== verification/Pipeline.v ===== *)
(** * Pipeline definitions: [pkg/pipeline/spec.go], [pkg/pipeline/parser.go],
    [pkg/manifest]

    The manifest types a user submits, [Validate] with every error path,
    [ApplyDefaults] and the driver merge functions, and [Parse].  A pipeline
    that validates is characterised without reference to the order of the
    checks ([valid_pipeline]), and its file paths never leave the directory
    they are joined to. *)

From S2P Require Import Prelude.
From Stdlib Require Import Floats.SpecFloat.
From stdpp Require Import options.
#[local] Open Scope Z_scope.

(** ** Data *)

(** Go's [any], for the values YAML and JSON decoding produce; a [float64] is
    kept as its IEEE-754 value. *)
Inductive any : Type :=
| ANil
| ABool (b : bool)
| AInt (z : Z)
| AFloat (f : spec_float)
| AStr (s : string)
| AList (l : list any)
| AMap (m : list (string * any)).

Record TypeMeta := mkTypeMeta { APIVersion : string; Kind : string }.

Record ObjectMeta := mkObjectMeta {
  m_Name : string; m_Version : Z; m_ProjectID : string;
  m_Labels : gmap string string; m_Description : string; m_Tags : list string }.

Record CredentialRef := mkCredentialRef { cr_Name : string; cr_Key : string }.

Record EnvVarSource := mkEnvVarSource { es_CredentialRef : option CredentialRef }.

Record EnvVar := mkEnvVar {
  ev_Name : string; ev_Value : string; ev_ValueFrom : option EnvVarSource }.

Record SpecOptions := mkSpecOptions { o_Env : list EnvVar; o_Timeout : Z }.

Record ResourceSpec := mkResourceSpec { CPU : string; Memory : string; GPU : string }.

(** [PodTemplate] is the pod template as the JSON document it is read from. *)
Record DriverK8sSpec := mkK8s {
  k8s_Image : string; k8s_Namespace : string; k8s_Replicas : Z;
  k8s_ImagePullPolicy : string; k8s_Resources : ResourceSpec; k8s_PodTemplate : any }.

Record DockerDevice := mkDockerDevice {
  dd_Driver : string; dd_Count : string; dd_DeviceIDs : list string; dd_Capabilities : list string }.

Record DockerReservations := mkDockerReservations { Devices : list DockerDevice }.

Record DockerDeployResources := mkDockerDeployResources { Reservations : option DockerReservations }.

Record DockerDeploySpec := mkDockerDeploySpec { Resources : DockerDeployResources }.

Record DriverDockerSpec := mkDocker {
  d_Image : string; d_CPUs : string; d_MemLimit : string; d_ShmSize : string;
  d_ReadOnly : bool; d_User : string; d_NetworkMode : string;
  d_Tmpfs : list string; d_Volumes : list string; d_Deploy : option DockerDeploySpec }.

Record DriverProcessSpec := mkProcess { p_Env : string; p_GPUs : string }.

Record DriverSpec := mkDriver {
  dr_Runtime : string;
  dr_K8s : option DriverK8sSpec;
  dr_Docker : option DriverDockerSpec;
  dr_Process : option DriverProcessSpec }.

Record Artifact := mkArtifact { a_Name : string; a_Path : string; a_From : string; a_Type : string }.

Record Run := mkRun {
  r_Source : string; r_Repo : string; r_Branch : string; r_Path : string;
  r_CredentialRef : string; r_Deps : list string; r_Prepare : list (list string);
  r_Dir : string; r_URL : string; r_Command : list string; r_SnapshotPrefix : string }.

Record Step := mkStep {
  s_Name : string; s_Options : SpecOptions; s_Run : Run; s_Driver : DriverSpec;
  s_Params : list (string * any); s_Inputs : list Artifact; s_Outputs : list Artifact;
  s_DependsOn : list string }.

Record NotifyAction := mkNotify { n_CredentialRef : string; n_Message : string }.

Record DeployTrigger := mkDeploy { dt_Service : string; dt_Artifact : string }.

Record OnOutcome := mkOutcome { oo_Deploy : option DeployTrigger; oo_Notify : list NotifyAction }.

Record PipelineSpec := mkSpec {
  ps_Defaults : option DriverSpec; ps_Steps : list Step;
  ps_OnSuccess : option OnOutcome; ps_OnFailure : option OnOutcome }.

Record Pipeline := mkPipeline {
  pl_TypeMeta : TypeMeta; pl_Metadata : ObjectMeta; pl_Spec : PipelineSpec }.

Definition APIVersionV1 : string := "piper/v1".

(** ** Errors, one constructor per message *)

Inductive label : Type :=
| LStepName
| LRunPath (step : string) | LRunDir (step : string)
| LDep (step : string) (i : nat)
| LInputName (step : string) (i : nat) | LInputArtifact (step : string) (i : nat)
| LOutputName (step : string) (i : nat) | LOutputPath (step : string) (i : nat).

Inductive verr : Type :=
| EMetaMissing | EUnsupportedVersion (v : string) | EWrongKind (want got : string)
| ENameRequired | ENoSteps | EStepNameRequired
| ERequired (l : label) | ENotPathSafe (l : label) | ENotRelative (l : label) | EEscapes (l : label)
| EDuplicateStep (s : string) | EUnknownDep (s dep : string)
| ECommandRequired (s : string) | EPrepareEmpty (s : string) (i : nat)
| EInputFrom (s : string) (i : nat) | EInputUnknownStep (s : string) (i : nat) (dep : string)
| EDockerImage (s : string) | EK8sImage (s : string) | EK8sNamespace (s : string)
| EUnsupportedRuntime (s r : string)
| EFailureDeploy
| ENotifyCredential (outcome : string) (i : nat) | ENotifyTooLong (outcome : string) (i : nat)
| ENotifyTemplate (outcome : string) (i : nat)
| EDecode | EPipelineRequired.

(** ** [pkg/manifest/decode.go] *)

Definition RequireTypeMeta (meta : TypeMeta) (kind : string) : res verr unit :=
  _ ← check (String.eqb (APIVersion meta) "" || String.eqb (Kind meta) "")%bool EMetaMissing;
  _ ← check (negb (String.eqb (APIVersion meta) APIVersionV1)) (EUnsupportedVersion (APIVersion meta));
  check (negb (String.eqb (Kind meta) kind)) (EWrongKind kind (Kind meta)).

Definition ValidateTypeMeta (meta : TypeMeta) (kind : string) : res verr unit :=
  if (String.eqb (APIVersion meta) "" && String.eqb (Kind meta) "")%bool then Ok tt
  else RequireTypeMeta meta kind.

(** ** Merging defaults *)

(** [len(t.Spec.Containers)] of a pod template document. *)
Definition any_field (k : string) (v : any) : any :=
  match v with
  | AMap m => match list_find (fun kv => kv.1 = k) m with Some (_, (_, v)) => v | None => ANil end
  | _ => ANil
  end.
Definition podContainers (t : any) : list any :=
  match any_field "containers" (any_field "spec" t) with AList l => l | _ => [] end.

Definition or_str (a b : string) : string := if String.eqb a "" then b else a.

Definition mergeK8sDriverSpec (base override : option DriverK8sSpec) : option DriverK8sSpec :=
  match base with
  | None => override
  | Some b =>
      match override with
      | None => Some b
      | Some o => Some {|
          k8s_Image := or_str (k8s_Image o) (k8s_Image b);
          k8s_Namespace := or_str (k8s_Namespace o) (k8s_Namespace b);
          k8s_Replicas := if k8s_Replicas o =? 0 then k8s_Replicas b else k8s_Replicas o;
          k8s_ImagePullPolicy := or_str (k8s_ImagePullPolicy o) (k8s_ImagePullPolicy b);
          k8s_Resources := {|
            CPU := or_str (CPU (k8s_Resources o)) (CPU (k8s_Resources b));
            Memory := or_str (Memory (k8s_Resources o)) (Memory (k8s_Resources b));
            GPU := or_str (GPU (k8s_Resources o)) (GPU (k8s_Resources b)) |};
          k8s_PodTemplate :=
            if Nat.eqb (List.length (podContainers (k8s_PodTemplate o))) 0
            then k8s_PodTemplate b else k8s_PodTemplate o |}
      end
  end.

Definition mergeDockerDriverSpec (base override : option DriverDockerSpec) : option DriverDockerSpec :=
  match base with
  | None => override
  | Some b =>
      match override with
      | None => Some b
      | Some o => Some {|
          d_Image := or_str (d_Image o) (d_Image b);
          d_CPUs := d_CPUs o; d_MemLimit := d_MemLimit o; d_ShmSize := d_ShmSize o;
          d_ReadOnly := d_ReadOnly o; d_User := d_User o; d_NetworkMode := d_NetworkMode o;
          d_Tmpfs := d_Tmpfs o; d_Volumes := d_Volumes o; d_Deploy := d_Deploy o |}
      end
  end.

Definition mergeDriverSpec (base override : DriverSpec) : DriverSpec := {|
  dr_Runtime := or_str (dr_Runtime override) (dr_Runtime base);
  dr_K8s := mergeK8sDriverSpec (dr_K8s base) (dr_K8s override);
  dr_Docker := mergeDockerDriverSpec (dr_Docker base) (dr_Docker override);
  dr_Process :=
    match dr_Process override with None => dr_Process base | Some p => Some p end |}.

Definition set_s_Driver (d : DriverSpec) (s : Step) : Step := {|
  s_Name := s_Name s; s_Options := s_Options s; s_Run := s_Run s; s_Driver := d;
  s_Params := s_Params s; s_Inputs := s_Inputs s; s_Outputs := s_Outputs s;
  s_DependsOn := s_DependsOn s |}.

Definition ApplyDefaults (p : Pipeline) : Pipeline :=
  match ps_Defaults (pl_Spec p) with
  | None => p
  | Some d => {|
      pl_TypeMeta := pl_TypeMeta p; pl_Metadata := pl_Metadata p;
      pl_Spec := {|
        ps_Defaults := ps_Defaults (pl_Spec p);
        ps_Steps := (fun s => set_s_Driver (mergeDriverSpec d (s_Driver s)) s) <$> ps_Steps (pl_Spec p);
        ps_OnSuccess := ps_OnSuccess (pl_Spec p);
        ps_OnFailure := ps_OnFailure (pl_Spec p) |} |}
  end.

(** ** Paths *)

Definition validatePathComponent (l : label) (value : string) : res verr unit :=
  _ ← check (String.eqb (TrimSpace value) "") (ERequired l);
  check (String.eqb value "." || String.eqb value ".." ||
         (str_mem slash value || str_mem backslash value))%bool (ENotPathSafe l).

Definition validateRelativePath (l : label) (value : string) (allowEmpty : bool) : res verr unit :=
  if String.eqb value "" then check (negb allowEmpty) (ERequired l)
  else
    let normalized := str_replace backslash slash value in
    _ ← check (String.prefix "/" normalized) (ENotRelative l);
    _ ← each (fun part => check (String.eqb part "..") (EEscapes l)) (str_split slash normalized);
    check (String.eqb (path_Clean normalized) ".." || String.prefix "../" (path_Clean normalized))%bool
          (EEscapes l).

(** ** Validation *)

(** The names seen so far are the keys of the Go map [names]. *)
Fixpoint collectNames (names : list string) (steps : list Step) : res verr (list string) :=
  match steps with
  | [] => Ok names
  | s :: steps =>
      _ ← check (String.eqb (s_Name s) "") EStepNameRequired;
      _ ← validatePathComponent LStepName (s_Name s);
      _ ← check (bool_decide (s_Name s ∈ names)) (EDuplicateStep (s_Name s));
      collectNames (s_Name s :: names) steps
  end.

Section Validate.

(** [text/template] accepts the message body. *)
Variable template_ok : string -> bool.

Definition validateInput (names : list string) (s : string) (i : nat) (input : Artifact) : res verr unit :=
  _ ← validatePathComponent (LInputName s i) (a_Name input);
  match str_split slash (a_From input) with
  | [stepName; artifact] =>
      _ ← check (String.eqb stepName "" || String.eqb artifact "")%bool (EInputFrom s i);
      _ ← check (bool_decide (stepName ∉ names)) (EInputUnknownStep s i stepName);
      validatePathComponent (LInputArtifact s i) artifact
  | _ => Err (EInputFrom s i)
  end.

Definition validateOutput (s : string) (i : nat) (output : Artifact) : res verr unit :=
  _ ← validatePathComponent (LOutputName s i) (a_Name output);
  validateRelativePath (LOutputPath s i) (a_Path output) false.

(** [range map[string]string{"run.path": ..., "run.dir": ...}]: [flip] tells
    which of the two keys Go's map iteration yields first. *)
Definition validateRunPaths (flip : bool) (s : Step) : res verr unit :=
  let path := validateRelativePath (LRunPath (s_Name s)) (r_Path (s_Run s)) true in
  let dir := validateRelativePath (LRunDir (s_Name s)) (r_Dir (s_Run s)) true in
  if flip then (_ ← dir; path) else (_ ← path; dir).

Definition validateStep (flip : bool) (names : list string) (s : Step) : res verr unit :=
  _ ← each (fun dep => check (bool_decide (dep ∉ names)) (EUnknownDep (s_Name s) dep)) (s_DependsOn s);
  _ ← check (Nat.eqb (List.length (r_Command (s_Run s))) 0) (ECommandRequired (s_Name s));
  _ ← eachi (fun i (c : list string) => check (Nat.eqb (List.length c) 0) (EPrepareEmpty (s_Name s) i)) (r_Prepare (s_Run s));
  _ ← validateRunPaths flip s;
  _ ← eachi (fun i dep => validateRelativePath (LDep (s_Name s) i) dep false) (r_Deps (s_Run s));
  _ ← eachi (validateInput names (s_Name s)) (s_Inputs s);
  eachi (validateOutput (s_Name s)) (s_Outputs s).

Definition validateRuntime (s : Step) : res verr unit :=
  let rt := dr_Runtime (s_Driver s) in
  if (String.eqb rt "" || String.eqb rt "baremetal")%bool then Ok tt
  else if String.eqb rt "docker" then
    match dr_Docker (s_Driver s) with
    | None => Err (EDockerImage (s_Name s))
    | Some d => check (String.eqb (d_Image d) "") (EDockerImage (s_Name s))
    end
  else if String.eqb rt "k8s" then
    match dr_K8s (s_Driver s) with
    | None => Err (EK8sImage (s_Name s))
    | Some k =>
        _ ← check (String.eqb (k8s_Image k) "") (EK8sImage (s_Name s));
        check (String.eqb (k8s_Namespace k) "") (EK8sNamespace (s_Name s))
    end
  else Err (EUnsupportedRuntime (s_Name s) rt).

Definition validateNotify (outcome : string) (i : nat) (a : NotifyAction) : res verr unit :=
  _ ← check (String.eqb (TrimSpace (n_CredentialRef a)) "") (ENotifyCredential outcome i);
  _ ← check (4096 <? Z.of_nat (String.length (n_Message a))) (ENotifyTooLong outcome i);
  check (negb (String.eqb (n_Message a) "") && negb (template_ok (n_Message a)))%bool
        (ENotifyTemplate outcome i).

Definition validateOutcome (outcome : string) (o : option OnOutcome) : res verr unit :=
  match o with
  | None => Ok tt
  | Some a => eachi (validateNotify outcome) (oo_Notify a)
  end.

(** [flip] and [flip'] are the iteration orders of the two two-key maps
    [Validate] ranges over; [flip] may differ from step to step. *)
Definition Validate (flip : Step -> bool) (flip' : bool) (p : Pipeline) : res verr unit :=
  let spec := pl_Spec p in
  _ ← ValidateTypeMeta (pl_TypeMeta p) "Pipeline";
  _ ← check (String.eqb (m_Name (pl_Metadata p)) "") ENameRequired;
  _ ← check (Nat.eqb (List.length (ps_Steps spec)) 0) ENoSteps;
  names ← collectNames [] (ps_Steps spec);
  _ ← each (fun s => validateStep (flip s) names s) (ps_Steps spec);
  _ ← each validateRuntime (ps_Steps (pl_Spec (ApplyDefaults p)));
  _ ← check match ps_OnFailure spec with
            | Some o => match oo_Deploy o with Some _ => true | None => false end
            | None => false
            end EFailureDeploy;
  let succ := validateOutcome "on_success" (ps_OnSuccess spec) in
  let fail := validateOutcome "on_failure" (ps_OnFailure spec) in
  if flip' then (_ ← fail; succ) else (_ ← succ; fail).

(** [Parse]: [decode] is the strict YAML decoder. *)
Definition Parse (decode : string -> option Pipeline) (flip : Step -> bool) (flip' : bool)
    (data : string) : res verr Pipeline :=
  match decode data with
  | None => Err EDecode
  | Some p =>
      _ ← RequireTypeMeta (pl_TypeMeta p) "Pipeline";
      _ ← Validate flip flip' p;
      Ok p
  end.

End Validate.

(** [Marshal]: [encode] is the YAML encoder. *)
Definition Marshal {B} (encode : Pipeline -> B) (pl : option Pipeline) : res verr B :=
  match pl with
  | None => Err EPipelineRequired
  | Some p =>
      let meta := if (String.eqb (APIVersion (pl_TypeMeta p)) "" && String.eqb (Kind (pl_TypeMeta p)) "")%bool
                  then mkTypeMeta APIVersionV1 "Pipeline" else pl_TypeMeta p in
      let cp := mkPipeline meta (pl_Metadata p) (pl_Spec p) in
      _ ← RequireTypeMeta meta "Pipeline";
      Ok (encode cp)
  end.

(** ** What a valid pipeline is, without the order of the checks *)

Definition safe_name (v : string) : Prop :=
  TrimSpace v <> ""%string /\ v <> "."%string /\ v <> ".."%string /\
  str_mem slash v = false /\ str_mem backslash v = false.

Definition normalized (v : string) : string := str_replace backslash slash v.

(** A relative path none of whose components (separated by either slash) is
    [..]. *)
Definition inside_path (v : string) : Prop :=
  String.prefix "/" (normalized v) = false /\ ".."%string ∉ str_split slash (normalized v).

Definition valid_input (names : list string) (a : Artifact) : Prop :=
  safe_name (a_Name a) /\
  exists step art, str_split slash (a_From a) = [step; art] /\
    step ∈ names /\ step <> ""%string /\ safe_name art.

Definition valid_output (a : Artifact) : Prop :=
  safe_name (a_Name a) /\ a_Path a <> ""%string /\ inside_path (a_Path a).

Record valid_step (names : list string) (s : Step) : Prop := {
  vs_deps : Forall (fun d => d ∈ names) (s_DependsOn s);
  vs_command : r_Command (s_Run s) <> [];
  vs_prepare : Forall (fun c => c <> []) (r_Prepare (s_Run s));
  vs_path : r_Path (s_Run s) = ""%string \/ inside_path (r_Path (s_Run s));
  vs_dir : r_Dir (s_Run s) = ""%string \/ inside_path (r_Dir (s_Run s));
  vs_rundeps : Forall (fun d => d <> ""%string /\ inside_path d) (r_Deps (s_Run s));
  vs_inputs : Forall (valid_input names) (s_Inputs s);
  vs_outputs : Forall valid_output (s_Outputs s) }.

Definition valid_runtime (s : Step) : Prop :=
  (dr_Runtime (s_Driver s) = ""%string \/ dr_Runtime (s_Driver s) = "baremetal"%string) \/
  (dr_Runtime (s_Driver s) = "docker"%string /\
     exists d, dr_Docker (s_Driver s) = Some d /\ d_Image d <> ""%string) \/
  (dr_Runtime (s_Driver s) = "k8s"%string /\
     exists k, dr_K8s (s_Driver s) = Some k /\ k8s_Image k <> ""%string /\ k8s_Namespace k <> ""%string).

Definition valid_meta (m : TypeMeta) : Prop :=
  (APIVersion m = ""%string /\ Kind m = ""%string) \/
  (APIVersion m = APIVersionV1 /\ Kind m = "Pipeline"%string).

Definition valid_notify (template_ok : string -> bool) (a : NotifyAction) : Prop :=
  TrimSpace (n_CredentialRef a) <> ""%string /\ Z.of_nat (String.length (n_Message a)) <= 4096 /\
  (n_Message a = ""%string \/ template_ok (n_Message a) = true).

Definition valid_outcome (template_ok : string -> bool) (o : option OnOutcome) : Prop :=
  match o with None => True | Some a => Forall (valid_notify template_ok) (oo_Notify a) end.

Definition step_names (p : Pipeline) : list string := s_Name <$> ps_Steps (pl_Spec p).

Record valid_pipeline (template_ok : string -> bool) (p : Pipeline) : Prop := {
  vp_meta : valid_meta (pl_TypeMeta p);
  vp_name : m_Name (pl_Metadata p) <> ""%string;
  vp_steps : ps_Steps (pl_Spec p) <> [];
  vp_names : Forall safe_name (step_names p);
  vp_nodup : NoDup (step_names p);
  vp_step : Forall (valid_step (step_names p)) (ps_Steps (pl_Spec p));
  vp_runtime : Forall valid_runtime (ps_Steps (pl_Spec (ApplyDefaults p)));
  vp_deploy : forall o, ps_OnFailure (pl_Spec p) = Some o -> oo_Deploy o = None;
  vp_success : valid_outcome template_ok (ps_OnSuccess (pl_Spec p));
  vp_failure : valid_outcome template_ok (ps_OnFailure (pl_Spec p)) }.

(** ** Validation accepts exactly the valid pipelines *)

Lemma length_zero_false {A} (l : list A) : Nat.eqb (List.length l) 0 = false <-> l <> [].
Proof. rewrite Nat.eqb_neq. by destruct l. Qed.

#[local] Hint Rewrite @bind_unit_ok @check_ok @each_ok @eachi_ok @orb_false_iff @String.eqb_neq
  @length_zero_false : ok.

Lemma validatePathComponent_ok l v : validatePathComponent l v = Ok tt <-> safe_name v.
Proof. unfold validatePathComponent, safe_name. autorewrite with ok. tauto. Qed.

Lemma not_dotdot_parts l (ws : list string) :
  each (fun part => check (E:=verr) (String.eqb part "..") (EEscapes l)) ws = Ok tt <->
  ".."%string ∉ ws.
Proof.
  rewrite each_ok, Forall_forall. setoid_rewrite check_ok. setoid_rewrite String.eqb_neq.
  naive_solver.
Qed.

Lemma validateRelativePath_ok l v allowEmpty :
  validateRelativePath l v allowEmpty = Ok tt <->
  (v = ""%string /\ allowEmpty = true) \/ (v <> ""%string /\ inside_path v).
Proof.
  unfold validateRelativePath, inside_path, normalized.
  destruct (String.eqb_spec v "") as [->|Hv].
  - rewrite check_ok, negb_false_iff. naive_solver.
  - rewrite !bind_unit_ok, !check_ok, not_dotdot_parts. split; [naive_solver|].
    intros [[? _]|(_ & Hp & Hs)]; [done|]. split_and!; [done..|].
    destruct (path_Clean_no_escape _ Hp Hs) as [H1%String.eqb_neq H2].
    by rewrite H1, H2.
Qed.

Lemma collectNames_ok names steps names' :
  NoDup names ->
  collectNames names steps = Ok names' <->
  names' = rev (s_Name <$> steps) ++ names /\
  Forall safe_name (s_Name <$> steps) /\ NoDup ((s_Name <$> steps) ++ names).
Proof.
  revert names; induction steps as [|s steps IH]; intros names Hnd; simpl.
  { split; [intros [= ->]; by split_and!|by intros [-> _]]. }
  rewrite !bind_unit_ok, !check_ok, validatePathComponent_ok, String.eqb_neq, bool_decide_eq_false.
  rewrite Forall_cons, NoDup_cons, not_elem_of_app.
  assert (Hp : s_Name s ∉ names -> NoDup (s_Name s :: names)) by (intros; by constructor).
  split.
  - intros (Hne & Hs & Hin & H). apply IH in H as (-> & ? & H); [|by apply Hp].
    rewrite <- app_assoc. split_and!; try done.
    + apply NoDup_app in H as (_ & H & _). intros Hx. apply (H _ Hx). by left.
    + apply NoDup_app in H as (? & H & ?%NoDup_cons_1_2).
      apply NoDup_app. split_and!; [done| |done]. intros x Hx1 Hx2. apply (H x Hx1). by right.
  - intros (-> & (Hs & Hss) & [Hx Hin] & H). split_and!; try done.
    + intros E. unfold safe_name in Hs. rewrite E in Hs. naive_solver.
    + apply IH; [by apply Hp|]. rewrite <- app_assoc. split_and!; [done..|].
      apply NoDup_app in H as (H1 & H2 & H3). apply NoDup_app.
      split_and!; [done| |by apply Hp]. intros y Hy [->|?]%elem_of_cons; [done|]. by eapply H2.
Qed.

Lemma Forall_lookup_iff {A} (P : A -> Prop) (l : list A) :
  (forall k x, l !! k = Some x -> P x) <-> Forall P l.
Proof. by rewrite Forall_lookup. Qed.

Lemma validateInput_ok names s i a : validateInput names s i a = Ok tt <-> valid_input names a.
Proof.
  unfold validateInput, valid_input. rewrite bind_unit_ok, validatePathComponent_ok.
  apply and_iff_compat_l.
  destruct (str_split slash (a_From a)) as [|st [|art [|]]];
    try (split; [done|by intros (? & ? & ? & _)]).
  rewrite !bind_unit_ok, !check_ok, orb_false_iff, !String.eqb_neq, bool_decide_eq_false,
    validatePathComponent_ok.
  split.
  - intros ([? ?] & Hin & ?). exists st, art. split_and!; try done. by apply dec_stable.
  - intros (? & ? & [= <- <-] & ? & ? & Hs). split_and!; try done; [|tauto].
    intros ->. by destruct Hs.
Qed.

Lemma validateOutput_ok s i a : validateOutput s i a = Ok tt <-> valid_output a.
Proof.
  unfold validateOutput, valid_output.
  rewrite bind_unit_ok, validatePathComponent_ok, validateRelativePath_ok. naive_solver.
Qed.

Lemma validateRunPaths_ok flip s :
  validateRunPaths flip s = Ok tt <->
  (r_Path (s_Run s) = ""%string \/ inside_path (r_Path (s_Run s))) /\
  (r_Dir (s_Run s) = ""%string \/ inside_path (r_Dir (s_Run s))).
Proof.
  assert (H : forall l v, validateRelativePath l v true = Ok tt <-> v = ""%string \/ inside_path v).
  { intros l v. rewrite validateRelativePath_ok. destruct (decide (v = ""%string)); naive_solver. }
  unfold validateRunPaths. destruct flip; rewrite bind_unit_ok, !H; tauto.
Qed.

Lemma validateStep_ok flip names s : validateStep flip names s = Ok tt <-> valid_step names s.
Proof.
  unfold validateStep.
  rewrite !bind_unit_ok, each_ok, !eachi_ok, check_ok, length_zero_false, validateRunPaths_ok.
  setoid_rewrite validateInput_ok. setoid_rewrite validateOutput_ok.
  setoid_rewrite validateRelativePath_ok. setoid_rewrite check_ok.
  setoid_rewrite length_zero_false. setoid_rewrite bool_decide_eq_false.
  rewrite (Forall_lookup_iff (valid_input names)), (Forall_lookup_iff valid_output).
  rewrite (Forall_lookup_iff (fun c : list string => c <> [])).
  rewrite (Forall_lookup_iff (fun d => (d = ""%string /\ false = true) \/ (d <> ""%string /\ inside_path d))).
  assert (Hd : Forall (fun d => ~ (d ∉ names)) (s_DependsOn s) <-> Forall (fun d => d ∈ names) (s_DependsOn s)).
  { apply Forall_iff. intros d. split; [apply dec_stable|tauto]. }
  rewrite Hd. split.
  - intros (? & ? & ? & [? ?] & Hr & ? & ?). split; try done.
    eapply Forall_impl; [done|]. naive_solver.
  - intros []. split_and!; try done. eapply Forall_impl; [done|]. naive_solver.
Qed.

Lemma validateRuntime_ok s : validateRuntime s = Ok tt <-> valid_runtime s.
Proof.
  unfold validateRuntime, valid_runtime.
  destruct (String.eqb_spec (dr_Runtime (s_Driver s)) "") as [->|]; [simpl; naive_solver|].
  destruct (String.eqb_spec (dr_Runtime (s_Driver s)) "baremetal") as [->|]; [simpl; naive_solver|].
  simpl.
  destruct (String.eqb_spec (dr_Runtime (s_Driver s)) "docker") as [->|].
  { destruct (dr_Docker (s_Driver s)); [|naive_solver].
    rewrite check_ok, String.eqb_neq. naive_solver. }
  destruct (String.eqb_spec (dr_Runtime (s_Driver s)) "k8s") as [->|]; [|naive_solver].
  destruct (dr_K8s (s_Driver s)); [|naive_solver].
  rewrite bind_unit_ok, !check_ok, !String.eqb_neq. naive_solver.
Qed.

Lemma validateNotify_ok tok name i a : validateNotify tok name i a = Ok tt <-> valid_notify tok a.
Proof.
  unfold validateNotify, valid_notify.
  rewrite !bind_unit_ok, !check_ok, String.eqb_neq, Z.ltb_ge, andb_false_iff, !negb_false_iff,
    String.eqb_eq. done.
Qed.

Lemma validateOutcome_ok tok name o : validateOutcome tok name o = Ok tt <-> valid_outcome tok o.
Proof.
  destruct o as [a|]; simpl; [|done].
  rewrite eachi_ok, <- Forall_lookup_iff. by setoid_rewrite validateNotify_ok.
Qed.

Lemma RequireTypeMeta_ok m kind :
  kind <> ""%string ->
  RequireTypeMeta m kind = Ok tt <-> APIVersion m = APIVersionV1 /\ Kind m = kind.
Proof.
  intros Hk. unfold RequireTypeMeta.
  rewrite !bind_unit_ok, !check_ok, orb_false_iff, !negb_false_iff, !String.eqb_neq, !String.eqb_eq.
  split; [naive_solver|]. intros [-> ->]. done.
Qed.

Lemma ValidateTypeMeta_ok m : ValidateTypeMeta m "Pipeline" = Ok tt <-> valid_meta m.
Proof.
  unfold ValidateTypeMeta, valid_meta.
  destruct (String.eqb_spec (APIVersion m) ""), (String.eqb_spec (Kind m) ""); simpl;
    [naive_solver|rewrite RequireTypeMeta_ok by done; naive_solver..].
Qed.

Lemma names_rev_elem (l : list string) : forall x, x ∈ rev l ++ [] <-> x ∈ l.
Proof. intros x. rewrite app_nil_r, !list_elem_of_In. symmetry. apply in_rev. Qed.

Lemma valid_step_names names names' s :
  (forall x, x ∈ names <-> x ∈ names') -> valid_step names s -> valid_step names' s.
Proof.
  intros Hn []. split; try done.
  - eapply Forall_impl; [done|]. intros. by apply Hn.
  - eapply Forall_impl; [done|]. unfold valid_input. intros a (? & st & art & ?).
    split; [done|]. exists st, art. rewrite <- Hn. done.
Qed.

(** C39: [Validate] accepts a pipeline exactly when it is well formed, whatever
    order Go's map iteration takes: type metadata, non-empty name, unique
    path-safe step names, every dependency and every input naming a step of the
    pipeline, a command per step, workspace-relative paths with no [..]
    component, a driver that fits the runtime after defaults are merged, no
    deploy on failure and well-formed notifications.  The test on
    [path.Clean] at the end of [validateRelativePath] rejects nothing the
    component test accepts. *)
Theorem Validate_spec template_ok flip flip' p :
  Validate template_ok flip flip' p = Ok tt <-> valid_pipeline template_ok p.
Proof.
  unfold Validate.
  rewrite !bind_unit_ok, !check_ok, ValidateTypeMeta_ok, String.eqb_neq, length_zero_false, bind_ok.
  setoid_rewrite collectNames_ok; [|by constructor].
  setoid_rewrite bind_unit_ok. setoid_rewrite bind_unit_ok. setoid_rewrite bind_unit_ok.
  setoid_rewrite each_ok. setoid_rewrite validateStep_ok. setoid_rewrite validateRuntime_ok.
  assert (Ho : forall b : bool, (if b
     then _ ← validateOutcome template_ok "on_failure" (ps_OnFailure (pl_Spec p));
          validateOutcome template_ok "on_success" (ps_OnSuccess (pl_Spec p))
     else _ ← validateOutcome template_ok "on_success" (ps_OnSuccess (pl_Spec p));
          validateOutcome template_ok "on_failure" (ps_OnFailure (pl_Spec p))) = Ok tt <->
     valid_outcome template_ok (ps_OnSuccess (pl_Spec p)) /\
     valid_outcome template_ok (ps_OnFailure (pl_Spec p))).
  { intros []; rewrite bind_unit_ok, !validateOutcome_ok; tauto. }
  setoid_rewrite Ho. setoid_rewrite check_ok. split.
  - intros (? & ? & ? & names & (-> & ? & Hnd) & Hs & ? & Hd & ? & ?).
    rewrite app_nil_r in Hnd. split; try done.
    + eapply Forall_impl; [done|]. intros s. apply valid_step_names, names_rev_elem.
    + intros o Eo. rewrite Eo in Hd. by destruct (oo_Deploy o).
  - intros []. split_and!; try done. eexists. split_and!; try done.
    + by rewrite app_nil_r.
    + eapply Forall_impl; [done|]. intros s. apply valid_step_names. symmetry. apply names_rev_elem.
    + destruct (ps_OnFailure (pl_Spec p)) as [o|]; [|done]. by rewrite (vp_deploy0 o).
Qed.

(** ** Paths stay inside their workspace *)

(** Every component of a path is a run of components of its normalised form. *)
Lemma normalized_split w l :
  str_split slash (normalized (str_join slash (w :: l))) =
  str_split slash (normalized w) ++ mjoin (str_split slash ∘ normalized <$> l).
Proof.
  revert w; induction l as [|w' l IH]; intros w; [simpl; by rewrite app_nil_r|].
  change (str_join slash (w :: w' :: l)) with (w +:+ String slash (str_join slash (w' :: l)))%string.
  unfold normalized in *. rewrite str_replace_app.
  change (str_replace backslash slash (String slash ?x)) with (String slash (str_replace backslash slash x)).
  by rewrite str_split_sep, (IH w').
Qed.

Lemma normalized_dotdot v :
  ".."%string ∈ str_split slash v -> ".."%string ∈ str_split slash (normalized v).
Proof.
  intros Hv. rewrite <- (str_join_split slash v).
  destruct (str_split slash v) as [|w l]; [by apply elem_of_nil in Hv|].
  rewrite normalized_split, elem_of_app, list_elem_of_join.
  apply elem_of_cons in Hv as [<-|Hv]; [left; by left|].
  right. exists (str_split slash (normalized "..")). split; [by left|].
  by apply (list_elem_of_fmap_2 (str_split slash ∘ normalized) l "..").
Qed.

(** a path that [validateRelativePath] accepts, joined to any clean absolute
    directory the way [path.Join] does, cleans to that directory or to a path
    below it: the directory followed by components none of which is [..]. *)
Theorem validateRelativePath_contained l v allowEmpty base
    (Hv : validateRelativePath l v allowEmpty = Ok tt) (Hb : clean_abs base) :
  path_Clean (base +:+ "/" +:+ v) = base \/
  exists rest, rest <> [] /\ ".."%string ∉ rest /\
    path_Clean (base +:+ "/" +:+ v) = (base +:+ "/" +:+ str_join slash rest)%string.
Proof.
  apply validateRelativePath_ok in Hv.
  assert (Hd : ".."%string ∉ str_split slash v).
  { destruct Hv as [[-> _]|(_ & _ & Hd)]; [simpl; set_solver|].
    intros Hin. by apply Hd, normalized_dotdot. }
  rewrite (path_Clean_join base v Hb Hd). case_bool_decide as E; [by left|].
  right. eexists. split_and!; [done| |done].
  rewrite list_elem_of_In, filter_In, <- list_elem_of_In. naive_solver.
Qed.

Lemma validateRelativePath_contained_witness :
  path_Clean ("/work" +:+ "/" +:+ "data/./in.csv") = "/work"%string \/
  exists rest, rest <> [] /\ ".."%string ∉ rest /\
    path_Clean ("/work" +:+ "/" +:+ "data/./in.csv") = ("/work" +:+ "/" +:+ str_join slash rest)%string.
Proof.
  apply (validateRelativePath_contained LStepName "data/./in.csv" false "/work");
    [reflexivity|]. by split_and!.
Defined.

(** ** Defaults *)

Lemma or_str_idem a b : or_str (or_str a b) b = or_str a b.
Proof. unfold or_str. destruct (String.eqb a "") eqn:E; [by destruct (String.eqb b "")|by rewrite E]. Qed.

Lemma mergeDriverSpec_idem d s : mergeDriverSpec d (mergeDriverSpec d s) = mergeDriverSpec d s.
Proof.
  unfold mergeDriverSpec; simpl. rewrite or_str_idem. f_equal.
  - destruct (dr_K8s d) as [b|], (dr_K8s s) as [o|]; simpl; try done; f_equal.
    + rewrite !or_str_idem. f_equal.
      * destruct (k8s_Replicas o =? 0) eqn:E; [by destruct (k8s_Replicas b =? 0)|by rewrite E].
      * destruct (Nat.eqb (List.length (podContainers (k8s_PodTemplate o))) 0) eqn:E; [|by rewrite E].
        by destruct (Nat.eqb (List.length (podContainers (k8s_PodTemplate b))) 0).
    + destruct b as [im ns rp pp [c m g] pt]; unfold or_str; simpl.
      repeat match goal with |- context [String.eqb ?x ""] => destruct (String.eqb x "") end;
        destruct (rp =? 0), (Nat.eqb (List.length (podContainers pt)) 0); done.
  - destruct (dr_Docker d) as [b|], (dr_Docker s) as [o|]; simpl; try done; f_equal.
    + by rewrite !or_str_idem.
    + destruct b; unfold or_str; simpl. by destruct (String.eqb d_Image0 "").
  - by destruct (dr_Process s), (dr_Process d).
Qed.

(** merging the pipeline defaults is idempotent: the queue, which applies
    them again on every submission and on every recovery, works on the same
    pipeline as the validator. *)
Theorem ApplyDefaults_idempotent p : ApplyDefaults (ApplyDefaults p) = ApplyDefaults p.
Proof.
  unfold ApplyDefaults. destruct (ps_Defaults (pl_Spec p)) as [d|] eqn:E; [|by rewrite E].
  simpl. do 2 f_equal. rewrite <- list_fmap_compose. apply list_fmap_ext.
  intros i s _. unfold set_s_Driver; simpl. by rewrite mergeDriverSpec_idem.
Qed.

(** Defaults change nothing but the driver of a step. *)
Lemma ApplyDefaults_steps p :
  exists f, ps_Steps (pl_Spec (ApplyDefaults p)) = (fun s => set_s_Driver (f s) s) <$> ps_Steps (pl_Spec p).
Proof.
  unfold ApplyDefaults. destruct (ps_Defaults (pl_Spec p)) as [d|]; simpl; [by eexists|].
  exists s_Driver. symmetry. etrans; [|apply list_fmap_id].
  apply list_fmap_ext. by intros _ [] _.
Qed.

Lemma ApplyDefaults_names p : step_names (ApplyDefaults p) = step_names p.
Proof.
  unfold step_names. destruct (ApplyDefaults_steps p) as [f ->].
  rewrite <- list_fmap_compose. by apply list_fmap_ext.
Qed.

Definition docker_cpus (c : string) : DriverDockerSpec :=
  mkDocker "python:3" c "" "" false "" "" [] [] None.

(** Docker defaults other than the image are dropped for a step that has a
    docker section of its own, unlike every Kubernetes default. *)
Lemma mergeDockerDriverSpec_drops_cpus :
  d_CPUs <$> mergeDockerDriverSpec (Some (docker_cpus "2")) (Some (docker_cpus "")) = Some ""%string.
Proof. reflexivity. Qed.
