(* ===== verification/Dag.v ===== *)
(** * The step graph: [pkg/pipeline/dag.go]

    [BuildDAG] with Kahn's algorithm as the code runs it (Go maps with zero
    values for absent keys, a FIFO of names, the length comparison that detects
    cycles) and the queries on the result.  The work-list loop runs on fuel;
    [topoSort_terminates] shows that twice the number of steps is enough. *)

From S2P Require Import Prelude Pipeline.
From stdpp Require Import options.
#[local] Open Scope Z_scope.

Record DAG := mkDAG {
  dag_steps : gmap string Step;
  dag_order : list string }.

Inductive dagErr : Type := ECyclic | EOutOfFuel.

(** [m[k]] on a [map[string]int] and on a [map[string][]string]. *)
Definition get0 (m : gmap string Z) (k : string) : Z := default 0 (m !! k).
Definition getl (m : gmap string (list string)) (k : string) : list string := default [] (m !! k).

Abbreviation graph := (gmap string Z * gmap string (list string))%type.

Definition addDep (name : string) (g : graph) (dep : string) : graph :=
  (<[name := get0 g.1 name + 1]> g.1, <[dep := getl g.2 dep ++ [name]]> g.2).

Definition addStep (g : graph) (s : Step) : graph :=
  let inDegree := match g.1 !! s_Name s with Some _ => g.1 | None => <[s_Name s := 0]> g.1 end in
  foldl (addDep (s_Name s)) (inDegree, g.2) (s_DependsOn s).

Definition buildGraph (steps : list Step) : graph := foldl addStep (∅, ∅) steps.

(** The body of the inner loop: [inDegree[next]--; if inDegree[next] == 0 { queue = append(queue, next) }]. *)
Definition relax (st : gmap string Z * list string) (next : string) : gmap string Z * list string :=
  let d := get0 st.1 next - 1 in
  (<[next := d]> st.1, if d =? 0 then st.2 ++ [next] else st.2).

Fixpoint kahn (fuel : nat) (adj : gmap string (list string)) (inDegree : gmap string Z)
    (queue order : list string) : option (list string) :=
  match queue with
  | [] => Some order
  | cur :: queue =>
      match fuel with
      | O => None
      | S fuel =>
          let st := foldl relax (inDegree, queue) (getl adj cur) in
          kahn fuel adj st.1 st.2 (order ++ [cur])
      end
  end.

Definition topoSort (steps : list Step) : res dagErr (list string) :=
  let g := buildGraph steps in
  let queue := List.filter (fun n => get0 g.1 n =? 0) (s_Name <$> steps) in
  match kahn (2 * List.length steps) g.2 g.1 queue [] with
  | None => Err EOutOfFuel
  | Some order =>
      if Nat.eqb (List.length order) (List.length steps) then Ok order else Err ECyclic
  end.

Definition BuildDAG (p : Pipeline) : res dagErr DAG :=
  let steps := foldl (fun m s => <[s_Name s := s]> m) ∅ (ps_Steps (pl_Spec p)) in
  order ← topoSort (ps_Steps (pl_Spec p));
  Ok (mkDAG steps order).

(** [Order]: nil for a name without a step. *)
Definition Order (d : DAG) : list (option Step) := (fun n => dag_steps d !! n) <$> dag_order d.

(** A [map[string]bool] is the list of its true keys. *)
Definition depsReady (s : Step) (done : gset string) : bool :=
  forallb (fun dep => bool_decide (dep ∈ done)) (s_DependsOn s).

Definition Runnable (d : DAG) (done : gset string) : list Step :=
  omap (fun n =>
    if bool_decide (n ∈ done) then None
    else s ← dag_steps d !! n; if depsReady s done then Some s else None) (dag_order d).

(** ** Termination *)

(** The names whose in-degree is still positive. *)
Definition pcount (m : gmap string Z) : nat := size (filter (fun kv : string * Z => 0 < kv.2) m).

Lemma pcount_insert_pos m k v v' :
  m !! k = Some v -> 0 < v -> 0 < v' -> pcount (<[k := v']> m) = pcount m.
Proof.
  intros Hk Hv Hv'. unfold pcount. rewrite map_filter_insert_True by done.
  apply map_size_insert_Some. eexists. by apply map_lookup_filter_Some.
Qed.

Lemma pcount_insert_zero m k v v' :
  m !! k = Some v -> 0 < v -> v' <= 0 -> pcount m = S (pcount (<[k := v']> m)).
Proof.
  intros Hk Hv Hv'. unfold pcount. rewrite map_filter_insert_False by (simpl; lia).
  rewrite map_filter_delete, map_size_delete_Some.
  - assert (size (filter (fun kv : string * Z => 0 < kv.2) m) <> 0%nat); [|lia].
    apply map_size_ne_0_lookup. exists k. eexists. by apply map_lookup_filter_Some.
  - eexists. by apply map_lookup_filter_Some.
Qed.

Lemma pcount_insert_nonpos m k v' :
  get0 m k <= 0 -> v' <= 0 -> pcount (<[k := v']> m) = pcount m.
Proof.
  intros Hk Hv'. unfold pcount. rewrite map_filter_insert_False by (simpl; lia).
  rewrite map_filter_delete, delete_id; [done|].
  apply map_lookup_filter_None. right. intros x Hx. unfold get0 in Hk. rewrite Hx in Hk.
  simpl in *. lia.
Qed.

Lemma relax_measure st next :
  (pcount (relax st next).1 + List.length (relax st next).2 = pcount st.1 + List.length st.2)%nat.
Proof.
  destruct st as [m q]. unfold relax; simpl.
  destruct (Z.le_gt_cases (get0 m next) 0) as [Hle|Hgt].
  - rewrite pcount_insert_nonpos by lia.
    by replace (get0 m next - 1 =? 0) with false by (symmetry; apply Z.eqb_neq; lia).
  - destruct (m !! next) as [v|] eqn:Em; unfold get0 in *; rewrite Em in *; simpl in *; [|lia].
    destruct (Z.eqb_spec (v - 1) 0).
    + rewrite (pcount_insert_zero m next v (v - 1)) by (done || lia).
      rewrite length_app. simpl. lia.
    + by rewrite (pcount_insert_pos m next v) by (done || lia).
Qed.

Lemma foldl_relax_measure l st :
  (pcount (foldl relax st l).1 + List.length (foldl relax st l).2 = pcount st.1 + List.length st.2)%nat.
Proof.
  revert st; induction l as [|x l IH]; intros st; simpl; [done|]. by rewrite IH, relax_measure.
Qed.

Lemma kahn_terminates fuel adj m q order :
  (pcount m + List.length q <= fuel)%nat -> exists order', kahn fuel adj m q order = Some order'.
Proof.
  revert m q order; induction fuel as [|fuel IH]; intros m [|cur q] order Hf; simpl in *;
    [by eexists|lia|by eexists|].
  apply IH. pose proof (foldl_relax_measure (getl adj cur) (m, q)). simpl in *. lia.
Qed.

Lemma dom_addStep g s : dom (addStep g s).1 = {[ s_Name s ]} ∪ dom g.1.
Proof.
  unfold addStep.
  assert (H : forall l g, s_Name s ∈ dom g.1 -> dom (foldl (addDep (s_Name s)) g l).1 = dom g.1).
  { induction l as [|d l IH]; intros g' Hg; simpl; [done|].
    rewrite IH; unfold addDep; simpl; rewrite dom_insert_L; set_solver. }
  rewrite H; simpl.
  - destruct (g.1 !! s_Name s) eqn:E; [|by rewrite dom_insert_L].
    apply elem_of_dom_2 in E. set_solver.
  - destruct (g.1 !! s_Name s) eqn:E; [by eapply elem_of_dom_2|]. rewrite dom_insert_L. set_solver.
Qed.

Lemma foldl_addStep_dom steps g :
  dom (foldl addStep g steps).1 = list_to_set (s_Name <$> steps) ∪ dom g.1.
Proof.
  revert g; induction steps as [|s steps IH]; intros g; simpl; [set_solver|].
  rewrite IH, dom_addStep. set_solver.
Qed.

Lemma pcount_le_dom m : (pcount m <= size (dom m))%nat.
Proof.
  unfold pcount. rewrite <- size_dom. apply subseteq_size.
  intros k. rewrite !elem_of_dom. intros [v Hv]. apply map_lookup_filter_Some in Hv as [? _].
  by eexists.
Qed.

Lemma size_list_to_set_le (l : list string) : (size (list_to_set l : gset string) <= List.length l)%nat.
Proof.
  induction l as [|x l IH]; simpl; [done|].
  rewrite (size_union_alt (C := gset string)). pose proof (size_singleton (C := gset string) x).
  pose proof (subseteq_size ((list_to_set l : gset string) ∖ {[x]}) (list_to_set l) ltac:(set_solver)). lia.
Qed.

Lemma topoSort_fuel steps :
  (pcount (buildGraph steps).1 +
   List.length (List.filter (fun n => (get0 (buildGraph steps).1 n =? 0)%Z) (s_Name <$> steps))
   <= 2 * List.length steps)%nat.
Proof.
  pose proof (pcount_le_dom (buildGraph steps).1) as H1.
  unfold buildGraph in *. rewrite foldl_addStep_dom in H1. simpl in H1.
  rewrite dom_empty_L, union_empty_r_L in H1.
  pose proof (size_list_to_set_le (s_Name <$> steps)) as H2.
  pose proof (filter_length_le (fun n => get0 (foldl addStep (∅, ∅) steps).1 n =? 0) (s_Name <$> steps)).
  rewrite length_fmap in *. lia.
Qed.

(** ** The loop invariant of Kahn's algorithm *)

(** The dependencies declared for a name (by every step that has it). *)
Fixpoint depsOf (steps : list Step) (x : string) : list string :=
  match steps with
  | [] => []
  | s :: steps => (if String.eqb (s_Name s) x then s_DependsOn s else []) ++ depsOf steps x
  end.

Definition cnt (x : string) (l : list string) : nat := count_occ String.string_dec l x.
#[local] Arguments cnt : simpl never.

(** Dependencies of [x] not yet in [order]. *)
Definition rem (steps : list Step) (order : list string) (x : string) : nat :=
  List.length (filter (fun d => d ∉ order) (depsOf steps x)).

Lemma cnt_nil x : cnt x [] = 0%nat.
Proof. done. Qed.

Lemma cnt_app x l1 l2 : cnt x (l1 ++ l2) = (cnt x l1 + cnt x l2)%nat.
Proof. apply count_occ_app. Qed.

Lemma cnt_cons x y l : cnt x (y :: l) = ((if decide (y = x) then 1 else 0) + cnt x l)%nat.
Proof.
  unfold cnt. simpl. destruct (String.string_dec y x), (decide (y = x)); done || lia.
Qed.

Lemma cnt_not_in x l : x ∉ l -> cnt x l = 0%nat.
Proof. intros H. apply count_occ_not_In. by rewrite <- list_elem_of_In. Qed.

Lemma depsOf_not_in steps x : x ∉ s_Name <$> steps -> depsOf steps x = [].
Proof.
  induction steps as [|s steps IH]; simpl; [done|].
  intros [Hn Hx]%not_elem_of_cons. destruct (String.eqb_spec (s_Name s) x); [congruence|].
  by apply IH.
Qed.

Lemma depsOf_in steps s : NoDup (s_Name <$> steps) -> s ∈ steps -> depsOf steps (s_Name s) = s_DependsOn s.
Proof.
  induction steps as [|s' steps IH]; simpl; [by intros _ ?%elem_of_nil|].
  intros [Hn Hnd]%NoDup_cons [->|Hs]%elem_of_cons.
  - rewrite String.eqb_refl, depsOf_not_in by done. apply app_nil_r.
  - destruct (String.eqb_spec (s_Name s') (s_Name s)) as [E|]; [|by apply IH].
    destruct Hn. rewrite E. by apply list_elem_of_fmap_2.
Qed.

Lemma foldl_addDep_spec name l g :
  (forall x, get0 (foldl (addDep name) g l).1 x =
     get0 g.1 x + if decide (x = name) then Z.of_nat (List.length l) else 0) /\
  (forall d x, cnt x (getl (foldl (addDep name) g l).2 d) =
     (cnt x (getl g.2 d) + if decide (x = name) then cnt d l else 0)%nat).
Proof.
  revert g; induction l as [|d0 l IH]; intros g; simpl.
  { split; intros; destruct (decide _); unfold cnt; simpl; lia. }
  destruct (IH (addDep name g d0)) as [IH1 IH2]. split.
  - intros x. rewrite IH1. unfold addDep, get0; simpl. rewrite lookup_insert.
    repeat case_decide; simplify_eq; simpl; lia.
  - intros d x. rewrite IH2. unfold addDep, getl; simpl. rewrite lookup_insert, cnt_cons.
    destruct (decide (d0 = d)) as [->|]; simpl; [rewrite cnt_app, cnt_cons|].
    all: repeat case_decide; simplify_eq; rewrite ?cnt_nil; lia.
Qed.

Lemma foldl_addStep_spec steps g :
  (forall x, get0 (foldl addStep g steps).1 x = get0 g.1 x + Z.of_nat (List.length (depsOf steps x))) /\
  (forall d x, cnt x (getl (foldl addStep g steps).2 d) = (cnt x (getl g.2 d) + cnt d (depsOf steps x))%nat).
Proof.
  revert g; induction steps as [|s steps IH]; intros g; simpl.
  { split; intros; rewrite ?cnt_nil; lia. }
  destruct (IH (addStep g s)) as [IH1 IH2].
  set (g0 := (match g.1 !! s_Name s with Some _ => g.1 | None => <[s_Name s := 0]> g.1 end, g.2)).
  destruct (foldl_addDep_spec (s_Name s) (s_DependsOn s) g0) as [H1 H2].
  assert (H0 : forall x, get0 g0.1 x = get0 g.1 x).
  { intros x. unfold g0, get0; simpl. destruct (g.1 !! s_Name s) eqn:E; [done|].
    rewrite lookup_insert. case_decide; simplify_eq; [by rewrite E|done]. }
  split.
  - intros x. rewrite IH1. change (addStep g s) with (foldl (addDep (s_Name s)) g0 (s_DependsOn s)).
    rewrite H1, H0, length_app. destruct (String.eqb_spec (s_Name s) x); case_decide; simplify_eq; simpl; lia.
  - intros d x. rewrite IH2. change (addStep g s) with (foldl (addDep (s_Name s)) g0 (s_DependsOn s)).
    rewrite H2, cnt_app. unfold g0; simpl.
    destruct (String.eqb_spec (s_Name s) x); case_decide; simplify_eq; rewrite ?cnt_nil; lia.
Qed.

Lemma buildGraph_spec steps :
  (forall x, get0 (buildGraph steps).1 x = Z.of_nat (List.length (depsOf steps x))) /\
  (forall d x, cnt x (getl (buildGraph steps).2 d) = cnt d (depsOf steps x)).
Proof.
  destruct (foldl_addStep_spec steps (∅, ∅)) as [H1 H2]. unfold buildGraph.
  split; intros; rewrite ?H1, ?H2; unfold get0, getl; simpl; by rewrite ?lookup_empty.
Qed.

Lemma rem_snoc steps order cur x :
  cur ∉ order -> rem steps order x = (rem steps (order ++ [cur]) x + cnt cur (depsOf steps x))%nat.
Proof.
  intros Hc. unfold rem. induction (depsOf steps x) as [|d l IH]; [done|].
  rewrite cnt_cons, !filter_cons.
  destruct (decide (d ∉ order)) as [Hd|Hd], (decide (d ∉ order ++ [cur])) as [Hd'|Hd'], (decide (d = cur));
    simplify_eq; simpl; rewrite ?IH; try lia; exfalso; set_solver.
Qed.

Lemma rem_zero steps order x : rem steps order x = 0%nat <-> Forall (fun d => d ∈ order) (depsOf steps x).
Proof.
  unfold rem. induction (depsOf steps x) as [|d l IH]; [by split|].
  rewrite filter_cons, Forall_cons, <- IH. case_decide; simpl; [split; [lia|tauto]|].
  split; [intros; split; [destruct (decide (d ∈ order)); tauto|done]|tauto].
Qed.

Section Loop.
Context (steps : list Step).
Local Notation names := (s_Name <$> steps).
Local Notation adj := (buildGraph steps).2.

(** The state in the middle of the inner loop: [rest] is what remains of the
    adjacency list being traversed. *)
Record kahn_inv (m : gmap string Z) (queue order rest : list string) : Prop := {
  ki_degree : forall x, get0 m x = Z.of_nat (rem steps order x + cnt x rest);
  ki_nodup : NoDup (order ++ queue);
  ki_elem : forall x, x ∈ order ++ queue <-> x ∈ names /\ get0 m x = 0 }.

(** A topological order so far: a name comes after all its dependencies. *)
Definition topological (order : list string) : Prop :=
  forall l1 x l2, order = l1 ++ x :: l2 -> Forall (fun d => d ∈ l1) (depsOf steps x).

Lemma adj_names d x : x ∈ getl adj d -> x ∈ names.
Proof.
  intros Hx. destruct (decide (x ∈ names)) as [|Hn]; [done|].
  destruct (buildGraph_spec steps) as [_ H]. specialize (H d x).
  rewrite depsOf_not_in, cnt_nil in H by done.
  apply list_elem_of_In, (count_occ_In String.string_dec) in Hx. unfold cnt in H. lia.
Qed.

Lemma relax_inv m queue order next rest :
  next ∈ names -> kahn_inv m queue order (next :: rest) ->
  kahn_inv (relax (m, queue) next).1 (relax (m, queue) next).2 order rest.
Proof.
  intros Hn [Hdeg Hnd Hel]. unfold relax; simpl.
  pose proof (Hdeg next) as Hdn. rewrite cnt_cons, decide_True in Hdn by done.
  assert (Hnew : next ∉ order ++ queue) by (rewrite Hel; lia).
  assert (Hdeg' : forall x, get0 (<[next:=get0 m next - 1]> m) x = Z.of_nat (rem steps order x + cnt x rest)).
  { intros x. unfold get0 at 1. rewrite lookup_insert. case_decide; simplify_eq/=; [lia|].
    fold (get0 m x). rewrite Hdeg, cnt_cons, decide_False by congruence. lia. }
  destruct (Z.eqb_spec (get0 m next - 1) 0) as [Hz|Hz]; split; try done.
  - rewrite app_assoc, NoDup_app. split_and!; [done|set_solver|apply NoDup_singleton].
  - intros x. rewrite app_assoc, elem_of_app, Hel, list_elem_of_singleton.
    destruct (decide (x = next)) as [->|Hx].
    + split; [intros _|by right]. split; [done|]. unfold get0. by rewrite lookup_insert_eq.
    + unfold get0. rewrite lookup_insert_ne by done. naive_solver.
  - intros x. rewrite Hel. destruct (decide (x = next)) as [->|Hx].
    + unfold get0 at 2. rewrite lookup_insert_eq. simpl. lia.
    + unfold get0. by rewrite lookup_insert_ne by done.
Qed.

Lemma foldl_relax_inv l m queue order :
  Forall (fun x => x ∈ names) l -> kahn_inv m queue order l ->
  kahn_inv (foldl relax (m, queue) l).1 (foldl relax (m, queue) l).2 order [].
Proof.
  revert m queue; induction l as [|x l IH]; intros m queue Hl Hi; simpl; [done|].
  apply Forall_cons in Hl as [Hx Hl].
  pose proof (relax_inv _ _ _ _ _ Hx Hi) as Hr. destruct (relax (m, queue) x). by apply IH.
Qed.

Lemma pop_inv m cur queue order :
  kahn_inv m (cur :: queue) order [] -> kahn_inv m queue (order ++ [cur]) (getl adj cur).
Proof.
  intros [Hdeg Hnd Hel].
  assert (Hc : cur ∉ order).
  { intros Hin. apply NoDup_app in Hnd as (_ & H & _). apply (H cur Hin). by left. }
  split.
  - intros x. rewrite Hdeg, (rem_snoc _ _ cur) by done.
    destruct (buildGraph_spec steps) as [_ H]. rewrite H, cnt_nil. f_equal. lia.
  - by rewrite <- app_assoc.
  - intros x. by rewrite <- app_assoc.
Qed.

Lemma pop_topological m cur queue order :
  kahn_inv m (cur :: queue) order [] -> topological order -> topological (order ++ [cur]).
Proof.
  intros [Hdeg Hnd Hel] Ht l1 x l2 E.
  destruct l2 as [|y l2] using rev_ind.
  - apply app_inj_tail in E as [-> ->].
    assert (Hx : x ∈ l1 ++ x :: queue) by set_solver.
    apply Hel in Hx as [_ Hx]. rewrite Hdeg, cnt_nil in Hx.
    apply rem_zero. lia.
  - change (x :: l2 ++ [y]) with ((x :: l2) ++ [y]) in E. rewrite app_assoc in E.
    apply app_inj_tail in E as [-> _]. by eapply Ht.
Qed.

Lemma kahn_spec fuel m queue order order' :
  kahn_inv m queue order [] -> topological order -> kahn fuel adj m queue order = Some order' ->
  topological order' /\ NoDup order' /\
  forall x, x ∈ order' <-> x ∈ names /\ rem steps order' x = 0%nat.
Proof.
  revert m queue order; induction fuel as [|fuel IH]; intros m [|cur queue] order Hi Ht; simpl; try done.
  1, 2: intros [= <-]; destruct Hi as [Hdeg Hnd Hel]; rewrite app_nil_r in Hnd;
    split_and!; [done..|]; intros x; rewrite <- (app_nil_r order), Hel, app_nil_r, Hdeg, cnt_nil;
    split; intros []; split; lia || done.
  apply IH.
  - apply foldl_relax_inv; [|by apply pop_inv].
    apply Forall_forall. intros x Hx. by eapply adj_names.
  - by eapply pop_topological.
Qed.

Lemma init_inv :
  NoDup names ->
  kahn_inv (buildGraph steps).1 (List.filter (fun n => get0 (buildGraph steps).1 n =? 0) names) [] [].
Proof.
  intros Hnd. destruct (buildGraph_spec steps) as [Hd _]. split; simpl.
  - intros x. rewrite Hd, cnt_nil, Nat.add_0_r. f_equal. unfold rem.
    induction (depsOf steps x) as [|d l IH]; [done|].
    rewrite filter_cons_True by apply not_elem_of_nil. simpl. by f_equal.
  - apply NoDup_ListNoDup, List.NoDup_filter. by apply NoDup_ListNoDup.
  - intros x. rewrite !list_elem_of_In, filter_In, Z.eqb_eq. done.
Qed.

(** [topoSort] always returns: the fuel is enough, so the only error is the
    cycle error of the code. *)
Lemma topoSort_terminates : topoSort steps <> Err EOutOfFuel.
Proof.
  unfold topoSort. edestruct (kahn_terminates _ adj _ _ [] (topoSort_fuel steps)) as [order ->].
  by destruct (Nat.eqb _ _).
Qed.

Lemma topoSort_ok order :
  NoDup names -> topoSort steps = Ok order ->
  order ≡ₚ names /\ topological order.
Proof.
  intros Hnd. unfold topoSort. destruct (kahn _ _ _ _ _) as [o|] eqn:Ek; [|done].
  destruct (Nat.eqb_spec (List.length o) (List.length steps)) as [El|]; [|done]. intros [= ->].
  destruct (kahn_spec _ _ _ _ _ (init_inv Hnd) ltac:(by intros [] ? ?) Ek) as (Ht & Hno & Hel).
  split; [|done]. apply submseteq_length_Permutation.
  - apply NoDup_submseteq; [done|]. intros x [? _]%Hel. done.
  - by rewrite El, length_fmap.
Qed.

(** Every dependency names a step, and the steps can be numbered so that
    dependencies have smaller numbers. *)
Definition acyclic : Prop :=
  exists rank : string -> nat, forall s d,
    s ∈ steps -> d ∈ s_DependsOn s -> d ∈ names /\ (rank d < rank (s_Name s))%nat.

Lemma depsOf_elem x d : d ∈ depsOf steps x <-> exists s, s ∈ steps /\ s_Name s = x /\ d ∈ s_DependsOn s.
Proof.
  induction steps as [|s l IH]; simpl.
  - split; [by intros ?%elem_of_nil|by intros (? & ?%elem_of_nil & _)].
  - rewrite elem_of_app, IH. setoid_rewrite elem_of_cons.
    destruct (String.eqb_spec (s_Name s) x); set_solver.
Qed.

Lemma acyclic_topoSort : NoDup names -> acyclic -> exists order, topoSort steps = Ok order.
Proof.
  intros Hnd [rank Hr]. unfold topoSort.
  edestruct (kahn_terminates _ adj _ _ [] (topoSort_fuel steps)) as [order Ek]. rewrite Ek.
  destruct (kahn_spec _ _ _ _ _ (init_inv Hnd) ltac:(by intros [] ? ?) Ek) as (_ & Hno & Hel).
  assert (Hall : forall n x, (rank x < n)%nat -> x ∈ names -> x ∈ order).
  { induction n as [|n IH]; intros x Hx Hn; [lia|]. apply Hel. split; [done|].
    apply rem_zero, Forall_forall. intros d (s & Hs & <- & Hd)%depsOf_elem.
    destruct (Hr s d Hs Hd). apply IH; [lia|done]. }
  assert (Hp : order ≡ₚ names).
  { apply NoDup_Permutation; [done..|]. intros x. split; [by intros [? _]%Hel|].
    apply (Hall (S (rank x))). lia. }
  rewrite (Permutation_length Hp), length_fmap, Nat.eqb_refl. by eexists.
Qed.

Definition index (l : list string) (x : string) : nat :=
  match list_find (eq x) l with Some (i, _) => i | None => 0%nat end.

Lemma index_lt l1 x l2 d :
  NoDup (l1 ++ x :: l2) -> d ∈ l1 -> (index (l1 ++ x :: l2) d < index (l1 ++ x :: l2) x)%nat.
Proof.
  intros (_ & Hdis & _)%NoDup_app Hd. unfold index.
  rewrite (list_find_app_r (eq x)); simpl.
  2: { apply list_find_None, Forall_forall. intros y Hy <-. apply (Hdis _ Hy). by left. }
  rewrite decide_True by done. simpl.
  destruct (list_find_elem_of (eq d) l1 d Hd eq_refl) as [[i y] Hi].
  rewrite (list_find_app_l _ _ _ _ _ Hi).
  apply list_find_Some in Hi as (Hi%lookup_lt_Some & _). done.
Qed.

Lemma topoSort_acyclic order : NoDup names -> topoSort steps = Ok order -> acyclic.
Proof.
  intros Hnd Ho. destruct (topoSort_ok _ Hnd Ho) as [Hp Ht].
  exists (index order).
  intros s d Hs Hd.
  assert (Hn : s_Name s ∈ order) by (rewrite Hp; by apply list_elem_of_fmap_2).
  apply list_elem_of_split in Hn as (l1 & l2 & E).
  assert (Hdl : d ∈ l1).
  { pose proof (Ht _ _ _ E) as Hf. rewrite Forall_forall in Hf. apply Hf, depsOf_elem. by exists s. }
  assert (Hno : NoDup order) by by rewrite Hp.
  split; [rewrite <- Hp, E; set_solver|].
  rewrite E. apply index_lt; [by rewrite <- E|done].
Qed.

End Loop.

(** ** [BuildDAG] *)

Lemma foldl_steps_lookup l (m : gmap string Step) s :
  NoDup (s_Name <$> l) -> s ∈ l -> foldl (fun m s => <[s_Name s := s]> m) m l !! s_Name s = Some s.
Proof.
  revert m; induction l as [|s' l IH]; intros m; simpl; [by intros _ ?%elem_of_nil|].
  intros [Hn Hnd]%NoDup_cons [->|Hs]%elem_of_cons; [|by apply IH].
  clear IH. assert (H : forall m : gmap string Step, s_Name s' ∉ s_Name <$> l ->
    foldl (fun m s => <[s_Name s := s]> m) m l !! s_Name s' = m !! s_Name s').
  { clear. induction l as [|x l IH]; intros m H; simpl; [done|].
    apply not_elem_of_cons in H as [Hx H]. rewrite IH by done. by apply lookup_insert_ne. }
  rewrite H by done. apply lookup_insert_eq.
Qed.

Lemma BuildDAG_inv p d :
  NoDup (step_names p) -> BuildDAG p = Ok d ->
  topoSort (ps_Steps (pl_Spec p)) = Ok (dag_order d) /\
  (forall s, s ∈ ps_Steps (pl_Spec p) -> dag_steps d !! s_Name s = Some s) /\
  dag_order d ≡ₚ step_names p.
Proof.
  intros Hnd Hd. unfold BuildDAG in Hd. apply bind_ok in Hd as (order & Ho & [= <-]).
  split_and!; [done| |].
  - intros s Hs. by apply foldl_steps_lookup.
  - by destruct (topoSort_ok _ _ Hnd Ho).
Qed.

(** C40: for a pipeline with distinct step names [BuildDAG] succeeds exactly when
    every dependency names a step and the dependency relation has no cycle;
    otherwise it returns the cycle error.  The work list never runs out of the
    fuel the model gives it. *)
Theorem BuildDAG_acyclic p (Hnd : NoDup (step_names p)) :
  ((exists d, BuildDAG p = Ok d) <-> acyclic (ps_Steps (pl_Spec p))) /\
  (~ acyclic (ps_Steps (pl_Spec p)) <-> BuildDAG p = Err ECyclic).
Proof.
  unfold BuildDAG.
  pose proof (topoSort_terminates (ps_Steps (pl_Spec p))) as Hf.
  pose proof (acyclic_topoSort _ Hnd) as Ha.
  destruct (topoSort (ps_Steps (pl_Spec p))) as [order|[]] eqn:Ho; simpl; [| |done].
  - pose proof (topoSort_acyclic _ _ Hnd Ho). split; split; [done|intros _; by eexists|tauto|done].
  - assert (~ acyclic (ps_Steps (pl_Spec p))) by (by intros (? & ?)%Ha).
    split; split; [by intros []|tauto|done|done].
Qed.

Definition demo_step (name : string) (deps : list string) : Step :=
  mkStep name (mkSpecOptions [] 0) (mkRun "" "" "" "" "" [] [] "" "" ["true"%string] "")
    (mkDriver "" None None None) [] [] [] deps.
Definition demo_pipeline (steps : list Step) : Pipeline :=
  mkPipeline (mkTypeMeta "piper/v1" "Pipeline") (mkObjectMeta "demo" 0 "" ∅ "" [])
    (mkSpec None steps None None).

Definition diamond : Pipeline :=
  demo_pipeline [demo_step "d" ["b"; "c"]; demo_step "b" ["a"]; demo_step "c" ["a"; "a"]; demo_step "a" []].

Lemma BuildDAG_acyclic_witness :
  ((exists d, BuildDAG diamond = Ok d) <-> acyclic (ps_Steps (pl_Spec diamond))) /\
  (~ acyclic (ps_Steps (pl_Spec diamond)) <-> BuildDAG diamond = Err ECyclic).
Proof. apply (BuildDAG_acyclic diamond). compute_decide. Defined.

(** the order of a built graph lists every step once, each after all the
    steps it depends on, and [Order] finds the step of every name in it. *)
Theorem BuildDAG_order p d (Hnd : NoDup (step_names p)) (Hd : BuildDAG p = Ok d) :
  dag_order d ≡ₚ step_names p /\
  (forall l1 x l2, dag_order d = l1 ++ x :: l2 ->
     exists s, s ∈ ps_Steps (pl_Spec p) /\ s_Name s = x /\ Forall (fun dep => dep ∈ l1) (s_DependsOn s)) /\
  Order d ≡ₚ Some <$> ps_Steps (pl_Spec p).
Proof.
  destruct (BuildDAG_inv _ _ Hnd Hd) as (Ho & Hl & Hp). split_and!; [done| |].
  - intros l1 x l2 E.
    assert (Hx : x ∈ step_names p) by (rewrite <- Hp, E; set_solver).
    apply list_elem_of_fmap in Hx as (s & -> & Hs). exists s. split_and!; [done..|].
    destruct (topoSort_ok _ _ Hnd Ho) as [_ Ht].
    by rewrite <- (depsOf_in _ s Hnd Hs); eapply Ht.
  - unfold Order. rewrite Hp. unfold step_names. rewrite <- list_fmap_compose.
    erewrite list_fmap_ext; [done|]. intros i s Hs. apply Hl. by eapply list_elem_of_lookup_2.
Qed.

Lemma BuildDAG_order_witness :
  exists d, dag_order d ≡ₚ step_names diamond /\
  (forall l1 x l2, dag_order d = l1 ++ x :: l2 ->
     exists s, s ∈ ps_Steps (pl_Spec diamond) /\ s_Name s = x /\ Forall (fun dep => dep ∈ l1) (s_DependsOn s)) /\
  Order d ≡ₚ Some <$> ps_Steps (pl_Spec diamond).
Proof.
  eexists. apply (BuildDAG_order diamond); [compute_decide|].
  vm_compute. reflexivity.
Defined.

Lemma depsReady_true s done : depsReady s done = true <-> Forall (fun dep => dep ∈ done) (s_DependsOn s).
Proof.
  unfold depsReady. rewrite <- Is_true_true, forallb_True.
  apply Forall_iff. intros x. apply bool_decide_spec.
Qed.

(** [Runnable] returns exactly the steps that are not done and whose
    dependencies are all done, and as long as some step is not done there is
    one: a runner that executes what [Runnable] returns never deadlocks. *)
Theorem Runnable_spec p d done (Hnd : NoDup (step_names p)) (Hd : BuildDAG p = Ok d) :
  (forall s, s ∈ Runnable d done <->
     s ∈ ps_Steps (pl_Spec p) /\ s_Name s ∉ done /\ Forall (fun dep => dep ∈ done) (s_DependsOn s)) /\
  (Runnable d done = [] -> Forall (fun n => n ∈ done) (step_names p)).
Proof.
  destruct (BuildDAG_inv _ _ Hnd Hd) as (Ho & Hl & Hp).
  assert (Hr : forall s, s ∈ Runnable d done <->
     s ∈ ps_Steps (pl_Spec p) /\ s_Name s ∉ done /\ Forall (fun dep => dep ∈ done) (s_DependsOn s)).
  { intros s. unfold Runnable. rewrite list_elem_of_omap. setoid_rewrite Hp. split.
    - intros (n & (s' & -> & Hs')%list_elem_of_fmap & Hn). case_bool_decide; [done|].
      rewrite (Hl _ Hs') in Hn. simpl in Hn.
      destruct (depsReady s' done) eqn:E; [|done]. injection Hn as <-.
      by apply depsReady_true in E.
    - intros (Hs & Hn & Hdeps). exists (s_Name s). split; [by apply list_elem_of_fmap_2|].
      rewrite bool_decide_eq_false_2 by done. rewrite (Hl _ Hs). simpl.
      by apply depsReady_true in Hdeps as ->. }
  split; [done|]. intros Hnil.
  destruct (topoSort_acyclic _ _ Hnd Ho) as [rank Hrank].
  apply Forall_forall.
  assert (H : forall n x, (rank x < n)%nat -> x ∈ step_names p -> x ∈ done).
  { induction n as [|n IH]; intros x Hx Hin; [lia|].
    destruct (decide (x ∈ done)) as [|Hnd']; [done|].
    apply list_elem_of_fmap in Hin as (s & -> & Hs).
    assert (Hin : s ∈ Runnable d done); [|rewrite Hnil in Hin; by apply elem_of_nil in Hin].
    apply Hr. split_and!; [done..|]. apply Forall_forall. intros dep Hdep.
    destruct (Hrank _ _ Hs Hdep). apply IH; [lia|done]. }
  intros x. apply (H (S (rank x))). lia.
Qed.

Lemma Runnable_spec_witness :
  exists d, (forall s, s ∈ Runnable d {["a"%string]} <->
     s ∈ ps_Steps (pl_Spec diamond) /\ s_Name s ∉ ({["a"%string]} : gset string) /\
     Forall (fun dep => dep ∈ ({["a"%string]} : gset string)) (s_DependsOn s)) /\
  (Runnable d {["a"%string]} = [] -> Forall (fun n => n ∈ ({["a"%string]} : gset string)) (step_names diamond)).
Proof.
  eexists. apply (Runnable_spec diamond); [compute_decide|].
  vm_compute. reflexivity.
Defined.
