(* ===== verification/RunStore.v ===== *)
(** * Run and step rows: [internal/store/sqlite/run.go], [internal/store/sqlite/step.go],
    [pkg/pipeline/run/model.go]

    The two tables the pipeline engine writes, keyed by their primary keys, and
    the SQL statements of the repositories as functions on them.  A statement
    either runs as written or fails; failures are injected by the callers
    (see [Queue.persistWithRetry]). *)

From S2P Require Import Prelude.
From stdpp Require Import options.
#[local] Open Scope Z_scope.

Definition StatusRunning : string := "running".
Definition StatusScheduled : string := "scheduled".
Definition StatusSuccess : string := "success".
Definition StatusFailed : string := "failed".
Definition StatusCanceled : string := "canceled".

(** [run.Run], without the fields no statement below reads or writes alone. *)
Record RunRow := mkRunRow {
  run_ID : string; run_ProjectID : string; run_ScheduleID : string;
  run_Experiment : string; run_PipelineName : string; run_Status : string;
  run_StartedAt : Z; run_EndedAt : option Z; run_ScheduledAt : option Z;
  run_PipelineYAML : string; run_ParamsJSON : string; run_CreatedBy : string;
  run_StorageBackend : string }.

(** [run.Step]. *)
Record StepRow := mkStepRow {
  st_ProjectID : string; st_RunID : string; st_StepName : string; st_Status : string;
  st_StartedAt : option Z; st_EndedAt : option Z; st_Error : string; st_Attempts : Z }.

Record DB := mkDB {
  db_runs : gmap (string * string) RunRow;
  db_steps : gmap (string * string * string) StepRow }.

Definition set_db_runs f (db : DB) := mkDB (f (db_runs db)) (db_steps db).
Definition set_db_steps f (db : DB) := mkDB (db_runs db) (f (db_steps db)).

Definition set_run_status (status : string) (endedAt : option Z) (r : RunRow) : RunRow := {|
  run_ID := run_ID r; run_ProjectID := run_ProjectID r; run_ScheduleID := run_ScheduleID r;
  run_Experiment := run_Experiment r; run_PipelineName := run_PipelineName r; run_Status := status;
  run_StartedAt := run_StartedAt r; run_EndedAt := endedAt; run_ScheduledAt := run_ScheduledAt r;
  run_PipelineYAML := run_PipelineYAML r; run_ParamsJSON := run_ParamsJSON r;
  run_CreatedBy := run_CreatedBy r; run_StorageBackend := run_StorageBackend r |}.

Definition set_run_running (startedAt : Z) (r : RunRow) : RunRow := {|
  run_ID := run_ID r; run_ProjectID := run_ProjectID r; run_ScheduleID := run_ScheduleID r;
  run_Experiment := run_Experiment r; run_PipelineName := run_PipelineName r;
  run_Status := StatusRunning;
  run_StartedAt := startedAt; run_EndedAt := run_EndedAt r; run_ScheduledAt := run_ScheduledAt r;
  run_PipelineYAML := run_PipelineYAML r; run_ParamsJSON := run_ParamsJSON r;
  run_CreatedBy := run_CreatedBy r; run_StorageBackend := run_StorageBackend r |}.

(** ** Runs *)

Definition run_key (r : RunRow) : string * string := (run_ProjectID r, run_ID r).

(** [INSERT]: an existing key violates the primary key; [ended_at] is not a
    column of the statement. *)
Definition Create (row : RunRow) (db : DB) : option DB :=
  match db_runs db !! run_key row with
  | Some _ => None
  | None => Some (set_db_runs <[run_key row := set_run_status (run_Status row) None row]> db)
  end.

Definition Get (projectID id : string) (db : DB) : option RunRow := db_runs db !! (projectID, id).

Definition UpdateStatus (projectID id status : string) (endedAt : option Z) (db : DB) : DB :=
  set_db_runs (alter (set_run_status status endedAt) (projectID, id)) db.

(** [status NOT IN ('success', 'failed', 'canceled')] *)
Definition not_final (status : string) : bool :=
  negb (String.eqb status StatusSuccess || String.eqb status StatusFailed || String.eqb status StatusCanceled).

Definition FinalizeStatusCAS (projectID id to : string) (endedAt : option Z) (db : DB) : bool * DB :=
  match db_runs db !! (projectID, id) with
  | Some r =>
      if not_final (run_Status r)
      then (true, set_db_runs <[(projectID, id) := set_run_status to endedAt r]> db)
      else (false, db)
  | None => (false, db)
  end.

Definition MarkRunning (projectID id : string) (startedAt : Z) (db : DB) : DB :=
  set_db_runs (alter (set_run_running startedAt) (projectID, id)) db.

Definition Delete (projectID id : string) (db : DB) : DB := set_db_runs (delete (projectID, id)) db.

(** [ListTerminalBefore], without its ordering. *)
Definition ListTerminalBefore (projectID : string) (cutoff : Z) (db : DB) : list RunRow :=
  List.filter (fun r =>
    String.eqb (run_ProjectID r) projectID &&
    match run_EndedAt r with Some e => e <? cutoff | None => false end &&
    negb (String.eqb (run_Status r) StatusRunning || String.eqb (run_Status r) StatusScheduled))%bool
    (map_to_list (db_runs db)).*2.

Definition ExistingIDs (ids : list string) (db : DB) : gset string :=
  list_to_set (List.filter (fun id => bool_decide (id ∈ ids)) (run_ID <$> (map_to_list (db_runs db)).*2)).

(** ** Steps *)

Definition step_key (s : StepRow) : string * string * string :=
  (st_ProjectID s, st_RunID s, st_StepName s).

Definition Upsert (s : StepRow) (db : DB) : DB := set_db_steps <[step_key s := s]> db.

Definition UpsertCAS (s : StepRow) (db : DB) : bool * DB :=
  match db_steps db !! step_key s with
  | Some old => if st_Attempts old <=? st_Attempts s then (true, Upsert s db) else (false, db)
  | None => (true, Upsert s db)
  end.

Definition ListSteps (projectID runID : string) (db : DB) : list StepRow :=
  List.filter (fun s => String.eqb (st_ProjectID s) projectID && String.eqb (st_RunID s) runID)%bool
    (map_to_list (db_steps db)).*2.

Definition DeleteByRun (projectID runID : string) (db : DB) : DB :=
  set_db_steps (fun m => filter (fun kv => negb
    (String.eqb kv.1.1.1 projectID && String.eqb kv.1.1.2 runID) = true) m) db.

(** ** Listing and deleting *)

(** [run.RunFilter] without the sorting by a metric. *)
Record RunFilter := mkFilter {
  f_Experiment : string; f_PipelineName : string; f_ScheduleID : string; f_Status : string;
  f_Limit : Z; f_Offset : Z }.

(** [ORDER BY started_at DESC, id DESC] *)
Definition newest_first (a b : RunRow) : Prop :=
  run_StartedAt b < run_StartedAt a \/
  (run_StartedAt a = run_StartedAt b /\ String.leb (run_ID b) (run_ID a) = true).

#[export] Instance newest_first_dec : RelDecision newest_first.
Proof. intros a b. unfold newest_first. apply _. Defined.

Definition matches (want got : string) : bool := (String.eqb want "" || String.eqb got want)%bool.

Definition ListRuns (projectID : string) (f : RunFilter) (db : DB) : list RunRow :=
  let out := merge_sort newest_first (List.filter (fun r =>
    String.eqb (run_ProjectID r) projectID && matches (f_Experiment f) (run_Experiment r) &&
    matches (f_PipelineName f) (run_PipelineName r) && matches (f_ScheduleID f) (run_ScheduleID r) &&
    matches (f_Status f) (run_Status r))%bool (map_to_list (db_runs db)).*2) in
  if 0 <? f_Limit f then take (Z.to_nat (f_Limit f)) (drop (Z.to_nat (f_Offset f)) out) else out.

(** The transactions of [internal/store.Repos]; the submissions of a deleted
    run stay. *)
Definition DeleteRun (projectID id : string) (db : DB) : DB :=
  Delete projectID id (DeleteByRun projectID id db).

Definition DeleteRuns (projectID : string) (ids : list string) (db : DB) : DB :=
  foldl (fun db id => DeleteRun projectID id db) db ids.

(** ** Facts *)

Definition is_final (status : string) : Prop := not_final status = false.

Lemma FinalizeStatusCAS_spec p id to e db applied db' :
  FinalizeStatusCAS p id to e db = (applied, db') ->
  (applied = true /\ (exists r, db_runs db !! (p, id) = Some r /\ not_final (run_Status r) = true /\
     db' = set_db_runs <[(p, id) := set_run_status to e r]> db)) \/
  (applied = false /\ db' = db /\ forall r, db_runs db !! (p, id) = Some r -> is_final (run_Status r)).
Proof.
  unfold FinalizeStatusCAS, is_final. intros H. destruct (db_runs db !! (p, id)) as [r|] eqn:E.
  - destruct (not_final (run_Status r)) eqn:En; simplify_eq; [left; eauto|right; naive_solver].
  - simplify_eq. right. naive_solver.
Qed.

(** A final status is kept by [FinalizeStatusCAS] and by the step statements. *)
Definition final_kept (db db' : DB) : Prop :=
  forall k r, db_runs db !! k = Some r -> is_final (run_Status r) ->
    exists r', db_runs db' !! k = Some r' /\ run_Status r' = run_Status r.

#[export] Instance final_kept_preorder : PreOrder final_kept.
Proof.
  split; [intros db k r; eauto|].
  intros a b c Hab Hbc k r Hr Hf. destruct (Hab k r Hr Hf) as (r' & Hr' & E).
  rewrite <- E. apply (Hbc k r' Hr'). by rewrite E.
Qed.

Lemma FinalizeStatusCAS_kept p id to e db : final_kept db (FinalizeStatusCAS p id to e db).2.
Proof.
  destruct (FinalizeStatusCAS p id to e db) as [applied db'] eqn:E. simpl.
  apply FinalizeStatusCAS_spec in E as [(_ & r & Hr & Hn & ->)|(_ & -> & _)]; [|by intros k r; eauto].
  intros k r' Hr' Hf. simpl. destruct (decide (k = (p, id))) as [->|Hk].
  - simplify_eq. unfold is_final in Hf. congruence.
  - rewrite lookup_insert_ne by done. eauto.
Qed.

Lemma Upsert_kept s db : final_kept db (Upsert s db).
Proof. intros k r. eauto. Qed.

#[export] Hint Resolve FinalizeStatusCAS_kept Upsert_kept : piper.
