(* ===== verification/Queue.v ===== *)
(** * The task queue: [internal/queue/queue.go], [internal/proto/types.go]

    The DAG-aware queue that owns every run in progress.  A [runEntry] lives in
    a heap and is named by a reference, so that a timer or a dispatch goroutine
    that outlives its run still holds a valid pointer, as in Go; an entry
    pointer is [(reference, step name)] ([eref]).  Each function whose Go name
    ends in [Locked] is a function on [Queue]; a public wrapper is that
    function followed by [flushPending].

    Deferred closures are data: a [pendingWrite] names the repository call it
    makes, an [effect] the event or callback it runs, and the variable
    [applied] that the closures of [finalizeRunLocked] share is a cell.

    The order of every [range] over a map is [mapOrder seed], a permutation
    chosen by the environment anew for each loop.  A locked section reads the
    clock once ([now]).  What the network and the process table answer (the
    result of [OwnerForTask], whether [Dispatch] fails) are arguments. *)

From S2P Require Import Prelude Pipeline Dag RunStore.
From Stdlib Require Import Floats.SpecFloat.
From stdpp Require Import options.
#[local] Open Scope Z_scope.

(** ** Data *)

Inductive taskStatus : Type :=
| taskPending | taskReady | taskRunning | taskRetrying | taskRecovering
| taskDone | taskFailed | taskSkipped | taskCanceled.

#[export] Instance taskStatus_eq_dec : EqDecision taskStatus.
Proof. solve_decision. Defined.

Definition TaskStatusDone : string := "done".
Definition TaskStatusFailed : string := "failed".

Definition status_string (s : taskStatus) : string :=
  match s with
  | taskPending => "pending" | taskReady => "ready" | taskRunning => "running"
  | taskRetrying => "retrying" | taskRecovering => "recovering"
  | taskDone => TaskStatusDone | taskFailed => TaskStatusFailed
  | taskSkipped => "skipped" | taskCanceled => "canceled"
  end.

(** [case taskDone, taskFailed, taskSkipped, taskCanceled]. *)
Definition terminalStatus (s : taskStatus) : bool :=
  match s with taskDone | taskFailed | taskSkipped | taskCanceled => true | _ => false end.

Record BuiltinVars := mkVars {
  v_ScheduledAt : option Z; v_RunStartedAt : option Z; v_DataIntervalEnd : option Z }.

(** [proto.Task]; [t_Step] and [t_Pipeline] are the JSON documents sent to the
    worker, [None] when marshalling failed. *)
Record Task := mkTask {
  t_ProjectID : string; t_ID : string; t_RunID : string; t_StepName : string;
  t_Step : option string; t_Pipeline : option string; t_WorkDir : string; t_OutputDir : string;
  t_CreatedAt : Z; t_Label : string; t_RuntimeID : string; t_Attempt : Z; t_Vars : BuiltinVars;
  t_RunParams : list (string * any); t_Env : list string;
  t_StorageURL : string; t_StorageToken : string; t_Deadline : option Z }.

Record TaskResult := mkResult {
  tr_ProjectID : string; tr_TaskID : string; tr_RuntimeID : string; tr_Status : string;
  tr_Error : string; tr_StartedAt : Z; tr_EndedAt : Z; tr_Attempt : Z;
  tr_Metrics : list (string * spec_float) }.

(** [proto.MergeParams]: the keys of [runParams] win. *)
Definition MergeParams (stepParams runParams : list (string * any)) : list (string * any) :=
  match runParams with
  | [] => stepParams
  | _ => List.filter (fun kv => negb (existsb (String.eqb kv.1) runParams.*1)) stepParams ++ runParams
  end.

Definition eref : Type := nat * string.

Record taskEntry := mkEntry {
  te_task : Task; te_step : Step; te_status : taskStatus; te_attempts : Z; te_maxAttempts : Z;
  te_assignedRuntimeID : string; te_startedAt : option Z; te_leaseAt : option Z;
  te_deadline : option Z; te_timer : option nat }.

Record runEntry := mkRunEntry {
  re_projectID : string; re_runID : string; re_pl : Pipeline; re_dag : DAG;
  re_tasks : gmap string taskEntry; re_addedAt : Z }.

(** A [time.AfterFunc] with the function it calls; [tm_fired] once the callback
    goroutine has started ([Stop] then returns false), [tm_ran] once its locked
    section is over. *)
Inductive timerKind : Type := TimerTimeout | TimerGrace | TimerRequeue | TimerRetry.

Record timer := mkTimer {
  tm_kind : timerKind; tm_entry : eref; tm_runID : string; tm_delay : Z; tm_fired : bool; tm_ran : bool }.

(** Which of the optional interfaces the configured backend implements. *)
Record backend := mkBackend { b_taskOwner : bool; b_runOwner : bool; b_cancelable : bool }.

(** The goroutine of [dispatchIfNeeded], with the values it captured;
    [g_dispatched] once it is past the check and inside [Dispatch]. *)
Record goroutine := mkGo { g_entry : eref; g_task : Task; g_backend : backend; g_dispatched : bool }.

Inductive fval : Type := FStr (s : string) | FInt (z : Z).

(** What the outside observes, in order. *)
Inductive obs : Type :=
| Published (infra : bool) (projectID eventType : string) (fields : list (string * fval))
| ReleasedTask (taskID : string)
| ReleasedRun (runID : string)
| Dispatched (t : Task)
| RemoteCancel (runID : string)
| CalledOnRunOutcome (projectID runID status : string) (pl : Pipeline)
| CalledOnRunSuccess (projectID runID : string) (pl : Pipeline).

(** The repository call of a [pendingWrite]. *)
Inductive write : Type :=
| WUpsert (s : StepRow)
| WFinalize (applied : nat) (projectID runID status : string) (finishedAt : Z)
| WCancelUntracked (projectID runID : string) (now : Z).

Record pendingWrite := mkWrite { w_desc : string; w_fn : write }.

(** A deferred effect; [Some c] guards it with [if applied]. *)
Inductive effect : Type :=
| EffEmit (guard : option nat) (projectID eventType : string) (fields : list (string * fval))
| EffOnRunOutcome (guard : nat) (projectID runID status : string) (pl : Pipeline)
| EffOnRunSuccess (guard : nat) (projectID runID : string) (pl : Pipeline).

Record pendingOutcome := mkOutcome { po_writes : list pendingWrite; po_effects : list effect }.

Definition noOutcome : pendingOutcome := mkOutcome [] [].

(** The configuration fields of [Queue]; callbacks and the publisher by
    whether they are set. *)
Record config := mkConfig {
  q_backend : option backend; q_serverDone : bool; q_maxAttempts : Z; q_retryDelay : Z;
  q_recoveryGrace : Z; q_storageURL : string; q_storageToken : string;
  q_OnRunSuccess : bool; q_OnRunOutcome : bool; q_events : bool }.

(** The state of the Go runtime the queue uses: allocated objects, timers,
    goroutines, the map iteration seed, and the observations so far. *)
Record runtime := mkRuntime {
  rt_nextRef : nat; rt_timers : gmap nat timer; rt_nextTimer : nat;
  rt_gos : gmap nat goroutine; rt_nextGo : nat; rt_nextCell : nat; rt_seed : nat; rt_trace : list obs }.

Record Queue := mkQueue {
  q_heap : gmap nat runEntry; q_runs : gmap string nat; q_conf : config;
  q_pendingWrites : list pendingWrite; q_pendingEffects : list effect;
  q_wg : Z; q_rt : runtime }.

Definition set_heap f (q : Queue) := {| q_heap := f (q_heap q); q_runs := q_runs q; q_conf := q_conf q;
  q_pendingWrites := q_pendingWrites q; q_pendingEffects := q_pendingEffects q; q_wg := q_wg q; q_rt := q_rt q |}.
Definition set_runs f (q : Queue) := {| q_heap := q_heap q; q_runs := f (q_runs q); q_conf := q_conf q;
  q_pendingWrites := q_pendingWrites q; q_pendingEffects := q_pendingEffects q; q_wg := q_wg q; q_rt := q_rt q |}.
Definition set_conf f (q : Queue) := {| q_heap := q_heap q; q_runs := q_runs q; q_conf := f (q_conf q);
  q_pendingWrites := q_pendingWrites q; q_pendingEffects := q_pendingEffects q; q_wg := q_wg q; q_rt := q_rt q |}.
Definition set_pending w e (q : Queue) := {| q_heap := q_heap q; q_runs := q_runs q; q_conf := q_conf q;
  q_pendingWrites := w; q_pendingEffects := e; q_wg := q_wg q; q_rt := q_rt q |}.
Definition set_wg f (q : Queue) := {| q_heap := q_heap q; q_runs := q_runs q; q_conf := q_conf q;
  q_pendingWrites := q_pendingWrites q; q_pendingEffects := q_pendingEffects q; q_wg := f (q_wg q); q_rt := q_rt q |}.
Definition set_rt f (q : Queue) := {| q_heap := q_heap q; q_runs := q_runs q; q_conf := q_conf q;
  q_pendingWrites := q_pendingWrites q; q_pendingEffects := q_pendingEffects q; q_wg := q_wg q; q_rt := f (q_rt q) |}.

Definition rt_newRef (t : runtime) : runtime := mkRuntime (S (rt_nextRef t)) (rt_timers t)
  (rt_nextTimer t) (rt_gos t) (rt_nextGo t) (rt_nextCell t) (rt_seed t) (rt_trace t).
Definition rt_setTimers f (t : runtime) : runtime := mkRuntime (rt_nextRef t) (f (rt_timers t))
  (rt_nextTimer t) (rt_gos t) (rt_nextGo t) (rt_nextCell t) (rt_seed t) (rt_trace t).
Definition rt_newTimer (tm : timer) (t : runtime) : runtime := mkRuntime (rt_nextRef t)
  (<[rt_nextTimer t := tm]> (rt_timers t)) (S (rt_nextTimer t)) (rt_gos t) (rt_nextGo t) (rt_nextCell t)
  (rt_seed t) (rt_trace t).
Definition rt_spawn (g : goroutine) (t : runtime) : runtime := mkRuntime (rt_nextRef t) (rt_timers t)
  (rt_nextTimer t) (<[rt_nextGo t := g]> (rt_gos t)) (S (rt_nextGo t)) (rt_nextCell t) (rt_seed t) (rt_trace t).
Definition rt_setGo (i : nat) (g : goroutine) (t : runtime) : runtime := mkRuntime (rt_nextRef t) (rt_timers t)
  (rt_nextTimer t) (<[i := g]> (rt_gos t)) (rt_nextGo t) (rt_nextCell t) (rt_seed t) (rt_trace t).
Definition rt_exitGo (i : nat) (t : runtime) : runtime := mkRuntime (rt_nextRef t) (rt_timers t)
  (rt_nextTimer t) (delete i (rt_gos t)) (rt_nextGo t) (rt_nextCell t) (rt_seed t) (rt_trace t).
Definition rt_newCell (t : runtime) : runtime := mkRuntime (rt_nextRef t) (rt_timers t)
  (rt_nextTimer t) (rt_gos t) (rt_nextGo t) (S (rt_nextCell t)) (rt_seed t) (rt_trace t).
Definition rt_reseed (t : runtime) : runtime := mkRuntime (rt_nextRef t) (rt_timers t)
  (rt_nextTimer t) (rt_gos t) (rt_nextGo t) (rt_nextCell t) (S (rt_seed t)) (rt_trace t).
Definition rt_observe (o : obs) (t : runtime) : runtime := mkRuntime (rt_nextRef t) (rt_timers t)
  (rt_nextTimer t) (rt_gos t) (rt_nextGo t) (rt_nextCell t) (rt_seed t) (rt_trace t ++ [o]).

Definition observe (o : obs) : Queue -> Queue := set_rt (rt_observe o).

Definition te_set_status s (e : taskEntry) : taskEntry := mkEntry (te_task e) (te_step e) s (te_attempts e)
  (te_maxAttempts e) (te_assignedRuntimeID e) (te_startedAt e) (te_leaseAt e) (te_deadline e) (te_timer e).
Definition te_set_attempts n (e : taskEntry) : taskEntry := mkEntry (te_task e) (te_step e) (te_status e) n
  (te_maxAttempts e) (te_assignedRuntimeID e) (te_startedAt e) (te_leaseAt e) (te_deadline e) (te_timer e).
Definition te_set_runtime id (e : taskEntry) : taskEntry := mkEntry (te_task e) (te_step e) (te_status e)
  (te_attempts e) (te_maxAttempts e) id (te_startedAt e) (te_leaseAt e) (te_deadline e) (te_timer e).
Definition te_set_startedAt t (e : taskEntry) : taskEntry := mkEntry (te_task e) (te_step e) (te_status e)
  (te_attempts e) (te_maxAttempts e) (te_assignedRuntimeID e) t (te_leaseAt e) (te_deadline e) (te_timer e).
Definition te_set_leaseAt t (e : taskEntry) : taskEntry := mkEntry (te_task e) (te_step e) (te_status e)
  (te_attempts e) (te_maxAttempts e) (te_assignedRuntimeID e) (te_startedAt e) t (te_deadline e) (te_timer e).
Definition te_set_timer t (e : taskEntry) : taskEntry := mkEntry (te_task e) (te_step e) (te_status e)
  (te_attempts e) (te_maxAttempts e) (te_assignedRuntimeID e) (te_startedAt e) (te_leaseAt e) (te_deadline e) t.
Definition te_set_deadline d (e : taskEntry) : taskEntry := mkEntry (te_task e) (te_step e) (te_status e)
  (te_attempts e) (te_maxAttempts e) (te_assignedRuntimeID e) (te_startedAt e) (te_leaseAt e) d (te_timer e).
Definition te_set_task f (e : taskEntry) : taskEntry := mkEntry (f (te_task e)) (te_step e) (te_status e)
  (te_attempts e) (te_maxAttempts e) (te_assignedRuntimeID e) (te_startedAt e) (te_leaseAt e) (te_deadline e)
  (te_timer e).

Definition t_set_attempt n (t : Task) : Task := mkTask (t_ProjectID t) (t_ID t) (t_RunID t) (t_StepName t)
  (t_Step t) (t_Pipeline t) (t_WorkDir t) (t_OutputDir t) (t_CreatedAt t) (t_Label t) (t_RuntimeID t) n
  (t_Vars t) (t_RunParams t) (t_Env t) (t_StorageURL t) (t_StorageToken t) (t_Deadline t).
Definition t_set_deadline d (t : Task) : Task := mkTask (t_ProjectID t) (t_ID t) (t_RunID t) (t_StepName t)
  (t_Step t) (t_Pipeline t) (t_WorkDir t) (t_OutputDir t) (t_CreatedAt t) (t_Label t) (t_RuntimeID t) (t_Attempt t)
  (t_Vars t) (t_RunParams t) (t_Env t) (t_StorageURL t) (t_StorageToken t) d.

Definition re_set_tasks f (r : runEntry) : runEntry :=
  mkRunEntry (re_projectID r) (re_runID r) (re_pl r) (re_dag r) (f (re_tasks r)) (re_addedAt r).

(** [*entry], and the assignment of fields through the pointer. *)
Definition getEntry (e : eref) (q : Queue) : option taskEntry :=
  match q_heap q !! e.1 with Some r => re_tasks r !! e.2 | None => None end.

Definition updEntry (e : eref) (f : taskEntry -> taskEntry) : Queue -> Queue :=
  set_heap (alter (re_set_tasks (alter f e.2)) e.1).

(** ** Construction and configuration *)

Definition NewQueue (serverDone : bool) : Queue := {|
  q_heap := ∅; q_runs := ∅;
  q_conf := mkConfig None serverDone 1 0 0 "" "" false false false;
  q_pendingWrites := []; q_pendingEffects := []; q_wg := 0;
  q_rt := mkRuntime 0 ∅ 0 ∅ 0 0 0 [] |}.

Definition SetEventPublisher (p : bool) : Queue -> Queue :=
  set_conf (fun c => mkConfig (q_backend c) (q_serverDone c) (q_maxAttempts c) (q_retryDelay c)
    (q_recoveryGrace c) (q_storageURL c) (q_storageToken c) (q_OnRunSuccess c) (q_OnRunOutcome c) p).

Definition SetBackend (b : option backend) : Queue -> Queue :=
  set_conf (fun c => mkConfig b (q_serverDone c) (q_maxAttempts c) (q_retryDelay c)
    (q_recoveryGrace c) (q_storageURL c) (q_storageToken c) (q_OnRunSuccess c) (q_OnRunOutcome c) (q_events c)).

Definition SetStorageConfig (storageURL storageToken : string) : Queue -> Queue :=
  set_conf (fun c => mkConfig (q_backend c) (q_serverDone c) (q_maxAttempts c) (q_retryDelay c)
    (q_recoveryGrace c) storageURL storageToken (q_OnRunSuccess c) (q_OnRunOutcome c) (q_events c)).

Definition SetRetryPolicy (maxAttempts retryDelay : Z) : Queue -> Queue :=
  set_conf (fun c => mkConfig (q_backend c) (q_serverDone c) (if maxAttempts <? 1 then 1 else maxAttempts) retryDelay
    (q_recoveryGrace c) (q_storageURL c) (q_storageToken c) (q_OnRunSuccess c) (q_OnRunOutcome c) (q_events c)).

Definition defaultRecoveryGrace : Z := 45 * time_Second.

Definition SetRecoveryGracePeriod (d : Z) : Queue -> Queue :=
  set_conf (fun c => mkConfig (q_backend c) (q_serverDone c) (q_maxAttempts c) (q_retryDelay c)
    d (q_storageURL c) (q_storageToken c) (q_OnRunSuccess c) (q_OnRunOutcome c) (q_events c)).

(** The cancellation of [serverCtx], and the exported callback fields. *)
Definition cancelServerCtx : Queue -> Queue :=
  set_conf (fun c => mkConfig (q_backend c) true (q_maxAttempts c) (q_retryDelay c)
    (q_recoveryGrace c) (q_storageURL c) (q_storageToken c) (q_OnRunSuccess c) (q_OnRunOutcome c) (q_events c)).
Definition setCallbacks (onSuccess onOutcome : bool) : Queue -> Queue :=
  set_conf (fun c => mkConfig (q_backend c) (q_serverDone c) (q_maxAttempts c) (q_retryDelay c)
    (q_recoveryGrace c) (q_storageURL c) (q_storageToken c) onSuccess onOutcome (q_events c)).

Definition MakeTaskID (runID stepName : string) : string := (runID +:+ ":" +:+ stepName)%string.

Inductive qerr : Type :=
| ENoColon (id : string)
| EStepNotFound (stepName runID : string)
| EMissingRuntime (taskID : string)
| EWrongRuntime (taskID owner got : string)
| EFutureAttempt (taskID : string) (got current : Z).

Definition SplitTaskID (id : string) : res qerr (string * string) :=
  match str_index colon id with
  | None => Err (ENoColon id)
  | Some idx => Ok (str_take idx id, str_drop (S idx) id)
  end.

(** ** Deferred work *)

Definition appendWrite (desc : string) (w : write) (q : Queue) : Queue :=
  set_pending (q_pendingWrites q ++ [mkWrite desc w]) (q_pendingEffects q) q.

Definition appendEffect (f : effect) (q : Queue) : Queue :=
  set_pending (q_pendingWrites q) (q_pendingEffects q ++ [f]) q.

Definition takePendingLocked (q : Queue) : pendingOutcome * Queue :=
  (mkOutcome (q_pendingWrites q) (q_pendingEffects q), set_pending [] [] q).

Definition emit (projectID eventType : string) (fields : list (string * fval)) (q : Queue) : Queue :=
  if q_events (q_conf q)
  then observe (Published (String.eqb projectID "") projectID eventType fields) q
  else q.

Definition releaseTask (taskID : string) (q : Queue) : Queue :=
  match q_backend (q_conf q) with
  | Some b => if b_taskOwner b then observe (ReleasedTask taskID) q else q
  | None => q
  end.

Definition releaseRun (runID : string) (q : Queue) : Queue :=
  match q_backend (q_conf q) with
  | Some b => if b_runOwner b then observe (ReleasedRun runID) q else q
  | None => q
  end.

Definition wgAdd : Queue -> Queue := set_wg (fun n => n + 1).
Definition wgDone : Queue -> Queue := set_wg (fun n => n - 1).

(** ** Status changes *)

(** The prior status, and the queue with the entry moved unless it was terminal. *)
Definition transitionTaskLocked (e : eref) (to : taskStatus) (q : Queue) : option taskStatus * Queue :=
  match getEntry e q with
  | Some en =>
      (Some (te_status en),
       if terminalStatus (te_status en) then q else updEntry e (te_set_status to) q)
  | None => (None, q)
  end.

Definition transition (e : eref) (to : taskStatus) (q : Queue) : Queue :=
  (transitionTaskLocked e to q).2.

(** [Stop] removes an armed timer and reports it; on a fired one it returns
    false and the callback calls [Done] itself. *)
Definition stopEntryTimerLocked (e : eref) (q : Queue) : Queue :=
  match getEntry e q with
  | Some en =>
      match te_timer en with
      | None => q
      | Some id =>
          let q := match rt_timers (q_rt q) !! id with
                   | Some tm => if tm_fired tm then q
                                else wgDone (set_rt (rt_setTimers (delete id)) q)
                   | None => q
                   end in
          updEntry e (te_set_timer None) q
      end
  | None => q
  end.

(** [q.wg.Add(1); entry.timer = time.AfterFunc(delay, ...)] *)
Definition armTimer (kind : timerKind) (e : eref) (runID : string) (delay : Z) (q : Queue) : Queue :=
  let id := rt_nextTimer (q_rt q) in
  let q := wgAdd q in
  let q := set_rt (rt_newTimer (mkTimer kind e runID delay false false)) q in
  updEntry e (te_set_timer (Some id)) q.

Definition scheduleTimeoutLocked (now : Z) (runID : string) (e : eref) (deadline : Z) (q : Queue) : Queue :=
  armTimer TimerTimeout e runID (deadline - now) (stopEntryTimerLocked e q).

Definition scheduleRecoveryGraceLocked (runID : string) (e : eref) (q : Queue) : Queue :=
  let grace := if q_recoveryGrace (q_conf q) <=? 0 then defaultRecoveryGrace else q_recoveryGrace (q_conf q) in
  armTimer TimerGrace e runID grace (stopEntryTimerLocked e q).

(** ** Running a step *)

Definition runningFields (runID : string) (en : taskEntry) : list (string * fval) :=
  [("run_id", FStr runID); ("step", FStr (s_Name (te_step en)));
   ("task_id", FStr (t_ID (te_task en))); ("attempt", FInt (te_attempts en))].

Definition startTaskLocked (now : Z) (runID : string) (e : eref) (q : Queue) : Queue :=
  let q := updEntry e (fun en => te_set_attempts (te_attempts en + 1) en) q in
  let q := updEntry e (fun en => te_set_task (t_set_attempt (te_attempts en)) en) q in
  let q := transition e taskRunning q in
  let q := updEntry e (fun en => te_set_deadline None (te_set_leaseAt (Some now) (te_set_startedAt (Some now) en))) q in
  let q := updEntry e (te_set_task (t_set_deadline None)) q in
  match getEntry e q with
  | None => q
  | Some en =>
      let timeout := o_Timeout (s_Options (te_step en)) in
      let q :=
        if 0 <? timeout then
          let deadline := now + wrap64 (timeout * time_Second) in
          let q := updEntry e (te_set_deadline (Some deadline)) q in
          let q := updEntry e (te_set_task (t_set_deadline (Some deadline))) q in
          scheduleTimeoutLocked now runID e deadline q
        else q in
      let q := emit (t_ProjectID (te_task en)) "step.running" (runningFields runID en) q in
      appendWrite ("step running " +:+ t_ID (te_task en))%string
        (WUpsert (mkStepRow (t_ProjectID (te_task en)) runID (s_Name (te_step en))
           (status_string taskRunning) (Some now) None "" (te_attempts en))) q
  end.

Definition dispatchIfNeeded (now : Z) (e : eref) (q : Queue) : Queue :=
  match q_backend (q_conf q), getEntry e q with
  | Some b, Some en =>
      let q := startTaskLocked now (t_RunID (te_task en)) e q in
      match getEntry e q with
      | Some en =>
          let q := wgAdd q in
          set_rt (rt_spawn (mkGo e (te_task en) b false)) q
      | None => q
      end
  | _, _ => q
  end.

Definition scheduleRetryLocked (now : Z) (e : eref) (q : Queue) : Queue :=
  if q_retryDelay (q_conf q) <=? 0 then
    let q := transition e taskReady q in
    let q := updEntry e (te_set_timer None) q in
    dispatchIfNeeded now e q
  else
    match getEntry e q with
    | Some en => armTimer TimerRetry e (t_RunID (te_task en)) (q_retryDelay (q_conf q)) (stopEntryTimerLocked e q)
    | None => q
    end.

(** Puts a task the backend could not take back to ready and dispatches it
    again in two seconds. *)
Definition requeueBusyLocked (runID stepName : string) (q : Queue) : Queue :=
  match q_runs q !! runID with
  | None => q
  | Some ref =>
      let e := (ref, stepName) in
      match getEntry e q with
      | None => q
      | Some en =>
          if negb (bool_decide (te_status en = taskRunning)) then q else
          let q := updEntry e (fun en => te_set_attempts (te_attempts en - 1) en) q in
          let q := updEntry e (fun en => if te_attempts en <? 0 then te_set_attempts 0 en else en) q in
          let q := updEntry e (fun en => te_set_task (t_set_attempt (te_attempts en)) en) q in
          let q := transition e taskReady q in
          let q := updEntry e (fun en => te_set_leaseAt None (te_set_startedAt None (te_set_runtime "" en))) q in
          let q := stopEntryTimerLocked e q in
          armTimer TimerRequeue e runID (2 * time_Second) q
      end
  end.

(** ** Whole runs *)

Definition runTasks (ref : nat) (q : Queue) : gmap string taskEntry :=
  match q_heap q !! ref with Some r => re_tasks r | None => ∅ end.

Definition allTerminal (tasks : gmap string taskEntry) : bool :=
  forallb (fun kv : string * taskEntry => match te_status kv.2 with taskDone | taskFailed | taskSkipped => true | _ => false end)
    (map_to_list tasks).

Definition anyFailed (tasks : gmap string taskEntry) : bool :=
  existsb (fun kv : string * taskEntry => bool_decide (te_status kv.2 = taskFailed)) (map_to_list tasks).

Definition doneNames (tasks : gmap string taskEntry) : gset string :=
  dom (filter (fun kv : string * taskEntry => te_status kv.2 = taskDone \/ te_status kv.2 = taskSkipped) tasks).

Definition depsAllDone (deps : list string) (done : gset string) : bool :=
  forallb (fun d => bool_decide (d ∈ done)) deps.

Definition finalFields (runID status : string) : list (string * fval) :=
  [("run_id", FStr runID); ("status", FStr status)].

Definition finalizeRunLocked (now : Z) (ref : nat) (status eventType : string) (q : Queue) : Queue :=
  match q_heap q !! ref with
  | None => q
  | Some r =>
      let runID := re_runID r in
      let projectID := re_projectID r in
      let applied := rt_nextCell (q_rt q) in
      let q := set_rt rt_newCell q in
      let q := appendWrite ("run finalized " +:+ runID)%string (WFinalize applied projectID runID status now) q in
      let q := set_runs (delete runID) q in
      let q := releaseRun runID q in
      let q := appendEffect (EffEmit (Some applied) projectID eventType (finalFields runID status)) q in
      let q := if q_OnRunOutcome (q_conf q)
               then appendEffect (EffOnRunOutcome applied projectID runID status (re_pl r)) q else q in
      if (String.eqb status StatusSuccess && q_OnRunSuccess (q_conf q))%bool
      then appendEffect (EffOnRunSuccess applied projectID runID (re_pl r)) q else q
  end.

Definition finalizeRunIfAllTerminalLocked (now : Z) (ref : nat) (q : Queue) : Queue :=
  if allTerminal (runTasks ref q) then
    finalizeRunLocked now ref (if anyFailed (runTasks ref q) then StatusFailed else StatusSuccess) "run.completed" q
  else q.

Section Queue.
(** The iteration order Go picks for the [seed]-th [range] over a map. *)
Variable mapOrder : nat -> list string -> list string.
(** [json.Marshal] of a step and of a pipeline. *)
Variable marshalStep : Step -> option string.
Variable marshalPipeline : Pipeline -> option string.

(** [for k := range m]: the keys in this loop's order. *)
Definition rangeMap {A} (m : gmap string A) (q : Queue) : list string * Queue :=
  (mapOrder (rt_seed (q_rt q)) (map_to_list m).*1, set_rt rt_reseed q).

(** The loop body of [promoteReady]. *)
Definition promoteEntry (now : Z) (ref : nat) (r : runEntry) (done : gset string) (q : Queue) (name : string)
    : Queue :=
  let e := (ref, name) in
  match getEntry e q with
  | None => q
  | Some en =>
      if negb (bool_decide (te_status en = taskPending)) then q else
      if depsAllDone (s_DependsOn (te_step en)) done then
        let q := transition e taskReady q in
        let q := emit (re_projectID r) "step.ready"
          [("run_id", FStr (re_runID r)); ("step", FStr (s_Name (te_step en)));
           ("task_id", FStr (t_ID (te_task en)))] q in
        dispatchIfNeeded now e q
      else q
  end.

Definition promoteReady (now : Z) (ref : nat) (q : Queue) : Queue :=
  match q_heap q !! ref with
  | None => q
  | Some r =>
      let done := doneNames (re_tasks r) in
      let '(names, q) := rangeMap (re_tasks r) q in
      foldl (promoteEntry now ref r done) q names
  end.

(** The loop body of [skipDownstream], over its recursive call. *)
Definition skipEntry (rec : string -> Queue -> Queue) (ref : nat) (r : runEntry) (failedStep : string)
    (q : Queue) (name : string) : Queue :=
  let e := (ref, name) in
  match getEntry e q with
  | None => q
  | Some en =>
      if negb (bool_decide (te_status en = taskPending \/ te_status en = taskReady)) then q else
      if existsb (String.eqb failedStep) (s_DependsOn (te_step en)) then
        let q := transition e taskSkipped q in
        let q := appendWrite ("step skipped " +:+ t_ID (te_task en))%string
          (WUpsert (mkStepRow (re_projectID r) (re_runID r) (s_Name (te_step en)) "skipped" None None "" 0)) q in
        let q := appendEffect (EffEmit None (re_projectID r) "step.skipped"
          [("run_id", FStr (re_runID r)); ("step", FStr (s_Name (te_step en)));
           ("task_id", FStr (t_ID (te_task en))); ("failed_dep", FStr failedStep)]) q in
        rec (s_Name (te_step en)) q
      else q
  end.

(** The recursion descends into one newly skipped entry at a time; [fuel]
    bounds its depth by the number of entries. *)
Fixpoint skipDownstream_fuel (fuel : nat) (ref : nat) (failedStep : string) (q : Queue) : Queue :=
  match fuel, q_heap q !! ref with
  | S fuel, Some r =>
      let '(names, q) := rangeMap (re_tasks r) q in
      foldl (skipEntry (skipDownstream_fuel fuel ref) ref r failedStep) q names
  | _, _ => q
  end.

Definition skipDownstream (ref : nat) (failedStep : string) (q : Queue) : Queue :=
  skipDownstream_fuel (S (size (runTasks ref q))) ref failedStep q.

(** [r] is the run the caller looked up, [e] the entry it was given: for a
    timer callback they may belong to different run objects. *)
Definition failOrRetryLocked (now : Z) (ref : nat) (e : eref) (errMsg : string)
    (startedAt : option Z) (endedAt : Z) (q : Queue) : Queue :=
  match q_heap q !! ref, getEntry e q with
  | Some r, Some en =>
      let runID := re_runID r in
      let stepName := s_Name (te_step en) in
      if te_attempts en <? te_maxAttempts en then
        let q := stopEntryTimerLocked e q in
        let q := transition e taskRetrying q in
        let q := updEntry e (fun en => te_set_leaseAt None (te_set_startedAt None (te_set_runtime "" en))) q in
        let q := appendWrite ("step retrying " +:+ t_ID (te_task en))%string
          (WUpsert (mkStepRow (re_projectID r) runID stepName (status_string taskRunning) startedAt
             (Some endedAt) errMsg (te_attempts en))) q in
        scheduleRetryLocked now e q
      else
        let q := stopEntryTimerLocked e q in
        let q := transition e taskFailed q in
        let q := updEntry e (fun en => te_set_leaseAt None (te_set_startedAt None en)) q in
        let q := appendEffect (EffEmit None (re_projectID r) "step.failed"
          [("run_id", FStr runID); ("step", FStr stepName); ("attempts", FInt (te_attempts en));
           ("error", FStr errMsg)]) q in
        let q := appendWrite ("step failed " +:+ t_ID (te_task en))%string
          (WUpsert (mkStepRow (re_projectID r) runID stepName (status_string taskFailed) startedAt
             (Some endedAt) errMsg (te_attempts en))) q in
        let q := skipDownstream ref stepName q in
        finalizeRunIfAllTerminalLocked now ref q
  | _, _ => q
  end.

(** ** Adding a run *)

Record runArgs := mkArgs {
  ra_projectID : string; ra_runID : string; ra_workDir : string; ra_outputDir : string;
  ra_vars : BuiltinVars; ra_runParams : list (string * any); ra_envByStep : gmap string (list string) }.

Definition newTask (now : Z) (a : runArgs) (q : Queue) (pipelineJSON : option string) (s : Step) : Task := {|
  t_ProjectID := ra_projectID a; t_ID := MakeTaskID (ra_runID a) (s_Name s); t_RunID := ra_runID a;
  t_StepName := s_Name s; t_Step := marshalStep s; t_Pipeline := pipelineJSON;
  t_WorkDir := ra_workDir a; t_OutputDir := ra_outputDir a; t_CreatedAt := now; t_Label := "";
  t_RuntimeID := ""; t_Attempt := 0; t_Vars := ra_vars a; t_RunParams := ra_runParams a;
  t_Env := default [] (ra_envByStep a !! s_Name s);
  t_StorageURL := q_storageURL (q_conf q); t_StorageToken := q_storageToken (q_conf q);
  t_Deadline := None |}.

Definition newEntry (now : Z) (a : runArgs) (q : Queue) (pipelineJSON : option string) (s : Step) : taskEntry := {|
  te_task := newTask now a q pipelineJSON s; te_step := s; te_status := taskPending; te_attempts := 0;
  te_maxAttempts := q_maxAttempts (q_conf q); te_assignedRuntimeID := ""; te_startedAt := None;
  te_leaseAt := None; te_deadline := None; te_timer := None |}.

(** [&runEntry{...}] with the tasks put in so far. *)
Definition newRun (now : Z) (a : runArgs) (pl : Pipeline) (dag : DAG) (tasks : gmap string taskEntry)
    (q : Queue) : nat * Queue :=
  let ref := rt_nextRef (q_rt q) in
  (ref, set_rt rt_newRef (set_heap <[ref := mkRunEntry (ra_projectID a) (ra_runID a) pl dag tasks now]> q)).

(** A step whose JSON cannot be produced is logged and left out. *)
Definition addTasks (now : Z) (a : runArgs) (q : Queue) (pl : Pipeline) : gmap string taskEntry :=
  foldl (fun tasks s =>
    match marshalStep s with
    | None => tasks
    | Some _ => <[s_Name s := newEntry now a q (marshalPipeline pl) s]> tasks
    end) ∅ (ps_Steps (pl_Spec pl)).

Definition addWithEnvLocked (now : Z) (pl : Pipeline) (dag : DAG) (a : runArgs) (q : Queue)
    : pendingOutcome * Queue :=
  let pl := ApplyDefaults pl in
  let '(ref, q) := newRun now a pl dag (addTasks now a q pl) q in
  let q := promoteReady now ref q in
  let q := set_runs <[ra_runID a := ref]> q in
  takePendingLocked q.

(** ** Re-adding an interrupted run *)

Record RecoveredStep := mkRecovered {
  rs_Name : string; rs_Done : bool; rs_StartedAt : option Z; rs_Attempts : Z }.

Definition recoveredByName (recovered : list RecoveredStep) : gmap string RecoveredStep :=
  foldl (fun m rs => <[rs_Name rs := rs]> m) ∅ recovered.

(** The loop body; the entry is put in the map first, here, so that it has an
    address while its timer is armed. *)
Definition recoverStep (now : Z) (a : runArgs) (pipelineJSON : option string)
    (byName : gmap string RecoveredStep) (ref : nat) (q : Queue) (s : Step) : Queue :=
  let e := (ref, s_Name s) in
  let q := set_heap (alter (re_set_tasks <[s_Name s := newEntry now a q pipelineJSON s]>) ref) q in
  match byName !! s_Name s with
  | None => q
  | Some rs =>
      if rs_Done rs then transition e taskDone q else
      match rs_StartedAt rs with
      | None => q
      | Some startedAt =>
          let q := transition e taskRecovering q in
          let q := updEntry e (fun en => te_set_leaseAt (Some now)
            (te_set_startedAt (Some startedAt) (te_set_attempts (rs_Attempts rs) en))) q in
          let q := emit (ra_projectID a) "step.recovering"
            [("run_id", FStr (ra_runID a)); ("step", FStr (s_Name s))] q in
          scheduleRecoveryGraceLocked (ra_runID a) e q
      end
  end.

Definition recoverWithEnvLocked (now : Z) (pl : Pipeline) (dag : DAG) (a : runArgs)
    (recovered : list RecoveredStep) (q : Queue) : pendingOutcome * Queue :=
  let pl := ApplyDefaults pl in
  let byName := recoveredByName recovered in
  let pipelineJSON := marshalPipeline pl in
  let '(ref, q) := newRun now a pl dag ∅ q in
  let q := foldl (recoverStep now a pipelineJSON byName ref) q (ps_Steps (pl_Spec pl)) in
  if allTerminal (runTasks ref q) then
    let status := if anyFailed (runTasks ref q) then StatusFailed else StatusSuccess in
    takePendingLocked (finalizeRunLocked now ref status "run.completed" q)
  else
    let q := promoteReady now ref q in
    let q := set_runs <[ra_runID a := ref]> q in
    takePendingLocked q.

(** ** Results *)

(** The runtime the result must come from: [owner] is what the backend's
    [OwnerForTask] answers. *)
Definition resultOwner (owner : string -> string) (q : Queue) (en : taskEntry) (taskID : string) : string :=
  if negb (String.eqb (te_assignedRuntimeID en) "") then te_assignedRuntimeID en else
  if negb (String.eqb (t_RuntimeID (te_task en)) "") then t_RuntimeID (te_task en) else
  match q_backend (q_conf q) with
  | Some b => if b_taskOwner b then owner taskID else ""
  | None => ""
  end.

(** The accepted result, after all checks. *)
Definition applyResult (now : Z) (ref : nat) (e : eref) (r : runEntry) (result : TaskResult)
    (resultAttempt : Z) (stepName : string) (q : Queue) : Queue :=
  let runID := re_runID r in
  let q := releaseTask (tr_TaskID result) q in
  let q := updEntry e (fun en => if te_attempts en =? 0 then te_set_attempts resultAttempt en else en) q in
  let q := emit (re_projectID r) "step.reported"
    [("run_id", FStr runID); ("step", FStr stepName);
     ("task_id", FStr (tr_TaskID result)); ("status", FStr (tr_Status result))] q in
  if String.eqb (tr_Status result) (status_string taskDone) then
    let q := stopEntryTimerLocked e q in
    let q := transition e taskDone q in
    let q := updEntry e (fun en => te_set_leaseAt None (te_set_startedAt None en)) q in
    match getEntry e q with
    | None => q
    | Some en =>
        let q := appendEffect (EffEmit None (re_projectID r) "step.done"
          [("run_id", FStr runID); ("step", FStr stepName); ("attempts", FInt (te_attempts en))]) q in
        let q := appendWrite ("step done " +:+ tr_TaskID result)%string
          (WUpsert (mkStepRow (re_projectID r) runID stepName (tr_Status result)
             (Some (tr_StartedAt result)) (Some (tr_EndedAt result)) (tr_Error result) (te_attempts en))) q in
        let q := promoteReady now ref q in
        finalizeRunIfAllTerminalLocked now ref q
    end
  else
    failOrRetryLocked now ref e (tr_Error result) (Some (tr_StartedAt result)) (tr_EndedAt result) q.

(** The error, and whether the result was applied.  [r.runID] is the [runID]
    that was looked up. *)
Definition completeLocked (now : Z) (owner : string -> string) (result : TaskResult) (q : Queue)
    : option qerr * bool * (pendingOutcome * Queue) :=
  let ignore := (None, false, takePendingLocked q) in
  let fail err := (Some err, false, takePendingLocked q) in
  match SplitTaskID (tr_TaskID result) with
  | Err err => fail err
  | Ok (runID, stepName) =>
      match q_runs q !! runID with
      | None => ignore
      | Some ref =>
          match q_heap q !! ref, getEntry (ref, stepName) q with
          | Some r, Some en =>
              let ownerID := resultOwner owner q en (tr_TaskID result) in
              let attempt := if tr_Attempt result =? 0 then 1 else tr_Attempt result in
              if (negb (String.eqb ownerID "") && String.eqb (tr_RuntimeID result) "")%bool
              then fail (EMissingRuntime (tr_TaskID result)) else
              if (negb (String.eqb (tr_RuntimeID result) "") && negb (String.eqb ownerID "") &&
                  negb (String.eqb (tr_RuntimeID result) ownerID))%bool
              then fail (EWrongRuntime (tr_TaskID result) ownerID (tr_RuntimeID result)) else
              if terminalStatus (te_status en) then ignore else
              if ((0 <? te_attempts en) && (attempt <? te_attempts en))%bool then ignore else
              if te_attempts en <? attempt
              then fail (EFutureAttempt (tr_TaskID result) attempt (te_attempts en)) else
              (None, true,
               takePendingLocked (applyResult now ref (ref, stepName) r result attempt stepName q))
          | _, _ => fail (EStepNotFound stepName runID)
          end
      end
  end.

(** ** Timer callbacks; [e] and [runID] are what the callback captured *)

Definition firedEntry (now : Z) (runID : string) (e : eref) (msg : string) (want : taskStatus) (q : Queue)
    : pendingOutcome * Queue :=
  match getEntry e q with
  | None => (noOutcome, q)
  | Some en =>
      if (q_serverDone (q_conf q) || negb (bool_decide (te_status en = want)))%bool then (noOutcome, q) else
      match q_runs q !! runID with
      | None => (noOutcome, q)
      | Some ref =>
          let q := updEntry e (te_set_timer None) q in
          let q := releaseTask (t_ID (te_task en)) q in
          takePendingLocked (failOrRetryLocked now ref e msg (te_startedAt en) now q)
      end
  end.

Definition timeoutFiredLocked (now : Z) (runID : string) (e : eref) : Queue -> pendingOutcome * Queue :=
  firedEntry now runID e "task execution timeout" taskRunning.

Definition recoveryGraceFiredLocked (now : Z) (runID : string) (e : eref) : Queue -> pendingOutcome * Queue :=
  firedEntry now runID e "recovery grace period expired without worker reconnect" taskRecovering.

Definition requeuedDispatchFiredLocked (now : Z) (e : eref) (q : Queue) : pendingOutcome * Queue :=
  let q := updEntry e (te_set_timer None) q in
  match getEntry e q with
  | None => (noOutcome, q)
  | Some en =>
      if (q_serverDone (q_conf q) || negb (bool_decide (te_status en = taskReady)))%bool then (noOutcome, q)
      else takePendingLocked (dispatchIfNeeded now e q)
  end.

Definition retryFiredLocked (now : Z) (e : eref) (q : Queue) : pendingOutcome * Queue :=
  match getEntry e q with
  | None => (noOutcome, q)
  | Some en =>
      if negb (bool_decide (te_status en = taskRetrying)) then (noOutcome, q) else
      let q := updEntry e (te_set_timer None) q in
      let q := transition e taskReady q in
      takePendingLocked (dispatchIfNeeded now e q)
  end.

(** The function a timer calls. *)
Definition timerCallback (now : Z) (tm : timer) (q : Queue) : pendingOutcome * Queue :=
  match tm_kind tm with
  | TimerTimeout => timeoutFiredLocked now (tm_runID tm) (tm_entry tm) q
  | TimerGrace => recoveryGraceFiredLocked now (tm_runID tm) (tm_entry tm) q
  | TimerRequeue => requeuedDispatchFiredLocked now (tm_entry tm) q
  | TimerRetry => retryFiredLocked now (tm_entry tm) q
  end.

(** ** The dispatch goroutine of [dispatchIfNeeded] *)

(** [defer q.wg.Done()] *)
Definition exitGo (i : nat) (q : Queue) : Queue := wgDone (set_rt (rt_exitGo i) q).

(** It gives up when the entry was canceled meanwhile, and else calls
    [b.Dispatch] with its copy of the task. *)
Definition goCheck (i : nat) (q : Queue) : Queue :=
  match rt_gos (q_rt q) !! i with
  | None => q
  | Some g =>
      if g_dispatched g then q else
      match getEntry (g_entry g) q with
      | Some en =>
          if bool_decide (te_status en = taskCanceled) then exitGo i q
          else observe (Dispatched (g_task g)) (set_rt (rt_setGo i (mkGo (g_entry g) (g_task g) (g_backend g) true)) q)
      | None => q
      end
  end.

(** What it does with the answer of [Dispatch]: nothing, put the task back,
    or report the failure as a result of its own.  [Some (retryable, msg)] is
    the error. *)
Definition failedDispatch (now : Z) (owner : string -> string) (g : goroutine) (msg : string) : TaskResult :=
  let t := g_task g in
  let runtimeID :=
    if (b_taskOwner (g_backend g) && negb (String.eqb (owner (t_ID t)) ""))%bool
    then owner (t_ID t) else t_RuntimeID t in
  mkResult "" (t_ID t) runtimeID TaskStatusFailed msg now now (t_Attempt t) [].

(** The goroutine ends after the flush of the outcome ([exitGo]). *)
Definition goResult (now : Z) (owner : string -> string) (i : nat) (err : option (bool * string)) (q : Queue)
    : pendingOutcome * Queue :=
  match rt_gos (q_rt q) !! i with
  | None => (noOutcome, q)
  | Some g =>
      if negb (g_dispatched g) then (noOutcome, q) else
      match err with
      | None => (noOutcome, q)
      | Some (true, _) => (noOutcome, requeueBusyLocked (t_RunID (g_task g)) (t_StepName (g_task g)) q)
      | Some (false, msg) => (completeLocked now owner (failedDispatch now owner g msg) q).2
      end
  end.

(** ** Leases *)

Definition renewLease (now : Z) (runtimeID : string) (q : Queue) (taskID : string) : Queue :=
  match SplitTaskID taskID with
  | Err _ => q
  | Ok (runID, stepName) =>
      match q_runs q !! runID with
      | None => q
      | Some ref =>
          let e := (ref, stepName) in
          match q_heap q !! ref, getEntry e q with
          | Some r, Some en =>
              if negb (bool_decide (te_status en = taskRunning \/ te_status en = taskRecovering)) then q else
              let unassigned := String.eqb (te_assignedRuntimeID en) "" in
              if (unassigned && negb (String.eqb (t_RuntimeID (te_task en)) "") &&
                  negb (String.eqb (t_RuntimeID (te_task en)) runtimeID))%bool then q else
              let q := if unassigned then updEntry e (te_set_runtime runtimeID) q else q in
              if (negb unassigned && negb (String.eqb (te_assignedRuntimeID en) runtimeID))%bool then q else
              let q :=
                if bool_decide (te_status en = taskRecovering) then
                  let q := stopEntryTimerLocked e q in
                  let q := transition e taskRunning q in
                  emit (re_projectID r) "step.recovered" [("run_id", FStr runID); ("step", FStr stepName)] q
                else q in
              updEntry e (te_set_leaseAt (Some now)) q
          | _, _ => q
          end
      end
  end.

Definition RenewLeases (now : Z) (runtimeID : string) (taskIDs : list string) (q : Queue) : Queue :=
  if (String.eqb runtimeID "" || bool_decide (taskIDs = []))%bool then q
  else foldl (renewLease now runtimeID) q taskIDs.

(** ** Cancelling and expiring *)

Definition cancelEntry (now : Z) (ref : nat) (r : runEntry) (q : Queue) (name : string) : Queue :=
  let e := (ref, name) in
  match getEntry e q with
  | None => q
  | Some en =>
      if terminalStatus (te_status en) then q else
      let q := stopEntryTimerLocked e q in
      let q := transition e taskCanceled q in
      let q := updEntry e (te_set_startedAt None) q in
      let q := appendWrite ("step canceled " +:+ t_ID (te_task en))%string
        (WUpsert (mkStepRow (re_projectID r) (re_runID r) (s_Name (te_step en)) (status_string taskCanceled)
           (te_startedAt en) (Some now) "" (te_attempts en))) q in
      releaseTask (t_ID (te_task en)) q
  end.

Definition cancelLocked (now : Z) (projectID runID : string) (q : Queue) : pendingOutcome * Queue :=
  match q_runs q !! runID with
  | Some ref =>
      match q_heap q !! ref with
      | Some r =>
          let '(names, q) := rangeMap (re_tasks r) q in
          let q := foldl (cancelEntry now ref r) q names in
          takePendingLocked (finalizeRunLocked now ref StatusCanceled "run.canceled" q)
      | None => (noOutcome, q)
      end
  | None =>
      let q := appendWrite ("run canceled (untracked) " +:+ runID)%string
                 (WCancelUntracked projectID runID now) q in
      let q := appendEffect (EffEmit None projectID "run.canceled" [("run_id", FStr runID)]) q in
      takePendingLocked q
  end.

(** The call that follows the flush; [remote] is the error [CancelRun]
    returned, if any. *)
Definition cancelRemote (b : option backend) (projectID runID : string) (remote : option string)
    (q : Queue) : Queue :=
  match b with
  | Some b =>
      if b_cancelable b then
        let q := observe (RemoteCancel runID) q in
        match remote with
        | Some err => emit projectID "run.cancel_remote_failed" [("run_id", FStr runID); ("err", FStr err)] q
        | None => q
        end
      else q
  | None => q
  end.

Definition runExpiredLocked (tasks : gmap string taskEntry) (cutoff : Z) : bool :=
  existsb (fun kv : string * taskEntry =>
    bool_decide (te_status kv.2 = taskRunning \/ te_status kv.2 = taskRecovering) &&
    match te_leaseAt kv.2 with Some at_ => at_ <? cutoff | None => false end)%bool (map_to_list tasks).

Definition expireEntry (now : Z) (ref : nat) (r : runEntry) (q : Queue) (name : string) : Queue :=
  let e := (ref, name) in
  match getEntry e q with
  | None => q
  | Some en =>
      if terminalStatus (te_status en) then q else
      let q := stopEntryTimerLocked e q in
      let q := transition e taskFailed q in
      let q := updEntry e (fun en => te_set_leaseAt None (te_set_startedAt None en)) q in
      appendWrite ("step expired " +:+ t_ID (te_task en))%string
        (WUpsert (mkStepRow (re_projectID r) (re_runID r) (s_Name (te_step en)) (status_string taskFailed)
           None (Some now) "task lease expired" (te_attempts en))) q
  end.

Definition expireRun (now cutoff : Z) (q : Queue) (runID : string) : Queue :=
  match q_runs q !! runID with
  | None => q
  | Some ref =>
      match q_heap q !! ref with
      | None => q
      | Some r =>
          if runExpiredLocked (re_tasks r) cutoff then
            let '(names, q) := rangeMap (re_tasks r) q in
            let q := foldl (expireEntry now ref r) q names in
            finalizeRunLocked now ref StatusFailed "run.expired" q
          else q
      end
  end.

Definition cleanupLocked (now ttl : Z) (q : Queue) : pendingOutcome * Queue :=
  let '(ids, q) := rangeMap (q_runs q) q in
  takePendingLocked (foldl (expireRun now (now - ttl)) q ids).

(** ** The entry points, as data *)

Inductive op : Type :=
| OpAdd (now : Z) (pl : Pipeline) (dag : DAG) (a : runArgs)
| OpRecover (now : Z) (pl : Pipeline) (dag : DAG) (a : runArgs) (recovered : list RecoveredStep)
| OpComplete (now : Z) (owner : string -> string) (result : TaskResult)
| OpCancel (now : Z) (projectID runID : string)
| OpCleanup (now ttl : Z)
| OpRenew (now : Z) (runtimeID : string) (taskIDs : list string)
| OpFire (id : nat)
| OpCallback (now : Z) (id : nat)
| OpTimerDone (id : nat)
| OpGoCheck (i : nat)
| OpGoResult (now : Z) (owner : string -> string) (i : nat) (err : option (bool * string))
| OpGoExit (i : nat)
| OpSetEventPublisher (p : bool)
| OpSetBackend (b : option backend)
| OpSetStorageConfig (storageURL storageToken : string)
| OpSetRetryPolicy (maxAttempts retryDelay : Z)
| OpSetRecoveryGrace (d : Z)
| OpSetCallbacks (onSuccess onOutcome : bool)
| OpShutdown.

(** The runtime starts the callback goroutine of an armed timer. *)
Definition fireTimer (id : nat) (q : Queue) : Queue :=
  set_rt (rt_setTimers (alter (fun tm => mkTimer (tm_kind tm) (tm_entry tm) (tm_runID tm) (tm_delay tm) true (tm_ran tm)) id)) q.

(** Its locked section runs, once. *)
Definition ranTimer (id : nat) (q : Queue) : Queue :=
  set_rt (rt_setTimers (alter (fun tm => mkTimer (tm_kind tm) (tm_entry tm) (tm_runID tm) (tm_delay tm) (tm_fired tm) true) id)) q.

(** The deferred [q.wg.Done()] of a callback. *)
Definition timerDone (id : nat) (q : Queue) : Queue :=
  match rt_timers (q_rt q) !! id with
  | Some tm => if tm_ran tm then wgDone (set_rt (rt_setTimers (delete id)) q) else q
  | None => q
  end.

Definition runOp (o : op) (q : Queue) : pendingOutcome * Queue :=
  match o with
  | OpAdd now pl dag a => addWithEnvLocked now pl dag a q
  | OpRecover now pl dag a recovered => recoverWithEnvLocked now pl dag a recovered q
  | OpComplete now owner result => (completeLocked now owner result q).2
  | OpCancel now projectID runID => cancelLocked now projectID runID q
  | OpCleanup now ttl => cleanupLocked now ttl q
  | OpRenew now runtimeID taskIDs => (noOutcome, RenewLeases now runtimeID taskIDs q)
  | OpFire id => (noOutcome, fireTimer id q)
  | OpCallback now id =>
      match rt_timers (q_rt q) !! id with
      | Some tm => if (tm_fired tm && negb (tm_ran tm))%bool then timerCallback now tm (ranTimer id q) else (noOutcome, q)
      | None => (noOutcome, q)
      end
  | OpTimerDone id => (noOutcome, timerDone id q)
  | OpGoCheck i => (noOutcome, goCheck i q)
  | OpGoResult now owner i err => goResult now owner i err q
  | OpGoExit i =>
      (noOutcome, match rt_gos (q_rt q) !! i with
                  | Some g => if g_dispatched g then exitGo i q else q
                  | None => q end)
  | OpSetEventPublisher p => (noOutcome, SetEventPublisher p q)
  | OpSetBackend b => (noOutcome, SetBackend b q)
  | OpSetStorageConfig u t => (noOutcome, SetStorageConfig u t q)
  | OpSetRetryPolicy m d => (noOutcome, SetRetryPolicy m d q)
  | OpSetRecoveryGrace d => (noOutcome, SetRecoveryGracePeriod d q)
  | OpSetCallbacks s o => (noOutcome, setCallbacks s o q)
  | OpShutdown => (noOutcome, cancelServerCtx q)
  end.
End Queue.

(** ** Queries *)

Definition IsTracking (runID : string) (q : Queue) : bool :=
  bool_decide (is_Some (q_runs q !! runID)).

Definition IsTrackingTask (taskID : string) (q : Queue) : bool :=
  match SplitTaskID taskID with
  | Err _ => false
  | Ok (runID, stepName) =>
      match q_runs q !! runID with
      | None => false
      | Some ref =>
          match getEntry (ref, stepName) q with
          | Some en => bool_decide (te_status en = taskRunning \/ te_status en = taskRecovering)
          | None => false
          end
      end
  end.

Record Stats := mkStats { Runs : Z; Pending : Z; Ready : Z; Running : Z }.

Definition countEntry (s : Stats) (kv : string * taskEntry) : Stats :=
  match te_status kv.2 with
  | taskPending => mkStats (Runs s) (Pending s + 1) (Ready s) (Running s)
  | taskReady => mkStats (Runs s) (Pending s) (Ready s + 1) (Running s)
  | taskRunning => mkStats (Runs s) (Pending s) (Ready s) (Running s + 1)
  | _ => s
  end.

Definition queueStats (q : Queue) : Stats :=
  foldl (fun s (kv : string * nat) => foldl countEntry s (map_to_list (runTasks kv.2 q)))
    (mkStats (Z.of_nat (size (q_runs q))) 0 0 0) (map_to_list (q_runs q)).

(** ** Flushing: the work done after [q.mu] is released *)

Record flushState := mkFlush { fl_db : DB; fl_applied : gmap nat bool }.

(** One call of [fn]; true when it returned nil. *)
Definition callWrite (at_ : attempt) (w : write) (st : flushState) : bool * flushState :=
  let ok := match at_ with AttemptOk => true | _ => false end in
  let commits := match at_ with AttemptLost => false | _ => true end in
  let db := fl_db st in
  (ok,
   match w with
   | WUpsert s => mkFlush (if commits then Upsert s db else db) (fl_applied st)
   | WFinalize cell projectID runID status finishedAt =>
       let '(applied, db') := FinalizeStatusCAS projectID runID status (Some finishedAt) db in
       mkFlush (if commits then db' else db) (<[cell := (ok && applied)%bool]> (fl_applied st))
   | WCancelUntracked projectID runID now =>
       mkFlush (if commits then (FinalizeStatusCAS projectID runID StatusCanceled (Some now) db).2 else db)
         (fl_applied st)
   end).

Definition persistMaxAttempts : nat := 5.
Definition persistBackoff : Z := 100 * time_Millisecond.

(** [persistWithRetry] from its [attempt]-th try on: [tries] tries remain and
    the next wait is [backoff].  [env k] says how the [k]-th try ends and
    whether [ctx] is done during the wait after it.  The result carries the
    number of tries and the time waited. *)
Fixpoint persistLoop (env : nat -> attempt * bool) (tries attempt : nat) (backoff : Z) (w : write)
    (st : flushState) : nat * Z * flushState :=
  match tries with
  | O => (attempt, 0, st)
  | S tries =>
      let '(ok, st) := callWrite (env attempt).1 w st in
      if ok then (S attempt, 0, st) else
      match tries with
      | O => (S attempt, 0, st)
      | _ =>
          if (env attempt).2 then (S attempt, 0, st) else
          let '(n, waited, st) := persistLoop env tries (S attempt) (backoff * 2) w st in
          (n, backoff + waited, st)
      end
  end.

Definition persistWithRetry (env : nat -> attempt * bool) (w : write) (st : flushState) : nat * Z * flushState :=
  persistLoop env persistMaxAttempts 0 persistBackoff w st.

Definition guarded (applied : gmap nat bool) (g : option nat) : bool :=
  match g with None => true | Some c => default false (applied !! c) end.

Definition runEffect (applied : gmap nat bool) (q : Queue) (e : effect) : Queue :=
  match e with
  | EffEmit g projectID eventType fields =>
      if guarded applied g then emit projectID eventType fields q else q
  | EffOnRunOutcome c projectID runID status pl =>
      if guarded applied (Some c) then observe (CalledOnRunOutcome projectID runID status pl) q else q
  | EffOnRunSuccess c projectID runID pl =>
      if guarded applied (Some c) then observe (CalledOnRunSuccess projectID runID pl) q else q
  end.

Fixpoint flushWrites (env : nat -> nat -> attempt * bool) (i : nat) (ws : list pendingWrite) (st : flushState)
    : flushState :=
  match ws with
  | [] => st
  | w :: ws => flushWrites env (S i) ws (persistWithRetry (env i) (w_fn w) st).2
  end.

(** [env i k] is what the [k]-th try of the [i]-th write meets. *)
Definition flushPending (env : nat -> nat -> attempt * bool) (out : pendingOutcome) (st : flushState) (q : Queue)
    : flushState * Queue :=
  let st := flushWrites env 0 (po_writes out) st in
  (st, foldl (runEffect (fl_applied st)) q (po_effects out)).

(** ** The public entry points *)

Section Public.
Variable mapOrder : nat -> list string -> list string.
Variable marshalStep : Step -> option string.
Variable marshalPipeline : Pipeline -> option string.
Variable env : nat -> nat -> attempt * bool.

Definition flushed (r : pendingOutcome * Queue) (st : flushState) : flushState * Queue :=
  flushPending env r.1 st r.2.

Definition AddWithEnv now pl dag a st q :=
  flushed (addWithEnvLocked mapOrder marshalStep marshalPipeline now pl dag a q) st.

Definition Add now pl dag (projectID runID workDir outputDir : string) vars runParams st q :=
  AddWithEnv now pl dag (mkArgs projectID runID workDir outputDir vars runParams ∅) st q.

Definition RecoverWithEnv now pl dag a recovered st q :=
  flushed (recoverWithEnvLocked mapOrder marshalStep marshalPipeline now pl dag a recovered q) st.

Definition CompleteApplied now owner result st q : bool * option qerr * (flushState * Queue) :=
  let '(err, applied, r) := completeLocked mapOrder now owner result q in
  (applied, err, flushed r st).

Definition Complete now owner result st q : option qerr * (flushState * Queue) :=
  let '(err, _, r) := completeLocked mapOrder now owner result q in
  (err, flushed r st).

Definition Cleanup now ttl st q := flushed (cleanupLocked mapOrder now ttl q) st.

Definition Cancel now (projectID runID : string) (remote : option string) st q : flushState * Queue :=
  let b := q_backend (q_conf q) in
  let projectID' := match q_runs q !! runID with
                    | Some ref => match q_heap q !! ref with Some r => re_projectID r | None => projectID end
                    | None => projectID end in
  let '(st, q) := flushed (cancelLocked mapOrder now projectID runID q) st in
  (st, cancelRemote b projectID' runID remote q).
End Public.

(** [Close] returns nil when the WaitGroup is empty before [ctx] is done. *)
Definition Close (ctxErr : option string) (q : Queue) : option string :=
  if q_wg q =? 0 then None else ctxErr.
