(* ===== verification/QueueInv.v ===== *)
(** * The life of a queue entry

    The abstract state machine of one step ([edge]) and the refinement: every
    entry point of [Queue] moves every entry along it.  Terminal statuses and
    the bound on attempts are consequences, as is the accounting of the
    WaitGroup. *)

From S2P Require Import Prelude Pipeline Dag RunStore Queue.
From stdpp Require Import options.
#[local] Open Scope Z_scope.

(** ** The state machine of one step *)

(** Statuses with the number of attempts made, under a limit [max]. *)
Inductive edge (max : Z) : taskStatus -> Z -> taskStatus -> Z -> Prop :=
| edge_idle s n : edge max s n s n
| edge_ready n : edge max taskPending n taskReady n
| edge_start n : edge max taskReady n taskRunning (n + 1)
| edge_busy n : edge max taskRunning n taskReady (Z.max 0 (n - 1))
| edge_retry s n : terminalStatus s = false -> n < max -> edge max s n taskRetrying n
| edge_again n : edge max taskRetrying n taskReady n
| edge_done s n : terminalStatus s = false -> edge max s n taskDone n
| edge_fail s n : terminalStatus s = false -> edge max s n taskFailed n
| edge_skip s n : s = taskPending \/ s = taskReady -> edge max s n taskSkipped n
| edge_cancel s n : terminalStatus s = false -> edge max s n taskCanceled n
| edge_recover m n : n <= max -> edge max taskPending m taskRecovering n
| edge_recovered n : edge max taskRecovering n taskRunning n
| edge_renumber s n : terminalStatus s = false -> n <= 0 -> edge max s 0 s n.

(** What never changes in an entry. *)
Definition same_identity (en en' : taskEntry) : Prop :=
  te_step en' = te_step en /\ te_maxAttempts en' = te_maxAttempts en /\
  t_ID (te_task en') = t_ID (te_task en) /\ t_RunID (te_task en') = t_RunID (te_task en) /\
  t_StepName (te_task en') = t_StepName (te_task en) /\ t_ProjectID (te_task en') = t_ProjectID (te_task en).

Definition estep (en en' : taskEntry) : Prop :=
  same_identity en en' /\
  edge (te_maxAttempts en) (te_status en) (te_attempts en) (te_status en') (te_attempts en').

Notation esteps := (rtc estep).

(** A fresh entry: pending, no attempt made, at least one allowed. *)
Definition born (en : taskEntry) : Prop :=
  te_status en = taskPending /\ te_attempts en = 0 /\ 1 <= te_maxAttempts en.

Definition reachable_entry (en : taskEntry) : Prop := exists en0, born en0 /\ esteps en0 en.

Lemma same_identity_refl en : same_identity en en.
Proof. by repeat split. Qed.

Lemma esteps_identity en en' : esteps en en' -> same_identity en en'.
Proof.
  induction 1 as [|x y z [Hxy _] _ Hyz]; [apply same_identity_refl|].
  unfold same_identity in *. intuition congruence.
Qed.

Lemma esteps_terminal en en' :
  esteps en en' -> terminalStatus (te_status en) = true -> te_status en' = te_status en.
Proof.
  induction 1 as [|x y z [_ Hxy] _ IH]; intros Ht; [done|].
  assert (te_status y = te_status x) as E.
  { inversion Hxy; subst; try congruence;
      match goal with
      | H : _ = te_status x |- _ => rewrite <- H in Ht; done
      | H : _ \/ _ |- _ => destruct H as [H|H]; rewrite H in Ht; done
      end. }
  rewrite <- E. apply IH. by rewrite E.
Qed.

(** The bound on attempts each status carries. *)
Definition attempts_ok (en : taskEntry) : Prop :=
  1 <= te_maxAttempts en /\ te_attempts en <= te_maxAttempts en /\
  (te_status en = taskPending \/ te_status en = taskReady \/ te_status en = taskRetrying ->
   te_attempts en < te_maxAttempts en).

Lemma estep_attempts_ok en en' : estep en en' -> attempts_ok en -> attempts_ok en'.
Proof.
  intros [(_ & Em & _) He] (H1 & H2 & H3). unfold attempts_ok. rewrite Em.
  inversion He; subst; repeat match goal with H : _ = te_status _ |- _ => rewrite <- H in * end;
    try (split_and!; [lia| |]);
    try match goal with H : _ = te_attempts _ |- _ => rewrite <- H in * end;
    try lia; naive_solver lia.
Qed.

Lemma reachable_attempts_ok en : reachable_entry en -> attempts_ok en.
Proof.
  intros (en0 & (Hs & Ha & Hm) & Hr).
  assert (attempts_ok en0) as H0 by (unfold attempts_ok; lia). clear Hs Ha Hm.
  induction Hr as [|x y z Hxy _ IH]; [done|]. eauto using estep_attempts_ok.
Qed.

(** ** Reading through pointers *)

Lemma getEntry_updEntry e e' f q :
  getEntry e' (updEntry e f q) = (if decide (e = e') then f else id) <$> getEntry e' q.
Proof.
  unfold getEntry, updEntry, set_heap. simpl. destruct (decide (e.1 = e'.1)) as [E|E].
  - rewrite E, lookup_alter_eq. destruct (q_heap q !! e'.1) as [r|]; simpl.
    + destruct (decide (e.2 = e'.2)) as [E2|E2].
      * rewrite E2, lookup_alter_eq. rewrite decide_True; [done|]. destruct e, e'; simpl in *; congruence.
      * rewrite lookup_alter_ne by done. rewrite decide_False by congruence. by rewrite option_fmap_id.
    + done.
  - rewrite lookup_alter_ne by done. rewrite decide_False by congruence.
    destruct (q_heap q !! e'.1) as [r|]; [by rewrite option_fmap_id|done].
Qed.

Lemma getEntry_updEntry_eq e f q : getEntry e (updEntry e f q) = f <$> getEntry e q.
Proof. rewrite getEntry_updEntry. by rewrite decide_True. Qed.

Lemma getEntry_updEntry_ne e e' f q : e <> e' -> getEntry e' (updEntry e f q) = getEntry e' q.
Proof. intros H. rewrite getEntry_updEntry, decide_False by done. by rewrite option_fmap_id. Qed.

Definition te_transition (to : taskStatus) (en : taskEntry) : taskEntry :=
  if terminalStatus (te_status en) then en else te_set_status to en.

Lemma getEntry_transition e e' to q :
  getEntry e' (transition e to q) = (if decide (e = e') then te_transition to else id) <$> getEntry e' q.
Proof.
  unfold transition, transitionTaskLocked, te_transition. destruct (getEntry e q) as [en|] eqn:E; simpl.
  - destruct (terminalStatus (te_status en)) eqn:Et; [|rewrite getEntry_updEntry].
    + case_decide; [subst; rewrite E; simpl; by rewrite Et|by rewrite option_fmap_id].
    + case_decide; [subst; rewrite E; simpl; by rewrite Et|done].
  - case_decide; [subst; by rewrite E|by rewrite option_fmap_id].
Qed.

(** ** The relation every queue operation satisfies *)

(** Allocation is fresh, and the WaitGroup counts the live timers and
    goroutines. *)
Definition rt_ok (q : Queue) : Prop :=
  (forall ref r, q_heap q !! ref = Some r -> (ref < rt_nextRef (q_rt q))%nat) /\
  (forall id tm, rt_timers (q_rt q) !! id = Some tm -> (id < rt_nextTimer (q_rt q))%nat) /\
  (forall i g, rt_gos (q_rt q) !! i = Some g -> (i < rt_nextGo (q_rt q))%nat) /\
  q_wg q = Z.of_nat (size (rt_timers (q_rt q))) + Z.of_nat (size (rt_gos (q_rt q))).

(** The run an entry belongs to. *)
Definition run_of (q : Queue) (e : eref) : option string := re_runID <$> q_heap q !! e.1.

(** An entry as its run knows it. *)
Definition entry_id (name : string) (r : runEntry) (en : taskEntry) : Prop :=
  s_Name (te_step en) = name /\ t_RunID (te_task en) = re_runID r /\
  t_StepName (te_task en) = name /\ t_ID (te_task en) = MakeTaskID (re_runID r) name.

(** Names agree: the tracked runs with their keys, the entries with their run
    and step, the timers with their entry. *)
Definition ids_ok (q : Queue) : Prop :=
  (forall id ref, q_runs q !! id = Some ref -> re_runID <$> q_heap q !! ref = Some id) /\
  (forall ref r name en, q_heap q !! ref = Some r -> re_tasks r !! name = Some en -> entry_id name r en) /\
  (forall id tm, rt_timers (q_rt q) !! id = Some tm -> run_of q (tm_entry tm) = Some (tm_runID tm)).

(** *** The deferred work *)

Definition cell_of (w : write) : option nat := match w with WFinalize c _ _ _ _ => Some c | _ => None end.

Definition cells (ws : list pendingWrite) : list nat := omap (fun w => cell_of (w_fn w)) ws.

(** The statuses the queue finalizes with are final. *)
Definition write_ok (w : write) : Prop :=
  match w with WFinalize _ _ _ status _ => is_final status | _ => True end.

(** The events that announce the end of a run. *)
Definition run_end_event (eventType : string) : bool :=
  existsb (String.eqb eventType) ["run.completed"; "run.canceled"; "run.expired"]%string.

(** A guarded effect speaks of the write that sets its cell; an unguarded one does
    not announce the end of a run, but for that of a cancelled run the queue does
    not track. *)
Definition effect_ok (ws : list pendingWrite) (f : effect) : Prop :=
  match f with
  | EffEmit None p ty fields => run_end_event ty = true -> exists desc id at_,
      mkWrite desc (WCancelUntracked p id at_) ∈ ws /\ ty = "run.canceled"%string /\ fields = [("run_id"%string, FStr id)]
  | EffEmit (Some c) p _ fields => exists desc id status at_,
      mkWrite desc (WFinalize c p id status at_) ∈ ws /\ fields = finalFields id status
  | EffOnRunOutcome c p id status _ => exists desc at_, mkWrite desc (WFinalize c p id status at_) ∈ ws
  | EffOnRunSuccess c p id _ => exists desc at_, mkWrite desc (WFinalize c p id StatusSuccess at_) ∈ ws
  end.

Definition outcome_ok (bound : nat) (out : pendingOutcome) : Prop :=
  Forall (fun w => write_ok (w_fn w)) (po_writes out) /\ NoDup (cells (po_writes out)) /\
  Forall (fun c => (c < bound)%nat) (cells (po_writes out)) /\ Forall (effect_ok (po_writes out)) (po_effects out).

Definition pend_ok (q : Queue) : Prop :=
  outcome_ok (rt_nextCell (q_rt q)) (mkOutcome (q_pendingWrites q) (q_pendingEffects q)).

Definition same_run (r r' : runEntry) : Prop :=
  re_projectID r' = re_projectID r /\ re_runID r' = re_runID r /\ re_pl r' = re_pl r /\
  re_dag r' = re_dag r /\ dom (re_tasks r') = dom (re_tasks r).

(** [old] separates the run objects that existed from those an operation
    allocates. *)
Record qrel (old : nat) (q q' : Queue) : Prop := {
  qr_entries : forall e en, (e.1 < old)%nat -> getEntry e q = Some en ->
    exists en', getEntry e q' = Some en' /\ esteps en en';
  qr_new : (forall e en, (old <= e.1)%nat -> getEntry e q = Some en -> reachable_entry en) ->
    forall e en, (old <= e.1)%nat -> getEntry e q' = Some en -> reachable_entry en;
  qr_runs : forall ref, (ref < old)%nat -> option_Forall2 same_run (q_heap q !! ref) (q_heap q' !! ref);
  qr_rt : rt_ok q -> rt_ok q';
  qr_ids : ids_ok q -> ids_ok q';
  qr_pend : pend_ok q -> pend_ok q';
  qr_conf : q_conf q' = q_conf q;
  qr_trace : rt_trace (q_rt q) `prefix_of` rt_trace (q_rt q') }.

Lemma same_run_refl r : same_run r r.
Proof. by repeat split. Qed.

#[export] Instance qrel_preorder old : PreOrder (qrel old).
Proof.
  split.
  - intros q. split; auto.
    + intros e en _ H. eauto using rtc_refl.
    + intros ref _. destruct (q_heap q !! ref); constructor. apply same_run_refl.
  - intros a b c H1 H2. split.
    + intros e en He H. destruct (qr_entries _ _ _ H1 e en He H) as (en' & H' & S1).
      destruct (qr_entries _ _ _ H2 e en' He H') as (en'' & H'' & S2). exists en''. split; [done|]. by etrans.
    + intros H. apply (qr_new _ _ _ H2), (qr_new _ _ _ H1), H.
    + intros ref Hr. pose proof (qr_runs _ _ _ H1 ref Hr) as R1. pose proof (qr_runs _ _ _ H2 ref Hr) as R2.
      inversion R1 as [x y Hxy E1 E2|E1 E2]; rewrite <- ?E1, <- ?E2 in *; inversion R2 as [y' z Hyz|]; subst; constructor.
      unfold same_run in *. intuition congruence.
    + intros H. apply (qr_rt _ _ _ H2), (qr_rt _ _ _ H1), H.
    + intros H. apply (qr_ids _ _ _ H2), (qr_ids _ _ _ H1), H.
    + intros H. apply (qr_pend _ _ _ H2), (qr_pend _ _ _ H1), H.
    + rewrite (qr_conf _ _ _ H2). apply (qr_conf _ _ _ H1).
    + etrans; [apply (qr_trace _ _ _ H1)|apply (qr_trace _ _ _ H2)].
Qed.

Lemma qrel_trans old a b c : qrel old a b -> qrel old b c -> qrel old a c.
Proof. intros. by etrans. Qed.

Lemma run_of_updEntry e f q e' : run_of (updEntry e f q) e' = run_of q e'.
Proof.
  unfold run_of, updEntry. simpl. destruct (decide (e.1 = e'.1)) as [->|Hne];
    [rewrite lookup_alter_eq|by rewrite lookup_alter_ne]. by destruct (q_heap q !! e'.1).
Qed.

Lemma ids_updEntry e f q :
  (forall en, getEntry e q = Some en -> estep en (f en)) -> ids_ok q -> ids_ok (updEntry e f q).
Proof.
  intros Hf (H1 & H2 & H3). split_and!.
  - intros id ref H. change (run_of (updEntry e f q) (ref, ""%string) = Some id).
    rewrite run_of_updEntry. by apply H1.
  - intros ref r name en. unfold updEntry. simpl. destruct (decide (e.1 = ref)) as [<-|Hne].
    + rewrite lookup_alter_eq. intros (r0 & Hr & ->)%fmap_Some. simpl. destruct (decide (e.2 = name)) as [<-|Hn].
      * rewrite lookup_alter_eq. intros (en0 & Hen & ->)%fmap_Some.
        destruct (Hf en0) as [(Es & _ & Ei & Er & En & _) _]; [unfold getEntry; by rewrite Hr|].
        unfold entry_id. simpl. rewrite Es, Ei, Er, En. by apply (H2 _ _ _ _ Hr).
      * rewrite lookup_alter_ne by done. intros Hen. by apply (H2 _ _ _ _ Hr).
    + rewrite lookup_alter_ne by done. eauto.
  - intros id tm H. rewrite run_of_updEntry. by apply (H3 id).
Qed.

(** Updating one entry along the state machine. *)
Lemma qrel_updEntry old e f q :
  (forall en, getEntry e q = Some en -> estep en (f en)) -> qrel old q (updEntry e f q).
Proof.
  intros Hf. split; simpl; try done.
  - intros e' en _ H. rewrite getEntry_updEntry, H. simpl. eexists. split; [done|].
    destruct (decide (e = e')) as [->|]; [|apply rtc_refl]. by apply rtc_once, Hf.
  - intros H e' en He. rewrite getEntry_updEntry. intros (en0 & H0 & ->)%fmap_Some.
    destruct (H _ _ He H0) as (b & Hb & Hs). destruct (decide (e = e')) as [->|]; [|by exists b].
    exists b. split; [done|]. eapply rtc_r; eauto.
  - intros ref _. destruct (decide (e.1 = ref)) as [->|Hne]; [rewrite lookup_alter_eq|rewrite lookup_alter_ne by done];
      destruct (q_heap q !! ref) as [r|]; simpl; constructor; [|apply same_run_refl].
    repeat split; simpl. by rewrite dom_alter_L.
  - intros (H1 & H2 & H3 & H4). split_and!; try done. simpl. intros ref r.
    destruct (decide (e.1 = ref)) as [->|Hne]; [rewrite lookup_alter_eq|rewrite lookup_alter_ne by done]; [|apply H1].
    intros (r0 & H0 & _)%fmap_Some. eauto.
  - by apply ids_updEntry.
Qed.

(** Updating it in a way the state machine does not see. *)
Definition quiet (f : taskEntry -> taskEntry) : Prop :=
  forall en, same_identity en (f en) /\ te_status (f en) = te_status en /\ te_attempts (f en) = te_attempts en.

Lemma qrel_quiet old e f q : quiet f -> qrel old q (updEntry e f q).
Proof.
  intros H. apply qrel_updEntry. intros en _. destruct (H en) as (H1 & H2 & H3).
  split; [done|]. rewrite H2, H3. constructor.
Qed.

Lemma qrel_transition old e to q :
  (forall en, getEntry e q = Some en -> terminalStatus (te_status en) = false ->
     edge (te_maxAttempts en) (te_status en) (te_attempts en) to (te_attempts en)) ->
  qrel old q (transition e to q).
Proof.
  intros H. unfold transition, transitionTaskLocked. destruct (getEntry e q) as [en|] eqn:E; simpl; [|done].
  destruct (terminalStatus (te_status en)) eqn:Et; [done|].
  apply qrel_updEntry. intros en'. rewrite E. intros [= <-]. split; [by repeat split|]. simpl. by apply H.
Qed.

Ltac solve_quiet := intros ?; unfold same_identity; split_and!; reflexivity.

(** Operations that leave the heap alone. *)
Lemma qrel_heap_same old q q' :
  q_heap q' = q_heap q -> (rt_ok q -> rt_ok q') -> q_conf q' = q_conf q ->
  rt_trace (q_rt q) `prefix_of` rt_trace (q_rt q') ->
  q_runs q' ⊆ q_runs q ->
  (pend_ok q -> pend_ok q') ->
  (forall id tm, rt_timers (q_rt q') !! id = Some tm ->
     (exists tm0, rt_timers (q_rt q) !! id = Some tm0 /\ tm_entry tm = tm_entry tm0 /\ tm_runID tm = tm_runID tm0) \/
     (ids_ok q -> run_of q (tm_entry tm) = Some (tm_runID tm))) -> qrel old q q'.
Proof.
  intros Hh Hr Hc Ht Hs Hp Htm.
  assert (ids_ok q -> ids_ok q') as Hids.
  { intros Hi. pose proof Hi as (H1 & H2 & H3). unfold ids_ok, run_of. rewrite Hh. split_and!; [|done|].
    - intros id ref H. apply H1. by eapply lookup_weaken.
    - intros id tm H. destruct (Htm _ _ H) as [(tm0 & H0 & -> & ->)|Hn]; [by apply (H3 id)|by apply Hn]. }
  split; auto; unfold getEntry; rewrite Hh.
  - intros e en _ H. eauto using rtc_refl.
  - auto.
  - intros ref _. destruct (q_heap q !! ref); constructor. apply same_run_refl.
Qed.

Ltac heap_same :=
  apply qrel_heap_same; [reflexivity|try done|reflexivity|try done|try reflexivity|try done|try (intros ? ? ?; left; by eauto)].

Lemma qrel_observe old o q : qrel old q (observe o q).
Proof. heap_same. simpl. by apply prefix_app_r. Qed.

Lemma qrel_untrack old id q : qrel old q (set_runs (delete id) q).
Proof. heap_same. simpl. apply delete_subseteq. Qed.

Lemma qrel_track old id ref q :
  (ids_ok q -> re_runID <$> q_heap q !! ref = Some id) -> qrel old q (set_runs <[id := ref]> q).
Proof.
  intros H. split; try done; simpl.
  - intros e en _ He. eauto using rtc_refl.
  - intros ref' _. destruct (q_heap q !! ref'); constructor. apply same_run_refl.
  - intros Hi. pose proof Hi as (H1 & H2 & H3). split_and!; try done. simpl. intros id' ref'.
    rewrite lookup_insert_Some. intros [[<- <-]|[_ Hl]]; [by apply H|by apply H1].
Qed.

Lemma qrel_reseed old q : qrel old q (set_rt rt_reseed q).
Proof. heap_same. Qed.

Lemma qrel_spawn old g q : qrel old q (set_rt (rt_spawn g) (wgAdd q)).
Proof.
  heap_same. intros (H1 & H2 & H3 & H4). split_and!; try done; simpl.
  - intros i g'. rewrite lookup_insert_Some. intros [[<- _]|[_ H]]; [lia|]. pose proof (H3 _ _ H); lia.
  - rewrite size_insert_new_Z; [lia|]. apply eq_None_not_Some. intros [g' H]. pose proof (H3 _ _ H); lia.
Qed.

Lemma qrel_stop old e q : qrel old q (stopEntryTimerLocked e q).
Proof.
  unfold stopEntryTimerLocked. destruct (getEntry e q) as [en|]; [|done].
  destruct (te_timer en) as [id|]; [|done].
  eapply qrel_trans; [|apply qrel_quiet; solve_quiet].
  destruct (rt_timers (q_rt q) !! id) as [tm|] eqn:E; [|done]. destruct (tm_fired tm); [done|].
  heap_same; [|simpl; intros ? ? [_ H]%lookup_delete_Some; left; eauto].
  intros (H1 & H2 & H3 & H4). split_and!; try done; simpl.
  - intros id' tm' [_ H]%lookup_delete_Some. eauto.
  - erewrite size_delete_Z by eauto. lia.
Qed.

Lemma qrel_arm old kind e runID d q :
  (ids_ok q -> run_of q e = Some runID) -> qrel old q (armTimer kind e runID d q).
Proof.
  intros Hrun. unfold armTimer. eapply qrel_trans; [|apply qrel_quiet; solve_quiet].
  heap_same.
  2: { simpl. intros id tm. rewrite lookup_insert_Some. intros [[_ <-]|[_ H]]; [by right|left; eauto]. }
  intros (H1 & H2 & H3 & H4). split_and!; try done; simpl.
  - intros i tm'. rewrite lookup_insert_Some. intros [[<- _]|[_ H]]; [lia|]. pose proof (H2 _ _ H); lia.
  - rewrite size_insert_new_Z; [lia|]. apply eq_None_not_Some. intros [g' H]. pose proof (H2 _ _ H); lia.
Qed.

Lemma qrel_emit old p t f q : qrel old q (emit p t f q).
Proof. unfold emit. destruct (q_events (q_conf q)); [apply qrel_observe|done]. Qed.

Lemma effect_ok_app ws ws' f : effect_ok ws f -> effect_ok (ws ++ ws') f.
Proof.
  destruct f as [[c|] p t l|c p id status pl|c p id pl]; simpl.
  - intros (d & id & st & at_ & H & ->). exists d, id, st, at_. set_solver.
  - intros H Hty. destruct (H Hty) as (d & id & at_ & Hin & -> & ->). exists d, id, at_. set_solver.
  - intros (d & at_ & H). exists d, at_. set_solver.
  - intros (d & at_ & H). exists d, at_. set_solver.
Qed.

Lemma qrel_appendWrite old d w q : cell_of w = None -> qrel old q (appendWrite d w q).
Proof.
  intros Hw. heap_same. intros (H1 & H2 & H3 & H4). unfold pend_ok, outcome_ok in *. simpl in *.
  unfold cells in *. rewrite omap_app. simpl. rewrite Hw, app_nil_r. split_and!; try done.
  - apply Forall_app. split; [done|]. apply Forall_singleton. by destruct w.
  - eapply Forall_impl; [exact H4|]. intros f. apply effect_ok_app.
Qed.

Lemma qrel_effect old f q : effect_ok (q_pendingWrites q) f -> qrel old q (appendEffect f q).
Proof.
  intros Hf. heap_same. intros (H1 & H2 & H3 & H4). unfold pend_ok, outcome_ok in *. simpl in *. split_and!; try done.
  apply Forall_app. split; [done|]. by apply Forall_singleton.
Qed.

Lemma qrel_appendEffect old p t l q : run_end_event t = false -> qrel old q (appendEffect (EffEmit None p t l) q).
Proof. intros Ht. apply qrel_effect. simpl. by rewrite Ht. Qed.

#[export] Hint Extern 1 (run_end_event _ = false) => reflexivity : piper.

Lemma qrel_releaseTask old id q : qrel old q (releaseTask id q).
Proof. unfold releaseTask. repeat case_match; try done. apply qrel_observe. Qed.

Lemma qrel_releaseRun old id q : qrel old q (releaseRun id q).
Proof. unfold releaseRun. repeat case_match; try done. apply qrel_observe. Qed.

Lemma run_of_stop e e' q : run_of (stopEntryTimerLocked e q) e' = run_of q e'.
Proof.
  unfold stopEntryTimerLocked. destruct (getEntry e q) as [en|]; [|done]. destruct (te_timer en); [|done].
  rewrite run_of_updEntry. by repeat case_match.
Qed.

Lemma run_of_emit e p t f q : run_of (emit p t f q) e = run_of q e.
Proof. unfold emit. by case_match. Qed.

Lemma ids_entry q e en : ids_ok q -> getEntry e q = Some en -> run_of q e = Some (t_RunID (te_task en)).
Proof.
  unfold getEntry, run_of. intros (_ & H & _) He. destruct (q_heap q !! e.1) as [r|] eqn:E; [|done].
  simpl. by destruct (H _ _ _ _ E He) as (_ & -> & _).
Qed.

(** [e] is an entry of the run [runID]. *)
Definition in_run (q : Queue) (e : eref) (runID : string) : Prop :=
  exists en, getEntry e q = Some en /\ t_RunID (te_task en) = runID.

Lemma in_run_updEntry q e e' f runID :
  (forall en, t_RunID (te_task (f en)) = t_RunID (te_task en)) -> in_run q e runID -> in_run (updEntry e' f q) e runID.
Proof.
  intros Hf (en & He & Hr). unfold in_run. rewrite getEntry_updEntry, He. simpl. eexists. split; [done|].
  case_decide; [by rewrite Hf|done].
Qed.

Lemma in_run_stop q e e' runID : in_run q e runID -> in_run (stopEntryTimerLocked e' q) e runID.
Proof.
  intros H. unfold stopEntryTimerLocked. destruct (getEntry e' q) as [en|]; [|done]. destruct (te_timer en); [|done].
  apply in_run_updEntry; [done|]. by repeat case_match.
Qed.

Lemma qrel_arm_in old kind e runID d q : in_run q e runID -> qrel old q (armTimer kind e runID d q).
Proof. intros (en & He & <-). apply qrel_arm. intros Hi. by eapply ids_entry. Qed.

Lemma qrel_scheduleTimeout old now runID e d q :
  in_run q e runID -> qrel old q (scheduleTimeoutLocked now runID e d q).
Proof. intros H. eapply qrel_trans; [apply qrel_stop|]. by apply qrel_arm_in, in_run_stop. Qed.

Lemma qrel_scheduleGrace old runID e q :
  in_run q e runID -> qrel old q (scheduleRecoveryGraceLocked runID e q).
Proof. intros H. eapply qrel_trans; [apply qrel_stop|]. by apply qrel_arm_in, in_run_stop. Qed.

#[export] Hint Resolve qrel_observe qrel_untrack qrel_reseed  qrel_spawn
  qrel_stop qrel_arm qrel_emit qrel_appendWrite qrel_appendEffect qrel_releaseTask qrel_releaseRun
  qrel_scheduleTimeout qrel_scheduleGrace : piper.

(** Chain the last operation of the goal; the operations above close it. *)
Ltac qstep := (eapply qrel_trans; [|solve [auto with piper]]).
Ltac qquiet := (eapply qrel_trans; [|apply qrel_quiet; solve_quiet]).

(** ** Sequences of updates of one entry *)

Lemma updEntry_updEntry e f g q : updEntry e f (updEntry e g q) = updEntry e (fun en => f (g en)) q.
Proof.
  unfold updEntry, set_heap. simpl. f_equal. rewrite alter_twice. apply alter_ext. intros r _.
  destruct r. unfold re_set_tasks. simpl. f_equal. apply alter_twice.
Qed.

Lemma updEntry_ext e f q : (forall en, getEntry e q = Some en -> f en = en) -> updEntry e f q = q.
Proof.
  unfold getEntry, updEntry, set_heap. intros H. destruct q as [h ? ? ? ? ? ?]. simpl in *. f_equal.
  apply alter_id. intros r Hr. rewrite Hr in H. destruct r. unfold re_set_tasks. simpl in *. f_equal.
  by apply alter_id.
Qed.

Lemma transition_upd e to q : transition e to q = updEntry e (te_transition to) q.
Proof.
  unfold transition, transitionTaskLocked, te_transition.
  destruct (getEntry e q) as [en|] eqn:E; simpl.
  - destruct (terminalStatus (te_status en)) eqn:Et.
    + symmetry. apply updEntry_ext. intros en'. rewrite E. intros [= <-]. by rewrite Et.
    + unfold updEntry, set_heap. f_equal. apply alter_ext. intros r Hr. unfold re_set_tasks. f_equal.
      apply alter_ext. intros en' H'. unfold getEntry in E. rewrite Hr, H' in E. injection E as <-. by rewrite Et.
  - symmetry. apply updEntry_ext. intros en'. by rewrite E.
Qed.

(** The entry after [startTaskLocked], before the deadline is set. *)
Definition te_start (now : Z) (en : taskEntry) : taskEntry :=
  te_set_task (t_set_deadline None) (te_set_deadline None (te_set_leaseAt (Some now) (te_set_startedAt (Some now)
    (te_transition taskRunning (te_set_task (t_set_attempt (te_attempts en + 1))
      (te_set_attempts (te_attempts en + 1) en)))))).

Lemma startTask_upd now e q :
  updEntry e (te_set_task (t_set_deadline None))
    (updEntry e (fun en => te_set_deadline None (te_set_leaseAt (Some now) (te_set_startedAt (Some now) en)))
      (transition e taskRunning
        (updEntry e (fun en => te_set_task (t_set_attempt (te_attempts en)) en)
          (updEntry e (fun en => te_set_attempts (te_attempts en + 1) en) q)))) =
  updEntry e (te_start now) q.
Proof. by rewrite transition_upd, !updEntry_updEntry. Qed.

Lemma qrel_startTask old now runID e q :
  in_run q e runID -> (forall en, getEntry e q = Some en -> te_status en = taskReady) ->
  qrel old q (startTaskLocked now runID e q).
Proof.
  intros Hin H. unfold startTaskLocked. cbv zeta. rewrite startTask_upd.
  assert (qrel old q (updEntry e (te_start now) q)) as H1.
  { apply qrel_updEntry. intros en Hen. pose proof (H _ Hen) as Es. unfold te_start, te_transition. simpl.
    rewrite Es. simpl. split; [by repeat split|]. simpl. rewrite Es. constructor. }
  assert (in_run (updEntry e (te_start now) q) e runID) as H2.
  { apply in_run_updEntry; [|done]. intros en. unfold te_start, te_transition. simpl. by case_match. }
  etrans; [exact H1|]. destruct (getEntry e (updEntry e (te_start now) q)) as [en|] eqn:E; [|done].
  do 2 qstep. case_match; [|done]. 
  etrans; [|apply qrel_scheduleTimeout; (apply in_run_updEntry; [done|]); by apply in_run_updEntry].
  do 2 qquiet. done.
Qed.

Lemma getEntry_stop e e' q :
  getEntry e' (stopEntryTimerLocked e q) = (if decide (e = e') then te_set_timer None else id) <$> getEntry e' q \/
  getEntry e' (stopEntryTimerLocked e q) = getEntry e' q.
Proof.
  unfold stopEntryTimerLocked. destruct (getEntry e q) as [en|] eqn:E; [|by right].
  destruct (te_timer en) as [id0|]; [|by right]. left. rewrite getEntry_updEntry.
  repeat case_match; done.
Qed.

Lemma qrel_dispatch old now e q :
  (q_backend (q_conf q) = None \/ forall en, getEntry e q = Some en -> te_status en = taskReady) ->
  qrel old q (dispatchIfNeeded now e q).
Proof.
  intros H. unfold dispatchIfNeeded. destruct (q_backend (q_conf q)) as [b|]; [|done].
  destruct H as [?|H]; [done|]. destruct (getEntry e q) as [en|] eqn:E; [|done].
  etrans; [apply qrel_startTask; [by exists en|rewrite E; exact H]|].
  destruct (getEntry e (startTaskLocked _ _ _ _)); [|done]. apply qrel_spawn.
Qed.

(** Stopping the timer, then changing the status. *)
Lemma qrel_stop_transition old e to q :
  (forall en, getEntry e q = Some en -> terminalStatus (te_status en) = false ->
     edge (te_maxAttempts en) (te_status en) (te_attempts en) to (te_attempts en)) ->
  qrel old q (transition e to (stopEntryTimerLocked e q)).
Proof.
  intros H. etrans; [apply qrel_stop|]. apply qrel_transition. intros en' He'.
  destruct (getEntry_stop e e q) as [Hst|Hst]; rewrite Hst in He'; [|by apply H].
  rewrite decide_True in He' by done. apply fmap_Some in He' as (en & He & ->). simpl. by apply H.
Qed.

(** The status of an entry is not touched by these. *)
Lemma status_stop e e' q : te_status <$> getEntry e' (stopEntryTimerLocked e q) = te_status <$> getEntry e' q.
Proof.
  destruct (getEntry_stop e e' q) as [->| ->]; [|done]. destruct (getEntry e' q); simpl; [|done]. by case_decide.
Qed.

Lemma getEntry_observe e o q : getEntry e (observe o q) = getEntry e q.
Proof. done. Qed.

Lemma getEntry_emit e p t f q : getEntry e (emit p t f q) = getEntry e q.
Proof. unfold emit. by case_match. Qed.

Lemma getEntry_releaseTask e id q : getEntry e (releaseTask id q) = getEntry e q.
Proof. unfold releaseTask. by repeat case_match. Qed.

Lemma runs_stop e q : q_runs (stopEntryTimerLocked e q) = q_runs q.
Proof. unfold stopEntryTimerLocked. by repeat case_match. Qed.

Lemma conf_stop e q : q_conf (stopEntryTimerLocked e q) = q_conf q.
Proof. apply (qr_conf 0), qrel_stop. Qed.

Lemma qrel_scheduleRetry old now e q :
  (forall en, getEntry e q = Some en -> te_status en = taskRetrying) ->
  qrel old q (scheduleRetryLocked now e q).
Proof.
  intros H. unfold scheduleRetryLocked. case_match.
  - etrans; [|apply qrel_dispatch].
    + qquiet. apply qrel_transition. intros en He _. rewrite (H _ He). constructor.
    + right. intros en. rewrite getEntry_updEntry_eq, getEntry_transition, decide_True by done.
      intros (en1 & (en0 & Hen0 & ->)%fmap_Some & ->)%fmap_Some. simpl. unfold te_transition.
      by rewrite (H _ Hen0).
  - destruct (getEntry e q) as [en|] eqn:E; [|done]. etrans; [|apply qrel_arm_in, in_run_stop; by exists en].
    by qstep.
Qed.

Lemma qrel_requeue old runID stepName q : qrel old q (requeueBusyLocked runID stepName q).
Proof.
  unfold requeueBusyLocked. destruct (q_runs q !! runID) as [ref|] eqn:Er; [|done]. cbv zeta.
  destruct (getEntry (ref, stepName) q) as [en|] eqn:E; [|done].
  case_match eqn:Hb; [done|]. to_prop. etrans; [|apply qrel_arm].
  2: { intros (H & _). unfold run_of. simpl. apply H. rewrite runs_stop. by rewrite transition_upd. }
  qstep. qquiet. rewrite transition_upd, !updEntry_updEntry. apply qrel_updEntry. rewrite E. intros ? [= <-]. unfold te_transition. simpl.
  pose proof (edge_busy (te_maxAttempts en) (te_attempts en)) as Hedge.
  destruct (te_attempts en - 1 <? 0) eqn:Ea; simpl; rewrite Hb; simpl; to_prop;
    (split; [by repeat split|]); simpl; rewrite Hb.
  - by rewrite Z.max_l in Hedge by lia.
  - by rewrite Z.max_r in Hedge by lia.
Qed.

(** ** Loops over the entries of a run *)

Lemma qrel_foldl {A} old (f : Queue -> A -> Queue) l q :
  (forall q x, qrel old q (f q x)) -> qrel old q (foldl f q l).
Proof. intros H. revert q. induction l as [|x l IH]; intros q; simpl; [done|]. etrans; [apply H|apply IH]. Qed.

(** The writes and effects [finalizeRunLocked] adds. *)
Definition final_effects (q : Queue) (c : nat) (r : runEntry) (status ty : string) : list effect :=
  EffEmit (Some c) (re_projectID r) ty (finalFields (re_runID r) status) ::
  (if q_OnRunOutcome (q_conf q) then [EffOnRunOutcome c (re_projectID r) (re_runID r) status (re_pl r)] else []) ++
  (if (String.eqb status StatusSuccess && q_OnRunSuccess (q_conf q))%bool
   then [EffOnRunSuccess c (re_projectID r) (re_runID r) (re_pl r)] else []).

Lemma finalizeRun_unfold now ref status ty q r :
  q_heap q !! ref = Some r ->
  finalizeRunLocked now ref status ty q =
    releaseRun (re_runID r) (set_pending (q_pendingWrites q ++ [mkWrite ("run finalized " +:+ re_runID r)%string
                   (WFinalize (rt_nextCell (q_rt q)) (re_projectID r) (re_runID r) status now)])
      (q_pendingEffects q ++ final_effects q (rt_nextCell (q_rt q)) r status ty)
      (set_runs (delete (re_runID r)) (set_rt rt_newCell q))).
Proof.
  intros Hr. unfold finalizeRunLocked, final_effects. rewrite Hr. cbv zeta.
  assert (forall w e e2 q, set_pending w e2 (set_pending w e q) = set_pending w e2 q) as Hsp by done.
  unfold releaseRun. destruct (q_backend (q_conf q)) as [[ot [] oc]|] eqn:Eb; simpl;
    unfold appendEffect, appendWrite, observe, set_pending, set_rt, set_runs; simpl; rewrite Eb; simpl;
    destruct (q_OnRunOutcome (q_conf q)); simpl;
    destruct (String.eqb status StatusSuccess && q_OnRunSuccess (q_conf q))%bool; simpl; by rewrite <- ?app_assoc.
Qed.

Lemma qrel_finalizeRun old now ref status ty q :
  is_final status -> qrel old q (finalizeRunLocked now ref status ty q).
Proof.
  intros Hf. destruct (q_heap q !! ref) as [r|] eqn:Er; [|unfold finalizeRunLocked; by rewrite Er].
  rewrite (finalizeRun_unfold _ _ _ _ _ _ Er).
  etrans; [|apply qrel_releaseRun]. heap_same; [simpl; apply delete_subseteq|].
  intros (H1 & H2 & H3 & H4). simpl in H1, H2, H3, H4. unfold pend_ok, outcome_ok. simpl.
  unfold cells in *. rewrite omap_app. simpl.
  set (w := mkWrite _ _). assert (w ∈ q_pendingWrites q ++ [w]) as Hin by set_solver. split_and!.
  - apply Forall_app. split; [done|]. by apply Forall_singleton.
  - apply NoDup_app. split_and!; [done| |apply NoDup_singleton]. intros c Hc ->%list_elem_of_singleton.
    rewrite Forall_forall in H3. specialize (H3 _ Hc). simpl in H3. lia.
  - apply Forall_app. split; [|apply Forall_singleton; lia]. eapply Forall_impl; [exact H3|]. intros c Hc; simpl in *; lia.
  - apply Forall_app. split; [eapply Forall_impl; [exact H4|]; intros f; apply effect_ok_app|].
    unfold final_effects. apply Forall_cons. split; [simpl; do 4 eexists; split; [apply Hin|done]|].
    apply Forall_app. split; case_match; try apply Forall_nil; try done; apply Forall_singleton; simpl.
    + do 2 eexists. apply Hin.
    + apply andb_true_iff in H as [->%String.eqb_eq _]. do 2 eexists. apply Hin.
Qed.

#[export] Hint Extern 1 (is_final _) => solve [reflexivity | case_match; reflexivity] : piper.

Section Ops.
Variable mapOrder : nat -> list string -> list string.
Variable marshalStep : Step -> option string.
Variable marshalPipeline : Pipeline -> option string.

Lemma qrel_promoteReady old now ref q : qrel old q (promoteReady mapOrder now ref q).
Proof.
  unfold promoteReady. destruct (q_heap q !! ref) as [r|]; [|done]. cbv zeta. simpl.
  etrans; [apply qrel_reseed|]. apply qrel_foldl. clear q. intros q name. unfold promoteEntry. cbv zeta.
  destruct (getEntry (ref, name) q) as [en|] eqn:E; [|done].
  case_match eqn:Hb; [done|]. case_match; [|done]. to_prop.
  etrans; [|apply qrel_dispatch].
  - etrans; [|apply qrel_emit]. apply qrel_transition. rewrite E. intros ? [= <-] _. rewrite Hb. constructor.
  - right. rewrite getEntry_emit, getEntry_transition, decide_True, E by done. intros ? [= <-].
    unfold te_transition. by rewrite Hb.
Qed.

Lemma qrel_skipDownstream_fuel old fuel ref x q : qrel old q (skipDownstream_fuel mapOrder fuel ref x q).
Proof.
  revert x q. induction fuel as [|fuel IH]; intros x q; simpl; [done|].
  destruct (q_heap q !! ref) as [r|]; [|done]. etrans; [apply qrel_reseed|]. apply qrel_foldl. clear q. intros q name.
  unfold skipEntry. cbv zeta. destruct (getEntry (ref, name) q) as [en|] eqn:E; [|done].
  case_match eqn:Hb; [done|]. case_match; [|done]. to_prop.
  etrans; [|apply IH]. do 2 qstep. apply qrel_transition. rewrite E. intros ? [= <-] _. by constructor.
Qed.

Lemma qrel_skipDownstream old ref x q : qrel old q (skipDownstream mapOrder ref x q).
Proof. apply qrel_skipDownstream_fuel. Qed.

Lemma qrel_finalizeIf old now ref q : qrel old q (finalizeRunIfAllTerminalLocked now ref q).
Proof. unfold finalizeRunIfAllTerminalLocked. case_match; [apply qrel_finalizeRun; by case_match|done]. Qed.

#[local] Hint Resolve qrel_promoteReady qrel_skipDownstream qrel_finalizeRun qrel_finalizeIf : piper.

Lemma getEntry_appendWrite e d w q : getEntry e (appendWrite d w q) = getEntry e q.
Proof. done. Qed.

Lemma qrel_failOrRetry old now ref e msg st ed q :
  (forall en, getEntry e q = Some en -> terminalStatus (te_status en) = false) ->
  qrel old q (failOrRetryLocked mapOrder now ref e msg st ed q).
Proof.
  intros H. unfold failOrRetryLocked. destruct (q_heap q !! ref) as [r|]; [|done].
  destruct (getEntry e q) as [en|] eqn:E; [|done]. pose proof (H _ eq_refl) as Ht. cbv zeta.
  case_match eqn:Hm; to_prop.
  - etrans; [|apply qrel_scheduleRetry].
    + qstep. qquiet. apply qrel_stop_transition. rewrite E. intros ? [= <-] _. by constructor.
    + intros en'. rewrite getEntry_appendWrite, getEntry_updEntry_eq, getEntry_transition, decide_True by done.
      intros (en1 & (en2 & H2 & ->)%fmap_Some & ->)%fmap_Some. simpl. unfold te_transition.
      pose proof (status_stop e e q) as Hs. rewrite H2, E in Hs. injection Hs as Hs. by rewrite Hs, Ht.
  - do 4 qstep. qquiet. apply qrel_stop_transition. rewrite E. intros ? [= <-] _. by constructor.
Qed.

(** A locked section ends without deferred work, or by handing all of it over. *)
Definition pending_same (q q' : Queue) : Prop :=
  q_pendingWrites q' = q_pendingWrites q /\ q_pendingEffects q' = q_pendingEffects q.

Definition opres (old : nat) (q : Queue) (r : pendingOutcome * Queue) : Prop :=
  (r.1 = noOutcome /\ qrel old q r.2 /\ pending_same q r.2) \/
  (exists q', qrel old q q' /\ r = takePendingLocked q').

Lemma qrel_take old q q' : qrel old q q' -> qrel old q (takePendingLocked q').2.
Proof. intros H. simpl. etrans; [exact H|]. heap_same. intros _. by split_and!; constructor. Qed.

Lemma opres_qrel old q r : opres old q r -> qrel old q r.2.
Proof. intros [(_ & H & _)|(q' & H & ->)]; [done|by apply qrel_take]. Qed.

Lemma opres_take old q q' : qrel old q q' -> opres old q (takePendingLocked q').
Proof. intros H. right. by exists q'. Qed.

Lemma opres_none old q q' : qrel old q q' -> pending_same q q' -> opres old q (noOutcome, q').
Proof. intros H Hp. left. by split_and!. Qed.

Lemma opres_skip old q : opres old q (noOutcome, q).
Proof. by apply opres_none. Qed.

Lemma getEntry_status_upd e f q st :
  (forall en, te_status (f en) = te_status en) ->
  (forall en, getEntry e q = Some en -> terminalStatus (te_status en) = st) ->
  forall en, getEntry e (updEntry e f q) = Some en -> terminalStatus (te_status en) = st.
Proof.
  intros Hf H en. rewrite getEntry_updEntry_eq. intros (en0 & H0 & ->)%fmap_Some. rewrite Hf. eauto.
Qed.

Lemma qrel_applyResult old now ref e r result n stepName q en :
  getEntry e q = Some en -> terminalStatus (te_status en) = false -> n <= te_attempts en ->
  qrel old q (applyResult mapOrder now ref e r result n stepName q).
Proof.
  intros E Ht Hn. unfold applyResult. cbv zeta.
  set (f := fun en => if te_attempts en =? 0 then te_set_attempts n en else en).
  assert (getEntry e (updEntry e f (releaseTask (tr_TaskID result) q)) = Some (f en)) as E1.
  { by rewrite getEntry_updEntry_eq, getEntry_releaseTask, E. }
  assert (terminalStatus (te_status (f en)) = false) as Ht1 by (unfold f; by case_match).
  match goal with |- context [emit ?p ?t ?l (updEntry e f ?q0)] => set (q1 := emit p t l (updEntry e f q0)) end.
  assert (getEntry e q1 = Some (f en)) as E2 by (unfold q1; by rewrite getEntry_emit).
  assert (qrel old q q1) as H1.
  { unfold q1. qstep. etrans; [apply qrel_releaseTask|]. apply qrel_updEntry.
    rewrite getEntry_releaseTask, E. intros ? [= <-]. unfold f. destruct (te_attempts en =? 0) eqn:Ea; to_prop.
    - split; [by repeat split|]. simpl. rewrite Ea. constructor; [done|lia].
    - split; [by repeat split|constructor]. }
  etrans; [exact H1|]. clearbody q1. clear E1 H1. case_match.
  - assert (qrel old q1 (updEntry e (fun en => te_set_leaseAt None (te_set_startedAt None en))
      (transition e taskDone (stopEntryTimerLocked e q1)))) as H1.
    { qquiet. apply qrel_stop_transition. rewrite E2. intros ? [= <-] _. by constructor. }
    etrans; [exact H1|]. clear H1. destruct (getEntry e (updEntry e _ _)); [|done].
    by do 4 qstep.
  - apply qrel_failOrRetry. rewrite E2. by intros ? [= <-].
Qed.

Lemma opres_complete old now owner result q : opres old q (completeLocked mapOrder now owner result q).2.
Proof.
  unfold completeLocked. destruct (SplitTaskID (tr_TaskID result)) as [[runID stepName]|err]; [|by apply opres_take].
  destruct (q_runs q !! runID) as [ref|]; [|by apply opres_take].
  destruct (q_heap q !! ref) as [r|]; [|by apply opres_take].
  destruct (getEntry (ref, stepName) q) as [en|] eqn:E; [|by apply opres_take]. cbv zeta.
  generalize (if tr_Attempt result =? 0 then 1 else tr_Attempt result) as n. intros n.
  do 2 (case_match; [by apply opres_take|]).
  destruct (terminalStatus (te_status en)) eqn:Ht; [by apply opres_take|].
  case_match; [by apply opres_take|]. destruct (te_attempts en <? n) eqn:Hf; [by apply opres_take|]. to_prop.
  apply opres_take. by eapply qrel_applyResult.
Qed.

Lemma opres_fired old now runID e msg want q :
  terminalStatus want = false -> opres old q (firedEntry mapOrder now runID e msg want q).
Proof.
  intros Hw. unfold firedEntry. destruct (getEntry e q) as [en|] eqn:E; [|apply opres_skip].
  case_match eqn:Hb; [apply opres_skip|]. destruct (q_runs q !! runID) as [ref|]; [|apply opres_skip]. to_prop.
  apply opres_take. etrans; [|apply qrel_failOrRetry].
  - qstep. by qquiet.
  - rewrite getEntry_releaseTask, getEntry_updEntry_eq, E. intros ? [= <-]. simpl. congruence.
Qed.

Lemma opres_callback old now tm q : opres old q (timerCallback mapOrder now tm q).
Proof.
  unfold timerCallback. destruct (tm_kind tm).
  - by apply opres_fired.
  - by apply opres_fired.
  - unfold requeuedDispatchFiredLocked. cbv zeta.
    assert (qrel old q (updEntry (tm_entry tm) (te_set_timer None) q)) as H by by qquiet.
    destruct (getEntry _ (updEntry _ _ _)) as [en|] eqn:E; [|by apply opres_none]. case_match eqn:Hb; [by apply opres_none|]. to_prop.
    apply opres_take. etrans; [exact H|]. apply qrel_dispatch. right. rewrite E. by intros ? [= <-].
  - unfold retryFiredLocked. destruct (getEntry (tm_entry tm) q) as [en|] eqn:E; [|apply opres_skip].
    case_match eqn:Hb; [apply opres_skip|]. to_prop. cbv zeta. apply opres_take. etrans; [|apply qrel_dispatch].
    + etrans; [|apply qrel_transition]; [by qquiet|].
      rewrite getEntry_updEntry_eq, E. intros ? [= <-] _. simpl. rewrite Hb. constructor.
    + right. rewrite getEntry_transition, decide_True, getEntry_updEntry_eq, E by done. intros ? [= <-].
      unfold te_transition. simpl. by rewrite Hb.
Qed.

Lemma qrel_renewLease old now runtimeID q taskID : qrel old q (renewLease now runtimeID q taskID).
Proof.
  unfold renewLease. destruct (SplitTaskID taskID) as [[runID stepName]|]; [|done].
  destruct (q_runs q !! runID) as [ref|]; [|done]. cbv zeta. destruct (q_heap q !! ref) as [r|]; [|done].
  destruct (getEntry (ref, stepName) q) as [en|] eqn:E; [|done].
  do 2 (case_match; [done|]). match goal with |- qrel _ _ (if _ then ?a else _) => set (q1 := a) end.
  assert (qrel old q q1) as H1 by (unfold q1; case_match; [by qquiet|done]).
  case_match; [done|]. qquiet. destruct (bool_decide (te_status en = taskRecovering)) eqn:Hs; [|done].
  to_prop. etrans; [exact H1|]. qstep.
  apply qrel_stop_transition. intros en'. unfold q1. case_match;
    rewrite ?getEntry_updEntry_eq, E; intros [= <-] _; simpl; rewrite Hs; constructor.
Qed.

Lemma qrel_cancelEntry old now ref r q name : qrel old q (cancelEntry now ref r q name).
Proof.
  unfold cancelEntry. destruct (getEntry (ref, name) q) as [en|] eqn:E; [|done].
  destruct (terminalStatus (te_status en)) eqn:Ht; [done|]. cbv zeta. do 2 qstep. qquiet.
  apply qrel_stop_transition. rewrite E. intros ? [= <-] _. by constructor.
Qed.

Lemma qrel_expireEntry old now ref r q name : qrel old q (expireEntry now ref r q name).
Proof.
  unfold expireEntry. destruct (getEntry (ref, name) q) as [en|] eqn:E; [|done].
  destruct (terminalStatus (te_status en)) eqn:Ht; [done|]. cbv zeta. qstep. qquiet.
  apply qrel_stop_transition. rewrite E. intros ? [= <-] _. by constructor.
Qed.

Lemma opres_cancel old now projectID runID q : opres old q (cancelLocked mapOrder now projectID runID q).
Proof.
  unfold cancelLocked. destruct (q_runs q !! runID) as [ref|].
  2: { apply opres_take. etrans; [|apply qrel_effect]; [by qstep|]. simpl. intros _.
       exists ("run canceled (untracked) " +:+ runID)%string, runID, now. split_and!; [set_solver|done|done]. }
  destruct (q_heap q !! ref) as [r|]; [|apply opres_skip]. cbv zeta. unfold rangeMap. cbv iota beta zeta.
  apply opres_take. qstep. etrans; [apply qrel_reseed|]. apply qrel_foldl. intros. apply qrel_cancelEntry.
Qed.

Lemma qrel_expireRun old now cutoff q runID : qrel old q (expireRun mapOrder now cutoff q runID).
Proof.
  unfold expireRun. destruct (q_runs q !! runID) as [ref|]; [|done]. destruct (q_heap q !! ref) as [r|]; [|done].
  destruct (runExpiredLocked (re_tasks r) cutoff); [|done]. unfold rangeMap. cbv iota beta zeta. qstep. etrans; [apply qrel_reseed|].
  apply qrel_foldl. intros. apply qrel_expireEntry.
Qed.

Lemma opres_cleanup old now ttl q : opres old q (cleanupLocked mapOrder now ttl q).
Proof.
  unfold cleanupLocked. unfold rangeMap. cbv iota beta zeta. apply opres_take. etrans; [apply qrel_reseed|].
  apply qrel_foldl. intros. apply qrel_expireRun.
Qed.

(** *** The runtime: timers and goroutines *)

Lemma qrel_alterTimer old id f q : (forall tm, tm_entry (f tm) = tm_entry tm /\ tm_runID (f tm) = tm_runID tm) ->
  qrel old q (set_rt (rt_setTimers (alter f id)) q).
Proof.
  intros Hf.
  heap_same.
  - intros (H1 & H2 & H3 & H4). split_and!; try done; simpl.
    + intros i tm. destruct (decide (id = i)) as [->|]; [rewrite lookup_alter_eq|rewrite lookup_alter_ne by done];
        [intros (tm0 & H & _)%fmap_Some|intros H]; eauto.
    + rewrite H4. do 2 f_equal. rewrite <- !size_dom, dom_alter_L. done.
  - simpl. intros i tm. destruct (decide (id = i)) as [->|]; [rewrite lookup_alter_eq|rewrite lookup_alter_ne by done];
      [intros (tm0 & H & ->)%fmap_Some|intros H]; left; [|by eauto].
    destruct (Hf tm0). eauto.
Qed.

Lemma qrel_fireTimer old id q : qrel old q (fireTimer id q).
Proof. by apply qrel_alterTimer. Qed.

Lemma qrel_ranTimer old id q : qrel old q (ranTimer id q).
Proof. by apply qrel_alterTimer. Qed.

Lemma opres_ran old id q r : opres old (ranTimer id q) r -> opres old q r.
Proof.
  intros [(E & H & Hp)|(q' & H & E)]; [left|right].
  - split; [done|]. split; [by etrans; [apply qrel_ranTimer|]|exact Hp].
  - exists q'. split; [by etrans; [apply qrel_ranTimer|]|done].
Qed.

Lemma qrel_timerDone old id q : qrel old q (timerDone id q).
Proof.
  unfold timerDone. destruct (rt_timers (q_rt q) !! id) as [tm|] eqn:E; [|done]. destruct (tm_ran tm); [|done].
  heap_same; [|simpl; intros ? ? [_ H]%lookup_delete_Some; left; eauto].
  intros (H1 & H2 & H3 & H4). split_and!; try done; simpl.
  - intros i tm' [_ H]%lookup_delete_Some. eauto.
  - erewrite size_delete_Z by eauto. lia.
Qed.

Lemma qrel_exitGo old i g q : rt_gos (q_rt q) !! i = Some g -> qrel old q (exitGo i q).
Proof.
  intros E. heap_same. intros (H1 & H2 & H3 & H4). split_and!; try done; simpl.
  - intros i' tm' [_ H]%lookup_delete_Some. eauto.
  - erewrite size_delete_Z by eauto. lia.
Qed.

Lemma qrel_goCheck old i q : qrel old q (goCheck i q).
Proof.
  unfold goCheck. destruct (rt_gos (q_rt q) !! i) as [g|] eqn:E; [|done]. destruct (g_dispatched g); [done|].
  destruct (getEntry (g_entry g) q) as [en|]; [|done]. case_bool_decide; [by eapply qrel_exitGo|].
  etrans; [|apply qrel_observe]. heap_same. intros (H1 & H2 & H3 & H4).
  split_and!; try done; simpl.
  - intros i' g'. rewrite lookup_insert_Some. intros [[<- _]|[_ H']]; eauto.
  - rewrite H4. rewrite map_size_insert, E. done.
Qed.

Lemma pending_stop e q : pending_same q (stopEntryTimerLocked e q).
Proof. unfold stopEntryTimerLocked. by repeat case_match. Qed.

Lemma pending_emit p t f q : pending_same q (emit p t f q).
Proof. unfold emit. by case_match. Qed.

#[export] Instance pending_same_preorder : PreOrder pending_same.
Proof. split; [by intros q|]. intros a b c [H1 H2] [H3 H4]. split; congruence. Qed.

Lemma pending_requeue runID stepName q : pending_same q (requeueBusyLocked runID stepName q).
Proof.
  unfold requeueBusyLocked. destruct (q_runs q !! runID) as [ref|]; [|done]. cbv zeta.
  destruct (getEntry (ref, stepName) q); [|done]. case_match; [done|]. rewrite transition_upd.
  etrans; [|apply (pending_stop (ref, stepName))]. done.
Qed.

Lemma pending_renewLease now runtimeID q taskID : pending_same q (renewLease now runtimeID q taskID).
Proof.
  unfold renewLease. destruct (SplitTaskID taskID) as [[runID stepName]|]; [|done].
  destruct (q_runs q !! runID) as [ref|]; [|done]. cbv zeta. destruct (q_heap q !! ref) as [r|]; [|done].
  destruct (getEntry (ref, stepName) q) as [en|]; [|done]. do 2 (case_match; [done|]).
  set (q1 := if String.eqb (te_assignedRuntimeID en) "" then _ else q).
  assert (pending_same q q1) as H1 by (unfold q1; by case_match). case_match; [done|].
  destruct (bool_decide (te_status en = taskRecovering)); [|exact H1]. etrans; [exact H1|].
  change (pending_same q1 (emit (re_projectID r) "step.recovered" [("run_id", FStr runID); ("step", FStr stepName)]
    (transition (ref, stepName) taskRunning (stopEntryTimerLocked (ref, stepName) q1)))).
  etrans; [|apply pending_emit]. rewrite transition_upd. apply (pending_stop (ref, stepName)).
Qed.

Lemma opres_goResult old now owner i err q : opres old q (goResult mapOrder now owner i err q).
Proof.
  unfold goResult. destruct (rt_gos (q_rt q) !! i) as [g|]; [|apply opres_skip]. case_match; [apply opres_skip|].
  destruct err as [[[] msg]|]; [apply opres_none; [apply qrel_requeue|apply pending_requeue]|apply opres_complete|apply opres_skip].
Qed.

(** *** Adding runs *)

Lemma qrel_newRun old now a pl dag tasks q :
  rt_ok q -> (old <= rt_nextRef (q_rt q))%nat ->
  (forall name en, tasks !! name = Some en -> reachable_entry en) ->
  (forall name en r, tasks !! name = Some en -> re_runID r = ra_runID a -> entry_id name r en) ->
  qrel old q (newRun now a pl dag tasks q).2.
Proof.
  intros Hok Hold Hb Hid. unfold newRun. simpl. split; simpl; try done; unfold getEntry; simpl.
  - intros e en He H. rewrite lookup_insert_ne by lia. eauto using rtc_refl.
  - intros H e en He. destruct (decide (rt_nextRef (q_rt q) = e.1)) as [<-|];
      [rewrite lookup_insert_eq|rewrite lookup_insert_ne by done; eauto]. simpl. eauto.
  - intros ref Hr. rewrite lookup_insert_ne by lia. destruct (q_heap q !! ref); constructor. apply same_run_refl.
  - intros (H1 & H2 & H3 & H4). split_and!; try done. simpl. intros ref r.
    rewrite lookup_insert_Some. intros [[<- _]|[_ H]]; [lia|]. pose proof (H1 _ _ H); lia.
  - assert (forall ref, is_Some (q_heap q !! ref) -> rt_nextRef (q_rt q) <> ref) as Hne.
    { destruct Hok as (H1 & _). intros ref [r Hr]. pose proof (H1 _ _ Hr). lia. }
    intros (H1 & H2 & H3). split_and!; simpl.
    + intros id ref Hr. pose proof (H1 _ _ Hr) as Hl. rewrite lookup_insert_ne; [done|].
      apply Hne. apply fmap_Some in Hl as (r & Hl & _). eauto.
    + intros ref r name en. rewrite lookup_insert_Some. intros [[<- <-]|[_ Hr]]; [|by eapply H2].
      simpl. intros Hen. by eapply Hid.
    + intros id tm Htm. pose proof (H3 _ _ Htm) as Hl. unfold run_of in *. simpl. rewrite lookup_insert_ne; [done|].
      apply Hne. apply fmap_Some in Hl as (r & Hl & _). eauto.
Qed.

Lemma newEntry_id now a q js s r :
  re_runID r = ra_runID a -> entry_id (s_Name s) r (newEntry marshalStep now a q js s).
Proof. intros H. unfold entry_id. simpl. by rewrite H. Qed.

Lemma newEntry_reachable now a q js s :
  1 <= q_maxAttempts (q_conf q) -> reachable_entry (newEntry marshalStep now a q js s).
Proof. intros H. eexists. split; [|apply rtc_refl]. done. Qed.

(** A property of every fresh entry holds of all [addTasks] makes. *)
Lemma addTasks_all now a q pl (P : string -> taskEntry -> Prop) name en :
  (forall s js, P (s_Name s) (newEntry marshalStep now a q js s)) ->
  addTasks marshalStep marshalPipeline now a q pl !! name = Some en -> P name en.
Proof.
  intros HP. unfold addTasks. generalize (marshalPipeline pl) as js. intros js.
  cut (forall l (m : gmap string taskEntry), (forall n e, m !! n = Some e -> P n e) ->
    forall n e, foldl (fun tasks s => match marshalStep s with None => tasks
      | Some _ => <[s_Name s := newEntry marshalStep now a q js s]> tasks end) m l !! n = Some e -> P n e).
  { intros H. by apply H. }
  induction l as [|s l IH]; intros m Hm0; simpl; [apply Hm0|]. apply IH. intros n e.
  destruct (marshalStep s); [|by apply Hm0]. rewrite lookup_insert_Some. intros [[<- <-]|[_ H]]; [|by eapply Hm0].
  apply HP.
Qed.

Lemma heap_dispatch_run_of old now ref q id :
  re_runID <$> q_heap q !! ref = Some id -> qrel old q (promoteReady mapOrder now ref q) ->
  (ref < old)%nat -> re_runID <$> q_heap (promoteReady mapOrder now ref q) !! ref = Some id.
Proof.
  intros H Hq Ho. pose proof (qr_runs _ _ _ Hq ref Ho) as R. inversion R as [r r' Hr E1 E2|E1 E2]; rewrite <- E1 in H; [|done].
  simpl in *. destruct Hr as (_ & -> & _). done.
Qed.

Lemma opres_add now pl dag a q :
  rt_ok q -> 1 <= q_maxAttempts (q_conf q) ->
  opres (rt_nextRef (q_rt q)) q (addWithEnvLocked mapOrder marshalStep marshalPipeline now pl dag a q).
Proof.
  intros Hok Hm. unfold addWithEnvLocked. cbv zeta.
  match goal with |- context [newRun ?n ?a ?p ?d ?t ?q0] =>
    pose proof (qrel_newRun (rt_nextRef (q_rt q)) n a p d t q0) as H;
    assert (re_runID <$> q_heap (newRun n a p d t q0).2 !! (newRun n a p d t q0).1 = Some (ra_runID a)) as Hid
      by (simpl; by rewrite lookup_insert_eq);
    destruct (newRun n a p d t q0) as [ref q1] end.
  apply opres_take. etrans; [|apply qrel_track].
  - etrans; [|apply qrel_promoteReady]. apply H; [done|done| |].
    + intros n en. apply (addTasks_all now a q (ApplyDefaults pl) (fun _ => reachable_entry)).
      intros s js. by apply newEntry_reachable.
    + intros n en r Hen Hr. revert Hen.
      apply (addTasks_all now a q (ApplyDefaults pl) (fun n e => entry_id n r e)). intros s js. by apply newEntry_id.
  - intros _. apply (heap_dispatch_run_of (S ref)); [done|apply qrel_promoteReady|lia].
Qed.

Lemma qrel_put old ref name en q :
  (old <= ref)%nat -> reachable_entry en ->
  (forall r, q_heap q !! ref = Some r -> entry_id name r en) ->
  qrel old q (set_heap (alter (re_set_tasks <[name := en]>) ref) q).
Proof.
  intros Ho Hr Hid. split; simpl; try done; unfold getEntry; simpl.
  - intros e en' He H. rewrite lookup_alter_ne by lia. eauto using rtc_refl.
  - intros H e en' He. destruct (decide (ref = e.1)) as [->|];
      [rewrite lookup_alter_eq|rewrite lookup_alter_ne by done; eauto].
    specialize (H e). destruct (q_heap q !! e.1) as [r|]; simpl; [|done]. rewrite lookup_insert_Some.
    intros [[_ <-]|[_ ?]]; eauto.
  - intros ref' Hr'. rewrite lookup_alter_ne by lia. destruct (q_heap q !! ref'); constructor. apply same_run_refl.
  - intros (H1 & H2 & H3 & H4). split_and!; try done. simpl. intros ref' r.
    destruct (decide (ref = ref')) as [->|]; [rewrite lookup_alter_eq|rewrite lookup_alter_ne by done]; [|apply H1].
    intros (r0 & H0 & _)%fmap_Some. eauto.
  - assert (forall ref', re_runID <$> alter (re_set_tasks <[name:=en]>) ref (q_heap q) !! ref' =
                         re_runID <$> q_heap q !! ref') as Hrun.
    { intros ref'. destruct (decide (ref = ref')) as [->|];
        [rewrite lookup_alter_eq; by destruct (q_heap q !! ref')|by rewrite lookup_alter_ne]. }
    intros (H1 & H2 & H3). split_and!; simpl.
    + intros id ref' H. rewrite Hrun. by apply H1.
    + intros ref' r name' en'. destruct (decide (ref = ref')) as [<-|Hne].
      * rewrite lookup_alter_eq. intros (r0 & H0 & ->)%fmap_Some. simpl. rewrite lookup_insert_Some.
        intros [[<- <-]|[_ H]]; [exact (Hid _ H0)|exact (H2 _ _ _ _ H0 H)].
      * rewrite lookup_alter_ne by done. eauto.
    + intros id tm H. unfold run_of. simpl. rewrite Hrun. by apply (H3 id).
Qed.

Lemma qrel_recoverStep old now a js byName ref q s :
  (old <= ref)%nat -> 1 <= q_maxAttempts (q_conf q) ->
  (forall n rs, byName !! n = Some rs -> rs_Attempts rs <= q_maxAttempts (q_conf q)) ->
  re_runID <$> q_heap q !! ref = Some (ra_runID a) ->
  qrel old q (recoverStep marshalStep now a js byName ref q s).
Proof.
  intros Ho Hm Hb Hrun. unfold recoverStep. cbv zeta.
  set (q1 := set_heap _ q).
  assert (qrel old q q1) as H1.
  { apply qrel_put; [done|by apply newEntry_reachable|]. intros r Hr. rewrite Hr in Hrun. simpl in Hrun.
    apply newEntry_id. congruence. }
  destruct (byName !! s_Name s) as [rs|] eqn:E; [|done].
  assert (getEntry (ref, s_Name s) q1 = Some (newEntry marshalStep now a q js s)) as Hen.
  { unfold q1, getEntry. simpl. rewrite lookup_alter_eq. destruct (q_heap q !! ref); [|done]. simpl.
    by rewrite lookup_insert_eq. }
  destruct (rs_Done rs).
  { etrans; [exact H1|]. apply qrel_transition. rewrite Hen. intros ? [= <-] _. by constructor. }
  destruct (rs_StartedAt rs) as [t|]; [|done]. etrans; [exact H1|]. etrans; [|apply qrel_scheduleGrace].
  - qstep. rewrite transition_upd, updEntry_updEntry. apply qrel_updEntry. rewrite Hen. intros ? [= <-].
    split; [by repeat split|]. simpl. constructor. by eapply Hb.
  - eexists. rewrite getEntry_emit, getEntry_updEntry_eq, transition_upd, getEntry_updEntry_eq, Hen. done.
Qed.

Lemma recoveredByName_in recovered n rs : recoveredByName recovered !! n = Some rs -> rs ∈ recovered.
Proof.
  unfold recoveredByName. cut (forall l (m : gmap string RecoveredStep),
    foldl (fun m rs => <[rs_Name rs := rs]> m) m l !! n = Some rs -> rs ∈ l \/ m !! n = Some rs).
  { intros H Hl. destruct (H _ _ Hl) as [|H']; [done|]. by rewrite lookup_empty in H'. }
  induction l as [|x l IH]; intros m; simpl; [by right|]. intros [H|H]%IH; [left; set_solver|].
  rewrite lookup_insert_Some in H. destruct H as [[_ ->]|[_ H]]; [left; set_solver|by right].
Qed.

Lemma recoverStep_run_of now a js byName ref q s :
  re_runID <$> q_heap (recoverStep marshalStep now a js byName ref q s) !! ref = re_runID <$> q_heap q !! ref.
Proof.
  unfold recoverStep. cbv zeta. set (q1 := set_heap _ q).
  assert (re_runID <$> q_heap q1 !! ref = re_runID <$> q_heap q !! ref) as H1.
  { unfold q1. simpl. rewrite lookup_alter_eq. by destruct (q_heap q !! ref). }
  rewrite <- H1. change (re_runID <$> q_heap q1 !! ref) with (run_of q1 (ref, ""%string)).
  match goal with |- re_runID <$> q_heap ?x !! ref = _ => change (run_of x (ref, ""%string) = run_of q1 (ref, ""%string)) end.
  repeat case_match; try done; rewrite transition_upd; [by rewrite run_of_updEntry|].
  unfold scheduleRecoveryGraceLocked, armTimer. rewrite run_of_updEntry. unfold run_of at 1. simpl.
  change (run_of (stopEntryTimerLocked (ref, s_Name s) (emit (ra_projectID a) "step.recovering"
    [("run_id", FStr (ra_runID a)); ("step", FStr (s_Name s))] (updEntry (ref, s_Name s)
    (fun en => te_set_leaseAt (Some now) (te_set_startedAt (Some z) (te_set_attempts (rs_Attempts r) en)))
    (updEntry (ref, s_Name s) (te_transition taskRecovering) q1)))) (ref, ""%string) = run_of q1 (ref, ""%string)).
  by rewrite run_of_stop, run_of_emit, !run_of_updEntry.
Qed.

Lemma opres_recover now pl dag a recovered q :
  rt_ok q -> 1 <= q_maxAttempts (q_conf q) ->
  Forall (fun rs => rs_Attempts rs <= q_maxAttempts (q_conf q)) recovered ->
  opres (rt_nextRef (q_rt q)) q (recoverWithEnvLocked mapOrder marshalStep marshalPipeline now pl dag a recovered q).
Proof.
  intros Hok Hm Hrec. unfold recoverWithEnvLocked. cbv zeta.
  match goal with |- context [newRun ?n ?a ?p ?d ?t ?q0] =>
    pose proof (qrel_newRun (rt_nextRef (q_rt q)) n a p d t q0 Hok (le_n _)) as H;
    assert ((rt_nextRef (q_rt q) <= (newRun n a p d t q0).1)%nat) as Hr by (simpl; lia);
    assert (re_runID <$> q_heap (newRun n a p d t q0).2 !! (newRun n a p d t q0).1 = Some (ra_runID a)) as Hid
      by (simpl; by rewrite lookup_insert_eq);
    destruct (newRun n a p d t q0) as [ref q1] end.
  simpl in H, Hr, Hid.
  assert (qrel (rt_nextRef (q_rt q)) q q1) as H1 by (apply H; intros ? ?; by rewrite lookup_empty).
  set (byName := recoveredByName recovered). set (steps := ps_Steps _). set (js := marshalPipeline _).
  assert (qrel (rt_nextRef (q_rt q)) q (foldl (recoverStep marshalStep now a js byName ref) q1 steps) /\
    re_runID <$> q_heap (foldl (recoverStep marshalStep now a js byName ref) q1 steps) !! ref = Some (ra_runID a))
    as [H2 Hid2].
  { clear H. revert q1 H1 Hid. induction steps as [|s l IH]; intros q1 H1 Hid; simpl; [done|].
    apply IH; [|by rewrite recoverStep_run_of]. etrans; [exact H1|].
    apply qrel_recoverStep; [done| | |done]; rewrite (qr_conf _ _ _ H1); [done|].
    intros n rs Hn%recoveredByName_in. rewrite Forall_forall in Hrec. by apply Hrec. }
  clearbody steps. case_match; apply opres_take; [by qstep|]. etrans; [|apply qrel_track]; [by qstep|].
  intros _. apply (heap_dispatch_run_of (S ref)); [done|apply qrel_promoteReady|lia].
Qed.
End Ops.

(** ** Reachable queues *)

Section Reach.
Context (mapOrder : nat -> list string -> list string).
Context (marshalStep : Step -> option string) (marshalPipeline : Pipeline -> option string).

Notation runOp := (runOp mapOrder marshalStep marshalPipeline).

(** Recovered attempt counts respect the configured limit. *)
Definition op_ok (q : Queue) (o : op) : Prop :=
  match o with
  | OpRecover _ _ _ _ recovered => Forall (fun rs => rs_Attempts rs <= q_maxAttempts (q_conf q)) recovered
  | _ => True
  end.

(** The states of a queue under any interleaving of its locked sections with
    the observations of the flushes in between. *)
Inductive reach : Queue -> Prop :=
| reach_new done_ : reach (NewQueue done_)
| reach_op o q : reach q -> op_ok q o -> reach (runOp o q).2
| reach_observe o q : reach q -> reach (observe o q).

Lemma qrel_set_conf (f : config -> config) q e en :
  getEntry e (set_conf f q) = Some en <-> getEntry e q = Some en.
Proof. done. Qed.

Lemma getEntry_old e q en : rt_ok q -> getEntry e q = Some en -> (e.1 < rt_nextRef (q_rt q))%nat.
Proof. unfold getEntry. intros (H & _) E. destruct (q_heap q !! e.1) eqn:E1; [eauto|done]. Qed.

Definition is_conf_op (o : op) : bool :=
  match o with
  | OpSetEventPublisher _ | OpSetBackend _ | OpSetStorageConfig _ _ | OpSetRetryPolicy _ _
  | OpSetRecoveryGrace _ | OpSetCallbacks _ _ | OpShutdown => true
  | _ => false
  end.

(** What an operation other than a setter does. *)
Lemma opres_runOp o q :
  rt_ok q -> 1 <= q_maxAttempts (q_conf q) -> op_ok q o -> is_conf_op o = false ->
  opres (rt_nextRef (q_rt q)) q (runOp o q).
Proof.
  intros Hr Hm Ho Hc. destruct o; simpl in Ho, Hc; try done.
  - by apply opres_add.
  - by apply opres_recover.
  - apply opres_complete.
  - apply opres_cancel.
  - apply opres_cleanup.
  - simpl. unfold RenewLeases. case_match; [apply opres_skip|]. apply opres_none.
    + apply qrel_foldl. intros. apply qrel_renewLease.
    + clear. revert q. induction taskIDs as [|t l IH]; intros q; simpl; [done|].
      etrans; [apply pending_renewLease|apply IH].
  - apply opres_none; [apply qrel_fireTimer|done].
  - simpl. destruct (rt_timers (q_rt q) !! id) as [tm|]; [|apply opres_skip]. case_match; [|apply opres_skip].
    apply (opres_ran _ id), opres_callback.
  - apply opres_none; [apply qrel_timerDone|]. unfold timerDone. by repeat case_match.
  - apply opres_none; [apply qrel_goCheck|]. unfold goCheck. by repeat case_match.
  - apply opres_goResult.
  - simpl. destruct (rt_gos (q_rt q) !! i) as [g|] eqn:E; [|apply opres_skip]. destruct (g_dispatched g); [|apply opres_skip].
    apply opres_none; [by eapply qrel_exitGo|done].
Qed.

Lemma qrel_runOp o q :
  rt_ok q -> 1 <= q_maxAttempts (q_conf q) -> op_ok q o -> is_conf_op o = false ->
  qrel (rt_nextRef (q_rt q)) q (runOp o q).2.
Proof. intros. by apply opres_qrel, opres_runOp. Qed.

(** No deferred work is left behind. *)
Definition drained (q : Queue) : Prop := q_pendingWrites q = [] /\ q_pendingEffects q = [].

Lemma drained_pend_ok q : drained q -> pend_ok q.
Proof. intros [H1 H2]. unfold pend_ok, outcome_ok. rewrite H1, H2. by split_and!; constructor. Qed.

(** A locked section that starts with no deferred work leaves none, and hands
    over well-formed work. *)
Lemma runOp_outcome o q :
  rt_ok q -> 1 <= q_maxAttempts (q_conf q) -> op_ok q o -> drained q ->
  (exists n, outcome_ok n (runOp o q).1) /\ drained (runOp o q).2.
Proof.
  intros Hr Hm Ho Hd. destruct (is_conf_op o) eqn:Hc.
  - assert ((runOp o q).1 = noOutcome /\ drained (runOp o q).2) as [-> ?] by (by destruct o).
    split; [|done]. exists 0%nat. by split_and!; constructor.
  - destruct (opres_runOp o q Hr Hm Ho Hc) as [(-> & _ & [E1 E2])|(q' & H & ->)].
    + split; [exists 0%nat; by split_and!; constructor|]. unfold drained. rewrite E1, E2. exact Hd.
    + split; [|done]. exists (rt_nextCell (q_rt q')). apply (qr_pend _ _ _ H), drained_pend_ok, Hd.
Qed.

Definition queue_ok (q : Queue) : Prop :=
  rt_ok q /\ 1 <= q_maxAttempts (q_conf q) /\ (forall e en, getEntry e q = Some en -> reachable_entry en) /\ ids_ok q /\ drained q.

Lemma runOp_conf o q : is_conf_op o = true ->
  exists f, (runOp o q).2 = set_conf f q /\ (1 <= q_maxAttempts (q_conf q) -> 1 <= q_maxAttempts (f (q_conf q))).
Proof.
  destruct o; intros Hc; try done; simpl; eexists; (split; [reflexivity|]); simpl; intros; try done.
  destruct (maxAttempts <? 1) eqn:E; to_prop; lia.
Qed.

Lemma queue_ok_op o q : queue_ok q -> op_ok q o -> queue_ok (runOp o q).2.
Proof.
  intros (Hr & Hm & He & Hi & Hd) Ho. destruct (runOp_outcome o q Hr Hm Ho Hd) as [_ Hd'].
  destruct (is_conf_op o) eqn:Hc.
  - destruct (runOp_conf o q Hc) as (f & E & Hf). rewrite E in *. split_and!; [done|by apply Hf|done|done|done].
  - pose proof (qrel_runOp o q Hr Hm Ho Hc) as H. split_and!.
    + by apply (qr_rt _ _ _ H).
    + by rewrite (qr_conf _ _ _ H).
    + intros e en' He'. destruct (decide (rt_nextRef (q_rt q) <= e.1)%nat) as [Hn|Hn].
      * apply (qr_new _ _ _ H) with e; [|done|done]. intros e1 en1 Hge H1. eauto.
      * destruct (getEntry e q) as [en|] eqn:E.
        -- destruct (qr_entries _ _ _ H e en) as (en1 & H1 & Hs); [lia|done|]. simplify_eq.
           destruct (He _ _ E) as (b & Hb & Hs0). exists b. split; [done|]. by etrans.
        -- exfalso. pose proof (qr_runs _ _ _ H e.1 ltac:(lia)) as R. unfold getEntry in *.
           inversion R as [r r' Hsr E1 E2|E1 E2]; rewrite <- E1, <- E2 in *; [|done].
           destruct Hsr as (_ & _ & _ & _ & Hdom). apply not_elem_of_dom in E. apply elem_of_dom_2 in He'.
           set_solver.
    + by apply (qr_ids _ _ _ H).
    + done.
Qed.

Lemma reach_ok q : reach q -> queue_ok q.
Proof.
  induction 1 as [d|o q _ IH Ho|o q _ IH].
  - split_and!; try done; split_and!; try done.
  - by apply queue_ok_op.
  - destruct IH as (? & ? & ? & ? & ?). by split_and!.
Qed.

(** C2: Refinement.  Whatever entry point runs, on whatever reachable queue,
    every entry it finds moves along the step state machine, every entry it
    creates is a fresh one moved along it, and no run object loses or gains
    a step. *)
Theorem runOp_refines o q (Hq : reach q) (Ho : op_ok q o) :
  (forall e en, getEntry e q = Some en ->
     exists en', getEntry e (runOp o q).2 = Some en' /\ esteps en en') /\
  (forall e en', getEntry e (runOp o q).2 = Some en' -> getEntry e q = None -> reachable_entry en') /\
  (forall ref r, q_heap q !! ref = Some r ->
     exists r', q_heap (runOp o q).2 !! ref = Some r' /\ same_run r r').
Proof.
  pose proof (queue_ok_op o q (reach_ok q Hq) Ho) as (_ & _ & He' & _). apply reach_ok in Hq as (Hr & Hm & He & _).
  split_and!; [|by eauto|]; destruct (is_conf_op o) eqn:Hc.
  - destruct (runOp_conf o q Hc) as (f & -> & _). intros e en H. eauto using rtc_refl.
  - intros e en H. apply (qr_entries _ _ _ (qrel_runOp o q Hr Hm Ho Hc)); [|done]. by eapply getEntry_old.
  - destruct (runOp_conf o q Hc) as (f & -> & _). intros ref r H. eauto using same_run_refl.
  - intros ref r H. destruct Hr as (Hr1 & Hr2).
    pose proof (qr_runs _ _ _ (qrel_runOp o q (conj Hr1 Hr2) Hm Ho Hc) ref (Hr1 _ _ H)) as R.
    rewrite H in R. inversion R; subst. eauto.
Qed.

(** One locked section, or one observation of a flush. *)
Definition opstep (q q' : Queue) : Prop :=
  (exists o, op_ok q o /\ q' = (runOp o q).2) \/ (exists o, q' = observe o q).

Lemma opstep_reach q q' : reach q -> opstep q q' -> reach q'.
Proof. intros Hq [(o & Ho & ->)|(o & ->)]; by constructor. Qed.

Lemma opstep_entry q q' e en :
  reach q -> opstep q q' -> getEntry e q = Some en -> exists en', getEntry e q' = Some en' /\ esteps en en'.
Proof.
  intros Hq [(o & Ho & ->)|(o & ->)] He; [|eauto using rtc_refl].
  pose proof (reach_ok q Hq) as (Hr & Hm & _). destruct (is_conf_op o) eqn:Hc.
  - destruct (runOp_conf o q Hc) as (f & -> & _). eauto using rtc_refl.
  - apply (qr_entries _ _ _ (qrel_runOp o q Hr Hm Ho Hc)); [by eapply getEntry_old|done].
Qed.

(** C5: A step that is done, failed, skipped or canceled stays so, in every
    run object, through any sequence of operations. *)
Theorem terminal_kept q q' e en (Hq : reach q) (Hs : rtc opstep q q') (He : getEntry e q = Some en)
    (Ht : terminalStatus (te_status en) = true) :
  exists en', getEntry e q' = Some en' /\ te_status en' = te_status en.
Proof.
  revert en He Ht. induction Hs as [q|q q1 q2 H1 _ IH]; intros en He Ht; [eauto|].
  destruct (opstep_entry _ _ _ _ Hq H1 He) as (en1 & He1 & Hs1).
  pose proof (esteps_terminal _ _ Hs1 Ht) as Est. rewrite <- Est.
  apply IH; [by eapply opstep_reach|done|by rewrite Est].
Qed.

(** Deferred work is handed over completely and in order: no locked
    section leaves a write or an effect behind on the queue, and what it hands
    over is well formed: every run is finalized with a terminal status, each
    through a cell of its own, and every guarded event and callback speaks of
    one of those writes. *)
Theorem deferred_work_taken o q (Hq : reach q) (Ho : op_ok q o) :
  drained (runOp o q).2 /\ exists n, outcome_ok n (runOp o q).1.
Proof. apply reach_ok in Hq as (Hr & Hm & _ & _ & Hd). by destruct (runOp_outcome o q Hr Hm Ho Hd). Qed.

(** C8: The attempt counter of a step stays within its limit, and a step
    that waits to be started has an attempt left.  The counter is the number of
    starts that were not given back: a start the backend was too busy for is taken
    off again.  The attempts a recovered run begins with are within the limit
    ([op_ok], along [reach]). *)
Theorem attempts_bounded q e en (Hq : reach q) (He : getEntry e q = Some en) :
  te_attempts en <= te_maxAttempts en /\
  (te_status en = taskPending \/ te_status en = taskReady \/ te_status en = taskRetrying ->
   te_attempts en < te_maxAttempts en).
Proof. apply reach_ok in Hq as (_ & _ & H & _). destruct (reachable_attempts_ok en (H _ _ He)) as (? & ? & ?). done. Qed.

(** The WaitGroup counts the timers whose callback may still run and the
    dispatch goroutines that have not ended, so it never goes negative and
    [Close] returns nil exactly when there are none. *)
Theorem waitgroup_counts q (ctxErr : string) (Hq : reach q) :
  q_wg q = Z.of_nat (size (rt_timers (q_rt q))) + Z.of_nat (size (rt_gos (q_rt q))) /\ 0 <= q_wg q /\
  (Close (Some ctxErr) q = None <-> rt_timers (q_rt q) = ∅ /\ rt_gos (q_rt q) = ∅).
Proof.
  apply reach_ok in Hq as ((_ & _ & _ & H) & _). split_and!; [done|lia|]. unfold Close.
  rewrite <- !map_size_empty_iff. destruct (q_wg q =? 0) eqn:E; to_prop; split; intros; try done; lia.
Qed.
End Reach.

(** ** A concrete queue *)

Definition demo_order (seed : nat) (l : list string) : list string := l.
Definition demo_json {A} (x : A) : option string := Some "{}".
Definition demo_backend : backend := mkBackend true true true.
Definition demo_args : runArgs := mkArgs "p" "r" "/w" "/o" (mkVars None None None) [] ∅.
Definition demo_dag : DAG := match BuildDAG diamond with Ok d => d | Err _ => mkDAG ∅ [] end.

Definition demo_run (ops : list op) (q : Queue) : Queue :=
  foldl (fun q o => (runOp demo_order demo_json demo_json o q).2) q ops.

Definition demo_add : op := OpAdd 0 diamond demo_dag demo_args.
Definition demo_result (step status : string) (attempt : Z) : TaskResult :=
  mkResult "p" (MakeTaskID "r" step) "w1" status "" 1 2 attempt [].
Definition demo_complete (step status : string) (attempt : Z) : op :=
  OpComplete 5 (fun _ => "w1") (demo_result step status attempt).

Lemma demo_run_reach ops q :
  reach demo_order demo_json demo_json q ->
  Forall (fun o => forall q, op_ok q o) ops -> reach demo_order demo_json demo_json (demo_run ops q).
Proof.
  revert q. induction ops as [|o ops IH]; intros q Hq Ho; [done|]. inversion Ho; subst. simpl. apply IH; [|done].
  constructor; auto.
Qed.

Definition demo_q1 : Queue := demo_run [OpSetBackend (Some demo_backend); demo_add] (NewQueue false).
Definition demo_q2 : Queue := demo_run [demo_complete "a" "done" 1] demo_q1.

Lemma demo_q1_reach : reach demo_order demo_json demo_json demo_q1.
Proof. apply demo_run_reach; [constructor|]. repeat constructor. Qed.

Lemma demo_q2_reach : reach demo_order demo_json demo_json demo_q2.
Proof. apply demo_run_reach; [apply demo_q1_reach|]. repeat constructor. Qed.

Definition demo_entry (q : Queue) (name : string) : taskEntry :=
  default (newEntry demo_json 0 demo_args q None (demo_step name [])) (getEntry (0%nat, name) q).

Lemma runOp_refines_witness :
  (forall e en, getEntry e demo_q1 = Some en -> exists en', getEntry e demo_q2 = Some en' /\ esteps en en') /\
  te_status (demo_entry demo_q1 "b") = taskPending /\ te_status (demo_entry demo_q2 "b") = taskRunning.
Proof.
  split; [|split; vm_compute; reflexivity].
  apply (runOp_refines demo_order demo_json demo_json (demo_complete "a" "done" 1) demo_q1 demo_q1_reach I).
Defined.

(** A failure reported for a step that is already done. *)
Lemma terminal_kept_witness :
  exists en', getEntry (0%nat, "a"%string) (demo_run [demo_complete "a" "failed" 1] demo_q2) = Some en' /\
    te_status en' = te_status (demo_entry demo_q2 "a").
Proof.
  apply (terminal_kept demo_order demo_json demo_json demo_q2 _ (0%nat, "a"%string) (demo_entry demo_q2 "a") demo_q2_reach).
  - apply rtc_once. left. exists (demo_complete "a" "failed" 1). split; [exact I|].
    cbv [demo_run foldl]. reflexivity.
  - vm_compute. reflexivity.
  - vm_compute. reflexivity.
Defined.

(** Finishing the last step of the diamond hands over its write and the
    finalization of the run. *)
Definition demo_q4 : Queue :=
  demo_run [demo_complete "b" "done" 1; demo_complete "c" "done" 1] demo_q2.

Lemma demo_q4_reach : reach demo_order demo_json demo_json demo_q4.
Proof. apply demo_run_reach; [apply demo_q2_reach|]. repeat constructor. Qed.

Lemma deferred_work_taken_witness :
  List.length (po_writes (runOp demo_order demo_json demo_json (demo_complete "d" "done" 1) demo_q4).1) = 2%nat /\
  drained (runOp demo_order demo_json demo_json (demo_complete "d" "done" 1) demo_q4).2 /\
  exists n, outcome_ok n (runOp demo_order demo_json demo_json (demo_complete "d" "done" 1) demo_q4).1.
Proof.
  split; [vm_compute; reflexivity|].
  apply (deferred_work_taken demo_order demo_json demo_json (demo_complete "d" "done" 1) demo_q4 demo_q4_reach I).
Defined.

(** With two attempts allowed: the first one failed, the second is in progress, and
    its failure is final. *)
Definition demo_two : Queue :=
  demo_run [OpSetRetryPolicy 2 0; OpSetBackend (Some demo_backend); demo_add; demo_complete "a" "failed" 1] (NewQueue false).

Lemma demo_retried_reach : reach demo_order demo_json demo_json demo_two.
Proof. apply demo_run_reach; [constructor|]. repeat constructor. Qed.

Lemma attempts_bounded_witness :
  te_status (demo_entry demo_two "a") = taskRunning /\ te_attempts (demo_entry demo_two "a") = 2 /\
  te_status (demo_entry (demo_run [demo_complete "a" "failed" 2] demo_two) "a") = taskFailed /\
  te_attempts (demo_entry demo_two "a") <= te_maxAttempts (demo_entry demo_two "a").
Proof.
  split; [vm_compute; reflexivity|]. split; [vm_compute; reflexivity|]. split; [vm_compute; reflexivity|].
  apply (attempts_bounded demo_order demo_json demo_json demo_two (0%nat, "a"%string) (demo_entry demo_two "a") demo_retried_reach).
  vm_compute. reflexivity.
Defined.

Lemma waitgroup_counts_witness :
  q_wg demo_q2 = Z.of_nat (size (rt_timers (q_rt demo_q2))) + Z.of_nat (size (rt_gos (q_rt demo_q2))) /\
  0 <= q_wg demo_q2 /\
  (Close (Some "deadline"%string) demo_q2 = None <-> rt_timers (q_rt demo_q2) = ∅ /\ rt_gos (q_rt demo_q2) = ∅).
Proof. apply (waitgroup_counts demo_order demo_json demo_json demo_q2 "deadline" demo_q2_reach). Defined.
