(* ===== verification/QueueProgress.v ===== *)
(** * No run gets stuck

    A run object seen as a map from steps to statuses and dependencies
    ([view]), the effect of every queue operation on views, and the invariant
    of tracked runs: a pending step waits for a dependency that can still
    finish, so a tracked run always has a step that is ready, running, or
    waiting on a timer; a run object that is no longer tracked has only
    terminal steps. *)

From S2P Require Import Prelude Pipeline Dag RunStore Queue QueueInv.
From stdpp Require Import options.
#[local] Open Scope Z_scope.

(** ** Views *)

Notation view := (gmap string (taskStatus * list string)).

Definition view_entry (en : taskEntry) : taskStatus * list string :=
  (te_status en, s_DependsOn (te_step en)).

Definition viewOf (ref : nat) (q : Queue) : view := view_entry <$> runTasks ref q.

(** A status from which the step can still become done. *)
Definition active (s : taskStatus) : Prop :=
  s = taskReady \/ s = taskRunning \/ s = taskRetrying \/ s = taskRecovering.

Definition st (v : view) (n : string) (s : taskStatus) : Prop := exists deps, v !! n = Some (s, deps).

(** The shape of the run: every dependency is a step, and there is no cycle. *)
Definition closed (v : view) : Prop := forall n s deps d, v !! n = Some (s, deps) -> d ∈ deps -> is_Some (v !! d).
Definition ranked (v : view) : Prop :=
  exists rank : string -> nat, forall n s deps d, v !! n = Some (s, deps) -> d ∈ deps -> (rank d < rank n)%nat.

(** A pending step has no dependency that failed, was skipped or canceled, and
    one that is not terminal. *)
Definition pending_ok (v : view) : Prop :=
  forall n deps, v !! n = Some (taskPending, deps) ->
    (forall d s, d ∈ deps -> st v d s -> s <> taskFailed /\ s <> taskCanceled) /\
    (exists d s, d ∈ deps /\ st v d s /\ terminalStatus s = false).

Definition no_canceled (v : view) : Prop := forall n, ~ st v n taskCanceled.

Definition all_terminal (v : view) : Prop := forall n s, st v n s -> terminalStatus s = true.

Definition good (v : view) : Prop :=
  closed v /\ ranked v /\ pending_ok v /\ no_canceled v /\ ~ all_terminal v.

(** The part about the pending steps keeps a good run going. *)
Lemma good_active v : good v -> exists n s, st v n s /\ active s.
Proof.
  intros (Hc & (rank & Hr) & Hp & _ & Ht).
  assert (exists n s, st v n s /\ terminalStatus s = false) as (n & s & Hs & Hns).
  { destruct (decide (map_Forall (fun _ p => terminalStatus p.1 = true) v)) as [H|H].
    - exfalso. apply Ht. intros n s [deps Hn]. apply (H n (s, deps) Hn).
    - apply map_not_Forall in H; [|apply _]. destruct H as (n & [s deps] & Hn & Hs). exists n, s.
      split; [by exists deps|]. simpl in Hs. by destruct (terminalStatus s). }
  remember (rank n) as k eqn:Ek. revert n s Hs Hns Ek.
  induction k as [k IH] using (well_founded_induction lt_wf). intros n s Hs Hns ->.
  destruct (decide (s = taskPending)) as [->|Hne].
  - destruct Hs as [deps Hn]. destruct (Hp _ _ Hn) as (_ & d & s & Hd & Hs & Ht').
    eapply (IH (rank d)); [|done|done|done]. eauto.
  - exists n, s. split; [done|]. unfold active. destruct s; naive_solver.
Qed.

(** ** Steps on views *)

Definition same_deps (v v' : view) : Prop := snd <$> v' = snd <$> v.

#[export] Instance same_deps_equiv : Equivalence same_deps.
Proof. split; unfold same_deps; congruence. Qed.

Lemma same_deps_lookup v v' n : same_deps v v' -> snd <$> v' !! n = snd <$> v !! n.
Proof. intros H. rewrite <- !lookup_fmap. by rewrite H. Qed.

Lemma same_deps_back v v' n s deps :
  same_deps v v' -> v' !! n = Some (s, deps) -> exists s0, v !! n = Some (s0, deps).
Proof.
  intros H Hn. pose proof (same_deps_lookup _ _ n H) as E. rewrite Hn in E. simpl in E.
  destruct (v !! n) as [[s0 d]|]; simpl in E; [|done]. injection E as ->. eauto.
Qed.

Lemma same_deps_closed v v' : same_deps v v' -> closed v -> closed v'.
Proof.
  intros H Hc n s deps d Hn Hd. destruct (same_deps_back _ _ _ _ _ H Hn) as [s0 Hn0].
  destruct (Hc _ _ _ _ Hn0 Hd) as [[s1 d1] H1].
  assert (same_deps v' v) as H' by done. destruct (same_deps_back _ _ _ _ _ H' H1). eauto.
Qed.

Lemma same_deps_ranked v v' : same_deps v v' -> ranked v -> ranked v'.
Proof.
  intros H [rank Hr]. exists rank. intros n s deps d Hn Hd.
  destruct (same_deps_back _ _ _ _ _ H Hn) as [s0 Hn0]. eauto.
Qed.

Lemma same_deps_alter f n v : (forall p, (f p).2 = p.2) -> same_deps v (alter f n v).
Proof.
  intros Hf. apply map_eq. intros m. rewrite !lookup_fmap. destruct (decide (n = m)) as [->|].
  - rewrite lookup_alter_eq. destruct (v !! m); simpl; [by rewrite Hf|done].
  - by rewrite lookup_alter_ne.
Qed.

(** The part of [pending_ok] that survives until the next promotion. *)
Definition no_failed_dep (v : view) : Prop :=
  forall n deps, v !! n = Some (taskPending, deps) ->
    forall d s, d ∈ deps -> st v d s -> s <> taskFailed /\ s <> taskCanceled.

Definition is_done (s : taskStatus) : bool := bool_decide (s = taskDone \/ s = taskSkipped).

(** The steps that count as done for their dependents. *)
Definition v_done (v : view) : gset string :=
  dom (filter (fun kv : string * (taskStatus * list string) => kv.2.1 = taskDone \/ kv.2.1 = taskSkipped) v).

Lemma v_done_spec v d : d ∈ v_done v <-> exists s, st v d s /\ (s = taskDone \/ s = taskSkipped).
Proof.
  unfold v_done. rewrite elem_of_dom. split.
  - intros [[s deps] [Hd Hs]%map_lookup_filter_Some]. exists s. split; [by exists deps|done].
  - intros (s & [deps Hd] & Hs). exists (s, deps). by apply map_lookup_filter_Some.
Qed.

Definition deps_done (v : view) (deps : list string) : bool := depsAllDone deps (v_done v).

Lemma deps_done_true v deps : deps_done v deps = true <-> forall d, d ∈ deps -> d ∈ v_done v.
Proof.
  unfold deps_done, depsAllDone. rewrite forallb_forall. setoid_rewrite bool_decide_eq_true.
  by setoid_rewrite list_elem_of_In.
Qed.

Lemma deps_done_false v deps : deps_done v deps = false -> exists d, d ∈ deps /\ d ∉ v_done v.
Proof.
  intros H. destruct (decide (Forall (fun d => d ∈ v_done v) deps)) as [Hf|Hf].
  - rewrite Forall_forall in Hf. apply deps_done_true in Hf. congruence.
  - apply not_Forall_Exists in Hf; [|apply _]. rewrite Exists_exists in Hf. done.
Qed.

Lemma doneNames_view tasks : doneNames tasks = v_done (view_entry <$> tasks).
Proof. unfold doneNames, v_done. rewrite map_filter_fmap, dom_fmap_L. done. Qed.

(** What [promoteReady] does to one step. *)
Definition promote1 (done : gset string) (o o' : option (taskStatus * list string)) : Prop :=
  match o with
  | Some (taskPending, deps) =>
      if depsAllDone deps done then o' = Some (taskReady, deps) \/ o' = Some (taskRunning, deps)
      else o' = Some (taskPending, deps)
  | o => o' = o
  end.

Definition promoted (v v' : view) : Prop := forall n, promote1 (v_done v) (v !! n) (v' !! n).

(** Steps only skip, and only those that have not started. *)
Definition only_skips (v v' : view) : Prop :=
  forall n, v' !! n = v !! n \/
    exists s deps, v !! n = Some (s, deps) /\ (s = taskPending \/ s = taskReady) /\ v' !! n = Some (taskSkipped, deps).

(** [n] has not started and depends on [x] through steps that have not started. *)
Definition startable (s : taskStatus) : Prop := s = taskPending \/ s = taskReady.

Inductive skip_path (v : view) (x : string) : string -> Prop :=
| sp_direct n s deps : v !! n = Some (s, deps) -> startable s -> x ∈ deps -> skip_path v x n
| sp_next n s deps y : v !! n = Some (s, deps) -> startable s -> y ∈ deps -> skip_path v x y -> skip_path v x n.

(** What [skipDownstream] does for a step [x] that failed. *)
Definition skipped_from (x : string) (v v' : view) : Prop :=
  only_skips v v' /\
  (forall n s deps, v' !! n = Some (s, deps) -> startable s ->
     x ∉ deps /\ forall y, y ∈ deps -> v' !! y = v !! y) /\
  (forall m, v' !! m <> v !! m -> skip_path v x m).

Definition skippable (v : view) : gset string :=
  dom (filter (fun kv : string * (taskStatus * list string) => kv.2.1 = taskPending \/ kv.2.1 = taskReady) v).

Lemma skippable_spec v n :
  n ∈ skippable v <-> exists s deps, v !! n = Some (s, deps) /\ (s = taskPending \/ s = taskReady).
Proof.
  unfold skippable. rewrite elem_of_dom. split.
  - intros [[s deps] [Hd Hs]%map_lookup_filter_Some]. eauto.
  - intros (s & deps & Hd & Hs). exists (s, deps). by apply map_lookup_filter_Some.
Qed.

Lemma only_skips_size v v' : only_skips v v' -> (size (skippable v') <= size (skippable v))%nat.
Proof.
  intros H. apply subseteq_size. intros n. rewrite !skippable_spec. intros (s & deps & Hn & Hs).
  destruct (H n) as [E|(s0 & d & _ & _ & E)]; [rewrite <- E; eauto|]. naive_solver.
Qed.

Lemma only_skips_lt v v' n :
  only_skips v v' -> n ∈ skippable v -> n ∉ skippable v' -> (size (skippable v') < size (skippable v))%nat.
Proof.
  intros H Hn Hn'. apply subset_size. split; [|set_solver]. intros m. rewrite !skippable_spec.
  intros (s & deps & Hm & Hs). destruct (H m) as [E|(s0 & d & _ & _ & E)]; [rewrite <- E; eauto|]. naive_solver.
Qed.

Lemma only_skips_trans a b c : only_skips a b -> only_skips b c -> only_skips a c.
Proof.
  intros H1 H2 n. destruct (H2 n) as [->|(s & d & Hb & Hs & Hc)]; [apply H1|].
  destruct (H1 n) as [E|(s0 & d0 & _ & _ & E)]; [right; exists s, d; by rewrite <- E|].
  rewrite Hb in E. simplify_eq. by destruct Hs.
Qed.

Lemma skip_path_startable v x n : skip_path v x n -> exists s deps, v !! n = Some (s, deps) /\ startable s.
Proof. destruct 1; eauto. Qed.

Lemma skip_path_mono v v1 x m : only_skips v v1 -> skip_path v1 x m -> skip_path v x m.
Proof.
  intros Ho. assert (forall n s deps, v1 !! n = Some (s, deps) -> startable s -> v !! n = Some (s, deps)) as Hb.
  { intros n s deps Hn Hs. destruct (Ho n) as [<-|(s0 & d & _ & _ & E)]; [done|].
    rewrite Hn in E. injection E as -> _. by destruct Hs. }
  induction 1; [eapply sp_direct|eapply sp_next]; eauto.
Qed.

Lemma skip_path_trans v x n m : skip_path v x n -> skip_path v n m -> skip_path v x m.
Proof. intros Hn. induction 1; eapply sp_next; eauto. Qed.

(** The steps skipped are exactly those downstream of [x]. *)
Lemma skipped_exact x v v' n :
  skipped_from x v v' -> (skip_path v x n <-> v' !! n <> v !! n).
Proof.
  intros (Ho & Hc & Hs). split; [|apply Hs]. intros Hp.
  assert (exists deps, v' !! n = Some (taskSkipped, deps)) as [deps Hn].
  { induction Hp as [n s deps Hn Hs1 Hx|n s deps y Hn Hs1 Hy Hp [dy IH]].
    - destruct (Ho n) as [E|(s0 & d & _ & _ & E)]; [|eauto]. rewrite Hn in E. by destruct (Hc _ _ _ E Hs1) as [? _].
    - destruct (Ho n) as [E|(s0 & d & _ & _ & E)]; [|eauto]. rewrite Hn in E. destruct (Hc _ _ _ E Hs1) as [_ Hsame].
      destruct (skip_path_startable _ _ _ Hp) as (sy & dy' & Hvy & Hsy). rewrite Hsame, Hvy in IH by done.
      injection IH as -> _. by destruct Hsy. }
  destruct (skip_path_startable _ _ _ Hp) as (s & d & -> & Hs'). rewrite Hn. intros [= <- _]. by destruct Hs'.
Qed.

(** A step that may still be skipped was not touched. *)
Lemma only_skips_back v v' n s deps :
  only_skips v v' -> v' !! n = Some (s, deps) -> s <> taskSkipped -> v !! n = Some (s, deps).
Proof. intros H Hn Hs. destruct (H n) as [<-|(s0 & d & _ & _ & E)]; [done|]. congruence. Qed.

Lemma promoted_deps v v' : promoted v v' -> same_deps v v'.
Proof.
  intros H. apply map_eq. intros n. rewrite !lookup_fmap. specialize (H n). unfold promote1 in H.
  destruct (v !! n) as [[[] deps]|]; try (by rewrite H). destruct (depsAllDone deps (v_done v)); [|by rewrite H].
  by destruct H as [-> | ->].
Qed.

Lemma skipped_deps x v v' : skipped_from x v v' -> same_deps v v'.
Proof.
  intros [H _]. apply map_eq. intros n. rewrite !lookup_fmap.
  destruct (H n) as [->|(s & deps & -> & _ & ->)]; done.
Qed.

(** A step of a promoted view, in the view before. *)
Lemma promoted_back v v' n s deps :
  promoted v v' -> v' !! n = Some (s, deps) ->
  v !! n = Some (s, deps) \/ (v !! n = Some (taskPending, deps) /\ (s = taskReady \/ s = taskRunning)).
Proof.
  intros H Hn. specialize (H n). unfold promote1 in H. destruct (v !! n) as [[[] d]|]; try (left; congruence).
  destruct (depsAllDone d (v_done v)); [right|left; congruence]. destruct H; simplify_eq; auto.
Qed.

Lemma promoted_pending_ok v v' :
  closed v -> no_failed_dep v -> promoted v v' -> pending_ok v'.
Proof.
  intros Hc Hf Hp n deps Hn.
  assert (v !! n = Some (taskPending, deps) /\ deps_done v deps = false) as [Hn0 Hd].
  { destruct (promoted_back _ _ _ _ _ Hp Hn) as [H|[_ [?|?]]]; [|done..]. split; [done|].
    specialize (Hp n). rewrite H in Hp. unfold promote1 in Hp. fold (deps_done v deps) in Hp.
    destruct (deps_done v deps); [destruct Hp; congruence|done]. }
  split.
  - intros d s Hdd [dd Hs]. destruct (promoted_back _ _ _ _ _ Hp Hs) as [H|[H [->| ->]]]; [|done..].
    apply (Hf _ _ Hn0 d s Hdd). by exists dd.
  - apply deps_done_false in Hd as (d & Hdd & Hnd). destruct (Hc _ _ _ _ Hn0 Hdd) as [[s dd] Hs].
    destruct (Hf _ _ Hn0 d s Hdd ltac:(by exists dd)) as [H1 H2].
    assert (s <> taskDone /\ s <> taskSkipped) as [H3 H4].
    { rewrite v_done_spec in Hnd. split; intros ->; apply Hnd; eexists; (split; [by exists dd|auto]). }
    specialize (Hp d). rewrite Hs in Hp. unfold promote1 in Hp. fold (deps_done v dd) in Hp.
    destruct s; try done; try (destruct (deps_done v dd) eqn:E; [destruct Hp as [Hp|Hp]|]);
      (eexists d, _; split; [done|]; split; [by exists dd|done]).
Qed.

Lemma skipped_pending_ok x dx v v' :
  pending_ok v -> skipped_from x (<[x := (taskFailed, dx)]> v) v' -> pending_ok v'.
Proof.
  intros Hp (Hs1 & Hs2 & _) n deps Hn.
  assert (v' !! x = Some (taskFailed, dx)) as Hx.
  { destruct (Hs1 x) as [->|(s & d & H & [->| ->] & _)]; rewrite lookup_insert_eq in *; done. }
  assert (n <> x) as Hnx by congruence.
  assert (v !! n = Some (taskPending, deps)) as Hn0.
  { destruct (Hs1 n) as [E|(s & d & _ & _ & E)]; [|congruence]. by rewrite lookup_insert_ne in E by done; rewrite <- E. }
  destruct (Hs2 n _ _ Hn (or_introl eq_refl)) as [Hxd Hsame].
  assert (forall d, d ∈ deps -> v' !! d = v !! d) as Hd.
  { intros d Hd. rewrite Hsame by done. rewrite lookup_insert_ne by (intros ->; done). done. }
  destruct (Hp _ _ Hn0) as [H1 (d & s & Hdd & [dd Hs] & Ht)]. split.
  - intros d' s' Hd' [dd' Hs']. rewrite Hd in Hs' by done. eapply H1; [done|by exists dd'].
  - exists d, s. split; [done|]. split; [|done]. exists dd. by rewrite Hd.
Qed.

(** A step that is not terminal and not pending afterwards. *)
Lemma insert_pending_ok v n s deps s' :
  v !! n = Some (s, deps) -> terminalStatus s' = false -> s' <> taskPending ->
  pending_ok v -> pending_ok (<[n := (s', deps)]> v).
Proof.
  intros Hn Hs' Hne Hp m md Hm. rewrite lookup_insert_Some in Hm. destruct Hm as [[_ [= -> _]]|[Hnm Hm]]; [done|].
  destruct (Hp _ _ Hm) as [H1 (d & t & Hd & [dd Ht] & Hnt)]. split.
  - intros d' t' Hd' [dd' Ht']. rewrite lookup_insert_Some in Ht'. destruct Ht' as [[_ [= -> _]]|[_ Ht']].
    + by split; intros ->.
    + eapply H1; [done|by exists dd'].
  - destruct (decide (n = d)) as [->|Hnd].
    + exists d, s'. split_and!; [done| |done]. exists deps. by rewrite lookup_insert_eq.
    + exists d, t. split_and!; [done| |done]. exists dd. by rewrite lookup_insert_ne.
Qed.

Lemma insert_no_failed_dep v n s deps s' :
  v !! n = Some (s, deps) -> s' <> taskPending -> s' <> taskFailed -> s' <> taskCanceled ->
  pending_ok v -> no_failed_dep (<[n := (s', deps)]> v).
Proof.
  intros Hn H1 H2 H3 Hp m md Hm d t Hd [dd Ht].
  rewrite lookup_insert_Some in Hm. destruct Hm as [[_ [= -> _]]|[Hnm Hm]]; [done|].
  rewrite lookup_insert_Some in Ht. destruct Ht as [[_ [= -> _]]|[_ Ht]]; [done|].
  destruct (Hp _ _ Hm) as [H _]. eapply H; [done|by exists dd].
Qed.

Lemma same_deps_insert v n s deps s' :
  v !! n = Some (s, deps) -> same_deps v (<[n := (s', deps)]> v).
Proof.
  intros H. apply map_eq. intros m. rewrite !lookup_fmap. destruct (decide (n = m)) as [->|].
  - by rewrite lookup_insert_eq, H.
  - by rewrite lookup_insert_ne.
Qed.

(** ** How operations act on views *)

Lemma lookup_viewOf e q : viewOf e.1 q !! e.2 = view_entry <$> getEntry e q.
Proof.
  unfold viewOf, runTasks, getEntry. rewrite lookup_fmap. destruct (q_heap q !! e.1); [done|by rewrite lookup_empty].
Qed.

Lemma viewOf_heap ref q q' : q_heap q' = q_heap q -> viewOf ref q' = viewOf ref q.
Proof. unfold viewOf, runTasks. by intros ->. Qed.

Lemma viewOf_upd e f g ref q :
  (forall en, view_entry (f en) = g (view_entry en)) ->
  viewOf ref (updEntry e f q) = if decide (e.1 = ref) then alter g e.2 (viewOf ref q) else viewOf ref q.
Proof.
  intros Hg. unfold viewOf, runTasks, updEntry. simpl. case_decide as H.
  - subst. rewrite lookup_alter_eq. destruct (q_heap q !! e.1) as [r|]; simpl.
    + apply map_eq. intros n. destruct (decide (e.2 = n)) as [->|];
        rewrite ?lookup_fmap, ?lookup_alter_eq, ?lookup_alter_ne, ?lookup_fmap by done; [|done].
      destruct (re_tasks r !! n); simpl; [by rewrite Hg|done].
    + symmetry. apply map_eq. intros n. destruct (decide (e.2 = n)) as [->|];
        rewrite ?lookup_alter_eq, ?lookup_alter_ne, ?lookup_fmap, ?lookup_empty by done; done.
  - by rewrite lookup_alter_ne.
Qed.

Lemma viewOf_quiet e f ref q :
  (forall en, view_entry (f en) = view_entry en) -> viewOf ref (updEntry e f q) = viewOf ref q.
Proof.
  intros H. rewrite (viewOf_upd e f id) by done. case_decide; [|done]. by apply alter_id.
Qed.

Definition v_to (to : taskStatus) (p : taskStatus * list string) : taskStatus * list string :=
  if terminalStatus p.1 then p else (to, p.2).

Lemma viewOf_transition e to ref q :
  viewOf ref (transition e to q) = if decide (e.1 = ref) then alter (v_to to) e.2 (viewOf ref q) else viewOf ref q.
Proof.
  rewrite transition_upd. apply viewOf_upd. intros en. unfold te_transition, v_to, view_entry. simpl.
  by destruct (terminalStatus (te_status en)).
Qed.

Lemma viewOf_stop e ref q : viewOf ref (stopEntryTimerLocked e q) = viewOf ref q.
Proof.
  unfold stopEntryTimerLocked. destruct (getEntry e q) as [en|]; [|done]. destruct (te_timer en); [|done]. simpl.
  rewrite viewOf_quiet by done. by repeat case_match.
Qed.

Lemma viewOf_arm k e id d ref q : viewOf ref (armTimer k e id d q) = viewOf ref q.
Proof. unfold armTimer. by rewrite viewOf_quiet. Qed.

Lemma viewOf_emit ref p t f q : viewOf ref (emit p t f q) = viewOf ref q.
Proof. unfold emit. by case_match. Qed.

Lemma viewOf_releaseTask ref id q : viewOf ref (releaseTask id q) = viewOf ref q.
Proof. unfold releaseTask. by repeat case_match. Qed.

Lemma viewOf_appendWrite ref d w q : viewOf ref (appendWrite d w q) = viewOf ref q.
Proof. done. Qed.

Lemma viewOf_appendEffect ref f q : viewOf ref (appendEffect f q) = viewOf ref q.
Proof. done. Qed.

Lemma viewOf_finalize now r st ty ref q : viewOf ref (finalizeRunLocked now r st ty q) = viewOf ref q.
Proof.
  apply viewOf_heap. unfold finalizeRunLocked, releaseRun. destruct (q_heap q !! r); [|done].
  by repeat case_match.
Qed.

#[export] Hint Rewrite viewOf_stop viewOf_arm viewOf_emit viewOf_releaseTask viewOf_appendWrite
  viewOf_appendEffect viewOf_finalize viewOf_transition : views.

(** Operations on the entries of one run leave the others and the table alone. *)
Definition touches (ref : nat) (q q' : Queue) : Prop :=
  q_runs q' = q_runs q /\ forall ref', ref' <> ref -> viewOf ref' q' = viewOf ref' q.

#[export] Instance touches_preorder ref : PreOrder (touches ref).
Proof.
  split; [by split|]. intros a b c [H1 H2] [H3 H4]. split; [congruence|]. intros r Hr. rewrite H4, H2 by done. done.
Qed.

Lemma touches_same ref q q' : q_heap q' = q_heap q -> q_runs q' = q_runs q -> touches ref q q'.
Proof. intros H1 H2. split; [done|]. intros. by apply viewOf_heap. Qed.

Lemma viewOf_upd_other e f ref q : e.1 <> ref -> viewOf ref (updEntry e f q) = viewOf ref q.
Proof. intros H. unfold viewOf, runTasks, updEntry. simpl. by rewrite lookup_alter_ne. Qed.

Lemma touches_upd e f q : touches e.1 q (updEntry e f q).
Proof. split; [done|]. intros ref' H. by apply viewOf_upd_other. Qed.

Lemma touches_transition e to q : touches e.1 q (transition e to q).
Proof. rewrite transition_upd. apply touches_upd. Qed.

Lemma touches_stop e q : touches e.1 q (stopEntryTimerLocked e q).
Proof. split; [apply runs_stop|]. intros. apply viewOf_stop. Qed.

Lemma touches_arm k e id d q : touches e.1 q (armTimer k e id d q).
Proof. split; [done|]. intros. apply viewOf_arm. Qed.

Lemma touches_emit ref p t f q : touches ref q (emit p t f q).
Proof. unfold emit. case_match; by apply touches_same. Qed.

Lemma touches_releaseTask ref id q : touches ref q (releaseTask id q).
Proof. unfold releaseTask. repeat case_match; by apply touches_same. Qed.

Lemma touches_start now id e q : touches e.1 q (startTaskLocked now id e q).
Proof.
  unfold startTaskLocked. cbv zeta. rewrite startTask_upd.
  etrans; [apply (touches_upd e (te_start now))|]. case_match; [|done].
  etrans; [|by apply touches_same]. etrans; [|apply touches_emit]. case_match; [|done].
  unfold scheduleTimeoutLocked. etrans; [|apply touches_arm]. etrans; [|apply touches_stop].
  etrans; [|apply touches_upd]. apply touches_upd.
Qed.

Lemma viewOf_start now id e q :
  viewOf e.1 (startTaskLocked now id e q) = alter (v_to taskRunning) e.2 (viewOf e.1 q).
Proof.
  unfold startTaskLocked. cbv zeta. rewrite startTask_upd.
  assert (viewOf e.1 (updEntry e (te_start now) q) = alter (v_to taskRunning) e.2 (viewOf e.1 q)) as H.
  { erewrite viewOf_upd; [by rewrite decide_True|]. intros en. unfold te_start, te_transition, v_to, view_entry. simpl.
    by destruct (terminalStatus (te_status en)). }
  rewrite <- H. case_match; [|done]. autorewrite with views. case_match; [|done].
  unfold scheduleTimeoutLocked. autorewrite with views.
  do 2 (rewrite viewOf_quiet by done). done.
Qed.

Lemma touches_dispatch now e q : touches e.1 q (dispatchIfNeeded now e q).
Proof.
  unfold dispatchIfNeeded. destruct (q_backend (q_conf q)); [|done]. destruct (getEntry e q) as [en|]; [|done].
  etrans; [apply touches_start|]. case_match; [by apply touches_same|done].
Qed.

(** A dispatched entry runs, unless there is no backend. *)
Lemma viewOf_dispatch now e q deps :
  viewOf e.1 q !! e.2 = Some (taskReady, deps) ->
  exists s, (s = taskReady \/ s = taskRunning) /\
    viewOf e.1 (dispatchIfNeeded now e q) = <[e.2 := (s, deps)]> (viewOf e.1 q).
Proof.
  intros H. unfold dispatchIfNeeded.
  assert (viewOf e.1 q = <[e.2 := (taskReady, deps)]> (viewOf e.1 q)) as Hid by by rewrite insert_id.
  destruct (q_backend (q_conf q)); [|exists taskReady; auto].
  destruct (getEntry e q) as [en|] eqn:E; [|exists taskReady; auto].
  exists taskRunning. split; [auto|].
  assert (viewOf e.1 (startTaskLocked now (t_RunID (te_task en)) e q) = <[e.2:=(taskRunning, deps)]> (viewOf e.1 q)) as Hs.
  { rewrite viewOf_start. apply map_eq. intros m. destruct (decide (e.2 = m)) as [<-|];
      [rewrite lookup_alter_eq, lookup_insert_eq|rewrite lookup_alter_ne, lookup_insert_ne by done; done].
    by rewrite H. }
  rewrite <- Hs. by case_match.
Qed.

Lemma touches_scheduleRetry now e q : touches e.1 q (scheduleRetryLocked now e q).
Proof.
  unfold scheduleRetryLocked. case_match.
  - etrans; [|apply touches_dispatch]. etrans; [apply touches_transition|apply touches_upd].
  - case_match; [|done]. etrans; [apply touches_stop|apply touches_arm].
Qed.

(** The retry: at once ready (and dispatched), or waiting. *)
Lemma viewOf_scheduleRetry now e q deps :
  viewOf e.1 q !! e.2 = Some (taskRetrying, deps) ->
  exists s, active s /\ viewOf e.1 (scheduleRetryLocked now e q) = <[e.2 := (s, deps)]> (viewOf e.1 q).
Proof.
  intros H. unfold scheduleRetryLocked. case_match.
  - set (q1 := updEntry e (te_set_timer None) (transition e taskReady q)).
    assert (viewOf e.1 q1 = <[e.2 := (taskReady, deps)]> (viewOf e.1 q)) as H1.
    { unfold q1. rewrite viewOf_quiet by done. rewrite viewOf_transition, decide_True by done.
      apply map_eq. intros m. destruct (decide (e.2 = m)) as [<-|];
        [rewrite lookup_alter_eq, lookup_insert_eq, H|rewrite lookup_alter_ne, lookup_insert_ne by done]; done. }
    destruct (viewOf_dispatch now e q1 deps) as (s & Hs & Hv); [by rewrite H1, lookup_insert_eq|].
    exists s. rewrite Hv, H1, insert_insert_eq. split; [unfold active; naive_solver|done].
  - exists taskRetrying. split; [by unfold active; auto|]. rewrite insert_id by done.
    case_match; [|done]. autorewrite with views. done.
Qed.

(** ** Loops over the entries of a run *)

Lemma touches_foldl ref (f : Queue -> string -> Queue) names q :
  (forall q n, touches ref q (f q n)) -> touches ref q (foldl f q names).
Proof. intros H. revert q. induction names as [|n l IH]; intros q; simpl; [done|]. etrans; [apply H|apply IH]. Qed.

(** A loop that handles each step by itself. *)
Lemma view_foldl ref (f : Queue -> string -> Queue) (R : option (taskStatus * list string) -> option (taskStatus * list string) -> Prop) names :
  NoDup names ->
  (forall q n, R (viewOf ref q !! n) (viewOf ref (f q n) !! n) /\
     forall m, m <> n -> viewOf ref (f q n) !! m = viewOf ref q !! m) ->
  forall q m, (m ∈ names -> R (viewOf ref q !! m) (viewOf ref (foldl f q names) !! m)) /\
              (m ∉ names -> viewOf ref (foldl f q names) !! m = viewOf ref q !! m).
Proof.
  intros Hnd Hf. induction names as [|n l IH]; intros q m; simpl; [set_solver|].
  apply NoDup_cons in Hnd as [Hn Hnd]. destruct (Hf q n) as [H1 H2]. destruct (IH Hnd (f q n) m) as [I1 I2].
  rewrite elem_of_cons. destruct (decide (m = n)) as [->|Hmn].
  - split; [|naive_solver]. intros _. by rewrite I2.
  - rewrite H2 in I1, I2 by done. split; [intros [?|?]; [done|by apply I1]|intros Hx; apply I2; naive_solver].
Qed.

Lemma lookup_view ref name q : viewOf ref q !! name = view_entry <$> getEntry (ref, name) q.
Proof. apply (lookup_viewOf (ref, name) q). Qed.

Lemma view_names ref q r : q_heap q !! ref = Some r -> viewOf ref q = view_entry <$> re_tasks r.
Proof. intros H. unfold viewOf, runTasks. by rewrite H. Qed.

Section Ops.
Variable mapOrder : nat -> list string -> list string.
Hypothesis mapOrder_perm : forall seed l, mapOrder seed l ≡ₚ l.
Variable marshalStep : Step -> option string.
Variable marshalPipeline : Pipeline -> option string.

Lemma rangeMap_NoDup {A} (m : gmap string A) seed : NoDup (mapOrder seed (map_to_list m).*1).
Proof using mapOrder_perm. rewrite mapOrder_perm. apply NoDup_fst_map_to_list. Qed.

Lemma rangeMap_elem {A} (m : gmap string A) seed n : n ∈ mapOrder seed (map_to_list m).*1 <-> is_Some (m !! n).
Proof using mapOrder_perm.
  rewrite mapOrder_perm, list_elem_of_fmap. split.
  - intros ([k x] & -> & H%elem_of_map_to_list). eauto.
  - intros [x H]. exists (n, x). split; [done|]. by apply elem_of_map_to_list.
Qed.

Lemma touches_promote now ref q : touches ref q (promoteReady mapOrder now ref q).
Proof.
  unfold promoteReady. destruct (q_heap q !! ref) as [r|]; [|done]. unfold rangeMap. cbv iota beta zeta.
  etrans; [by apply (touches_same ref q (set_rt rt_reseed q))|]. apply touches_foldl. clear q. intros q name.
  unfold promoteEntry. cbv zeta. destruct (getEntry (ref, name) q) as [en|]; [|done]. repeat (case_match; [|done || idtac]); try done.
  etrans; [|apply (touches_dispatch now (ref, name))]. etrans; [|apply touches_emit].
  apply (touches_transition (ref, name)).
Qed.

Lemma promote_spec now ref q : promoted (viewOf ref q) (viewOf ref (promoteReady mapOrder now ref q)).
Proof using mapOrder_perm.
  unfold promoteReady. destruct (q_heap q !! ref) as [r|] eqn:Er.
  2: { unfold viewOf, runTasks. rewrite Er. intros n. by rewrite lookup_fmap, lookup_empty. }
  unfold rangeMap. cbv iota beta zeta. rewrite doneNames_view, <- (view_names _ _ _ Er).
  set (done := v_done (viewOf ref q)). intros n. fold done.
  change (viewOf ref q) with (viewOf ref (set_rt rt_reseed q)).
  destruct (view_foldl ref (promoteEntry now ref r done) (promote1 done) _ (rangeMap_NoDup (re_tasks r) (rt_seed (q_rt q))))
    with (q := set_rt rt_reseed q) (m := n) as [H1 H2].
  - clear n. intros q1 n. unfold promoteEntry. cbv zeta. rewrite lookup_view.
    destruct (getEntry (ref, n) q1) as [en|] eqn:E; simpl; [|by rewrite lookup_view, E].
    unfold view_entry. destruct (bool_decide (te_status en = taskPending)) eqn:Hp; to_prop; simpl.
    + rewrite Hp. destruct (depsAllDone _ done) eqn:Hd; [|by rewrite lookup_view, E; simpl; unfold view_entry; rewrite Hp].
      match goal with |- context [dispatchIfNeeded now (ref, n) ?q2] => set (q3 := q2) end.
      assert (viewOf ref q3 = alter (v_to taskReady) n (viewOf ref q1)) as Hv.
      { unfold q3. autorewrite with views. by rewrite decide_True. }
      destruct (viewOf_dispatch now (ref, n) q3 (s_DependsOn (te_step en))) as (s & Hs & Hq).
      { simpl. rewrite Hv, lookup_alter_eq, lookup_view, E. simpl. unfold view_entry. by rewrite Hp. }
      simpl in Hq. rewrite Hq. split; [rewrite lookup_insert_eq; destruct Hs as [-> | ->]; auto|].
      intros m Hm. rewrite lookup_insert_ne by done. rewrite Hv. by rewrite lookup_alter_ne.
    + rewrite lookup_view, E. simpl. unfold view_entry. by destruct (te_status en).
  - destruct (decide (n ∈ mapOrder (rt_seed (q_rt q)) (map_to_list (re_tasks r)).*1)) as [Hin|Hin]; [by apply H1|].
    rewrite H2 by done. assert (viewOf ref (set_rt rt_reseed q) !! n = None) as ->; [|done].
    rewrite rangeMap_elem in Hin. change (viewOf ref (set_rt rt_reseed q)) with (viewOf ref q).
    rewrite (view_names _ _ _ Er), lookup_fmap. apply eq_None_not_Some in Hin. by rewrite Hin.
Qed.

Lemma touches_skip fuel ref x q : touches ref q (skipDownstream_fuel mapOrder fuel ref x q).
Proof.
  revert x q. induction fuel as [|fuel IH]; intros x q; simpl; [done|].
  destruct (q_heap q !! ref) as [r|]; [|done]. etrans; [by apply (touches_same ref q (set_rt rt_reseed q))|].
  apply touches_foldl. clear q. intros q name. unfold skipEntry. cbv zeta.
  destruct (getEntry (ref, name) q) as [en|]; [|done]. case_match; [done|]. case_match; [|done].
  etrans; [|apply IH]. etrans; [apply (touches_transition (ref, name) taskSkipped)|]. by apply touches_same.
Qed.

Lemma existsb_deps x deps : existsb (String.eqb x) deps = true <-> x ∈ deps.
Proof.
  rewrite existsb_exists. setoid_rewrite String.eqb_eq. rewrite list_elem_of_In. naive_solver.
Qed.

Lemma ids_name q ref name en : ids_ok q -> getEntry (ref, name) q = Some en -> s_Name (te_step en) = name.
Proof.
  unfold getEntry. simpl. intros (_ & H & _) He. destruct (q_heap q !! ref) as [r|] eqn:E; [|done].
  by destruct (H _ _ _ _ E He).
Qed.

(** One step of the loop over the entries, given what the recursive call does. *)
Lemma skipEntry_spec rec ref r x q n :
  ids_ok q ->
  (forall y q', ids_ok q' -> (size (skippable (viewOf ref q')) < size (skippable (viewOf ref q)))%nat ->
     skipped_from y (viewOf ref q') (viewOf ref (rec y q'))) ->
  let v := viewOf ref q in let v' := viewOf ref (skipEntry rec ref r x q n) in
  only_skips v v' /\
  (forall m s deps, v' !! m = Some (s, deps) -> startable s ->
     (forall y, y ∈ deps -> v' !! y = v !! y) /\ (m = n -> x ∉ deps)) /\
  (forall m, v' !! m <> v !! m -> skip_path v x m).
Proof.
  intros Hi Hrec v v'. unfold v', skipEntry. cbv zeta. clear v'.
  assert (only_skips v v) as Hrefl by (intros m; by left).
  assert (v !! n = view_entry <$> getEntry (ref, n) q) as Hv by apply lookup_view.
  destruct (getEntry (ref, n) q) as [en|] eqn:E; simpl in Hv.
  2: { fold v. split_and!; [done| |done]. intros m s deps Hm _. split; [done|]. intros ->. congruence. }
  unfold view_entry in Hv. destruct (bool_decide (te_status en = taskPending \/ te_status en = taskReady)) eqn:Hp;
    to_prop; simpl.
  2: { fold v. split_and!; [done| |done]. intros m s deps Hm Hs. split; [done|]. intros ->.
       rewrite Hv in Hm. injection Hm as <- <-. done. }
  destruct (existsb (String.eqb x) (s_DependsOn (te_step en))) eqn:Hx.
  2: { fold v. split_and!; [done| |done]. intros m s deps Hm _. split; [done|]. intros -> Hin%existsb_deps.
       rewrite Hv in Hm. injection Hm as <- <-. congruence. }
  rewrite (ids_name _ _ _ _ Hi E).
  match goal with |- context [rec n ?a] => set (q1 := a) end.
  assert (viewOf ref q1 = <[n := (taskSkipped, s_DependsOn (te_step en))]> v) as Hq1.
  { unfold q1. autorewrite with views. rewrite decide_True by done. apply map_eq. intros m.
    destruct (decide (n = m)) as [<-|]; simpl;
      [rewrite lookup_alter_eq, lookup_insert_eq|by rewrite lookup_alter_ne, lookup_insert_ne].
    fold v. rewrite Hv. unfold v_to. simpl. by destruct Hp as [-> | ->]. }
  assert (ids_ok q1) as Hi1.
  { apply (qr_ids 0 (transition (ref, n) taskSkipped q)); [unfold q1; by do 2 qstep|].
    apply (qr_ids 0 q); [|done]. apply qrel_transition. rewrite E. intros ? [= <-] _. by constructor. }
  assert (only_skips v (viewOf ref q1)) as Hos.
  { rewrite Hq1. intros m. destruct (decide (n = m)) as [<-|];
      [rewrite lookup_insert_eq|rewrite lookup_insert_ne by done; by left]. right. eauto. }
  destruct (Hrec n q1 Hi1) as (Hs1 & Hs2 & Hs3).
  { apply (only_skips_lt _ _ n Hos); [apply skippable_spec; eauto|]. rewrite Hq1, skippable_spec.
    rewrite lookup_insert_eq. naive_solver. }
  assert (skip_path v x n) as Hpn by (eapply sp_direct; [exact Hv|exact Hp|by apply existsb_deps]).
  split_and!; [by eapply only_skips_trans| |].
  2: { intros m Hm. destruct (decide (m = n)) as [->|Hmn]; [done|]. apply (skip_path_trans _ _ n); [done|].
       apply (skip_path_mono v (viewOf ref q1)); [done|]. apply Hs3. intros Eq1. apply Hm. rewrite Eq1, Hq1.
       by apply lookup_insert_ne. }
  intros m s deps Hm Hs. destruct (Hs2 m s deps Hm Hs) as [Hn Hsame].
  split.
  - intros y Hy. rewrite Hsame, Hq1 by done. apply lookup_insert_ne. by intros <-.
  - intros ->. exfalso. destruct (Hs1 n) as [En|(s0 & d & H0 & H1 & _)].
    + rewrite Hm, Hq1, lookup_insert_eq in En. injection En as -> ->. by destruct Hs.
    + rewrite Hq1, lookup_insert_eq in H0. injection H0 as <- <-. by destruct H1.
Qed.

Lemma qrel_skipEntry old fuel ref r x q n :
  qrel old q (skipEntry (skipDownstream_fuel mapOrder fuel ref) ref r x q n).
Proof.
  unfold skipEntry. cbv zeta. destruct (getEntry (ref, n) q) as [en|] eqn:E; [|done].
  case_match eqn:Hb; [done|]. case_match; [|done]. to_prop.
  etrans; [|apply qrel_skipDownstream_fuel]. do 2 qstep. apply qrel_transition. rewrite E. intros ? [= <-] _. by constructor.
Qed.

(** With fuel for every entry that may be skipped, the skipping is complete:
    no step that can still start depends on [x] or on a step it skipped. *)
Lemma skip_spec fuel ref x q :
  ids_ok q -> (size (skippable (viewOf ref q)) < fuel)%nat ->
  skipped_from x (viewOf ref q) (viewOf ref (skipDownstream_fuel mapOrder fuel ref x q)).
Proof using mapOrder_perm.
  revert x q. induction fuel as [|fuel IH]; intros x q Hi Hf; [lia|]. simpl.
  destruct (q_heap q !! ref) as [r|] eqn:Er.
  2: { unfold viewOf, runTasks. rewrite Er. split_and!; [intros n; by left| |done]. intros n s deps. by rewrite lookup_fmap, lookup_empty. }
  assert (forall names q1, ids_ok q1 -> only_skips (viewOf ref q) (viewOf ref q1) ->
    let v' := viewOf ref (foldl (skipEntry (skipDownstream_fuel mapOrder fuel ref) ref r x) q1 names) in
    only_skips (viewOf ref q1) v' /\
    (forall m s deps, v' !! m = Some (s, deps) -> startable s ->
      (forall y, y ∈ deps -> v' !! y = viewOf ref q1 !! y) /\ (m ∈ names -> x ∉ deps)) /\
    (forall m, v' !! m <> viewOf ref q1 !! m -> skip_path (viewOf ref q1) x m)) as Hloop.
  { induction names as [|n names IHn]; intros q1 Hi1 Hos; simpl; [split_and!; [intros m; by left|set_solver|done]|].
    set (q2 := skipEntry _ _ _ _ q1 n).
    assert (ids_ok q2) as Hi2 by (eapply (qr_ids 0 q1); [apply qrel_skipEntry|done]).
    destruct (skipEntry_spec (skipDownstream_fuel mapOrder fuel ref) ref r x q1 n Hi1) as (H1 & H2 & H2').
    { intros y q' Hi' Hlt. apply IH; [done|]. pose proof (only_skips_size _ _ Hos). lia. }
    fold q2 in H1, H2, H2'. destruct (IHn q2 Hi2) as (H3 & H4 & H4'); [by eapply only_skips_trans|].
    split_and!; [by eapply only_skips_trans| |].
    2: { intros m Hm. destruct (decide (viewOf ref q2 !! m = viewOf ref q1 !! m)) as [Eq2|Eq2]; [|by apply H2'].
         apply (skip_path_mono _ (viewOf ref q2)); [done|]. apply H4'. by rewrite Eq2. }
    intros m s deps Hm Hs. destruct (H4 m s deps Hm Hs) as [H5 H6].
    assert (viewOf ref q2 !! m = Some (s, deps)) as Hm2 by (eapply only_skips_back; [exact H3|exact Hm|destruct Hs; congruence]).
    destruct (H2 m s deps Hm2 Hs) as [H7 H8]. split.
    - intros y Hy. rewrite H5 by done. by apply H7.
    - rewrite elem_of_cons. intros [Hmn|Hmn]; auto. }
  unfold rangeMap. cbv iota beta zeta.
  destruct (Hloop (mapOrder (rt_seed (q_rt q)) (map_to_list (re_tasks r)).*1) (set_rt rt_reseed q)) as (H1 & H2 & H2').
  - apply (qr_ids 0 q); [apply qrel_reseed|done].
  - intros n. by left.
  - split_and!; [exact H1| |exact H2']. intros n s deps Hn Hs. destruct (H2 n s deps Hn Hs) as [H3 H4]. split; [|exact H3].
    apply H4. apply rangeMap_elem.
    assert (viewOf ref q !! n = Some (s, deps)) as Hn0 by (eapply only_skips_back; [exact H1|exact Hn|destruct Hs; congruence]).
    rewrite (view_names _ _ _ Er), lookup_fmap in Hn0. apply fmap_Some in Hn0 as (en & -> & _). eauto.
Qed.

Lemma skippable_size ref q : (size (skippable (viewOf ref q)) <= size (runTasks ref q))%nat.
Proof.
  rewrite <- size_dom. apply subseteq_size. intros n. rewrite skippable_spec, elem_of_dom.
  intros (s & deps & Hn & _). unfold viewOf in Hn. rewrite lookup_fmap in Hn.
  apply fmap_Some in Hn as (en & -> & _). eauto.
Qed.

Lemma skipDownstream_spec ref x q :
  ids_ok q -> skipped_from x (viewOf ref q) (viewOf ref (skipDownstream mapOrder ref x q)).
Proof using mapOrder_perm.
  intros Hi. apply skip_spec; [done|]. pose proof (skippable_size ref q). lia.
Qed.
End Ops.

(** ** The invariant *)

Definition rid (q : Queue) (ref : nat) : option string := re_runID <$> q_heap q !! ref.

Definition run_ok (q : Queue) (ref : nat) (id : string) : Prop :=
  (q_runs q !! id = Some ref -> good (viewOf ref q)) /\
  (q_runs q !! id <> Some ref -> all_terminal (viewOf ref q)).

Definition sched (q : Queue) : Prop := forall ref id, rid q ref = Some id -> run_ok q ref id.

Lemma qrel_rid q q' ref : qrel (S ref) q q' -> rid q' ref = rid q ref.
Proof.
  intros H. pose proof (qr_runs _ _ _ H ref (Nat.lt_succ_diag_r _)) as R. unfold rid.
  inversion R as [r r' Hr E1 E2|E1 E2]; simpl; [|done]. destruct Hr as (_ & -> & _). done.
Qed.

(** A status that is not terminal belongs to a tracked run. *)
Lemma sched_tracked q ref id n s :
  sched q -> rid q ref = Some id -> st (viewOf ref q) n s -> terminalStatus s = false -> q_runs q !! id = Some ref.
Proof.
  intros Hs Hr Hn Ht. destruct (decide (q_runs q !! id = Some ref)) as [|Hne]; [done|].
  destruct (Hs _ _ Hr) as [_ H]. specialize (H Hne _ _ Hn). congruence.
Qed.

Definition others_ok (ref : nat) (q : Queue) : Prop :=
  forall ref' id, ref' <> ref -> rid q ref' = Some id -> run_ok q ref' id.

Lemma touches_others ref q q' :
  touches ref q q' -> (forall r, rid q' r = rid q r) -> others_ok ref q -> others_ok ref q'.
Proof.
  intros [Hr Hv] Hid Ho ref' id Hne Hid'. rewrite Hid in Hid'. destruct (Ho _ _ Hne Hid') as [H1 H2].
  unfold run_ok. by rewrite Hr, Hv.
Qed.

Lemma sched_others ref q : sched q -> others_ok ref q.
Proof. intros H ref' id _. apply H. Qed.

Lemma others_sched ref q : others_ok ref q -> (forall id, rid q ref = Some id -> run_ok q ref id) -> sched q.
Proof. intros Ho Hr ref' id Hid. destruct (decide (ref' = ref)) as [->|]; auto. Qed.

Definition almost (v : view) : Prop := closed v /\ ranked v /\ pending_ok v /\ no_canceled v.

Lemma good_almost v : good v <-> almost v /\ ~ all_terminal v.
Proof. unfold good, almost. tauto. Qed.

(** *** How a step of a good run may move *)

Lemma almost_insert v n s deps s' :
  v !! n = Some (s, deps) -> terminalStatus s' = false -> s' <> taskPending ->
  almost v -> almost (<[n := (s', deps)]> v).
Proof.
  intros Hn Ht Hp (Hc & Hr & Hpo & Hnc). pose proof (same_deps_insert v n s deps s' Hn) as Hd. split_and!.
  - by eapply same_deps_closed.
  - by eapply same_deps_ranked.
  - by eapply insert_pending_ok.
  - intros m [d Hm]. rewrite lookup_insert_Some in Hm. destruct Hm as [[_ [= -> _]]|[_ Hm]]; [done|].
    apply (Hnc m). by exists d.
Qed.

Lemma good_insert v n s deps s' :
  v !! n = Some (s, deps) -> active s' -> almost v -> good (<[n := (s', deps)]> v).
Proof.
  intros Hn Ha Hv. apply good_almost.
  assert (terminalStatus s' = false /\ s' <> taskPending) as [Ht Hp].
  { unfold active in Ha. naive_solver. }
  split; [by eapply almost_insert|]. intros H.
  assert (terminalStatus s' = true); [|congruence]. apply (H n). exists deps. by rewrite lookup_insert_eq.
Qed.

Lemma almost_done v n s deps v' :
  v !! n = Some (s, deps) -> almost v -> promoted (<[n := (taskDone, deps)]> v) v' -> almost v'.
Proof.
  intros Hn (Hc & Hr & Hpo & Hnc) Hp.
  pose proof (same_deps_insert v n s deps taskDone Hn) as Hd. pose proof (promoted_deps _ _ Hp) as Hd'.
  assert (closed (<[n:=(taskDone, deps)]> v)) as Hc1 by (by eapply same_deps_closed).
  split_and!.
  - by eapply same_deps_closed.
  - eapply same_deps_ranked; [exact Hd'|]. by eapply same_deps_ranked.
  - eapply promoted_pending_ok; [done| |done]. by eapply insert_no_failed_dep.
  - intros m [d Hm]. destruct (promoted_back _ _ _ _ _ Hp Hm) as [H|[_ [?|?]]]; [|done..].
    rewrite lookup_insert_Some in H. destruct H as [[_ [=]]|[_ H]]. apply (Hnc m). by exists d.
Qed.

Lemma almost_failed v n s deps v' :
  v !! n = Some (s, deps) -> almost v -> skipped_from n (<[n := (taskFailed, deps)]> v) v' -> almost v'.
Proof.
  intros Hn (Hc & Hr & Hpo & Hnc) Hp.
  pose proof (same_deps_insert v n s deps taskFailed Hn) as Hd. pose proof (skipped_deps _ _ _ Hp) as Hd'.
  split_and!.
  - eapply same_deps_closed; [exact Hd'|]. by eapply same_deps_closed.
  - eapply same_deps_ranked; [exact Hd'|]. by eapply same_deps_ranked.
  - by eapply skipped_pending_ok.
  - destruct Hp as [Hs _]. intros m [d Hm]. eapply only_skips_back in Hm; [|exact Hs|done].
    rewrite lookup_insert_Some in Hm. destruct Hm as [[_ [=]]|[_ H]]. apply (Hnc m). by exists d.
Qed.

(** *** Ending a run *)

Lemma finalize_fields now ref status ty q :
  q_heap (finalizeRunLocked now ref status ty q) = q_heap q /\
  q_runs (finalizeRunLocked now ref status ty q) =
    match rid q ref with Some id => delete id (q_runs q) | None => q_runs q end.
Proof.
  unfold finalizeRunLocked, releaseRun, rid. destruct (q_heap q !! ref) as [r|]; [|done]. simpl.
  by repeat case_match.
Qed.

Lemma sched_finalize now ref status ty q id :
  others_ok ref q -> rid q ref = Some id -> q_runs q !! id = Some ref -> all_terminal (viewOf ref q) ->
  sched (finalizeRunLocked now ref status ty q).
Proof.
  intros Ho Hid Hr Ht. destruct (finalize_fields now ref status ty q) as [Hh Hrs]. rewrite Hid in Hrs.
  intros ref' id' Hid'. unfold rid in Hid'. rewrite Hh in Hid'. unfold run_ok. rewrite Hrs.
  rewrite (viewOf_heap ref' q) by done. destruct (decide (ref' = ref)) as [->|Hne].
  - assert (id' = id) as -> by (unfold rid in Hid; congruence). rewrite lookup_delete_eq. split; [done|]. by intros _.
  - destruct (Ho _ _ Hne Hid') as [H1 H2]. destruct (decide (id' = id)) as [->|Hni].
    + rewrite lookup_delete_eq. split; [done|]. intros _. apply H2. rewrite Hr. congruence.
    + by rewrite lookup_delete_ne.
Qed.

Lemma allTerminal_view ref q :
  allTerminal (runTasks ref q) = true <->
  forall n s, st (viewOf ref q) n s -> s = taskDone \/ s = taskFailed \/ s = taskSkipped.
Proof.
  unfold allTerminal. rewrite forallb_forall. split.
  - intros H n s [deps Hn]. unfold viewOf in Hn. rewrite lookup_fmap in Hn.
    apply fmap_Some in Hn as (en & Hn & [= -> _]). specialize (H (n, en)). rewrite <- list_elem_of_In in H.
    specialize (H ltac:(by apply elem_of_map_to_list)). simpl in H. destruct (te_status en); auto; done.
  - intros H [n en] Hin%list_elem_of_In%elem_of_map_to_list. simpl.
    destruct (H n (te_status en)) as [->|[->| ->]]; try done.
    exists (s_DependsOn (te_step en)). unfold viewOf. by rewrite lookup_fmap, Hin.
Qed.

Lemma sched_finalizeIf now ref q id :
  others_ok ref q -> rid q ref = Some id -> q_runs q !! id = Some ref -> almost (viewOf ref q) ->
  sched (finalizeRunIfAllTerminalLocked now ref q).
Proof.
  intros Ho Hid Hr Ha. unfold finalizeRunIfAllTerminalLocked. destruct (allTerminal (runTasks ref q)) eqn:Et.
  - eapply sched_finalize; [done..|]. intros n s Hn. rewrite allTerminal_view in Et.
    destruct (Et n s Hn) as [->|[->| ->]]; done.
  - apply (others_sched ref); [done|]. intros id' Hid'. simplify_eq. split; [intros _|done].
    apply good_almost. split; [done|]. intros H. apply not_true_iff_false in Et. apply Et, allTerminal_view.
    intros n s Hn. pose proof (H _ _ Hn) as Ht. destruct Ha as (_ & _ & _ & Hnc). specialize (Hnc n).
    destruct s; try done; auto.
Qed.

(** *** Operations that change nothing the invariant sees *)

Definition same_sched (q q' : Queue) : Prop :=
  q_runs q' = q_runs q /\ (forall ref, viewOf ref q' = viewOf ref q) /\ (forall ref, rid q' ref = rid q ref).

#[export] Instance same_sched_preorder : PreOrder same_sched.
Proof.
  split; [intros q; by split; [|split]|]. intros a b c (H1 & H2 & H3) (H4 & H5 & H6).
  split_and!; [congruence|intros; by rewrite H5|intros; by rewrite H6].
Qed.

Lemma sched_same q q' : same_sched q q' -> sched q -> sched q'.
Proof.
  intros (H1 & H2 & H3) H ref id Hid. rewrite H3 in Hid. destruct (H _ _ Hid). unfold run_ok. by rewrite H1, H2.
Qed.

Lemma same_heap q q' : q_heap q' = q_heap q -> q_runs q' = q_runs q -> same_sched q q'.
Proof. intros H1 H2. split_and!; [done|intros; by apply viewOf_heap|]. unfold rid. by rewrite H1. Qed.

Lemma rid_upd e f q ref : rid (updEntry e f q) ref = rid q ref.
Proof. apply (run_of_updEntry e f q (ref, ""%string)). Qed.

Lemma rid_stop e q ref : rid (stopEntryTimerLocked e q) ref = rid q ref.
Proof. apply (run_of_stop e (ref, ""%string) q). Qed.

Lemma same_quiet e f q : (forall en, view_entry (f en) = view_entry en) -> same_sched q (updEntry e f q).
Proof. intros H. split_and!; [done|intros; by apply viewOf_quiet|intros; apply rid_upd]. Qed.

Lemma same_stop e q : same_sched q (stopEntryTimerLocked e q).
Proof. split_and!; [apply runs_stop|intros; apply viewOf_stop|intros; apply rid_stop]. Qed.

Lemma same_emit p t f q : same_sched q (emit p t f q).
Proof. unfold emit. case_match; by apply same_heap. Qed.

Lemma same_releaseTask id q : same_sched q (releaseTask id q).
Proof. unfold releaseTask. repeat case_match; by apply same_heap. Qed.

Lemma same_take q : same_sched q (takePendingLocked q).2.
Proof. by apply same_heap. Qed.

Lemma same_others ref q q' : same_sched q q' -> others_ok ref q -> others_ok ref q'.
Proof.
  intros (H1 & H2 & H3) H ref' id Hne Hid. rewrite H3 in Hid. destruct (H _ _ Hne Hid). unfold run_ok. by rewrite H1, H2.
Qed.

Lemma sched_take q : sched q -> sched (takePendingLocked q).2.
Proof. apply sched_same, same_take. Qed.

(** The situation of an operation on a step that is not terminal: its run is
    tracked and almost good, the other runs are fine. *)
Record on_step (q : Queue) (ref : nat) (id n : string) (s : taskStatus) (deps : list string) : Prop := {
  os_others : others_ok ref q;
  os_rid : rid q ref = Some id;
  os_runs : q_runs q !! id = Some ref;
  os_almost : almost (viewOf ref q);
  os_view : viewOf ref q !! n = Some (s, deps);
  os_live : terminalStatus s = false }.

Lemma on_step_entry q ref id n en :
  sched q -> rid q ref = Some id -> getEntry (ref, n) q = Some en -> terminalStatus (te_status en) = false ->
  on_step q ref id n (te_status en) (s_DependsOn (te_step en)).
Proof.
  intros Hs Hid He Ht.
  assert (viewOf ref q !! n = Some (te_status en, s_DependsOn (te_step en))) as Hv by by rewrite lookup_view, He.
  assert (q_runs q !! id = Some ref) as Hr by (eapply sched_tracked; [done..|by eexists|done]).
  split; [by apply sched_others|done|done| |done|done]. destruct (Hs _ _ Hid) as [H _]. by apply good_almost, H.
Qed.

Lemma entry_rid q ref n en : getEntry (ref, n) q = Some en -> exists id, rid q ref = Some id.
Proof. unfold getEntry, rid. simpl. destruct (q_heap q !! ref); [by eexists|done]. Qed.

Lemma on_step_same q q' ref id n s deps :
  same_sched q q' -> on_step q ref id n s deps -> on_step q' ref id n s deps.
Proof.
  intros Hs [H1 H2 H3 H4 H5 H6]. pose proof (same_others ref _ _ Hs H1). destruct Hs as (E1 & E2 & E3).
  split; rewrite ?E1, ?E2, ?E3; done.
Qed.

Lemma on_step_getEntry q ref id n s deps :
  on_step q ref id n s deps -> exists en, getEntry (ref, n) q = Some en /\ te_status en = s /\ s_DependsOn (te_step en) = deps.
Proof.
  intros [_ _ _ _ Hv _]. rewrite lookup_view in Hv. apply fmap_Some in Hv as (en & He & [= -> ->]). eauto.
Qed.

(** The step becomes one that is active. *)
Lemma sched_active q q' ref id n s deps s' :
  on_step q ref id n s deps -> touches ref q q' -> (forall r, rid q' r = rid q r) ->
  viewOf ref q' = <[n := (s', deps)]> (viewOf ref q) -> active s' -> sched q'.
Proof.
  intros [Ho Hi Hr Ha Hv Ht] Htch Hrid Hv' Hact. apply (others_sched ref); [by eapply touches_others|].
  intros id' Hid'. rewrite Hrid in Hid'. simplify_eq. destruct Htch as [Hrs _]. split; [intros _|by rewrite Hrs].
  rewrite Hv'. by eapply good_insert.
Qed.

Lemma view_transition q ref n s deps to :
  viewOf ref q !! n = Some (s, deps) -> terminalStatus s = false ->
  viewOf ref (transition (ref, n) to q) = <[n := (to, deps)]> (viewOf ref q).
Proof.
  intros Hv Ht. rewrite viewOf_transition, decide_True by done. apply map_eq. intros m. simpl.
  destruct (decide (n = m)) as [<-|]; [|by rewrite lookup_alter_ne, lookup_insert_ne].
  rewrite lookup_alter_eq, lookup_insert_eq, Hv. unfold v_to. simpl. by rewrite Ht.
Qed.

Lemma rid_transition e to q ref : rid (transition e to q) ref = rid q ref.
Proof. rewrite transition_upd. apply rid_upd. Qed.

Lemma rid_dispatch now e q r :
  (forall en, getEntry e q = Some en -> te_status en = taskReady) -> rid (dispatchIfNeeded now e q) r = rid q r.
Proof. intros H. apply qrel_rid, qrel_dispatch. by right. Qed.

Lemma rid_scheduleRetry now e q r :
  (forall en, getEntry e q = Some en -> te_status en = taskRetrying) -> rid (scheduleRetryLocked now e q) r = rid q r.
Proof. intros H. by apply qrel_rid, qrel_scheduleRetry. Qed.

(** Dispatching a ready step. *)
Lemma sched_dispatch now q ref id n deps :
  on_step q ref id n taskReady deps -> sched (dispatchIfNeeded now (ref, n) q).
Proof.
  intros H. destruct (viewOf_dispatch now (ref, n) q deps (os_view _ _ _ _ _ _ H)) as (s & Hs & Hv).
  eapply sched_active; [exact H|apply (touches_dispatch now (ref, n))| |exact Hv|unfold active; destruct Hs as [-> | ->]; auto].
  intros r. apply rid_dispatch. destruct (on_step_getEntry _ _ _ _ _ _ H) as (en & -> & Hst & _). by intros ? [= <-].
Qed.

Section Preserve.
Variable mapOrder : nat -> list string -> list string.
Hypothesis mapOrder_perm : forall seed l, mapOrder seed l ≡ₚ l.
Variable marshalStep : Step -> option string.
Variable marshalPipeline : Pipeline -> option string.

(** Moving the entry under [stop] and the fields it resets. *)
Lemma view_stopped q ref id n s deps to f :
  on_step q ref id n s deps -> (forall en, view_entry (f en) = view_entry en) ->
  viewOf ref (updEntry (ref, n) f (transition (ref, n) to (stopEntryTimerLocked (ref, n) q))) =
    <[n := (to, deps)]> (viewOf ref q).
Proof.
  intros H Hf. rewrite viewOf_quiet by done. erewrite view_transition; rewrite ?viewOf_stop;
    [done|apply (os_view _ _ _ _ _ _ H)|apply (os_live _ _ _ _ _ _ H)].
Qed.

Lemma touches_stopped ref n to f q :
  touches ref q (updEntry (ref, n) f (transition (ref, n) to (stopEntryTimerLocked (ref, n) q))).
Proof.
  etrans; [apply (touches_stop (ref, n))|]. etrans; [apply (touches_transition (ref, n) to)|].
  apply (touches_upd (ref, n) f).
Qed.

Lemma rid_stopped ref n to f q r :
  rid (updEntry (ref, n) f (transition (ref, n) to (stopEntryTimerLocked (ref, n) q))) r = rid q r.
Proof. by rewrite rid_upd, rid_transition, rid_stop. Qed.

Lemma sched_failOrRetry now ref n msg stt ed q id s deps :
  ids_ok q -> on_step q ref id n s deps ->
  sched (failOrRetryLocked mapOrder now ref (ref, n) msg stt ed q).
Proof using mapOrder_perm.
  intros Hi H. pose proof H as [Ho Hid Hr Ha Hv Ht].
  destruct (on_step_getEntry _ _ _ _ _ _ H) as (en & He & Hst & Hdeps). unfold failOrRetryLocked.
  pose proof Hid as Hrun. unfold rid in Hrun. apply fmap_Some in Hrun as (r & Hrun & _). rewrite Hrun, He. cbv zeta.
  destruct (te_attempts en <? te_maxAttempts en) eqn:Em.
  - match goal with |- sched (scheduleRetryLocked now _ ?a) => set (q1 := a) end.
    assert (viewOf ref q1 = <[n := (taskRetrying, deps)]> (viewOf ref q)) as Hv1 by (by eapply view_stopped).
    assert (viewOf ref q1 !! n = Some (taskRetrying, deps)) as Hn1 by by rewrite Hv1, lookup_insert_eq.
    destruct (viewOf_scheduleRetry now (ref, n) q1 deps Hn1) as (s' & Hact & Hv2). simpl in Hv2.
    rewrite Hv1, insert_insert_eq in Hv2.
    eapply sched_active; [exact H| | |exact Hv2|done].
    + etrans; [|apply (touches_scheduleRetry now (ref, n))]. etrans; [apply touches_stopped|by apply touches_same].
    + intros r'. rewrite rid_scheduleRetry; [apply rid_stopped|]. intros en' He'.
      rewrite lookup_view, He' in Hn1. by injection Hn1.
  - match goal with |- sched (finalizeRunIfAllTerminalLocked now ref (skipDownstream _ _ _ ?a)) => set (q1 := a) end.
    assert (viewOf ref q1 = <[n := (taskFailed, deps)]> (viewOf ref q)) as Hv1 by (by eapply view_stopped).
    assert (touches ref q q1) as Ht1 by (etrans; [apply touches_stopped|by apply touches_same]).
    assert (ids_ok q1) as Hi1.
    { unfold q1. apply (qr_ids 0 q); [|done]. do 2 qstep. qquiet. apply qrel_stop_transition.
      intros en' He' Hnt. by constructor. }
    rewrite (ids_name _ _ _ _ Hi He).
    assert (touches ref q (skipDownstream mapOrder ref n q1)) as Ht2 by (etrans; [exact Ht1|apply touches_skip]).
    assert (forall r, rid (skipDownstream mapOrder ref n q1) r = rid q r) as Hrid.
    { intros r'. rewrite (qrel_rid q1); [apply rid_stopped|apply qrel_skipDownstream]. }
    eapply (sched_finalizeIf now ref _ id).
    + by eapply touches_others.
    + by rewrite Hrid.
    + destruct Ht2 as [-> _]. done.
    + eapply almost_failed; [exact Hv|exact Ha|]. rewrite <- Hv1. by apply skipDownstream_spec.
Qed.

Lemma sched_applyResult now ref n r result k q id s deps :
  ids_ok q -> on_step q ref id n s deps -> k <= 0 \/ (forall en, getEntry (ref, n) q = Some en -> te_attempts en <> 0) ->
  sched (applyResult mapOrder now ref (ref, n) r result k n q).
Proof using mapOrder_perm.
  intros Hi H Hk. unfold applyResult. cbv zeta.
  set (f := fun en => if te_attempts en =? 0 then te_set_attempts k en else en).
  match goal with |- context [emit ?p ?t ?l (updEntry (ref, n) f ?q0)] => set (q1 := emit p t l (updEntry (ref, n) f q0)) end.
  assert (same_sched q q1) as Hs1.
  { unfold q1. etrans; [|apply same_emit]. etrans; [apply same_releaseTask|]. apply same_quiet.
    intros en. unfold f. by case_match. }
  assert (ids_ok q1) as Hi1.
  { apply (qr_ids 0 q); [|done]. unfold q1. qstep. etrans; [apply qrel_releaseTask|]. apply qrel_updEntry.
    rewrite getEntry_releaseTask. destruct (on_step_getEntry _ _ _ _ _ _ H) as (en & He & Hst & _).
    intros en' He'. assert (en' = en) as -> by congruence. unfold f. destruct (te_attempts en =? 0) eqn:Ea; to_prop.
    - split; [by repeat split|]. simpl. rewrite Ea. constructor; [rewrite Hst; apply (os_live _ _ _ _ _ _ H)|].
      destruct Hk as [?|Hk]; [done|]. by destruct (Hk _ He).
    - split; [by repeat split|constructor]. }
  pose proof (on_step_same _ _ _ _ _ _ _ Hs1 H) as H1. clearbody q1. clear Hs1.
  destruct (String.eqb (tr_Status result) (status_string taskDone)); [|by eapply sched_failOrRetry].
  set (q2 := updEntry (ref, n) _ (transition _ taskDone _)).
  assert (viewOf ref q2 = <[n := (taskDone, deps)]> (viewOf ref q1)) as Hv2 by by eapply view_stopped.
  destruct (getEntry (ref, n) q2) as [en|] eqn:E2.
  2: { assert (viewOf ref q2 !! n = None) as Hc by by rewrite lookup_view, E2.
       rewrite Hv2, lookup_insert_eq in Hc. done. }
  match goal with |- sched (finalizeRunIfAllTerminalLocked now ref (promoteReady _ _ _ ?a)) => set (q3 := a) end.
  assert (touches ref q1 (promoteReady mapOrder now ref q3)) as Ht.
  { etrans; [|apply touches_promote]. etrans; [apply touches_stopped|by apply touches_same]. }
  assert (forall r, rid (promoteReady mapOrder now ref q3) r = rid q1 r) as Hrid.
  { intros r'. rewrite (qrel_rid q3); [apply rid_stopped|apply qrel_promoteReady]. }
  pose proof H1 as [Ho Hid Hr Ha Hv Htm].
  eapply (sched_finalizeIf now ref _ id).
  - by eapply touches_others.
  - by rewrite Hrid.
  - destruct Ht as [-> _]. done.
  - eapply almost_done; [exact Hv|exact Ha|]. rewrite <- Hv2. change (viewOf ref q2) with (viewOf ref q3).
    by apply promote_spec.
Qed.

Lemma sched_complete now owner result q : ids_ok q -> sched q -> sched (completeLocked mapOrder now owner result q).2.2.
Proof using mapOrder_perm.
  intros Hi Hs. pose proof (sched_take q Hs) as Htake. unfold completeLocked.
  destruct (SplitTaskID (tr_TaskID result)) as [[runID stepName]|err]; [|done].
  destruct (q_runs q !! runID) as [ref|] eqn:Er; [|done].
  destruct (q_heap q !! ref) as [r|] eqn:Eh; [|done].
  destruct (getEntry (ref, stepName) q) as [en|] eqn:E; [|done]. cbv zeta.
  generalize (if tr_Attempt result =? 0 then 1 else tr_Attempt result) as n. intros n.
  do 2 (case_match; [done|]).
  destruct (terminalStatus (te_status en)) eqn:Ht; [done|]. case_match; [done|].
  destruct (te_attempts en <? n) eqn:Hf; [done|]. to_prop. apply sched_take.
  destruct (entry_rid _ _ _ _ E) as [id Hid].
  eapply sched_applyResult; [done|by eapply on_step_entry|]. rewrite E.
  destruct (decide (te_attempts en = 0)); [left; lia|right; by intros ? [= <-]].
Qed.

Lemma sched_fired now runID e msg want q :
  ids_ok q -> sched q -> terminalStatus want = false -> rid q e.1 = Some runID ->
  sched (firedEntry mapOrder now runID e msg want q).2.
Proof using mapOrder_perm.
  intros Hi Hs Hw Hid. unfold firedEntry. destruct e as [ref n]. simpl in Hid.
  destruct (getEntry (ref, n) q) as [en|] eqn:E; [|done].
  destruct (q_serverDone (q_conf q) || negb (bool_decide (te_status en = want)))%bool eqn:Hb; [done|]. to_prop.
  assert (on_step q ref runID n (te_status en) (s_DependsOn (te_step en))) as Hon.
  { apply on_step_entry; [done..|]. congruence. }
  rewrite (os_runs _ _ _ _ _ _ Hon). apply sched_take.
  set (q1 := releaseTask _ _).
  assert (same_sched q q1) as Hs1 by (unfold q1; etrans; [|apply same_releaseTask]; by apply same_quiet).
  eapply sched_failOrRetry; [|by eapply on_step_same]. apply (qr_ids 0 q); [|done].
  unfold q1. qstep. by qquiet.
Qed.

Lemma sched_retryFired now e q : sched q -> sched (retryFiredLocked now e q).2.
Proof.
  intros Hs. unfold retryFiredLocked. destruct e as [ref n].
  destruct (getEntry (ref, n) q) as [en|] eqn:E; [|done]. case_match eqn:Hb; [done|]. to_prop. cbv zeta.
  destruct (entry_rid _ _ _ _ E) as [id Hid]. apply sched_take.
  assert (on_step q ref id n (te_status en) (s_DependsOn (te_step en))) as H.
  { apply on_step_entry; [done..|]. by rewrite Hb. }
  assert (on_step (updEntry (ref, n) (te_set_timer None) q) ref id n taskRetrying (s_DependsOn (te_step en))) as H1.
  { rewrite <- Hb. eapply on_step_same; [|exact H]. by apply same_quiet. }
  set (q1 := updEntry (ref, n) (te_set_timer None) q) in *. pose proof H1 as [Ho Hr Hrs Ha Hv Ht].
  assert (viewOf ref (transition (ref, n) taskReady q1) = <[n := (taskReady, s_DependsOn (te_step en))]> (viewOf ref q1)) as Hv1.
  { by eapply view_transition. }
  eapply (sched_dispatch _ _ _ id). split.
  - eapply touches_others; [apply (touches_transition (ref, n))|intros; apply rid_transition|done].
  - by rewrite rid_transition.
  - destruct (touches_transition (ref, n) taskReady q1) as [-> _]. done.
  - rewrite Hv1. by eapply almost_insert.
  - by rewrite Hv1, lookup_insert_eq.
  - done.
Qed.

Lemma sched_callback now tm q :
  ids_ok q -> sched q -> rid q (tm_entry tm).1 = Some (tm_runID tm) -> sched (timerCallback mapOrder now tm q).2.
Proof using mapOrder_perm.
  intros Hi Hs Hid. unfold timerCallback. destruct (tm_kind tm).
  - by apply sched_fired.
  - by apply sched_fired.
  - unfold requeuedDispatchFiredLocked. cbv zeta. destruct (tm_entry tm) as [ref n].
    assert (same_sched q (updEntry (ref, n) (te_set_timer None) q)) as H1 by by apply same_quiet.
    pose proof (sched_same _ _ H1 Hs) as Hs1. set (q1 := updEntry _ _ _) in *.
    destruct (getEntry (ref, n) q1) as [en|] eqn:E; [|done].
    destruct (q_serverDone (q_conf q1) || negb (bool_decide (te_status en = taskReady)))%bool eqn:Hb; [done|]. to_prop.
    apply sched_take. destruct (entry_rid _ _ _ _ E) as [id' Hid'].
    apply (sched_dispatch _ _ _ id' _ (s_DependsOn (te_step en))). rewrite <- H0. apply on_step_entry; [done..|].
    by rewrite H0.
  - by apply sched_retryFired.
Qed.

Lemma sched_requeueBusy runID stepName q : ids_ok q -> sched q -> sched (requeueBusyLocked runID stepName q).
Proof.
  intros Hi Hs. unfold requeueBusyLocked. destruct (q_runs q !! runID) as [ref|]; [|done]. cbv zeta.
  destruct (getEntry (ref, stepName) q) as [en|] eqn:E; [|done]. case_match eqn:Hb; [done|]. to_prop.
  destruct (entry_rid _ _ _ _ E) as [id Hid].
  assert (on_step q ref id stepName (te_status en) (s_DependsOn (te_step en))) as H.
  { apply on_step_entry; [done..|]. by rewrite Hb. }
  set (q1 := armTimer _ _ _ _ _). eapply (sched_active q q1); [exact H| | | |by left].
  - unfold q1. etrans; [|apply (touches_arm _ (ref, stepName))]. etrans; [|apply (touches_stop (ref, stepName))].
    rewrite transition_upd, !updEntry_updEntry. apply (touches_upd (ref, stepName)).
  - intros r. unfold q1, armTimer. rewrite rid_upd. etrans; [apply (rid_stop (ref, stepName))|].
    by rewrite rid_upd, rid_transition, !rid_upd.
  - unfold q1. rewrite viewOf_arm, viewOf_stop, viewOf_quiet by done.
    set (q2 := updEntry _ (fun en => te_set_task _ en) _).
    assert (viewOf ref q2 = viewOf ref q) as Hq2.
    { unfold q2. do 3 (rewrite viewOf_quiet; [|intros ?; by repeat case_match]). done. }
    rewrite <- Hq2. eapply view_transition; [rewrite Hq2; apply (os_view _ _ _ _ _ _ H)|apply (os_live _ _ _ _ _ _ H)].
Qed.

Lemma sched_renewLease now runtimeID q taskID : sched q -> sched (renewLease now runtimeID q taskID).
Proof.
  intros Hs. unfold renewLease. destruct (SplitTaskID taskID) as [[runID stepName]|]; [|done].
  destruct (q_runs q !! runID) as [ref|]; [|done]. cbv zeta. destruct (q_heap q !! ref) as [r|]; [|done].
  destruct (getEntry (ref, stepName) q) as [en|] eqn:E; [|done].
  do 2 (case_match; [done|]). set (q1 := if String.eqb (te_assignedRuntimeID en) "" then _ else q).
  assert (same_sched q q1) as H1 by (unfold q1; case_match; [by apply same_quiet|done]).
  assert (sched q1) as Hs1 by by eapply sched_same.
  case_match; [done|]. eapply sched_same; [by apply same_quiet|].
  destruct (bool_decide (te_status en = taskRecovering)) eqn:Hr; [|done]. to_prop.
  eapply sched_same; [apply same_emit|].
  destruct (entry_rid _ _ _ _ E) as [id Hid].
  assert (on_step q1 ref id stepName (te_status en) (s_DependsOn (te_step en))) as Hon.
  { eapply on_step_same; [exact H1|]. apply on_step_entry; [done..|]. by rewrite Hr. }
  eapply sched_active; [exact Hon| | | |by right; left].
  - etrans; [apply (touches_stop (ref, stepName))|apply (touches_transition (ref, stepName))].
  - intros r'. by rewrite rid_transition, rid_stop.
  - erewrite view_transition; rewrite ?viewOf_stop; [done|apply (os_view _ _ _ _ _ _ Hon)|apply (os_live _ _ _ _ _ _ Hon)].
Qed.

(** *** Ending every step of a run *)

(** [f] ends one step of [ref] with the status [to]. *)
Definition ends (ref : nat) (to : taskStatus) (f : Queue -> string -> Queue) : Prop :=
  forall q n, touches ref q (f q n) /\ (forall r, rid (f q n) r = rid q r) /\
    viewOf ref (f q n) = alter (v_to to) n (viewOf ref q).

Lemma ends_entry ref to n f w q :
  (forall en, view_entry (f en) = view_entry en) ->
  same_sched (updEntry (ref, n) f (transition (ref, n) to (stopEntryTimerLocked (ref, n) q))) w ->
  touches ref q w /\ (forall r, rid w r = rid q r) /\ viewOf ref w = alter (v_to to) n (viewOf ref q).
Proof.
  intros Hf (H1 & H2 & H3). split_and!.
  - etrans; [apply (touches_stopped ref n to f)|]. split; [done|]. intros. apply H2.
  - intros r. by rewrite H3, rid_stopped.
  - rewrite H2, viewOf_quiet by done. by rewrite viewOf_transition, decide_True, viewOf_stop.
Qed.

Lemma ends_noop ref to q n :
  (forall s deps, viewOf ref q !! n = Some (s, deps) -> terminalStatus s = true) ->
  touches ref q q /\ (forall r, rid q r = rid q r) /\ viewOf ref q = alter (v_to to) n (viewOf ref q).
Proof.
  intros H. split_and!; [done|done|]. symmetry. apply alter_id. intros [s deps] Hn. unfold v_to. simpl.
  by rewrite (H _ _ Hn).
Qed.

Lemma ends_cancel now ref r : ends ref taskCanceled (cancelEntry now ref r).
Proof.
  intros q n. unfold cancelEntry. cbv zeta. destruct (getEntry (ref, n) q) as [en|] eqn:E.
  2: { apply ends_noop. intros s deps. by rewrite lookup_view, E. }
  destruct (terminalStatus (te_status en)) eqn:Ht.
  { apply ends_noop. intros s deps. rewrite lookup_view, E. by intros [= <- _]. }
  eapply ends_entry; [|etrans; [|apply same_releaseTask]; by apply same_heap]. done.
Qed.

Lemma ends_expire now ref r : ends ref taskFailed (expireEntry now ref r).
Proof.
  intros q n. unfold expireEntry. cbv zeta. destruct (getEntry (ref, n) q) as [en|] eqn:E.
  2: { apply ends_noop. intros s deps. by rewrite lookup_view, E. }
  destruct (terminalStatus (te_status en)) eqn:Ht.
  { apply ends_noop. intros s deps. rewrite lookup_view, E. by intros [= <- _]. }
  eapply ends_entry; [|by apply same_heap]. done.
Qed.

Lemma ends_loop ref to f names q :
  ends ref to f -> NoDup names ->
  touches ref q (foldl f q names) /\ (forall r, rid (foldl f q names) r = rid q r) /\
  forall n, n ∈ names -> viewOf ref (foldl f q names) !! n = v_to to <$> viewOf ref q !! n.
Proof.
  intros Hf Hnd. split_and!.
  - apply touches_foldl. intros q' n. by destruct (Hf q' n).
  - clear Hnd. revert q. induction names as [|n l IH]; intros q r; simpl; [done|]. rewrite IH. apply (Hf q n).
  - intros n Hn. apply (view_foldl ref f (fun o o' => o' = v_to to <$> o) names Hnd); [|done].
    intros q' m. destruct (Hf q' m) as (_ & _ & Hv). rewrite Hv. rewrite lookup_alter_eq. split; [done|].
    intros m' Hm. by rewrite lookup_alter_ne.
Qed.

Lemma sched_end now ref r runID to status ty f q :
  ends ref to f -> terminalStatus to = true -> ids_ok q -> sched q ->
  q_runs q !! runID = Some ref -> q_heap q !! ref = Some r ->
  sched (finalizeRunLocked now ref status ty
    (foldl f (set_rt rt_reseed q) (mapOrder (rt_seed (q_rt q)) (map_to_list (re_tasks r)).*1))).
Proof using mapOrder_perm.
  intros Hf Hto Hi Hs Hr Hh. pose proof Hi as (Hi1 & _). pose proof (Hi1 _ _ Hr) as Hid.
  destruct (ends_loop ref to f _ (set_rt rt_reseed q) Hf (rangeMap_NoDup mapOrder mapOrder_perm (re_tasks r) (rt_seed (q_rt q))))
    as (Ht & Hrid & Hv).
  eapply (sched_finalize _ _ _ _ _ runID).
  - eapply touches_others; [exact Ht|exact Hrid|]. eapply same_others; [|by apply sched_others]. by apply same_heap.
  - rewrite Hrid. exact Hid.
  - destruct Ht as [-> _]. done.
  - intros n s [deps Hn].
    destruct (decide (n ∈ mapOrder (rt_seed (q_rt q)) (map_to_list (re_tasks r)).*1)) as [Hin|Hin].
    + rewrite Hv in Hn by done. apply fmap_Some in Hn as ([s0 d0] & _ & E). unfold v_to in E. simpl in E.
      destruct (terminalStatus s0) eqn:Ht0; by injection E as -> ->.
    + exfalso. apply Hin, (rangeMap_elem mapOrder mapOrder_perm).
      assert (same_deps (viewOf ref q) (viewOf ref (foldl f (set_rt rt_reseed q)
        (mapOrder (rt_seed (q_rt q)) (map_to_list (re_tasks r)).*1)))) as Hd.
      { clear Hv Ht Hrid Hn Hin. change (viewOf ref q) with (viewOf ref (set_rt rt_reseed q)).
        generalize (mapOrder (rt_seed (q_rt q)) (map_to_list (re_tasks r)).*1) as names.
        generalize (set_rt rt_reseed q) as q0. intros q0 names. revert q0.
        induction names as [|m l IH]; intros q0; simpl; [done|]. etrans; [|apply IH].
        destruct (Hf q0 m) as (_ & _ & ->). apply same_deps_alter. intros p. unfold v_to. by case_match. }
      destruct (same_deps_back _ _ _ _ _ Hd Hn) as [s0 Hn0].
      rewrite (view_names _ _ _ Hh), lookup_fmap in Hn0. apply fmap_Some in Hn0 as (en & -> & _). eauto.
Qed.

Lemma sched_untouched q q' : q_heap q' = q_heap q -> q_runs q' = q_runs q -> sched q -> sched q'.
Proof. intros H1 H2. by apply sched_same, same_heap. Qed.

Lemma sched_cancel now projectID runID q : ids_ok q -> sched q -> sched (cancelLocked mapOrder now projectID runID q).2.
Proof using mapOrder_perm.
  intros Hi Hs. unfold cancelLocked. destruct (q_runs q !! runID) as [ref|] eqn:Er.
  2: { apply sched_take. by eapply sched_untouched; [..|exact Hs]. }
  destruct (q_heap q !! ref) as [r|] eqn:Eh; [|done]. unfold rangeMap. cbv iota beta zeta. apply sched_take.
  eapply sched_end; [apply ends_cancel|done..].
Qed.

Lemma sched_expireRun now cutoff q runID : ids_ok q -> sched q -> sched (expireRun mapOrder now cutoff q runID).
Proof using mapOrder_perm.
  intros Hi Hs. unfold expireRun. destruct (q_runs q !! runID) as [ref|] eqn:Er; [|done].
  destruct (q_heap q !! ref) as [r|] eqn:Eh; [|done]. destruct (runExpiredLocked (re_tasks r) cutoff); [|done].
  unfold rangeMap. cbv iota beta zeta. eapply sched_end; [apply ends_expire|done..].
Qed.

Lemma sched_cleanup now ttl q : ids_ok q -> sched q -> sched (cleanupLocked mapOrder now ttl q).2.
Proof using mapOrder_perm.
  intros Hi Hs. unfold cleanupLocked, rangeMap. cbv iota beta zeta. apply sched_take.
  assert (ids_ok (set_rt rt_reseed q)) as Hi0 by (apply (qr_ids 0 q); [apply qrel_reseed|done]).
  assert (sched (set_rt rt_reseed q)) as Hs0 by by eapply sched_untouched; [..|exact Hs].
  revert Hi0 Hs0. generalize (set_rt rt_reseed q) as q0.
  induction (mapOrder (rt_seed (q_rt q)) (map_to_list (q_runs q)).*1) as [|id l IH]; intros q0 Hi0 Hs0; simpl; [done|].
  apply IH; [|by apply sched_expireRun]. apply (qr_ids 0 q0); [apply qrel_expireRun|done].
Qed.

(** *** Admitting a run *)

(** What a run must look like before its first promotion. *)
Record admissible (v : view) : Prop := {
  ad_closed : closed v;
  ad_ranked : ranked v;
  ad_deps : no_failed_dep v;
  ad_canceled : no_canceled v;
  ad_live : ~ all_terminal v }.

Lemma admissible_promoted v v' : admissible v -> promoted v v' -> good v'.
Proof.
  intros [Hc Hr Hd Hn Hl] Hp. pose proof (promoted_deps _ _ Hp) as Hsd. unfold good. split_and!.
  - by eapply same_deps_closed.
  - by eapply same_deps_ranked.
  - by eapply promoted_pending_ok.
  - intros m [d Hm]. destruct (promoted_back _ _ _ _ _ Hp Hm) as [H|[_ [?|?]]]; [|done..]. apply (Hn m). by exists d.
  - intros Ht. apply Hl. intros n s [deps Hs]. specialize (Hp n). rewrite Hs in Hp. unfold promote1 in Hp.
    destruct (decide (s = taskPending)) as [->|Hne].
    + exfalso. assert (exists s', v' !! n = Some (s', deps) /\ terminalStatus s' = false) as (s' & Hs' & Hf).
      { destruct (depsAllDone deps (v_done v)); [destruct Hp|]; eauto. }
      assert (terminalStatus s' = true); [|congruence]. apply (Ht n). by exists deps.
    + apply (Ht n). exists deps. by destruct s.
Qed.

Lemma sched_admit now q ref id :
  others_ok ref q -> rid q ref = Some id -> q_runs q !! id = None -> admissible (viewOf ref q) ->
  sched (set_runs <[id := ref]> (promoteReady mapOrder now ref q)).
Proof using mapOrder_perm.
  intros Ho Hid Hr Ha. set (q1 := promoteReady mapOrder now ref q).
  assert (touches ref q q1) as [Hrs Hv] by apply touches_promote.
  assert (forall r, rid q1 r = rid q r) as Hrid by (intros; apply qrel_rid, qrel_promoteReady).
  intros ref' id' Hid'. change (rid (set_runs _ q1) ref') with (rid q1 ref') in Hid'. rewrite Hrid in Hid'.
  unfold run_ok. simpl. rewrite Hrs. change (viewOf ref' (set_runs _ q1)) with (viewOf ref' q1).
  destruct (decide (ref' = ref)) as [->|Hne].
  - assert (id' = id) as -> by congruence. rewrite lookup_insert_eq. split; [intros _|done].
    eapply admissible_promoted; [exact Ha|by apply promote_spec].
  - rewrite Hv by done. destruct (Ho _ _ Hne Hid') as [H1 H2]. destruct (decide (id' = id)) as [->|Hni].
    + rewrite lookup_insert_eq. split; [congruence|]. intros _. apply H2. by rewrite Hr.
    + by rewrite lookup_insert_ne.
Qed.

(** The shape of a pipeline whose graph was built. *)
Record runnable (pl : Pipeline) (dag : DAG) : Prop := {
  rn_names : NoDup (step_names pl);
  rn_dag : BuildDAG pl = Ok dag;
  rn_steps : ps_Steps (pl_Spec pl) <> [];
  rn_json : forall s, is_Some (marshalStep s) }.

(** A view drawn from the steps of the pipeline. *)
Definition drawn (steps : list Step) (ok : taskStatus -> Prop) (v : view) : Prop :=
  (forall n s deps, v !! n = Some (s, deps) -> ok s /\ exists x, x ∈ steps /\ s_Name x = n /\ s_DependsOn x = deps) /\
  (forall x, x ∈ steps -> is_Some (v !! s_Name x)).

Lemma drawn_shape pl dag ok v :
  runnable pl dag -> drawn (ps_Steps (pl_Spec (ApplyDefaults pl))) ok v -> closed v /\ ranked v.
Proof.
  intros [Hnd Hdag _ _] [H1 H2].
  assert (acyclic (ps_Steps (pl_Spec pl))) as [rank Hrank].
  { apply (BuildDAG_acyclic pl Hnd). eauto. }
  destruct (ApplyDefaults_steps pl) as [f Hf]. rewrite Hf in H1, H2.
  assert (forall n s deps d, v !! n = Some (s, deps) -> d ∈ deps -> d ∈ step_names pl /\ (rank d < rank n)%nat) as H.
  { intros n s deps d Hn Hd. destruct (H1 _ _ _ Hn) as (_ & x & Hx & <- & <-).
    apply list_elem_of_fmap in Hx as (y & -> & Hy). apply (Hrank y d Hy). exact Hd. }
  split.
  - intros n s deps d Hn Hd. destruct (H _ _ _ _ Hn Hd) as [Hin _].
    unfold step_names in Hin. apply list_elem_of_fmap in Hin as (y & -> & Hy).
    apply (H2 (set_s_Driver (f y) y)). apply list_elem_of_fmap. eauto.
  - exists rank. intros n s deps d Hn Hd. by destruct (H _ _ _ _ Hn Hd).
Qed.

Lemma drawn_nonempty pl dag ok v :
  runnable pl dag -> drawn (ps_Steps (pl_Spec (ApplyDefaults pl))) ok v -> exists n s, st v n s.
Proof.
  intros [_ _ Hne _] [_ H2]. destruct (ApplyDefaults_steps pl) as [f Hf]. rewrite Hf in H2.
  destruct (ps_Steps (pl_Spec pl)) as [|x l]; [done|].
  destruct (H2 (set_s_Driver (f x) x)) as [[s deps] Hx]; [simpl; by left|]. eexists _, s. by exists deps.
Qed.

Lemma addTasks_drawn now a q pl :
  (forall s, is_Some (marshalStep s)) ->
  drawn (ps_Steps (pl_Spec pl)) (fun s => s = taskPending)
    (view_entry <$> addTasks marshalStep marshalPipeline now a q pl).
Proof.
  clear mapOrder_perm mapOrder. intros Hj. unfold addTasks. generalize (marshalPipeline pl) as js. intros js.
  set (F := fun (tasks : gmap string taskEntry) s => match marshalStep s with None => tasks
      | Some _ => <[s_Name s := newEntry marshalStep now a q js s]> tasks end).
  assert (forall l (m : gmap string taskEntry) l0, drawn l0 (fun s => s = taskPending) (view_entry <$> m) ->
    drawn (l0 ++ l) (fun s => s = taskPending) (view_entry <$> foldl F m l)) as H.
  { induction l as [|x l IH]; intros m l0 Hm; simpl; [by rewrite app_nil_r|].
    rewrite cons_middle, app_assoc. apply IH. unfold F. destruct (Hj x) as [y ->]. destruct Hm as [H1 H2].
    rewrite fmap_insert. split.
    - intros n s deps. rewrite lookup_insert_Some. intros [[<- [= <- <-]]|[_ Hn]].
      + split; [done|]. exists x. set_solver.
      + destruct (H1 _ _ _ Hn) as (-> & y' & Hy & <- & <-). split; [done|]. exists y'. set_solver.
    - intros y' Hy. destruct (decide (s_Name x = s_Name y')) as [->|Hne]; [rewrite lookup_insert_eq; eauto|].
      rewrite lookup_insert_ne by done. apply H2. set_solver. }
  apply (H _ ∅ []). split; [|set_solver]. intros n s deps. by rewrite fmap_empty, lookup_empty.
Qed.

Lemma newRun_others now a pl dag tasks q :
  rt_ok q -> sched q ->
  let '(ref, q') := newRun now a pl dag tasks q in
  others_ok ref q' /\ rid q' ref = Some (ra_runID a) /\ q_runs q' = q_runs q /\ viewOf ref q' = view_entry <$> tasks.
Proof.
  intros (Hr & _) Hs. simpl. split_and!.
  - intros ref' id Hne Hid. unfold rid in Hid. simpl in Hid. rewrite lookup_insert_ne in Hid by done.
    destruct (Hs ref' id Hid) as [H1 H2]. unfold run_ok. simpl.
    assert (viewOf ref' (set_rt rt_newRef (set_heap <[rt_nextRef (q_rt q):=mkRunEntry (ra_projectID a) (ra_runID a) pl dag tasks now]> q))
      = viewOf ref' q) as ->; [|done].
    unfold viewOf, runTasks. simpl. by rewrite lookup_insert_ne.
  - unfold rid. simpl. by rewrite lookup_insert_eq.
  - done.
  - unfold viewOf, runTasks. simpl. by rewrite lookup_insert_eq.
Qed.

Lemma pending_admissible pl dag v :
  runnable pl dag -> drawn (ps_Steps (pl_Spec (ApplyDefaults pl)))
    (fun s => s = taskPending \/ s = taskDone \/ s = taskRecovering) v ->
  ~ all_terminal v -> admissible v.
Proof.
  intros Hrn Hd Hl. destruct (drawn_shape _ _ _ _ Hrn Hd) as [Hc Hr]. destruct Hd as [H1 _]. split; try done.
  - intros n deps Hn d s Hdd [dd Hs]. destruct (H1 _ _ _ Hs) as [[->|[->| ->]] _]; done.
  - intros n [deps Hn]. destruct (H1 _ _ _ Hn) as [[|[|]] _]; done.
Qed.

Lemma sched_add now pl dag a q :
  rt_ok q -> sched q -> runnable pl dag -> q_runs q !! ra_runID a = None ->
  sched (addWithEnvLocked mapOrder marshalStep marshalPipeline now pl dag a q).2.
Proof using mapOrder_perm.
  intros Hok Hs Hrn Hr. unfold addWithEnvLocked. cbv zeta.
  pose proof (newRun_others now a (ApplyDefaults pl) dag (addTasks marshalStep marshalPipeline now a q (ApplyDefaults pl)) q Hok Hs) as H.
  destruct (newRun _ _ _ _ _ _) as [ref q1]. destruct H as (Ho & Hid & Hrs & Hv). apply sched_take, sched_admit; try done.
  - by rewrite Hrs.
  - pose proof (addTasks_drawn now a q (ApplyDefaults pl) (rn_json _ _ Hrn)) as Hd. rewrite <- Hv in Hd.
    apply (pending_admissible pl dag); [done| |].
    + destruct Hd as [H1 H2]. split; [|done]. intros n s deps Hn. destruct (H1 _ _ _ Hn) as [-> ?]. auto.
    + intros Ht. destruct (drawn_nonempty _ _ _ _ Hrn Hd) as (n & s & [deps Hn]).
      destruct Hd as [H1 _]. destruct (H1 _ _ _ Hn) as [-> _].
      assert (terminalStatus taskPending = true); [|done]. apply (Ht n). by exists deps.
Qed.

Lemma view_put ref name en q r :
  q_heap q !! ref = Some r ->
  viewOf ref (set_heap (alter (re_set_tasks <[name := en]>) ref) q) = <[name := view_entry en]> (viewOf ref q).
Proof. intros H. unfold viewOf, runTasks. simpl. rewrite lookup_alter_eq, H. simpl. apply fmap_insert. Qed.

Definition recovered_status (s : taskStatus) : Prop := s = taskPending \/ s = taskDone \/ s = taskRecovering.

Lemma recoverStep_view now a js byName ref q s id :
  rid q ref = Some id ->
  let q' := recoverStep marshalStep now a js byName ref q s in
  touches ref q q' /\ (forall r, rid q' r = rid q r) /\
  exists x, recovered_status x /\ viewOf ref q' = <[s_Name s := (x, s_DependsOn s)]> (viewOf ref q).
Proof.
  clear mapOrder_perm mapOrder. intros Hid. unfold recoverStep. cbv zeta. set (q1 := set_heap _ q).
  pose proof Hid as Hr. unfold rid in Hr. apply fmap_Some in Hr as (r & Hr & _).
  assert (viewOf ref q1 = <[s_Name s := (taskPending, s_DependsOn s)]> (viewOf ref q)) as Hv by by eapply view_put.
  assert (touches ref q q1) as Ht.
  { split; [done|]. intros ref' Hne. unfold viewOf, runTasks. simpl. by rewrite lookup_alter_ne. }
  assert (forall r', rid q1 r' = rid q r') as Hrid.
  { intros r'. unfold rid, q1. simpl. destruct (decide (ref = r')) as [->|];
      [rewrite lookup_alter_eq, Hr; done|by rewrite lookup_alter_ne]. }
  assert (forall x, viewOf ref (transition (ref, s_Name s) x q1) = <[s_Name s := (x, s_DependsOn s)]> (viewOf ref q)) as Htr.
  { intros x. erewrite view_transition; [|by rewrite Hv, lookup_insert_eq|done]. by rewrite Hv, insert_insert_eq. }
  destruct (byName !! s_Name s) as [rs|]; [|split_and!; [done..|exists taskPending; split; [by left|done]]].
  destruct (rs_Done rs).
  { split_and!; [etrans; [exact Ht|apply (touches_transition (ref, s_Name s))]|intros r'; by rewrite rid_transition|].
    exists taskDone. split; [by right; left|done]. }
  destruct (rs_StartedAt rs) as [t|]; [|split_and!; [done..|exists taskPending; split; [by left|done]]].
  set (q2 := updEntry _ _ (transition _ taskRecovering q1)).
  assert (same_sched q2 (scheduleRecoveryGraceLocked (ra_runID a) (ref, s_Name s) (emit (ra_projectID a) "step.recovering"
     [("run_id", FStr (ra_runID a)); ("step", FStr (s_Name s))] q2))) as (E1 & E2 & E3).
  { etrans; [apply same_emit|]. unfold scheduleRecoveryGraceLocked. etrans; [apply same_stop|].
    unfold armTimer. etrans; [|by apply same_quiet]. by apply same_heap. }
  split_and!.
  - etrans; [|split; [exact E1|intros; apply E2]]. etrans; [exact Ht|].
    etrans; [apply (touches_transition (ref, s_Name s))|apply (touches_upd (ref, s_Name s))].
  - intros r'. rewrite E3. unfold q2. by rewrite rid_upd, rid_transition.
  - exists taskRecovering. split; [by right; right|]. rewrite E2. unfold q2. rewrite viewOf_quiet by done. apply Htr.
Qed.

Lemma recoverLoop now a js byName ref id l q l0 :
  rid q ref = Some id -> drawn l0 recovered_status (viewOf ref q) ->
  let q' := foldl (recoverStep marshalStep now a js byName ref) q l in
  touches ref q q' /\ (forall r, rid q' r = rid q r) /\ drawn (l0 ++ l) recovered_status (viewOf ref q').
Proof.
  clear mapOrder_perm mapOrder. revert q l0. induction l as [|x l IH]; intros q l0 Hid Hd; simpl; [by rewrite app_nil_r|].
  destruct (recoverStep_view now a js byName ref q x id Hid) as (Ht & Hr & y & Hy & Hv).
  rewrite cons_middle, app_assoc. destruct (IH (recoverStep marshalStep now a js byName ref q x) (l0 ++ [x])) as (Ht' & Hr' & Hd').
  - by rewrite Hr.
  - rewrite Hv. destruct Hd as [H1 H2]. split.
    + intros n s deps. rewrite lookup_insert_Some. intros [[<- [= <- <-]]|[_ Hn]].
      * split; [done|]. exists x. set_solver.
      * destruct (H1 _ _ _ Hn) as (Hs & y' & Hy' & <- & <-). split; [done|]. exists y'. set_solver.
    + intros y' Hy'. destruct (decide (s_Name x = s_Name y')) as [->|Hne]; [rewrite lookup_insert_eq; eauto|].
      rewrite lookup_insert_ne by done. apply H2. set_solver.
  - split_and!; [by etrans|intros r; by rewrite Hr', Hr|done].
Qed.

Lemma sched_recover now pl dag a recovered q :
  rt_ok q -> sched q -> runnable pl dag -> q_runs q !! ra_runID a = None ->
  sched (recoverWithEnvLocked mapOrder marshalStep marshalPipeline now pl dag a recovered q).2.
Proof using mapOrder_perm.
  intros Hok Hs Hrn Hr. unfold recoverWithEnvLocked. cbv zeta.
  pose proof (newRun_others now a (ApplyDefaults pl) dag ∅ q Hok Hs) as H.
  destruct (newRun _ _ _ _ _ _) as [ref q1]. destruct H as (Ho & Hid & Hrs & Hv).
  set (F := recoverStep _ _ _ _ _ _). set (steps := ps_Steps _).
  destruct (recoverLoop now a (marshalPipeline (ApplyDefaults pl)) (recoveredByName recovered) ref (ra_runID a) steps q1 [])
    as (Ht & Hrid & Hd); [done|rewrite Hv, fmap_empty; split; [intros ? ? ?; by rewrite lookup_empty|set_solver]|].
  simpl in Hd. fold F in Ht, Hrid, Hd. set (q2 := foldl F q1 steps) in *. clearbody q2.
  assert (others_ok ref q2) as Ho2 by by eapply touches_others.
  assert (q_runs q2 !! ra_runID a = None) as Hr2 by (destruct Ht as [-> _]; by rewrite Hrs).
  assert (no_canceled (viewOf ref q2)) as Hnc.
  { intros n [deps Hn]. destruct Hd as [H1 _]. destruct (H1 _ _ _ Hn) as [[|[|]] _]; done. }
  destruct (allTerminal (runTasks ref q2)) eqn:Et; apply sched_take.
  - destruct (finalize_fields now ref (if anyFailed (runTasks ref q2) then StatusFailed else StatusSuccess) "run.completed" q2)
      as [Eh Er]. rewrite Hrid, Hid, delete_id in Er by done.
    eapply sched_same; [by apply same_heap|]. apply (others_sched ref); [done|].
    intros id' Hid'. split; [intros Hc; rewrite Hrid in Hid'; congruence|]. intros _ n s Hn.
    rewrite allTerminal_view in Et. by destruct (Et n s Hn) as [->|[->| ->]].
  - apply sched_admit; [done|by rewrite Hrid|done|]. apply (pending_admissible pl dag); [done..|].
    intros Ht'. apply not_true_iff_false in Et. apply Et, allTerminal_view. intros n s Hn. pose proof (Ht' _ _ Hn) as Hts.
    specialize (Hnc n). destruct s; try done; auto.
Qed.
End Preserve.

(** ** Progress *)

Section Progress.
Context (mapOrder : nat -> list string -> list string).
Context (mapOrder_perm : forall seed l, mapOrder seed l ≡ₚ l).
Context (marshalStep : Step -> option string) (marshalPipeline : Pipeline -> option string).

Notation runOp := (runOp mapOrder marshalStep marshalPipeline).

(** What the callers of the queue guarantee: a run is added under an id that
    is not tracked, from a pipeline whose graph was built and whose steps can
    be marshalled. *)
Definition op_live (q : Queue) (o : op) : Prop :=
  op_ok q o /\
  match o with
  | OpAdd _ pl dag a => runnable marshalStep pl dag /\ q_runs q !! ra_runID a = None
  | OpRecover _ pl dag a _ => runnable marshalStep pl dag /\ q_runs q !! ra_runID a = None
  | _ => True
  end.

Lemma sched_op o q : queue_ok q -> sched q -> op_live q o -> sched (runOp o q).2.
Proof using mapOrder_perm.
  intros (Hok & Hm & He & Hi & _) Hs [_ Hl]. destruct o; simpl.
  - destruct Hl. by apply sched_add.
  - destruct Hl. by apply sched_recover.
  - by apply sched_complete.
  - by apply sched_cancel.
  - by apply sched_cleanup.
  - unfold RenewLeases. case_match eqn:E; [done|]. clear Hl Hok He Hi E Hm. revert q Hs.
    induction taskIDs as [|t l IH]; intros q Hs; simpl; [done|]. by apply IH, sched_renewLease.
  - by eapply sched_untouched; [..|exact Hs].
  - destruct (rt_timers (q_rt q) !! id) as [tm|] eqn:E; [|done]. case_match; [|done].
    apply sched_callback; [done|by eapply (qr_ids 0 q _ (qrel_ranTimer 0 id q))|by eapply sched_untouched; [..|exact Hs]|].
    destruct Hi as (_ & _ & Hi). apply (Hi _ _ E).
  - unfold timerDone. repeat case_match; try done; by eapply sched_untouched; [..|exact Hs].
  - unfold goCheck, exitGo. repeat case_match; try done; by eapply sched_untouched; [..|exact Hs].
  - unfold goResult. destruct (rt_gos (q_rt q) !! i) as [g|]; [|done]. case_match; [done|].
    destruct err as [[[] msg]|]; [by apply sched_requeueBusy|by apply sched_complete|done].
  - unfold exitGo. repeat case_match; try done; by eapply sched_untouched; [..|exact Hs].
  - by eapply sched_untouched; [..|exact Hs].
  - by eapply sched_untouched; [..|exact Hs].
  - by eapply sched_untouched; [..|exact Hs].
  - by eapply sched_untouched; [..|exact Hs].
  - by eapply sched_untouched; [..|exact Hs].
  - by eapply sched_untouched; [..|exact Hs].
  - by eapply sched_untouched; [..|exact Hs].
Qed.

(** Queues reached by callers that keep their side. *)
Inductive reach_live : Queue -> Prop :=
| live_new done_ : reach_live (NewQueue done_)
| live_op o q : reach_live q -> op_live q o -> reach_live (runOp o q).2
| live_observe o q : reach_live q -> reach_live (observe o q).

Lemma reach_live_ok q : reach_live q -> queue_ok q /\ sched q.
Proof using mapOrder_perm.
  induction 1 as [d|o q _ [IH1 IH2] Ho|o q _ [IH1 IH2]].
  - split; [apply (reach_ok mapOrder marshalStep marshalPipeline); constructor|]. intros ref id. done.
  - split; [apply queue_ok_op; [done|by destruct Ho]|by apply sched_op].
  - split; [|by eapply sched_untouched; [..|exact IH2]].
    destruct IH1 as (? & ? & ? & ? & ?). by split_and!.
Qed.

(** In every reachable queue, a tracked run has a step that is ready, running,
    retrying or recovering; every pending step waits for a dependency that can still
    finish, and no dependency of a pending step has failed or been canceled. *)
Theorem live_active q runID ref (Hq : reach_live q) (Hr : q_runs q !! runID = Some ref) :
  (exists name en, getEntry (ref, name) q = Some en /\ active (te_status en)) /\
  (forall name en, getEntry (ref, name) q = Some en -> te_status en = taskPending ->
     (exists d en', d ∈ s_DependsOn (te_step en) /\ getEntry (ref, d) q = Some en' /\
        terminalStatus (te_status en') = false) /\
     (forall d en', d ∈ s_DependsOn (te_step en) -> getEntry (ref, d) q = Some en' ->
        te_status en' <> taskFailed /\ te_status en' <> taskCanceled)).
Proof using mapOrder_perm.
  apply reach_live_ok in Hq as [(_ & _ & _ & Hi & _) Hs]. destruct Hi as (Hi & _).
  destruct (Hs ref runID (Hi _ _ Hr)) as [Hg _]. specialize (Hg Hr).
  assert (forall n s, st (viewOf ref q) n s <-> exists en, getEntry (ref, n) q = Some en /\ te_status en = s) as Hst.
  { intros n s. unfold st. rewrite lookup_view. split.
    - intros [deps (en & He & [= -> _])%fmap_Some]. eauto.
    - intros (en & -> & <-). by eexists. }
  split.
  - destruct (good_active _ Hg) as (n & s & (en & He & <-)%Hst & Ha). eauto.
  - intros n en He Hp. destruct Hg as (_ & _ & Hpo & _).
    destruct (Hpo n (s_DependsOn (te_step en))) as [H1 (d & s & Hd & (en' & He' & <-)%Hst & Ht)].
    { rewrite lookup_view, He. simpl. unfold view_entry. by rewrite Hp. }
    split; [eauto|]. intros d' en2 Hd' He2. apply (H1 d'); [done|]. apply Hst. eauto.
Qed.

(** A run that is no longer tracked is over: all its steps are terminal,
    so no timer or goroutine it left behind can start or change anything. *)
Theorem untracked_terminal q ref r name en (Hq : reach_live q) (Hh : q_heap q !! ref = Some r)
    (Hn : q_runs q !! re_runID r <> Some ref) (He : getEntry (ref, name) q = Some en) :
  terminalStatus (te_status en) = true.
Proof using mapOrder_perm.
  apply reach_live_ok in Hq as [_ Hs]. destruct (Hs ref (re_runID r)) as [_ Ht]; [unfold rid; by rewrite Hh|].
  apply (Ht Hn name). exists (s_DependsOn (te_step en)). by rewrite lookup_view, He.
Qed.
End Progress.

Lemma demo_order_perm seed l : demo_order seed l ≡ₚ l.
Proof. done. Qed.

Lemma demo_runnable : runnable demo_json diamond demo_dag.
Proof. split; [compute_decide|vm_compute; reflexivity|done|by eexists]. Qed.

Lemma demo_live o q : reach_live demo_order demo_json demo_json q -> op_live demo_json q o ->
  reach_live demo_order demo_json demo_json (demo_run [o] q).
Proof. apply live_op. Qed.

Lemma demo_q1_live : reach_live demo_order demo_json demo_json demo_q1.
Proof.
  apply (demo_live demo_add (demo_run [OpSetBackend (Some demo_backend)] (NewQueue false))).
  - apply demo_live; [constructor|done].
  - split; [exact I|]. split; [exact demo_runnable|reflexivity].
Qed.

Lemma demo_q2_live : reach_live demo_order demo_json demo_json demo_q2.
Proof. apply demo_live; [exact demo_q1_live|done]. Qed.

(** The canceled run of the same queue. *)
Definition demo_q3 : Queue := demo_run [OpCancel 7 "p" "r"] demo_q2.

Lemma demo_q3_live : reach_live demo_order demo_json demo_json demo_q3.
Proof. apply demo_live; [exact demo_q2_live|done]. Qed.

Definition demo_heap (q : Queue) : runEntry :=
  default (mkRunEntry "" "" diamond demo_dag ∅ 0) (q_heap q !! 0%nat).

Lemma untracked_terminal_witness :
  te_status (demo_entry demo_q3 "d") = taskCanceled /\
  terminalStatus (te_status (demo_entry demo_q3 "d")) = true.
Proof.
  split; [vm_compute; reflexivity|].
  apply (untracked_terminal demo_order demo_order_perm demo_json demo_json demo_q3 0%nat (demo_heap demo_q3) "d"
    (demo_entry demo_q3 "d") demo_q3_live).
  - vm_compute. reflexivity.
  - vm_compute. discriminate.
  - vm_compute. reflexivity.
Defined.
