(* ===== verification/QueueTimers.v ===== *)
(** * What a waiting step waits for

    Every step that is not over and not pending has something under way that will
    move it: the timer of its retry, of its grace period, or of its next dispatch,
    armed and not run yet, or the lease of the worker that has it.  With
    [QueueProgress] this says that no tracked run gets stuck. *)

From S2P Require Import Prelude Pipeline Dag RunStore Queue QueueInv QueueProgress.
From stdpp Require Import options.
#[local] Open Scope Z_scope.

(** A timer of the entry whose callback has not run. *)
Definition armed (q : Queue) (kind : timerKind) (e : eref) : Prop :=
  exists id tm, rt_timers (q_rt q) !! id = Some tm /\ tm_kind tm = kind /\ tm_entry tm = e /\ tm_ran tm = false.

(** What an entry waits for; the shutdown of the server ends the waits for workers. *)
Definition waits (q : Queue) (e : eref) (en : taskEntry) : Prop :=
  match te_status en with
  | taskReady => q_serverDone (q_conf q) = true \/ armed q TimerRequeue e
  | taskRetrying => armed q TimerRetry e
  | taskRecovering => q_serverDone (q_conf q) = true \/ armed q TimerGrace e
  | taskRunning => exists at_, te_leaseAt en = Some at_
  | _ => True
  end.

(** An entry that needs no timer. *)
Definition calm (en : taskEntry) : Prop :=
  match te_status en with
  | taskReady | taskRetrying | taskRecovering => False
  | taskRunning => exists at_, te_leaseAt en = Some at_
  | _ => True
  end.

Definition on_entry (P : taskEntry -> Prop) (q : Queue) (e : eref) : Prop := forall en, getEntry e q = Some en -> P en.

(** Every timer that an entry names is its own, and new timers are new. *)
Definition timers_ok (q : Queue) : Prop :=
  (forall e en id, getEntry e q = Some en -> te_timer en = Some id ->
     (id < rt_nextTimer (q_rt q))%nat /\ forall tm, rt_timers (q_rt q) !! id = Some tm -> tm_entry tm = e) /\
  (forall id tm, rt_timers (q_rt q) !! id = Some tm -> (id < rt_nextTimer (q_rt q))%nat).

(** Inside of a locked section, one entry may be on its way. *)
Definition hangs (x : option eref) (q : Queue) : Prop :=
  timers_ok q /\ forall e en, x <> Some e -> getEntry e q = Some en -> waits q e en.

Lemma hangs_weaken e q : hangs None q -> hangs (Some e) q.
Proof. intros [Ht Hw]. split; [done|]. intros e' en _. by apply Hw. Qed.

Lemma hangs_close e q : hangs (Some e) q -> on_entry (waits q e) q e -> hangs None q.
Proof. intros [Ht Hw] He. split; [done|]. intros e' en _ E. destruct (decide (e' = e)) as [->|Hn]; [by apply He|apply Hw; congruence]. Qed.

Lemma calm_waits q e en : calm en -> waits q e en.
Proof. unfold calm, waits. by destruct (te_status en). Qed.

Lemma hangs_calm e q : hangs (Some e) q -> on_entry calm q e -> hangs None q.
Proof. intros Hq He. apply (hangs_close e); [done|]. intros en E. by apply calm_waits, He. Qed.

(** What the waits look at. *)
Definition same_waits (q q' : Queue) : Prop :=
  q_heap q' = q_heap q /\ rt_timers (q_rt q') = rt_timers (q_rt q) /\ rt_nextTimer (q_rt q') = rt_nextTimer (q_rt q) /\
  q_conf q' = q_conf q.

Lemma hangs_same x q q' : same_waits q q' -> hangs x q -> hangs x q'.
Proof.
  intros (E1 & E2 & E3 & E4) [[H1 H2] H3]. unfold hangs, timers_ok, waits, armed, getEntry in *. rewrite E1, E2, E3, E4. done.
Qed.

Lemma on_same P q q' e : same_waits q q' -> on_entry P q e -> on_entry P q' e.
Proof. intros (E1 & _). unfold on_entry, getEntry. by rewrite E1. Qed.

#[export] Instance same_waits_preorder : PreOrder same_waits.
Proof. split; [by repeat split|]. intros a b c (? & ? & ? & ?) (? & ? & ? & ?). repeat split; congruence. Qed.

Lemma same_observe o q : same_waits q (observe o q). Proof. by repeat split. Qed.
Lemma same_write d w q : same_waits q (appendWrite d w q). Proof. by repeat split. Qed.
Lemma same_effect f q : same_waits q (appendEffect f q). Proof. by repeat split. Qed.
Lemma same_emitted p t f q : same_waits q (emit p t f q). Proof. unfold emit. by case_match. Qed.
Lemma same_released id q : same_waits q (releaseTask id q). Proof. unfold releaseTask. by repeat case_match. Qed.
Lemma same_ran_released id q : same_waits q (releaseRun id q). Proof. unfold releaseRun. by repeat case_match. Qed.
Lemma same_finalized now ref status ty q : same_waits q (finalizeRunLocked now ref status ty q).
Proof.
  destruct (q_heap q !! ref) as [r|] eqn:E; [|unfold finalizeRunLocked; by rewrite E].
  rewrite (finalizeRun_unfold _ _ _ _ _ _ E). etrans; [|apply same_ran_released]. by repeat split.
Qed.

(** ** One entry *)

(** A change of an entry that waits for nothing else, or whose wait is open. *)
Lemma hangs_upd x e f q : hangs x q -> (forall en, te_timer (f en) = te_timer en \/ te_timer (f en) = None) ->
  (x = Some e \/ forall en, getEntry e q = Some en -> waits q e en -> waits q e (f en)) -> hangs x (updEntry e f q).
Proof.
  intros [[H1 H2] H3] Hf Hx. split; [split; [|exact H2]|].
  - intros e' en id E Ht. rewrite getEntry_updEntry in E. apply fmap_Some in E as (en0 & E & ->).
    case_decide as Hd; [|by eapply H1]. subst. apply (H1 e' en0 id E). by destruct (Hf en0) as [<-|Hn]; [|congruence].
  - intros e' en Hne E. rewrite getEntry_updEntry in E. apply fmap_Some in E as (en0 & E & ->).
    case_decide as Hd; [|by apply H3]. subst e'. destruct Hx as [->|Hx]; [done|]. exact (Hx _ E (H3 _ _ Hne E)).
Qed.

(** One that the waits do not see. *)
Lemma hangs_quiet x e f q : hangs x q -> (forall en, te_timer (f en) = te_timer en \/ te_timer (f en) = None) ->
  (forall en, te_status (f en) = te_status en /\ te_leaseAt (f en) = te_leaseAt en) -> hangs x (updEntry e f q).
Proof.
  intros Hq Hf Hs. apply hangs_upd; [done..|]. right. intros en _. destruct (Hs en) as [Es El]. unfold waits. by rewrite Es, El.
Qed.

Lemma hangs_transition e to q : hangs (Some e) q -> hangs (Some e) (transition e to q).
Proof. rewrite transition_upd. intros Hq. apply hangs_upd; [done| |by left]. intros en. left. unfold te_transition. by case_match. Qed.

Lemma hangs_mine e f q : hangs (Some e) q -> (forall en, te_timer (f en) = te_timer en \/ te_timer (f en) = None) ->
  hangs (Some e) (updEntry e f q).
Proof. intros Hq Hf. apply hangs_upd; [done..|by left]. Qed.

Lemma on_upd (P : taskEntry -> Prop) e f q : on_entry (fun en => P (f en)) q e -> on_entry P (updEntry e f q) e.
Proof. intros H en. rewrite getEntry_updEntry_eq. intros (en0 & E & ->)%fmap_Some. by apply H. Qed.

Lemma on_impl (P Q : taskEntry -> Prop) q e : (forall en, P en -> Q en) -> on_entry P q e -> on_entry Q q e.
Proof. intros H HP en E. by apply H, HP. Qed.

Lemma on_any (P : taskEntry -> Prop) q e : (forall en, P en) -> on_entry P q e.
Proof. intros H en _. apply H. Qed.

(** The status and the lease of an entry, as its timers come and go. *)
Definition timerless (P : taskEntry -> Prop) : Prop := forall t en, P en -> P (te_set_timer t en).

Lemma on_stop P q e : timerless P -> on_entry P q e -> on_entry P (stopEntryTimerLocked e q) e.
Proof.
  intros HP H en E. destruct (getEntry_stop e e q) as [Es|Es]; rewrite Es in E; [|by apply H].
  rewrite decide_True in E by done. apply fmap_Some in E as (en0 & E & ->). by apply HP, H.
Qed.

Lemma on_arm P q e kind runID d : timerless P -> on_entry P q e -> on_entry P (armTimer kind e runID d q) e.
Proof. intros HP H. unfold armTimer. apply on_upd. intros en E. apply HP, H, E. Qed.

Lemma armed_weaken (q q' : Queue) kind e : (forall id tm, rt_timers (q_rt q) !! id = Some tm -> tm_entry tm = e -> tm_ran tm = false ->
    rt_timers (q_rt q') !! id = Some tm) -> armed q kind e -> armed q' kind e.
Proof. intros H (id & tm & E & Hk & He & Hr). exists id, tm. auto. Qed.

Lemma waits_weaken (q q' : Queue) e en : q_conf q' = q_conf q ->
  (forall kind, armed q kind e -> armed q' kind e) -> waits q e en -> waits q' e en.
Proof. intros Ec H. unfold waits. rewrite Ec. destruct (te_status en); naive_solver. Qed.

Lemma hangs_stop x e q : hangs x q -> (x = None \/ x = Some e) -> hangs (Some e) (stopEntryTimerLocked e q).
Proof.
  intros Hq Hx. assert (Hw : hangs (Some e) q) by (destruct Hx as [->| ->]; [by apply hangs_weaken|done]). clear x Hq Hx.
  unfold stopEntryTimerLocked. destruct (getEntry e q) as [en|] eqn:E; [|done]. destruct (te_timer en) as [id|] eqn:Et; [|done].
  apply hangs_mine; [|by right]. destruct (rt_timers (q_rt q) !! id) as [tm|] eqn:Etm; [|done]. destruct (tm_fired tm); [done|].
  destruct Hw as [[H1 H2] H3]. assert (Hme : tm_entry tm = e) by (eapply H1; [exact E|exact Et|exact Etm]). split; [split|]; simpl.
  - intros e' en' id' E' Ht'. destruct (H1 _ _ _ E' Ht') as [Hl Hm]. split; [done|]. intros tm' [_ Htm]%lookup_delete_Some. by apply Hm.
  - intros id' tm' [_ Htm]%lookup_delete_Some. by eapply H2.
  - intros e' en' Hne E'. specialize (H3 _ _ Hne E'). revert H3. apply waits_weaken; [done|]. intros kind. apply armed_weaken.
    intros id' tm' Htm' He' _. simpl. rewrite lookup_delete_ne; [done|]. intros <-. congruence.
Qed.

Lemma hangs_arm e kind runID d q : hangs (Some e) q -> hangs (Some e) (armTimer kind e runID d q) /\ armed (armTimer kind e runID d q) kind e.
Proof.
  intros [[H1 H2] H3]. set (id := rt_nextTimer (q_rt q)).
  assert (Hnew : rt_timers (q_rt q) !! id = None) by (apply eq_None_not_Some; intros [tm Etm]; specialize (H2 _ _ Etm); unfold id in H2; lia).
  split; [|exists id; eexists; split; [apply lookup_insert_eq|done]]. split; [split|].
  - intros e' en id' E Ht. unfold armTimer in E. rewrite getEntry_updEntry in E. apply fmap_Some in E as (en0 & E & ->). simpl.
    case_decide as Hd.
    + subst e'. simpl in Ht. injection Ht as <-. split; [unfold id; lia|]. fold id. rewrite lookup_insert_eq. by intros tm [= <-].
    + destruct (H1 e' en0 id' E Ht) as [Hl Hm]. split; [lia|]. fold id. rewrite lookup_insert_ne by (unfold id; lia). exact Hm.
  - simpl. intros id' tm. fold id. rewrite lookup_insert_Some. intros [[<- _]|[_ E]]; [unfold id; lia|]. specialize (H2 _ _ E). lia.
  - intros e' en Hne E. unfold armTimer in E. rewrite getEntry_updEntry in E. apply fmap_Some in E as (en0 & E & ->).
    rewrite decide_False by congruence. simpl. specialize (H3 e' en0 Hne E). revert H3. apply waits_weaken; [done|]. intros k.
    apply armed_weaken. intros id' tm' E' _ _. simpl. fold id. rewrite lookup_insert_ne; [done|]. intros <-. congruence.
Qed.

(** ** The operations of the queue *)

Lemma timerless_calm : timerless calm.
Proof. intros t en. by unfold calm. Qed.

(** An entry moved to [to], unless it was over. *)
Definition is_or_over (to : taskStatus) (en : taskEntry) : Prop := te_status en = to \/ terminalStatus (te_status en) = true.

Lemma timerless_is to : timerless (is_or_over to).
Proof. by intros t en. Qed.

Lemma over_calm en : terminalStatus (te_status en) = true -> calm en.
Proof. unfold calm. by destruct (te_status en). Qed.

Lemma moved_is to en : is_or_over to (te_transition to en).
Proof. unfold te_transition, is_or_over. destruct (terminalStatus (te_status en)) eqn:E; [by right|by left]. Qed.

Lemma on_moved e to q : on_entry (is_or_over to) (transition e to q) e.
Proof. rewrite transition_upd. apply on_upd, on_any, moved_is. Qed.

Lemma is_over_calm to en : terminalStatus to = true \/ to = taskPending -> is_or_over to en -> calm en.
Proof. intros Hto [E|E]; [|by apply over_calm]. unfold calm. rewrite E. destruct Hto as [| ->]; [by destruct to|done]. Qed.

Lemma start_calm now en : calm (te_start now en).
Proof. unfold calm, te_start, te_transition. simpl. destruct (te_status en) eqn:E; simpl; rewrite ?E; simpl; eauto. Qed.

Lemma start_timer now en : te_timer (te_start now en) = te_timer en.
Proof. unfold te_start, te_transition. simpl. by case_match. Qed.

(** Both at once: the rest of the queue and the entry on its way. *)
Definition under (P : taskEntry -> Prop) (e : eref) (q : Queue) : Prop := hangs (Some e) q /\ on_entry P q e.

Lemma under_same P e q q' : same_waits q q' -> under P e q -> under P e q'.
Proof. intros H [H1 H2]. split; [by eapply hangs_same|by eapply on_same]. Qed.

Lemma under_stop P e q : timerless P -> under P e q -> under P e (stopEntryTimerLocked e q).
Proof. intros H [H1 H2]. split; [by eapply hangs_stop; [|right]|by apply on_stop]. Qed.

Lemma under_arm P e kind runID d q : timerless P -> under P e q -> under P e (armTimer kind e runID d q).
Proof. intros H [H1 H2]. split; [by apply hangs_arm|by apply on_arm]. Qed.

Lemma under_upd (P Q : taskEntry -> Prop) e f q : (forall en, te_timer (f en) = te_timer en \/ te_timer (f en) = None) ->
  (forall en, P en -> Q (f en)) -> under P e q -> under Q e (updEntry e f q).
Proof. intros Hf HQ [H1 H2]. split; [by apply hangs_mine|]. apply on_upd. by eapply on_impl. Qed.

Lemma under_calm e q : under calm e q -> hangs None q.
Proof. intros [H1 H2]. by eapply hangs_calm. Qed.

Lemma under_to P e to q : under P e q -> under (is_or_over to) e (transition e to q).
Proof. intros [H1 _]. split; [by apply hangs_transition|apply on_moved]. Qed.

Lemma under_any P e q : (forall en, P en) -> hangs (Some e) q -> under P e q.
Proof. intros HP H. split; [done|by apply on_any]. Qed.

(** Step back over the deferred work of a section. *)
Ltac waits_pend := repeat match goal with
  | |- hangs _ (appendWrite ?d ?w ?q) => apply (hangs_same _ q _ (same_write d w q))
  | |- hangs _ (appendEffect ?f ?q) => apply (hangs_same _ q _ (same_effect f q))
  end.

Lemma hangs_start now runID e q : hangs (Some e) q -> under calm e (startTaskLocked now runID e q).
Proof.
  intros Hq. unfold startTaskLocked. cbv zeta. rewrite startTask_upd.
  assert (under calm e (updEntry e (te_start now) q)) as H1.
  { apply (under_upd (fun _ => True)); [intros en; left; apply start_timer|intros en _; apply start_calm|by apply under_any]. }
  destruct (getEntry e _) as [en|]; [|done]. do 2 (eapply under_same; [first [apply same_write|apply same_emitted]|]).
  destruct (0 <? o_Timeout (s_Options (te_step en))); [|done].
  apply (under_arm _ _ TimerTimeout); [apply timerless_calm|]. apply under_stop; [apply timerless_calm|].
  do 2 (eapply under_upd; [by left|by intros ? HP; exact HP|]). done.
Qed.

(** With a backend, dispatching an entry leaves it running under a lease. *)
Lemma hangs_dispatch now e q : is_Some (q_backend (q_conf q)) -> hangs (Some e) q -> hangs None (dispatchIfNeeded now e q).
Proof.
  intros [b Eb] Hq. unfold dispatchIfNeeded. rewrite Eb. destruct (getEntry e q) as [en|] eqn:E.
  2: { apply (hangs_close e); [done|]. intros en. by rewrite E. }
  pose proof (hangs_start now (t_RunID (te_task en)) e q Hq) as H. destruct (getEntry e (startTaskLocked _ _ _ _)) eqn:E'.
  - eapply hangs_same; [|by eapply under_calm]. by repeat split.
  - by eapply under_calm.
Qed.

Lemma hangs_armed kind e runID d q : under (fun en => calm en \/
    match kind with TimerRequeue => te_status en = taskReady | TimerRetry => te_status en = taskRetrying
                  | TimerGrace => te_status en = taskRecovering | TimerTimeout => False end) e q ->
  hangs None (armTimer kind e runID d q).
Proof.
  intros [H1 H2]. destruct (hangs_arm e kind runID d q H1) as [H3 H4]. apply (hangs_close e); [done|].
  assert (Ht : timerless (fun en => calm en \/
    match kind with TimerRequeue => te_status en = taskReady | TimerRetry => te_status en = taskRetrying
                  | TimerGrace => te_status en = taskRecovering | TimerTimeout => False end)) by (by intros t en).
  eapply on_impl; [|apply (on_arm _ q e kind runID d Ht H2)]. intros en [Hc|Hk]; [by apply calm_waits|].
  unfold waits. destruct kind; [done|rewrite Hk; by right|rewrite Hk; by right|by rewrite Hk].
Qed.

Lemma under_impl (P Q : taskEntry -> Prop) e q : (forall en, P en -> Q en) -> under P e q -> under Q e q.
Proof. intros H [H1 H2]. split; [done|]. by eapply on_impl. Qed.

Lemma hangs_scheduleRetry now e q : is_Some (q_backend (q_conf q)) -> under (is_or_over taskRetrying) e q ->
  hangs None (scheduleRetryLocked now e q).
Proof.
  intros Hb Hq. unfold scheduleRetryLocked. destruct (q_retryDelay (q_conf q) <=? 0).
  - cbv zeta. apply hangs_dispatch; [by rewrite transition_upd|]. apply hangs_mine; [|by right]. by apply hangs_transition, Hq.
  - destruct (getEntry e q) as [en|] eqn:E.
    + apply hangs_armed. eapply under_impl; [|apply under_stop; [apply (timerless_is taskRetrying)|exact Hq]].
      intros en' [Hs|Ht]; [by right|left; by apply over_calm].
    + apply (hangs_close e); [apply Hq|]. intros en. by rewrite E.
Qed.

Lemma conf_emitted p t f q : q_conf (emit p t f q) = q_conf q.
Proof. unfold emit. by case_match. Qed.

Lemma conf_dispatch now e q : q_conf (dispatchIfNeeded now e q) = q_conf q.
Proof.
  unfold dispatchIfNeeded. destruct (q_backend (q_conf q)); [|done]. destruct (getEntry e q) as [en|]; [|done].
  assert (forall id, q_conf (startTaskLocked now id e q) = q_conf q) as Hs.
  { intros id. unfold startTaskLocked. cbv zeta. rewrite startTask_upd. case_match; [|done]. simpl. rewrite conf_emitted.
    case_match; [|done]. simpl. by rewrite conf_stop. }
  case_match; [|done]. simpl. apply Hs.
Qed.

(** The timer stopped and the status changed. *)
Lemma hangs_stopped e to q : hangs (Some e) q -> under (is_or_over to) e (transition e to (stopEntryTimerLocked e q)).
Proof. intros Hq. eapply (under_to (fun _ => True)), under_stop; [by intros ? ?|]. by apply under_any. Qed.

Section Ops.
Context (mapOrder : nat -> list string -> list string).

(** An entry that is over waits for nothing more. *)
Lemma hangs_end e to q : terminalStatus to = true -> hangs None q -> hangs None (transition e to q).
Proof.
  intros Ht Hq. apply hangs_weaken with (e := e) in Hq. eapply under_calm, under_impl; [|eapply under_to, under_any; [|exact Hq]].
  - intros en. apply is_over_calm. by left.
  - by instantiate (1 := fun _ => True).
Qed.

Lemma hangs_foldl {A} (f : Queue -> A -> Queue) (P : Queue -> Prop) l q :
  (forall q x, P q -> hangs None q -> P (f q x) /\ hangs None (f q x)) -> P q -> hangs None q -> hangs None (foldl f q l).
Proof. intros H. revert q. induction l as [|x l IH]; intros q HP Hq; simpl; [done|]. destruct (H q x HP Hq). by apply IH. Qed.

Lemma hangs_skip fuel ref x q : hangs None q -> hangs None (skipDownstream_fuel mapOrder fuel ref x q).
Proof.
  revert x q. induction fuel as [|fuel IH]; intros x q Hq; simpl; [done|]. destruct (q_heap q !! ref) as [r|]; [|done].
  unfold rangeMap. cbv iota beta zeta. eapply (hangs_foldl _ (fun _ => True)); [|done|by eapply hangs_same; [|exact Hq]].
  clear q Hq. intros q n _ Hq. split; [done|]. unfold skipEntry. cbv zeta. destruct (getEntry (ref, n) q); [|done].
  case_match; [done|]. case_match; [|done]. apply IH. waits_pend. by apply hangs_end.
Qed.

Definition backed (q : Queue) : Prop := is_Some (q_backend (q_conf q)).

Lemma backed_same q q' : q_conf q' = q_conf q -> backed q -> backed q'.
Proof. unfold backed. by intros ->. Qed.

Lemma hangs_promoteReady now ref q : backed q -> hangs None q -> hangs None (promoteReady mapOrder now ref q).
Proof.
  intros Hb Hq. unfold promoteReady. destruct (q_heap q !! ref) as [r|]; [|done]. unfold rangeMap. cbv iota beta zeta.
  eapply (hangs_foldl _ backed); [|done|by eapply hangs_same; [|exact Hq]]. clear q Hb Hq. intros q n Hb Hq.
  unfold promoteEntry. cbv zeta. destruct (getEntry (ref, n) q) as [en|]; [|done]. case_match; [done|]. case_match; [|done].
  set (q1 := emit _ _ _ _).
  assert (q_conf q1 = q_conf q) as Hc by (unfold q1; rewrite transition_upd; unfold emit; by case_match).
  assert (hangs (Some (ref, n)) q1) as H1.
  { eapply hangs_same; [apply same_emitted|]. by apply hangs_transition, hangs_weaken. }
  split; [|apply hangs_dispatch; [by rewrite Hc|done]].
  eapply backed_same; [|exact Hb]. by rewrite conf_dispatch.
Qed.

Lemma hangs_finalizeIf x now ref q : hangs x q -> hangs x (finalizeRunIfAllTerminalLocked now ref q).
Proof. intros Hq. unfold finalizeRunIfAllTerminalLocked. case_match; [|done]. eapply hangs_same; [apply same_finalized|done]. Qed.

Lemma hangs_failOrRetry now ref e msg st ed q : backed q -> is_Some (q_heap q !! ref) -> hangs (Some e) q ->
  is_Some (getEntry e q) -> hangs None (failOrRetryLocked mapOrder now ref e msg st ed q).
Proof.
  intros Hb [r Hr] Hq [en He]. unfold failOrRetryLocked. rewrite Hr, He. cbv zeta.
  assert (forall to, under (is_or_over to) e (transition e to (stopEntryTimerLocked e q))) as Ht.
  { intros to. by apply hangs_stopped. }
  case_match.
  - apply hangs_scheduleRetry; [rewrite transition_upd; simpl; by rewrite conf_stop|].
    eapply under_same; [apply same_write|]. by eapply (under_upd (is_or_over taskRetrying)); [left| |apply Ht].
  - apply hangs_finalizeIf, hangs_skip. waits_pend. eapply under_calm.
    eapply (under_upd (is_or_over taskFailed)); [by left| |apply Ht]. intros en' H'. apply (is_over_calm taskFailed); [by left|done].
Qed.

Lemma hangs_taken x q : hangs x q -> hangs x (takePendingLocked q).2.
Proof. by apply hangs_same. Qed.

Lemma hangs_applyResult now ref e r result k n q : backed q -> is_Some (q_heap q !! ref) -> is_Some (getEntry e q) ->
  hangs None q -> hangs None (applyResult mapOrder now ref e r result k n q).
Proof.
  intros Hb [r' Hr] [en He] Hq. unfold applyResult. cbv zeta. set (q1 := emit _ _ _ _).
  assert (same_waits (updEntry e (fun en => if te_attempts en =? 0 then te_set_attempts k en else en)
    (releaseTask (tr_TaskID result) q)) q1) as Hs1 by apply same_emitted.
  assert (hangs None q1) as H1.
  { eapply hangs_same; [exact Hs1|]. eapply hangs_quiet; [eapply hangs_same; [apply same_released|done]|intros ?; left; by case_match|].
    intros en'. by case_match. }
  assert (backed q1) as Hb1.
  { destruct Hs1 as (_ & _ & _ & Hc). eapply backed_same; [|exact Hb]. rewrite Hc. simpl.
    by destruct (same_released (tr_TaskID result) q) as (_ & _ & _ & ->). }
  assert (is_Some (q_heap q1 !! ref)) as Hr1.
  { destruct Hs1 as (-> & _). unfold updEntry, set_heap. simpl.
    destruct (same_released (tr_TaskID result) q) as (-> & _). destruct (decide (e.1 = ref)) as [<-|Hn].
    - rewrite lookup_alter_eq, Hr. by eexists.
    - rewrite lookup_alter_ne, Hr by done. by eexists. }
  assert (is_Some (getEntry e q1)) as He1.
  { unfold q1. rewrite getEntry_emit, getEntry_updEntry_eq, getEntry_releaseTask, He. by eexists. }
  clearbody q1. case_match; [|by apply hangs_failOrRetry; [..|apply hangs_weaken|]].
  assert (under calm e (updEntry e (fun en => te_set_leaseAt None (te_set_startedAt None en))
    (transition e taskDone (stopEntryTimerLocked e q1)))) as Hu.
  { eapply (under_upd (is_or_over taskDone)); [by left| |].
    - intros en' H'. apply (is_over_calm taskDone); [by left|done].
    - apply hangs_stopped. by apply hangs_weaken. }
  case_match; [|by eapply under_calm]. apply hangs_finalizeIf, hangs_promoteReady.
  - unfold backed. rewrite transition_upd. simpl. by rewrite conf_stop.
  - waits_pend. by eapply under_calm.
Qed.

Lemma hangs_complete now owner result q : backed q -> hangs None q -> hangs None (completeLocked mapOrder now owner result q).2.2.
Proof.
  intros Hb Hq. pose proof (hangs_taken _ _ Hq) as Ht. unfold completeLocked. destruct (SplitTaskID _) as [[runID n]|]; [|done].
  destruct (q_runs q !! runID) as [ref|]; [|done]. destruct (q_heap q !! ref) as [r|] eqn:Er; [|done].
  destruct (getEntry (ref, n) q) as [en|] eqn:E; [|done]. cbv zeta. generalize (if tr_Attempt result =? 0 then 1 else tr_Attempt result).
  intros k. repeat (case_match; [done|]). apply hangs_taken, hangs_applyResult; [done|by rewrite Er; eexists|by rewrite E; eexists|done].
Qed.

Lemma hangs_requeueBusy runID n q : hangs None q -> hangs None (requeueBusyLocked runID n q).
Proof.
  intros Hq. unfold requeueBusyLocked. destruct (q_runs q !! runID) as [ref|]; [|done]. cbv zeta.
  destruct (getEntry (ref, n) q) as [en|]; [|done]. case_match; [done|]. apply hangs_armed.
  eapply (under_impl (is_or_over taskReady)); [intros en' [?|?]; [by right|left; by apply over_calm]|].
  apply under_stop; [apply timerless_is|]. eapply (under_upd (is_or_over taskReady)); [by left|done|].
  eapply (under_to (fun _ => True)).
  eapply (under_upd (fun _ => True)); [by left|done|]. eapply (under_upd (fun _ => True)); [intros ?; left; by case_match|done|].
  eapply (under_upd (fun _ => True)); [by left|done|]. by apply under_any, hangs_weaken.
Qed.

Lemma hangs_renewLease now runtimeID q taskID : hangs None q -> hangs None (renewLease now runtimeID q taskID).
Proof.
  intros Hq. unfold renewLease. destruct (SplitTaskID taskID) as [[runID n]|]; [|done].
  destruct (q_runs q !! runID) as [ref|]; [|done]. cbv zeta. destruct (q_heap q !! ref) as [r|]; [|done].
  destruct (getEntry (ref, n) q) as [en|] eqn:E; [|done]. do 2 (case_match; [done|]).
  set (q1 := if String.eqb (te_assignedRuntimeID en) "" then _ else q).
  assert (hangs None q1) as H1 by (unfold q1; case_match; [apply hangs_quiet; [done|by left|done]|done]).
  assert (on_entry (fun en' => te_status en' = te_status en) q1 (ref, n)) as Hst.
  { unfold q1. intros en' E'. case_match; [|congruence]. rewrite getEntry_updEntry_eq, E in E'. by injection E' as <-. }
  clearbody q1. case_match; [done|]. eapply under_calm, (under_upd (is_or_over taskRunning)).
  - by left.
  - intros en' [Hs|Hs]; [|by apply over_calm]. unfold calm. simpl. rewrite Hs. eauto.
  - destruct (bool_decide (te_status en = taskRecovering)) eqn:Hr; to_prop.
    + eapply under_same; [apply same_emitted|]. by apply hangs_stopped, hangs_weaken.
    + split; [by apply hangs_weaken|]. eapply on_impl; [|exact Hst]. intros en' Es. left. rewrite Es. clear - H Hr. to_prop. naive_solver.
Qed.

Lemma hangs_cancelEntry now ref r q n : hangs None q -> hangs None (cancelEntry now ref r q n).
Proof.
  intros Hq. unfold cancelEntry. cbv zeta. destruct (getEntry (ref, n) q) as [en|]; [|done]. case_match; [done|].
  eapply hangs_same; [apply same_released|]. eapply hangs_same; [apply same_write|]. eapply under_calm.
  eapply (under_upd (is_or_over taskCanceled)); [by left|intros en' H'; apply (is_over_calm taskCanceled); [by left|done]|].
  apply hangs_stopped. by apply hangs_weaken.
Qed.

Lemma hangs_expireEntry now ref r q n : hangs None q -> hangs None (expireEntry now ref r q n).
Proof.
  intros Hq. unfold expireEntry. cbv zeta. destruct (getEntry (ref, n) q) as [en|]; [|done]. case_match; [done|].
  eapply hangs_same; [apply same_write|]. eapply under_calm.
  eapply (under_upd (is_or_over taskFailed)); [by left|intros en' H'; apply (is_over_calm taskFailed); [by left|done]|].
  apply hangs_stopped. by apply hangs_weaken.
Qed.

Lemma hangs_loop (f : Queue -> string -> Queue) names q : (forall q n, hangs None q -> hangs None (f q n)) ->
  hangs None q -> hangs None (foldl f q names).
Proof. intros Hf. apply (hangs_foldl f (fun _ => True)); [|done]. intros. split; [done|by apply Hf]. Qed.

Lemma hangs_cancel now projectID runID q : hangs None q -> hangs None (cancelLocked mapOrder now projectID runID q).2.
Proof.
  intros Hq. unfold cancelLocked. destruct (q_runs q !! runID) as [ref|]; [|by apply hangs_taken].
  destruct (q_heap q !! ref) as [r|]; [|done]. unfold rangeMap. cbv iota beta zeta. apply hangs_taken.
  eapply hangs_same; [apply same_finalized|]. apply hangs_loop; [intros; by apply hangs_cancelEntry|]. by eapply hangs_same; [|exact Hq].
Qed.

Lemma hangs_cleanup now ttl q : hangs None q -> hangs None (cleanupLocked mapOrder now ttl q).2.
Proof.
  intros Hq. unfold cleanupLocked, rangeMap. cbv iota beta zeta. apply hangs_taken.
  apply hangs_loop; [|by eapply hangs_same; [|exact Hq]]. clear q Hq. intros q n Hq. unfold expireRun.
  destruct (q_runs q !! n) as [ref|]; [|done]. destruct (q_heap q !! ref) as [r|]; [|done]. case_match; [|done].
  unfold rangeMap. cbv iota beta zeta. eapply hangs_same; [apply same_finalized|].
  apply hangs_loop; [intros; by apply hangs_expireEntry|]. by eapply hangs_same; [|exact Hq].
Qed.

(** ** Timers and goroutines *)

Lemma timers_alter f id q : (forall tm, tm_entry (f tm) = tm_entry tm) -> timers_ok q ->
  timers_ok (set_rt (rt_setTimers (alter f id)) q).
Proof.
  intros Hf [H1 H2]. split; simpl.
  - intros e en id' E Ht. destruct (H1 e en id' E Ht) as [Hl Hm]. split; [done|]. intros tm.
    rewrite lookup_alter_Some. intros [(<- & tm0 & E0 & ->)|[_ E0]]; [rewrite Hf|]; by apply Hm.
  - intros id' tm. rewrite lookup_alter_Some. intros [(<- & tm0 & E0 & _)|[_ E0]]; by eapply H2.
Qed.

Lemma hangs_fire x id q : hangs x q -> hangs x (fireTimer id q).
Proof.
  intros [Ht Hw]. split; [by apply timers_alter|]. intros e en Hx E. specialize (Hw e en Hx E). revert Hw.
  apply waits_weaken; [done|]. intros kind (id' & tm & E' & <- & <- & Hr). unfold armed, fireTimer. simpl.
  exists id'. rewrite lookup_alter. case_decide; subst; rewrite ?E'; eauto.
Qed.

Lemma hangs_timerDone id q : hangs None q -> hangs None (timerDone id q).
Proof.
  intros [Ht Hw]. unfold timerDone. destruct (rt_timers (q_rt q) !! id) as [tm|] eqn:Etm; [|done].
  destruct (tm_ran tm) eqn:Er; [|done]. destruct Ht as [H1 H2]. split; [split|]; simpl.
  - intros e en id' E Hi. destruct (H1 e en id' E Hi) as [Hl Hm]. split; [done|]. intros tm' [_ E']%lookup_delete_Some. by apply Hm.
  - intros id' tm' [_ E']%lookup_delete_Some. by eapply H2.
  - intros e en Hx E. specialize (Hw e en Hx E). revert Hw. apply waits_weaken; [done|]. intros kind. apply armed_weaken.
    intros id' tm' E' _ Hr'. simpl. rewrite lookup_delete_ne; [done|]. intros <-. congruence.
Qed.

(** The status its callback is for. *)
Definition kind_status (kind : timerKind) : taskStatus :=
  match kind with TimerTimeout => taskRunning | TimerGrace => taskRecovering | TimerRequeue => taskReady | TimerRetry => taskRetrying end.

Lemma hangs_ran id tm q : rt_timers (q_rt q) !! id = Some tm -> hangs None q -> hangs (Some (tm_entry tm)) (ranTimer id q).
Proof.
  intros Etm [Ht Hw]. split; [by apply timers_alter|]. intros e en Hx E. specialize (Hw e en ltac:(done) E). revert Hw.
  apply waits_weaken; [done|]. intros kind. apply armed_weaken. intros id' tm' E' He _. simpl. rewrite lookup_alter_ne; [done|].
  intros <-. congruence.
Qed.

Lemma waits_ran id tm q e en : rt_timers (q_rt q) !! id = Some tm -> waits q e en ->
  te_status en <> kind_status (tm_kind tm) \/ q_serverDone (q_conf q) = true /\ tm_kind tm <> TimerRetry ->
  waits (ranTimer id q) e en.
Proof.
  intros Etm Hw Hk.
  assert (forall k, armed q k e -> tm_kind tm <> k -> armed (ranTimer id q) k e) as Ha.
  { intros k (id' & tm' & E' & <- & <- & Hr) Hne. exists id', tm'. split_and!; try done. simpl. rewrite lookup_alter_ne; [done|].
    intros <-. congruence. }
  unfold waits in *. destruct (te_status en); try done.
  - destruct Hw as [Hd|Hw]; [by left|]. destruct Hk as [Hk|[Hk _]]; [|by left]. right. apply Ha; [done|]. by intros Hk'; rewrite Hk' in Hk.
  - apply Ha; [done|]. destruct Hk as [Hk|[_ Hk]]; [|done]. by intros Hk'; rewrite Hk' in Hk.
  - destruct Hw as [Hd|Hw]; [by left|]. destruct Hk as [Hk|[Hk _]]; [|by left]. right. apply Ha; [done|]. by intros Hk'; rewrite Hk' in Hk.
Qed.

(** A callback that finds nothing to do. *)
Lemma hangs_ran_skip id tm q : rt_timers (q_rt q) !! id = Some tm -> hangs None q ->
  on_entry (fun en => te_status en <> kind_status (tm_kind tm) \/ q_serverDone (q_conf q) = true /\ tm_kind tm <> TimerRetry)
    q (tm_entry tm) -> hangs None (ranTimer id q).
Proof.
  intros Etm Hq He. apply (hangs_close (tm_entry tm)); [by apply hangs_ran|]. intros en E.
  apply (waits_ran _ tm); [done|by apply Hq|by apply He].
Qed.

Lemma hangs_fired now msg id tm q : ids_ok q -> sched q -> backed q -> hangs None q -> rt_timers (q_rt q) !! id = Some tm ->
  tm_kind tm = TimerTimeout \/ tm_kind tm = TimerGrace ->
  hangs None (firedEntry mapOrder now (tm_runID tm) (tm_entry tm) msg (kind_status (tm_kind tm)) (ranTimer id q)).2.
Proof.
  intros Hi Hs Hb Hq Etm Hk. unfold firedEntry. change (getEntry (tm_entry tm) (ranTimer id q)) with (getEntry (tm_entry tm) q).
  destruct (getEntry (tm_entry tm) q) as [en|] eqn:E.
  2: { apply (hangs_ran_skip _ tm); [done..|]. intros en. by rewrite E. }
  case_match eqn:Hc.
  { apply (hangs_ran_skip _ tm); [done..|]. intros en'. rewrite E. intros [= <-].
    apply orb_true_iff in Hc as [Hc|Hc]; [right; split; [exact Hc|]; by destruct Hk as [-> | ->]|left; by to_prop]. }
  apply orb_false_iff in Hc as [_ Hc]. to_prop. destruct (tm_entry tm) as [ref n] eqn:Ee.
  assert (rid q ref = Some (tm_runID tm)) as Hid by (destruct Hi as (_ & _ & Hi); pose proof (Hi _ _ Etm) as H'; by rewrite Ee in H').
  assert (q_runs q !! tm_runID tm = Some ref) as Hr.
  { apply (sched_tracked q ref _ n (te_status en)); [done..|exists (s_DependsOn (te_step en)); by rewrite lookup_view, E|].
    rewrite Hc. by destruct Hk as [-> | ->]. }
  change (q_runs (ranTimer id q)) with (q_runs q). rewrite Hr. cbv zeta. apply hangs_taken.
  set (q1 := updEntry _ _ _). pose proof (same_released (t_ID (te_task en)) q1) as Hsame.
  assert (is_Some (q_heap q !! ref)) as [r Hh] by (unfold rid in Hid; apply fmap_Some in Hid as (r & ? & _); eauto).
  apply hangs_failOrRetry.
  - destruct Hsame as (_ & _ & _ & Hc'). by eapply backed_same; [exact Hc'|].
  - destruct Hsame as (-> & _). simpl. rewrite lookup_alter_eq, Hh. by eexists.
  - eapply hangs_same; [exact Hsame|]. apply hangs_mine; [|by right]. rewrite <- Ee. by apply hangs_ran.
  - rewrite getEntry_releaseTask. unfold q1. rewrite getEntry_updEntry_eq.
    change (getEntry (ref, n) (ranTimer id q)) with (getEntry (ref, n) q). rewrite E. by eexists.
Qed.

Lemma hangs_callback now id tm q : ids_ok q -> sched q -> backed q -> hangs None q -> rt_timers (q_rt q) !! id = Some tm ->
  hangs None (timerCallback mapOrder now tm (ranTimer id q)).2.
Proof.
  intros Hi Hs Hb Hq Etm. unfold timerCallback. destruct (tm_kind tm) eqn:Ek.
  - unfold timeoutFiredLocked. change taskRunning with (kind_status TimerTimeout). rewrite <- Ek. apply hangs_fired; auto.
  - unfold recoveryGraceFiredLocked. change taskRecovering with (kind_status TimerGrace). rewrite <- Ek. apply hangs_fired; auto.
  - unfold requeuedDispatchFiredLocked. cbv zeta. set (q1 := updEntry _ _ _).
    assert (hangs (Some (tm_entry tm)) q1) as H1 by (apply hangs_mine; [by apply hangs_ran|by right]).
    destruct (getEntry (tm_entry tm) q1) as [en|] eqn:E; [|apply (hangs_close _ _ H1); intros en; by rewrite E].
    case_match eqn:Hc; [|apply hangs_taken, hangs_dispatch; [exact Hb|done]]. simpl.
    unfold q1. apply hangs_quiet; [|by right|done]. apply (hangs_ran_skip _ tm); [done..|]. intros en' E'. rewrite Ek.
    unfold q1 in E. rewrite getEntry_updEntry_eq in E. change (getEntry (tm_entry tm) (ranTimer id q)) with (getEntry (tm_entry tm) q) in E.
    rewrite E' in E. injection E as <-. apply orb_true_iff in Hc as [Hc|Hc]; [right; split; [exact Hc|done]|left; by to_prop].
  - unfold retryFiredLocked. change (getEntry (tm_entry tm) (ranTimer id q)) with (getEntry (tm_entry tm) q).
    destruct (getEntry (tm_entry tm) q) as [en|] eqn:E; [|apply (hangs_ran_skip _ tm); [done..|intros en; by rewrite E]].
    case_match eqn:Hc; to_prop.
    + apply (hangs_ran_skip _ tm); [done..|]. intros en'. rewrite E, Ek. intros [= <-]. by left.
    + cbv zeta. apply hangs_taken, hangs_dispatch; [by rewrite transition_upd|]. apply hangs_transition, hangs_mine; [by apply hangs_ran|by right].
Qed.

Lemma hangs_goCheck i q : hangs None q -> hangs None (goCheck i q).
Proof. intros Hq. unfold goCheck, exitGo. repeat case_match; try done; by eapply hangs_same; [|exact Hq]. Qed.

Lemma hangs_goResult now owner i err q : backed q -> hangs None q -> hangs None (goResult mapOrder now owner i err q).2.
Proof.
  intros Hb Hq. unfold goResult. destruct (rt_gos (q_rt q) !! i) as [g|]; [|done]. case_match; [done|].
  destruct err as [[[] msg]|]; [by apply hangs_requeueBusy|by apply hangs_complete|done].
Qed.
End Ops.

(** ** New runs *)

Section Runs.
Context (mapOrder : nat -> list string -> list string).
Context (marshalStep : Step -> option string) (marshalPipeline : Pipeline -> option string).

(** An entry of a run about to be added. *)
Definition fresh (en : taskEntry) : Prop := calm en /\ te_timer en = None.

Lemma hangs_newRun now a pl dag tasks q : map_Forall (fun _ => fresh) tasks -> hangs None q ->
  hangs None (newRun now a pl dag tasks q).2.
Proof.
  intros Hf [[H1 H2] H3]. simpl.
  assert (forall e en, getEntry e (newRun now a pl dag tasks q).2 = Some en -> getEntry e q = Some en \/ fresh en) as He.
  { intros e en. unfold getEntry. simpl. destruct (decide (rt_nextRef (q_rt q) = e.1)) as [->|Hn].
    - rewrite lookup_insert_eq. simpl. intros E. right. by eapply Hf.
    - rewrite lookup_insert_ne by done. by left. }
  simpl in He. split; [split|]; [|exact H2|].
  - intros e en id E Ht. destruct (He e en E) as [E0|[_ Hn]]; [by apply (H1 e en)|congruence].
  - intros e en Hx E. destruct (He e en E) as [E0|[Hc _]]; [exact (H3 e en Hx E0)|by apply calm_waits].
Qed.

Lemma fresh_new now a q js s : fresh (newEntry marshalStep now a q js s).
Proof. done. Qed.

Lemma hangs_recoverStep now a js byName ref q s : hangs None q -> hangs None (recoverStep marshalStep now a js byName ref q s).
Proof.
  intros [[H1 H2] H3]. unfold recoverStep. cbv zeta. set (q1 := set_heap _ q).
  assert (forall e en, getEntry e q1 = Some en -> getEntry e q = Some en \/ fresh en) as He.
  { intros e en. unfold q1, getEntry. simpl. destruct (decide (ref = e.1)) as [->|Hn]; [|rewrite lookup_alter_ne by done; by left].
    rewrite lookup_alter_eq. destruct (q_heap q !! e.1) as [r|]; [|done]. simpl. rewrite lookup_insert_Some.
    intros [[_ <-]|[_ E]]; [right; apply fresh_new|by left]. }
  assert (hangs None q1) as Hq.
  { split; [split|]; [|exact H2|].
    - intros e en id E Ht. destruct (He e en E) as [E0|[_ Hn]]; [by apply (H1 e en)|congruence].
    - intros e en Hx E. destruct (He e en E) as [E0|[Hc _]]; [exact (H3 e en Hx E0)|by apply calm_waits]. }
  clearbody q1. destruct (byName !! s_Name s) as [rs|]; [|done]. destruct (rs_Done rs); [by apply hangs_end|].
  destruct (rs_StartedAt rs) as [t|]; [|done]. unfold scheduleRecoveryGraceLocked. apply hangs_armed.
  eapply (under_impl (is_or_over taskRecovering)); [intros en' [?|?]; [by right|left; by apply over_calm]|].
  apply under_stop; [apply timerless_is|]. eapply under_same; [apply same_emitted|].
  eapply (under_upd (is_or_over taskRecovering)); [by left|done|]. eapply (under_to (fun _ => True)).
  by apply under_any, hangs_weaken.
Qed.

Lemma conf_recoverStep now a js byName ref q s : q_conf (recoverStep marshalStep now a js byName ref q s) = q_conf q.
Proof.
  unfold recoverStep. cbv zeta. set (q1 := set_heap _ q). assert (q_conf q1 = q_conf q) as <- by done. clearbody q1.
  repeat case_match; try done; rewrite transition_upd; try done. unfold scheduleRecoveryGraceLocked, armTimer. simpl.
  by rewrite conf_stop, conf_emitted.
Qed.

Lemma hangs_add now pl dag a q : backed q -> hangs None q ->
  hangs None (addWithEnvLocked mapOrder marshalStep marshalPipeline now pl dag a q).2.
Proof.
  intros Hb Hq. unfold addWithEnvLocked. cbv zeta.
  pose proof (hangs_newRun now a (ApplyDefaults pl) dag (addTasks marshalStep marshalPipeline now a q (ApplyDefaults pl)) q) as H.
  assert (backed (newRun now a (ApplyDefaults pl) dag (addTasks marshalStep marshalPipeline now a q (ApplyDefaults pl)) q).2) as Hb' by done.
  destruct (newRun _ _ _ _ _ _) as [ref q1]. apply hangs_taken. eapply hangs_same; [by repeat split|].
  apply hangs_promoteReady; [done|]. apply H; [|done]. intros n en.
  apply (addTasks_all marshalStep marshalPipeline now a q (ApplyDefaults pl) (fun _ => fresh)). intros. apply fresh_new.
Qed.

Lemma hangs_recover now pl dag a recovered q : backed q -> hangs None q ->
  hangs None (recoverWithEnvLocked mapOrder marshalStep marshalPipeline now pl dag a recovered q).2.
Proof.
  intros Hb Hq. unfold recoverWithEnvLocked. cbv zeta.
  pose proof (hangs_newRun now a (ApplyDefaults pl) dag ∅ q) as H.
  assert (backed (newRun now a (ApplyDefaults pl) dag ∅ q).2) as Hb' by done.
  destruct (newRun _ _ _ _ _ _) as [ref q1]. set (F := recoverStep _ _ _ _ _ _). set (q2 := foldl F q1 _).
  assert (hangs None q2 /\ backed q2) as [H2 Hb2].
  { unfold q2. assert (hangs None q1) as H1 by (apply H; [apply map_Forall_empty|done]). clear H q2. simpl in Hb'. revert q1 Hb' H1.
    induction (ps_Steps (pl_Spec (ApplyDefaults pl))) as [|s l IH]; intros q1 Hb' H1; simpl; [done|]. apply IH.
    - eapply backed_same; [apply conf_recoverStep|done].
    - by apply hangs_recoverStep. }
  clearbody q2. case_match; apply hangs_taken.
  - eapply hangs_same; [apply same_finalized|done].
  - eapply hangs_same; [by repeat split|]. by apply hangs_promoteReady.
Qed.
End Runs.

(** ** The invariant *)

Section Progress.
Context (mapOrder : nat -> list string -> list string).
Context (mapOrder_perm : forall seed l, mapOrder seed l ≡ₚ l).
Context (marshalStep : Step -> option string) (marshalPipeline : Pipeline -> option string).

Notation runOp := (runOp mapOrder marshalStep marshalPipeline).
Notation op_live := (op_live marshalStep).

(** The backend is not taken away. *)
Definition keeps_backend (o : op) : Prop := o <> OpSetBackend None.

Lemma hangs_conf f q : (q_serverDone (q_conf q) = true -> q_serverDone (f (q_conf q)) = true) -> hangs None q -> hangs None (set_conf f q).
Proof.
  intros Hf [Ht Hw]. split; [exact Ht|]. intros e en Hx E. specialize (Hw e en Hx E). revert Hw. unfold waits.
  change (armed (set_conf f q)) with (armed q). simpl. destruct (te_status en); naive_solver.
Qed.

Lemma hangs_op o q : queue_ok q -> sched q -> op_live q o -> keeps_backend o -> backed q -> hangs None q ->
  hangs None (runOp o q).2 /\ backed (runOp o q).2.
Proof using mapOrder_perm.
  intros Hok Hs [Ho Hl] Hk Hb Hq. split.
  - pose proof Hok as (_ & _ & _ & Hi & _). destruct o; simpl.
    + by apply hangs_add.
    + by apply hangs_recover.
    + by apply hangs_complete.
    + by apply hangs_cancel.
    + by apply hangs_cleanup.
    + unfold RenewLeases. case_match; [done|]. clear -Hq. revert q Hq. induction taskIDs as [|t l IH]; intros q Hq; simpl; [done|].
      by apply IH, hangs_renewLease.
    + by apply hangs_fire.
    + destruct (rt_timers (q_rt q) !! id) as [tm|] eqn:E; [|done]. case_match; [|done]. by apply hangs_callback.
    + by apply hangs_timerDone.
    + by apply hangs_goCheck.
    + by apply hangs_goResult.
    + unfold exitGo. repeat case_match; try done; by eapply hangs_same; [|exact Hq].
    + by apply hangs_conf.
    + by apply hangs_conf.
    + by apply hangs_conf.
    + by apply hangs_conf.
    + by apply hangs_conf.
    + by apply hangs_conf.
    + by apply hangs_conf.
  - destruct (is_conf_op o) eqn:Hc.
    + destruct o; try done. destruct b as [b|]; [by eexists|]. by destruct Hk.
    + destruct Hok as (Hr & Hm & _). pose proof (qrel_runOp mapOrder marshalStep marshalPipeline o q Hr Hm Ho Hc) as H.
      eapply backed_same; [apply (qr_conf _ _ _ H)|done].
Qed.

(** Queues that had a backend from the start, as the server's has. *)
Inductive reach_backed : Queue -> Prop :=
| backed_new d b : reach_backed (SetBackend (Some b) (NewQueue d))
| backed_op o q : reach_backed q -> op_live q o -> keeps_backend o -> reach_backed (runOp o q).2
| backed_observe o q : reach_backed q -> reach_backed (observe o q).

Lemma reach_backed_live q : reach_backed q -> reach_live mapOrder marshalStep marshalPipeline q.
Proof.
  induction 1 as [d b|o q _ IH Ho _|o q _ IH]; [|by apply live_op|by apply live_observe].
  apply (live_op _ _ _ (OpSetBackend (Some b)) (NewQueue d)); [constructor|done].
Qed.

Lemma reach_backed_ok q : reach_backed q -> queue_ok q /\ sched q /\ backed q /\ hangs None q.
Proof using mapOrder_perm.
  intros H. destruct (reach_live_ok _ mapOrder_perm _ _ _ (reach_backed_live _ H)) as [H1 H2]. split; [done|]. split; [done|].
  clear H1 H2. induction H as [d b|o q Hq IH Ho Hk|o q _ IH].
  - split; [by eexists|]. split; [split; [|done]|done]. intros e en id. unfold getEntry. simpl. by rewrite lookup_empty.
  - destruct (reach_live_ok _ mapOrder_perm _ _ _ (reach_backed_live _ Hq)) as [H1 H2]. destruct IH as [H3 H4].
    destruct (hangs_op o q H1 H2 Ho Hk H3 H4). done.
  - destruct IH as [H1 H2]. split; [done|]. by eapply hangs_same; [|exact H2].
Qed.

End Progress.

(** A step that failed its first of two attempts, with a retry delay, and one that was
    running before a restart. *)
Definition demo_backed : Queue := SetBackend (Some demo_backend) (NewQueue false).
Definition demo_patient : Queue := demo_run [OpSetRetryPolicy 2 5] demo_backed.
Definition demo_tried : Queue := demo_run [demo_add] demo_patient.
Definition demo_retrying : Queue := demo_run [demo_complete "a" "failed" 1] demo_tried.
Definition demo_recovering : Queue :=
  demo_run [OpRecover 0 diamond demo_dag demo_args [mkRecovered "a" false (Some 1) 1]] demo_backed.

Lemma demo_backed_op o q : reach_backed demo_order demo_json demo_json q -> op_live demo_json q o -> keeps_backend o ->
  reach_backed demo_order demo_json demo_json (demo_run [o] q).
Proof. apply backed_op. Qed.

Lemma demo_retrying_backed : reach_backed demo_order demo_json demo_json demo_retrying.
Proof.
  apply (demo_backed_op (demo_complete "a" "failed" 1) demo_tried); [|by split|done].
  apply (demo_backed_op demo_add demo_patient); [|split; [exact I|split; [exact demo_runnable|vm_compute; reflexivity]]|done].
  apply (demo_backed_op (OpSetRetryPolicy 2 5) demo_backed); [constructor|by split|done].
Qed.

Example demo_recovering_waits : te_status (demo_entry demo_recovering "a") = taskRecovering /\
  (tm_kind <$> rt_timers (q_rt demo_recovering) !! 0%nat) = Some TimerGrace.
Proof. by split; vm_compute. Qed.

