(* ===== verification/QueueFlush.v ===== *)
(** * What a flush leaves in the database

    The writes and effects a locked section defers are run after the lock is
    released, each write retried with a bounded back-off.  A repository call is
    atomic, so any number of concurrent flushes is a list of calls in some
    order: terminal run rows are never overwritten, at most one call per run
    reports that it applied, and the events and callbacks of a finished run
    follow the row that backs them. *)

From S2P Require Import Prelude Pipeline Dag RunStore Queue QueueInv.
From stdpp Require Import options.
#[local] Open Scope Z_scope.

(** ** One call *)

Definition run_key_of (w : write) : option (string * string) :=
  match w with
  | WFinalize _ p id _ _ => Some (p, id)
  | WCancelUntracked p id _ => Some (p, id)
  | WUpsert _ => None
  end.

Lemma callWrite_kept at_ w st : final_kept (fl_db st) (fl_db (callWrite at_ w st).2).
Proof.
  unfold callWrite. destruct w as [s|c p id status f|p id now]; simpl.
  - destruct at_; simpl; auto with piper; reflexivity.
  - pose proof (FinalizeStatusCAS_kept p id status (Some f) (fl_db st)) as H.
    destruct (FinalizeStatusCAS p id status (Some f) (fl_db st)) as [b db']. simpl in H.
    destruct at_; simpl; auto; reflexivity.
  - destruct at_; simpl; auto with piper; reflexivity.
Qed.

(** A row is there and final. *)
Definition row_final (db : DB) (k : string * string) : Prop :=
  exists r, db_runs db !! k = Some r /\ is_final (run_Status r).

Lemma row_final_kept db db' k : final_kept db db' -> row_final db k -> row_final db' k.
Proof. intros H (r & Hr & Hf). destruct (H k r Hr Hf) as (r' & Hr' & E). exists r'. by rewrite E. Qed.

(** ** Any interleaving of calls *)

Definition runCalls (calls : list (attempt * write)) (st : flushState) : flushState :=
  foldl (fun st (c : attempt * write) => (callWrite c.1 c.2 st).2) st calls.

(** The call reports to its flush that it made the run terminal. *)
Definition reports_applied (c : attempt * write) (st : flushState) : bool :=
  match c.2 with
  | WFinalize _ p id status f =>
      match c.1 with AttemptOk => (FinalizeStatusCAS p id status (Some f) (fl_db st)).1 | _ => false end
  | _ => false
  end.

(** How many calls of the list report having made the run [k] terminal. *)
Fixpoint applied_count (k : string * string) (calls : list (attempt * write)) (st : flushState) : nat :=
  match calls with
  | [] => 0
  | c :: calls =>
      ((if (reports_applied c st && bool_decide (run_key_of c.2 = Some k))%bool then 1 else 0)
       + applied_count k calls (callWrite c.1 c.2 st).2)%nat
  end.

Lemma reports_not_final c k st :
  run_key_of c.2 = Some k -> row_final (fl_db st) k -> reports_applied c st = false.
Proof.
  intros Hk (r & Hr & Hf). destruct c as [at_ [s|cell p id status f|p id now]]; simpl in *; try done.
  simplify_eq. unfold reports_applied. simpl. destruct at_; [|done..]. unfold FinalizeStatusCAS.
  rewrite Hr. unfold is_final in Hf. by rewrite Hf.
Qed.

Lemma applied_final c k st :
  write_ok c.2 -> run_key_of c.2 = Some k -> reports_applied c st = true ->
  row_final (fl_db (callWrite c.1 c.2 st).2) k.
Proof.
  intros Hw Hk Ha. destruct c as [at_ [s|cell p id status f|p id now]]; simpl in *; try done.
  simplify_eq. unfold reports_applied in Ha. simpl in Ha. destruct at_; try done.
  destruct (FinalizeStatusCAS p id status (Some f) (fl_db st)) as [b db'] eqn:E. simpl in *. subst b.
  apply FinalizeStatusCAS_spec in E as [(_ & r & Hr & _ & ->)|(? & _)]; [|done].
  exists (set_run_status status (Some f) r). simpl. by rewrite lookup_insert_eq.
Qed.

Lemma applied_count_final k calls st : row_final (fl_db st) k -> applied_count k calls st = 0%nat.
Proof.
  revert st. induction calls as [|c calls IH]; intros st Hf; simpl; [done|].
  rewrite IH by (eapply row_final_kept; [apply callWrite_kept|done]).
  destruct (decide (run_key_of c.2 = Some k)) as [Hk|Hk].
  - by rewrite (reports_not_final c k st).
  - rewrite (bool_decide_eq_false_2 _ Hk), andb_false_r. done.
Qed.

(** C6: However the repository calls of concurrent flushes interleave, and
    whichever of them fail or commit without saying so, a run that is terminal in
    the database keeps its status, and at most one finalizing call per run reports
    that it applied, which is what its guarded completion event and its callbacks
    wait for.  The event of cancelling a run the queue does not track is not guarded,
    see [cancel_finished_announced]. *)
Theorem finalize_once calls st k (Hw : Forall (fun c => write_ok c.2) calls) :
  final_kept (fl_db st) (fl_db (runCalls calls st)) /\ (applied_count k calls st <= 1)%nat.
Proof.
  revert st. induction calls as [|c calls IH]; intros st; cbn [applied_count]; [split; [reflexivity|lia]|].
  change (runCalls (c :: calls) st) with (runCalls calls (callWrite c.1 c.2 st).2). inversion Hw as [|? ? Hc Hcs]; subst. destruct (IH Hcs (callWrite c.1 c.2 st).2) as [H1 H2]. split.
  - etrans; [apply callWrite_kept|exact H1].
  - destruct (reports_applied c st) eqn:Er; cbn [andb]; [|lia]. case_bool_decide as Hk; [|lia].
    rewrite applied_count_final; [lia|]. by eapply applied_final.
Qed.

(** ** One write with its retries *)

Lemma persistLoop_calls env tries k b w st :
  exists calls, (persistLoop env tries k b w st).2 = runCalls ((fun a => (a, w)) <$> calls) st /\
    (List.length calls <= tries)%nat.
Proof.
  revert k b st. induction tries as [|tries IH]; intros k b st; cbn [persistLoop];
    [by exists []; split; [reflexivity|simpl; lia]|].
  destruct (callWrite (env k).1 w st) as [ok st1] eqn:E.
  assert (st1 = (callWrite (env k).1 w st).2) as -> by by rewrite E.
  destruct ok; [exists [(env k).1]; split; [reflexivity|simpl; lia]|].
  destruct tries as [|tries]; [exists [(env k).1]; split; [reflexivity|simpl; lia]|].
  destruct (env k).2; [exists [(env k).1]; split; [reflexivity|simpl; lia]|].
  destruct (IH (S k) (b * 2) (callWrite (env k).1 w st).2) as (calls & Hc & Hl).
  destruct (persistLoop env (S tries) (S k) (b * 2) w (callWrite (env k).1 w st).2) as [[n waited] st2].
  exists ((env k).1 :: calls). split; [exact Hc|simpl; lia].
Qed.

Lemma persistLoop_bounds env tries k b w st :
  0 <= b -> (0 < tries)%nat ->
  let '(n, waited, _) := persistLoop env tries k b w st in
  (k < n <= k + tries)%nat /\ 0 <= waited <= b * (2 ^ (Z.of_nat tries - 1) - 1).
Proof.
  revert k b st. induction tries as [|tries IH]; intros k b st Hb Ht; [lia|]. cbn [persistLoop].
  assert (0 <= b * (2 ^ (Z.of_nat (S tries) - 1) - 1)) as Hz.
  { apply Z.mul_nonneg_nonneg; [done|]. assert (0 < 2 ^ (Z.of_nat (S tries) - 1)) by (apply Z.pow_pos_nonneg; lia). lia. }
  destruct (callWrite (env k).1 w st) as [ok st1]. destruct ok; [lia|].
  destruct tries as [|tries]; [lia|]. destruct (env k).2; [lia|].
  specialize (IH (S k) (b * 2) st1 ltac:(lia) ltac:(lia)).
  destruct (persistLoop env (S tries) (S k) (b * 2) w st1) as [[n waited] st2].
  destruct IH as [H1 H2]. split; [lia|].
  replace (Z.of_nat (S (S tries)) - 1) with (Z.succ (Z.of_nat (S tries) - 1)) by lia.
  rewrite Z.pow_succ_r by lia. lia.
Qed.

(** A write is tried between one and five times and waits at most one and
    a half seconds in all between the tries; the wait grows by doubling. *)
Theorem persistWithRetry_bounded env w st :
  let '(n, waited, _) := persistWithRetry env w st in
  (1 <= n <= 5)%nat /\ 0 <= waited <= 1500 * time_Millisecond.
Proof.
  unfold persistWithRetry. pose proof (persistLoop_bounds env persistMaxAttempts 0 persistBackoff w st) as H.
  destruct (persistLoop env persistMaxAttempts 0 persistBackoff w st) as [[n waited] st'].
  destruct H as [H1 H2]; [done|unfold persistMaxAttempts; lia|]. unfold persistMaxAttempts, persistBackoff in *.
  change (Z.of_nat 5 - 1) with 4 in H2. unfold time_Millisecond in *. lia.
Qed.

(** ** A whole flush *)

Lemma callWrite_cell at_ w st c :
  fl_applied (callWrite at_ w st).2 !! c =
    if decide (cell_of w = Some c) then Some (reports_applied (at_, w) st) else fl_applied st !! c.
Proof.
  unfold callWrite, reports_applied. destruct w as [s|cell p id status f|p id now]; simpl.
  - done.
  - destruct (FinalizeStatusCAS p id status (Some f) (fl_db st)) as [b db']. simpl.
    destruct (decide (cell = c)) as [->|Hne].
    + rewrite lookup_insert_eq, decide_True by done. by destruct at_, b.
    + rewrite lookup_insert_ne by done. rewrite decide_False by congruence. done.
  - done.
Qed.

(** The cell of a write says whether its last call made the row terminal. *)
Definition cell_sound (w : write) (st : flushState) : Prop :=
  match w with
  | WFinalize c p id status _ =>
      fl_applied st !! c = Some true ->
      exists r, db_runs (fl_db st) !! (p, id) = Some r /\ run_Status r = status /\ is_final status
  | _ => True
  end.

Lemma callWrite_sound at_ w st : write_ok w -> cell_sound w (callWrite at_ w st).2.
Proof.
  intros Hw. destruct w as [s|c p id status f|p id now]; simpl; try done.
  destruct (FinalizeStatusCAS p id status (Some f) (fl_db st)) as [b db'] eqn:E. simpl.
  rewrite lookup_insert_eq. intros [= H]. apply andb_true_iff in H as [Hok ->].
  destruct at_; try done. apply FinalizeStatusCAS_spec in E as [(_ & r & Hr & _ & ->)|(? & _)]; [|done].
  simpl. rewrite lookup_insert_eq. by eexists.
Qed.

(** A call for another cell keeps the soundness of this one. *)
Lemma callWrite_sound_other at_ w w' st :
  cell_of w <> cell_of w' -> cell_sound w' st -> cell_sound w' (callWrite at_ w st).2.
Proof.
  destruct w' as [s|c p id status f|p id now]; [done| |done]. cbn [cell_sound cell_of]. intros Hne Hs.
  rewrite callWrite_cell, decide_False by done. intros Hc. destruct (Hs Hc) as (r & Hr & E & Hf).
  destruct (callWrite_kept at_ w st (p, id) r Hr) as (r' & Hr' & E'); [by rewrite E|].
  exists r'. split; [done|]. by rewrite E'.
Qed.

Lemma persist_sound env w st : write_ok w -> cell_sound w (persistWithRetry env w st).2.
Proof.
  intros Hw. unfold persistWithRetry.
  assert (forall tries k b st, (0 < tries)%nat -> cell_sound w (persistLoop env tries k b w st).2) as H.
  { induction tries as [|tries IH]; intros k b st0 Ht; [lia|]. cbn [persistLoop].
    destruct (callWrite (env k).1 w st0) as [ok st1] eqn:E.
    assert (cell_sound w st1) as Hs by (pose proof (callWrite_sound (env k).1 w st0 Hw) as Hx; by rewrite E in Hx).
    destruct ok; [done|]. destruct tries as [|tries]; [done|]. destruct (env k).2; [done|].
    specialize (IH (S k) (b * 2) st1 ltac:(lia)). by destruct (persistLoop env (S tries) (S k) (b * 2) w st1) as [[n t] st2]. }
  apply H. unfold persistMaxAttempts. lia.
Qed.

Lemma persist_sound_other env w w' st :
  cell_of w <> cell_of w' -> cell_sound w' st -> cell_sound w' (persistWithRetry env w st).2.
Proof.
  intros Hne Hs. unfold persistWithRetry.
  destruct (persistLoop_calls env persistMaxAttempts 0 persistBackoff w st) as (calls & -> & _).
  revert st Hs. induction calls as [|a calls IH]; intros st Hs; simpl; [done|]. by apply IH, callWrite_sound_other.
Qed.

Lemma flushWrites_sound_other env i ws w st :
  cell_of w <> None -> (forall w', w' ∈ ws -> cell_of (w_fn w') <> cell_of w) ->
  cell_sound w st -> cell_sound w (flushWrites env i ws st).
Proof.
  intros Hc. revert i st. induction ws as [|w1 ws IH]; intros i st Hws Hs; simpl; [done|].
  apply IH; [set_solver|]. apply persist_sound_other; [|done]. apply Hws. by left.
Qed.

Lemma flushWrites_sound env ws w st :
  Forall (fun w => write_ok (w_fn w)) ws -> NoDup (cells ws) -> w ∈ ws ->
  cell_sound (w_fn w) (flushWrites env 0 ws st).
Proof.
  generalize 0%nat as i. intros i Hok Hnd Hin. destruct (cell_of (w_fn w)) as [c|] eqn:Ec;
    [|by destruct (w_fn w)]. revert i st. apply list_elem_of_split in Hin as (l1 & l2 & ->).
  induction l1 as [|w1 l1 IH]; intros i st; simpl.
  - apply flushWrites_sound_other; [by rewrite Ec| |].
    + intros w' Hw'. rewrite Ec. intros Hc. simpl in Hnd. rewrite Ec in Hnd. apply NoDup_cons in Hnd as [Hn _].
      apply Hn. unfold cells. apply list_elem_of_omap. eauto.
    + apply persist_sound. by apply Forall_inv in Hok.
  - simpl in Hok, Hnd. apply Forall_cons in Hok as [_ Hok]. apply IH; [|done].
    destruct (cell_of (w_fn w1)); [by apply NoDup_cons in Hnd as [_ ?]|done].
Qed.

(** The run whose end an effect announces, with the status it names and the cell
    that guards it: the events of the end of a run ([run.completed], [run.canceled],
    [run.expired]), guarded or not, and the two callbacks. *)
Record announcement := mkAnnounced { an_guard : option nat; an_projectID : string; an_runID : string; an_status : string }.

Definition announces (f : effect) : option announcement :=
  match f with
  | EffEmit g p ty ((_, FStr id) :: rest) =>
      if run_end_event ty then
        Some (mkAnnounced g p id (match rest with (_, FStr status) :: _ => status | _ => StatusCanceled end))
      else None
  | EffOnRunOutcome c p id status _ => Some (mkAnnounced (Some c) p id status)
  | EffOnRunSuccess c p id _ => Some (mkAnnounced (Some c) p id StatusSuccess)
  | _ => None
  end.

(** Every announcement has its write: a guarded one that of its cell, an unguarded
    one the cancellation of a run that is not tracked. *)
Lemma effect_ok_announces ws f a :
  effect_ok ws f -> announces f = Some a ->
  match an_guard a with
  | Some c => exists desc at_, mkWrite desc (WFinalize c (an_projectID a) (an_runID a) (an_status a) at_) ∈ ws
  | None => an_status a = StatusCanceled /\
      exists desc at_, mkWrite desc (WCancelUntracked (an_projectID a) (an_runID a) at_) ∈ ws
  end.
Proof.
  destruct f as [[c'|] p' t l|c' p' id' status' pl|c' p' id' pl]; simpl.
  - intros (desc & id' & status' & at_ & Hin & ->). simpl. case_match; [|done]. intros [= <-]. simpl. eauto.
  - intros H. destruct (run_end_event t) eqn:Et; [|by repeat case_match].
    destruct (H eq_refl) as (desc & id & at_ & Hin & -> & ->). intros [= <-]. simpl. eauto.
  - intros (desc & at_ & Hin) [= <-]. simpl. eauto.
  - intros (desc & at_ & Hin) [= <-]. simpl. eauto.
Qed.

(** The end of a run that an observer is told of. *)
Definition announced_end (o : obs) : option (string * string * string) :=
  match o with
  | Published _ p ty ((_, FStr id) :: rest) =>
      if run_end_event ty then
        Some (p, id, match rest with (_, FStr status) :: _ => status | _ => StatusCanceled end)
      else None
  | CalledOnRunOutcome p id status _ => Some (p, id, status)
  | CalledOnRunSuccess p id _ => Some (p, id, StatusSuccess)
  | _ => None
  end.

(** What an effect makes observable, and when. *)
Lemma runEffect_observes ap q f : exists l, rt_trace (q_rt (runEffect ap q f)) = rt_trace (q_rt q) ++ l /\
  forall o end_, o ∈ l -> announced_end o = Some end_ ->
    exists a, announces f = Some a /\ guarded ap (an_guard a) = true /\ end_ = (an_projectID a, an_runID a, an_status a).
Proof.
  destruct f as [g p ty fields|c p id status pl|c p id pl]; cbn [runEffect].
  - destruct (guarded ap g) eqn:Eg; [|exists []; rewrite app_nil_r; by split; [|intros ? ? ?%not_elem_of_nil]].
    unfold emit. case_match; [|exists []; rewrite app_nil_r; by split; [|intros ? ? ?%not_elem_of_nil]].
    eexists. split; [reflexivity|]. intros o end_ ->%list_elem_of_singleton. simpl.
    destruct fields as [|[k [id|z]] rest]; [done| |done]. case_match; [|done]. intros [= <-]. eexists. split; [reflexivity|done].
  - destruct (guarded ap (Some c)) eqn:Eg; [|exists []; rewrite app_nil_r; by split; [|intros ? ? ?%not_elem_of_nil]].
    eexists. split; [reflexivity|]. intros o end_ ->%list_elem_of_singleton [= <-]. eexists. split; [reflexivity|done].
  - destruct (guarded ap (Some c)) eqn:Eg; [|exists []; rewrite app_nil_r; by split; [|intros ? ? ?%not_elem_of_nil]].
    eexists. split; [reflexivity|]. intros o end_ ->%list_elem_of_singleton [= <-]. eexists. split; [reflexivity|done].
Qed.

Lemma runEffects_observe ap fs q : exists l, rt_trace (q_rt (foldl (runEffect ap) q fs)) = rt_trace (q_rt q) ++ l /\
  forall o end_, o ∈ l -> announced_end o = Some end_ ->
    exists f a, f ∈ fs /\ announces f = Some a /\ guarded ap (an_guard a) = true /\
      end_ = (an_projectID a, an_runID a, an_status a).
Proof.
  revert q. induction fs as [|f fs IH]; intros q; simpl.
  - exists []. rewrite app_nil_r. by split; [|intros ? ? ?%not_elem_of_nil].
  - destruct (runEffect_observes ap q f) as (l1 & E1 & H1). destruct (IH (runEffect ap q f)) as (l2 & E2 & H2).
    exists (l1 ++ l2). split; [by rewrite E2, E1, app_assoc|]. intros o end_ [Ho|Ho]%elem_of_app He.
    + destruct (H1 o end_ Ho He) as (a & ? & ? & ?). exists f, a. split; [by left|done].
    + destruct (H2 o end_ Ho He) as (f' & a & ? & ? & ? & ?). exists f', a. split; [by right|done].
Qed.

Section Durable.
Context (mapOrder : nat -> list string -> list string).
Context (marshalStep : Step -> option string) (marshalPipeline : Pipeline -> option string).

(** C7: What the queue announces about a finished run is durable.  Take any
    locked section of a reachable queue and flush what it deferred, with any
    failures: if the flush publishes an event of the end of a run
    ([run.completed], [run.canceled], [run.expired]) or runs one of its callbacks,
    then the run's row is in the database with the announced status, or the event is
    that of cancelling a run the queue does not track, which is published whatever
    became of its write ([cancel_finished_announced]). *)
Theorem run_event_durable q o env st projectID runID status
    (Hq : reach mapOrder marshalStep marshalPipeline q) (Ho : op_ok q o) :
  let r := runOp mapOrder marshalStep marshalPipeline o q in
  let flush := flushPending env r.1 st r.2 in
  exists l, rt_trace (q_rt flush.2) = rt_trace (q_rt r.2) ++ l /\
  forall told, told ∈ l -> announced_end told = Some (projectID, runID, status) ->
    (exists row, db_runs (fl_db flush.1) !! (projectID, runID) = Some row /\ run_Status row = status) \/
    (status = StatusCanceled /\
     exists desc at_, mkWrite desc (WCancelUntracked projectID runID at_) ∈ po_writes r.1).
Proof.
  destruct (reach_ok mapOrder marshalStep marshalPipeline q Hq) as (Hr & Hm & _ & _ & Hd).
  destruct (runOp_outcome mapOrder marshalStep marshalPipeline o q Hr Hm Ho Hd) as [(n & H1 & H2 & _ & H4) _].
  cbv zeta. destruct (runOp mapOrder marshalStep marshalPipeline o q) as [out q1]. simpl in H1, H2, H4.
  unfold flushPending. cbv zeta. simpl. set (st' := flushWrites env 0 (po_writes out) st).
  destruct (runEffects_observe (fl_applied st') (po_effects out) q1) as (l & El & Hl). exists l. split; [exact El|].
  intros told Ht Ha. destruct (Hl _ _ Ht Ha) as (f & a & Hf & Haf & Hc & [= -> -> ->]).
  rewrite Forall_forall in H4. pose proof (effect_ok_announces _ _ _ (H4 _ Hf) Haf) as Hw.
  destruct (an_guard a) as [c|]; [left|by right]. destruct Hw as (desc & at_ & Hin).
  pose proof (flushWrites_sound env _ _ st H1 H2 Hin) as Hs. simpl in Hs, Hc. fold st' in Hs.
  destruct (fl_applied st' !! c) as [[]|]; try done. destruct (Hs eq_refl) as (r & Hrow & E & _). eauto.
Qed.
End Durable.

(** ** Concrete flushes *)

Definition demo_row : RunRow :=
  mkRunRow "r" "p" "" "" "demo" StatusRunning 0 None None "" "" "" "".
Definition demo_db : DB := mkDB {[ ("p", "r") := demo_row ]} ∅.
Definition all_ok (i k : nat) : attempt * bool := (AttemptOk, false).
Definition all_lost (i k : nat) : attempt * bool := (AttemptLost, false).
(** Every first try commits but reports an error. *)
Definition first_unclear (i k : nat) : attempt * bool :=
  (if bool_decide (k = 0%nat) then AttemptApplied else AttemptOk, false).

(** The last step of the diamond is done: the run's end is announced, and its row
    says so. *)
Definition demo_watched : Queue := setCallbacks true true (SetEventPublisher true demo_q4).

Lemma demo_watched_reach : reach demo_order demo_json demo_json demo_watched.
Proof.
  apply (reach_op demo_order demo_json demo_json (OpSetCallbacks true true) (SetEventPublisher true demo_q4)); [|exact I].
  apply (reach_op demo_order demo_json demo_json (OpSetEventPublisher true) demo_q4 demo_q4_reach I).
Qed.

Definition demo_done_op : op := demo_complete "d" "done" 1.
Definition demo_done_out : pendingOutcome * Queue := runOp demo_order demo_json demo_json demo_done_op demo_watched.
Definition demo_flushed : flushState * Queue := flushPending all_ok demo_done_out.1 (mkFlush demo_db ∅) demo_done_out.2.

Lemma run_event_durable_witness :
  Published false "p" "run.completed" (finalFields "r" StatusSuccess) ∈ rt_trace (q_rt demo_flushed.2) /\
  exists l, rt_trace (q_rt demo_flushed.2) = rt_trace (q_rt demo_done_out.2) ++ l /\
  forall told, told ∈ l -> announced_end told = Some ("p"%string, "r"%string, StatusSuccess) ->
    (exists r, db_runs (fl_db demo_flushed.1) !! ("p", "r")%string = Some r /\ run_Status r = StatusSuccess) \/
    (StatusSuccess = StatusCanceled /\
     exists desc at_, mkWrite desc (WCancelUntracked "p" "r" at_) ∈ po_writes demo_done_out.1).
Proof.
  split; [vm_compute; repeat constructor|].
  exact (run_event_durable demo_order demo_json demo_json demo_watched demo_done_op all_ok (mkFlush demo_db ∅) "p" "r"
    StatusSuccess demo_watched_reach I).
Defined.

(** Two flushes that both finalize the run, the first of them unclear. *)
Definition demo_calls : list (attempt * write) :=
  [(AttemptApplied, WFinalize 0 "p" "r" StatusSuccess 1); (AttemptOk, WFinalize 1 "p" "r" StatusCanceled 2);
   (AttemptOk, WFinalize 0 "p" "r" StatusSuccess 1)].

Lemma finalize_once_witness :
  final_kept demo_db (fl_db (runCalls demo_calls (mkFlush demo_db ∅))) /\
  (applied_count ("p", "r")%string demo_calls (mkFlush demo_db ∅) <= 1)%nat.
Proof.
  apply (finalize_once demo_calls (mkFlush demo_db ∅) ("p", "r")%string).
  repeat constructor.
Defined.

(** An event of a step does not wait for its row: when every try of the
    write fails, the flush gives up and still publishes [step.failed], with no
    row in the database. *)
Example step_event_not_durable :
  let q := SetEventPublisher true demo_q1 in
  let '(out, q') := (runOp demo_order demo_json demo_json (demo_complete "a" "failed" 1) q) in
  let '(st, q'') := flushPending all_lost out (mkFlush demo_db ∅) q' in
  db_steps (fl_db st) = ∅ /\
  exists fields, Published false "p" "step.failed" fields ∈ rt_trace (q_rt q'').
Proof. vm_compute. split; [reflexivity|]. eexists. repeat constructor. Qed.

(** Whether a run's end was announced. *)
Definition announced (o : obs) : bool :=
  match o with
  | Published _ _ ty _ => String.eqb ty "run.completed"
  | CalledOnRunOutcome _ _ _ _ | CalledOnRunSuccess _ _ _ => true
  | _ => false
  end.

(** The announcement of a finished run can be lost: when the first try of
    its write commits but reports an error, the retry finds the row already
    terminal, the cell stays unset, and neither the event nor any callback
    runs, although the row says success. *)
Example run_event_lost :
  let q := setCallbacks true true (SetEventPublisher true demo_q4) in
  let '(out, q') := (runOp demo_order demo_json demo_json (demo_complete "d" "done" 1) q) in
  let '(st, q'') := flushPending first_unclear out (mkFlush demo_db ∅) q' in
  run_Status <$> db_runs (fl_db st) !! ("p", "r")%string = Some StatusSuccess /\
  List.filter announced (rt_trace (q_rt q'')) = [].
Proof. vm_compute. split; reflexivity. Qed.

(** Cancelling a run that has succeeded is announced, although the row keeps its
    status: the queue no longer tracks the run, the guarded update of the row does
    not apply, and nothing looks at its answer before the event. *)
Example cancel_finished_announced :
  let q := SetEventPublisher true (demo_run [demo_complete "d" "done" 1] demo_q4) in
  let '(out, q') := runOp demo_order demo_json demo_json (OpCancel 9 "p" "r") q in
  let '(st, q'') := flushPending all_ok out (mkFlush (FinalizeStatusCAS "p" "r" StatusSuccess (Some 8) demo_db).2 ∅) q' in
  run_Status <$> db_runs (fl_db st) !! ("p", "r")%string = Some StatusSuccess /\
  Published false "p" "run.canceled" [("run_id", FStr "r")] ∈ rt_trace (q_rt q'').
Proof. vm_compute. split; [reflexivity|]. repeat constructor. Qed.
