(* ===== verification/QueueSpec.v ===== *)
(** * What the queue does with a result, a timer and an id

    The functional behaviour of single operations: which results are accepted
    and what an ignored one changes, what an accepted one does to the steps of
    its run and to the run, how a failure spreads downstream, how task ids
    round-trip, which deadline a started step gets, and two schedules in which
    a timer or a result reaches the wrong attempt. *)

From S2P Require Import Prelude Pipeline Dag RunStore Queue QueueInv QueueProgress.
From stdpp Require Import options.
#[local] Open Scope Z_scope.

(** ** Task ids *)

(** Splitting a task id is the inverse of making one, exactly for the run
    ids without a colon; the step name may contain colons. *)
Theorem task_id_roundtrip id runID stepName :
  SplitTaskID id = Ok (runID, stepName) <-> id = MakeTaskID runID stepName /\ str_mem colon runID = false.
Proof.
  unfold SplitTaskID, MakeTaskID. split.
  - destruct (str_index colon id) as [i|] eqn:E; [|done]. intros [= <- <-]. by apply str_index_Some in E.
  - intros [-> H]. change (":" +:+ stepName)%string with (String colon stepName).
    by rewrite (str_index_app _ _ _ H), str_take_app, str_drop_S_app.
Qed.

(** ** Which results are accepted *)

(** The attempt a result is for: workers that predate attempts send 0. *)
Definition attempt_of (result : TaskResult) : Z := if tr_Attempt result =? 0 then 1 else tr_Attempt result.

(** The result comes from the runtime that owns the task, when one does, and
    is for the attempt in progress (for any attempt up to it, when the entry
    counts none). *)
Definition accepted (owner : string -> string) (result : TaskResult) (q : Queue)
    (runID n : string) (ref : nat) (en : taskEntry) : Prop :=
  SplitTaskID (tr_TaskID result) = Ok (runID, n) /\ q_runs q !! runID = Some ref /\
  getEntry (ref, n) q = Some en /\ terminalStatus (te_status en) = false /\
  (resultOwner owner q en (tr_TaskID result) = "" \/
   tr_RuntimeID result = resultOwner owner q en (tr_TaskID result)) /\
  (attempt_of result = te_attempts en \/ te_attempts en <= 0 /\ attempt_of result <= te_attempts en).

Lemma getEntry_run ref n q en : getEntry (ref, n) q = Some en -> exists r, q_heap q !! ref = Some r.
Proof. unfold getEntry. simpl. destruct (q_heap q !! ref); [eauto|done]. Qed.

Lemma take_drained q : drained q -> takePendingLocked q = (noOutcome, q).
Proof. intros [H1 H2]. destruct q. simpl in *. subst. done. Qed.

Section Spec.
Variable mapOrder : nat -> list string -> list string.
Variable marshalStep : Step -> option string.
Variable marshalPipeline : Pipeline -> option string.
Notation reach := (reach mapOrder marshalStep marshalPipeline).

Lemma complete_accepted now owner result q runID n ref en :
  accepted owner result q runID n ref en ->
  exists r, q_heap q !! ref = Some r /\
    completeLocked mapOrder now owner result q =
      (None, true, takePendingLocked (applyResult mapOrder now ref (ref, n) r result (attempt_of result) n q)).
Proof.
  intros (Hs & Hr & He & Ht & Ho & Ha). destruct (getEntry_run _ _ _ _ He) as [r Hh]. exists r. split; [done|].
  unfold completeLocked. rewrite Hs, Hr, Hh, He. cbv zeta. rewrite Ht. fold (attempt_of result).
  assert ((negb (String.eqb (resultOwner owner q en (tr_TaskID result)) "") && String.eqb (tr_RuntimeID result) "")%bool = false) as ->.
  { destruct Ho as [-> | ->]; [done|]. by destruct (String.eqb _ _). }
  assert ((negb (String.eqb (tr_RuntimeID result) "") && negb (String.eqb (resultOwner owner q en (tr_TaskID result)) "") &&
     negb (String.eqb (tr_RuntimeID result) (resultOwner owner q en (tr_TaskID result))))%bool = false) as ->.
  { destruct Ho as [-> | ->]; [by rewrite andb_false_r|]. by rewrite String.eqb_refl, andb_false_r. }
  assert (((0 <? te_attempts en) && (attempt_of result <? te_attempts en))%bool = false) as ->.
  { destruct Ha; apply andb_false_iff; [right|left]; lia. }
  assert (te_attempts en <? attempt_of result = false) as -> by lia. done.
Qed.

Lemma complete_cases now owner result q :
  drained q -> (exists runID n ref en, accepted owner result q runID n ref en) \/
  exists err, completeLocked mapOrder now owner result q = (err, false, (noOutcome, q)).
Proof.
  intros Hd. unfold completeLocked. rewrite (take_drained q Hd).
  destruct (SplitTaskID (tr_TaskID result)) as [[runID n]|err] eqn:Hs; [|eauto].
  destruct (q_runs q !! runID) as [ref|] eqn:Hr; [|eauto].
  destruct (q_heap q !! ref) as [r|]; [|eauto]. destruct (getEntry (ref, n) q) as [en|] eqn:He; [|eauto].
  cbv zeta. fold (attempt_of result).
  destruct (negb (String.eqb _ "") && String.eqb (tr_RuntimeID result) "")%bool eqn:H1; [eauto|].
  destruct (negb (String.eqb (tr_RuntimeID result) "") && _ && _)%bool eqn:H2; [eauto|].
  destruct (terminalStatus (te_status en)) eqn:Ht; [eauto|].
  destruct ((0 <? te_attempts en) && _)%bool eqn:H3; [eauto|].
  destruct (te_attempts en <? attempt_of result) eqn:H4; [eauto|].
  left. exists runID, n, ref, en. split_and!; try done.
  - apply andb_false_iff in H1. rewrite !andb_false_iff, !negb_false_iff, !String.eqb_eq in *.
    rewrite String.eqb_neq in H1. naive_solver.
  - apply andb_false_iff in H3. lia.
Qed.

(** A result that numbers its attempt, or leaves it out, is only accepted for the
    attempt in progress. *)
Lemma accepted_attempt owner result q runID n ref en :
  accepted owner result q runID n ref en -> 0 <= tr_Attempt result ->
  te_attempts en = attempt_of result /\ 1 <= te_attempts en.
Proof.
  intros (_ & _ & _ & _ & _ & Ha) Hn. unfold attempt_of in *. destruct (tr_Attempt result =? 0) eqn:E; to_prop; lia.
Qed.

(** C4: A result is applied exactly when it is [accepted]: by the runtime that
    owns the task, when one does, for a step that is not over.  If its attempt is
    not negative (0, from workers that number none, counts as 1), it is applied only
    for exactly the attempt in progress; the check lets a negative attempt through
    to a step that counts none, see [negative_attempt_completes_pending].  An error
    is never returned for an applied result, and a result that is ignored or refused
    leaves the queue as it was and defers no write and no event. *)
Theorem complete_applied_iff now owner result q (Hq : reach q) :
  let '(err, applied, (out, q')) := completeLocked mapOrder now owner result q in
  (applied = true <-> exists runID n ref en, accepted owner result q runID n ref en) /\
  (applied = true -> 0 <= tr_Attempt result -> exists runID n ref en,
     accepted owner result q runID n ref en /\ te_attempts en = attempt_of result /\ 1 <= te_attempts en) /\
  (applied = true -> err = None) /\
  (applied = false -> out = noOutcome /\ q' = q).
Proof.
  apply reach_ok in Hq as (_ & _ & _ & _ & Hd).
  destruct (complete_cases now owner result q Hd) as [Ha|[err Hc]].
  - pose proof Ha as (runID & n & ref & en & H). destruct (complete_accepted now _ _ _ _ _ _ _ H) as (r & _ & ->).
    destruct (takePendingLocked _) as [out q'] eqn:E. split_and!; try done. intros _ Hn. exists runID, n, ref, en.
    split; [exact H|]. by eapply accepted_attempt.
  - rewrite Hc. split_and!; try done. split; [done|]. intros (runID & n & ref & en & H).
    destruct (complete_accepted now _ _ _ _ _ _ _ H) as (r & _ & E). congruence.
Qed.
End Spec.

(** ** What an accepted result does *)

(** The attempts the entry counts once the result is taken in. *)
Definition counted (result : TaskResult) (en : taskEntry) : Z :=
  if te_attempts en =? 0 then attempt_of result else te_attempts en.

(** The steps of the run before and after: a success completes the step and
    promotes its dependents; a failure of an attempt that is not the last
    makes the step active again; the last failure fails the step and skips
    what depends on it. *)
Definition result_effect (result : TaskResult) (en : taskEntry) (n : string) (v v' : view) : Prop :=
  let deps := s_DependsOn (te_step en) in
  if String.eqb (tr_Status result) TaskStatusDone then promoted (<[n := (taskDone, deps)]> v) v'
  else if counted result en <? te_maxAttempts en then
    exists s, active s /\ v' = <[n := (s, deps)]> v
  else skipped_from n (<[n := (taskFailed, deps)]> v) v'.

Lemma viewOf_finalizeIf now r ref q : viewOf ref (finalizeRunIfAllTerminalLocked now r q) = viewOf ref q.
Proof. unfold finalizeRunIfAllTerminalLocked. case_match; [apply viewOf_finalize|done]. Qed.

(** What finalizing the run when all its steps have ended does. *)
Lemma finalizeIf_effect now ref q r :
  q_heap q !! ref = Some r ->
  let q' := finalizeRunIfAllTerminalLocked now ref q in
  let ended := forall n s, st (viewOf ref q) n s -> s = taskDone \/ s = taskFailed \/ s = taskSkipped in
  (ended -> q_runs q' = delete (re_runID r) (q_runs q) /\
     exists desc cell status, mkWrite desc (WFinalize cell (re_projectID r) (re_runID r) status now) ∈ q_pendingWrites q' /\
       (status = StatusFailed <-> exists n, st (viewOf ref q) n taskFailed) /\
       (status = StatusSuccess <-> ~ exists n, st (viewOf ref q) n taskFailed)) /\
  (~ ended -> q' = q).
Proof.
  intros Hr q' ended. unfold q', finalizeRunIfAllTerminalLocked.
  assert (allTerminal (runTasks ref q) = true <-> ended) as He by apply allTerminal_view.
  destruct (allTerminal (runTasks ref q)) eqn:Et; [|split; [intros Hx%He; done|done]].
  split; [intros _|intros Hn; by destruct Hn; apply He].
  assert (anyFailed (runTasks ref q) = true <-> exists n, st (viewOf ref q) n taskFailed) as Hf.
  { unfold anyFailed. rewrite existsb_exists. setoid_rewrite <- list_elem_of_In. split.
    - intros ([n en] & Hin%elem_of_map_to_list & Hs). simpl in Hs. to_prop. exists n, (s_DependsOn (te_step en)).
      unfold viewOf. by rewrite lookup_fmap, Hin; simpl; unfold view_entry; rewrite Hs.
    - intros (n & deps & Hn). unfold viewOf in Hn. rewrite lookup_fmap in Hn. apply fmap_Some in Hn as (en & Hen & [= Hs _]).
      exists (n, en). split; [by apply elem_of_map_to_list|]. simpl. by rewrite <- Hs. }
  destruct (finalize_fields now ref (if anyFailed (runTasks ref q) then StatusFailed else StatusSuccess) "run.completed" q)
    as [_ Hrs]. unfold rid in Hrs. rewrite Hr in Hrs. split; [exact Hrs|].
  exists ("run finalized " +:+ re_runID r)%string, (rt_nextCell (q_rt q)), (if anyFailed (runTasks ref q) then StatusFailed else StatusSuccess).
  split.
  - unfold finalizeRunLocked, releaseRun. rewrite Hr. repeat case_match; simpl; set_solver.
  - rewrite <- Hf. destruct (anyFailed (runTasks ref q)); split; split; done.
Qed.

Section Effect.
Variable mapOrder : nat -> list string -> list string.
Hypothesis mapOrder_perm : forall seed l, mapOrder seed l ≡ₚ l.
Variable marshalStep : Step -> option string.
Variable marshalPipeline : Pipeline -> option string.
Notation reach_live := (reach_live mapOrder marshalStep marshalPipeline).

(** An operation on one run that ends by finalizing it when it is over:
    [P] describes the steps of the run afterwards. *)
Definition then_finalize (now : Z) (ref : nat) (q : Queue) (P : view -> Prop) (q' : Queue) : Prop :=
  exists q2, q' = finalizeRunIfAllTerminalLocked now ref q2 /\
    touches ref q q2 /\ qrel (S ref) q q2 /\ P (viewOf ref q2).

Lemma then_finalize_trans now ref q q1 P q' :
  touches ref q q1 -> qrel (S ref) q q1 -> then_finalize now ref q1 P q' -> then_finalize now ref q P q'.
Proof. intros H1 H2 (q2 & -> & H3 & H4 & H5). exists q2. split_and!; try done; by etrans. Qed.

(** A run with an active step is not finalized. *)
Lemma not_finalized now ref n s deps v q :
  active s -> viewOf ref q = <[n := (s, deps)]> v -> finalizeRunIfAllTerminalLocked now ref q = q.
Proof.
  intros Ha Hv. unfold finalizeRunIfAllTerminalLocked. destruct (allTerminal (runTasks ref q)) eqn:Et; [|done].
  rewrite allTerminal_view in Et. destruct (Et n s) as [->|[->| ->]]; [|by destruct Ha as [?|[?|[?|?]]]..].
  exists deps. by rewrite Hv, lookup_insert_eq.
Qed.

Lemma failOrRetry_effect now ref n msg stt ed q id en :
  ids_ok q -> getEntry (ref, n) q = Some en -> on_step q ref id n (te_status en) (s_DependsOn (te_step en)) ->
  then_finalize now ref q (fun v' =>
    if te_attempts en <? te_maxAttempts en
    then exists s, active s /\ v' = <[n := (s, s_DependsOn (te_step en))]> (viewOf ref q)
    else skipped_from n (<[n := (taskFailed, s_DependsOn (te_step en))]> (viewOf ref q)) v')
    (failOrRetryLocked mapOrder now ref (ref, n) msg stt ed q).
Proof using mapOrder_perm.
  intros Hi He H. set (deps := s_DependsOn (te_step en)) in *. destruct (getEntry_run _ _ _ _ He) as [r Hh].
  pose proof (os_live _ _ _ _ _ _ H) as Hlive.
  assert (forall f to, (forall en, view_entry (f en) = view_entry en) ->
    touches ref q (updEntry (ref, n) f (transition (ref, n) to (stopEntryTimerLocked (ref, n) q))) /\
    viewOf ref (updEntry (ref, n) f (transition (ref, n) to (stopEntryTimerLocked (ref, n) q))) =
      <[n := (to, deps)]> (viewOf ref q)) as Hst.
  { intros f to Hf. split; [apply touches_stopped|by eapply view_stopped]. }
  pose proof (qrel_failOrRetry mapOrder (S ref) now ref (ref, n) msg stt ed q) as Hrel. rewrite He in Hrel.
  specialize (Hrel ltac:(by intros ? [= <-])). revert Hrel.
  unfold failOrRetryLocked. rewrite Hh, He. cbv zeta. destruct (te_attempts en <? te_maxAttempts en) eqn:Em; intros Hrel.
  - match goal with |- then_finalize _ _ _ _ (scheduleRetryLocked now _ ?a) => set (q1 := a) in * end.
    destruct (Hst (fun en => te_set_leaseAt None (te_set_startedAt None (te_set_runtime "" en))) taskRetrying) as [Ht1 Hv1]; [done|].
    change (viewOf ref (updEntry _ _ _)) with (viewOf ref q1) in Hv1.
    destruct (viewOf_scheduleRetry now (ref, n) q1 deps) as (s & Hact & Hv2); [simpl; by rewrite Hv1, lookup_insert_eq|].
    simpl in Hv2. rewrite Hv1, insert_insert_eq in Hv2. exists (scheduleRetryLocked now (ref, n) q1). split_and!.
    + symmetry. by eapply not_finalized.
    + etrans; [|apply (touches_scheduleRetry now (ref, n))]. etrans; [exact Ht1|by apply touches_same].
    + exact Hrel.
    + eauto.
  - rewrite (ids_name _ _ _ _ Hi He).
    match goal with |- then_finalize _ _ _ _ (finalizeRunIfAllTerminalLocked now ref (skipDownstream _ _ _ ?a)) => set (q1 := a) end.
    destruct (Hst (fun en => te_set_leaseAt None (te_set_startedAt None en)) taskFailed) as [Ht1 Hv1]; [done|].
    change (viewOf ref (updEntry _ _ _)) with (viewOf ref q1) in Hv1.
    assert (qrel (S ref) q q1) as Hq1.
    { unfold q1. do 2 qstep. qquiet. apply qrel_stop_transition. rewrite He. intros ? [= <-] _. by constructor. }
    eexists. split_and!; [reflexivity| | |].
    + etrans; [|apply touches_skip]. etrans; [exact Ht1|by apply touches_same].
    + etrans; [exact Hq1|apply qrel_skipDownstream].
    + rewrite <- Hv1. apply skipDownstream_spec; [done|]. by apply (qr_ids _ _ _ Hq1).
Qed.

(** The result is taken in: the reservation, the attempt, the event. *)
Lemma takeIn_effect ref n r result k q id en :
  ids_ok q -> getEntry (ref, n) q = Some en -> on_step q ref id n (te_status en) (s_DependsOn (te_step en)) ->
  k <= te_attempts en ->
  let f := fun en => if te_attempts en =? 0 then te_set_attempts k en else en in
  let q1 := emit (re_projectID r) "step.reported"
    [("run_id", FStr (re_runID r)); ("step", FStr n); ("task_id", FStr (tr_TaskID result)); ("status", FStr (tr_Status result))]
    (updEntry (ref, n) f (releaseTask (tr_TaskID result) q)) in
  getEntry (ref, n) q1 = Some (f en) /\ same_sched q q1 /\ touches ref q q1 /\ qrel (S ref) q q1.
Proof.
  intros Hi He H Hk f q1. split_and!.
  - unfold q1. by rewrite getEntry_emit, getEntry_updEntry_eq, getEntry_releaseTask, He.
  - unfold q1. etrans; [|apply same_emit]. etrans; [apply same_releaseTask|]. apply same_quiet.
    intros en'. unfold f. by case_match.
  - unfold q1. etrans; [|apply touches_emit]. etrans; [apply touches_releaseTask|]. apply (touches_upd (ref, n)).
  - unfold q1. qstep. etrans; [apply qrel_releaseTask|]. apply qrel_updEntry.
    rewrite getEntry_releaseTask, He. intros ? [= <-]. unfold f. destruct (te_attempts en =? 0) eqn:Ea; to_prop.
    + split; [by repeat split|]. simpl. rewrite Ea. constructor; [apply (os_live _ _ _ _ _ _ H)|lia].
    + split; [by repeat split|constructor].
Qed.

Lemma applyResult_effect now ref n r result q id en :
  ids_ok q -> getEntry (ref, n) q = Some en -> on_step q ref id n (te_status en) (s_DependsOn (te_step en)) ->
  attempt_of result <= te_attempts en ->
  then_finalize now ref q (result_effect result en n (viewOf ref q))
    (applyResult mapOrder now ref (ref, n) r result (attempt_of result) n q).
Proof using mapOrder_perm.
  intros Hi He H Hk. destruct (takeIn_effect ref n r result _ q id en Hi He H Hk) as (He1 & Hs1 & Ht1 & Hq1).
  set (f := fun en => if te_attempts en =? 0 then te_set_attempts (attempt_of result) en else en) in *.
  assert (te_status (f en) = te_status en /\ te_step (f en) = te_step en /\ te_maxAttempts (f en) = te_maxAttempts en /\
    te_attempts (f en) = counted result en) as (Ef1 & Ef2 & Ef3 & Ef4).
  { unfold f, counted. by case_match. }
  unfold applyResult. cbv zeta. fold f. revert He1 Hs1 Ht1 Hq1.
  match goal with |- context [emit ?p ?t ?l (updEntry (ref, n) f ?q0)] => generalize (emit p t l (updEntry (ref, n) f q0)) end.
  intros q1 He1 Hs1 Ht1 Hq1. apply (then_finalize_trans now ref q q1); [done..|].
  pose proof (on_step_same _ _ _ _ _ _ _ Hs1 H) as H1. destruct Hs1 as (_ & Ev & _). rewrite <- Ev. unfold result_effect.
  change (status_string taskDone) with TaskStatusDone.
  destruct (String.eqb (tr_Status result) TaskStatusDone).
  2: { rewrite <- Ef4, <- Ef3, <- Ef2. eapply failOrRetry_effect; [by apply (qr_ids _ _ _ Hq1)|exact He1|].
       rewrite Ef1, Ef2. exact H1. }
  set (q2 := updEntry (ref, n) _ (transition _ taskDone _)).
  assert (viewOf ref q2 = <[n := (taskDone, s_DependsOn (te_step en))]> (viewOf ref q1)) as Hv2 by by eapply view_stopped.
  destruct (getEntry (ref, n) q2) as [en2|] eqn:E2.
  2: { assert (viewOf ref q2 !! n = None) as Hc by by rewrite lookup_view, E2.
       rewrite Hv2, lookup_insert_eq in Hc. done. }
  assert (qrel (S ref) q1 q2) as Hq2.
  { unfold q2. qquiet. apply qrel_stop_transition. rewrite He1. intros en1 Hen1 _. constructor.
    injection Hen1 as <-. fold (f en). rewrite Ef1. apply (os_live _ _ _ _ _ _ H). }
  match goal with |- context [promoteReady _ _ _ ?a] => set (q3 := a) end.
  exists (promoteReady mapOrder now ref q3). split_and!; [reflexivity| | |].
  - etrans; [|apply touches_promote]. etrans; [apply touches_stopped|by apply touches_same].
  - etrans; [exact Hq2|]. unfold q3. etrans; [|apply qrel_promoteReady]. by do 2 qstep.
  - rewrite <- Hv2. change (viewOf ref q2) with (viewOf ref q3). by apply promote_spec.
Qed.

Lemma accepted_on_step owner result q runID n ref en :
  reach_live q -> accepted owner result q runID n ref en ->
  ids_ok q /\ on_step q ref runID n (te_status en) (s_DependsOn (te_step en)).
Proof using mapOrder_perm.
  intros Hq (_ & Hr & He & Ht & _). apply (reach_live_ok _ mapOrder_perm) in Hq as [(_ & _ & _ & Hi & _) Hs]. split; [done|].
  destruct Hi as (Hi & _). apply on_step_entry; [done|exact (Hi _ _ Hr)|done|done].
Qed.


(** C9: A failed step skips exactly the steps that have not started and depend
    on it, directly or through other steps that have not started; it changes
    no other step, and each skipped step keeps its dependencies. *)
Theorem skipDownstream_exact q ref x n (Hi : ids_ok q) :
  let v := viewOf ref q in
  let v' := viewOf ref (skipDownstream mapOrder ref x q) in
  (skip_path v x n -> v' !! n = (fun p => (taskSkipped, p.2)) <$> v !! n) /\
  (~ skip_path v x n -> v' !! n = v !! n).
Proof using mapOrder_perm.
  intros v v'. pose proof (skipDownstream_spec mapOrder mapOrder_perm ref x q Hi) as Hs. fold v v' in Hs.
  pose proof (skipped_exact x v v' n Hs) as Hx. destruct Hs as (Ho & _). split; intros Hp.
  - apply Hx in Hp. destruct (Ho n) as [?|(s & deps & -> & _ & ->)]; done.
  - destruct (decide (v' !! n = v !! n)) as [|Hne]; [done|]. by apply Hx in Hne.
Qed.
End Effect.

(** ** The deadline of a started step *)

(** A step that starts with a timeout gets the deadline [now] plus that
    many seconds, in its entry and in the task sent to the worker, and one
    timer for it is armed, as long as the timeout fits [time.Duration]; a step
    without a timeout gets no deadline. *)
Theorem start_deadline now runID e q en (He : getEntry e q = Some en) (Ht : terminalStatus (te_status en) = false)
    (Hb : o_Timeout (s_Options (te_step en)) <= 9223372036) :
  let timeout := o_Timeout (s_Options (te_step en)) in
  let deadline := if 0 <? timeout then Some (now + timeout * time_Second) else None in
  exists en', getEntry e (startTaskLocked now runID e q) = Some en' /\ te_status en' = taskRunning /\
    te_attempts en' = te_attempts en + 1 /\ t_Attempt (te_task en') = te_attempts en + 1 /\
    te_deadline en' = deadline /\ t_Deadline (te_task en') = deadline /\
    (forall d, deadline = Some d -> exists id, te_timer en' = Some id /\
       rt_timers (q_rt (startTaskLocked now runID e q)) !! id = Some (mkTimer TimerTimeout e runID (d - now) false false)).
Proof.
  intros timeout deadline. unfold startTaskLocked. cbv zeta. rewrite startTask_upd.
  rewrite getEntry_updEntry_eq, He. cbn [fmap option_fmap option_map].
  assert (te_step (te_start now en) = te_step en) as -> by (unfold te_start, te_transition; simpl; by rewrite Ht).
  fold timeout. unfold deadline. set (q0 := updEntry e (te_start now) q).
  assert (getEntry e q0 = Some (te_start now en)) as H0 by (unfold q0; by rewrite getEntry_updEntry_eq, He).
  assert (te_status (te_start now en) = taskRunning /\ te_attempts (te_start now en) = te_attempts en + 1 /\
    t_Attempt (te_task (te_start now en)) = te_attempts en + 1 /\ te_deadline (te_start now en) = None /\
    t_Deadline (te_task (te_start now en)) = None) as (E1 & E2 & E3 & E4 & E5).
  { unfold te_start, te_transition. simpl. by rewrite Ht. }
  revert H0 E1 E2 E3 E4 E5. generalize (te_start now en) as en1. clearbody q0. intros en1 H0 E1 E2 E3 E4 E5.
  destruct (0 <? timeout) eqn:Ez; to_prop.
  2: { rewrite getEntry_appendWrite, getEntry_emit, H0. by exists en1. }
  rewrite wrap64_id by (unfold timeout, time_Second in *; lia). set (d := now + timeout * time_Second).
  unfold scheduleTimeoutLocked, armTimer. cbv zeta.
  rewrite getEntry_appendWrite, getEntry_emit, getEntry_updEntry_eq.
  match goal with |- context [stopEntryTimerLocked e ?a] => set (q1 := a) end.
  assert (getEntry e q1 = Some (te_set_task (t_set_deadline (Some d)) (te_set_deadline (Some d) en1))) as H1.
  { unfold q1. by rewrite !getEntry_updEntry_eq, H0. }
  assert (exists t, getEntry e (stopEntryTimerLocked e q1) =
    Some (te_set_timer t (te_set_task (t_set_deadline (Some d)) (te_set_deadline (Some d) en1)))) as [t Hs].
  { destruct (getEntry_stop e e q1) as [Hs|Hs]; rewrite Hs, H1; [rewrite decide_True by done|]; eexists; [done|].
    instantiate (1 := te_timer en1). by destruct en1. }
  change (getEntry e (set_rt _ _)) with (getEntry e (stopEntryTimerLocked e q1)). rewrite Hs. eexists. split; [reflexivity|].
  simpl. rewrite E1, E2, E3. split_and!; try done. intros d' [= <-]. eexists. split; [done|].
  unfold emit. case_match; simpl; by rewrite lookup_insert_eq.
Qed.

(** ** Concrete results *)

(** "b" fails while "c" runs: "d" is skipped, the run goes on. *)
Definition demo_fail : TaskResult := demo_result "b" "failed" 1.

Lemma demo_fail_accepted :
  accepted (fun _ => "w1"%string) demo_fail demo_q2 "r" "b" 0 (demo_entry demo_q2 "b").
Proof.
  unfold accepted. do 4 (split; [vm_compute; reflexivity|]). split; [right|left]; vm_compute; reflexivity.
Qed.

Lemma complete_applied_iff_witness :
  (completeLocked demo_order 5 (fun _ => "w2"%string) demo_fail demo_q2).1 = (Some (EWrongRuntime "r:b" "w2" "w1"), false) /\
  (let '(err, applied, (out, q')) := completeLocked demo_order 5 (fun _ => "w2"%string) demo_fail demo_q2 in
   (applied = true <-> exists runID n ref en, accepted (fun _ => "w2"%string) demo_fail demo_q2 runID n ref en) /\
   (applied = true -> 0 <= tr_Attempt demo_fail -> exists runID n ref en,
      accepted (fun _ => "w2"%string) demo_fail demo_q2 runID n ref en /\ te_attempts en = attempt_of demo_fail /\ 1 <= te_attempts en) /\
   (applied = true -> err = None) /\ (applied = false -> out = noOutcome /\ q' = demo_q2)).
Proof.
  split; [vm_compute; reflexivity|].
  apply (complete_applied_iff demo_order demo_json demo_json 5 (fun _ => "w2"%string) demo_fail demo_q2 demo_q2_reach).
Defined.


Lemma skipDownstream_exact_witness :
  skip_path (viewOf 0 demo_q2) "b" "d" /\
  viewOf 0 (skipDownstream demo_order 0 "b" demo_q2) !! "d"%string =
    (fun p => (taskSkipped, p.2)) <$> viewOf 0 demo_q2 !! "d"%string.
Proof.
  assert (skip_path (viewOf 0 demo_q2) "b" "d") as Hp.
  { apply (sp_direct _ _ _ taskPending ["b"; "c"]%string); [vm_compute; reflexivity|by left|by left]. }
  split; [exact Hp|].
  apply (skipDownstream_exact demo_order demo_order_perm demo_q2 0 "b" "d"); [|exact Hp].
  by destruct (reach_ok _ _ _ _ demo_q2_reach) as (_ & _ & _ & Hi & _).
Defined.

(** A run of one step "t" with a timeout, allowed three attempts. *)
Definition timed_pipeline (timeout : Z) : Pipeline :=
  demo_pipeline [mkStep "t" (mkSpecOptions [] timeout) (s_Run (demo_step "t" [])) (s_Driver (demo_step "t" [])) [] [] [] []].

Definition timed_dag (timeout : Z) : DAG :=
  match BuildDAG (timed_pipeline timeout) with Ok d => d | Err _ => mkDAG ∅ [] end.

Definition timed_queue (timeout : Z) : Queue :=
  demo_run [OpSetBackend (Some demo_backend); OpSetRetryPolicy 3 0;
            OpAdd 0 (timed_pipeline timeout) (timed_dag timeout) demo_args] (NewQueue false).

Lemma start_deadline_witness :
  exists en', getEntry (0%nat, "t"%string) (startTaskLocked 7 "r" (0%nat, "t"%string) (timed_queue 10)) = Some en' /\
    te_deadline en' = Some (7 + 10 * time_Second).
Proof.
  destruct (start_deadline 7 "r" (0%nat, "t"%string) (timed_queue 10) (demo_entry (timed_queue 10) "t"))
    as (en' & H1 & _ & _ & _ & H2 & _); [vm_compute; reflexivity|vm_compute; reflexivity|vm_compute; discriminate|].
  exists en'. split; [exact H1|exact H2].
Defined.

(** A timeout that does not fit [time.Duration] ends the step at once: the
    product wraps to a negative duration, and the timer is armed with it. *)
Example timeout_overflows :
  rt_timers (q_rt (timed_queue 9223372037)) !! 0%nat =
    Some (mkTimer TimerTimeout (0%nat, "t"%string) "r" (-9223372036709551616) false false).
Proof. vm_compute. reflexivity. Qed.

(** The timeout of one attempt can fail the next one.  The timer of
    attempt 1 fires; before its callback gets the lock, the failure of attempt
    1 is reported and attempt 2 starts at once; the callback then finds the
    step running and fails attempt 2, nine seconds before its deadline. *)
Example stale_timeout_fails_next_attempt :
  let failed := OpComplete (1 * time_Second) (fun _ => "w1"%string)
    (mkResult "p" "r:t" "w1" "failed" "boom" 0 (1 * time_Second) 1 []) in
  let q := demo_run [OpFire 0; failed] (timed_queue 10) in
  let '(out, q') := runOp demo_order demo_json demo_json (OpCallback (2 * time_Second) 0) q in
  te_status (demo_entry q "t") = taskRunning /\ te_attempts (demo_entry q "t") = 2 /\
  te_deadline (demo_entry q "t") = Some (11 * time_Second) /\
  te_attempts (demo_entry q' "t") = 3 /\
  exists started, mkWrite "step retrying r:t"
    (WUpsert (mkStepRow "p" "r" "t" "running" started (Some (2 * time_Second)) "task execution timeout" 2)) ∈ po_writes out.
Proof.
  vm_compute. split_and!; [reflexivity..|]. eexists. left.
Qed.

(** A result with a negative attempt completes a step that never started,
    while the steps it depends on are still pending or running. *)
Example negative_attempt_completes_pending :
  let q := (completeLocked demo_order 5 (fun _ => ""%string) (demo_result "d" "done" (-1)) demo_q1).2.2 in
  te_status (demo_entry demo_q1 "d") = taskPending /\ te_status (demo_entry q "d") = taskDone /\
  te_status (demo_entry q "b") = taskPending.
Proof. vm_compute. split_and!; reflexivity. Qed.

(** A backend configured after a run was added does not get its ready
    steps: they stay ready, with no timer and no goroutine that would ever
    dispatch them. *)
Example late_backend_leaves_ready :
  let q := demo_run [demo_add; OpSetBackend (Some demo_backend)] (NewQueue false) in
  te_status (demo_entry q "a") = taskReady /\ q_backend (q_conf q) = Some demo_backend /\
  rt_timers (q_rt q) = ∅ /\ rt_gos (q_rt q) = ∅.
Proof. vm_compute. split_and!; reflexivity. Qed.
