(* ===== verification/ScheduleStore.v ===== *)
(** * Schedule and submission rows: [pkg/schedule/model.go],
    [internal/store/sqlite/schedule.go], [pkg/pipeline/run/submission.go],
    [internal/store/sqlite/submission.go]

    The tables behind cron, one-shot and idempotent submissions, keyed by their
    primary keys, with the SQL statements of the repositories as functions on
    them.  A conditional [UPDATE] is atomic; it is what lets only one callback
    claim a tick.  [time.Now] inside a statement is the argument [now]. *)

From S2P Require Import Prelude.
From stdpp Require Import options.
#[local] Open Scope Z_scope.

(** ** Schedules *)

Record Schedule := mkSchedule {
  sc_ID : string; sc_ProjectID : string; sc_Name : string; sc_PipelineYAML : string; sc_VersionID : string;
  sc_ScheduleType : string; sc_CronExpr : string; sc_Enabled : bool; sc_MaxRuns : Z;
  sc_LastRunAt : option Z; sc_NextRunAt : Z; sc_ParamsJSON : string; sc_CreatedAt : Z; sc_UpdatedAt : Z }.

(** [IsZero]: the zero [time.Time], in nanoseconds from the epoch. *)
Definition zeroTime : Z := -62135596800 * time_Second.

Notation schedule_table := (gmap (string * string) Schedule).

Definition schedule_key (sc : Schedule) : string * string := (sc_ProjectID sc, sc_ID sc).

Definition sc_set_runs (last : option Z) (next now : Z) (enabled : bool) (sc : Schedule) : Schedule := {|
  sc_ID := sc_ID sc; sc_ProjectID := sc_ProjectID sc; sc_Name := sc_Name sc;
  sc_PipelineYAML := sc_PipelineYAML sc; sc_VersionID := sc_VersionID sc;
  sc_ScheduleType := sc_ScheduleType sc; sc_CronExpr := sc_CronExpr sc; sc_Enabled := enabled;
  sc_MaxRuns := sc_MaxRuns sc; sc_LastRunAt := last; sc_NextRunAt := next;
  sc_ParamsJSON := sc_ParamsJSON sc; sc_CreatedAt := sc_CreatedAt sc; sc_UpdatedAt := now |}.

Definition sc_set_max (maxRuns now : Z) (sc : Schedule) : Schedule := {|
  sc_ID := sc_ID sc; sc_ProjectID := sc_ProjectID sc; sc_Name := sc_Name sc;
  sc_PipelineYAML := sc_PipelineYAML sc; sc_VersionID := sc_VersionID sc;
  sc_ScheduleType := sc_ScheduleType sc; sc_CronExpr := sc_CronExpr sc; sc_Enabled := sc_Enabled sc;
  sc_MaxRuns := maxRuns; sc_LastRunAt := sc_LastRunAt sc; sc_NextRunAt := sc_NextRunAt sc;
  sc_ParamsJSON := sc_ParamsJSON sc; sc_CreatedAt := sc_CreatedAt sc; sc_UpdatedAt := now |}.

Definition sc_set_type (ty : string) (sc : Schedule) : Schedule := {|
  sc_ID := sc_ID sc; sc_ProjectID := sc_ProjectID sc; sc_Name := sc_Name sc;
  sc_PipelineYAML := sc_PipelineYAML sc; sc_VersionID := sc_VersionID sc;
  sc_ScheduleType := ty; sc_CronExpr := sc_CronExpr sc; sc_Enabled := sc_Enabled sc;
  sc_MaxRuns := sc_MaxRuns sc; sc_LastRunAt := sc_LastRunAt sc; sc_NextRunAt := sc_NextRunAt sc;
  sc_ParamsJSON := sc_ParamsJSON sc; sc_CreatedAt := sc_CreatedAt sc; sc_UpdatedAt := sc_UpdatedAt sc |}.

(** A row written before schedule types existed is a cron schedule. *)
Definition toSchedule (row : Schedule) : Schedule :=
  if String.eqb (sc_ScheduleType row) "" then sc_set_type "cron" row else row.

Definition CreateSchedule (sc : Schedule) (t : schedule_table) : option schedule_table :=
  match t !! schedule_key sc with Some _ => None | None => Some (<[schedule_key sc := sc]> t) end.

Definition GetSchedule (projectID id : string) (t : schedule_table) : option Schedule :=
  toSchedule <$> t !! (projectID, id).

(** [ORDER BY project_id ASC, created_at ASC]; SQL leaves the order of ties
    open, here it is the one of the map. *)
Definition by_project_created (a b : Schedule) : Prop :=
  (String.ltb (sc_ProjectID a) (sc_ProjectID b) = true) \/
  (sc_ProjectID a = sc_ProjectID b /\ sc_CreatedAt a <= sc_CreatedAt b).

#[export] Instance by_project_created_dec : RelDecision by_project_created.
Proof. intros a b. unfold by_project_created. apply _. Defined.

Definition by_created (a b : Schedule) : Prop := sc_CreatedAt a <= sc_CreatedAt b.

#[export] Instance by_created_dec : RelDecision by_created.
Proof. intros a b. unfold by_created. apply _. Defined.

Definition ListWithMaxRuns (t : schedule_table) : list Schedule :=
  toSchedule <$> merge_sort by_project_created
    (List.filter (fun sc => 0 <? sc_MaxRuns sc) (map_to_list t).*2).

Definition ListEnabled (t : schedule_table) : list Schedule :=
  toSchedule <$> merge_sort by_created (List.filter sc_Enabled (map_to_list t).*2).

(** [UPDATE ... WHERE project_id=? AND id=? AND enabled=1 AND next_run_at=?];
    true when it changed the row. *)
Definition update_tick (projectID id : string) (expectedAt : Z) (f : Schedule -> Schedule) (t : schedule_table)
    : bool * schedule_table :=
  match t !! (projectID, id) with
  | Some sc =>
      if (sc_Enabled sc && (sc_NextRunAt sc =? expectedAt))%bool
      then (true, <[(projectID, id) := f sc]> t)
      else (false, t)
  | None => (false, t)
  end.

Definition ClaimRun (now : Z) (projectID id : string) (expectedAt lastRunAt nextRunAt : Z) (t : schedule_table)
    : bool * schedule_table :=
  update_tick projectID id expectedAt (fun sc => sc_set_runs (Some lastRunAt) nextRunAt now (sc_Enabled sc) sc) t.

Definition AdvanceNextRun (now : Z) (projectID id : string) (expectedAt nextRunAt : Z) (t : schedule_table)
    : bool * schedule_table :=
  update_tick projectID id expectedAt (fun sc => sc_set_runs (sc_LastRunAt sc) nextRunAt now (sc_Enabled sc) sc) t.

Definition ClaimOneShotRun (now : Z) (projectID id : string) (expectedAt lastRunAt : Z) (t : schedule_table)
    : bool * schedule_table :=
  update_tick projectID id expectedAt (sc_set_runs (Some lastRunAt) lastRunAt now false) t.

Definition SetEnabled (now : Z) (projectID id : string) (enabled : bool) (t : schedule_table) : schedule_table :=
  alter (fun sc => sc_set_runs (sc_LastRunAt sc) (sc_NextRunAt sc) now enabled sc) (projectID, id) t.

Definition SetMaxRuns (now : Z) (projectID id : string) (maxRuns : Z) (t : schedule_table) : schedule_table :=
  alter (sc_set_max maxRuns now) (projectID, id) t.

Definition DeleteSchedule (projectID id : string) (t : schedule_table) : schedule_table :=
  delete (projectID, id) t.

(** ** Submissions *)

Record Submission := mkSubmission {
  sub_ProjectID : string; sub_Key : string; sub_RequestHash : string; sub_RunID : string; sub_CreatedAt : Z }.

Notation submission_table := (gmap (string * string) Submission).

(** [INSERT ... ON CONFLICT DO NOTHING], then the row that is there. *)
Definition ClaimSubmission (v : Submission) (t : submission_table) : (Submission * bool) * submission_table :=
  match t !! (sub_ProjectID v, sub_Key v) with
  | Some old => ((old, false), t)
  | None => ((v, true), <[(sub_ProjectID v, sub_Key v) := v]> t)
  end.

Definition DeleteSubmission (projectID key : string) (t : submission_table) : submission_table :=
  delete (projectID, key) t.

(** ** Facts *)

Lemma update_tick_true p id at_ f t t' :
  update_tick p id at_ f t = (true, t') ->
  exists sc, t !! (p, id) = Some sc /\ sc_Enabled sc = true /\ sc_NextRunAt sc = at_ /\ t' = <[(p, id) := f sc]> t.
Proof.
  unfold update_tick. destruct (t !! (p, id)) as [sc|]; [|done].
  destruct (sc_Enabled sc) eqn:E; simpl; [|done]. destruct (sc_NextRunAt sc =? at_) eqn:En; [|done].
  intros [= <-]. exists sc. split_and!; try done. lia.
Qed.

Lemma update_tick_false p id at_ f t t' : update_tick p id at_ f t = (false, t') -> t' = t.
Proof. unfold update_tick. repeat case_match; congruence. Qed.

Lemma ClaimSubmission_spec v t old claimed t' :
  ClaimSubmission v t = (old, claimed, t') ->
  t' !! (sub_ProjectID v, sub_Key v) = Some old /\ (claimed = true -> old = v) /\ (claimed = false -> t' = t).
Proof.
  unfold ClaimSubmission. destruct (t !! (sub_ProjectID v, sub_Key v)) as [s|] eqn:E; intros [= <- <- <-].
  - by split_and!.
  - split_and!; [|done|done]. by rewrite lookup_insert_eq.
Qed.
