(* ===== verification/Scheduler.v ===== *)
(** * The in-memory scheduler: [internal/scheduler/scheduler.go]

    The alarm index: cron jobs and one-shot timers that call [fire] with a
    project and a schedule id.  The cron runner is the map from the entry ids
    it hands out to the jobs it holds ([AddFunc] rejects an expression it
    cannot parse and otherwise adds the job under a new id, [Remove] takes it
    out); a one-shot timer is an alarm that can be stopped until it has
    expired.  Calls of [fire] are recorded in order. *)

From S2P Require Import Prelude ScheduleStore.
From stdpp Require Import options.
#[local] Open Scope Z_scope.

Record schedEntry := mkSchedEntry { se_projectID : string; se_cronID : nat }.

(** A job of the cron runner, and a [time.AfterFunc] with what it captured. *)
Record job := mkJob { jb_expr : string; jb_projectID : string; jb_scheduleID : string }.

Record alarm := mkAlarm { al_projectID : string; al_scheduleID : string; al_delay : Z; al_expired : bool }.

Record Scheduler := mkScheduler {
  s_running : bool; s_jobs : gmap nat job; s_nextJob : nat;
  s_entries : gmap string schedEntry; s_timers : gmap string nat;
  s_alarms : gmap nat alarm; s_nextAlarm : nat;
  s_canceled : bool; s_fired : list (string * string) }.

Definition set_jobs running f n (s : Scheduler) := mkScheduler running (f (s_jobs s)) n (s_entries s)
  (s_timers s) (s_alarms s) (s_nextAlarm s) (s_canceled s) (s_fired s).
Definition set_entries f (s : Scheduler) := mkScheduler (s_running s) (s_jobs s) (s_nextJob s) (f (s_entries s))
  (s_timers s) (s_alarms s) (s_nextAlarm s) (s_canceled s) (s_fired s).
Definition set_timers f (s : Scheduler) := mkScheduler (s_running s) (s_jobs s) (s_nextJob s) (s_entries s)
  (f (s_timers s)) (s_alarms s) (s_nextAlarm s) (s_canceled s) (s_fired s).
Definition set_alarms f n (s : Scheduler) := mkScheduler (s_running s) (s_jobs s) (s_nextJob s) (s_entries s)
  (s_timers s) (f (s_alarms s)) n (s_canceled s) (s_fired s).

(** [s.fire(s.ctx, projectID, scheduleID)] *)
Definition fire (projectID scheduleID : string) (s : Scheduler) : Scheduler :=
  mkScheduler (s_running s) (s_jobs s) (s_nextJob s) (s_entries s) (s_timers s) (s_alarms s) (s_nextAlarm s)
    (s_canceled s) (s_fired s ++ [(projectID, scheduleID)]).

Definition cancelCtx (s : Scheduler) : Scheduler :=
  mkScheduler (s_running s) (s_jobs s) (s_nextJob s) (s_entries s) (s_timers s) (s_alarms s) (s_nextAlarm s)
    true (s_fired s).

Definition New : Scheduler := mkScheduler false ∅ 0 ∅ ∅ ∅ 0 false [].

Definition Start (s : Scheduler) : Scheduler := set_jobs true id (s_nextJob s) s.

(** [t.Stop()]: no effect on an alarm that has expired. *)
Definition stopAlarm (i : nat) (s : Scheduler) : Scheduler :=
  match s_alarms s !! i with
  | Some a => if al_expired a then s else set_alarms (delete i) (s_nextAlarm s) s
  | None => s
  end.

Definition Stop (s : Scheduler) : Scheduler :=
  let s := cancelCtx s in
  let s := set_jobs false id (s_nextJob s) s in
  set_timers (fun _ => ∅) (foldr stopAlarm s (map_to_list (s_timers s)).*2).

Definition removeLocked (id_ : string) (s : Scheduler) : Scheduler :=
  let s := match s_entries s !! id_ with
           | Some e => set_entries (delete id_) (set_jobs (s_running s) (delete (se_cronID e)) (s_nextJob s) s)
           | None => s
           end in
  match s_timers s !! id_ with
  | Some t => set_timers (delete id_) (stopAlarm t s)
  | None => s
  end.

Definition Remove (scheduleID : string) (s : Scheduler) : Scheduler := removeLocked scheduleID s.

Section Scheduler.
(** [cron.AddFunc] accepts the expression. *)
Variable cron_ok : string -> bool.

(** [Add] and whether it returned nil.  [go s.fire(...)] runs whatever
    happens next. *)
Definition Add (now : Z) (sc : Schedule) (s : Scheduler) : bool * Scheduler :=
  let s := removeLocked (sc_ID sc) s in
  if String.eqb (sc_ScheduleType sc) "cron" then
    let s := if (negb (sc_NextRunAt sc =? zeroTime) && (sc_NextRunAt sc <? now))%bool
             then fire (sc_ProjectID sc) (sc_ID sc) s else s in
    if cron_ok (sc_CronExpr sc) then
      let id_ := s_nextJob s in
      let s := set_jobs (s_running s) <[id_ := mkJob (sc_CronExpr sc) (sc_ProjectID sc) (sc_ID sc)]> (S id_) s in
      (true, set_entries <[sc_ID sc := mkSchedEntry (sc_ProjectID sc) id_]> s)
    else (false, s)
  else if String.eqb (sc_ScheduleType sc) "once" then
    let delay := if sc_NextRunAt sc - now <? 0 then 0 else sc_NextRunAt sc - now in
    let t := s_nextAlarm s in
    let s := set_alarms <[t := mkAlarm (sc_ProjectID sc) (sc_ID sc) delay false]> (S t) s in
    (true, set_timers <[sc_ID sc := t]> s)
  else if String.eqb (sc_ScheduleType sc) "immediate" then
    (true, fire (sc_ProjectID sc) (sc_ID sc) s)
  else (true, s).

Definition LoadFromRepo (now : Z) (t : schedule_table) (s : Scheduler) : Scheduler :=
  foldl (fun s sc => (Add now sc s).2) s (ListEnabled t).

(** A tick of a cron job, the expiry of an alarm, and its callback. *)
Definition cronTick (id_ : nat) (s : Scheduler) : Scheduler :=
  match s_jobs s !! id_ with
  | Some j => if s_running s then fire (jb_projectID j) (jb_scheduleID j) s else s
  | None => s
  end.

Definition expireAlarm (i : nat) (s : Scheduler) : Scheduler :=
  set_alarms (alter (fun a => mkAlarm (al_projectID a) (al_scheduleID a) (al_delay a) true) i) (s_nextAlarm s) s.

Definition alarmCallback (i : nat) (s : Scheduler) : Scheduler :=
  match s_alarms s !! i with
  | Some a =>
      if al_expired a then
        let s := set_alarms (delete i) (s_nextAlarm s) s in
        let s := set_timers (delete (al_scheduleID a)) s in
        fire (al_projectID a) (al_scheduleID a) s
      else s
  | None => s
  end.

Inductive sop : Type :=
| SStart | SStop | SAdd (now : Z) (sc : Schedule) | SRemove (id : string)
| STick (id : nat) | SExpire (i : nat) | SCallback (i : nat).

Definition runSop (o : sop) (s : Scheduler) : Scheduler :=
  match o with
  | SStart => Start s
  | SStop => Stop s
  | SAdd now sc => (Add now sc s).2
  | SRemove id_ => Remove id_ s
  | STick id_ => cronTick id_ s
  | SExpire i => expireAlarm i s
  | SCallback i => alarmCallback i s
  end.

(** ** The index *)

(** The cron runner holds exactly the jobs of [entries], one per schedule;
    the timers refer to alarms of their schedule. *)
Record index_ok (s : Scheduler) : Prop := {
  ix_jobs : forall i j, s_jobs s !! i = Some j ->
    (i < s_nextJob s)%nat /\ s_entries s !! jb_scheduleID j = Some (mkSchedEntry (jb_projectID j) i);
  ix_entries : forall id_ e, s_entries s !! id_ = Some e ->
    exists j, s_jobs s !! se_cronID e = Some j /\ jb_scheduleID j = id_ /\ jb_projectID j = se_projectID e;
  ix_alarms : forall i a, s_alarms s !! i = Some a -> (i < s_nextAlarm s)%nat;
  ix_timers : forall id_ i a, s_timers s !! id_ = Some i -> s_alarms s !! i = Some a -> al_scheduleID a = id_;
  ix_timers_old : forall id_ i, s_timers s !! id_ = Some i -> (i < s_nextAlarm s)%nat }.

Lemma index_New : index_ok New.
Proof. split; intros *; done. Qed.

Lemma index_same s s' :
  s_jobs s' = s_jobs s -> s_nextJob s' = s_nextJob s -> s_entries s' = s_entries s -> s_timers s' = s_timers s ->
  s_alarms s' = s_alarms s -> s_nextAlarm s' = s_nextAlarm s -> index_ok s -> index_ok s'.
Proof. intros E1 E2 E3 E4 E5 E6 [H1 H2 H3 H4 H5]. split; rewrite ?E1, ?E2, ?E3, ?E4, ?E5, ?E6; done. Qed.

(** Alarms and timers may go, but not come. *)
Lemma index_fewer f g s :
  (forall m : gmap nat alarm, forall i a, f m !! i = Some a -> exists a0, m !! i = Some a0 /\ al_scheduleID a0 = al_scheduleID a) ->
  (forall m : gmap string nat, g m ⊆ m) ->
  index_ok s -> index_ok (set_timers g (set_alarms f (s_nextAlarm s) s)).
Proof.
  intros Hf Hg [H1 H2 H3 H4 H5]. split; simpl; [done|done| | |].
  - intros i a Hi. destruct (Hf _ _ _ Hi) as (a0 & Ha & _). eauto.
  - intros id_ i a Hi Ha. destruct (Hf _ _ _ Ha) as (a0 & Ha0 & <-). eapply H4; [|exact Ha0].
    eapply lookup_weaken; [exact Hi|apply Hg].
  - intros id_ i Hi. apply (H5 id_). eapply lookup_weaken; [exact Hi|apply Hg].
Qed.

Lemma delete_alarm_same i0 (m : gmap nat alarm) i a :
  delete i0 m !! i = Some a -> exists a0, m !! i = Some a0 /\ al_scheduleID a0 = al_scheduleID a.
Proof. rewrite lookup_delete_Some. intros [_ H]. eauto. Qed.

Lemma index_stopAlarm i s : index_ok s -> index_ok (stopAlarm i s).
Proof.
  intros H. unfold stopAlarm. destruct (s_alarms s !! i) as [a|]; [|done]. destruct (al_expired a); [done|].
  pose proof (index_fewer (delete i) id s (delete_alarm_same i) ltac:(done) H) as Hx. by destruct s.
Qed.

Lemma index_timers g s : (forall m : gmap string nat, g m ⊆ m) -> index_ok s -> index_ok (set_timers g s).
Proof.
  intros Hg H. pose proof (index_fewer id g s ltac:(by eauto) Hg H) as Hx. by destruct s.
Qed.

Lemma index_foldr l s : index_ok s -> index_ok (foldr stopAlarm s l).
Proof. intros H. induction l as [|i l IH]; simpl; [done|]. by apply index_stopAlarm. Qed.

Lemma index_removeLocked id_ s : index_ok s -> index_ok (removeLocked id_ s).
Proof.
  intros H. unfold removeLocked.
  match goal with |- index_ok (match s_timers ?x !! _ with _ => _ end) => assert (index_ok x) as H' end.
  { destruct (s_entries s !! id_) as [e|] eqn:E; [|done]. destruct H as [H1 H2 H3 H4 H5].
    destruct (H2 _ _ E) as (j & Hj & <- & Hp). split; simpl; [| |done..].
    - intros i j' [Hne Hj']%lookup_delete_Some. destruct (H1 _ _ Hj') as [Hlt He]. split; [done|].
      rewrite lookup_delete_ne; [done|]. intros Eid. rewrite <- Eid, E in He. by injection He as ->.
    - intros id' e' [Hne He']%lookup_delete_Some. destruct (H2 _ _ He') as (j' & Hj' & <- & Hp').
      exists j'. split; [|done]. rewrite lookup_delete_ne; [done|]. intros Eid. rewrite Eid in Hj. congruence. }
  destruct (s_timers _ !! id_) as [t|]; [|done].
  apply index_timers; [intros m; apply delete_subseteq|]. by apply index_stopAlarm.
Qed.

Lemma removeLocked_gone id_ s : s_entries (removeLocked id_ s) !! id_ = None /\ s_timers (removeLocked id_ s) !! id_ = None.
Proof.
  unfold removeLocked, stopAlarm.
  destruct (s_entries s !! id_) as [e|] eqn:E; simpl; destruct (s_timers s !! id_) as [t|] eqn:Et; simpl;
    repeat case_match; simpl; rewrite ?lookup_delete_eq; done.
Qed.

Lemma index_Add now sc s : index_ok s -> index_ok (Add now sc s).2.
Proof.
  intros H0. pose proof (index_removeLocked (sc_ID sc) s H0) as H. destruct (removeLocked_gone (sc_ID sc) s) as [G1 G2].
  unfold Add. revert H G1 G2. generalize (removeLocked (sc_ID sc) s) as q. intros q H G1 G2. cbv zeta.
  case_match.
  - match goal with |- context [if cron_ok _ then _ else (false, ?a)] => set (q1 := a) end.
    assert (index_ok q1 /\ s_entries q1 !! sc_ID sc = None) as [[A1 A2 A3 A4 A5] G3].
    { unfold q1. case_match; [|done]. split; [by eapply index_same; [..|exact H]|done]. }
    destruct (cron_ok (sc_CronExpr sc)); [|by split]. split; simpl; [| |done..].
    + intros i j. rewrite lookup_insert_Some. intros [[<- <-]|[Hne Hj]]; [rewrite lookup_insert_eq; split; [lia|done]|].
      destruct (A1 _ _ Hj) as [Hlt He]. split; [lia|]. rewrite lookup_insert_ne; [done|]. intros E. rewrite <- E in He. congruence.
    + intros id_ e. rewrite lookup_insert_Some. intros [[<- <-]|[Hne He]]; simpl; [rewrite lookup_insert_eq; eauto|].
      destruct (A2 _ _ He) as (j & Hj & ? & ?). exists j. split; [|done]. rewrite lookup_insert_ne; [done|].
      intros E. rewrite <- E in Hj. destruct (A1 _ _ Hj). lia.
  - case_match; [|case_match; [by eapply index_same; [..|exact H]|done]].
    destruct H as [A1 A2 A3 A4 A5]. split; simpl; [done|done| | |].
    + intros i a. rewrite lookup_insert_Some. intros [[<- _]|[_ Ha]]; [lia|]. specialize (A3 _ _ Ha). lia.
    + intros id_ i a. rewrite !lookup_insert_Some. intros [[<- <-]|[Hne Hi]] [[Ei <-]|[Hni Ha]]; simpl; try done.
      * specialize (A5 _ _ Hi). lia.
      * by eapply A4.
    + intros id_ i. rewrite lookup_insert_Some. intros [[<- <-]|[_ Hi]]; [lia|]. specialize (A5 _ _ Hi). lia.
Qed.

Lemma index_runSop o s : index_ok s -> index_ok (runSop o s).
Proof.
  intros H. destruct o; simpl.
  - by eapply index_same; [..|exact H].
  - unfold Stop. apply index_timers; [intros m; apply map_empty_subseteq|]. apply index_foldr.
    by eapply index_same; [..|exact H].
  - by apply index_Add.
  - by apply index_removeLocked.
  - unfold cronTick. repeat case_match; try done. by eapply index_same; [..|exact H].
  - pose proof (index_fewer (alter (fun a => mkAlarm (al_projectID a) (al_scheduleID a) (al_delay a) true) i) id s) as Hx.
    destruct s. apply Hx; [|done|done]. intros m i' a. rewrite lookup_alter_Some.
    intros [(-> & a0 & Ha & ->)|[_ Ha]]; eauto.
  - unfold alarmCallback. destruct (s_alarms s !! i) as [a|]; [|done]. destruct (al_expired a); [|done].
    pose proof (index_fewer (delete i) (delete (al_scheduleID a)) s (delete_alarm_same i) ltac:(intros; apply delete_subseteq) H) as Hx.
    by eapply index_same; [..|exact Hx].
Qed.

Definition sreach (ops : list sop) : Scheduler := foldl (fun s o => runSop o s) New ops.

Lemma index_sreach ops : index_ok (sreach ops).
Proof.
  unfold sreach. assert (index_ok New) as H by apply index_New. revert H. generalize New as s.
  induction ops as [|o ops IH]; intros s H; simpl; [done|]. by apply IH, index_runSop.
Qed.

(** However schedules are added, reloaded, removed and fired, a schedule
    has at most one cron job, the one its entry names; once it is removed it
    has none, and its timer is no longer indexed. *)
Theorem one_job_per_schedule ops :
  let s := sreach ops in
  (forall i i' j j', s_jobs s !! i = Some j -> s_jobs s !! i' = Some j' ->
     jb_scheduleID j = jb_scheduleID j' -> i = i') /\
  (forall id_ i j, let s' := Remove id_ s in
     s_timers s' !! id_ = None /\ (s_jobs s' !! i = Some j -> jb_scheduleID j <> id_)).
Proof.
  intros s. split.
  - intros i i' j j' Hj Hj' E. destruct (index_sreach ops) as [H _ _ _ _].
    destruct (H _ _ Hj) as [_ He]. destruct (H _ _ Hj') as [_ He']. rewrite E, He' in He. by injection He.
  - intros id_ i j s'. destruct (removeLocked_gone id_ s) as [G1 G2]. split; [exact G2|].
    intros Hj <-. destruct (index_removeLocked (jb_scheduleID j) s (index_sreach ops)) as [H _ _ _ _].
    destruct (H _ _ Hj) as [_ He]. unfold s', Remove in *. congruence.
Qed.
End Scheduler.

(** ** Concrete schedules *)

Definition demo_once (next : Z) : Schedule :=
  mkSchedule "s" "p" "demo" "" "" "once" "" true 0 None next "" 0 0.

(** A reload that comes between the expiry of the old timer and its callback:
    the callback deletes the index entry of the new timer, which [Remove] and
    [Stop] can no longer stop. *)
Example reload_orphans_timer :
  let s := sreach (fun _ => true) [SAdd 0 (demo_once 5); SExpire 0; SAdd 6 (demo_once 100); SCallback 0; SRemove "s"; SStop] in
  s_timers s = ∅ /\ s_alarms s = {[ 1%nat := mkAlarm "p" "s" 94 false ]}.
Proof. vm_compute. split; reflexivity. Qed.
