(* ===== verification/Lifecycle.v ===== *)
(** * Run lifecycle: [internal/runlifecycle], [pkg/pipeline/runtime.go]

    The layer above the queue: creating, submitting, rerunning, cancelling and
    deleting runs, re-adding interrupted ones, firing and backfilling
    schedules, and retention.  A handler is a function in the monad [M] over
    the [World]: the tables, the queue, the scheduler and what was done
    outside.  Every repository call is a [repo]: [io k] says how the [k]-th
    one ends, as in [Queue.callWrite].  Each [time.Now] is a [getNow], each
    [genRunID] a [genID].

    Outside the model, as parameters: the YAML decoder and [text/template]
    (in [parse]), [encoding/json] for parameters and submissions, SHA-256,
    the cron expression parser, and the credential store. *)

From S2P Require Import Prelude Pipeline Dag RunStore Queue ScheduleStore Scheduler.
From stdpp Require Import options.
#[local] Open Scope Z_scope.

(** ** The world and the monad *)

(** What a handler does outside the tables and the queue. *)
Inductive deed : Type :=
| Exported (runID : string)
| OnRunStart (runID : string)
| ArtifactsDeleted (runID : string)
| WorkspaceDeleted (runID : string).

Record World := mkWorld {
  w_db : DB; w_schedules : schedule_table; w_subs : submission_table; w_projects : list string;
  w_queue : Queue; w_applied : gmap nat bool; w_scheduler : Scheduler;
  w_calls : nat; w_ticks : nat; w_uuids : nat; w_deeds : list deed }.

Definition set_db f (w : World) := mkWorld (f (w_db w)) (w_schedules w) (w_subs w) (w_projects w) (w_queue w)
  (w_applied w) (w_scheduler w) (w_calls w) (w_ticks w) (w_uuids w) (w_deeds w).
Definition set_schedules f (w : World) := mkWorld (w_db w) (f (w_schedules w)) (w_subs w) (w_projects w) (w_queue w)
  (w_applied w) (w_scheduler w) (w_calls w) (w_ticks w) (w_uuids w) (w_deeds w).
Definition set_subs f (w : World) := mkWorld (w_db w) (w_schedules w) (f (w_subs w)) (w_projects w) (w_queue w)
  (w_applied w) (w_scheduler w) (w_calls w) (w_ticks w) (w_uuids w) (w_deeds w).
Definition set_scheduler f (w : World) := mkWorld (w_db w) (w_schedules w) (w_subs w) (w_projects w) (w_queue w)
  (w_applied w) (f (w_scheduler w)) (w_calls w) (w_ticks w) (w_uuids w) (w_deeds w).
Definition set_engine db applied q (w : World) := mkWorld db (w_schedules w) (w_subs w) (w_projects w) q
  applied (w_scheduler w) (w_calls w) (w_ticks w) (w_uuids w) (w_deeds w).
Definition next_call (w : World) := mkWorld (w_db w) (w_schedules w) (w_subs w) (w_projects w) (w_queue w)
  (w_applied w) (w_scheduler w) (S (w_calls w)) (w_ticks w) (w_uuids w) (w_deeds w).
Definition next_tick (w : World) := mkWorld (w_db w) (w_schedules w) (w_subs w) (w_projects w) (w_queue w)
  (w_applied w) (w_scheduler w) (w_calls w) (S (w_ticks w)) (w_uuids w) (w_deeds w).
Definition next_uuid (w : World) := mkWorld (w_db w) (w_schedules w) (w_subs w) (w_projects w) (w_queue w)
  (w_applied w) (w_scheduler w) (w_calls w) (w_ticks w) (S (w_uuids w)) (w_deeds w).
Definition add_deed d (w : World) := mkWorld (w_db w) (w_schedules w) (w_subs w) (w_projects w) (w_queue w)
  (w_applied w) (w_scheduler w) (w_calls w) (w_ticks w) (w_uuids w) (w_deeds w ++ [d]).

Inductive lerr : Type :=
| LParse (e : verr) | LDag (e : dagErr) | LRuntime (step : string) | LCredential (ref : string)
| LRepo | LEnv | LNotFound (runID : string) | LNoYAML (runID : string) | LNoFailedSteps (runID : string)
| LStepNotFailed (step runID : string) | LStepNotInYAML (step : string) | LEncode | LKeyReused
| LTrial (i : nat) (e : lerr) | LNotCron | LCron | LParams | LTooManyRuns | LPanic.

Definition M (A : Type) : Type := World -> res lerr A * World.

#[export] Instance M_ret : MRet M := fun A a w => (Ok a, w).
#[export] Instance M_bind : MBind M := fun A B f m w =>
  match m w with
  | (Ok a, w) => f a w
  | (Err e, w) => (Err e, w)
  end.

Definition fail {A} (e : lerr) : M A := fun w => (Err e, w).
Definition lift {E A} (f : E -> lerr) (r : res E A) : M A := fun w =>
  (match r with Ok a => Ok a | Err e => Err (f e) end, w).
Definition get {A} (f : World -> A) : M A := fun w => (Ok (f w), w).
Definition modify (f : World -> World) : M unit := fun w => (Ok tt, f w).

(** [x, err := m] without a return, and [_ = m]. *)
Definition try {A} (m : M A) : M (res lerr A) := fun w => let '(r, w) := m w in (Ok r, w).
Definition ignore {A} (m : M A) : M unit := fun w => (Ok tt, (m w).2).

Fixpoint forM {A} (l : list A) (f : A -> M unit) : M unit :=
  match l with
  | [] => mret tt
  | x :: l => _ ← f x; forM l f
  end.

(** ** Pure parts *)

Definition placement_ok (ownedRuntime : string) (s : Step) : bool :=
  (String.eqb ownedRuntime "" || String.eqb (dr_Runtime (s_Driver s)) "" ||
   String.eqb (dr_Runtime (s_Driver s)) ownedRuntime)%bool.

(** [pipeline.ValidateRuntime] on a non-nil pipeline, with
    [manifest.ValidateRuntimePlacement]. *)
Definition ValidateRuntime (pl : Pipeline) (ownedRuntime : string) : res lerr unit :=
  each (fun s => check (negb (placement_ok ownedRuntime s)) (LRuntime (s_Name s)))
    (ps_Steps (pl_Spec (ApplyDefaults pl))).

(** [filepath.Join(outputDirBase, runID)] *)
Definition runWorkspaceDir (outputDirBase runID : string) : string :=
  match List.filter (fun s => negb (String.eqb s "")) [outputDirBase; runID] with
  | [] => ""
  | parts => path_Clean (str_join slash parts)
  end.

Record StartRunOptions := mkOpts {
  so_RunID : string; so_ProjectID : string; so_ScheduleID : string; so_Experiment : string;
  so_Params : option (list (string * any)); so_Vars : BuiltinVars; so_YAML : string }.

(** [project.FromContext] and [security.IdentityFromContext]. *)
Record context := mkContext { ctx_project : string; ctx_identity : option string }.

(** The parts of [Deps] that are values. *)
Record Deps := mkDeps {
  RuntimeType : string; OutputDir : string; StorageIdentity : string;
  RunTTL : Z; ArtifactTTL : Z; MisfirePolicy : string; MisfireGracePeriod : Z; StartedAt : Z;
  hasSubmissionRepo : bool; hasOnRunStart : bool; hasExport : bool }.

(** The steps a rerun of the failed ones executes. *)
Definition without_deps (s : Step) : Step := mkStep (s_Name s) (s_Options s) (s_Run s) (s_Driver s)
  (s_Params s) (s_Inputs s) (s_Outputs s) [].

Definition set_steps (steps : list Step) (pl : Pipeline) : Pipeline :=
  mkPipeline (pl_TypeMeta pl) (pl_Metadata pl)
    (mkSpec (ps_Defaults (pl_Spec pl)) steps (ps_OnSuccess (pl_Spec pl)) (ps_OnFailure (pl_Spec pl))).

Definition failed_names (steps : list StepRow) : list string :=
  st_StepName <$> List.filter (fun s => String.eqb (st_Status s) "failed") steps.

(** The [switch] of [RecoverInterruptedRuns] on a stored step. *)
Definition recovered_step (now : Z) (s : StepRow) : option RecoveredStep :=
  if (String.eqb (st_Status s) "done" || String.eqb (st_Status s) "skipped")%bool
  then Some (mkRecovered (st_StepName s) true None 0)
  else if String.eqb (st_Status s) "running"
  then Some (mkRecovered (st_StepName s) false (Some (default now (st_StartedAt s))) (st_Attempts s))
  else None.

(** The runs of one schedule that [CleanupScheduleRetention] deletes, from the
    newest on; [kept] counts the ones it keeps. *)
Fixpoint overflow (maxRuns kept : Z) (runs : list RunRow) : list string :=
  match runs with
  | [] => []
  | r :: runs =>
      if (match run_EndedAt r with None => true | Some _ => false end ||
          String.eqb (run_Status r) StatusRunning || String.eqb (run_Status r) StatusScheduled)%bool
      then overflow maxRuns kept runs
      else if kept <? maxRuns then overflow maxRuns (kept + 1) runs
      else run_ID r :: overflow maxRuns kept runs
  end.

Definition retentionScheduleBatch : Z := 200.

(** What [ScheduleFired] decides from the row it read, before any write. *)
Inductive decision : Type :=
| Ignore                                    (* disabled, or a tick in the future *)
| Disable                                   (* the expression does not parse *)
| Advance (plannedAt next : Z)              (* a misfire that is skipped *)
| Claim (plannedAt next : Z)
| ClaimOnce (scheduledAt : Z).

Definition decide_fire (d : Deps) (cronNext : string -> option (Z -> Z)) (now : Z) (sc : Schedule) : decision :=
  if negb (sc_Enabled sc) then Ignore else
  if String.eqb (sc_ScheduleType sc) "cron" then
    let plannedAt := sc_NextRunAt sc in
    match cronNext (sc_CronExpr sc) with
    | None => Disable
    | Some nextOf =>
        let next := nextOf now in
        if ((plannedAt <? StartedAt d) &&
            (String.eqb (MisfirePolicy d) "skip" ||
             ((0 <? MisfireGracePeriod d) && (MisfireGracePeriod d <? now - plannedAt))))%bool
        then Advance plannedAt next
        else if now <? plannedAt then Ignore else Claim plannedAt next
    end
  else if (String.eqb (sc_ScheduleType sc) "once" || String.eqb (sc_ScheduleType sc) "immediate")%bool
  then ClaimOnce (sc_NextRunAt sc) else Ignore.

(** ** The handlers *)

Section Lifecycle.
Variable deps : Deps.
(** How the [k]-th repository call ends, and what the flush that follows it meets. *)
Variable io : nat -> attempt.
Variable flushEnv : nat -> nat -> nat -> attempt * bool.
Variable clock : nat -> Z.
Variable uuid : nat -> string.
(** [pipeline.Parse] with its decoder. *)
Variable parse : string -> res verr Pipeline.
Variable mapOrder : nat -> list string -> list string.
Variable marshalStep : Step -> option string.
Variable marshalPipeline : Pipeline -> option string.
Variable marshalParams : list (string * any) -> option string.
Variable unmarshalParams : string -> option (list (string * any)).
Variable hashSubmission : string -> option (list (string * any)) -> string -> BuiltinVars -> option string.
Variable cronNext : string -> option (Z -> Z).
Variable validateCredential : string -> string -> bool.
Variable resolveEnv : string -> string -> Pipeline -> option (gmap string (list string)).
(** The error of the backend's [CancelRun], if any. *)
Variable remoteCancel : string -> option string.

Definition getNow : M Z := fun w => (Ok (clock (w_ticks w)), next_tick w).
Definition genID : M string := fun w => (Ok (uuid (w_uuids w)), next_uuid w).

(** A repository call; [f] is the statement, which may itself fail. *)
Definition repo {A} (f : World -> res lerr A * World) : M A := fun w =>
  let w' := next_call w in
  match io (w_calls w) with
  | AttemptOk => f w'
  | AttemptLost => (Err LRepo, w')
  | AttemptApplied => (Err LRepo, (f w').2)
  end.
Definition query {A} (f : World -> A) : M A := repo (get f).

Definition createRow (r : RunRow) : M unit := repo (fun w =>
  match Create r (w_db w) with
  | Some db => (Ok tt, set_db (fun _ => db) w)
  | None => (Err LRepo, w)
  end).
Definition updateStatus (projectID id status : string) (endedAt : Z) : M unit :=
  repo (modify (set_db (UpdateStatus projectID id status (Some endedAt)))).

Definition encodeParams (params : option (list (string * any))) : string :=
  match params with
  | None => "{}"
  | Some p => default "{}"%string (marshalParams p)
  end.
Definition decodeParams (s : string) : option (list (string * any)) :=
  if String.eqb s "" then None else unmarshalParams s.

(** What [StartRun] has computed when it reaches the queue. *)
Record started := mkStarted {
  sr_runID : string; sr_vars : BuiltinVars; sr_env : gmap string (list string) }.

Definition newRow (ctx : context) (pl : Pipeline) (status : string) (now : Z) (o : StartRunOptions) (runID : string)
    (createdBy : string) : RunRow :=
  mkRunRow runID (so_ProjectID o) (so_ScheduleID o) (so_Experiment o) (m_Name (pl_Metadata pl)) status now None
    (v_ScheduledAt (so_Vars o)) (so_YAML o) (encodeParams (so_Params o)) createdBy (StorageIdentity deps).

(** [StartRun] up to [Queue.AddWithEnv]. *)
Definition prepareRun (ctx : context) (pl : Pipeline) (o : StartRunOptions) : M started :=
  _ ← lift id (ValidateRuntime pl (RuntimeType deps));
  _ ← lift id (each (fun a => check (negb (validateCredential (so_ProjectID o) (n_CredentialRef a))) (LCredential (n_CredentialRef a)))
    (match ps_OnSuccess (pl_Spec pl) with Some x => oo_Notify x | None => [] end ++
     match ps_OnFailure (pl_Spec pl) with Some x => oo_Notify x | None => [] end));
  runID ← if String.eqb (so_RunID o) "" then genID else mret (so_RunID o);
  now ← getNow;
  let vars := match v_RunStartedAt (so_Vars o) with
              | Some _ => so_Vars o
              | None => mkVars (v_ScheduledAt (so_Vars o)) (Some now) (v_DataIntervalEnd (so_Vars o))
              end in
  _ ← createRow (newRow ctx pl StatusRunning now o runID (default "" (ctx_identity ctx)));
  _ ← if hasExport deps then modify (add_deed (Exported runID)) else mret tt;
  _ ← forM (ps_Steps (pl_Spec pl)) (fun s => ignore (repo (modify (set_db (Upsert
        (mkStepRow (so_ProjectID o) runID (s_Name s) "pending" None None "" 0))))));
  match resolveEnv (so_ProjectID o) runID pl with
  | Some env => mret (mkStarted runID vars env)
  | None =>
      now ← getNow;
      _ ← ignore (updateStatus (so_ProjectID o) runID StatusFailed now);
      fail LEnv
  end.

(** A call of the queue: it runs on the queue and on the run tables. *)
Definition callQueue (f : (nat -> nat -> attempt * bool) -> flushState -> Queue -> flushState * Queue) : M unit :=
  fun w =>
    let '(st, q) := f (flushEnv (w_calls w)) (mkFlush (w_db w) (w_applied w)) (w_queue w) in
    (Ok tt, set_engine (fl_db st) (fl_applied st) q (next_call w)).

Definition runArgsOf (o : StartRunOptions) (s : started) : runArgs :=
  mkArgs (so_ProjectID o) (sr_runID s) "." (runWorkspaceDir (OutputDir deps) (sr_runID s)) (sr_vars s)
    (default [] (so_Params o)) (sr_env s).

Definition enqueueRun (pl : Pipeline) (dag : DAG) (o : StartRunOptions) (s : started) : M string :=
  now ← getNow;
  _ ← callQueue (fun env => AddWithEnv mapOrder marshalStep marshalPipeline env now pl dag (runArgsOf o s));
  _ ← if hasOnRunStart deps then modify (add_deed (OnRunStart (sr_runID s))) else mret tt;
  mret (sr_runID s).

Definition StartRun (ctx : context) (pl : Pipeline) (dag : DAG) (o : StartRunOptions) : M string :=
  s ← prepareRun ctx pl o; enqueueRun pl dag o s.

(** The runs of a sweep from the [i]-th trial on. *)
Fixpoint sweepLoop (ctx : context) (projectID yaml experiment : string) (pl : Pipeline) (dag : DAG) (i : nat)
    (trials : list (option (list (string * any)))) (runIDs : list string) : M (list string) :=
  match trials with
  | [] => mret runIDs
  | params :: trials =>
      r ← try (StartRun ctx pl dag
        (mkOpts "" projectID "" experiment params (mkVars None None None) yaml));
      match r with
      | Err e =>
          now ← getNow;
          _ ← forM runIDs (fun id => ignore (updateStatus projectID id StatusCanceled now));
          fail (LTrial i e)
      | Ok runID => sweepLoop ctx projectID yaml experiment pl dag (S i) trials (runIDs ++ [runID])
      end
  end.

Definition parseAndBuild (yaml : string) : M (Pipeline * DAG) :=
  pl ← lift LParse (parse yaml);
  dag ← lift LDag (BuildDAG pl);
  mret (pl, dag).

Definition StartSweep (ctx : context) (projectID yaml experiment : string)
    (trials : list (option (list (string * any)))) : M (list string) :=
  '(pl, dag) ← parseAndBuild yaml;
  sweepLoop ctx projectID yaml experiment pl dag 0 trials [].

Definition StartRunFromAPIWithID (ctx : context) (runID yaml : string) (params : option (list (string * any)))
    (vars : BuiltinVars) (experiment : string) : M string :=
  '(pl, dag) ← parseAndBuild yaml;
  now ← getNow;
  let o := mkOpts runID (ctx_project ctx) "" experiment params vars yaml in
  if match v_ScheduledAt vars with Some at_ => now <? at_ | None => false end then
    runID ← if String.eqb runID "" then genID else mret runID;
    _ ← createRow (newRow ctx pl StatusScheduled now o runID (default "" (ctx_identity ctx)));
    _ ← if hasExport deps then modify (add_deed (Exported runID)) else mret tt;
    mret runID
  else StartRun ctx pl dag o.

Definition StartRunFromAPI (ctx : context) : string -> option (list (string * any)) -> BuiltinVars -> string -> M string :=
  StartRunFromAPIWithID ctx "".

(** [submissionMu] makes this one atomic step with respect to itself. *)
Definition SubmitRun (ctx : context) (projectID idempotencyKey yaml : string) (params : option (list (string * any)))
    (vars : BuiltinVars) (experiment : string) : M string :=
  if (String.eqb idempotencyKey "" || negb (hasSubmissionRepo deps))%bool
  then StartRunFromAPI ctx yaml params vars experiment else
  match hashSubmission yaml params experiment vars with
  | None => fail LEncode
  | Some requestHash =>
      runID ← genID;
      now ← getNow;
      submission ← repo (fun w =>
        let '(old, _, t) := ClaimSubmission (mkSubmission projectID idempotencyKey requestHash runID now) (w_subs w) in
        (Ok old, set_subs (fun _ => t) w));
      if negb (String.eqb (sub_RequestHash submission) requestHash) then fail LKeyReused else
      existing ← query (fun w => Get projectID (sub_RunID submission) (w_db w));
      match existing with
      | Some _ => mret (sub_RunID submission)
      | None =>
          r ← try (StartRunFromAPIWithID ctx (sub_RunID submission) yaml params vars experiment);
          match r with
          | Ok runID => mret runID
          | Err e =>
              existing ← try (query (fun w => Get projectID (sub_RunID submission) (w_db w)));
              _ ← match existing with
                  | Ok None => ignore (repo (modify (set_subs (DeleteSubmission projectID idempotencyKey))))
                  | _ => mret tt
                  end;
              fail e
          end
      end
  end.

Definition CancelRun (ctx : context) (runID : string) : M unit :=
  now ← getNow;
  callQueue (fun env => Cancel mapOrder env now (ctx_project ctx) runID (remoteCancel runID)).

(** The stored run, and the pipeline it was started from. *)
Definition previousRun (ctx : context) (runID : string) : M RunRow :=
  prev ← try (query (fun w => Get (ctx_project ctx) runID (w_db w)));
  match prev with Ok (Some r) => mret r | _ => fail (LNotFound runID) end.

Definition RerunRun (ctx : context) (runID : string) (failedOnly : bool) : M string :=
  prev ← previousRun ctx runID;
  if String.eqb (run_PipelineYAML prev) "" then fail (LNoYAML runID) else
  pl ← lift LParse (parse (run_PipelineYAML prev));
  pl ← if failedOnly then
         steps ← query (fun w => ListSteps (ctx_project ctx) runID (w_db w));
         let failed := failed_names steps in
         if bool_decide (failed = []) then fail (LNoFailedSteps runID) else
         mret (set_steps (without_deps <$> List.filter (fun s => bool_decide (s_Name s ∈ failed)) (ps_Steps (pl_Spec pl))) pl)
       else mret pl;
  dag ← lift LDag (BuildDAG pl);
  StartRun ctx pl dag (mkOpts "" (run_ProjectID prev) "" "" (decodeParams (run_ParamsJSON prev))
    (mkVars None None None) (run_PipelineYAML prev)).

Definition RetryStep (ctx : context) (runID stepName : string) : M string :=
  prev ← previousRun ctx runID;
  steps ← query (fun w => ListSteps (ctx_project ctx) runID (w_db w));
  if negb (existsb (fun s => String.eqb (st_StepName s) stepName && String.eqb (st_Status s) "failed")%bool steps)
  then fail (LStepNotFailed stepName runID) else
  if String.eqb (run_PipelineYAML prev) "" then fail (LNoYAML runID) else
  pl ← lift LParse (parse (run_PipelineYAML prev));
  match List.find (fun s => String.eqb (s_Name s) stepName) (ps_Steps (pl_Spec pl)) with
  | None => fail (LStepNotInYAML stepName)
  | Some s =>
      let pl := set_steps [without_deps s] pl in
      dag ← lift LDag (BuildDAG pl);
      StartRun ctx pl dag (mkOpts "" (run_ProjectID prev) "" "" (decodeParams (run_ParamsJSON prev))
        (mkVars None None None) (run_PipelineYAML prev))
  end.

(** *** Deleting *)

Definition DeleteRunWithArtifacts (projectID runID : string) : M unit :=
  _ ← repo (modify (set_db (DeleteRun projectID runID)));
  _ ← modify (add_deed (ArtifactsDeleted runID));
  modify (add_deed (WorkspaceDeleted runID)).

Definition DeleteRunsWithArtifacts (projectID : string) (runIDs : list string) : M unit :=
  _ ← repo (modify (set_db (DeleteRuns projectID runIDs)));
  forM runIDs (fun runID =>
    _ ← modify (add_deed (ArtifactsDeleted runID)); modify (add_deed (WorkspaceDeleted runID))).

(** *** Recovery *)

Fixpoint listAcross (projects : list string) (filter : RunFilter) : M (list RunRow) :=
  match projects with
  | [] => mret []
  | p :: projects =>
      runs ← query (fun w => ListRuns p filter (w_db w));
      rest ← listAcross projects filter;
      mret (runs ++ rest)
  end.

Definition ListRunsAcrossProjects (filter : RunFilter) : M (list RunRow) :=
  projects ← query w_projects;
  listAcross projects filter.

(** The loop body of [RecoverInterruptedRuns]. *)
Definition recoverRun (now : Z) (r : RunRow) : M unit :=
  tracked ← get (fun w => IsTracking (run_ID r) (w_queue w));
  if (tracked : bool) then mret tt else
  let failed := ignore (updateStatus (run_ProjectID r) (run_ID r) StatusFailed now) in
  if String.eqb (run_PipelineYAML r) "" then failed else
  match parse (run_PipelineYAML r) with
  | Err _ => failed
  | Ok pl =>
      match BuildDAG pl with
      | Err _ => failed
      | Ok dag =>
          steps ← try (query (fun w => ListSteps (run_ProjectID r) (run_ID r) (w_db w)));
          let recovered := omap (recovered_step now) (match steps with Ok l => l | Err _ => [] end) in
          match resolveEnv (run_ProjectID r) (run_ID r) pl with
          | None => failed
          | Some env =>
              now' ← getNow;
              callQueue (fun fenv => RecoverWithEnv mapOrder marshalStep marshalPipeline fenv now' pl dag
                (mkArgs (run_ProjectID r) (run_ID r) "." (runWorkspaceDir (OutputDir deps) (run_ID r))
                   (mkVars (run_ScheduledAt r) None None) (default [] (decodeParams (run_ParamsJSON r))) env)
                recovered)
          end
      end
  end.

Definition RecoverInterruptedRuns : M unit :=
  runs ← try (ListRunsAcrossProjects (mkFilter "" "" "" StatusRunning 0 0));
  match runs with
  | Err _ => mret tt
  | Ok runs => now ← getNow; forM runs (recoverRun now)
  end.

(** *** Schedules *)

Definition NextScheduleTime (expr : string) (from : Z) : res lerr Z :=
  match cronNext expr with Some next => Ok (next from) | None => Err LCron end.

(** [n] more runs may be created. *)
Fixpoint backfillLoop (n : nat) (ctx : context) (pl : Pipeline) (dag : DAG) (sc : Schedule)
    (params : option (list (string * any))) (next : Z -> Z) (to_ scheduledAt : Z) (runIDs : list string)
    : M (list string) :=
  if to_ <? scheduledAt then mret runIDs else
  match n with
  | O => fail LTooManyRuns
  | S n =>
      runID ← StartRun ctx pl dag (mkOpts "" (sc_ProjectID sc) (sc_ID sc) "" params
        (mkVars (Some scheduledAt) None (Some (next scheduledAt))) (sc_PipelineYAML sc));
      backfillLoop n ctx pl dag sc params next to_ (next scheduledAt) (runIDs ++ [runID])
  end.

Definition BackfillSchedule (ctx : context) (id_ : string) (from to_ : Z) : M (list string) :=
  sc ← query (fun w => GetSchedule (ctx_project ctx) id_ (w_schedules w));
  match sc with
  | None => fail LPanic
  | Some sc =>
      if negb (String.eqb (sc_ScheduleType sc) "cron") then fail LNotCron else
      match cronNext (sc_CronExpr sc) with
      | None => fail LCron
      | Some next =>
          '(pl, dag) ← parseAndBuild (sc_PipelineYAML sc);
          params ← if String.eqb (sc_ParamsJSON sc) "" then mret None else
                   match unmarshalParams (sc_ParamsJSON sc) with
                   | Some p => mret (Some p)
                   | None => fail LParams
                   end;
          backfillLoop 1000 ctx pl dag sc params next to_ (next (from - 1)) []
      end
  end.

(** The tries of [fireSchedule]: one, and three more after pauses. *)
Fixpoint fireTries (n : nat) (ctx : context) (pl : Pipeline) (dag : DAG) (o : StartRunOptions) : M unit :=
  match n with
  | O => mret tt
  | S n =>
      r ← try (StartRun ctx pl dag o);
      match r with
      | Ok _ => mret tt
      | Err _ => fireTries n ctx pl dag o
      end
  end.

Definition fireSchedule (ctx : context) (sc : Schedule) (vars : BuiltinVars) : M unit :=
  match parse (sc_PipelineYAML sc) with
  | Err _ => mret tt
  | Ok pl =>
      match BuildDAG pl with
      | Err _ => mret tt
      | Ok dag =>
          fireTries 4 ctx pl dag (mkOpts "" (sc_ProjectID sc) (sc_ID sc) "" (decodeParams (sc_ParamsJSON sc))
            vars (sc_PipelineYAML sc))
      end
  end.

(** The conditional updates, as repository calls. *)
Definition scheduleUpdate (f : Z -> schedule_table -> bool * schedule_table) : M bool :=
  now ← getNow;
  repo (fun w => let '(ok, t) := f now (w_schedules w) in (Ok ok, set_schedules (fun _ => t) w)).

(** What [ScheduleFired] does with the schedule it read. *)
Definition performFire (ctx : context) (now : Z) (sc : Schedule) (projectID scheduleID : string) : M unit :=
  match decide_fire deps cronNext now sc with
  | Ignore => mret tt
  | Disable =>
      t ← getNow;
      _ ← ignore (repo (modify (set_schedules (SetEnabled t projectID scheduleID false))));
      modify (set_scheduler (Remove scheduleID))
  | Advance plannedAt next =>
      ignore (scheduleUpdate (fun t => AdvanceNextRun t projectID scheduleID plannedAt next))
  | Claim plannedAt next =>
      claimed ← try (scheduleUpdate (fun t => ClaimRun t projectID scheduleID plannedAt now next));
      match claimed with
      | Ok true => fireSchedule ctx sc (mkVars (Some plannedAt) None (Some next))
      | _ => mret tt
      end
  | ClaimOnce scheduledAt =>
      claimed ← try (scheduleUpdate (fun t => ClaimOneShotRun t projectID scheduleID scheduledAt now));
      match claimed with
      | Ok true => fireSchedule ctx sc (mkVars (Some scheduledAt) None None)
      | _ => mret tt
      end
  end.

(** The scheduler calls it with a context that has no identity. *)
Definition ScheduleFired (projectID scheduleID : string) : M unit :=
  sc ← try (query (fun w => GetSchedule projectID scheduleID (w_schedules w)));
  match sc with
  | Ok (Some sc) =>
      if negb (sc_Enabled sc) then mret tt else
      now ← getNow;
      performFire (mkContext "" None) now sc projectID scheduleID
  | _ => mret tt
  end.

(** *** Retention *)

Definition before (cutoff : Z) (r : RunRow) : bool :=
  match run_EndedAt r with Some e => e <? cutoff | None => false end.

(** The loop body of [CleanupRetention] on one terminal run. *)
Definition retireRun (now : Z) (r : RunRow) : M unit :=
  if ((0 <? RunTTL deps) && before (now - RunTTL deps) r)%bool
  then ignore (DeleteRunWithArtifacts (run_ProjectID r) (run_ID r))
  else if ((0 <? ArtifactTTL deps) && before (now - ArtifactTTL deps) r)%bool
  then modify (add_deed (ArtifactsDeleted (run_ID r)))
  else mret tt.

Definition retireProject (now cutoff : Z) (projectID : string) : M unit :=
  runs ← try (query (fun w => ListTerminalBefore projectID cutoff (w_db w)));
  match runs with Ok runs => forM runs (retireRun now) | Err _ => mret tt end.

Definition retireSchedule (sc : Schedule) : M unit :=
  runs ← try (query (fun w => ListRuns (sc_ProjectID sc)
    (mkFilter "" "" (sc_ID sc) "" (sc_MaxRuns sc + retentionScheduleBatch) 0) (w_db w)));
  match runs with
  | Err _ => mret tt
  | Ok runs =>
      let deleteIDs := overflow (sc_MaxRuns sc) 0 runs in
      if bool_decide (deleteIDs = []) then mret tt
      else ignore (DeleteRunsWithArtifacts (sc_ProjectID sc) deleteIDs)
  end.

Definition CleanupScheduleRetention : M unit :=
  schedules ← try (query (fun w => ListWithMaxRuns (w_schedules w)));
  match schedules with Ok l => forM l retireSchedule | Err _ => mret tt end.

Definition CleanupRetention : M unit :=
  _ ← if ((0 <? RunTTL deps) || (0 <? ArtifactTTL deps))%bool then
        let cutoffTTL := if ((0 <? ArtifactTTL deps) && ((RunTTL deps <=? 0) || (ArtifactTTL deps <? RunTTL deps)))%bool
                         then ArtifactTTL deps else RunTTL deps in
        now ← getNow;
        projects ← try (query w_projects);
        forM (match projects with Ok l => l | Err _ => [] end) (retireProject now (now - cutoffTTL))
      else mret tt;
  CleanupScheduleRetention.
End Lifecycle.
