(* ===== verification/LifecycleFrame.v ===== *)
(** * What a lifecycle handler may change

    [keeps R m]: whatever world [m] starts in, [R] relates it to the one [m]
    ends in.  [R] is a preorder, so the rules follow the structure of a
    handler; the lemmas say which tables each handler leaves alone, which
    ticks of a schedule are fired, and which runs recovery and retention may
    touch. *)

From S2P Require Import Prelude Pipeline Dag RunStore Queue ScheduleStore Scheduler Lifecycle.
From stdpp Require Import options.
#[local] Open Scope Z_scope.
#[local] Set Default Proof Using "Type*".

(** ** The rules *)

Definition keeps {A} (R : World -> World -> Prop) (m : M A) : Prop := forall w, R w (m w).2.

(** The counters and the deeds do not matter to [R]. *)
Class Blind (R : World -> World -> Prop) : Prop := {
  blind_pre : PreOrder R;
  blind_call w : R w (next_call w);
  blind_tick w : R w (next_tick w);
  blind_uuid w : R w (next_uuid w);
  blind_deed d w : R w (add_deed d w) }.

#[export] Existing Instance blind_pre.

Section Rules.
Context (R : World -> World -> Prop) `{HR : !Blind R}.

Lemma keeps_ret {A} (a : A) : keeps R (mret a).
Proof. intros w. reflexivity. Qed.

Lemma keeps_bind {A B} (m : M A) (f : A -> M B) : keeps R m -> (forall a, keeps R (f a)) -> keeps R (m ≫= f).
Proof.
  intros Hm Hf w. unfold mbind, M_bind. specialize (Hm w). destruct (m w) as [[a|e] w1]; simpl in *; [|done].
  etrans; [exact Hm|apply Hf].
Qed.

Lemma keeps_fail {A} e : keeps R (fail (A:=A) e).
Proof. intros w. reflexivity. Qed.

Lemma keeps_lift {E A} f (r : res E A) : keeps R (lift f r).
Proof. intros w. reflexivity. Qed.

Lemma keeps_get {A} (f : World -> A) : keeps R (get f).
Proof. intros w. reflexivity. Qed.

Lemma keeps_try {A} (m : M A) : keeps R m -> keeps R (try m).
Proof. intros Hm w. unfold try. specialize (Hm w). by destruct (m w). Qed.

Lemma keeps_ignore {A} (m : M A) : keeps R m -> keeps R (ignore m).
Proof. intros Hm w. apply Hm. Qed.

Lemma keeps_deed d : keeps R (modify (add_deed d)).
Proof. intros w. apply blind_deed. Qed.

Lemma keeps_modify f : (forall w, R w (f w)) -> keeps R (modify f).
Proof. intros H w. apply H. Qed.

Lemma keeps_forM {A} (l : list A) f : (forall x, x ∈ l -> keeps R (f x)) -> keeps R (forM l f).
Proof.
  induction l as [|x l IH]; intros H; simpl; [apply keeps_ret|].
  apply keeps_bind; [apply H; by left|]. intros _. apply IH. intros y Hy. apply H. by right.
Qed.

Lemma keeps_now clock : keeps R (getNow clock).
Proof. intros w. apply blind_tick. Qed.

Lemma keeps_id uuid : keeps R (genID uuid).
Proof. intros w. apply blind_uuid. Qed.

Lemma keeps_repo {A} io (f : World -> res lerr A * World) : (forall w, R w (f w).2) -> keeps R (repo io f).
Proof.
  intros Hf w. unfold repo. destruct (io (w_calls w)); [|apply blind_call|];
    (etrans; [apply blind_call|apply Hf]).
Qed.

Lemma keeps_query {A} io (f : World -> A) : keeps R (query io f).
Proof. apply keeps_repo. intros w. reflexivity. Qed.
End Rules.

#[export] Hint Resolve keeps_ret keeps_bind keeps_fail keeps_lift keeps_get keeps_try keeps_ignore keeps_deed
  keeps_forM keeps_now keeps_id keeps_query : keeps.

#[export] Hint Extern 0 (Blind _) => apply _ : keeps.

(** Follows the structure of a handler, splitting its cases. *)
Ltac keeps_step :=
  match goal with
  | |- Blind _ => apply _
  | |- forall _, _ => intro
  | |- keeps _ (mbind _ _) => apply keeps_bind
  | |- keeps _ (ignore _) => apply keeps_ignore
  | |- keeps _ (try _) => apply keeps_try
  | |- keeps _ (forM _ _) => apply keeps_forM
  | |- keeps _ (match ?x with _ => _ end) => destruct x
  | |- keeps _ (let '_ := ?x in _) => destruct x
  | |- keeps _ _ => solve [auto with keeps]
  end.
Ltac keeps := repeat (keeps_step; cbv zeta).

(** ** Handlers that leave a table alone *)

Definition same_schedules (w w' : World) : Prop := w_schedules w' = w_schedules w.

#[export] Instance same_schedules_blind : Blind same_schedules.
Proof. split; try done. split; [by intros w|]. intros a b c. unfold same_schedules. congruence. Qed.

(** The run tables and the queue. *)
Definition same_engine (w w' : World) : Prop := w_db w' = w_db w /\ w_queue w' = w_queue w.

#[export] Instance same_engine_blind : Blind same_engine.
Proof. split; try by split. split; [by split|]. intros a b c [? ?] [? ?]. split; congruence. Qed.

Section Frame.
Context (deps : Deps) (io : nat -> attempt) (flushEnv : nat -> nat -> nat -> attempt * bool).
Context (clock : nat -> Z) (uuid : nat -> string) (parse : string -> res verr Pipeline).
Context (mapOrder : nat -> list string -> list string).
Context (marshalStep : Step -> option string) (marshalPipeline : Pipeline -> option string).
Context (marshalParams : list (string * any) -> option string).
Context (unmarshalParams : string -> option (list (string * any))).
Context (hashSubmission : string -> option (list (string * any)) -> string -> BuiltinVars -> option string).
Context (cronNext : string -> option (Z -> Z)).
Context (validateCredential : string -> string -> bool).
Context (resolveEnv : string -> string -> Pipeline -> option (gmap string (list string))).

Notation StartRun := (StartRun deps io flushEnv clock uuid mapOrder marshalStep marshalPipeline marshalParams
  validateCredential resolveEnv).
Notation prepareRun := (prepareRun deps io clock uuid marshalParams validateCredential resolveEnv).
Notation fireSchedule := (fireSchedule deps io flushEnv clock uuid parse mapOrder marshalStep marshalPipeline
  marshalParams unmarshalParams validateCredential resolveEnv).
Notation performFire := (performFire deps io flushEnv clock uuid parse mapOrder marshalStep marshalPipeline
  marshalParams unmarshalParams cronNext validateCredential resolveEnv).

(** A relation that the statements on the run tables and the calls of the
    queue respect. *)
Lemma keeps_prepareRun R `{!Blind R} ctx pl o :
  (forall r w db, Create r (w_db w) = Some db -> R w (set_db (fun _ => db) w)) ->
  (forall f w, R w (set_db f w)) -> keeps R (prepareRun ctx pl o).
Proof.
  intros Hc Hu. unfold prepareRun, Lifecycle.prepareRun, createRow, updateStatus. keeps.
  - apply keeps_repo; [apply _|]. intros w. destruct (Create _ _) eqn:E; simpl; [by eapply Hc|reflexivity].
  - apply keeps_repo; [apply _|]. intros w. apply Hu.
  - apply keeps_repo; [apply _|]. intros w. apply Hu.
Qed.

Lemma keeps_StartRun R `{!Blind R} ctx pl dag o :
  (forall f w, R w (set_db f w)) -> (forall db a q w, R w (set_engine db a q w)) -> keeps R (StartRun ctx pl dag o).
Proof.
  intros Hd He. unfold Lifecycle.StartRun, enqueueRun. keeps.
  - by apply keeps_prepareRun.
  - intros w. unfold callQueue. destruct (AddWithEnv _ _ _ _ _ _ _ _ _ _) as [st q]. simpl.
    etrans; [apply blind_call|apply He].
Qed.

Lemma fireSchedule_schedules ctx sc vars : keeps same_schedules (fireSchedule ctx sc vars).
Proof.
  unfold Lifecycle.fireSchedule. destruct (parse _); [|apply keeps_ret; apply _]. destruct (BuildDAG _); [|apply keeps_ret; apply _].
  generalize 4%nat as n. induction n as [|n IH]; simpl; [apply keeps_ret; apply _|]. keeps; try exact IH.
  apply keeps_StartRun; [apply _|done|done].
Qed.

(** ** The ticks of a schedule *)

(** The tick a callback goes on to fire in [w]: the one it claims, when the
    claim reports success. *)
Definition fired (now : Z) (sc : Schedule) (projectID scheduleID : string) (w : World) : option Z :=
  let claimed f := match io (w_calls w) with AttemptOk => (f (clock (w_ticks w)) (w_schedules w)).1 | _ => false end in
  match decide_fire deps cronNext now sc with
  | Claim plannedAt next =>
      if claimed (fun t => ClaimRun t projectID scheduleID plannedAt now next) then Some plannedAt else None
  | ClaimOnce scheduledAt =>
      if claimed (fun t => ClaimOneShotRun t projectID scheduleID scheduledAt now) then Some scheduledAt else None
  | _ => None
  end.

(** How a conditional update ends, and what it leaves. *)
Lemma scheduleUpdate_spec f w :
  let '(r, w') := scheduleUpdate io clock f w in
  same_engine w w' /\
  (w_schedules w' = w_schedules w /\ r <> Ok true \/
   w_schedules w' = (f (clock (w_ticks w)) (w_schedules w)).2 /\
   (r = Ok true -> io (w_calls w) = AttemptOk /\ (f (clock (w_ticks w)) (w_schedules w)).1 = true)) /\
  (r <> Ok true -> match io (w_calls w) with AttemptOk => (f (clock (w_ticks w)) (w_schedules w)).1 | _ => false end = false).
Proof.
  unfold scheduleUpdate, mbind, M_bind, getNow, repo. simpl.
  destruct (io (w_calls w)); simpl; destruct (f (clock (w_ticks w)) (w_schedules w)) as [ok t]; simpl.
  - split; [done|]. split; [right; split; [done|by intros [= ->]]|]. by destruct ok.
  - split; [done|]. split; [by left|done].
  - split; [done|]. split; [right; by split|done].
Qed.

Hypothesis cronNext_later : forall expr next t, cronNext expr = Some next -> t < next t.

Lemma decide_later now sc :
  StartedAt deps <= now -> sc_ScheduleType sc = "cron"%string ->
  match decide_fire deps cronNext now sc with
  | Advance plannedAt next | Claim plannedAt next => plannedAt < next
  | ClaimOnce _ => False
  | _ => True
  end.
Proof.
  intros Hs Hc. unfold decide_fire. rewrite Hc. simpl. destruct (sc_Enabled sc); simpl; [|done].
  destruct (cronNext (sc_CronExpr sc)) as [next|] eqn:E; [|done]. pose proof (cronNext_later _ _ now E).
  destruct (sc_NextRunAt sc <? StartedAt deps) eqn:Hm; simpl;
    [destruct (_ || _)%bool eqn:?; [lia|]|]; destruct (now <? sc_NextRunAt sc) eqn:?; try done; lia.
Qed.

(** The next tick of a row, or no row, never goes back. *)
Definition tick_le (k : string * string) (w w' : World) : Prop :=
  forall row', w_schedules w' !! k = Some row' ->
    exists row, w_schedules w !! k = Some row /\ sc_NextRunAt row <= sc_NextRunAt row'.

Lemma tick_le_same k w w' : w_schedules w' = w_schedules w -> tick_le k w w'.
Proof. intros E row. rewrite E. eauto with lia. Qed.

Lemma tick_le_update p id_ at_ f w w' :
  w_schedules w' = (update_tick p id_ at_ f (w_schedules w)).2 -> (forall sc, at_ <= sc_NextRunAt (f sc)) ->
  tick_le (p, id_) w w' /\
  ((update_tick p id_ at_ f (w_schedules w)).1 = true -> exists row, w_schedules w !! (p, id_) = Some row /\
     sc_NextRunAt row = at_ /\ w_schedules w' !! (p, id_) = Some (f row)).
Proof.
  intros E Hf. destruct (update_tick p id_ at_ f (w_schedules w)) as [ok t] eqn:Eu. simpl in *. destruct ok.
  - destruct (update_tick_true _ _ _ _ _ _ Eu) as (row & Hr & _ & Hn & ->). split.
    + intros row'. rewrite E, lookup_insert_eq. intros [= <-]. exists row. split; [done|]. rewrite Hn. apply Hf.
    + intros _. exists row. by rewrite E, lookup_insert_eq.
  - rewrite (update_tick_false _ _ _ _ _ _ Eu) in E. split; [by apply tick_le_same|done].
Qed.

(** What one callback does to the row it is about. *)
Lemma performFire_tick ctx now sc p id_ w :
  StartedAt deps <= now -> sc_ScheduleType sc = "cron"%string ->
  let w' := (performFire ctx now sc p id_ w).2 in
  tick_le (p, id_) w w' /\
  (forall t, fired now sc p id_ w = Some t -> exists row row', w_schedules w !! (p, id_) = Some row /\
     sc_NextRunAt row = t /\ w_schedules w' !! (p, id_) = Some row' /\ t < sc_NextRunAt row').
Proof.
  intros Hs Hc. pose proof (decide_later now sc Hs Hc) as Hl. unfold Lifecycle.performFire, fired.
  destruct (decide_fire deps cronNext now sc) as [| |planned next|planned next|at_]; [| | | |done]; cbv zeta.
  - split; [by apply tick_le_same|done].
  - split; [|done]. intros row'. unfold mbind, M_bind, getNow, ignore, repo, modify. simpl.
    destruct (io (w_calls w)); simpl; [|by eauto with lia|];
      unfold SetEnabled; rewrite lookup_alter_eq; intros (row & -> & ->)%fmap_Some; simpl; eauto with lia.
  - split; [|done]. unfold ignore.
    pose proof (scheduleUpdate_spec (fun t => AdvanceNextRun t p id_ planned next) w) as H.
    destruct (scheduleUpdate io clock _ w) as [r w1]. simpl in *. destruct H as (_ & [[E _]|[E _]] & _); [by apply tick_le_same|].
    by apply (tick_le_update _ _ _ _ _ _ E); simpl; lia.
  - unfold mbind, M_bind, try.
    pose proof (scheduleUpdate_spec (fun t => ClaimRun t p id_ planned now next) w) as H.
    destruct (scheduleUpdate io clock _ w) as [r w1]. destruct H as (_ & Ht & Hf).
    assert (forall w2, w_schedules w2 = w_schedules w1 -> tick_le (p, id_) w w2 /\
      forall t, (if match io (w_calls w) with AttemptOk => (ClaimRun (clock (w_ticks w)) p id_ planned now next (w_schedules w)).1
                    | _ => false end then Some planned else None) = Some t ->
        exists row row', w_schedules w !! (p, id_) = Some row /\ sc_NextRunAt row = t /\
          w_schedules w2 !! (p, id_) = Some row' /\ t < sc_NextRunAt row') as Hgoal.
    { intros w2 E2. destruct Ht as [[E Hr]|[E Hr]].
      - rewrite (Hf Hr). split; [apply tick_le_same; congruence|done].
      - rewrite <- E2 in E. destruct (tick_le_update _ _ _ _ _ _ E) as [H1 H2]; [simpl; lia|]. split; [done|]. intros t.
        destruct (io (w_calls w)); [|done..]. unfold ClaimRun in *. destruct (update_tick _ _ _ _ _).1; [|done].
        intros [= <-]. destruct (H2 eq_refl) as (row & Hrow & Hn & Hrow'). exists row, (sc_set_runs (Some now) next (clock (w_ticks w)) (sc_Enabled row) row). done. }
    destruct r as [[]|e]; [|by apply Hgoal..]. apply Hgoal. apply fireSchedule_schedules.
Qed.

(** A callback that fires nothing changes neither the run tables nor the queue. *)
Lemma performFire_quiet ctx now sc p id_ w :
  fired now sc p id_ w = None -> same_engine w (performFire ctx now sc p id_ w).2.
Proof.
  unfold Lifecycle.performFire, fired. destruct (decide_fire deps cronNext now sc); cbv zeta.
  - done.
  - intros _. unfold mbind, M_bind, getNow, ignore, repo, modify. simpl. by destruct (io (w_calls w)).
  - intros _. unfold ignore.
    pose proof (scheduleUpdate_spec (fun t => AdvanceNextRun t p id_ plannedAt next) w) as H. by destruct (scheduleUpdate _ _ _ w), H.
  - pose proof (scheduleUpdate_spec (fun t => ClaimRun t p id_ plannedAt now next) w) as H. unfold mbind, M_bind, try.
    destruct (scheduleUpdate _ _ _ w) as [[[]|] w1]; destruct H as (H & [[_ Hr]|[_ Hr]] & _); try done.
    destruct (Hr eq_refl) as [-> ->]. done.
  - pose proof (scheduleUpdate_spec (fun t => ClaimOneShotRun t p id_ scheduledAt now) w) as H. unfold mbind, M_bind, try.
    destruct (scheduleUpdate _ _ _ w) as [[[]|] w1]; destruct H as (H & [[_ Hr]|[_ Hr]] & _); try done.
    destruct (Hr eq_refl) as [-> ->]. done.
Qed.

(** The ticks of one cron schedule fired so far, in a history of callbacks
    that act on the row each has read at some earlier time, interleaved with
    anything that does not set the next tick back (enabling, disabling,
    deleting, other schedules). *)
Inductive history (k : string * string) : World -> list Z -> Prop :=
| history_start w : history k w []
| history_other w w' l : history k w l -> tick_le k w w' -> history k w' l
| history_fire ctx w l now sc :
    history k w l -> StartedAt deps <= now -> sc_ScheduleType sc = "cron"%string ->
    history k (performFire ctx now sc k.1 k.2 w).2 (option_list (fired now sc k.1 k.2 w) ++ l).

Lemma history_below k w l :
  history k w l -> StronglySorted (fun a b => b < a) l /\
    forall row, w_schedules w !! k = Some row -> Forall (fun t => t < sc_NextRunAt row) l.
Proof.
  induction 1 as [w|w w' l _ [IH1 IH2] Ht|ctx w l now sc _ [IH1 IH2] Hs Hc].
  - split; [constructor|]. intros. constructor.
  - split; [done|]. intros row' Hr. destruct (Ht _ Hr) as (row & Hrow & Hle).
    eapply Forall_impl; [by apply IH2|]. simpl. lia.
  - destruct k as [p id_]. simpl. destruct (performFire_tick ctx now sc p id_ w Hs Hc) as [Ht Hf].
    assert (forall row', w_schedules (performFire ctx now sc p id_ w).2 !! (p, id_) = Some row' -> Forall (fun t => t < sc_NextRunAt row') l) as Hl.
    { intros row' Hr. destruct (Ht _ Hr) as (row & Hrow & Hle). eapply Forall_impl; [by apply IH2|]. simpl. lia. }
    destruct (fired now sc p id_ w) as [t|]; simpl; [|done].
    destruct (Hf t eq_refl) as (row & row' & Hrow & <- & Hrow' & Hlt). split.
    + constructor; [done|]. by apply IH2.
    + intros row2 Hr. rewrite Hrow' in Hr. injection Hr as <-. constructor; [done|]. by apply Hl.
Qed.

(** C10: No tick of a cron schedule is fired twice, however its callbacks
    interleave and however stale the rows they read are: the fired ticks
    strictly increase, and a callback that fires none changes no run and not
    the queue. *)
Theorem tick_fired_once k w l (Hh : history k w l) :
  StronglySorted (fun a b => b < a) l /\ NoDup l /\
  (forall ctx now sc, fired now sc k.1 k.2 w = None -> same_engine w (performFire ctx now sc k.1 k.2 w).2).
Proof.
  destruct (history_below _ _ _ Hh) as [Hs _]. split_and!; [done| |intros; by apply performFire_quiet].
  clear Hh. induction Hs as [|a l Hs IH Hf]; constructor; [|done]. intros Hin. rewrite Forall_forall in Hf.
  specialize (Hf _ Hin). lia.
Qed.
End Frame.
