(* ===== verification/LifecycleSpec.v ===== *)
(** * The lifecycle handlers against the queue and the tables

    What adding and re-adding a run change ([leaves]), what [StartRun]
    establishes, that recovery leaves the tracked runs alone, that retention
    keeps what is active, and that a submission is idempotent; then concrete
    schedules of events the handlers do not handle. *)

From S2P Require Import Prelude Pipeline Dag RunStore Queue QueueInv QueueProgress QueueFlush ScheduleStore Scheduler Lifecycle LifecycleFrame.
From stdpp Require Import options.
#[local] Open Scope Z_scope.
#[local] Set Default Proof Using "Type*".

(** ** What adding a run writes *)

(** The writes deferred so far all satisfy [P], and no run was allocated. *)
Definition grows (P : write -> Prop) (q q' : Queue) : Prop :=
  rt_nextRef (q_rt q') = rt_nextRef (q_rt q) /\
  (Forall (fun w => P (w_fn w)) (q_pendingWrites q) -> Forall (fun w => P (w_fn w)) (q_pendingWrites q')).

#[export] Instance grows_preorder P : PreOrder (grows P).
Proof. split; [by split|]. intros a b c [H1 H2] [H3 H4]. split; [congruence|auto]. Qed.

Lemma grows_same P q q' :
  rt_nextRef (q_rt q') = rt_nextRef (q_rt q) -> q_pendingWrites q' = q_pendingWrites q -> grows P q q'.
Proof. intros H1 H2. split; [done|]. by rewrite H2. Qed.

Lemma grows_write P d w q : P w -> grows P q (appendWrite d w q).
Proof. intros Hw. split; [done|]. intros H. simpl. apply Forall_app. by repeat constructor. Qed.

Lemma grows_stop P e q : grows P q (stopEntryTimerLocked e q).
Proof. unfold stopEntryTimerLocked. by repeat case_match; apply grows_same. Qed.

Lemma grows_transition P e to q : grows P q (transition e to q).
Proof. unfold transition, transitionTaskLocked. by repeat case_match; apply grows_same. Qed.

Lemma grows_emit P p t f q : grows P q (emit p t f q).
Proof. unfold emit. by case_match; apply grows_same. Qed.

Lemma grows_foldl {A} P (f : Queue -> A -> Queue) l q :
  (forall q x, grows P q (f q x)) -> grows P q (foldl f q l).
Proof. intros H. revert q. induction l as [|x l IH]; intros q; simpl; [done|]. etrans; [apply H|apply IH]. Qed.

Section Grows.
Context (P : write -> Prop).
Hypothesis P_upsert : forall s, P (WUpsert s).

Lemma grows_start now id e q : grows P q (startTaskLocked now id e q).
Proof.
  unfold startTaskLocked. cbv zeta. rewrite startTask_upd.
  etrans; [by apply (grows_same _ _ (updEntry e (te_start now) q))|]. case_match; [|done].
  etrans; [|by apply grows_write]. etrans; [|apply grows_emit]. case_match; [|done].
  unfold scheduleTimeoutLocked. etrans; [|by apply grows_same]. etrans; [|apply grows_stop]. by apply grows_same.
Qed.

Lemma grows_dispatch now e q : grows P q (dispatchIfNeeded now e q).
Proof.
  unfold dispatchIfNeeded. destruct (q_backend (q_conf q)); [|done]. destruct (getEntry e q); [|done].
  etrans; [apply grows_start|]. case_match; [by apply grows_same|done].
Qed.

Lemma grows_promote mapOrder now ref q : grows P q (promoteReady mapOrder now ref q).
Proof.
  unfold promoteReady, rangeMap. destruct (q_heap q !! ref) as [r|]; [|done].
  etrans; [by apply (grows_same _ _ (set_rt rt_reseed q))|]. apply grows_foldl. clear q. intros q n.
  unfold promoteEntry. cbv zeta. destruct (getEntry _ q); [|done]. case_match; [done|]. case_match; [|done].
  etrans; [|apply grows_dispatch]. etrans; [apply grows_transition|apply grows_emit].
Qed.

Lemma grows_recoverStep ms now a js byName ref q s : grows P q (recoverStep ms now a js byName ref q s).
Proof.
  unfold recoverStep. cbv zeta. etrans; [by apply (grows_same _ _ (set_heap (alter (re_set_tasks
    <[s_Name s := newEntry ms now a q js s]>) ref) q))|]. case_match; [|done]. case_match; [apply grows_transition|].
  case_match; [|done]. unfold scheduleRecoveryGraceLocked. etrans; [|by apply grows_same]. etrans; [|apply grows_stop].
  etrans; [|apply grows_emit]. etrans; [apply grows_transition|]. by apply grows_same.
Qed.

Lemma grows_finalize now ref r status ty q :
  q_heap q !! ref = Some r -> (forall c at_, P (WFinalize c (re_projectID r) (re_runID r) status at_)) ->
  grows P q (finalizeRunLocked now ref status ty q).
Proof.
  intros Hr HP. unfold finalizeRunLocked, releaseRun. rewrite Hr. cbv zeta.
  match goal with |- context [appendWrite ?d ?w ?q0] => assert (grows P q (appendWrite d w q0)) as H end.
  { etrans; [|by apply grows_write]. by apply grows_same. }
  etrans; [exact H|]. by repeat case_match; apply grows_same.
Qed.
End Grows.

(** ** What a call of the queue leaves alone *)

(** The runs the queue tracks are objects it has allocated, and it has no
    deferred work. *)
Definition sound (q : Queue) : Prop :=
  (forall id ref, q_runs q !! id = Some ref -> (ref < rt_nextRef (q_rt q))%nat) /\ drained q.

Lemma reach_sound mapOrder ms mp q : reach mapOrder ms mp q -> sound q.
Proof.
  intros ((H1 & _) & _ & _ & (H2 & _) & Hd)%reach_ok. split; [|done]. intros id ref Hr.
  pose proof (H2 _ _ Hr) as Hl. apply fmap_Some in Hl as (r & Hr' & _). by apply (H1 _ r).
Qed.

(** The operation is about the run [id] of project [p]: every other tracked
    run stays tracked, with the statuses of its steps, and no other row of the
    run table changes. *)
Definition leaves (p id_ : string) (w w' : World) : Prop :=
  sound (w_queue w) ->
  sound (w_queue w') /\
  (forall id' ref, id' <> id_ -> q_runs (w_queue w) !! id' = Some ref ->
     q_runs (w_queue w') !! id' = Some ref /\ viewOf ref (w_queue w') = viewOf ref (w_queue w)) /\
  (forall id', id' <> id_ -> q_runs (w_queue w) !! id' = None -> q_runs (w_queue w') !! id' = None) /\
  (forall k, k <> (p, id_) -> db_runs (w_db w') !! k = db_runs (w_db w) !! k).

#[export] Instance leaves_blind p id_ : Blind (leaves p id_).
Proof.
  assert (forall w w', w_queue w' = w_queue w -> w_db w' = w_db w -> leaves p id_ w w') as Hrefl.
  { intros w w' Eq Ed Hs. rewrite Eq, Ed. split; [exact Hs|]. by split_and!. }
  split; [split; [intros w; by apply Hrefl|]|intros; by apply Hrefl..].
  intros a b c H1 H2. unfold leaves in *. intros Ha. destruct (H1 Ha) as (Hb & T1 & N1 & D1). destruct (H2 Hb) as (Hc & T2 & N2 & D2).
  split; [exact Hc|]. split_and!.
  - intros id' ref Hne Hr. destruct (T1 _ _ Hne Hr) as [Hr1 <-]. by apply T2.
  - intros id' Hne Hr. by apply N2, N1.
  - intros k Hk. by rewrite D2, D1.
Qed.

(** A write about the run [id] of project [p]. *)
Definition about (p id_ : string) (w : write) : Prop :=
  match w with
  | WUpsert _ => True
  | WFinalize _ p' id' _ _ | WCancelUntracked p' id' _ => p' = p /\ id' = id_
  end.

Lemma FinalizeStatusCAS_other p id_ to e db k :
  k <> (p, id_) -> db_runs (FinalizeStatusCAS p id_ to e db).2 !! k = db_runs db !! k.
Proof. intros H. unfold FinalizeStatusCAS. repeat case_match; simpl; try done. by rewrite lookup_insert_ne. Qed.

Lemma callWrite_about p id_ at_ w st k :
  about p id_ w -> k <> (p, id_) -> db_runs (fl_db (callWrite at_ w st).2) !! k = db_runs (fl_db st) !! k.
Proof.
  intros Ha Hk. destruct w as [s|c p' id' status t|p' id' t]; simpl in *.
  - by destruct at_.
  - destruct Ha as [-> ->]. pose proof (FinalizeStatusCAS_other p id_ status (Some t) (fl_db st) k Hk) as H.
    destruct (FinalizeStatusCAS p id_ status (Some t) (fl_db st)) as [ap db']. simpl in *. by destruct at_.
  - destruct Ha as [-> ->]. destruct at_; simpl; try done; by apply FinalizeStatusCAS_other.
Qed.

Lemma persist_about p id_ env w st k :
  about p id_ w -> k <> (p, id_) -> db_runs (fl_db (persistWithRetry env w st).2) !! k = db_runs (fl_db st) !! k.
Proof.
  intros Ha Hk. unfold persistWithRetry.
  destruct (persistLoop_calls env persistMaxAttempts 0 persistBackoff w st) as (calls & -> & _).
  revert st. induction calls as [|at_ calls IH]; intros st; simpl; [done|]. rewrite IH. by apply (callWrite_about p id_).
Qed.

Lemma flushWrites_about p id_ env i ws st k :
  Forall (fun w => about p id_ (w_fn w)) ws -> k <> (p, id_) ->
  db_runs (fl_db (flushWrites env i ws st)) !! k = db_runs (fl_db st) !! k.
Proof.
  intros Hw Hk. revert i st. induction Hw as [|w ws Hw Hws IH]; intros i st; simpl; [done|].
  rewrite IH. by apply (persist_about p id_).
Qed.

(** Running the effects only observes. *)
Lemma runEffects_same ap fs q :
  let q' := foldl (runEffect ap) q fs in
  q_runs q' = q_runs q /\ q_heap q' = q_heap q /\ rt_nextRef (q_rt q') = rt_nextRef (q_rt q) /\
  q_pendingWrites q' = q_pendingWrites q /\ q_pendingEffects q' = q_pendingEffects q.
Proof.
  revert q. induction fs as [|f fs IH]; intros q; simpl; [done|].
  destruct (IH (runEffect ap q f)) as (-> & -> & -> & -> & ->).
  unfold runEffect, emit. by repeat case_match.
Qed.

(** A locked section that touches only a new object and writes about its run. *)
Lemma leaves_call p id_ f w :
  (sound (w_queue w) -> forall env st, exists q1,
     f env st (w_queue w) = flushed env (takePendingLocked q1) st /\
     grows (about p id_) (set_rt rt_newRef (w_queue w)) q1 /\
     (forall ref, ref <> rt_nextRef (q_rt (w_queue w)) -> viewOf ref q1 = viewOf ref (w_queue w)) /\
     (q_runs q1 = <[id_ := rt_nextRef (q_rt (w_queue w))]> (q_runs (w_queue w)) \/ 
      q_runs q1 = delete id_ (q_runs (w_queue w)))) ->
  forall flushEnv, leaves p id_ w (callQueue flushEnv f w).2.
Proof.
  intros H flushEnv Hs. unfold callQueue.
  destruct (H Hs (flushEnv (w_calls w)) (mkFlush (w_db w) (w_applied w))) as (q1 & -> & [Hn Hw] & Hv & Hr). clear H.
  destruct Hs as [Hf [Hd1 Hd2]]. unfold flushed, flushPending, takePendingLocked. cbn [fst snd po_writes po_effects].
  match goal with |- context [foldl (runEffect ?ap) ?q0 ?fs] => pose proof (runEffects_same ap fs q0) as E;
    set (q2 := foldl (runEffect ap) q0 fs) in * end. clearbody q2. cbv zeta in E. cbn in E. destruct E as (E1 & E2 & E3 & E4 & E5).
  cbn [set_engine w_queue w_db fst snd next_call fl_db].
  split; [split; [|by split]|split_and!].
  - intros id' ref. rewrite E1, E3, Hn. simpl. intros Hr'. destruct Hr as [Hr|Hr]; rewrite Hr in Hr'.
    + rewrite lookup_insert_Some in Hr'. destruct Hr' as [[_ <-]|[_ Hr']]; [lia|]. specialize (Hf _ _ Hr'). lia.
    + rewrite lookup_delete_Some in Hr'. destruct Hr' as [_ Hr']. specialize (Hf _ _ Hr'). lia.
  - intros id' ref Hne Hr'. rewrite E1. split.
    + destruct Hr as [-> | ->]; [by rewrite lookup_insert_ne|by rewrite lookup_delete_ne].
    + rewrite <- (Hv ref); [by apply viewOf_heap|]. specialize (Hf _ _ Hr'). lia.
  - intros id' Hne Hr'. rewrite E1. destruct Hr as [-> | ->]; [by rewrite lookup_insert_ne|by rewrite lookup_delete_ne].
  - intros k Hk. rewrite (flushWrites_about p id_); [done| |done]. apply Hw. simpl. by rewrite Hd1.
Qed.

Section Calls.
Context (mapOrder : nat -> list string -> list string).
Context (marshalStep : Step -> option string) (marshalPipeline : Pipeline -> option string).

Lemma newRun_view now a pl dag tasks q ref :
  ref <> rt_nextRef (q_rt q) -> viewOf ref (newRun now a pl dag tasks q).2 = viewOf ref q.
Proof. intros H. unfold viewOf, runTasks. simpl. by rewrite lookup_insert_ne. Qed.

Lemma leaves_add flushEnv now pl dag a w :
  leaves (ra_projectID a) (ra_runID a) w
    (callQueue flushEnv (fun env => AddWithEnv mapOrder marshalStep marshalPipeline env now pl dag a) w).2.
Proof.
  apply leaves_call. intros _ env st. unfold AddWithEnv, addWithEnvLocked. cbv zeta.
  set (q := w_queue w). set (tasks := addTasks _ _ _ _ _ _).
  pose proof (newRun_view now a (ApplyDefaults pl) dag tasks q) as Hv. unfold newRun in *. cbv zeta in *. cbn [fst snd] in Hv.
  set (q0 := set_rt rt_newRef _) in *. eexists. split; [reflexivity|]. split_and!.
  - etrans; [|by apply (grows_same _ (promoteReady mapOrder now (rt_nextRef (q_rt q)) q0))].
    etrans; [|by apply grows_promote]. by apply grows_same.
  - intros ref Hne. rewrite <- (Hv ref Hne).
    destruct (touches_promote mapOrder now (rt_nextRef (q_rt q)) q0) as [_ Ht]. by apply Ht.
  - left. simpl. destruct (touches_promote mapOrder now (rt_nextRef (q_rt q)) q0) as [-> _]. done.
Qed.

Lemma recoverLoop_touches now a js byName ref id l q :
  rid q ref = Some id ->
  let q' := foldl (recoverStep marshalStep now a js byName ref) q l in touches ref q q' /\ rid q' ref = Some id.
Proof.
  revert q. induction l as [|s l IH]; intros q Hid; simpl; [done|].
  destruct (recoverStep_view marshalStep now a js byName ref q s id Hid) as (Ht & Hr & _).
  destruct (IH (recoverStep marshalStep now a js byName ref q s)) as [Ht' Hid']; [by rewrite Hr|].
  split; [by etrans|done].
Qed.

Lemma rid_run q ref id : rid q ref = Some id -> exists r, q_heap q !! ref = Some r /\ re_runID r = id.
Proof. unfold rid. intros (r & Hr & ->)%fmap_Some. eauto. Qed.

(** The project of a run object is never changed. *)
Definition proj (q : Queue) (ref : nat) : option string := re_projectID <$> q_heap q !! ref.

Lemma proj_alter f ref' q ref : proj (set_heap (alter (re_set_tasks f) ref') q) ref = proj q ref.
Proof.
  unfold proj. simpl. destruct (decide (ref' = ref)) as [->|]; [rewrite lookup_alter_eq|by rewrite lookup_alter_ne].
  by destruct (q_heap q !! ref).
Qed.

Lemma proj_upd e f q ref : proj (updEntry e f q) ref = proj q ref.
Proof. apply proj_alter. Qed.

Lemma proj_stop e q ref : proj (stopEntryTimerLocked e q) ref = proj q ref.
Proof. unfold stopEntryTimerLocked. repeat case_match; try done; by rewrite proj_upd. Qed.

Lemma proj_emit p t f q ref : proj (emit p t f q) ref = proj q ref.
Proof. unfold emit. by case_match. Qed.

Lemma proj_recoverStep now a js byName ref' q s ref :
  proj (recoverStep marshalStep now a js byName ref' q s) ref = proj q ref.
Proof.
  unfold recoverStep. cbv zeta. case_match; [|apply proj_alter].
  case_match; [by rewrite transition_upd, proj_upd, proj_alter|]. case_match; [|apply proj_alter].
  unfold scheduleRecoveryGraceLocked, armTimer. rewrite proj_upd.
  match goal with |- proj (set_rt _ (wgAdd ?x)) _ = _ => change (proj x ref = proj q ref) end.
  by rewrite proj_stop, proj_emit, proj_upd, transition_upd, proj_upd, proj_alter.
Qed.

Lemma proj_foldl {A} (f : Queue -> A -> Queue) l q ref :
  (forall q x, proj (f q x) ref = proj q ref) -> proj (foldl f q l) ref = proj q ref.
Proof. intros H. revert q. induction l as [|x l IH]; intros q; simpl; [done|]. by rewrite IH, H. Qed.

Lemma leaves_recover flushEnv now pl dag a recovered w :
  leaves (ra_projectID a) (ra_runID a) w
    (callQueue flushEnv (fun env => RecoverWithEnv mapOrder marshalStep marshalPipeline env now pl dag a recovered) w).2.
Proof.
  apply leaves_call. intros _ env st. unfold RecoverWithEnv, recoverWithEnvLocked. cbv zeta.
  set (q := w_queue w).
  pose proof (newRun_view now a (ApplyDefaults pl) dag ∅ q) as Hv. unfold newRun in *. cbv zeta in *. cbn [fst snd] in Hv.
  set (ref := rt_nextRef (q_rt q)) in *. set (q0 := set_rt rt_newRef _) in *.
  assert (rid q0 ref = Some (ra_runID a)) as Hid by (unfold rid; simpl; by rewrite lookup_insert_eq).
  assert (proj q0 ref = Some (ra_projectID a)) as Hp by (unfold proj; simpl; by rewrite lookup_insert_eq).
  set (js := marshalPipeline _). set (l := ps_Steps _). set (byName := recoveredByName recovered).
  destruct (recoverLoop_touches now a js byName ref (ra_runID a) l q0 Hid) as [[Hr Ht] Hid1].
  rewrite <- (proj_foldl (recoverStep marshalStep now a js byName ref) l) in Hp by (intros; apply proj_recoverStep).
  assert (grows (about (ra_projectID a) (ra_runID a)) (set_rt rt_newRef q) (foldl (recoverStep marshalStep now a js byName ref) q0 l)) as Hg.
  { etrans; [by apply (grows_same _ _ q0)|]. apply grows_foldl. intros. by apply grows_recoverStep. }
  revert Hr Ht Hid1 Hp Hg. generalize (foldl (recoverStep marshalStep now a js byName ref) q0 l) as q1. intros q1 Hr Ht Hid1 Hp Hg.
  destruct (allTerminal (runTasks ref q1)).
  - set (st' := if anyFailed _ then _ else _). eexists. split; [reflexivity|].
    destruct (finalize_fields now ref st' "run.completed" q1) as [Hh Hrs]. rewrite Hid1, Hr in Hrs. split_and!.
    + etrans; [exact Hg|]. apply rid_run in Hid1 as (r & Hrr & Er). unfold proj in Hp. rewrite Hrr in Hp. injection Hp as Ep.
      eapply grows_finalize; [done|exact Hrr|]. intros. by split.
    + intros ref' Hne. rewrite (viewOf_heap ref' q1) by done. rewrite Ht by done. by apply Hv.
    + by right.
  - eexists. split; [reflexivity|]. split_and!.
    + etrans; [|by apply (grows_same _ (promoteReady mapOrder now ref q1))]. etrans; [exact Hg|]. by apply grows_promote.
    + intros ref' Hne. destruct (touches_promote mapOrder now ref q1) as [_ Ht'].
      change (viewOf ref' (set_runs _ ?x)) with (viewOf ref' x). rewrite Ht', Ht by done. by apply Hv.
    + left. simpl. destruct (touches_promote mapOrder now ref q1) as [-> _]. by rewrite Hr.
Qed.
End Calls.

(** ** Recovery *)

(** The run table is keyed by its rows. *)
Definition keys_ok (db : DB) : Prop := forall k r, db_runs db !! k = Some r -> run_key r = k.

Lemma ListRuns_in p f db r : keys_ok db -> r ∈ ListRuns p f db ->
  db_runs db !! run_key r = Some r /\ run_ProjectID r = p /\ matches (f_Status f) (run_Status r) = true /\
  matches (f_ScheduleID f) (run_ScheduleID r) = true.
Proof.
  intros Hk Hr. unfold ListRuns in Hr.
  match type of Hr with context [merge_sort newest_first ?l] =>
    assert (r ∈ merge_sort newest_first l) as Hin;
      [|rewrite (merge_sort_Permutation newest_first l) in Hin] end.
  { destruct (0 <? f_Limit f); [|done]. apply subseteq_take in Hr. by apply subseteq_drop in Hr. }
  apply list_elem_of_In, List.filter_In in Hin as [Hin%list_elem_of_In Hb].
  apply list_elem_of_fmap in Hin as ([k r'] & -> & Hm%elem_of_map_to_list). simpl in *.
  rewrite (Hk _ _ Hm). rewrite !andb_true_iff, String.eqb_eq in Hb. naive_solver.
Qed.

Section Recovery.
Context (deps : Deps) (io : nat -> attempt) (flushEnv : nat -> nat -> nat -> attempt * bool).
Context (clock : nat -> Z) (parse : string -> res verr Pipeline).
Context (mapOrder : nat -> list string -> list string).
Context (marshalStep : Step -> option string) (marshalPipeline : Pipeline -> option string).
Context (unmarshalParams : string -> option (list (string * any))).
Context (resolveEnv : string -> string -> Pipeline -> option (gmap string (list string))).

Notation recoverRun := (recoverRun deps io flushEnv clock parse mapOrder marshalStep marshalPipeline unmarshalParams resolveEnv).
Notation RecoverInterruptedRuns :=
  (RecoverInterruptedRuns deps io flushEnv clock parse mapOrder marshalStep marshalPipeline unmarshalParams resolveEnv).

Lemma leaves_db p id_ f w :
  (forall db k, k <> (p, id_) -> db_runs (f db) !! k = db_runs db !! k) -> leaves p id_ w (set_db f w).
Proof. intros Hf Hs. split; [exact Hs|]. split_and!; [done|done|]. intros k Hk. by apply Hf. Qed.

Lemma recoverRun_leaves now r : keeps (leaves (run_ProjectID r) (run_ID r)) (recoverRun now r).
Proof.
  assert (keeps (leaves (run_ProjectID r) (run_ID r)) (updateStatus io (run_ProjectID r) (run_ID r) StatusFailed now)) as Hu.
  { apply keeps_repo; [apply _|]. intros w. apply leaves_db. intros db k Hk. simpl. by rewrite lookup_alter_ne. }
  unfold Lifecycle.recoverRun. keeps; try exact Hu. intros w. apply leaves_recover.
Qed.

(** The tracked run [id] is left alone. *)
Definition untouched (id_ : string) (w w' : World) : Prop :=
  sound (w_queue w) -> sound (w_queue w') /\
  forall ref, q_runs (w_queue w) !! id_ = Some ref ->
    q_runs (w_queue w') !! id_ = Some ref /\ viewOf ref (w_queue w') = viewOf ref (w_queue w) /\
    forall p, db_runs (w_db w') !! (p, id_) = db_runs (w_db w) !! (p, id_).

#[export] Instance untouched_blind id_ : Blind (untouched id_).
Proof.
  assert (forall w w', w_queue w' = w_queue w -> w_db w' = w_db w -> untouched id_ w w') as Hrefl.
  { intros w w' Eq Ed Hs. rewrite Eq, Ed. split; [exact Hs|]. by intros ref Hr. }
  split; [split; [intros w; by apply Hrefl|]|intros; by apply Hrefl..].
  intros a b c H1 H2. unfold untouched in *. intros Ha. destruct (H1 Ha) as (Hb & T1). destruct (H2 Hb) as (Hc & T2).
  split; [exact Hc|]. intros ref Hr. destruct (T1 _ Hr) as (Hr1 & <- & D1). destruct (T2 _ Hr1) as (Hr2 & <- & D2).
  split_and!; [done|done|]. intros p. by rewrite D2.
Qed.

Lemma recoverRun_untouched now r id_ : keeps (untouched id_) (recoverRun now r).
Proof.
  intros w Hs. destruct (recoverRun_leaves now r w Hs) as (Hs' & Ht & Hn & Hd). split; [done|]. intros ref Hr.
  destruct (decide (run_ID r = id_)) as [<-|Hne].
  - unfold Lifecycle.recoverRun, mbind, M_bind, get, IsTracking. rewrite Hr. by rewrite bool_decide_true by eauto.
  - destruct (Ht id_ ref) as [H1 H2]; [done..|]. split_and!; [done..|]. intros p. apply Hd. congruence.
Qed.

(** What the listing sees: the rows of the world it starts in. *)
Lemma listAcross_spec projects f w :
  keys_ok (w_db w) ->
  let '(r, w') := listAcross io projects f w in
  same_engine w w' /\
  (forall runs x, r = Ok runs -> x ∈ runs -> db_runs (w_db w) !! run_key x = Some x /\ matches (f_Status f) (run_Status x) = true).
Proof.
  intros Hk. revert w Hk. induction projects as [|p ps IH]; intros w Hk; simpl.
  { split; [by split|]. intros runs x [= <-]. set_solver. }
  unfold mbind, M_bind. pose proof (keeps_query same_engine io (fun w => ListRuns p f (w_db w)) w) as Hq.
  destruct (query io _ w) as [[l|e] w1] eqn:El; simpl in Hq; [|by split].
  assert (l = ListRuns p f (w_db w)) as ->.
  { unfold query, repo, get in El. destruct (io (w_calls w)); [by injection El as <-|done|done]. }
  destruct Hq as [Hd Hqq]. specialize (IH w1). rewrite Hd in IH. specialize (IH Hk).
  destruct (listAcross io ps f w1) as [[rest|e] w2]; destruct IH as [[Hd2 Hq2] IH]; simpl.
  - split; [split; congruence|]. intros runs x [= <-] [Hx|Hx]%elem_of_app; [|by eapply IH].
    by destruct (ListRuns_in _ _ _ _ Hk Hx) as (? & _ & ? & _).
  - split; [split; congruence|done].
Qed.

(** Recovery is confined to the runs that need it: a run the queue tracks
    stays tracked, with the statuses of its steps and its row unchanged, and
    every row whose status is not "running" is left as it is. *)
Theorem recover_confined w (Hs : sound (w_queue w)) (Hk : keys_ok (w_db w)) :
  let w' := (RecoverInterruptedRuns w).2 in
  (forall id_ ref, q_runs (w_queue w) !! id_ = Some ref ->
     q_runs (w_queue w') !! id_ = Some ref /\ viewOf ref (w_queue w') = viewOf ref (w_queue w) /\
     forall p, db_runs (w_db w') !! (p, id_) = db_runs (w_db w) !! (p, id_)) /\
  (forall k row, db_runs (w_db w) !! k = Some row -> run_Status row <> StatusRunning -> db_runs (w_db w') !! k = Some row).
Proof.
  intros w'. split.
  - intros id_ ref Hr. assert (keeps (untouched id_) RecoverInterruptedRuns) as H; [|by apply (H w)].
    unfold Lifecycle.RecoverInterruptedRuns, ListRunsAcrossProjects. keeps.
    + induction a as [|p ps IH]; simpl; keeps.
    + apply recoverRun_untouched.
  - intros k row Hrow Hst. unfold w', Lifecycle.RecoverInterruptedRuns, mbind, M_bind, try, ListRunsAcrossProjects.
    pose proof (keeps_query same_engine io w_projects w) as Hq. unfold mbind, M_bind.
    destruct (query io w_projects w) as [[ps|e] w1]; simpl in Hq; destruct Hq as [Hd Hqq]; [|simpl; by rewrite Hd].
    pose proof (listAcross_spec ps (mkFilter "" "" "" StatusRunning 0 0) w1) as Hl. rewrite Hd in Hl. specialize (Hl Hk).
    destruct (listAcross io ps _ w1) as [[runs|e] w2]; destruct Hl as [[Hd2 Hq2] Hl]; simpl; [|by rewrite Hd2, Hd].
    rewrite <- Hd in Hrow. assert (Forall (fun r => run_key r <> k) runs) as Hne.
    { apply Forall_forall. intros r Hr <-. destruct (Hl _ _ eq_refl Hr) as [E Hm]. rewrite Hd in Hrow. rewrite E in Hrow.
      injection Hrow as ->. unfold matches in Hm. simpl in Hm. by apply String.eqb_eq in Hm. }
    rewrite <- Hd2 in Hrow. assert (sound (w_queue (next_tick w2))) as Hs2 by (simpl; by rewrite Hq2, Hqq).
    assert (db_runs (w_db (next_tick w2)) !! k = Some row) as Hrow' by done. revert Hs2 Hrow'.
    generalize (next_tick w2) as w3, (clock (w_ticks w2)) as now. intros w3 now.
    clear -Hne. revert w3. induction Hne as [|r runs Hr _ IH]; intros w3 Hs3 Hrow; simpl; [done|].
    unfold mbind, M_bind. destruct (recoverRun_leaves now r w3 Hs3) as (Hs4 & _ & _ & Hd4).
    destruct (recoverRun now r w3) as [[[]|e] w4]; simpl in *; [|by rewrite Hd4].
    apply IH; [done|]. by rewrite Hd4.
Qed.
End Recovery.

(** ** Starting a run *)

Definition is_upsert (w : write) : Prop := match w with WUpsert _ => True | _ => False end.

Lemma flushWrites_upserts env i ws st :
  Forall (fun w => is_upsert (w_fn w)) ws -> db_runs (fl_db (flushWrites env i ws st)) = db_runs (fl_db st).
Proof.
  intros Hw. apply map_eq. intros [p id_]. apply (flushWrites_about p (id_ +:+ "x")).
  - eapply Forall_impl; [exact Hw|]. intros w H. simpl in *. by destruct (w_fn w).
  - intros [= H]. assert (forall s, String.length (s +:+ "x")%string = S (String.length s)) as Hl.
    { induction s as [|c s IH]; [done|]. simpl. f_equal. exact IH. }
    specialize (Hl id_). rewrite <- H in Hl. lia.
Qed.

Section Start.
Context (deps : Deps) (io : nat -> attempt) (flushEnv : nat -> nat -> nat -> attempt * bool).
Context (clock : nat -> Z) (uuid : nat -> string).
Context (mapOrder : nat -> list string -> list string).
Context (marshalStep : Step -> option string) (marshalPipeline : Pipeline -> option string).
Context (marshalParams : list (string * any) -> option string).
Context (validateCredential : string -> string -> bool).
Context (resolveEnv : string -> string -> Pipeline -> option (gmap string (list string))).

Notation StartRun := (StartRun deps io flushEnv clock uuid mapOrder marshalStep marshalPipeline marshalParams
  validateCredential resolveEnv).
Notation prepareRun := (prepareRun deps io clock uuid marshalParams validateCredential resolveEnv).
Notation enqueueRun := (enqueueRun deps flushEnv clock mapOrder marshalStep marshalPipeline).

Lemma addLocked_facts now pl dag a q :
  let '(out, q') := addWithEnvLocked mapOrder marshalStep marshalPipeline now pl dag a q in
  q_runs q' = <[ra_runID a := rt_nextRef (q_rt q)]> (q_runs q) /\
  rid q' (rt_nextRef (q_rt q)) = Some (ra_runID a) /\
  (drained q -> Forall (fun w => is_upsert (w_fn w)) (po_writes out)).
Proof.
  unfold addWithEnvLocked, newRun. cbv zeta. cbn [takePendingLocked]. set (ref := rt_nextRef (q_rt q)). set (q0 := set_rt rt_newRef _).
  destruct (touches_promote mapOrder now ref q0) as [Hr _].
  assert (rid (promoteReady mapOrder now ref q0) ref = Some (ra_runID a)) as Hid.
  { rewrite (qrel_rid q0) by apply qrel_promoteReady. unfold rid. simpl. by rewrite lookup_insert_eq. }
  split_and!; [simpl; by rewrite Hr|done|]. intros [Hd _]. simpl.
  apply (grows_promote is_upsert ltac:(done) mapOrder now ref q0). simpl. by rewrite Hd.
Qed.

(** The id the run gets. *)
Definition chosenID (o : StartRunOptions) (w : World) : string :=
  if String.eqb (so_RunID o) "" then uuid (w_uuids w) else so_RunID o.

(** A new row in the run table, for the chosen id. *)
Definition new_row (o : StartRunOptions) (w w' : World) (row : RunRow) : Prop :=
  db_runs (w_db w) !! (so_ProjectID o, chosenID o w) = None /\
  db_runs (w_db w') = <[(so_ProjectID o, chosenID o w) := row]> (db_runs (w_db w)) /\
  run_key row = (so_ProjectID o, chosenID o w) /\ run_PipelineYAML row = so_YAML o /\ run_ScheduleID row = so_ScheduleID o.

(** The step rows do not touch the run table. *)
Definition same_runs (w w' : World) : Prop :=
  w_queue w' = w_queue w /\ db_runs (w_db w') = db_runs (w_db w).

#[export] Instance same_runs_blind : Blind same_runs.
Proof. split; try by split. split; [by split|]. intros a b c [? ?] [? ?]. split; congruence. Qed.

Lemma bind_eq {A B} (m : M A) (f : A -> M B) w :
  (m ≫= f) w = match m w with (Ok a, w') => f a w' | (Err e, w') => (Err e, w') end.
Proof. done. Qed.

(** A step that succeeds with no effect on what follows. *)
Lemma seq_ok {A B} (m : M A) (f : A -> M B) a w w1 : m w = (Ok a, w1) -> (m ≫= f) w = f a w1.
Proof. intros H. by rewrite bind_eq, H. Qed.

Lemma forM_ignored {A} (l : list A) (f : A -> M unit) w :
  (forall x w, exists w', f x w = (Ok tt, w') /\ same_runs w w') ->
  exists w', forM l f w = (Ok tt, w') /\ same_runs w w'.
Proof.
  intros H. revert w. induction l as [|x l IH]; intros w; simpl; [by exists w|].
  destruct (H x w) as (w1 & E & H1). rewrite (seq_ok _ _ _ _ _ E). destruct (IH w1) as (w2 & -> & H2).
  exists w2. split; [done|]. by etrans.
Qed.

Lemma prepareRun_spec ctx pl o w :
  let '(r, w') := prepareRun ctx pl o w in
  w_queue w' = w_queue w /\
  match r with
  | Ok s => sr_runID s = chosenID o w /\ exists row, new_row o w w' row /\ run_Status row = StatusRunning
  | Err e =>
      db_runs (w_db w') = db_runs (w_db w) \/
      exists row, new_row o w w' row /\ ((forall k, io k = AttemptOk) -> run_Status row = StatusFailed)
  end.
Proof.
  unfold Lifecycle.prepareRun. rewrite bind_eq. destruct (lift id (ValidateRuntime _ _) w) as [[u|e] w1] eqn:E1;
    injection E1 as _ <-; [|by auto].
  rewrite bind_eq. destruct (lift id _ w) as [[u'|e] w1] eqn:E1; injection E1 as _ <-; [|by auto].
  assert (exists wid, (if String.eqb (so_RunID o) "" then genID uuid else mret (so_RunID o)) w = (Ok (chosenID o w), wid) /\
    same_runs w wid) as (wid & Ei & Hi).
  { unfold chosenID. destruct (String.eqb (so_RunID o) ""); eexists; by split. }
  rewrite (seq_ok _ _ _ _ _ Ei). clear Ei. set (id_ := chosenID o w) in *. rewrite bind_eq. cbn [getNow].
  generalize (clock (w_ticks wid)) as now. intros now. set (row := newRow _ _ _ _ _ _ _ _ _).
  assert (same_runs w (next_tick wid)) as Hi2 by (etrans; [exact Hi|by split]). revert Hi2. generalize (next_tick wid) as w1.
  clear wid Hi. intros w1 [Hq1 Hd1]. cbv zeta. rewrite bind_eq. unfold createRow at 1, repo.
  assert (run_key row = (so_ProjectID o, id_)) as Hkey by done.
  assert (forall db, Create row (w_db (next_call w1)) = Some db -> db_runs (w_db w) !! (so_ProjectID o, id_) = None /\
    db_runs db = <[(so_ProjectID o, id_) := row]> (db_runs (w_db w))) as Hc.
  { unfold Create. intros db. rewrite Hkey. simpl. rewrite Hd1. destruct (db_runs (w_db w) !! _) eqn:En; [done|].
    intros [= <-]. split; [done|]. simpl. by rewrite Hd1. }
  assert (forall w2 f, w_queue w2 = w_queue w -> db_runs (w_db w2) = db_runs (w_db w) \/
    (db_runs (w_db w) !! (so_ProjectID o, id_) = None /\
     db_runs (w_db w2) = <[(so_ProjectID o, id_) := f row]> (db_runs (w_db w)) /\
     run_key (f row) = run_key row /\ run_PipelineYAML (f row) = so_YAML o /\ run_ScheduleID (f row) = so_ScheduleID o /\
     ((forall k, io k = AttemptOk) -> run_Status (f row) = StatusFailed)) ->
    w_queue w2 = w_queue w /\ (db_runs (w_db w2) = db_runs (w_db w) \/
      exists row, new_row o w w2 row /\ ((forall k, io k = AttemptOk) -> run_Status row = StatusFailed))) as Herr.
  { intros w2 f Hq [Hd|(Hn & Hd & Hk & Hy & Hsc & Hst)]; split; auto. right. exists (f row). split; [|done].
    unfold new_row. by rewrite Hk. }
  destruct (io (w_calls w1)) eqn:Eio; [|by apply (Herr _ id); [|left]|].
  2: { apply (Herr _ id); destruct (Create row (w_db (next_call w1))) as [db|] eqn:Ec; simpl; [done..| |by left].
       right. destruct (Hc _ eq_refl) as [Hn Hdb]. split_and!; try done. intros Hall. rewrite Hall in Eio. done. }
  destruct (Create row (w_db (next_call w1))) as [db|] eqn:Ec; [|by apply (Herr _ id); [|left]].
  destruct (Hc _ eq_refl) as [Hn Hdb].
  match goal with |- context [(_ ≫= _) ?x] => set (w2 := x) end.
  assert (w_queue w2 = w_queue w /\ db_runs (w_db w2) = <[(so_ProjectID o, id_) := row]> (db_runs (w_db w))) as [Hq2 Hd2] by done.
  clearbody w2. rewrite bind_eq.
  assert (exists w3, (if hasExport deps then modify (add_deed (Exported id_)) else mret tt) w2 = (Ok tt, w3) /\ same_runs w2 w3)
    as (w3 & -> & [Hq3 Hd3]) by (destruct (hasExport deps); eexists; by split).
  match goal with |- context [forM ?l ?f] => destruct (forM_ignored l f w3) as (w4 & E4 & [Hq4 Hd4]) end.
  { intros s w5. eexists. split; [reflexivity|]. unfold repo. by destruct (io (w_calls w5)). }
  rewrite (seq_ok _ _ _ _ _ E4). clear E4.
  assert (w_queue w4 = w_queue w /\ db_runs (w_db w4) = <[(so_ProjectID o, id_) := row]> (db_runs (w_db w))) as [Hq Hd] by (split; congruence).
  destruct (resolveEnv (so_ProjectID o) id_ pl) as [env|].
  - simpl. split; [done|]. split; [done|]. exists row. by split_and!.
  - rewrite bind_eq. cbn [getNow]. rewrite bind_eq. unfold ignore, updateStatus, repo, fail.
    destruct (io (w_calls (next_tick w4))) eqn:Eio'; cbn [fst snd modify].
    + apply (Herr _ (set_run_status StatusFailed (Some (clock (w_ticks w4))))); [done|]. right. split_and!; try done.
      simpl. rewrite Hd. by rewrite alter_insert_eq.
    + apply (Herr _ id); [done|]. right. split_and!; try done. intros Hall. rewrite Hall in Eio'. done.
    + apply (Herr _ (set_run_status StatusFailed (Some (clock (w_ticks w4))))); [done|]. right. split_and!; try done.
      simpl. rewrite Hd. by rewrite alter_insert_eq.
Qed.

Lemma enqueueRun_spec pl dag o s w :
  drained (w_queue w) ->
  let '(r, w') := enqueueRun pl dag o s w in
  r = Ok (sr_runID s) /\ db_runs (w_db w') = db_runs (w_db w) /\
  q_runs (w_queue w') = <[sr_runID s := rt_nextRef (q_rt (w_queue w))]> (q_runs (w_queue w)) /\
  rid (w_queue w') (rt_nextRef (q_rt (w_queue w))) = Some (sr_runID s) /\
  exists obs, w_queue w' = foldl (fun q o => observe o q)
    (addWithEnvLocked mapOrder marshalStep marshalPipeline (clock (w_ticks w)) pl dag (runArgsOf deps o s) (w_queue w)).2 obs.
Proof.
  intros Hd. unfold Lifecycle.enqueueRun. rewrite bind_eq. cbn [getNow]. rewrite bind_eq. unfold callQueue.
  cbn [next_tick w_calls w_db w_applied w_queue]. set (now := clock (w_ticks w)).
  pose proof (addLocked_facts now pl dag (runArgsOf deps o s) (w_queue w)) as H. unfold AddWithEnv, flushed, flushPending.
  destruct (addWithEnvLocked _ _ _ _ _ _ _ (w_queue w)) as [out q1]. destruct H as (H1 & H2 & H3). cbn [fst snd].
  set (st := flushWrites _ _ _ _). destruct (runEffects_same (fl_applied st) (po_effects out) q1) as (E1 & E2 & _).
  assert (db_runs (fl_db st) = db_runs (w_db w)) as Hst by (unfold st; rewrite flushWrites_upserts; [done|by apply H3]).
  assert (exists obs, foldl (runEffect (fl_applied st)) q1 (po_effects out) = foldl (fun q o => observe o q) q1 obs) as (obs & Hobs).
  { clear. revert q1. induction (po_effects out) as [|f l IH]; intros q1; simpl; [by exists []|].
    destruct (IH (runEffect (fl_applied st) q1 f)) as [obs ->].
    assert (runEffect (fl_applied st) q1 f = q1 \/ exists ob, runEffect (fl_applied st) q1 f = observe ob q1) as [-> |[ob ->]].
    { unfold runEffect, emit. repeat case_match; eauto. }
    - by exists obs.
    - by exists (ob :: obs). }
  destruct (hasOnRunStart deps); simpl; (split_and!; [done|done|by rewrite E1|unfold rid; rewrite E2; exact H2|by exists obs]).
Qed.

(** C11: What [StartRun] leaves behind.  On success: one new row, "running",
    under the returned id, and the queue tracks a new run object under it,
    besides the runs it tracked.  On an error the queue is as it was; a row
    that was already created is marked failed unless a repository call
    failed. *)
Theorem StartRun_outcome ctx pl dag o w (Hd : drained (w_queue w)) :
  let '(r, w') := StartRun ctx pl dag o w in
  match r with
  | Ok id_ =>
      id_ = chosenID o w /\ (exists row, new_row o w w' row /\ run_Status row = StatusRunning) /\
      q_runs (w_queue w') = <[id_ := rt_nextRef (q_rt (w_queue w))]> (q_runs (w_queue w)) /\
      rid (w_queue w') (rt_nextRef (q_rt (w_queue w))) = Some id_
  | Err e =>
      w_queue w' = w_queue w /\
      (db_runs (w_db w') = db_runs (w_db w) \/
       exists row, new_row o w w' row /\ ((forall k, io k = AttemptOk) -> run_Status row = StatusFailed))
  end.
Proof.
  unfold Lifecycle.StartRun. rewrite bind_eq. pose proof (prepareRun_spec ctx pl o w) as H.
  destruct (prepareRun ctx pl o w) as [[s|e] w1]; destruct H as [Hq H]; [|done].
  destruct H as (Hid & row & Hrow & Hst). pose proof (enqueueRun_spec pl dag o s w1) as He. rewrite Hq in He. specialize (He Hd).
  destruct (enqueueRun pl dag o s w1) as [r w2]. destruct He as (-> & Hdb & Hr & Hrid & _). rewrite Hid in *.
  split_and!; try done. exists row. split; [|done]. destruct Hrow as (? & ? & ?). unfold new_row. by rewrite Hdb.
Qed.

(** [StartRun] keeps the queue's side of the contract that no run gets
    stuck: on a live queue, for a pipeline whose graph was built and an id the
    queue does not track, whatever fails, the queue stays live. *)
Theorem StartRun_keeps_live ctx pl dag o w
    (Hq : reach_live mapOrder marshalStep marshalPipeline (w_queue w)) (Hrun : runnable marshalStep pl dag)
    (Hperm : forall seed l, mapOrder seed l ≡ₚ l) (Hfresh : q_runs (w_queue w) !! chosenID o w = None) :
  reach_live mapOrder marshalStep marshalPipeline (w_queue (StartRun ctx pl dag o w).2).
Proof.
  unfold Lifecycle.StartRun. rewrite bind_eq. pose proof (prepareRun_spec ctx pl o w) as H.
  destruct (prepareRun ctx pl o w) as [[s|e] w1]; destruct H as [Hq1 H]; cbn [snd]; [|by rewrite Hq1].
  destruct H as (Hid & _). rewrite <- Hq1 in Hq, Hfresh. pose proof (enqueueRun_spec pl dag o s w1) as He.
  destruct (reach_live_ok _ Hperm _ _ _ Hq) as [(_ & _ & _ & _ & Hdr) _]. specialize (He Hdr).
  destruct (enqueueRun pl dag o s w1) as [r w2]. destruct He as (_ & _ & _ & _ & obs & E). cbn [snd]. rewrite E.
  assert (reach_live mapOrder marshalStep marshalPipeline
    (addWithEnvLocked mapOrder marshalStep marshalPipeline (clock (w_ticks w1)) pl dag (runArgsOf deps o s) (w_queue w1)).2) as Hl.
  { apply (live_op _ _ _ (OpAdd (clock (w_ticks w1)) pl dag (runArgsOf deps o s))); [done|].
    split; [done|]. split; [done|]. simpl. by rewrite Hid. }
  revert Hl. generalize (addWithEnvLocked mapOrder marshalStep marshalPipeline (clock (w_ticks w1)) pl dag (runArgsOf deps o s) (w_queue w1)).2.
  clear. induction obs as [|ob obs IH]; intros q Hl; simpl; [done|]. apply IH. by apply live_observe.
Qed.
End Start.
