(* ===== verification/LifecycleRows.v ===== *)
(** * Retention, idempotent submission, and concrete histories

    What retention may delete, and why a replayed submission starts nothing;
    then small worlds in which the lifecycle handlers, or the order in which
    they interleave, lose a run, a step or a cancellation. *)

From S2P Require Import Prelude Pipeline Dag RunStore Queue QueueInv QueueProgress QueueFlush ScheduleStore Scheduler Lifecycle LifecycleFrame LifecycleSpec.
From stdpp Require Import options.
#[local] Open Scope Z_scope.
#[local] Set Default Proof Using "Type*".

(** ** Retention *)

(** A run that may still run, or never ended. *)
Definition active_row (r : RunRow) : bool :=
  match run_EndedAt r with None => true | Some _ => false end ||
  String.eqb (run_Status r) StatusRunning || String.eqb (run_Status r) StatusScheduled.

(** Of the runs of a schedule, listed newest first, retention deletes
    exactly the ended ones after the first [MaxRuns] ended ones. *)
Theorem overflow_spec maxRuns kept runs :
  overflow maxRuns kept runs =
    run_ID <$> drop (Z.to_nat (maxRuns - kept)) (List.filter (fun r => negb (active_row r)) runs).
Proof.
  revert kept. induction runs as [|r runs IH]; intros kept; simpl; [by rewrite drop_nil|].
  fold (active_row r). destruct (active_row r); simpl; [apply IH|]. destruct (kept <? maxRuns) eqn:E.
  - rewrite IH. replace (Z.to_nat (maxRuns - kept)) with (S (Z.to_nat (maxRuns - (kept + 1)))) by lia. done.
  - rewrite IH. replace (Z.to_nat (maxRuns - kept)) with 0%nat by lia. done.
Qed.

(** Rows may go, but not change, and active ones stay. *)
Definition pruned (w w' : World) : Prop :=
  w_queue w' = w_queue w /\ db_runs (w_db w') ⊆ db_runs (w_db w) /\
  forall k r, db_runs (w_db w) !! k = Some r -> active_row r = true -> db_runs (w_db w') !! k = Some r.

Lemma pruned_same w w' : w_queue w' = w_queue w -> w_db w' = w_db w -> pruned w w'.
Proof. intros Hq Hd. unfold pruned. rewrite Hd. by split_and!. Qed.

#[export] Instance pruned_blind : Blind pruned.
Proof.
  split; [split; [intros w; by apply pruned_same|]|intros; by apply pruned_same..].
  intros a b c (Q1 & S1 & K1) (Q2 & S2 & K2). split_and!; [congruence|by etrans|]. eauto.
Qed.

(** No active row at [k]. *)
Definition ended_at (k : string * string) (w : World) : Prop :=
  forall r, db_runs (w_db w) !! k = Some r -> active_row r = false.

Lemma ended_at_pruned k w w' : pruned w w' -> ended_at k w -> ended_at k w'.
Proof. intros (_ & Hs & _) H r Hr. apply H. by eapply lookup_weaken. Qed.

Lemma keys_ok_pruned w w' : pruned w w' -> keys_ok (w_db w) -> keys_ok (w_db w').
Proof. intros (_ & Hs & _) H k r Hr. apply H. by eapply lookup_weaken. Qed.

Lemma pruned_delete p id_ w : ended_at (p, id_) w -> pruned w (set_db (DeleteRun p id_) w).
Proof.
  intros He. split_and!; [done|apply delete_subseteq|]. intros k r Hr Ha. simpl.
  rewrite lookup_delete_ne; [done|]. intros <-. specialize (He _ Hr). congruence.
Qed.

Lemma pruned_deletes p ids w : (forall id_, id_ ∈ ids -> ended_at (p, id_) w) -> pruned w (set_db (DeleteRuns p ids) w).
Proof.
  revert w. induction ids as [|id_ ids IH]; intros w H; [by apply pruned_same|].
  assert (pruned w (set_db (DeleteRun p id_) w)) as H1 by (apply pruned_delete, H; by left).
  etrans; [exact H1|]. apply (IH (set_db (DeleteRun p id_) w)). intros id' Hid.
  eapply ended_at_pruned; [exact H1|]. apply H. by right.
Qed.

(** A loop whose steps need a condition that the relation keeps. *)
Lemma forM_while {A} (R : World -> World -> Prop) `{!Blind R} (C : A -> World -> Prop) (f : A -> M unit) l w :
  (forall x w w', R w w' -> C x w -> C x w') -> (forall x w, C x w -> R w (f x w).2) ->
  (forall x, x ∈ l -> C x w) -> R w (forM l f w).2.
Proof.
  intros Hst Hf. revert w. induction l as [|x l IH]; intros w Hc; simpl; [reflexivity|].
  assert (R w (f x w).2) as Hx by (apply Hf, Hc; by left). unfold mbind, M_bind.
  destruct (f x w) as [[u|e] w1]; simpl in *; [|done]. etrans; [exact Hx|]. apply IH. intros y Hy.
  eapply Hst; [exact Hx|]. apply Hc. by right.
Qed.

Section Retention.
Context (deps : Deps) (io : nat -> attempt) (clock : nat -> Z).

Lemma deeds_keep R `{!Blind R} ids :
  keeps R (forM ids (fun runID => _ ← modify (add_deed (ArtifactsDeleted runID)); modify (add_deed (WorkspaceDeleted runID)))).
Proof. keeps. Qed.

Lemma repo_modify_keeps R `{!Blind R} f w :
  R (next_call w) (f (next_call w)) -> R w (repo io (modify f) w).2.
Proof. intros H. unfold repo, modify. destruct (io (w_calls w)); simpl; (etrans; [apply blind_call|]); done. Qed.

Lemma delete_keeps p id_ w : ended_at (p, id_) w -> pruned w (DeleteRunWithArtifacts io p id_ w).2.
Proof.
  intros He. unfold DeleteRunWithArtifacts, mbind, M_bind.
  pose proof (repo_modify_keeps pruned (set_db (DeleteRun p id_)) w) as H.
  destruct (repo io _ w) as [[u|e] w1]; simpl in *; [|by apply H, pruned_delete].
  etrans; [by apply H, pruned_delete|]. by apply pruned_same.
Qed.

Lemma deletes_keep p ids w : (forall id_, id_ ∈ ids -> ended_at (p, id_) w) -> pruned w (DeleteRunsWithArtifacts io p ids w).2.
Proof.
  intros He. unfold DeleteRunsWithArtifacts. rewrite bind_eq.
  pose proof (repo_modify_keeps pruned (set_db (DeleteRuns p ids)) w) as H.
  destruct (repo io _ w) as [[u|e] w1]; simpl in *; [|by apply H, pruned_deletes].
  etrans; [by apply H, pruned_deletes|apply deeds_keep; apply _].
Qed.

Lemma retireRun_keeps now r w : ended_at (run_key r) w -> pruned w (retireRun deps io now r w).2.
Proof.
  intros He. unfold retireRun. case_match; [by apply delete_keeps|]. case_match; by apply pruned_same.
Qed.

Lemma ListTerminalBefore_ended p cutoff db r :
  keys_ok db -> r ∈ ListTerminalBefore p cutoff db -> db_runs db !! run_key r = Some r /\ active_row r = false.
Proof.
  intros Hk Hr. apply list_elem_of_In, List.filter_In in Hr as [Hr%list_elem_of_In Hb].
  apply list_elem_of_fmap in Hr as ([k r'] & -> & Hm%elem_of_map_to_list). simpl in *. rewrite (Hk _ _ Hm). split; [done|].
  unfold active_row. destruct (run_EndedAt r'); [|by rewrite andb_false_r in Hb]. simpl.
  rewrite !andb_true_iff, negb_true_iff in Hb. naive_solver.
Qed.

(** The answer of a query, when there is one. *)
Lemma query_ok {A} (f : World -> A) w a w1 : query io f w = (Ok a, w1) -> a = f w1 /\ w1 = next_call w.
Proof. unfold query, repo, get. destruct (io (w_calls w)); [|done|done]. by intros [= <- <-]. Qed.

Lemma retireProject_keeps now cutoff p w : keys_ok (w_db w) -> pruned w (retireProject deps io now cutoff p w).2.
Proof.
  intros Hk. unfold retireProject. rewrite bind_eq. unfold try.
  destruct (query io _ w) as [[runs|e] w1] eqn:E.
  - apply query_ok in E as [-> ->]. etrans; [apply blind_call|]. apply (forM_while pruned (fun r => ended_at (run_key r))).
    + intros r w1 w2. apply ended_at_pruned.
    + intros r w1. apply retireRun_keeps.
    + intros r Hr. destruct (ListTerminalBefore_ended _ _ _ _ Hk Hr) as [Hr' Ha]. intros r2 Hr2. simpl in Hr2. congruence.
  - pose proof (keeps_query pruned io (fun w => ListTerminalBefore p cutoff (w_db w)) w) as H. rewrite E in H. exact H.
Qed.

Lemma retireSchedule_keeps sc w : keys_ok (w_db w) -> pruned w (retireSchedule io sc w).2.
Proof.
  intros Hk. unfold retireSchedule. rewrite bind_eq. unfold try.
  destruct (query io _ w) as [[runs|e] w1] eqn:E.
  - apply query_ok in E as [-> ->]. case_bool_decide; [by apply pruned_same|]. unfold ignore. cbn [snd].
    etrans; [|apply deletes_keep]; [by apply pruned_same|]. intros id_ Hid. rewrite overflow_spec in Hid.
    apply list_elem_of_fmap in Hid as (r & -> & Hr%subseteq_drop). apply list_elem_of_In, List.filter_In in Hr as [Hr Hb].
    apply list_elem_of_In in Hr. destruct (ListRuns_in _ _ _ _ Hk Hr) as (Hr' & Hp & _).
    intros r2 Hr2. rewrite <- Hp in Hr2. change (run_ProjectID r, run_ID r) with (run_key r) in Hr2. simpl in Hr2.
    rewrite Hr' in Hr2. injection Hr2 as <-. by apply negb_true_iff.
  - match type of E with query io ?f w = _ => pose proof (keeps_query pruned io f w) as H end. rewrite E in H. exact H.
Qed.

(** Retention never deletes a run that is running, scheduled or has not
    ended; it changes no row it keeps, and it does not touch the queue. *)
Theorem retention_keeps_active w (Hk : keys_ok (w_db w)) :
  let w' := (CleanupRetention deps io clock w).2 in
  w_queue w' = w_queue w /\ db_runs (w_db w') ⊆ db_runs (w_db w) /\
  (forall k r, db_runs (w_db w) !! k = Some r -> active_row r = true -> db_runs (w_db w') !! k = Some r).
Proof.
  change (pruned w (CleanupRetention deps io clock w).2).
  assert (forall w, keys_ok (w_db w) -> pruned w (CleanupScheduleRetention io w).2) as Hsched.
  { clear. intros w Hk. unfold CleanupScheduleRetention. rewrite bind_eq. unfold try.
    destruct (query io _ w) as [[l|e] w1] eqn:E.
    - apply query_ok in E as [-> ->]. etrans; [apply blind_call|]. apply (forM_while pruned (fun _ w => keys_ok (w_db w))); [|intros; by apply retireSchedule_keeps|done].
      intros _ w1 w2. apply keys_ok_pruned.
    - match type of E with query io ?f w = _ => pose proof (keeps_query pruned io f w) as H end. rewrite E in H. exact H. }
  unfold CleanupRetention. rewrite bind_eq.
  match goal with |- context [match ?m w with _ => _ end] => assert (pruned w (m w).2) as H1 end.
  { destruct (_ || _)%bool; [|by apply pruned_same]. cbv zeta. rewrite bind_eq. cbn [getNow]. rewrite bind_eq. unfold try.
    pose proof (keeps_query pruned io w_projects (next_tick w)) as Hq.
    destruct (query io w_projects (next_tick w)) as [r w1]. cbn [snd] in Hq.
    assert (pruned w w1) as Hw1 by (etrans; [apply blind_tick|exact Hq]). etrans; [exact Hw1|].
    apply (forM_while pruned (fun _ w => keys_ok (w_db w))); [|intros; by apply retireProject_keeps|by eauto using keys_ok_pruned].
    intros _ w2 w3. apply keys_ok_pruned. }
  match type of H1 with pruned _ (?m w).2 => destruct (m w) as [[u|e] w1] end; cbn [snd] in *; [|done]. etrans; [exact H1|]. by eapply Hsched, keys_ok_pruned.
Qed.
End Retention.

(** ** Submissions *)

Section Submit.
Context (deps : Deps) (io : nat -> attempt) (flushEnv : nat -> nat -> nat -> attempt * bool).
Context (clock : nat -> Z) (uuid : nat -> string) (parse : string -> res verr Pipeline).
Context (mapOrder : nat -> list string -> list string).
Context (marshalStep : Step -> option string) (marshalPipeline : Pipeline -> option string).
Context (marshalParams : list (string * any) -> option string).
Context (hashSubmission : string -> option (list (string * any)) -> string -> BuiltinVars -> option string).
Context (validateCredential : string -> string -> bool).
Context (resolveEnv : string -> string -> Pipeline -> option (gmap string (list string))).

Notation StartRun := (StartRun deps io flushEnv clock uuid mapOrder marshalStep marshalPipeline marshalParams
  validateCredential resolveEnv).
Notation StartRunFromAPIWithID := (StartRunFromAPIWithID deps io flushEnv clock uuid parse mapOrder marshalStep
  marshalPipeline marshalParams validateCredential resolveEnv).
Notation SubmitRun := (SubmitRun deps io flushEnv clock uuid parse mapOrder marshalStep marshalPipeline marshalParams
  hashSubmission validateCredential resolveEnv).

(** Submissions are not touched by starting a run. *)
Definition same_subs (w w' : World) : Prop := w_subs w' = w_subs w.

#[export] Instance same_subs_blind : Blind same_subs.
Proof. split; try done. split; [by intros w|]. intros a b c. unfold same_subs. congruence. Qed.

Lemma StartRunFromAPI_subs ctx id_ yaml params vars exp : keeps same_subs (StartRunFromAPIWithID ctx id_ yaml params vars exp).
Proof.
  unfold Lifecycle.StartRunFromAPIWithID, parseAndBuild, createRow. keeps.
  - apply keeps_repo; [apply _|]. intros w. by destruct (Create _ _).
  - by apply keeps_StartRun; [apply _| |].
Qed.

(** A run started under a given id has its row. *)
Lemma StartRunFromAPI_row ctx id_ yaml params vars exp w r w' :
  drained (w_queue w) -> id_ <> ""%string -> StartRunFromAPIWithID ctx id_ yaml params vars exp w = (Ok r, w') ->
  r = id_ /\ is_Some (Get (ctx_project ctx) id_ (w_db w')).
Proof.
  intros Hd Hid. unfold Lifecycle.StartRunFromAPIWithID, parseAndBuild. rewrite !bind_eq.
  destruct (lift LParse (parse yaml) w) as [[pl|e] w1] eqn:E1; injection E1 as _ <-; [|done].
  rewrite bind_eq. destruct (lift LDag (BuildDAG pl) w) as [[dag|e] w1] eqn:E1; injection E1 as _ <-; [|done]. cbn [mret M_ret].
  rewrite bind_eq. cbn [getNow]. apply String.eqb_neq in Hid. set (w1 := next_tick w).
  destruct (match v_ScheduledAt vars with Some _ => _ | None => _ end).
  - rewrite bind_eq, Hid. cbn [mret M_ret]. rewrite bind_eq. unfold createRow, repo.
    match goal with |- context [Create ?row] => set (x := row) end.
    destruct (io (w_calls w1)); [|done|by destruct (Create x _)].
    destruct (Create x (w_db (next_call w1))) as [db|] eqn:Ec; [|done]. rewrite bind_eq.
    assert (is_Some (db_runs db !! (ctx_project ctx, id_))) as Hrow.
    { unfold Create in Ec. case_match; [done|]. injection Ec as <-. simpl. rewrite lookup_insert_eq. eauto. }
    destruct (hasExport deps); intros [= <- <-]; by split.
  - match goal with |- StartRun ?c ?p ?d ?o w1 = _ -> _ => pose proof (StartRun_outcome deps io flushEnv clock uuid mapOrder
      marshalStep marshalPipeline marshalParams validateCredential resolveEnv c p d o w1 Hd) as H;
      destruct (StartRun c p d o w1) as [r' w2] end.
    intros [= -> ->]. destruct H as (-> & (row & (_ & Hdb & _) & _) & _). unfold chosenID in *. simpl in *. rewrite Hid in *.
    split; [done|]. unfold Get. rewrite Hdb, lookup_insert_eq. eauto.
Qed.

(** A submission that is recorded, with its run in the table: nothing is
    started, and the answer depends on the request only through its hash. *)
Lemma submit_replay ctx p key yaml params vars exp h w sub :
  key <> ""%string -> hasSubmissionRepo deps = true -> hashSubmission yaml params exp vars = Some h ->
  w_subs w !! (p, key) = Some sub -> is_Some (Get p (sub_RunID sub) (w_db w)) ->
  let '(r, w') := SubmitRun ctx p key yaml params vars exp w in
  same_engine w w' /\ w_subs w' = w_subs w /\
  (r = Err LRepo \/ if String.eqb (sub_RequestHash sub) h then r = Ok (sub_RunID sub) else r = Err LKeyReused).
Proof.
  intros Hkey Hr Hh Hs [row Hrow]. unfold Lifecycle.SubmitRun. apply String.eqb_neq in Hkey. rewrite Hkey, Hr, Hh. cbn [orb negb].
  rewrite bind_eq. cbn [genID]. rewrite bind_eq. cbn [getNow]. rewrite bind_eq. unfold repo at 1.
  set (w1 := next_call (next_tick (next_uuid w))).
  assert (ClaimSubmission (mkSubmission p key h (uuid (w_uuids w)) (clock (w_ticks (next_uuid w)))) (w_subs w1) = (sub, false, w_subs w)) as ->.
  { unfold ClaimSubmission. simpl. by rewrite Hs. }
  assert (w_db w1 = w_db w /\ w_queue w1 = w_queue w) as [Hd1 Hq1] by done.
  destruct (io _); cbn [fst snd]; [|by split; [split|auto]..].
  destruct (String.eqb (sub_RequestHash sub) h); cbn [negb]; [|by split; [split|auto]].
  rewrite bind_eq. unfold query, repo, get. destruct (io _); cbn [fst snd]; [|by split; [split|auto]..].
  change (w_db (next_call (set_subs (fun _ => w_subs w) w1))) with (w_db w). rewrite Hrow. by split; [split|auto].
Qed.

(** A submission is idempotent.  Once [SubmitRun] has returned a run, its
    row exists; every later submission with the same key, as long as the
    submission and the row are there, starts nothing: it returns that run for
    the same request and is refused for another one, unless the repository
    fails. *)
Theorem submit_idempotent ctx p key yaml params vars exp w id_ w1
    (Hctx : ctx_project ctx = p) (Hkey : key <> ""%string) (Hrepo : hasSubmissionRepo deps = true)
    (Hd : drained (w_queue w)) (Huuid : forall k, uuid k <> ""%string)
    (Hids : forall s, w_subs w !! (p, key) = Some s -> sub_RunID s <> ""%string)
    (Hok : SubmitRun ctx p key yaml params vars exp w = (Ok id_, w1)) :
  is_Some (Get p id_ (w_db w1)) /\
  exists h, hashSubmission yaml params exp vars = Some h /\
  exists sub, w_subs w1 !! (p, key) = Some sub /\ sub_RunID sub = id_ /\
  forall w2 yaml2 params2 vars2 exp2 h2,
    w_subs w2 !! (p, key) = Some sub -> is_Some (Get p id_ (w_db w2)) ->
    hashSubmission yaml2 params2 exp2 vars2 = Some h2 ->
    let '(r, w3) := SubmitRun ctx p key yaml2 params2 vars2 exp2 w2 in
    same_engine w2 w3 /\ (r = Err LRepo \/ if String.eqb h h2 then r = Ok id_ else r = Err LKeyReused).
Proof.
  revert Hok. unfold Lifecycle.SubmitRun at 1. pose proof Hkey as Hkey'. apply String.eqb_neq in Hkey'.
  rewrite Hkey', Hrepo. cbn [orb negb]. destruct (hashSubmission yaml params exp vars) as [h|] eqn:Hh; [|done].
  rewrite bind_eq. cbn [genID]. rewrite bind_eq. cbn [getNow]. rewrite bind_eq. unfold repo at 1.
  set (wa := next_call (next_tick (next_uuid w))).
  set (v := mkSubmission p key h (uuid (w_uuids w)) (clock (w_ticks (next_uuid w)))).
  destruct (ClaimSubmission v (w_subs wa)) as [[sub claimed] t] eqn:Ec.
  destruct (ClaimSubmission_spec _ _ _ _ _ Ec) as (Ht & Hc1 & Hc2). simpl in Ht.
  assert (sub_RunID sub <> ""%string) as Hsub.
  { destruct claimed; [rewrite Hc1 by done; apply Huuid|]. rewrite Hc2 in Ht by done. by apply Hids. }
  destruct (io _); cbn [fst snd]; [|done..].
  destruct (String.eqb (sub_RequestHash sub) h) eqn:Eh; cbn [negb]; [|done]. apply String.eqb_eq in Eh.
  set (wb := set_subs (fun _ => t) wa).
  assert (forall w1, w_subs w1 = t -> sub_RunID sub = id_ -> is_Some (Get p id_ (w_db w1)) ->
    is_Some (Get p id_ (w_db w1)) /\ exists h0, Some h = Some h0 /\ exists sub, w_subs w1 !! (p, key) = Some sub /\ sub_RunID sub = id_ /\
    forall w2 yaml2 params2 vars2 exp2 h2, w_subs w2 !! (p, key) = Some sub -> is_Some (Get p id_ (w_db w2)) ->
      hashSubmission yaml2 params2 exp2 vars2 = Some h2 ->
      let '(r, w3) := SubmitRun ctx p key yaml2 params2 vars2 exp2 w2 in
      same_engine w2 w3 /\ (r = Err LRepo \/ if String.eqb h0 h2 then r = Ok id_ else r = Err LKeyReused)) as Hfin.
  { intros w1' Et Eid Hrow. split; [done|]. exists h. split; [done|]. exists sub. split; [by rewrite Et|]. split; [done|].
    intros w2 y2 p2 v2 e2 h2 Hs2 Hr2 Hh2. rewrite <- Eid in Hr2.
    pose proof (submit_replay ctx p key y2 p2 v2 e2 h2 w2 sub Hkey Hrepo Hh2 Hs2 Hr2) as H.
    destruct (SubmitRun ctx p key y2 p2 v2 e2 w2) as [r w3]. destruct H as (H1 & _ & H2). rewrite Eh, Eid in H2. done. }
  rewrite bind_eq. destruct (query io _ wb) as [[[row|]|e] wc] eqn:Eq; [| |done].
  - apply query_ok in Eq as [Er ->]. intros [= <- <-]. apply Hfin; [done|done|]. rewrite <- Er. eauto.
  - apply query_ok in Eq as [_ ->]. rewrite bind_eq. unfold try at 1.
    destruct (StartRunFromAPIWithID ctx (sub_RunID sub) yaml params vars exp (next_call wb)) as [[r|e] wd] eqn:Es.
    + intros [= -> ->]. pose proof (StartRunFromAPI_subs ctx (sub_RunID sub) yaml params vars exp (next_call wb)) as Hsub'.
      rewrite Es in Hsub'. destruct (StartRunFromAPI_row _ _ _ _ _ _ (next_call wb) _ _ Hd Hsub Es) as [-> Hrow]. rewrite Hctx in Hrow.
      by apply Hfin.
    + rewrite bind_eq. destruct (try _ wd) as [[x|e1] we]; [|done]. rewrite bind_eq. by destruct (_ we) as [[]].
Qed.
End Submit.
