(* ===== verification/LifecycleDemo.v ===== *)
(** * Concrete worlds of the lifecycle

    Closed instances of the parameters of [Lifecycle]: the theorems of
    [LifecycleFrame], [LifecycleSpec] and [LifecycleRows] at concrete inputs,
    and small histories in which the handlers, or the order in which they
    interleave, lose a run, a step or a cancellation. *)

From S2P Require Import Prelude Pipeline Dag RunStore Queue QueueInv QueueProgress QueueFlush ScheduleStore Scheduler Lifecycle LifecycleFrame LifecycleSpec LifecycleRows.
From stdpp Require Import options.
#[local] Open Scope Z_scope.

(** ** The parameters, instantiated *)

Definition demo_deps : Deps := mkDeps "" "/o" "" 10 0 "" 0 0 true true false.
Definition demo_io (k : nat) : attempt := AttemptOk.
Definition demo_flush (k i j : nat) : attempt * bool := (AttemptOk, false).
Definition demo_clock (k : nat) : Z := 100.
(** "a", "b", "c", ... *)
Definition demo_uuid (k : nat) : string := String (Ascii.ascii_of_nat (97 + k)) "".
Definition demo_chain : Pipeline := demo_pipeline [demo_step "a" []; demo_step "b" ["a"]].
Definition demo_parse (yaml : string) : res verr Pipeline :=
  if String.eqb yaml "diamond" then Ok diamond else if String.eqb yaml "chain" then Ok demo_chain else Err EDecode.
Definition demo_params (p : list (string * any)) : option string := Some "{}".
Definition demo_unparams (s : string) : option (list (string * any)) := Some [].
Definition demo_hash (yaml : string) (params : option (list (string * any))) (exp : string) (vars : BuiltinVars)
    : option string := Some yaml.
Definition demo_cron (expr : string) : option (Z -> Z) := Some (fun t => t + 10).
Definition demo_credential (projectID ref : string) : bool := true.
Definition demo_env (projectID runID : string) (pl : Pipeline) : option (gmap string (list string)) := Some ∅.
Definition demo_ctx : context := mkContext "p" None.
Definition demo_opts : StartRunOptions := mkOpts "" "p" "" "" None (mkVars None None None) "diamond".

Notation dStartRun := (StartRun demo_deps demo_io demo_flush demo_clock demo_uuid demo_order demo_json demo_json
  demo_params demo_credential demo_env).
Notation dStartAPI := (StartRunFromAPIWithID demo_deps demo_io demo_flush demo_clock demo_uuid demo_parse demo_order
  demo_json demo_json demo_params demo_credential demo_env).
Notation dRecover := (RecoverInterruptedRuns demo_deps demo_io demo_flush demo_clock demo_parse demo_order demo_json
  demo_json demo_unparams demo_env).
Notation dSubmit := (SubmitRun demo_deps demo_io demo_flush demo_clock demo_uuid demo_parse demo_order demo_json
  demo_json demo_params demo_hash demo_credential demo_env).
Notation dRerun := (RerunRun demo_deps demo_io demo_flush demo_clock demo_uuid demo_parse demo_order demo_json
  demo_json demo_params demo_unparams demo_credential demo_env).
Notation dFire := (performFire demo_deps demo_io demo_flush demo_clock demo_uuid demo_parse demo_order demo_json
  demo_json demo_params demo_unparams demo_cron demo_credential demo_env).
Notation dCancel := (CancelRun demo_flush demo_clock demo_order (fun _ => None)).

(** Two running rows, only "r" tracked, and a queue whose run "r" has done
    its first step. *)
Definition demo_schedule : Schedule :=
  mkSchedule "s" "p" "demo" "diamond" "" "cron" "* * * * *" true 1 None 50 "" 0 0.
Definition demo_lost_row : RunRow :=
  mkRunRow "x" "p" "" "" "demo" StatusRunning 0 None None "chain" "" "" "".
Definition demo_ended_row (id_ : string) (at_ : Z) : RunRow :=
  mkRunRow id_ "p" "s" "" "demo" StatusSuccess at_ (Some at_) None "chain" "" "" "".
Definition demo_world : World :=
  mkWorld (mkDB {[ ("p", "r") := demo_row; ("p", "x") := demo_lost_row; ("p", "y") := demo_ended_row "y" 40;
                   ("p", "z") := demo_ended_row "z" 95; ("p", "v") := demo_ended_row "v" 94 ]}%string ∅)
    {[ ("p", "s") := demo_schedule ]}%string ∅ ["p"%string] demo_q2 ∅ New 0 0 0 [].

Definition runsOf (w : World) : list (string * string) :=
  (fun r => (run_ID r, run_Status r)) <$> (map_to_list (db_runs (w_db w))).*2.

Lemma demo_sound : sound (w_queue demo_world).
Proof. exact (reach_sound demo_order demo_json demo_json demo_q2 demo_q2_reach). Qed.

Lemma demo_keys : keys_ok (w_db demo_world).
Proof.
  assert (Forall (fun kv : (string * string) * RunRow => run_key kv.2 = kv.1) (map_to_list (db_runs (w_db demo_world)))) as H
    by (vm_compute; repeat constructor).
  rewrite Forall_forall in H. intros k r Hk. by apply (H (k, r)), elem_of_map_to_list.
Qed.

(** ** The theorems at these inputs *)

Lemma demo_cron_later expr next t : demo_cron expr = Some next -> t < next t.
Proof. intros [= <-]. lia. Qed.

(** Two callbacks that read the same row: one tick. *)
Lemma tick_fired_once_witness :
  let f := fired demo_deps demo_io demo_clock demo_cron 100 demo_schedule "p" "s" in
  let w1 := (dFire demo_ctx 100 demo_schedule "p" "s" demo_world).2 in
  let w2 := (dFire demo_ctx 100 demo_schedule "p" "s" w1).2 in
  f demo_world = Some 50 /\ f w1 = None /\ NoDup [50%Z] /\ same_engine w1 w2.
Proof.
  split; [vm_compute; reflexivity|]. split; [vm_compute; reflexivity|].
  set (w1 := (dFire demo_ctx 100 demo_schedule "p" "s" demo_world).2).
  destruct (tick_fired_once demo_deps demo_io demo_flush demo_clock demo_uuid demo_parse demo_order demo_json demo_json
    demo_params demo_unparams demo_cron demo_credential demo_env demo_cron_later ("p", "s")%string w1 [50]) as (_ & H & Hs).
  - apply (history_fire demo_deps demo_io demo_flush demo_clock demo_uuid demo_parse demo_order demo_json demo_json
      demo_params demo_unparams demo_cron demo_credential demo_env ("p", "s")%string demo_ctx demo_world [] 100 demo_schedule
      (history_start _ _ _ _ _ _ _ _ _ _ _ _ _ _ _ _)); [vm_compute; intros [=]|reflexivity].
  - split; [exact H|]. apply (Hs demo_ctx 100 demo_schedule). vm_compute. reflexivity.
Defined.

Lemma recover_confined_witness :
  let w' := (dRecover demo_world).2 in
  db_runs (w_db w') !! ("p", "y")%string = Some (demo_ended_row "y" 40) /\
  q_runs (w_queue w') !! "r"%string = Some 0%nat /\ is_Some (q_runs (w_queue w') !! "x"%string).
Proof.
  pose proof (recover_confined demo_deps demo_io demo_flush demo_clock demo_parse demo_order demo_json demo_json
    demo_unparams demo_env demo_world demo_sound demo_keys) as H.
  cbv zeta in *. split; [|split].
  - apply (proj2 H); [vm_compute; reflexivity|]. vm_compute. intros [=].
  - apply (proj1 H). vm_compute. reflexivity.
  - vm_compute. eexists. reflexivity.
Defined.

Lemma StartRun_outcome_witness :
  let '(r, w') := dStartRun demo_ctx diamond demo_dag demo_opts demo_world in
  r = Ok "a"%string /\ exists row, new_row demo_uuid demo_opts demo_world w' row /\ run_Status row = StatusRunning.
Proof.
  pose proof (StartRun_outcome demo_deps demo_io demo_flush demo_clock demo_uuid demo_order demo_json demo_json
    demo_params demo_credential demo_env demo_ctx diamond demo_dag demo_opts demo_world (proj2 demo_sound)) as H.
  assert ((dStartRun demo_ctx diamond demo_dag demo_opts demo_world).1 = Ok "a"%string) as E by (vm_compute; reflexivity).
  destruct (dStartRun demo_ctx diamond demo_dag demo_opts demo_world) as [r w']. cbn [fst] in E. subst r.
  split; [reflexivity|]. exact (proj1 (proj2 H)).
Defined.

Lemma StartRun_keeps_live_witness :
  reach_live demo_order demo_json demo_json (w_queue (dStartRun demo_ctx diamond demo_dag demo_opts demo_world).2).
Proof.
  apply (StartRun_keeps_live demo_deps demo_io demo_flush demo_clock demo_uuid demo_order demo_json demo_json
    demo_params demo_credential demo_env demo_ctx diamond demo_dag demo_opts demo_world demo_q2_live demo_runnable
    demo_order_perm).
  vm_compute. reflexivity.
Defined.

(** "y" is older than the time to live, "v" exceeds the one run of the
    schedule; the running rows stay. *)
Lemma retention_keeps_active_witness :
  let w' := (CleanupRetention demo_deps demo_io demo_clock demo_world).2 in
  db_runs (w_db w') !! ("p", "x")%string = Some demo_lost_row /\ List.length (runsOf w') = 3%nat.
Proof.
  pose proof (retention_keeps_active demo_deps demo_io demo_clock demo_world demo_keys) as H. cbv zeta in *.
  split; [|vm_compute; reflexivity].
  apply (proj2 (proj2 H)); [vm_compute; reflexivity|vm_compute; reflexivity].
Defined.

Lemma submit_idempotent_witness :
  let vars := mkVars None None None in
  let '(r, w1) := dSubmit demo_ctx "p" "key" "diamond" None vars "" demo_world in
  r = Ok "a"%string /\
  let '(r2, w2) := dSubmit demo_ctx "p" "key" "diamond" None vars "" w1 in
  same_engine w1 w2 /\ r2 = Ok "a"%string.
Proof.
  pose proof (submit_idempotent demo_deps demo_io demo_flush demo_clock demo_uuid demo_parse demo_order demo_json
    demo_json demo_params demo_hash demo_credential demo_env demo_ctx "p" "key" "diamond" None (mkVars None None None) ""
    demo_world "a" (dSubmit demo_ctx "p" "key" "diamond" None (mkVars None None None) "" demo_world).2 eq_refl
    ltac:(done) eq_refl (proj2 demo_sound) ltac:(done) ltac:(done)) as H.
  assert ((dSubmit demo_ctx "p" "key" "diamond" None (mkVars None None None) "" demo_world).1 = Ok "a"%string) as E
    by (vm_compute; reflexivity).
  assert ((dSubmit demo_ctx "p" "key" "diamond" None (mkVars None None None) ""
    (dSubmit demo_ctx "p" "key" "diamond" None (mkVars None None None) "" demo_world).2).1 = Ok "a"%string) as E2
    by (vm_compute; reflexivity).
  cbv zeta. destruct (dSubmit demo_ctx "p" "key" "diamond" None (mkVars None None None) "" demo_world) as [r w1].
  cbn [fst snd] in *. subst r. specialize (H eq_refl). split; [reflexivity|].
  destruct H as (Hrow & h & Hh & sub & Hsub & Hid & H).
  specialize (H w1 "diamond"%string None (mkVars None None None) ""%string h Hsub Hrow Hh).
  destruct (dSubmit demo_ctx "p" "key" "diamond" None (mkVars None None None) "" w1) as [r2 w2]. cbn [fst] in E2.
  split; [exact (proj1 H)|exact E2].
Defined.

(** ** Histories that lose work *)

Definition demo_fresh : Queue := demo_run [OpSetBackend (Some demo_backend)] (NewQueue false).
Definition demo_empty : World := mkWorld (mkDB ∅ ∅) ∅ ∅ ["p"%string] demo_fresh ∅ New 0 0 0 [].

Definition statusOf (id_ : string) (w : World) : option string := run_Status <$> db_runs (w_db w) !! ("p"%string, id_).
Definition stepStatus (ref : nat) (name : string) (w : World) : option taskStatus :=
  te_status <$> getEntry (ref, name) (w_queue w).

(** A run submitted for a later time: its row is "scheduled", the queue does
    not know it, and neither recovery nor retention ever changes that. *)
Example future_run_never_starts :
  let w1 := (dStartAPI demo_ctx "" "diamond" None (mkVars (Some 500) None None) "" demo_empty).2 in
  let w2 := (CleanupRetention demo_deps demo_io (fun _ => 600) (dRecover w1).2).2 in
  statusOf "a" w1 = Some StatusScheduled /\ w_queue w2 = demo_fresh /\ statusOf "a" w2 = Some StatusScheduled.
Proof. vm_compute. split; [|split]; reflexivity. Qed.

(** "b" depends on "a", "c" on nothing. *)
Definition demo_trio : Pipeline := demo_pipeline [demo_step "a" []; demo_step "b" ["a"]; demo_step "c" []].
Definition parse_trio (yaml : string) : res verr Pipeline := Ok demo_trio.
Definition demo_step_row (name status : string) : (string * string * string) * StepRow :=
  (("p", "x", name)%string, mkStepRow "p" "x" name status (Some 1) None "" 1).
Definition demo_crashed : World :=
  mkWorld (mkDB {[ ("p", "x")%string := demo_lost_row ]} (list_to_map
      [demo_step_row "a" "failed"; demo_step_row "b" "skipped"; demo_step_row "c" "running"]))
    ∅ ∅ ["p"%string] demo_fresh ∅ New 0 0 0 [].

(** After a crash with "a" failed, "b" skipped because of it, and "c" running,
    recovery takes the skip for done and forgets the failure: "a" is executed
    again, and the run succeeds without "b" ever having been executed. *)
Definition demo_finish_x (step : string) : op :=
  OpComplete 200 (fun _ => "w1") (mkResult "p" (MakeTaskID "x" step) "w1" "done" "" 1 2 1 []).

Example recovery_skips_step :
  let w1 := (RecoverInterruptedRuns demo_deps demo_io demo_flush demo_clock parse_trio demo_order demo_json demo_json
    demo_unparams demo_env demo_crashed).2 in
  stepStatus 0 "a" w1 = Some taskRunning /\ stepStatus 0 "b" w1 = Some taskDone /\
  let q := demo_run [demo_finish_x "a"] (w_queue w1) in
  let '(out, _) := runOp demo_order demo_json demo_json (demo_finish_x "c") q in
  List.filter (fun w => match w_fn w with WFinalize _ _ _ _ _ => true | _ => false end) (po_writes out) =
    [mkWrite "run finalized x" (WFinalize 0 "p" "x" StatusSuccess 200)].
Proof. vm_compute. split; [|split]; reflexivity. Qed.

(** Recovery between the row of a new run and its entry in the queue: the run
    is added twice, and its first step runs twice at the same time. *)
Example recovery_doubles_run :
  let '(r, w1) := prepareRun demo_deps demo_io demo_clock demo_uuid demo_params demo_credential demo_env
    demo_ctx diamond demo_opts demo_empty in
  let w2 := (dRecover w1).2 in
  exists s, r = Ok s /\
  let w3 := (enqueueRun demo_deps demo_flush demo_clock demo_order demo_json demo_json diamond demo_dag demo_opts s w2).2 in
  stepStatus 0 "a" w3 = Some taskRunning /\ stepStatus 1 "a" w3 = Some taskRunning /\
  rid (w_queue w3) 0 = Some "a"%string /\ rid (w_queue w3) 1 = Some "a"%string.
Proof. vm_compute. eexists. split; [reflexivity|]. split; [|split; [|split]]; reflexivity. Qed.

(** A rerun of the failed steps stores the whole pipeline; a restart then
    executes the steps that had succeeded as well. *)
Definition demo_half : World :=
  mkWorld (mkDB {[ ("p", "x")%string := set_run_status StatusFailed (Some 9) demo_lost_row ]} (list_to_map
      [demo_step_row "a" "done"; demo_step_row "b" "failed"]))
    ∅ ∅ ["p"%string] demo_fresh ∅ New 0 0 0 [].
Definition restarted (w : World) : World :=
  mkWorld (w_db w) (w_schedules w) (w_subs w) (w_projects w) demo_fresh ∅ New (w_calls w) (w_ticks w) (w_uuids w) (w_deeds w).

Example rerun_forgets_selection :
  let w1 := (dRerun demo_ctx "x" true demo_half).2 in
  stepStatus 0 "a" w1 = None /\ stepStatus 0 "b" w1 = Some taskRunning /\
  let w2 := (dRecover (restarted w1)).2 in
  stepStatus 0 "a" w2 = Some taskRunning.
Proof. vm_compute. split; [|split]; reflexivity. Qed.

(** A sweep whose second trial cannot be stored cancels the row of the first,
    whose steps go on running. *)
Example failed_sweep_keeps_running :
  let io k := if bool_decide (k = 6%nat) then AttemptLost else AttemptOk in
  let '(r, w1) := StartSweep demo_deps io demo_flush demo_clock demo_uuid demo_parse demo_order demo_json demo_json
    demo_params demo_credential demo_env demo_ctx "p" "diamond" "e" [None; None] demo_empty in
  r = Err (LTrial 1 LRepo) /\ statusOf "a" w1 = Some StatusCanceled /\ stepStatus 0 "a" w1 = Some taskRunning /\
  IsTracking "a" (w_queue w1) = true.
Proof. vm_compute. split; [|split; [|split]]; reflexivity. Qed.

(** Each try of a tick whose environment cannot be resolved stores a run of
    its own. *)
Example tick_stores_four_runs :
  let w1 := (fireSchedule demo_deps demo_io demo_flush demo_clock demo_uuid demo_parse demo_order demo_json demo_json
    demo_params demo_unparams demo_credential (fun _ _ _ => None) demo_ctx demo_schedule (mkVars (Some 50) None None)
    demo_empty).2 in
  runsOf w1 = [("c", StatusFailed); ("a", StatusFailed); ("b", StatusFailed); ("d", StatusFailed)]%string.
Proof. vm_compute. reflexivity. Qed.

(** A backfill of [0, 20) with a tick every 10 seconds starts three runs. *)
Example backfill_includes_end :
  let tens (expr : string) := Some (fun t => (t / 10 + 1) * 10) in
  let '(r, w1) := BackfillSchedule demo_deps demo_io demo_flush demo_clock demo_uuid demo_parse demo_order demo_json
    demo_json demo_params demo_unparams tens demo_credential demo_env demo_ctx "s" 0 20
    (set_schedules (fun _ => {[ ("p", "s")%string := demo_schedule ]}) demo_empty) in
  r = Ok ["a"; "b"; "c"]%string /\ run_ScheduledAt <$> db_runs (w_db w1) !! ("p", "c")%string = Some (Some 20).
Proof. vm_compute. split; reflexivity. Qed.

(** Deleting a run keeps its submission, so that a replay of the request
    executes the deleted run again, under its old id. *)
Example replay_after_delete :
  let vars := mkVars None None None in
  let w1 := (dSubmit demo_ctx "p" "key" "chain" None vars "" demo_empty).2 in
  let w2 := (DeleteRunWithArtifacts demo_io "p" "a" (dCancel demo_ctx "a" w1).2).2 in
  let '(r, w3) := dSubmit demo_ctx "p" "key" "chain" None vars "" w2 in
  statusOf "a" w2 = None /\ r = Ok "a"%string /\ statusOf "a" w3 = Some StatusRunning.
Proof. vm_compute. split; [|split]; reflexivity. Qed.
