(* ===== verification/DirectRuntime.v ===== *)
(** * Direct execution: [internal/directruntime], [internal/pipelinedispatch],
    [pkg/pipeline/pipelinedriver/{paths,resolve}.go]

    Where a dispatched task runs on the Piper host: the key of its execution
    unit, the checks before it starts, the runtime that bounds and tracks the
    running units, and the Docker and baremetal backends that put a
    cancellation tombstone in front of it.  The driver (a subprocess or a
    container), SHA-256 and the JSON decoder are parameters.  A dispatch is
    three atomic steps, for the driver's [Start] runs without the lock. *)

From S2P Require Import Prelude Pipeline Dag Queue.
From stdpp Require Import pretty.
From stdpp Require Import options.
#[local] Open Scope Z_scope.

(** ** Runtime keys *)

(** The width of the first rune, as [utf8.DecodeRuneInString] reads it: 1 for
    an invalid encoding. *)
Definition cont (c : ascii) : bool := bool_decide (128 <= nat_of_ascii c <= 191)%nat.
Definition between (lo hi : nat) (c : ascii) : bool := bool_decide (lo <= nat_of_ascii c <= hi)%nat.

Definition rune_width (s : string) : nat :=
  match s with
  | String a (String b rest) =>
      if between 194 223 a then (if cont b then 2%nat else 1%nat) else
      match rest with
      | String c rest =>
          if ((between 224 224 a && between 160 191 b || between 225 236 a && cont b ||
               between 237 237 a && between 128 159 b || between 238 239 a && cont b) && cont c)%bool then 3%nat else
          match rest with
          | String d _ =>
              if ((between 240 240 a && between 144 191 b || between 241 243 a && cont b ||
                   between 244 244 a && between 128 143 b) && cont c && cont d)%bool then 4%nat else 1%nat
          | EmptyString => 1%nat
          end
      | EmptyString => 1%nat
      end
  | _ => 1%nat
  end.

(** The byte written for the first rune, after [strings.ToLower]: a letter, a
    digit or a dash.  Two runes outside ASCII have an ASCII lower case: the
    dotted I and the Kelvin sign. *)
Definition dash : ascii := "-"%char.

Definition key_byte (s : string) : ascii :=
  match s with
  | String a rest =>
      if between 65 90 a then ascii_of_nat (nat_of_ascii a + 32)
      else if (between 97 122 a || between 48 57 a || Ascii.eqb a dash)%bool then a
      else match rest with
           | String b rest =>
               if (between 196 196 a && between 176 176 b)%bool then "i"%char else
               match rest with
               | String c _ =>
                   if (between 226 226 a && between 132 132 b && between 170 170 c)%bool then "k"%char else dash
               | EmptyString => dash
               end
           | EmptyString => dash
           end
  | EmptyString => dash
  end.

Fixpoint key_bytes (fuel : nat) (s : string) : string :=
  match fuel, s with
  | S fuel, String _ _ => String (key_byte s) (key_bytes fuel (str_drop (rune_width s) s))
  | _, _ => ""
  end.

(** [strings.TrimLeft(s, "-")] and [strings.TrimRight(s, "-")] *)
Fixpoint trim_left_dash (s : string) : string :=
  match s with
  | String c s' => if Ascii.eqb c dash then trim_left_dash s' else s
  | EmptyString => s
  end.
Fixpoint trim_right_dash (s : string) : string :=
  match s with
  | EmptyString => ""
  | String c s' =>
      match trim_right_dash s' with
      | EmptyString => if Ascii.eqb c dash then "" else String c ""
      | s'' => String c s''
      end
  end.

(** [digest] is the hexadecimal form of the first four bytes of SHA-256. *)
Definition RuntimeKey (digest : string -> string) (runtimeID runID stepName : string) (attempt : Z) : string :=
  let attempt := if attempt <? 1 then 1 else attempt in
  let raw := (runtimeID +:+ "-" +:+ runID +:+ "-" +:+ stepName +:+ "-a" +:+ pretty attempt)%string in
  let key := trim_right_dash (trim_left_dash (key_bytes (String.length raw) raw)) in
  if (String.length key <=? 63)%nat then key else
  let suffix := ("-" +:+ digest key)%string in
  (trim_right_dash (str_take (63 - String.length suffix) key) +:+ suffix)%string.

(** ** Checks before a start *)

Section Checks.
(** [json.Unmarshal] of the task's pipeline and step. *)
Variable unmarshalPipeline : string -> option Pipeline.
Variable unmarshalStep : string -> option Step.

Inductive dispatchErr : Type :=
| DUnmarshal | DPlacement (scope : string) | DNoImage (step : string) | DNoNamespace (step : string)
| DStart (msg : string) | DBusy (reason : string) | DCanceled (runID : string).

Definition check_runtime (allowed scope runtime : string) : res dispatchErr unit :=
  check (negb (String.eqb runtime "") && negb (String.eqb runtime allowed))%bool (DPlacement scope).

(** The encoded pipeline, when the queue could encode it; decoding [nil] fails. *)
Definition validateDirectPlacement (allowed : string) (task : Task) : res dispatchErr unit :=
  match t_Pipeline task ≫= unmarshalPipeline with
  | None => Err DUnmarshal
  | Some pl =>
      _ ← match ps_Defaults (pl_Spec pl) with
          | Some d => check_runtime allowed "defaults" (dr_Runtime d)
          | None => Ok tt
          end;
      each (fun s => check_runtime allowed (s_Name s) (dr_Runtime (s_Driver s))) (ps_Steps (pl_Spec pl))
  end.

Definition runtimeImage (d : DriverSpec) (runtime : string) : string :=
  if String.eqb runtime "docker" then match dr_Docker d with Some x => d_Image x | None => "" end
  else if String.eqb runtime "k8s" then match dr_K8s d with Some x => k8s_Image x | None => "" end
  else "".

Definition defaultsOf (task : Task) : option DriverSpec :=
  match t_Pipeline task ≫= unmarshalPipeline with Some pl => ps_Defaults (pl_Spec pl) | None => None end.

Definition ResolveImage (task : Task) (runtime : string) : res dispatchErr string :=
  let image := match t_Step task ≫= unmarshalStep with Some s => runtimeImage (s_Driver s) runtime | None => "" end in
  if negb (String.eqb image "") then Ok image else
  let image := match defaultsOf task with Some d => runtimeImage d runtime | None => "" end in
  if negb (String.eqb image "") then Ok image else Err (DNoImage (t_StepName task)).

Definition namespaceOf (d : DriverSpec) : string := match dr_K8s d with Some x => k8s_Namespace x | None => "" end.

Definition ResolveNamespace (task : Task) : res dispatchErr string :=
  let ns := match t_Step task ≫= unmarshalStep with Some s => namespaceOf (s_Driver s) | None => "" end in
  if negb (String.eqb ns "") then Ok ns else
  let ns := match defaultsOf task with Some d => namespaceOf d | None => "" end in
  if negb (String.eqb ns "") then Ok ns else Err (DNoNamespace (t_StepName task)).
End Checks.

Fixpoint trim_right_slash (s : string) : string :=
  match s with
  | EmptyString => ""
  | String c s' =>
      match trim_right_slash s' with
      | EmptyString => if Ascii.eqb c slash then "" else String c ""
      | s'' => String c s''
      end
  end.

(** A container cannot reach the host's file system. *)
Definition taskStorageForDirectRuntime (task : Task) (masterURL runtimeToken : string) : string * string :=
  if String.prefix "file://" (t_StorageURL task)
  then ((trim_right_slash (TrimSpace masterURL) +:+ "/store")%string,
        if String.eqb (t_StorageToken task) "" then runtimeToken else t_StorageToken task)
  else (t_StorageURL task, t_StorageToken task).

(** ** The runtime *)

(** The fields of [pdriver.Handle] that a step below reads. *)
Record Handle := mkHandle { h_RuntimeKey : string; h_TaskID : string; h_RunID : string; h_Attempt : Z }.

(** A tracked unit; the zero handle, while it starts, is [None].  Its context's
    cancel function is [ContextCanceled] on its key, its log sink is left out. *)
Record trackedTask := mkTracked {
  tt_runID : string; tt_handle : option Handle; tt_starting : bool; tt_canceled : bool }.

(** What the runtime does to a unit: cancel its context, stop it. *)
Inductive act : Type := ContextCanceled (key : string) | DriverStopped (h : Handle).

(** [starts]: the dispatches that are inside [Driver.Start], by key and run;
    [observers]: the handles of the goroutines inside [Driver.Wait]. *)
Record Runtime := mkRuntime {
  ru_active : gmap string trackedTask; ru_inFlight : Z; ru_draining : bool;
  ru_starts : list (string * string); ru_observers : list Handle; ru_acts : list act }.

Definition NewRuntime : Runtime := mkRuntime ∅ 0 false [] [] [].

(** [New]: the driver and the storage resolver are functions; the flags say
    whether they are given. *)
Definition New (runtimeID : string) (hasDriver : bool) (concurrency : Z) (hasResolveStorage : bool) : res string Runtime :=
  _ ← check (String.eqb runtimeID "") "directruntime: RuntimeID is required"%string;
  _ ← check (negb hasDriver) "directruntime: Driver is required"%string;
  _ ← check (concurrency <=? 0) "directruntime: Concurrency must be > 0"%string;
  _ ← check (negb hasResolveStorage) "directruntime: ResolveStorage is required"%string;
  Ok NewRuntime.

(** The first locked section of [Dispatch]. *)
Definition reserve (concurrency : Z) (key runID : string) (r : Runtime) : res dispatchErr unit * Runtime :=
  if ru_draining r then (Err (DBusy "runtime draining"), r) else
  if concurrency <=? ru_inFlight r then (Err (DBusy "runtime at capacity"), r) else
  (Ok tt, mkRuntime (<[key := mkTracked runID None true false]> (ru_active r)) (ru_inFlight r + 1) (ru_draining r)
            (ru_starts r ++ [(key, runID)]) (ru_observers r) (ru_acts r)).

(** The rest of the [i]-th dispatch: [Start] (or the image) failed, and the
    reservation is rolled back. *)
Definition startFailed (i : nat) (r : Runtime) : Runtime :=
  match ru_starts r !! i with
  | Some (key, _) =>
      mkRuntime (delete key (ru_active r)) (ru_inFlight r - 1) (ru_draining r) (delete i (ru_starts r)) (ru_observers r) (ru_acts r)
  | None => r
  end.

(** [Start] returned a handle: it is published, unless a cancellation came
    while it was starting. *)
Definition started (i : nat) (taskID : string) (attempt : Z) (r : Runtime) : Runtime :=
  match ru_starts r !! i with
  | Some (key, runID) =>
      let h := mkHandle key taskID runID attempt in
      let r := mkRuntime (ru_active r) (ru_inFlight r) (ru_draining r) (delete i (ru_starts r)) (ru_observers r) (ru_acts r) in
      match ru_active r !! key with
      | Some t =>
          if tt_canceled t
          then mkRuntime (delete key (ru_active r)) (ru_inFlight r - 1) (ru_draining r) (ru_starts r) (ru_observers r)
                 (ru_acts r ++ [DriverStopped h])
          else mkRuntime (<[key := mkTracked (tt_runID t) (Some h) false false]> (ru_active r)) (ru_inFlight r)
                 (ru_draining r) (ru_starts r) (ru_observers r ++ [h]) (ru_acts r)
      | None =>
          mkRuntime (delete key (ru_active r)) (ru_inFlight r - 1) (ru_draining r) (ru_starts r) (ru_observers r)
            (ru_acts r ++ [DriverStopped h])
      end
  | None => r
  end.

(** [CancelRun] of the runtime; the order of the two maps' entries is open. *)
Definition cancel_mark (runID : string) (t : trackedTask) : trackedTask :=
  if (String.eqb (tt_runID t) runID && tt_starting t)%bool
  then mkTracked (tt_runID t) (tt_handle t) (tt_starting t) true else t.

Definition entriesOf (runID : string) (r : Runtime) : list (string * trackedTask) :=
  List.filter (fun kt => String.eqb (tt_runID kt.2) runID) (map_to_list (ru_active r)).

Definition cancelUnits (runID : string) (r : Runtime) : Runtime :=
  if String.eqb runID "" then r else
  let mine := entriesOf runID r in
  let stop := List.filter (fun kt => negb (tt_starting kt.2)) mine in
  mkRuntime (cancel_mark runID <$> ru_active r) (ru_inFlight r) (ru_draining r) (ru_starts r) (ru_observers r)
    (ru_acts r ++ List.map (fun kt => ContextCanceled kt.1) mine ++
     List.map (fun kt => DriverStopped (default (mkHandle "" "" "" 0) (tt_handle kt.2))) stop).

(** The deferred part of [observe], for the [i]-th observer. *)
Definition observed (i : nat) (r : Runtime) : Runtime :=
  match ru_observers r !! i with
  | Some h =>
      mkRuntime (delete (h_RuntimeKey h) (ru_active r)) (ru_inFlight r - 1) (ru_draining r) (ru_starts r)
        (delete i (ru_observers r)) (ru_acts r)
  | None => r
  end.

(** A handle that [Driver.Recover] found, in [Observe]: no capacity check. *)
Definition recoverHandle (h : Handle) (r : Runtime) : Runtime :=
  mkRuntime (<[h_RuntimeKey h := mkTracked (h_RunID h) (Some h) false false]> (ru_active r)) (ru_inFlight r + 1)
    (ru_draining r) (ru_starts r) (ru_observers r ++ [h]) (ru_acts r).

(** The task ids of one round of [leaseLoop]; a unit that is still starting
    has the empty id. *)
Definition leaseIDs (r : Runtime) : list string :=
  (fun t => match tt_handle t with Some h => h_TaskID h | None => "" end) <$> (map_to_list (ru_active r)).*2.

(** *** Results *)

Record Exit := mkExit { ex_Result : option TaskResult; ex_ResultPath : string; ex_InfraFailure : option string }.

(** [readResult] reads and decodes the result file. *)
Definition buildResult (readResult : string -> option TaskResult) (now : Z) (runtimeID : string) (h : Handle) (e : Exit) : TaskResult :=
  let own r := mkResult (tr_ProjectID r) (tr_TaskID r) runtimeID (tr_Status r) (tr_Error r) (tr_StartedAt r) (tr_EndedAt r)
                 (tr_Attempt r) (tr_Metrics r) in
  match ex_Result e with
  | Some r => own r
  | None =>
      match ex_InfraFailure e with
      | Some msg => mkResult "" (h_TaskID h) runtimeID TaskStatusFailed msg now now (h_Attempt h) []
      | None =>
          match (if String.eqb (ex_ResultPath e) "" then None else readResult (ex_ResultPath e)) with
          | Some r => own r
          | None => mkResult "" (h_TaskID h) runtimeID TaskStatusFailed "result unavailable after job completion"
                      (-62135596800 * time_Second) now
                      (h_Attempt h) []
          end
      end
  end.

(** *** Interleavings *)

Inductive rop : Type :=
| RReserve (key runID : string) | RStartFailed (i : nat) | RStarted (i : nat) (taskID : string) (attempt : Z)
| RCancel (runID : string) | RObserved (i : nat) | RRecover (h : Handle).

Section Steps.
Variable concurrency : Z.

Definition runRop (o : rop) (r : Runtime) : Runtime :=
  match o with
  | RReserve key runID => (reserve concurrency key runID r).2
  | RStartFailed i => startFailed i r
  | RStarted i taskID attempt => started i taskID attempt r
  | RCancel runID => cancelUnits runID r
  | RObserved i => observed i r
  | RRecover h => recoverHandle h r
  end.

(** ** The Docker and baremetal backends *)

(** [be_canceled]: the tombstones, with their timers; a timer carries its run
    and whether it has expired, so that only its callback remains. *)
Record Backend := mkBackend {
  be_canceled : gmap string nat; be_timers : gmap nat (string * bool); be_next : nat; be_rt : Runtime }.

Definition on_rt (f : Runtime -> Runtime) (b : Backend) : Backend :=
  mkBackend (be_canceled b) (be_timers b) (be_next b) (f (be_rt b)).

(** [b.mu] is held for the whole of a dispatch. *)
Definition locked (b : Backend) : bool := negb (bool_decide (ru_starts (be_rt b) = [])).

(** [timer.Stop()]: no effect on a timer that has expired. *)
Definition stopTimer (id : nat) (b : Backend) : Backend :=
  match be_timers b !! id with
  | Some (_, false) => mkBackend (be_canceled b) (delete id (be_timers b)) (be_next b) (be_rt b)
  | _ => b
  end.

(** [Dispatch] up to [Driver.Start]. *)
Definition dispatchBegin (placement : res dispatchErr unit) (key runID : string) (b : Backend)
    : res dispatchErr unit * Backend :=
  match placement with
  | Err e => (Err e, b)
  | Ok _ =>
      match be_canceled b !! runID with
      | Some _ => (Err (DCanceled runID), b)
      | None => let '(r, rt) := reserve concurrency key runID (be_rt b) in (r, on_rt (fun _ => rt) b)
      end
  end.

Definition markCanceledLocked (runID : string) (b : Backend) : Backend :=
  let b := match be_canceled b !! runID with Some old => stopTimer old b | None => b end in
  mkBackend (<[runID := be_next b]> (be_canceled b)) (<[be_next b := (runID, false)]> (be_timers b)) (S (be_next b)) (be_rt b).

Definition CancelRun (runID : string) (b : Backend) : Backend :=
  if String.eqb runID "" then b else on_rt (cancelUnits runID) (markCanceledLocked runID b).

Definition ReleaseRun (runID : string) (b : Backend) : Backend :=
  match be_canceled b !! runID with
  | Some id =>
      let b := stopTimer id b in
      mkBackend (delete runID (be_canceled b)) (be_timers b) (be_next b) (be_rt b)
  | None => b
  end.

(** A tombstone's timer expires, and its callback runs. *)
Definition expireTombstone (id : nat) (b : Backend) : Backend :=
  mkBackend (be_canceled b) (alter (fun t => (t.1, true)) id (be_timers b)) (be_next b) (be_rt b).

Definition tombstoneCallback (id : nat) (b : Backend) : Backend :=
  match be_timers b !! id with
  | Some (runID, true) =>
      mkBackend (if bool_decide (be_canceled b !! runID = Some id) then delete runID (be_canceled b) else be_canceled b)
        (delete id (be_timers b)) (be_next b) (be_rt b)
  | _ => b
  end.

Inductive bop : Type :=
| BDispatch (placement : res dispatchErr unit) (key runID : string)
| BStartFailed | BStarted (taskID : string) (attempt : Z)
| BCancel (runID : string) | BRelease (runID : string)
| BExpire (id : nat) | BCallback (id : nat)
| BObserved (i : nat) | BRecover (h : Handle).

(** An operation that needs [b.mu] waits while a dispatch holds it. *)
Definition unless_locked (f : Backend -> Backend) (b : Backend) : Backend := if locked b then b else f b.

Definition runBop (o : bop) (b : Backend) : Backend :=
  match o with
  | BDispatch placement key runID => unless_locked (fun b => (dispatchBegin placement key runID b).2) b
  | BStartFailed => on_rt (startFailed 0) b
  | BStarted taskID attempt => on_rt (started 0 taskID attempt) b
  | BCancel runID => unless_locked (CancelRun runID) b
  | BRelease runID => unless_locked (ReleaseRun runID) b
  | BExpire id => expireTombstone id b
  | BCallback id => unless_locked (tombstoneCallback id) b
  | BObserved i => on_rt (observed i) b
  | BRecover h => on_rt (recoverHandle h) b
  end.
End Steps.

Definition NewBackend : Backend := mkBackend ∅ ∅ 0 NewRuntime.
