(* ===== verification/DirectSpec.v ===== *)
(** * What direct execution guarantees

    The units that run are counted and bounded; a cancelled run is stopped
    and stays stopped, as long as the keys of its units differ. *)

From S2P Require Import Prelude Pipeline Dag Queue DirectRuntime.
From stdpp Require Import options.
#[local] Open Scope Z_scope.
#[local] Set Default Proof Using "Type*".

(** ** Capacity *)

Definition units (r : Runtime) : nat := (List.length (ru_starts r) + List.length (ru_observers r))%nat.

Definition is_recover (o : rop) : bool := match o with RRecover _ => true | _ => false end.
Definition recovers (ops : list rop) : nat := List.length (List.filter is_recover ops).

Definition rrun (concurrency : Z) (ops : list rop) (r : Runtime) : Runtime :=
  foldl (fun r o => runRop concurrency o r) r ops.

Lemma length_delete_Z {A} (i : nat) (l : list A) x :
  l !! i = Some x -> Z.of_nat (List.length (delete i l)) = Z.of_nat (List.length l) - 1.
Proof. intros H. rewrite length_delete by eauto. apply lookup_lt_Some in H. lia. Qed.

(** One step counts exactly, and only a recovery ignores the limit. *)
Lemma runRop_counts c o r :
  ru_inFlight r = Z.of_nat (units r) ->
  let r' := runRop c o r in
  ru_inFlight r' = Z.of_nat (units r') /\
  (ru_inFlight r' <= ru_inFlight r \/ is_recover o = true /\ ru_inFlight r' = ru_inFlight r + 1 \/
   is_recover o = false /\ ru_inFlight r' <= c).
Proof.
  unfold units. intros H. destruct o; simpl.
  - unfold reserve. destruct (ru_draining r); simpl; [split; [done|by left; lia]|].
    destruct (c <=? ru_inFlight r) eqn:E; simpl; [split; [done|by left; lia]|]. rewrite length_app. simpl. lia.
  - unfold startFailed. destruct (ru_starts r !! i) as [[key runID]|] eqn:E; simpl; [|lia].
    pose proof (length_delete_Z _ _ _ E). lia.
  - unfold started. destruct (ru_starts r !! i) as [[key runID]|] eqn:E; simpl; [|lia].
    pose proof (length_delete_Z _ _ _ E). destruct (ru_active r !! key) as [t|]; [destruct (tt_canceled t)|];
      simpl; rewrite ?length_app; simpl; lia.
  - unfold cancelUnits. destruct (String.eqb runID ""); simpl; lia.
  - unfold observed. destruct (ru_observers r !! i) as [h|] eqn:E; simpl; [|lia].
    pose proof (length_delete_Z _ _ _ E). lia.
  - rewrite length_app. simpl. lia.
Qed.

(** However dispatches, cancellations, ends and recoveries of units
    interleave, and whatever their keys, the runtime's counter is the number of
    units that are starting or running (never negative), and no more than the
    configured concurrency are there, beyond the units recovered from an
    earlier process, which no limit applies to. *)
Theorem capacity_respected concurrency ops (Hc : 0 <= concurrency) :
  let r := rrun concurrency ops NewRuntime in
  ru_inFlight r = Z.of_nat (units r) /\ ru_inFlight r <= concurrency + Z.of_nat (recovers ops).
Proof.
  assert (forall r n, ru_inFlight r = Z.of_nat (units r) -> ru_inFlight r <= concurrency + Z.of_nat n ->
    ru_inFlight (rrun concurrency ops r) = Z.of_nat (units (rrun concurrency ops r)) /\
    ru_inFlight (rrun concurrency ops r) <= concurrency + Z.of_nat (n + recovers ops)) as H.
  { induction ops as [|o ops IH]; intros r n H1 H2; [rewrite Nat.add_0_r; done|]. simpl.
    destruct (runRop_counts concurrency o r H1) as [H3 H4].
    assert (ru_inFlight (runRop concurrency o r) <= concurrency + Z.of_nat (n + (if is_recover o then 1 else 0))) as H5
      by (destruct (is_recover o); destruct H4 as [?|[[? ?]|[? ?]]]; try done; lia).
    destruct (IH _ _ H3 H5) as [H6 H7]. split; [done|]. unfold recovers in *. simpl. destruct (is_recover o); simpl in *; lia. }
  exact (H NewRuntime 0%nat eq_refl ltac:(simpl; lia)).
Qed.

(** ** Distinct keys *)

(** Every unit is tracked under its own key. *)
Record keyed (r : Runtime) : Prop := {
  k_observer : forall h, h ∈ ru_observers r -> exists c,
    ru_active r !! h_RuntimeKey h = Some (mkTracked (h_RunID h) (Some h) false c);
  k_observers : NoDup (h_RuntimeKey <$> ru_observers r);
  k_start : forall key runID, (key, runID) ∈ ru_starts r -> exists c, ru_active r !! key = Some (mkTracked runID None true c);
  k_starts : NoDup (ru_starts r).*1 }.

(** The key of a new unit is not in use. *)
Definition rop_ok (r : Runtime) (o : rop) : Prop :=
  match o with
  | RReserve key _ => ru_active r !! key = None
  | RRecover h => ru_active r !! h_RuntimeKey h = None
  | _ => True
  end.

Lemma NoDup_snoc {A} (l : list A) x : NoDup l -> x ∉ l -> NoDup (l ++ [x]).
Proof.
  intros Hl Hx. apply NoDup_app. split; [done|]. split; [|apply NoDup_singleton].
  intros y Hy Hin. apply elem_of_cons in Hin as [->|Hin]; [done|by apply not_elem_of_nil in Hin].
Qed.

Lemma fmap_delete {A B} (f : A -> B) (i : nat) (l : list A) : f <$> delete i l = delete i (f <$> l).
Proof. revert i. induction l as [|x l IH]; intros [|i]; simpl; [done..|]. f_equal. apply IH. Qed.

Lemma NoDup_delete {A} (i : nat) (l : list A) x :
  NoDup l -> l !! i = Some x -> NoDup (delete i l) /\ x ∉ delete i l /\ forall y, y ∈ delete i l -> y ∈ l.
Proof.
  revert i. induction l as [|y l IH]; intros [|i] Hl Hi; simpl in *; try done; apply NoDup_cons in Hl as [Hy Hl].
  - injection Hi as ->. split; [done|]. split; [done|]. intros z Hz. by right.
  - destruct (IH i Hl Hi) as (H1 & H2 & H3). split; [|split].
    + apply NoDup_cons. split; [|done]. intros Hin. by apply Hy, H3.
    + intros [->|Hin]%elem_of_cons; [|done]. by apply list_elem_of_lookup_2 in Hi.
    + intros z [->|Hz]%elem_of_cons; [by left|right; by apply H3].
Qed.

(** A unit added under a fresh key. *)
Lemma keyed_add r key t starts obs n d acts :
  keyed r -> ru_active r !! key = None ->
  (starts = ru_starts r ++ [(key, tt_runID t)] /\ obs = ru_observers r /\ t = mkTracked (tt_runID t) None true false \/
   exists h, starts = ru_starts r /\ obs = ru_observers r ++ [h] /\ h_RuntimeKey h = key /\ t = mkTracked (h_RunID h) (Some h) false false) ->
  keyed (mkRuntime (<[key := t]> (ru_active r)) n d starts obs acts).
Proof.
  intros [H1 H2 H3 H4] Hk Hcase.
  assert (forall h, h ∈ ru_observers r -> h_RuntimeKey h <> key) as Ho by (intros h Hh E; destruct (H1 _ Hh); congruence).
  assert (forall k runID, (k, runID) ∈ ru_starts r -> k <> key) as Hs by (intros k runID Hin E; destruct (H3 _ _ Hin); congruence).
  destruct Hcase as [(-> & -> & Et)|(h & -> & -> & Hh & Et)]; split; simpl.
  - intros h Hh. rewrite lookup_insert_ne by (by apply not_eq_sym, Ho). by apply H1.
  - done.
  - intros k runID [Hin|Hin]%elem_of_app; [rewrite lookup_insert_ne by (by eapply not_eq_sym, Hs); by apply H3|].
    apply elem_of_cons in Hin as [[= -> ->]|Hin]; [|by apply not_elem_of_nil in Hin]. rewrite lookup_insert_eq, Et. eauto.
  - rewrite fmap_app. apply NoDup_snoc; [done|]. intros ([k runID] & E & Hin)%list_elem_of_fmap. simpl in E. by eapply Hs.
  - intros h' [Hin|Hin]%elem_of_app; [rewrite lookup_insert_ne by (by apply not_eq_sym, Ho); by apply H1|].
    apply elem_of_cons in Hin as [->|Hin]; [|by apply not_elem_of_nil in Hin]. rewrite Hh, lookup_insert_eq, Et. eauto.
  - rewrite fmap_app. apply NoDup_snoc; [done|]. rewrite Hh. intros (h' & E & Hin)%list_elem_of_fmap. by eapply Ho.
  - intros k runID Hin. rewrite lookup_insert_ne by (by eapply not_eq_sym, Hs). by apply H3.
  - done.
Qed.

(** A unit removed with its entry. *)
Lemma keyed_end_start r i key runID n d acts :
  keyed r -> ru_starts r !! i = Some (key, runID) ->
  keyed (mkRuntime (delete key (ru_active r)) n d (delete i (ru_starts r)) (ru_observers r) acts).
Proof.
  intros [H1 H2 H3 H4] Hi. pose proof (list_elem_of_lookup_2 _ _ _ Hi) as Hin. destruct (H3 _ _ Hin) as [c Hc].
  assert ((ru_starts r).*1 !! i = Some key) as Hk by by rewrite list_lookup_fmap, Hi.
  destruct (NoDup_delete _ _ _ H4 Hk) as (N1 & N2 & N3).
  split; simpl.
  - intros h Hh. destruct (H1 _ Hh) as [c' Hc']. exists c'. rewrite lookup_delete_ne; [done|]. intros E. rewrite E in Hc. congruence.
  - done.
  - intros k runID' Hin'. assert (k ∈ delete i (ru_starts r).*1) as Hk' by (rewrite <- fmap_delete; by apply (list_elem_of_fmap_2 fst) in Hin').
    rewrite lookup_delete_ne by (intros ->; done).
    apply H3. apply (NoDup_delete _ _ _ (NoDup_fmap_1 _ _ H4) Hi). done.
  - by rewrite fmap_delete.
Qed.

Lemma keyed_end_observer r i h n d acts :
  keyed r -> ru_observers r !! i = Some h ->
  keyed (mkRuntime (delete (h_RuntimeKey h) (ru_active r)) n d (ru_starts r) (delete i (ru_observers r)) acts).
Proof.
  intros [H1 H2 H3 H4] Hi. pose proof (list_elem_of_lookup_2 _ _ _ Hi) as Hin. destruct (H1 _ Hin) as [c Hc].
  assert ((h_RuntimeKey <$> ru_observers r) !! i = Some (h_RuntimeKey h)) as Hk by by rewrite list_lookup_fmap, Hi.
  destruct (NoDup_delete _ _ _ H2 Hk) as (N1 & N2 & N3).
  split; simpl.
  - intros h' Hh. assert (h_RuntimeKey h' ∈ delete i (h_RuntimeKey <$> ru_observers r)) as Hk' by (rewrite <- fmap_delete; by apply list_elem_of_fmap_2).
    rewrite lookup_delete_ne by (intros E; rewrite E in N2; done).
    apply H1. apply (NoDup_delete _ _ _ (NoDup_fmap_1 _ _ H2) Hi). done.
  - by rewrite fmap_delete.
  - intros k runID Hin'. destruct (H3 _ _ Hin') as [c' Hc']. exists c'. rewrite lookup_delete_ne; [done|].
    intros E. rewrite E in Hc. congruence.
  - done.
Qed.

Lemma keyed_runRop c o r : keyed r -> rop_ok r o -> keyed (runRop c o r).
Proof.
  intros Hk Ho. destruct o; simpl in *.
  - unfold reserve. destruct (ru_draining r); [done|]. destruct (c <=? ru_inFlight r); [done|]. simpl.
    apply keyed_add; [done|done|]. left. done.
  - unfold startFailed. destruct (ru_starts r !! i) as [[key runID]|] eqn:E; [|done]. by eapply keyed_end_start.
  - unfold started. destruct (ru_starts r !! i) as [[key runID]|] eqn:E; [|done]. simpl.
    destruct (k_start _ Hk _ _ (list_elem_of_lookup_2 _ _ _ E)) as [cc Hc]. rewrite Hc. simpl. destruct cc; [by eapply keyed_end_start|].
    pose proof (keyed_end_start r i key runID (ru_inFlight r) (ru_draining r) (ru_acts r) Hk E) as Hd.
    rewrite <- insert_delete_eq. eapply (keyed_add _ key _ _ _ _ _ _ Hd).
    + simpl. apply lookup_delete_eq.
    + right. exists (mkHandle key taskID runID attempt). done.
  - unfold cancelUnits. destruct (String.eqb runID ""); [done|]. destruct Hk as [H1 H2 H3 H4]. split; simpl; [|done| |done].
    + intros h Hh. destruct (H1 _ Hh) as [cc Hc]. rewrite lookup_fmap, Hc. simpl. unfold cancel_mark. simpl. rewrite andb_false_r. eauto.
    + intros k runID' Hin. destruct (H3 _ _ Hin) as [cc Hc]. rewrite lookup_fmap, Hc. simpl. unfold cancel_mark. simpl.
      destruct (String.eqb runID' runID); simpl; eauto.
  - unfold observed. destruct (ru_observers r !! i) as [h|] eqn:E; [|done]. by eapply keyed_end_observer.
  - unfold recoverHandle. apply keyed_add; [done|done|]. right. by exists h.
Qed.

(** ** Tombstones *)

(** Timers and tombstones belong together. *)
Record tombs_ok (b : Backend) : Prop := {
  tomb_timer : forall runID id, be_canceled b !! runID = Some id -> exists f, be_timers b !! id = Some (runID, f);
  timer_old : forall id t, be_timers b !! id = Some t -> (id < be_next b)%nat }.

Definition bop_ok (b : Backend) (o : bop) : Prop :=
  match o with
  | BDispatch _ key _ => ru_active (be_rt b) !! key = None
  | BRecover h => ru_active (be_rt b) !! h_RuntimeKey h = None
  | _ => True
  end.

Inductive breach (concurrency : Z) : Backend -> Prop :=
| breach_start : breach concurrency NewBackend
| breach_step b o : breach concurrency b -> bop_ok b o -> breach concurrency (runBop concurrency o b).

Lemma tombs_stop runID id b :
  tombs_ok b -> be_canceled b !! runID = Some id ->
  (forall runID' id', be_canceled b !! runID' = Some id' -> runID' <> runID -> exists f, be_timers (stopTimer id b) !! id' = Some (runID', f)) /\
  (forall id' t, be_timers (stopTimer id b) !! id' = Some t -> (id' < be_next b)%nat).
Proof.
  intros [H1 H2] Hc. unfold stopTimer. destruct (H1 _ _ Hc) as [f Hf]. rewrite Hf. destruct f; simpl; [split; eauto|]. split.
  - intros runID' id' Hc' Hne. destruct (H1 _ _ Hc') as [f' Hf']. exists f'. rewrite lookup_delete_ne; [done|]. congruence.
  - intros id' t [_ Ht]%lookup_delete_Some. eauto.
Qed.

Lemma stopTimer_same id b :
  be_canceled (stopTimer id b) = be_canceled b /\ be_next (stopTimer id b) = be_next b /\ be_rt (stopTimer id b) = be_rt b.
Proof. unfold stopTimer. destruct (be_timers b !! id) as [[r []]|]; done. Qed.

Lemma tombs_mark runID b : tombs_ok b -> tombs_ok (markCanceledLocked runID b).
Proof.
  intros H. unfold markCanceledLocked. destruct (be_canceled b !! runID) as [old|] eqn:Hc.
  - destruct (tombs_stop _ _ _ H Hc) as [T1 T2]. destruct (stopTimer_same old b) as (E1 & E2 & _). rewrite E1, E2.
    split; simpl.
    + intros r i [[<- <-]|[Hne Hr]]%lookup_insert_Some; [rewrite lookup_insert_eq; eauto|].
      destruct (T1 _ _ Hr ltac:(done)) as [f Hf]. exists f. rewrite lookup_insert_ne; [done|]. intros <-. specialize (T2 _ _ Hf). lia.
    + intros i t [[<- _]|[_ Hi]]%lookup_insert_Some; [lia|]. specialize (T2 _ _ Hi). lia.
  - destruct H as [H1 H2]. split; simpl.
    + intros r i [[<- <-]|[Hne Hr]]%lookup_insert_Some; [rewrite lookup_insert_eq; eauto|].
      destruct (H1 _ _ Hr) as [f Hf]. exists f. rewrite lookup_insert_ne; [done|]. intros <-. specialize (H2 _ _ Hf). lia.
    + intros i t [[<- _]|[_ Hi]]%lookup_insert_Some; [lia|]. specialize (H2 _ _ Hi). lia.
Qed.

Lemma tombs_runBop c o b : tombs_ok b -> tombs_ok (runBop c o b).
Proof.
  intros H. assert (forall f, tombs_ok (on_rt f b)) as Hrt by (intros f; by destruct H).
  destruct o; simpl; try apply Hrt; try (unfold unless_locked; destruct (locked b); [done|]).
  - unfold dispatchBegin. destruct placement; [|done]. destruct (be_canceled b !! runID); [done|].
    destruct (reserve c key runID (be_rt b)) as [r rt]. apply Hrt.
  - unfold CancelRun. destruct (String.eqb runID ""); [done|]. destruct (tombs_mark runID b H) as [M1 M2]. by split.
  - unfold ReleaseRun. destruct (be_canceled b !! runID) as [id|] eqn:Hc; [|done].
    destruct (tombs_stop _ _ _ H Hc) as [T1 T2]. destruct (stopTimer_same id b) as (E1 & E2 & _). split; simpl; rewrite ?E1, ?E2; [|done].
    intros r i [Hne Hr]%lookup_delete_Some. by apply T1.
  - destruct H as [H1 H2]. split; simpl.
    + intros r i Hr. destruct (H1 _ _ Hr) as [f Hf]. rewrite lookup_alter. case_decide as E; [rewrite E, Hf; simpl; eauto|eauto].
    + intros i t Hi. destruct (decide (id = i)) as [->|Hne]; [|rewrite lookup_alter_ne in Hi by done; by eapply H2].
      rewrite lookup_alter_eq in Hi. apply fmap_Some in Hi as (t' & Hi & _). by eapply H2.
  - unfold tombstoneCallback. destruct (be_timers b !! id) as [[r []]|] eqn:Hi; [|done..]. destruct H as [H1 H2]. split; simpl.
    + intros r' i' Hr'. assert (be_canceled b !! r' = Some i' /\ i' <> id) as [Hr Hne].
      { case_bool_decide as Hb.
        - apply lookup_delete_Some in Hr' as [Hne Hr']. split; [done|]. intros ->. destruct (H1 _ _ Hr') as [f Hf]. congruence.
        - split; [done|]. intros ->. destruct (H1 _ _ Hr') as [f Hf]. assert (r = r') as -> by congruence. done. }
      destruct (H1 _ _ Hr) as [f Hf]. exists f. by rewrite lookup_delete_ne.
    + intros i t [_ Ht]%lookup_delete_Some. by eapply H2.
Qed.

Lemma breach_ok c b : breach c b -> keyed (be_rt b) /\ tombs_ok b.
Proof.
  induction 1 as [|b o _ [IH1 IH2] Ho].
  - split; split; simpl; try done; try apply NoDup_nil_2; intros *; try (by intros H%not_elem_of_nil); by rewrite lookup_empty.
  - split; [|by apply tombs_runBop]. destruct o; simpl in *; try (unfold unless_locked; destruct (locked b); [done|]).
    + unfold dispatchBegin. destruct placement; [|done]. destruct (be_canceled b !! runID); [done|].
      pose proof (keyed_runRop c (RReserve key runID) (be_rt b) IH1 Ho) as H. simpl in H.
      by destruct (reserve c key runID (be_rt b)) as [r rt].
    + by apply (keyed_runRop c (RStartFailed 0)).
    + by apply (keyed_runRop c (RStarted 0 taskID attempt)).
    + unfold CancelRun. destruct (String.eqb runID ""); [done|]. simpl. unfold markCanceledLocked.
      assert (be_rt match be_canceled b !! runID with Some old => stopTimer old b | None => b end = be_rt b) as ->
        by (destruct (be_canceled b !! runID) as [old|]; [by destruct (stopTimer_same old b) as (_ & _ & E)|done]).
      by apply (keyed_runRop c (RCancel runID)).
    + unfold ReleaseRun. destruct (be_canceled b !! runID) as [id|]; [|done]. simpl. by destruct (stopTimer_same id b) as (_ & _ & ->).
    + done.
    + unfold tombstoneCallback. by destruct (be_timers b !! id) as [[r []]|].
    + by apply (keyed_runRop c (RObserved i)).
    + by apply (keyed_runRop c (RRecover h)).
Qed.

(** ** A cancellation is final *)

(** Nothing of the run starts, and what runs of it has been stopped. *)
Record silenced (runID : string) (id : nat) (b : Backend) : Prop := {
  sil_tomb : be_canceled b !! runID = Some id;
  sil_timer : be_timers b !! id = Some (runID, false);
  sil_starts : forall key, (key, runID) ∉ ru_starts (be_rt b);
  sil_stopped : forall h, h ∈ ru_observers (be_rt b) -> h_RunID h = runID -> DriverStopped h ∈ ru_acts (be_rt b) }.

(** The operations that end a cancellation: a release of the run, a new
    cancellation, the expiry of the tombstone; and the recovery of a unit of an
    earlier process. *)
Definition quiet (runID : string) (id : nat) (o : bop) : Prop :=
  match o with
  | BRelease r | BCancel r => r <> runID
  | BExpire i => i <> id
  | BRecover h => h_RunID h <> runID
  | _ => True
  end.

Lemma elem_of_delete_list {A} (x : A) (i : nat) (l : list A) : x ∈ delete i l -> x ∈ l.
Proof.
  revert i. induction l as [|y l IH]; intros [|i]; simpl; try done; [intros H; by right|].
  intros [->|H]%elem_of_cons; [by left|right; eauto].
Qed.

(** The part about the runtime, under one of its steps. *)
Definition rt_silent (runID : string) (r : Runtime) : Prop :=
  (forall key, (key, runID) ∉ ru_starts r) /\
  (forall h, h ∈ ru_observers r -> h_RunID h = runID -> DriverStopped h ∈ ru_acts r).

Lemma rt_silent_step c o runID r :
  rt_silent runID r -> match o with RReserve _ r' => r' <> runID | RRecover h => h_RunID h <> runID | _ => True end ->
  rt_silent runID (runRop c o r).
Proof.
  intros [H1 H2] Ho. destruct o; simpl.
  - unfold reserve. destruct (ru_draining r); [done|]. destruct (c <=? ru_inFlight r); [done|]. split; simpl; [|done].
    intros k [Hin|Hin]%elem_of_app; [by eapply H1|]. apply elem_of_cons in Hin as [[= -> ->]|Hin]; [done|by apply not_elem_of_nil in Hin].
  - unfold startFailed. destruct (ru_starts r !! i) as [[k r']|]; [|done]. split; simpl; [|done].
    intros k' Hin%elem_of_delete_list. by eapply H1.
  - unfold started. destruct (ru_starts r !! i) as [[k r']|] eqn:E; [|done]. apply list_elem_of_lookup_2 in E. simpl.
    assert (forall key, (key, runID) ∉ delete i (ru_starts r)) as Hd by (intros k' Hin%elem_of_delete_list; by eapply H1).
    destruct (ru_active r !! k) as [t|]; [destruct (tt_canceled t)|]; split; simpl; try done.
    + intros h Hh Er. apply elem_of_app. left. by apply H2.
    + intros h [Hh|Hh]%elem_of_app Er; [by apply H2|]. apply elem_of_cons in Hh as [->|Hh]; [|by apply not_elem_of_nil in Hh].
      simpl in Er. subst r'. by apply H1 in E.
    + intros h Hh Er. apply elem_of_app. left. by apply H2.
  - unfold cancelUnits. destruct (String.eqb runID0 ""); [done|]. split; simpl; [done|]. intros h Hh Er.
    apply elem_of_app. left. by apply H2.
  - unfold observed. destruct (ru_observers r !! i) as [h|]; [|done]. split; simpl; [done|].
    intros h' Hh%elem_of_delete_list Er. by apply H2.
  - split; simpl; [done|]. intros h' [Hh|Hh]%elem_of_app Er; [by apply H2|].
    apply elem_of_cons in Hh as [->|Hh]; [done|by apply not_elem_of_nil in Hh].
Qed.

Lemma silenced_rt runID id b r : silenced runID id b -> rt_silent runID r -> silenced runID id (on_rt (fun _ => r) b).
Proof. intros [H1 H2 _ _] [H3 H4]. by split. Qed.

Lemma silenced_step c o runID id b : tombs_ok b -> silenced runID id b -> quiet runID id o -> silenced runID id (runBop c o b).
Proof.
  intros Ht Hs Hq. pose proof Hs as [S1 S2 S3 S4]. assert (rt_silent runID (be_rt b)) as Hr by done.
  destruct o; simpl in *; try (unfold unless_locked; destruct (locked b); [done|]).
  - unfold dispatchBegin. destruct placement; [|done]. destruct (be_canceled b !! runID0) eqn:Hc; [done|].
    destruct (decide (runID0 = runID)) as [->|Hne]; [congruence|].
    pose proof (rt_silent_step c (RReserve key runID0) runID (be_rt b) Hr Hne) as H. simpl in H.
    destruct (reserve c key runID0 (be_rt b)) as [r rt]. by apply silenced_rt.
  - by apply silenced_rt, (rt_silent_step c (RStartFailed 0)).
  - by apply silenced_rt, (rt_silent_step c (RStarted 0 taskID attempt)).
  - unfold CancelRun. destruct (String.eqb runID0 ""); [done|]. unfold markCanceledLocked.
    assert (forall b', be_canceled b' = be_canceled b -> be_next b' = be_next b -> be_rt b' = be_rt b -> be_timers b' !! id = Some (runID, false) ->
      silenced runID id (on_rt (cancelUnits runID0) (mkBackend (<[runID0 := be_next b']> (be_canceled b')) (<[be_next b' := (runID0, false)]> (be_timers b')) (S (be_next b')) (be_rt b')))) as Hb.
    { intros b' E1 E2 E3 E4. assert (rt_silent runID (cancelUnits runID0 (be_rt b))) as [R1 R2] by by apply (rt_silent_step c (RCancel runID0)).
      split; simpl; rewrite ?E1, ?E3; try done; [by rewrite lookup_insert_ne|].
      rewrite lookup_insert_ne; [done|]. rewrite E2. pose proof (timer_old _ Ht _ _ S2). lia. }
    destruct (be_canceled b !! runID0) as [old|] eqn:Hc; [|by apply Hb]. destruct (stopTimer_same old b) as (E1 & E2 & E3). apply Hb; try done.
    unfold stopTimer. destruct (tomb_timer _ Ht _ _ Hc) as [f Hf]. rewrite Hf. destruct f; [done|]. simpl.
    rewrite lookup_delete_ne; [done|]. intros ->. congruence.
  - unfold ReleaseRun. destruct (be_canceled b !! runID0) as [old|] eqn:Hc; [|done]. destruct (stopTimer_same old b) as (E1 & E2 & E3).
    split; simpl; rewrite ?E1, ?E3; try done; [by rewrite lookup_delete_ne|].
    unfold stopTimer. destruct (tomb_timer _ Ht _ _ Hc) as [f Hf]. rewrite Hf. destruct f; [done|]. simpl.
    rewrite lookup_delete_ne; [done|]. intros ->. congruence.
  - split; simpl; try done. by rewrite lookup_alter_ne.
  - unfold tombstoneCallback. destruct (be_timers b !! id0) as [[r []]|] eqn:Hi; [|done..].
    assert (id0 <> id) as Hne by congruence. split; simpl; try done; [|by rewrite lookup_delete_ne].
    case_bool_decide as Hb; [|done]. rewrite lookup_delete_ne; [done|]. intros ->. congruence.
  - by apply silenced_rt, (rt_silent_step c (RObserved i)).
  - by apply silenced_rt, (rt_silent_step c (RRecover h)).
Qed.

(** C29: As long as every unit was dispatched or recovered under a runtime key that
    no tracked unit had, which the validation of pipelines does not ensure
    ([runtime_keys_collide] shows a cancellation that stops nothing), a cancellation
    is final.  When [CancelRun] returns, [Driver.Stop] was called for every running
    unit of the run; and until the run is released, cancelled again or recovered, or
    the tombstone's minute is over, whatever else happens (late dispatches, ends of
    units, callbacks of older tombstones, other runs), no dispatch of the run starts
    anything and every unit of it that is observed was asked to stop. *)
Theorem cancel_is_final concurrency b runID ops
    (Hb : breach concurrency b) (Hrun : runID <> ""%string) (Hfree : locked b = false)
    (Hq : Forall (quiet runID (be_next b)) ops) :
  let b' := foldl (fun b o => runBop concurrency o b) (CancelRun runID b) ops in
  (forall placement key, is_ok (dispatchBegin concurrency placement key runID b').1 = false /\
     (dispatchBegin concurrency placement key runID b').2 = b') /\
  (forall key, (key, runID) ∉ ru_starts (be_rt b')) /\
  (forall h, h ∈ ru_observers (be_rt b') -> h_RunID h = runID -> DriverStopped h ∈ ru_acts (be_rt b')).
Proof.
  destruct (breach_ok _ _ Hb) as [Hk Ht].
  assert (tombs_ok (CancelRun runID b) /\ silenced runID (be_next b) (CancelRun runID b)) as H0.
  { pose proof (tombs_runBop concurrency (BCancel runID) b Ht) as H. simpl in H. unfold unless_locked in H. rewrite Hfree in H.
    split; [done|]. clear H. apply String.eqb_neq in Hrun. unfold CancelRun. rewrite Hrun. unfold markCanceledLocked.
    assert (forall b', be_rt b' = be_rt b -> be_next b' = be_next b -> silenced runID (be_next b) (on_rt (cancelUnits runID)
      (mkBackend (<[runID := be_next b']> (be_canceled b')) (<[be_next b' := (runID, false)]> (be_timers b')) (S (be_next b')) (be_rt b')))) as H.
    { intros b' -> ->. unfold locked in Hfree. apply negb_false_iff, bool_decide_eq_true in Hfree.
      split; simpl; [apply lookup_insert_eq|apply lookup_insert_eq| |]; unfold cancelUnits; rewrite Hrun; simpl.
      - rewrite Hfree. intros key Hin. by apply not_elem_of_nil in Hin.
      - intros h Hh <-. destruct (k_observer _ Hk _ Hh) as [cc Hc]. apply elem_of_app. right. apply elem_of_app. right.
        apply list_elem_of_In, in_map_iff. exists (h_RuntimeKey h, mkTracked (h_RunID h) (Some h) false cc). split; [done|].
        apply List.filter_In. split; [|done]. apply List.filter_In. split; [|by apply String.eqb_refl].
        by apply list_elem_of_In, elem_of_map_to_list. }
    destruct (be_canceled b !! runID) as [old|]; [|by apply H]. destruct (stopTimer_same old b) as (_ & E2 & E3). by apply H. }
  cbv zeta. assert (tombs_ok (foldl (fun b o => runBop concurrency o b) (CancelRun runID b) ops) /\
    silenced runID (be_next b) (foldl (fun b o => runBop concurrency o b) (CancelRun runID b) ops)) as [_ [S1 S2 S3 S4]].
  { revert H0. generalize (CancelRun runID b). induction Hq as [|o ops Ho _ IH]; intros b1 [T S]; simpl; [done|].
    apply IH. split; [by apply tombs_runBop|by apply silenced_step]. }
  split; [|done]. intros placement key. unfold dispatchBegin. destruct placement; [|done]. by rewrite S1.
Qed.

(** ** Concrete units *)

Definition demo_backend (ops : list bop) : Backend := foldl (fun b o => runBop 2 o b) NewBackend ops.
Definition demo_dispatch (key runID step : string) : list bop :=
  [BDispatch (Ok tt) key runID; BStarted (MakeTaskID runID step) 1].

(** Two runs with one unit each. *)
Definition demo_two : Backend := demo_backend (demo_dispatch "k1" "r" "a" ++ demo_dispatch "k2" "s" "a").

Lemma demo_two_reach : breach 2 demo_two.
Proof.
  unfold demo_two, demo_backend. repeat (apply breach_step; [|vm_compute; first [reflexivity|exact I]]). constructor.
Qed.

Definition demo_handle (key runID : string) : Handle := mkHandle key (MakeTaskID runID "a") runID 1.

(** The run "r" is cancelled, dispatched again, and its unit ends; the run
    "s" goes on. *)
Lemma cancel_is_final_witness :
  let b' := foldl (fun b o => runBop 2 o b) (CancelRun "r" demo_two)
    [BDispatch (Ok tt) "k3" "r"; BCallback 0; BDispatch (Ok tt) "k4" "s"] in
  is_ok (dispatchBegin 2 (Ok tt) "k5" "r" b').1 = false /\ List.length (ru_observers (be_rt b')) = 2%nat /\
  DriverStopped (demo_handle "k1" "r") ∈ ru_acts (be_rt b').
Proof.
  pose proof (cancel_is_final 2 demo_two "r"
    [BDispatch (Ok tt) "k3" "r"; BCallback 0; BDispatch (Ok tt) "k4" "s"] demo_two_reach ltac:(done)
    ltac:(vm_compute; reflexivity)) as H.
  destruct H as (H1 & _ & H3); [repeat constructor|]. split; [apply H1|]. split; [vm_compute; reflexivity|].
  apply H3; [|reflexivity]. vm_compute. left.
Defined.

Lemma capacity_respected_witness :
  let r := rrun 1 [RReserve "k1" "r"; RReserve "k2" "r"; RRecover (demo_handle "k3" "s")] NewRuntime in
  ru_inFlight r = 2 /\ ru_inFlight r <= 1 + 1.
Proof.
  pose proof (capacity_respected 1 [RReserve "k1" "r"; RReserve "k2" "r"; RRecover (demo_handle "k3" "s")] ltac:(lia)) as H.
  split; [vm_compute; reflexivity|]. exact (proj2 H).
Defined.

(** ** Keys that collide *)

Definition demo_pair (a b : string) : Pipeline := demo_pipeline [demo_step a []; demo_step b []].

(** Keys are not distinct: [Validate] accepts a pipeline with the parallel
    steps "train_a" and "train-a", or with two step names outside ASCII that have
    the same number of characters, and both steps get the same runtime key.
    When both run and the first ends, its entry takes the second's away, and a
    cancellation of the run stops nothing although the second still runs. *)
Theorem runtime_keys_collide template_ok flip flip' digest :
  let key step := RuntimeKey digest "piper-baremetal-runtime" "r" step 1 in
  Validate template_ok flip flip' (demo_pair "train_a" "train-a") = Ok tt /\ key "train_a" = key "train-a" /\
  Validate template_ok flip flip' (demo_pair "학습" "평가") = Ok tt /\ key "학습" = key "평가" /\
  let b := demo_backend (demo_dispatch (key "train_a") "r" "train_a" ++ demo_dispatch (key "train-a") "r" "train-a" ++
             [BObserved 0; BCancel "r"]) in
  h_TaskID <$> ru_observers (be_rt b) = [MakeTaskID "r" "train-a"] /\ ru_acts (be_rt b) = [].
Proof.
  cbv zeta.
  split; [destruct flip'; vm_compute; repeat case_match; congruence|]. split; [vm_compute; reflexivity|]. split; [destruct flip'; vm_compute; repeat case_match; congruence|].
  split; [vm_compute; reflexivity|]. split; vm_compute; reflexivity.
Qed.
