(* ===== verification/Outbox.v ===== *)
(** * Integration outbox: [pkg/integration/outbox], [internal/store/sqlite/integration_outbox.go]

    The durable queue between the lifecycle events and an external tracking
    server: a table of events, ordered within an aggregate (one run, one
    notebook execution), that dispatchers claim under a lease, hand to a
    handler and mark.  [Sys] is the table with what the dispatchers of all
    servers have selected and claimed; its operations interleave freely.
    The handler's answer, [uuid.NewString] and [rand.Int63n] are parameters. *)

From S2P Require Import Prelude.
From stdpp Require Import options.
#[local] Open Scope Z_scope.

(** ** Events *)

Definition StatusPending : string := "pending".
Definition StatusDelivering : string := "delivering".
Definition StatusDelivered : string := "delivered".
Definition StatusDead : string := "dead".
Definition StatusDisabled : string := "disabled".

Record Event := mkEvent {
  ev_ID : string; ev_IntegrationID : string; ev_ProjectID : string;
  ev_AggregateType : string; ev_AggregateID : string; ev_Sequence : Z;
  ev_EventType : string; ev_PayloadJSON : string;
  ev_Status : string; ev_Attempts : Z; ev_NextAttemptAt : Z;
  ev_LeaseOwner : string; ev_LeaseExpiresAt : option Z;
  ev_LastErrorCode : string; ev_LastError : string; ev_CreatedAt : Z; ev_DeliveredAt : option Z }.

Notation event_table := (gmap string Event).

(** [SET status, attempts, next_attempt_at, lease_owner, lease_expires_at,
    last_error_code, last_error, delivered_at]; the other columns never change. *)
Definition ev_set (status : string) (attempts next : Z) (owner : string) (expires : option Z)
    (code err : string) (deliveredAt : option Z) (e : Event) : Event := {|
  ev_ID := ev_ID e; ev_IntegrationID := ev_IntegrationID e; ev_ProjectID := ev_ProjectID e;
  ev_AggregateType := ev_AggregateType e; ev_AggregateID := ev_AggregateID e; ev_Sequence := ev_Sequence e;
  ev_EventType := ev_EventType e; ev_PayloadJSON := ev_PayloadJSON e; ev_Status := status;
  ev_Attempts := attempts; ev_NextAttemptAt := next; ev_LeaseOwner := owner; ev_LeaseExpiresAt := expires;
  ev_LastErrorCode := code; ev_LastError := err; ev_CreatedAt := ev_CreatedAt e; ev_DeliveredAt := deliveredAt |}.

Definition aggregate (e : Event) : string * string * string :=
  (ev_IntegrationID e, ev_AggregateType e, ev_AggregateID e).
Definition is_status (s : string) (e : Event) : bool := String.eqb (ev_Status e) s.
(** [status IN ('pending', 'delivering')] *)
Definition is_open (e : Event) : bool := (is_status StatusPending e || is_status StatusDelivering e)%bool.
Definition same_aggregate (a b : Event) : bool := bool_decide (aggregate a = aggregate b).

Definition rows (t : event_table) : list Event := (map_to_list t).*2.

(** ** The repository *)

Definition max_sequence (l : list Event) : Z := foldr (fun e m => Z.max (ev_Sequence e) m) 0 l.

(** [COALESCE(MAX(sequence), 0) + 1] over the aggregate. *)
Definition next_sequence (e : Event) (t : event_table) : Z :=
  max_sequence (List.filter (same_aggregate e) (rows t)) + 1.

(** The unique index, and the foreign key [fk]: the integration exists. *)
Definition conflicts (e : Event) (t : event_table) : bool :=
  existsb (fun o => (same_aggregate e o && (ev_Sequence o =? ev_Sequence e) &&
                     String.eqb (ev_EventType o) (ev_EventType e))%bool) (rows t).

Definition enqueued (now : Z) (uuid : string) (t : event_table) (e : Event) : Event := {|
  ev_ID := (if String.eqb (ev_ID e) "" then uuid else ev_ID e); ev_IntegrationID := ev_IntegrationID e;
  ev_ProjectID := ev_ProjectID e; ev_AggregateType := ev_AggregateType e; ev_AggregateID := ev_AggregateID e;
  ev_Sequence := (if ev_Sequence e =? 0 then next_sequence e t else ev_Sequence e);
  ev_EventType := ev_EventType e; ev_PayloadJSON := ev_PayloadJSON e; ev_Status := StatusPending;
  ev_Attempts := 0; ev_NextAttemptAt := now; ev_LeaseOwner := ""; ev_LeaseExpiresAt := None;
  ev_LastErrorCode := ""; ev_LastError := ""; ev_CreatedAt := now; ev_DeliveredAt := None |}.

(** The transaction; [None] when the insert is refused. *)
Definition Enqueue (now : Z) (uuid : string) (fk : bool) (e : Event) (t : event_table) : option event_table :=
  let row := enqueued now uuid t e in
  match t !! ev_ID row with
  | Some _ => None
  | None => if (negb fk || conflicts row t)%bool then None else Some (<[ev_ID row := row]> t)
  end.

(** The event may be claimed at [now]. *)
Definition due (now : Z) (e : Event) : bool :=
  (is_status StatusPending e && (ev_NextAttemptAt e <=? now)) ||
  (is_status StatusDelivering e && match ev_LeaseExpiresAt e with Some x => x <? now | None => false end).

(** [e.sequence = (SELECT MIN(e2.sequence) ...)] for an open event. *)
Definition earliest (t : event_table) (e : Event) : bool :=
  forallb (fun o => (negb (same_aggregate e o && is_open o) || (ev_Sequence e <=? ev_Sequence o))%bool) (rows t).

Definition by_next (a b : Event) : Prop := ev_NextAttemptAt a <= ev_NextAttemptAt b.

#[export] Instance by_next_dec : RelDecision by_next.
Proof. intros a b. unfold by_next. apply _. Defined.

(** The [SELECT] of [ClaimBatch]; SQL leaves the order of ties open. *)
Definition selectClaimable (now limit : Z) (t : event_table) : list Event :=
  take (Z.to_nat limit) (merge_sort by_next (List.filter (fun e => due now e && earliest t e)%bool (rows t))).

(** [status='pending' OR (status='delivering' AND lease_expires_at < ?)] *)
Definition claimable (now : Z) (row : Event) : bool :=
  (is_status StatusPending row ||
   (is_status StatusDelivering row && match ev_LeaseExpiresAt row with Some x => x <? now | None => false end))%bool.

Definition leased (owner : string) (expires : Z) (e : Event) : Event :=
  ev_set StatusDelivering (ev_Attempts e + 1) (ev_NextAttemptAt e) owner (Some expires)
    (ev_LastErrorCode e) (ev_LastError e) (ev_DeliveredAt e) e.

(** The [UPDATE] of [ClaimBatch] for one candidate [ev]: the claimed event, as
    the dispatcher sees it, unless no row matched. *)
Definition claimOne (now : Z) (owner : string) (expires : Z) (ev : Event) (t : event_table)
    : option Event * event_table :=
  match t !! ev_ID ev with
  | Some row =>
      if claimable now row
      then (Some (leased owner expires ev), <[ev_ID ev := leased owner expires row]> t)
      else (None, t)
  | None => (None, t)
  end.

(** The loop of [ClaimBatch]; [io k] is how the [k]-th update ends. *)
Fixpoint claimLoop (io : nat -> attempt) (k : nat) (now : Z) (owner : string) (expires : Z)
    (candidates claimed : list Event) (t : event_table) : res unit (list Event) * event_table :=
  match candidates with
  | [] => (Ok claimed, t)
  | ev :: candidates =>
      let '(r, t') := claimOne now owner expires ev t in
      match io k with
      | AttemptOk => claimLoop io (S k) now owner expires candidates (claimed ++ option_list r) t'
      | AttemptLost => (Err tt, t)
      | AttemptApplied => (Err tt, t')
      end
  end.

Definition ClaimBatch (io : nat -> attempt) (now : Z) (owner : string) (leaseDuration limit : Z) (t : event_table)
    : res unit (list Event) * event_table :=
  if limit <=? 0 then (Ok [], t) else
  match io 0%nat with
  | AttemptOk => claimLoop io 1 now owner (now + leaseDuration) (selectClaimable now limit t) [] t
  | _ => (Err tt, t)
  end.

(** [WHERE id=? AND lease_owner=? AND status='delivering']; false when no row
    matched, [ErrNotFound]. *)
Definition mark (id owner : string) (f : Event -> Event) (t : event_table) : bool * event_table :=
  match t !! id with
  | Some e =>
      if (String.eqb (ev_LeaseOwner e) owner && is_status StatusDelivering e)%bool
      then (true, <[id := f e]> t) else (false, t)
  | None => (false, t)
  end.

Definition delivered (now : Z) (e : Event) : Event :=
  ev_set StatusDelivered (ev_Attempts e) (ev_NextAttemptAt e) "" None (ev_LastErrorCode e) (ev_LastError e) (Some now) e.
Definition retried (next : Z) (code err : string) (e : Event) : Event :=
  ev_set StatusPending (ev_Attempts e) next "" None code err (ev_DeliveredAt e) e.
Definition died (code err : string) (e : Event) : Event :=
  ev_set StatusDead (ev_Attempts e) (ev_NextAttemptAt e) "" None code err (ev_DeliveredAt e) e.
Definition disabled (e : Event) : Event :=
  ev_set StatusDisabled (ev_Attempts e) (ev_NextAttemptAt e) "" None (ev_LastErrorCode e) (ev_LastError e)
    (ev_DeliveredAt e) e.

Definition MarkDelivered (now : Z) (id owner : string) : event_table -> bool * event_table := mark id owner (delivered now).
Definition MarkRetry (id owner : string) (next : Z) (code err : string) : event_table -> bool * event_table :=
  mark id owner (retried next code err).
Definition MarkDead (id owner : string) (code err : string) : event_table -> bool * event_table :=
  mark id owner (died code err).

Definition DisableIntegrationEvents (integrationID : string) (t : event_table) : event_table :=
  (fun e => if (String.eqb (ev_IntegrationID e) integrationID && is_open e)%bool then disabled e else e) <$> t.

(** [ON DELETE CASCADE] of the integration. *)
Definition cascade (integrationID : string) (t : event_table) : event_table :=
  filter (fun kv => ev_IntegrationID kv.2 <> integrationID) t.

(** *** Observability *)

Definition CountByStatus (integrationID status : string) (t : event_table) : Z :=
  Z.of_nat (List.length (List.filter (fun e => (String.eqb (ev_IntegrationID e) integrationID && is_status status e)%bool) (rows t))).

Definition by_created (a b : Event) : Prop := ev_CreatedAt a <= ev_CreatedAt b.

#[export] Instance by_created_dec : RelDecision by_created.
Proof. intros a b. unfold by_created. apply _. Defined.

Definition pending_of (integrationID : string) (e : Event) : bool :=
  (String.eqb (ev_IntegrationID e) integrationID && is_status StatusPending e)%bool.

Definition OldestPending (integrationID : string) (t : event_table) : option Z :=
  match merge_sort by_created (List.filter (pending_of integrationID) (rows t)) with
  | [] => None
  | e :: _ => Some (ev_CreatedAt e)
  end.

Definition by_sequence (a b : Event) : Prop := ev_Sequence a <= ev_Sequence b.

#[export] Instance by_sequence_dec : RelDecision by_sequence.
Proof. intros a b. unfold by_sequence. apply _. Defined.

Definition ListByAggregate (integrationID aggregateType aggregateID : string) (t : event_table) : list Event :=
  merge_sort by_sequence (List.filter (fun e => bool_decide (aggregate e = (integrationID, aggregateType, aggregateID))) (rows t)).

(** ** The dispatcher *)

Record Outcome := mkOutcome {
  out_Delivered : bool; out_Retryable : bool; out_RetryAfter : Z; out_ErrorCode : string; out_ErrorMessage : string }.

Record Config := mkConfig {
  Owner : string; Concurrency : Z; BatchSize : Z; PollInterval : Z; LeaseDuration : Z;
  MaxAttemptsBeforeDead : Z; BaseBackoff : Z; MaxBackoff : Z }.

Definition set_owner (owner : string) (c : Config) : Config :=
  mkConfig owner (Concurrency c) (BatchSize c) (PollInterval c) (LeaseDuration c) (MaxAttemptsBeforeDead c)
    (BaseBackoff c) (MaxBackoff c).

Definition orDefault (v d : Z) : Z := if v <=? 0 then d else v.

Definition withDefaults (c : Config) : Config := {|
  Owner := Owner c;
  Concurrency := orDefault (Concurrency c) 1;
  BatchSize := orDefault (BatchSize c) 20;
  PollInterval := orDefault (PollInterval c) (5 * time_Second);
  LeaseDuration := orDefault (LeaseDuration c) (30 * time_Second);
  MaxAttemptsBeforeDead := orDefault (MaxAttemptsBeforeDead c) 20;
  BaseBackoff := orDefault (BaseBackoff c) (2 * time_Second);
  MaxBackoff := orDefault (MaxBackoff c) (5 * time_Minute) |}.

(** [d *= 2] in [int64], at most [n] times. *)
Fixpoint growBackoff (n : nat) (max d : Z) : Z :=
  match n with
  | O => d
  | S n =>
      if d <? max then
        let d := wrap64 (d * 2) in
        if max <? d then max else growBackoff n max d
      else d
  end.

(** [None]: [rand.Int63n] panics on an argument that is not positive. *)
Definition backoff (rand : Z -> Z) (base max attempts : Z) : option Z :=
  let attempts := if attempts <? 1 then 1 else attempts in
  let d := growBackoff (Z.to_nat (attempts - 1)) max base in
  let d := if max <? d then max else d in
  if d <=? 0 then Some 0 else
  if wrap64 (d + 1) <=? 0 then None else Some (rand (wrap64 (d + 1))).

(** What [process] does besides marking. *)
Inductive note : Type := NotifiedDead | Panicked.

(** How a marking statement ends: an error and [ErrNotFound] are only logged. *)
Definition marked (at_ : attempt) (f : event_table -> bool * event_table) (t : event_table) : event_table :=
  match at_ with AttemptLost => t | _ => (f t).2 end.

Definition process (cfg : Config) (rand : Z -> Z) (now : Z) (at_ : attempt) (outcome : Outcome) (ev : Event)
    (t : event_table) : list note * event_table :=
  if out_Delivered outcome then ([], marked at_ (MarkDelivered now (ev_ID ev) (Owner cfg)) t) else
  if (negb (out_Retryable outcome) || (MaxAttemptsBeforeDead cfg <=? ev_Attempts ev))%bool then
    (if (out_Retryable outcome && (MaxAttemptsBeforeDead cfg <=? ev_Attempts ev))%bool then [NotifiedDead] else [],
     marked at_ (MarkDead (ev_ID ev) (Owner cfg) (out_ErrorCode outcome) (out_ErrorMessage outcome)) t)
  else
    match (if out_RetryAfter outcome <=? 0 then backoff rand (BaseBackoff cfg) (MaxBackoff cfg) (ev_Attempts ev)
           else Some (out_RetryAfter outcome)) with
    | None => ([Panicked], t)
    | Some delay =>
        ([], marked at_ (MarkRetry (ev_ID ev) (Owner cfg) (now + delay) (out_ErrorCode outcome) (out_ErrorMessage outcome)) t)
    end.

(** [PollOnce] with [Concurrency] 1, or with goroutines that happen to run one
    after the other: the events claimed, then each handled. *)
Definition PollOnce (cfg : Config) (rand : Z -> Z) (now : Z) (io : nat -> attempt) (marks : nat -> attempt)
    (handle : Event -> Outcome) (t : event_table) : nat * event_table :=
  match ClaimBatch io now (Owner cfg) (LeaseDuration cfg) (BatchSize cfg) t with
  | (Err _, t) => (0%nat, t)
  | (Ok batch, t) =>
      (List.length batch,
       foldl (fun t (x : nat * Event) => (process cfg rand now (marks x.1) (handle x.2) x.2 t).2) t (imap pair batch))
  end.

(** ** All dispatchers on one table *)

(** The table; what each dispatcher has selected and will try to claim (its
    owner, the time of the [SELECT], the lease's end, the candidate); the
    claimed events whose handlers run; and the ids ever given out. *)
Record Sys := mkSys {
  sy_t : event_table; sy_selected : list (string * Z * Z * Event); sy_held : list (string * Event);
  sy_ids : gset string }.

Definition set_t (t : event_table) (s : Sys) := mkSys t (sy_selected s) (sy_held s) (sy_ids s).

Inductive dop : Type :=
| DEnqueue (now : Z) (uuid : string) (fk : bool) (e : Event)
| DSelect (now : Z) (owner : string) (lease limit : Z)
| DClaim (i : nat) (at_ : attempt)
| DHandle (i : nat) (cfg : Config) (rand : Z -> Z) (now : Z) (at_ : attempt) (outcome : Outcome)
| DCrash (i j : nat)                      (* a candidate and a claimed event are lost *)
| DDisable (integrationID : string)
| DCascade (integrationID : string).

Definition runDop (o : dop) (s : Sys) : Sys :=
  match o with
  | DEnqueue now uuid fk e =>
      match Enqueue now uuid fk e (sy_t s) with
      | Some t => mkSys t (sy_selected s) (sy_held s) ({[ ev_ID (enqueued now uuid (sy_t s) e) ]} ∪ sy_ids s)
      | None => s
      end
  | DSelect now owner lease limit =>
      mkSys (sy_t s) (sy_selected s ++ ((fun ev => (owner, now, now + lease, ev)) <$> selectClaimable now limit (sy_t s)))
        (sy_held s) (sy_ids s)
  | DClaim i at_ =>
      match sy_selected s !! i with
      | Some (owner, now, expires, ev) =>
          let '(r, t) := claimOne now owner expires ev (sy_t s) in
          match at_ with
          | AttemptOk => mkSys t (delete i (sy_selected s)) (sy_held s ++ ((fun ev => (owner, ev)) <$> option_list r)) (sy_ids s)
          | AttemptLost => mkSys (sy_t s) (delete i (sy_selected s)) (sy_held s) (sy_ids s)
          | AttemptApplied => mkSys t (delete i (sy_selected s)) (sy_held s) (sy_ids s)
          end
      | None => s
      end
  | DHandle i cfg rand now at_ outcome =>
      match sy_held s !! i with
      | Some (owner, ev) =>
          mkSys (process (set_owner owner cfg) rand now at_ outcome ev (sy_t s)).2 (sy_selected s) (delete i (sy_held s)) (sy_ids s)
      | None => s
      end
  | DCrash i j => mkSys (sy_t s) (delete i (sy_selected s)) (delete j (sy_held s)) (sy_ids s)
  | DDisable id_ => set_t (DisableIntegrationEvents id_ (sy_t s)) s
  | DCascade id_ => set_t (cascade id_ (sy_t s)) s
  end.

(** The callers leave the sequence to the repository, ids are fresh, and an
    owner has a name. *)
Definition dop_ok (s : Sys) (o : dop) : Prop :=
  match o with
  | DEnqueue now uuid fk e => ev_Sequence e = 0 /\ ev_ID (enqueued now uuid (sy_t s) e) ∉ sy_ids s
  | DSelect _ owner _ _ => owner <> ""%string
  | _ => True
  end.

Definition sys_start : Sys := mkSys ∅ [] [] ∅.

Inductive dreach : Sys -> Prop :=
| dreach_start : dreach sys_start
| dreach_step s o : dreach s -> dop_ok s o -> dreach (runDop o s).
