(* ===== verification/OutboxSpec.v ===== *)
(** * The outbox keeps its promises

    Rows are well formed, events of one aggregate are attempted in order, and
    the retry policy is the one configured. *)

From S2P Require Import Prelude Outbox.
From stdpp Require Import options.
#[local] Open Scope Z_scope.
#[local] Set Default Proof Using "Type*".

(** ** Well-formed rows *)

Definition leased_row (e : Event) : Prop :=
  ev_Status e = StatusDelivering /\ ev_LeaseOwner e <> ""%string /\ (exists x, ev_LeaseExpiresAt e = Some x) /\
  0 < ev_Attempts e /\ ev_DeliveredAt e = None.
Definition free_row (e : Event) : Prop :=
  ev_LeaseOwner e = ""%string /\ ev_LeaseExpiresAt e = None /\
  (ev_Status e = StatusPending \/ ev_Status e = StatusDelivered \/ ev_Status e = StatusDead \/ ev_Status e = StatusDisabled) /\
  (ev_Status e = StatusDelivered <-> exists x, ev_DeliveredAt e = Some x).
Definition wf_event (e : Event) : Prop :=
  1 <= ev_Sequence e /\ 0 <= ev_Attempts e /\ (leased_row e \/ free_row e).

Definition closed_row (e : Event) : Prop := is_open e = false.

(** Every earlier event of the aggregate is closed. *)
Definition gate (t : event_table) (e : Event) : Prop :=
  forall id o, t !! id = Some o -> aggregate o = aggregate e -> ev_Sequence o < ev_Sequence e -> closed_row o.

Record table_ok (ids : gset string) (t : event_table) : Prop := {
  ok_id : forall id e, t !! id = Some e -> ev_ID e = id /\ id ∈ ids;
  ok_wf : forall id e, t !! id = Some e -> wf_event e;
  ok_unique : forall i j a b, t !! i = Some a -> t !! j = Some b ->
    aggregate a = aggregate b -> ev_Sequence a = ev_Sequence b -> i = j;
  ok_gate : forall id e, t !! id = Some e -> 0 < ev_Attempts e -> gate t e }.

Record sys_ok (s : Sys) : Prop := {
  ok_table : table_ok (sy_ids s) (sy_t s);
  ok_selected : forall owner now expires ev, (owner, now, expires, ev) ∈ sy_selected s ->
    owner <> ""%string /\ ev_ID ev ∈ sy_ids s /\ forall e, sy_t s !! ev_ID ev = Some e -> gate (sy_t s) e }.

(** The updates of one row: it keeps its place in its aggregate, and only an
    open row changes. *)
Definition updates (t t' : event_table) : Prop :=
  forall id, match t !! id, t' !! id with
             | Some e, Some e' => ev_ID e' = ev_ID e /\ aggregate e' = aggregate e /\ ev_Sequence e' = ev_Sequence e /\
                                  (closed_row e -> e' = e)
             | None, Some _ => False
             | _, None => True
             end.

Lemma updates_refl t : updates t t.
Proof. intros id. destruct (t !! id); by split_and?. Qed.

Lemma updates_insert id e e' t :
  t !! id = Some e -> ev_ID e' = ev_ID e -> aggregate e' = aggregate e -> ev_Sequence e' = ev_Sequence e -> is_open e = true ->
  updates t (<[id := e']> t).
Proof.
  intros Hid H1 H2 H3 Ho j. destruct (decide (j = id)) as [->|Hne].
  - rewrite lookup_insert_eq, Hid. split_and!; try done. unfold closed_row. congruence.
  - rewrite lookup_insert_ne by done. apply updates_refl.
Qed.

Lemma updates_gate t t' id e e' :
  updates t t' -> t !! id = Some e -> t' !! id = Some e' -> gate t e -> gate t' e'.
Proof.
  intros Hu He He' Hg j o Ho Ha Hs. pose proof (Hu id) as H1. pose proof (Hu j) as H2. rewrite He, He' in H1. rewrite Ho in H2.
  destruct H1 as (_ & Ea & Es & _). destruct (t !! j) as [o0|] eqn:Hj; [|done]. destruct H2 as (_ & Ea2 & Es2 & Hc).
  rewrite Hc; [eapply Hg; [exact Hj|congruence|lia]|]. eapply Hg; [exact Hj|congruence|lia].
Qed.

(** An update that keeps rows well formed, and starts only rows whose turn it
    is, keeps the system well formed. *)
Lemma sys_ok_updates s t' sel held :
  sys_ok s -> updates (sy_t s) t' ->
  (forall id e e', sy_t s !! id = Some e -> t' !! id = Some e' -> e' = e \/
     (wf_event e' /\ (0 < ev_Attempts e' -> 0 < ev_Attempts e \/ gate (sy_t s) e))) ->
  (forall x, x ∈ sel -> x ∈ sy_selected s) ->
  sys_ok (mkSys t' sel held (sy_ids s)).
Proof.
  intros [[H1 H2 H3 H4] H5] Hu Hw Hsel.
  assert (forall id e', t' !! id = Some e' -> exists e, sy_t s !! id = Some e /\ ev_ID e' = ev_ID e /\
    aggregate e' = aggregate e /\ ev_Sequence e' = ev_Sequence e) as Hb.
  { intros id e' He'. pose proof (Hu id) as H. rewrite He' in H. destruct (sy_t s !! id) as [e|]; [|done]. exists e.
    destruct H as (? & ? & ? & _). done. }
  split; [split|]; simpl.
  - intros id e' He'. destruct (Hb _ _ He') as (e & He & -> & _). by apply H1.
  - intros id e' He'. destruct (Hb _ _ He') as (e & He & _). destruct (Hw _ _ _ He He') as [->|[Hwf _]]; [by eapply H2|done].
  - intros i j a b Ha Hb' Eagg Eseq. destruct (Hb _ _ Ha) as (a0 & Ha0 & _ & A1 & S1). destruct (Hb _ _ Hb') as (b0 & Hb0 & _ & A2 & S2).
    eapply H3; [exact Ha0|exact Hb0|congruence|congruence].
  - intros id e' He' Hat. destruct (Hb _ _ He') as (e & He & _). eapply updates_gate; [exact Hu|exact He|exact He'|].
    destruct (Hw _ _ _ He He') as [->|[_ Hg]]; [by eapply H4|]. destruct (Hg Hat); [by eapply H4|done].
  - intros owner now expires ev Hin%Hsel. destruct (H5 _ _ _ _ Hin) as (Ho & Hid & Hg). split_and!; [done..|].
    intros e' He'. destruct (Hb _ _ He') as (e & He & _). eapply updates_gate; [exact Hu|exact He|exact He'|by apply Hg].
Qed.

Lemma elem_of_delete {A} (x : A) (i : nat) (l : list A) : x ∈ delete i l -> x ∈ l.
Proof.
  revert i. induction l as [|y l IH]; intros [|i]; simpl; try done.
  - intros H. by right.
  - intros [->|H]%elem_of_cons; [by left|right; eauto].
Qed.

(** ** Sequences *)

Lemma elem_of_rows t e : e ∈ rows t <-> exists id, t !! id = Some e.
Proof.
  unfold rows. rewrite list_elem_of_fmap. split.
  - intros ([id e'] & -> & H%elem_of_map_to_list). eauto.
  - intros [id H%elem_of_map_to_list]. by exists (id, e).
Qed.

Lemma max_sequence_ge l e : e ∈ l -> ev_Sequence e <= max_sequence l.
Proof. induction 1 as [e l|e o l H IH]; simpl; lia. Qed.

Lemma max_sequence_pos l : 0 <= max_sequence l.
Proof. induction l as [|e l IH]; simpl; lia. Qed.

Lemma next_sequence_gt e t id o : t !! id = Some o -> aggregate o = aggregate e -> ev_Sequence o < next_sequence e t.
Proof.
  intros Ho Ha. unfold next_sequence. enough (ev_Sequence o <= max_sequence (List.filter (same_aggregate e) (rows t))) by lia.
  apply max_sequence_ge, list_elem_of_In, List.filter_In. split; [apply list_elem_of_In, elem_of_rows; eauto|].
  unfold same_aggregate. by rewrite bool_decide_eq_true.
Qed.

Lemma Enqueue_ok now uuid fk e t t' :
  Enqueue now uuid fk e t = Some t' ->
  t !! ev_ID (enqueued now uuid t e) = None /\ t' = <[ev_ID (enqueued now uuid t e) := enqueued now uuid t e]> t.
Proof. unfold Enqueue. repeat case_match; [done..|]. by intros [= <-]. Qed.

Lemma sys_ok_enqueue s now uuid fk e :
  sys_ok s -> dop_ok s (DEnqueue now uuid fk e) -> sys_ok (runDop (DEnqueue now uuid fk e) s).
Proof.
  intros [[H1 H2 H3 H4] H5] [Hseq Hfresh]. unfold runDop. destruct (Enqueue now uuid fk e (sy_t s)) as [t|] eqn:E; [|by split].
  apply Enqueue_ok in E as [Hnone ->]. set (row := enqueued now uuid (sy_t s) e) in *.
  assert (ev_Sequence row = next_sequence e (sy_t s)) as Hrs by (unfold row, enqueued; cbn [ev_Sequence]; by rewrite Hseq).
  assert (aggregate row = aggregate e) as Hra by done.
  assert (forall id o, sy_t s !! id = Some o -> aggregate o = aggregate row -> ev_Sequence o < ev_Sequence row) as Hlast.
  { intros id o Ho Ha. rewrite Hrs. eapply next_sequence_gt; [done|congruence]. }
  assert (forall id o, sy_t s !! id = Some o -> gate (sy_t s) o -> gate (<[ev_ID row := row]> (sy_t s)) o) as Hgate.
  { intros id o Ho Hg j o' Hj Ha Hs. apply lookup_insert_Some in Hj as [[<- <-]|[_ Hj]]; [|by eapply Hg].
    specialize (Hlast _ _ Ho (eq_sym Ha)). lia. }
  split; [split|]; simpl.
  - intros id o [[<- <-]|[_ Ho]]%lookup_insert_Some; [set_solver|]. destruct (H1 _ _ Ho). set_solver.
  - intros id o [[<- <-]|[_ Ho]]%lookup_insert_Some; [|by eapply H2]. split; [|split; [done|right]].
    + rewrite Hrs. unfold next_sequence. pose proof (max_sequence_pos (List.filter (same_aggregate e) (rows (sy_t s)))). lia.
    + split_and!; [done..|by left|]. split; [done|by intros [? ?]].
  - intros i j a b [[<- <-]|[_ Ha]]%lookup_insert_Some [[<- <-]|[_ Hb]]%lookup_insert_Some Ea Es; [done| | |by eapply H3].
    + specialize (Hlast _ _ Hb (eq_sym Ea)). lia.
    + specialize (Hlast _ _ Ha Ea). lia.
  - intros id o [[<- <-]|[_ Ho]]%lookup_insert_Some Hat; [done|]. eapply Hgate; [done|by eapply H4].
  - intros owner now' expires ev Hin. destruct (H5 _ _ _ _ Hin) as (Ho & Hid & Hg). split_and!; [done|set_solver|].
    intros o [[E <-]|[_ Hl]]%lookup_insert_Some; [by rewrite <- E in Hid|]. eapply Hgate; [exact Hl|by apply Hg].
Qed.

(** ** Selecting *)

Lemma earliest_gate t e : earliest t e = true -> gate t e.
Proof.
  unfold earliest. rewrite forallb_forall. intros H id o Ho Ha Hs.
  specialize (H o ltac:(apply list_elem_of_In, elem_of_rows; eauto)).
  unfold closed_row. destruct (is_open o); [|done]. unfold same_aggregate in H. rewrite bool_decide_true in H by done.
  simpl in H. lia.
Qed.

Lemma selectClaimable_in now limit t e :
  e ∈ selectClaimable now limit t -> (exists id, t !! id = Some e) /\ due now e = true /\ earliest t e = true.
Proof.
  unfold selectClaimable. intros H%subseteq_take. rewrite merge_sort_Permutation in H.
  apply list_elem_of_In, List.filter_In in H as [H Hb]. apply andb_true_iff in Hb as [? ?].
  split; [|done]. by apply elem_of_rows, list_elem_of_In.
Qed.

Lemma sys_ok_select s now owner lease limit :
  sys_ok s -> owner <> ""%string -> sys_ok (runDop (DSelect now owner lease limit) s).
Proof.
  intros [Ht Hs] Ho. split; [done|]. simpl. intros owner' now' expires ev [Hin|Hin]%elem_of_app; [by eapply Hs|].
  apply list_elem_of_fmap in Hin as (ev' & [= -> -> -> ->] & Hin).
  apply selectClaimable_in in Hin as ([id Hid] & _ & He). destruct (ok_id _ _ Ht _ _ Hid) as [Eid Hids]. rewrite Eid.
  split_and!; [done..|]. intros e He'. rewrite Hid in He'. injection He' as <-. by apply earliest_gate.
Qed.

(** ** Claiming, marking, disabling *)

Lemma wf_delivering e : wf_event e -> is_status StatusDelivering e = true -> leased_row e.
Proof.
  intros (_ & _ & [H|(_ & _ & H & _)]) Hs; [done|]. apply String.eqb_eq in Hs. rewrite Hs in H. naive_solver.
Qed.

Lemma wf_open_undelivered e : wf_event e -> is_open e = true -> ev_DeliveredAt e = None.
Proof.
  intros (_ & _ & [(_ & _ & _ & _ & H)|(_ & _ & _ & Hd)]) Ho; [done|]. destruct (ev_DeliveredAt e) as [x|]; [|done].
  assert (ev_Status e = StatusDelivered) as E by (apply Hd; eauto). unfold is_open, is_status in Ho. by rewrite E in Ho.
Qed.

Lemma claimable_open now e : claimable now e = true -> is_open e = true.
Proof. unfold claimable, is_open. destruct (is_status StatusPending e), (is_status StatusDelivering e); done. Qed.

Lemma wf_leased owner expires e : owner <> ""%string -> wf_event e -> is_open e = true -> wf_event (leased owner expires e).
Proof.
  intros Ho Hw Hop. pose proof (wf_open_undelivered _ Hw Hop). destruct Hw as (? & ? & _). split; [done|]. split; [simpl; lia|].
  left. split_and!; simpl; eauto; lia.
Qed.

Lemma wf_freed status next code err d e :
  wf_event e -> leased_row e -> status <> StatusDelivering ->
  (status = StatusPending /\ d = None \/ status = StatusDelivered /\ is_Some d \/ (status = StatusDead \/ status = StatusDisabled) /\ d = None) ->
  wf_event (ev_set status (ev_Attempts e) next "" None code err d e).
Proof.
  intros (? & ? & _) _ Hne Hs. split; [done|]. split; [done|]. right. split; [done|]. split; [done|]. simpl.
  destruct Hs as [[-> ->]|[[-> [x ->]]|[[->| ->] ->]]]; (split; [by auto|]); split; try done; eauto; by intros [? ?].
Qed.

Lemma sys_ok_claim s i at_ : sys_ok s -> sys_ok (runDop (DClaim i at_) s).
Proof.
  intros Hs. simpl. destruct (sy_selected s !! i) as [[[[owner now] expires] ev]|] eqn:Hi; [|done].
  pose proof (list_elem_of_lookup_2 _ _ _ Hi) as Hin. destruct (ok_selected _ Hs _ _ _ _ Hin) as (Ho & _ & Hg).
  assert (sys_ok (mkSys (sy_t s) (delete i (sy_selected s)) (sy_held s) (sy_ids s))) as Hdrop.
  { apply sys_ok_updates; [done|apply updates_refl| |intros x; apply elem_of_delete]. intros id e e' -> [= ->]. by left. }
  destruct (claimOne now owner expires ev (sy_t s)) as [r t] eqn:E.
  assert (forall held, sys_ok (mkSys t (delete i (sy_selected s)) held (sy_ids s))) as Hok.
  { intros held. unfold claimOne in E. destruct (sy_t s !! ev_ID ev) as [row|] eqn:Hrow; [|by injection E as _ <-; destruct Hdrop; split].
    destruct (claimable now row) eqn:Hc; injection E as _ <-; [|by destruct Hdrop; split].
    pose proof (ok_wf _ _ (ok_table _ Hs) _ _ Hrow) as Hwf.
    apply sys_ok_updates; [done| | |intros x; apply elem_of_delete].
    - apply (updates_insert _ row); try done. by eapply claimable_open.
    - intros id e e' He [[<- <-]|[_ He']]%lookup_insert_Some; [|rewrite He in He'; injection He' as ->; by left].
      right. rewrite Hrow in He. injection He as <-. split; [apply wf_leased; [done..|by eapply claimable_open]|].
      intros _. right. by apply Hg. }
  destruct at_; [apply Hok|done|apply Hok].
Qed.

Definition frees (f : Event -> Event) : Prop :=
  forall e, wf_event e -> leased_row e -> wf_event (f e) /\ ev_ID (f e) = ev_ID e /\ aggregate (f e) = aggregate e /\
    ev_Sequence (f e) = ev_Sequence e /\ ev_Attempts (f e) = ev_Attempts e.

Lemma frees_delivered now : frees (delivered now).
Proof. intros e Hw Hl. split; [|done]. apply wf_freed; try done. right. left. eauto. Qed.
Lemma frees_retried next code err : frees (retried next code err).
Proof. intros e Hw Hl. split; [|done]. apply wf_freed; try done. left. split; [done|]. apply Hl. Qed.
Lemma frees_died code err : frees (died code err).
Proof. intros e Hw Hl. split; [|done]. apply wf_freed; try done. right. right. split; [auto|]. apply Hl. Qed.

Lemma sys_ok_marked s at_ id owner f sel held :
  sys_ok s -> frees f -> (forall x, x ∈ sel -> x ∈ sy_selected s) -> sys_ok (mkSys (marked at_ (mark id owner f) (sy_t s)) sel held (sy_ids s)).
Proof.
  intros Hs Hf Hsel.
  assert (sys_ok (mkSys (sy_t s) sel held (sy_ids s))) as Hdrop.
  { apply sys_ok_updates; [done|apply updates_refl| |done]. intros j e e' -> [= ->]. by left. }
  assert (sys_ok (mkSys (mark id owner f (sy_t s)).2 sel held (sy_ids s))) as Hm; [|by destruct at_].
  unfold mark. destruct (sy_t s !! id) as [e|] eqn:He; [|done].
  destruct (String.eqb (ev_LeaseOwner e) owner && is_status StatusDelivering e)%bool eqn:Eb; [|done].
  apply andb_true_iff in Eb as [_ Hd]. pose proof (ok_wf _ _ (ok_table _ Hs) _ _ He) as Hwf.
  destruct (Hf e Hwf (wf_delivering _ Hwf Hd)) as (W & E1 & E2 & E3 & E4).
  cbn [snd]. apply sys_ok_updates; [done| | |done].
  - eapply updates_insert; try done. unfold is_open. by rewrite Hd, orb_true_r.
  - intros j a a' Ha [[<- <-]|[_ Ha']]%lookup_insert_Some; [|rewrite Ha in Ha'; injection Ha' as ->; by left].
    rewrite He in Ha. injection Ha as <-. right. split; [done|]. rewrite E4. by left.
Qed.

Lemma sys_ok_handle s i cfg rand now at_ outcome : sys_ok s -> sys_ok (runDop (DHandle i cfg rand now at_ outcome) s).
Proof.
  intros Hs. simpl. destruct (sy_held s !! i) as [[owner ev]|]; [|done]. unfold process.
  assert (forall held, sys_ok (mkSys (sy_t s) (sy_selected s) held (sy_ids s))) as Hdrop.
  { intros held. destruct Hs. by split. }
  repeat case_match; simpl; try apply Hdrop; apply sys_ok_marked; auto using frees_delivered, frees_retried, frees_died.
Qed.

Lemma disable_updates id_ t : updates t (DisableIntegrationEvents id_ t).
Proof.
  intros id. unfold DisableIntegrationEvents. rewrite lookup_fmap. destruct (t !! id) as [e|]; simpl; [|done].
  destruct (_ && _)%bool eqn:E; [|by split_and!]. split_and!; [done..|]. unfold closed_row. intros Hc. by rewrite Hc, andb_false_r in E.
Qed.

Lemma sys_ok_disable s id_ : sys_ok s -> sys_ok (runDop (DDisable id_) s).
Proof.
  intros Hs. apply sys_ok_updates; [done|apply disable_updates| |done].
  intros id e e' He. unfold DisableIntegrationEvents. rewrite lookup_fmap, He. simpl. intros [= <-].
  destruct (_ && _)%bool eqn:E; [|by left]. apply andb_true_iff in E as [_ Ho]. right.
  pose proof (ok_wf _ _ (ok_table _ Hs) _ _ He) as Hw. split; [|by left]. pose proof (wf_open_undelivered _ Hw Ho) as Hd.
  destruct Hw as (? & ? & _). split; [done|]. split; [done|]. right. split_and!; try done; [simpl; auto|]. simpl.
  rewrite Hd. split; [done|by intros [? ?]].
Qed.

Lemma cascade_updates id_ t : updates t (cascade id_ t).
Proof.
  intros id. unfold cascade. destruct (filter _ t !! id) as [e|] eqn:E; [|by destruct (t !! id)].
  apply map_lookup_filter_Some in E as [-> _]. by split_and!.
Qed.

Lemma sys_ok_cascade s id_ : sys_ok s -> sys_ok (runDop (DCascade id_) s).
Proof.
  intros Hs. apply sys_ok_updates; [done|apply cascade_updates| |done].
  intros id e e' He [He' _]%map_lookup_filter_Some. left. congruence.
Qed.

Lemma dreach_ok s : dreach s -> sys_ok s.
Proof.
  induction 1 as [|s o Hr IH Ho].
  - split; [split|]; try done. intros owner now expires ev Hin. by apply not_elem_of_nil in Hin.
  - destruct o; [by apply sys_ok_enqueue|by apply sys_ok_select|by apply sys_ok_claim|by apply sys_ok_handle| |by apply sys_ok_disable|by apply sys_ok_cascade].
    destruct IH as [H1 H2]. split; [done|]. simpl. intros owner now expires ev Hin%elem_of_delete. by eapply H2.
Qed.

(** ** The promises *)

(** Every stored event is well formed: its status is one of the five, it
    carries a lease (an owner and an end) exactly while it is being delivered,
    a delivery time exactly when it is delivered, and it has been attempted at
    least once when it is being delivered. *)
Theorem rows_well_formed s id e (Hr : dreach s) (He : sy_t s !! id = Some e) :
  ev_ID e = id /\ wf_event e.
Proof.
  destruct (ok_table _ (dreach_ok _ Hr)) as [H1 H2 _ _]. split; [by apply (H1 id e)|by apply (H2 id)].
Qed.

(** C37: Events of one aggregate are attempted in order, whatever dispatchers
    of several servers do at the same time, and wherever they crash: while an
    event has been attempted, every earlier one of its aggregate is closed; in
    particular at most one event of an aggregate is being delivered. *)
Theorem outbox_in_order s i j a b (Hr : dreach s) (Ha : sy_t s !! i = Some a) (Hb : sy_t s !! j = Some b)
    (Hagg : aggregate a = aggregate b) :
  (0 < ev_Attempts b -> ev_Sequence a < ev_Sequence b -> is_open a = false) /\
  (ev_Status a = StatusDelivering -> ev_Status b = StatusDelivering -> i = j).
Proof.
  destruct (ok_table _ (dreach_ok _ Hr)) as [_ H2 H3 H4]. split.
  - intros Hat Hs. by eapply (H4 _ _ Hb Hat).
  - assert (forall k e, sy_t s !! k = Some e -> ev_Status e = StatusDelivering -> 0 < ev_Attempts e /\ is_open e = true) as Hd.
    { intros k e He Es. split; [|unfold is_open, is_status; by rewrite Es].
      apply (wf_delivering e (H2 _ _ He)). unfold is_status. by rewrite Es. }
    intros Ea Eb. destruct (Hd _ _ Ha Ea) as [Pa Oa]. destruct (Hd _ _ Hb Eb) as [Pb Ob].
    destruct (Z.lt_trichotomy (ev_Sequence a) (ev_Sequence b)) as [Hlt|[Heq|Hgt]].
    + pose proof (H4 _ _ Hb Pb _ _ Ha Hagg Hlt) as Hc. unfold closed_row in Hc. congruence.
    + by apply (H3 _ _ _ _ Ha Hb).
    + pose proof (H4 _ _ Ha Pa _ _ Hb (eq_sym Hagg) Hgt) as Hc. unfold closed_row in Hc. congruence.
Qed.

(** ** The retry policy *)

Lemma growBackoff_spec n max d :
  0 < d <= max -> max <= 2^62 -> growBackoff n max d = Z.min max (d * 2 ^ Z.of_nat n).
Proof.
  revert d. induction n as [|n IH]; intros d Hd Hm; simpl.
  - change (2 ^ Z.of_nat 0) with 1. lia.
  - assert (2 ^ Z.of_nat (S n) = 2 * 2 ^ Z.of_nat n) as -> by (rewrite Nat2Z.inj_succ, Z.pow_succ_r by lia; done).
    assert (1 <= 2 ^ Z.of_nat n) by (pose proof (Z.pow_pos_nonneg 2 (Z.of_nat n)); lia).
    destruct (d <? max) eqn:E; to_prop; [|nia].
    rewrite wrap64_id by lia. destruct (max <? d * 2) eqn:E2; to_prop; [nia|]. rewrite IH by lia. nia.
Qed.

(** The backoff is what the configuration says: for a positive base and a
    cap of at most 2^62 nanoseconds, the doubling never overflows, [rand.Int63n]
    never panics, and the wait is a random duration of at most
    [min(cap, base * 2^(attempts-1))]. *)
Theorem backoff_spec rand base max attempts (Hbase : 0 < base) (Hmax : 0 < max <= 2^62)
    (Hrand : forall n, 0 < n -> 0 <= rand n < n) :
  exists d, backoff rand base max attempts = Some d /\
    0 <= d <= Z.min max (base * 2 ^ (Z.max attempts 1 - 1)).
Proof.
  unfold backoff. set (k := if attempts <? 1 then 1 else attempts).
  assert (k = Z.max attempts 1) as Ek by (unfold k; destruct (attempts <? 1) eqn:E; lia). rewrite <- Ek.
  assert (1 <= 2 ^ (k - 1)) by (pose proof (Z.pow_pos_nonneg 2 (k - 1)); lia).
  set (d := growBackoff (Z.to_nat (k - 1)) max base).
  assert ((if max <? d then max else d) = Z.min max (base * 2 ^ (k - 1))) as ->.
  { unfold d. destruct (decide (base <= max)).
    - rewrite growBackoff_spec by lia. rewrite Z2Nat.id by lia. destruct (max <? _) eqn:E; lia.
    - assert (growBackoff (Z.to_nat (k - 1)) max base = base) as ->.
      { destruct (Z.to_nat (k - 1)); simpl; [done|]. destruct (base <? max) eqn:E; [lia|done]. }
      destruct (max <? base) eqn:E; nia. }
  set (m := Z.min max (base * 2 ^ (k - 1))). assert (0 < m <= 2^62) as Hm by (unfold m; nia).
  destruct (m <=? 0) eqn:E; [lia|]. rewrite wrap64_id by lia. destruct (m + 1 <=? 0) eqn:E2; [lia|].
  eexists. split; [done|]. specialize (Hrand (m + 1)). lia.
Qed.

(** What becomes of a claimed event, given the handler's answer. *)
Definition fate (cfg : Config) (delay now : Z) (o : Outcome) (e : Event) : Event :=
  if out_Delivered o then delivered now e else
  if (negb (out_Retryable o) || (MaxAttemptsBeforeDead cfg <=? ev_Attempts e))%bool
  then died (out_ErrorCode o) (out_ErrorMessage o) e
  else retried (now + delay) (out_ErrorCode o) (out_ErrorMessage o) e.

(** Claiming a list of distinct candidates that are still claimable. *)
Lemma claimLoop_all now owner expires k cands claimed t :
  NoDup (ev_ID <$> cands) -> (forall c, c ∈ cands -> t !! ev_ID c = Some c /\ claimable now c = true) ->
  exists t', claimLoop (fun _ => AttemptOk) k now owner expires cands claimed t =
      (Ok (claimed ++ (leased owner expires <$> cands)), t') /\
    (forall c, c ∈ cands -> t' !! ev_ID c = Some (leased owner expires c)) /\
    (forall id, id ∉ (ev_ID <$> cands) -> t' !! id = t !! id).
Proof.
  revert k claimed t. induction cands as [|c cands IH]; intros k claimed t Hnd Hc; simpl.
  { exists t. rewrite app_nil_r. split; [done|]. split; [|done]. intros c Hin. by apply not_elem_of_nil in Hin. }
  rewrite fmap_cons in Hnd. apply NoDup_cons in Hnd as [Hni Hnd].
  destruct (Hc c) as [Hrow Hcl]; [by left|]. unfold claimOne. rewrite Hrow, Hcl. simpl.
  destruct (IH (S k) (claimed ++ [leased owner expires c]) (<[ev_ID c := leased owner expires c]> t) Hnd) as (t' & E & H1 & H2).
  { intros c' Hin. rewrite lookup_insert_ne; [by apply Hc; right|]. intros Eid. apply Hni. rewrite Eid. by apply list_elem_of_fmap_2. }
  exists t'. rewrite E, <- app_assoc. split; [done|]. split.
  - intros c' [->|Hin]%elem_of_cons; [|by apply H1]. rewrite H2 by done. apply lookup_insert_eq.
  - intros id Hid. rewrite not_elem_of_cons in Hid. rewrite H2 by tauto. apply lookup_insert_ne. intros <-. tauto.
Qed.

Section Policy.
Context (cfg : Config) (rand : Z -> Z) (now : Z).
Context (Howner : Owner cfg <> ""%string) (Hbase : 0 < BaseBackoff cfg) (Hmax : 0 < MaxBackoff cfg <= 2^62).
Context (Hrand : forall n, 0 < n -> 0 <= rand n < n).

Lemma process_other at_ o ev t id : id <> ev_ID ev -> (process cfg rand now at_ o ev t).2 !! id = t !! id.
Proof using Type.
  intros Hne. assert (forall f, marked at_ (mark (ev_ID ev) (Owner cfg) f) t !! id = t !! id) as Hm.
  { intros f. assert ((mark (ev_ID ev) (Owner cfg) f t).2 !! id = t !! id) as H; [|by destruct at_].
    unfold mark. repeat case_match; simpl; rewrite ?lookup_insert_ne; done. }
  unfold process. repeat case_match; simpl; try apply Hm; done.
Qed.

Lemma process_at o ev row t :
  t !! ev_ID ev = Some row -> is_status StatusDelivering row = true -> ev_LeaseOwner row = Owner cfg ->
  ev_Attempts row = ev_Attempts ev ->
  exists delay, 0 <= delay <= Z.max (out_RetryAfter o) (MaxBackoff cfg) /\
    (process cfg rand now AttemptOk o ev t).2 !! ev_ID ev = Some (fate cfg delay now o row).
Proof.
  intros Hrow Hs Hl Ha. assert (forall f, (mark (ev_ID ev) (Owner cfg) f t).2 !! ev_ID ev = Some (f row)) as Hm.
  { intros f. unfold mark. rewrite Hrow, Hl, String.eqb_refl, Hs. simpl. apply lookup_insert_eq. }
  destruct (backoff_spec rand (BaseBackoff cfg) (MaxBackoff cfg) (ev_Attempts ev) Hbase Hmax Hrand) as (d & Hd & Hr).
  unfold process, fate. rewrite Ha. destruct (out_Delivered o); [exists 0; split; [lia|apply Hm]|].
  destruct (_ || _)%bool; [exists 0; split; [lia|apply Hm]|].
  destruct (out_RetryAfter o <=? 0) eqn:E; to_prop; rewrite ?Hd; eexists; (split; [|apply Hm]); lia.
Qed.

(** Handling a batch of distinct claimed events. *)
Lemma processAll (handle : Event -> Outcome) (l : list (nat * Event)) t c i :
  NoDup (ev_ID <$> l.*2) -> (i, c) ∈ l -> t !! ev_ID c = Some c -> is_status StatusDelivering c = true -> ev_LeaseOwner c = Owner cfg ->
  exists delay, 0 <= delay <= Z.max (out_RetryAfter (handle c)) (MaxBackoff cfg) /\
    foldl (fun t (x : nat * Event) => (process cfg rand now AttemptOk (handle x.2) x.2 t).2) t l !! ev_ID c =
      Some (fate cfg delay now (handle c) c).
Proof.
  revert t. induction l as [|[k x] l IH]; intros t Hnd Hin Ht Hs Ho; [by apply not_elem_of_nil in Hin|].
  cbn [fmap list_fmap snd] in Hnd. apply NoDup_cons in Hnd as [Hni Hnd]. simpl. apply elem_of_cons in Hin as [[= -> ->]|Hin].
  - destruct (process_at (handle x) x x t Ht Hs Ho eq_refl) as (delay & Hd & Hp). exists delay. split; [done|].
    revert Hp. generalize (process cfg rand now AttemptOk (handle x) x t).2. clear -Hni. intros t Ht.
    revert t Ht. induction l as [|[k y] l IH]; intros t Ht; simpl; [done|]. cbn [fmap list_fmap snd] in Hni.
    rewrite not_elem_of_cons in Hni. apply IH; [tauto|]. rewrite process_other by tauto. done.
  - apply IH; try done. rewrite process_other; [done|]. intros E. apply Hni. rewrite <- E.
    apply list_elem_of_fmap_2. change c with (i, c).2. by apply list_elem_of_fmap_2.
Qed.

End Policy.

(** ** Progress *)

Lemma rows_ids ids t : table_ok ids t -> ev_ID <$> rows t = (map_to_list t).*1.
Proof.
  intros Ht. unfold rows. rewrite <- list_fmap_compose. apply list_fmap_ext. intros i [id e] Hi%list_elem_of_lookup_2.
  apply elem_of_map_to_list in Hi. simpl. by apply (ok_id _ _ Ht id e).
Qed.

Lemma NoDup_filter_fmap {A B} (f : A -> B) (P : A -> bool) l : NoDup (f <$> l) -> NoDup (f <$> List.filter P l).
Proof.
  induction l as [|x l IH]; simpl; [done|]. rewrite NoDup_cons. intros [Hni Hnd]. destruct (P x); [|by apply IH].
  rewrite fmap_cons, NoDup_cons. split; [|by apply IH]. intros Hin. apply Hni.
  apply list_elem_of_fmap in Hin as (y & -> & Hy). apply list_elem_of_fmap_2.
  by apply list_elem_of_In, List.filter_In, proj1, list_elem_of_In in Hy.
Qed.

Lemma selectClaimable_NoDup ids t now limit : table_ok ids t -> NoDup (ev_ID <$> selectClaimable now limit t).
Proof.
  intros Ht. unfold selectClaimable. rewrite fmap_take.
  assert (NoDup (ev_ID <$> merge_sort by_next (List.filter (fun e => due now e && earliest t e)%bool (rows t)))) as H.
  { rewrite merge_sort_Permutation. apply NoDup_filter_fmap. rewrite (rows_ids ids) by done. apply NoDup_fst_map_to_list. }
  rewrite <- (take_drop (Z.to_nat limit)) in H. by apply NoDup_app in H as [H _].
Qed.

(** The events a poll at [now] could claim. *)
Definition backlog (now : Z) (t : event_table) : list Event := List.filter (fun e => due now e && earliest t e)%bool (rows t).

Lemma selectClaimable_all now limit t e :
  Z.of_nat (List.length (backlog now t)) <= limit -> e ∈ backlog now t -> e ∈ selectClaimable now limit t.
Proof.
  intros Hl He. unfold selectClaimable. fold (backlog now t). rewrite take_ge; [by rewrite merge_sort_Permutation|].
  rewrite merge_sort_Permutation. lia.
Qed.

Lemma earliest_exists t a i :
  t !! i = Some a -> is_open a = true ->
  exists id e, t !! id = Some e /\ aggregate e = aggregate a /\ is_open e = true /\ earliest t e = true.
Proof.
  intros Ha Ho.
  assert (forall l : list Event, l <> [] -> exists e, e ∈ l /\ forall o, o ∈ l -> ev_Sequence e <= ev_Sequence o) as Hmin.
  { induction l as [|x l IH]; [done|]. intros _. destruct l as [|y l].
    - exists x. split; [by left|]. intros o [->|Hin]%elem_of_cons; [lia|by apply not_elem_of_nil in Hin].
    - destruct IH as (e & He & Hle); [done|]. destruct (decide (ev_Sequence x <= ev_Sequence e)).
      + exists x. split; [by left|]. intros o [->|Hin]%elem_of_cons; [lia|]. specialize (Hle _ Hin). lia.
      + exists e. split; [by right|]. intros o [->|Hin]%elem_of_cons; [lia|by apply Hle]. }
  destruct (Hmin (List.filter (fun o => same_aggregate a o && is_open o)%bool (rows t))) as (e & He & Hle).
  { intros E. assert (a ∈ List.filter (fun o => same_aggregate a o && is_open o)%bool (rows t)) as Hin; [|by rewrite E in Hin; apply not_elem_of_nil in Hin].
    apply list_elem_of_In, List.filter_In. split; [apply list_elem_of_In, elem_of_rows; eauto|]. rewrite Ho.
    unfold same_aggregate. by rewrite bool_decide_true. }
  apply list_elem_of_In, List.filter_In in He as [He Hb]. apply andb_true_iff in Hb as [Hagg Hop]. apply bool_decide_eq_true in Hagg.
  apply list_elem_of_In, elem_of_rows in He as [id He]. exists id, e. split_and!; [done|congruence|done|].
  unfold earliest. rewrite forallb_forall. intros o Hin%list_elem_of_In. unfold same_aggregate.
  destruct (bool_decide (aggregate e = aggregate o)) eqn:Eo; [|done]. destruct (is_open o) eqn:Eop; [|done]. simpl.
  apply bool_decide_eq_true in Eo. apply Z.leb_le, Hle, list_elem_of_In, List.filter_In.
  split; [by apply list_elem_of_In|]. rewrite Eop. unfold same_aggregate. rewrite bool_decide_true; [done|congruence].
Qed.

Lemma due_claimable now e : due now e = true -> claimable now e = true.
Proof. unfold due, claimable. destruct (is_status StatusPending e), (is_status StatusDelivering e); done. Qed.

(** When an open event is due at the latest. *)
Definition due_from (e : Event) : Z := Z.max (ev_NextAttemptAt e) (match ev_LeaseExpiresAt e with Some x => x + 1 | None => 0 end).

Lemma due_later now e : wf_event e -> is_open e = true -> due_from e <= now -> due now e = true.
Proof.
  intros Hw Ho Hn. unfold due. unfold due_from in Hn. destruct (is_status StatusPending e) eqn:Ep; simpl.
  - destruct (ev_NextAttemptAt e <=? now) eqn:E; [done|lia].
  - unfold is_open in Ho. rewrite Ep in Ho. simpl in Ho. rewrite Ho. destruct (wf_delivering _ Hw Ho) as (_ & _ & [x Hx] & _).
    rewrite Hx in *. simpl. lia.
Qed.

(** C38: No aggregate gets stuck: of its open events one is first in line, and
    from some time on every poll that has room for what is due hands that
    event to the handler and gives it the fate the policy says: delivered, dead
    when the failure is final or the attempts are used up, and otherwise
    pending again, due after a wait that is at most the one the handler asked
    for or the cap of the backoff. *)
Theorem outbox_progress s cfg rand handle i a
    (Hr : dreach s) (Ha : sy_t s !! i = Some a) (Hopen : is_open a = true)
    (Howner : Owner cfg <> ""%string) (Hbase : 0 < BaseBackoff cfg) (Hmax : 0 < MaxBackoff cfg <= 2^62)
    (Hbatch : 0 < BatchSize cfg) (Hrand : forall n, 0 < n -> 0 <= rand n < n) :
  exists id e, sy_t s !! id = Some e /\ aggregate e = aggregate a /\ is_open e = true /\
  forall now, due_from e <= now -> Z.of_nat (List.length (backlog now (sy_t s))) <= BatchSize cfg ->
    let c := leased (Owner cfg) (now + LeaseDuration cfg) e in
    exists delay, 0 <= delay <= Z.max (out_RetryAfter (handle c)) (MaxBackoff cfg) /\
      (PollOnce cfg rand now (fun _ => AttemptOk) (fun _ => AttemptOk) handle (sy_t s)).2 !! id =
        Some (fate cfg delay now (handle c) c).
Proof.
  destruct (ok_table _ (dreach_ok _ Hr)) as [H1 H2 H3 H4]. pose proof (ok_table _ (dreach_ok _ Hr)) as Ht.
  destruct (earliest_exists _ _ _ Ha Hopen) as (id & e & He & Hagg & Ho & Hear). exists id, e. split_and!; try done.
  intros now Hdue Hroom c. destruct (H1 _ _ He) as [Eid _]. unfold PollOnce, ClaimBatch.
  destruct (BatchSize cfg <=? 0) eqn:E; [lia|]. clear E.
  destruct (claimLoop_all now (Owner cfg) (now + LeaseDuration cfg) 1 (selectClaimable now (BatchSize cfg) (sy_t s)) [] (sy_t s)
    (selectClaimable_NoDup _ _ _ _ Ht)) as (t' & -> & Hin & _).
  { intros x Hx. apply selectClaimable_in in Hx as ([k Hk] & Hd & _). destruct (H1 _ _ Hk) as [-> _]. split; [done|by apply due_claimable]. }
  cbn [app snd].
  assert (e ∈ selectClaimable now (BatchSize cfg) (sy_t s)) as Hsel.
  { apply selectClaimable_all; [done|]. apply list_elem_of_In, List.filter_In. split; [apply list_elem_of_In, elem_of_rows; eauto|].
    rewrite Hear, (due_later _ _ (H2 _ _ He) Ho Hdue). done. }
  set (batch := leased (Owner cfg) (now + LeaseDuration cfg) <$> selectClaimable now (BatchSize cfg) (sy_t s)).
  assert (c ∈ batch) as Hc by by apply list_elem_of_fmap_2. apply list_elem_of_lookup in Hc as [k Hk].
  assert ((imap pair batch).*2 = batch) as Esnd.
  { rewrite <- (list_fmap_id batch) at 2. clear. generalize batch. intros l. rewrite fmap_imap. apply list_eq. intros n.
    rewrite list_lookup_imap, list_fmap_id. by destruct (l !! n). }
  rewrite <- Eid. change (ev_ID e) with (ev_ID c).
  apply (processAll cfg rand now Howner Hbase Hmax Hrand handle (imap pair batch) t' c k).
  - rewrite Esnd. unfold batch. rewrite <- list_fmap_compose. by eapply selectClaimable_NoDup.
  - apply list_elem_of_lookup. exists k. rewrite list_lookup_imap, Hk. done.
  - change (ev_ID c) with (ev_ID e). by apply Hin.
  - done.
  - done.
Qed.

(** ** A concrete outbox *)

Definition demo_event (ty : string) : Event :=
  mkEvent "" "i" "p" "pipeline_run" "r" 0 ty "{}" "" 0 0 "" None "" "" 0 None.
Definition demo_config : Config := withDefaults (mkConfig "d" 1 0 0 0 3 0 0).
Definition demo_half (n : Z) : Z := n / 2.
Definition demo_run (ops : list dop) (s : Sys) : Sys := foldl (fun s o => runDop o s) s ops.

(** Two events of one run; the first is claimed. *)
Definition demo_s1 : Sys := runDop (DEnqueue 0 "e1" true (demo_event "created")) sys_start.
Definition demo_s2 : Sys := runDop (DEnqueue 5 "e2" true (demo_event "finished")) demo_s1.
Definition demo_s3 : Sys := runDop (DClaim 0 AttemptOk) (runDop (DSelect 10 "d" 30 20) demo_s2).

Lemma demo_s2_reach : dreach demo_s2.
Proof.
  constructor; [constructor; [constructor|]|]; (split; [reflexivity|]); compute_decide.
Qed.

Lemma demo_s3_reach : dreach demo_s3.
Proof. constructor; [constructor; [exact demo_s2_reach|done]|exact I]. Qed.

Definition demo_row (s : Sys) (id : string) : Event := default (demo_event "") (sy_t s !! id).

Lemma rows_well_formed_witness :
  ev_Status (demo_row demo_s3 "e1") = StatusDelivering /\ wf_event (demo_row demo_s3 "e1").
Proof.
  split; [vm_compute; reflexivity|].
  apply (rows_well_formed demo_s3 "e1" (demo_row demo_s3 "e1") demo_s3_reach). vm_compute. reflexivity.
Defined.

Lemma outbox_in_order_witness :
  ev_Attempts (demo_row demo_s3 "e1") = 1 /\ is_open (demo_row demo_s3 "e1") = true /\
  ~ 0 < ev_Attempts (demo_row demo_s3 "e2").
Proof.
  split; [vm_compute; reflexivity|]. split; [vm_compute; reflexivity|]. intros H.
  assert (is_open (demo_row demo_s3 "e1") = false) as Hc; [|vm_compute in Hc; discriminate].
  apply (outbox_in_order demo_s3 "e1" "e2" (demo_row demo_s3 "e1") (demo_row demo_s3 "e2") demo_s3_reach);
    [vm_compute; reflexivity|vm_compute; reflexivity|vm_compute; reflexivity|exact H|vm_compute; reflexivity].
Defined.

Lemma demo_half_range n : 0 < n -> 0 <= demo_half n < n.
Proof. unfold demo_half. intros H. split; [apply Z.div_pos; lia|apply Z.div_lt; lia]. Qed.

(** The third attempt waits up to 8 seconds. *)
Lemma backoff_spec_witness :
  exists d, backoff demo_half (2 * time_Second) (5 * time_Minute) 3 = Some d /\ 0 <= d <= 8 * time_Second.
Proof.
  apply (backoff_spec demo_half (2 * time_Second) (5 * time_Minute) 3);
    [vm_compute; reflexivity|split; vm_compute; [reflexivity|discriminate]|exact demo_half_range].
Defined.

(** A failing first attempt: the event waits, the later one is not touched. *)
Definition demo_fails (e : Event) : Outcome := mkOutcome false true 0 "NETWORK_ERROR" "down".

Lemma outbox_progress_witness :
  exists id e, sy_t demo_s2 !! id = Some e /\ is_open e = true /\
  exists delay, 0 <= delay <= 5 * time_Minute /\
    (PollOnce demo_config demo_half 10 (fun _ => AttemptOk) (fun _ => AttemptOk) demo_fails (sy_t demo_s2)).2 !! id =
      Some (fate demo_config delay 10 (demo_fails e) (leased "d" (10 + 30 * time_Second) e)).
Proof.
  destruct (outbox_progress demo_s2 demo_config demo_half demo_fails "e2" (demo_row demo_s2 "e2") demo_s2_reach)
    as (id & e & He & Hagg & Ho & H);
    [vm_compute; reflexivity|vm_compute; reflexivity|vm_compute; discriminate|vm_compute; reflexivity|
     split; vm_compute; [reflexivity|discriminate]|vm_compute; reflexivity|exact demo_half_range|].
  exists id, e. split; [exact He|]. split; [exact Ho|].
  destruct (H 10) as (delay & Hd & Hp); [|vm_compute; discriminate|].
  - assert (forall o, o ∈ rows (sy_t demo_s2) -> due_from o <= 10) as Hall.
    { assert (Forall (fun o => due_from o <= 10) (rows (sy_t demo_s2))) as Hf
        by (vm_compute; repeat constructor; discriminate). by rewrite Forall_forall in Hf. }
    apply Hall, elem_of_rows. eauto.
  - exists delay. split; [exact Hd|exact Hp].
Defined.
