(* ===== verification/Exporter.v ===== *)
(** * MLflow export: [pkg/integration/mlflow/{enqueue,exporter,errors,client}.go]

    Which events the run lifecycle puts into the outbox, and what the exporter,
    the outbox's handler, answers before it talks to the tracking server.  The
    handlers of the two event types are parameters, and so are the payload
    encoding and the credential lookup behind the client. *)

From S2P Require Import Prelude Outbox OutboxSpec.
From stdpp Require Import options.
#[local] Open Scope Z_scope.

(** The fields of [MLflowIntegration] that decide what is exported. *)
Record MLflowIntegration := mkIntegration {
  in_ID : string; in_ProjectID : string; in_Enabled : bool; in_Default : bool; in_ExportPipelines : bool;
  in_DeletedAt : option Z }.

Definition IsDeleted (m : MLflowIntegration) : bool := match in_DeletedAt m with Some _ => true | None => false end.

Definition AggregateTypePipelineRun : string := "pipeline_run".
Definition EventTypePipelineRunCreated : string := "pipeline_run.created".
Definition EventTypePipelineRunFinished : string := "pipeline_run.finished".

(** ** Enqueueing *)

(** [resolveExportIntegration] on what [GetDefaultIntegration] returned. *)
Definition resolveExportIntegration (got : res string (option MLflowIntegration)) : res string (option MLflowIntegration) :=
  match got with
  | Err e => Err e
  | Ok None => Ok None
  | Ok (Some m) =>
      if (IsDeleted m || negb (in_Enabled m) || negb (in_ExportPipelines m))%bool then Ok None else Ok (Some m)
  end.

Definition run_event (m : MLflowIntegration) (projectID runID eventType body : string) : Event :=
  mkEvent "" (in_ID m) projectID AggregateTypePipelineRun runID 0 eventType body "" 0 0 "" None "" "" 0 None.

(** [EnqueuePipelineRunCreated] and [EnqueuePipelineRunFinished]: [body] is
    the encoded payload; true when an event was stored or none was wanted. *)
Definition enqueueRunEvent (eventType : string) (now : Z) (uuid : string) (fk : bool)
    (got : res string (option MLflowIntegration)) (body : option string) (projectID runID : string) (t : event_table)
    : bool * event_table :=
  match resolveExportIntegration got with
  | Err _ => (false, t)
  | Ok None => (true, t)
  | Ok (Some m) =>
      match body with
      | None => (false, t)
      | Some body =>
          match Enqueue now uuid fk (run_event m projectID runID eventType body) t with
          | Some t => (true, t)
          | None => (false, t)
          end
      end
  end.

Definition EnqueuePipelineRunCreated := enqueueRunEvent EventTypePipelineRunCreated.
Definition EnqueuePipelineRunFinished := enqueueRunEvent EventTypePipelineRunFinished.

(** ** Answers *)

(** An error of the tracking client, or any other error. *)
Inductive xerr : Type :=
| ClientError (StatusCode : Z) (Code Message : string) (RetryAfter : Z) (retryable : bool)
| OtherError (msg : string).

Definition Error (e : xerr) : string :=
  match e with
  | ClientError _ code msg _ _ => if String.eqb code "" then msg else (code +:+ ": " +:+ msg)%string
  | OtherError msg => msg
  end.

Section Exporter.
(** [strconv.Itoa] *)
Variable Itoa : Z -> string.

Definition ErrorCode (e : xerr) : string :=
  match e with
  | ClientError status code _ _ _ =>
      if negb (String.eqb code "") then code
      else if 0 <? status then ("HTTP_" +:+ Itoa status)%string else "NETWORK_ERROR"
  | OtherError _ => "INTERNAL_ERROR"
  end.

Definition redactErr (e : xerr) : string :=
  let s := Error e in
  if (512 <? String.length s)%nat then (str_take 512 s +:+ "…")%string else s.

Definition retryOutcome (e : xerr) (fallbackCode : string) : Outcome :=
  mkOutcome false true 0 fallbackCode (redactErr e).

Definition retryOutcomeWithCode (e : xerr) (fallbackCode : string) : Outcome :=
  match e with
  | ClientError _ _ msg after retryable => mkOutcome false retryable after (ErrorCode e) msg
  | OtherError _ => mkOutcome false true 0 fallbackCode (redactErr e)
  end.

(** The handlers of the two event types, which talk to the server. *)
Variable handlePipelineRunCreated : MLflowIntegration -> Event -> Outcome.
Variable handlePipelineRunFinished : MLflowIntegration -> Event -> Outcome.

(** [Handle]: [got] is what [GetIntegration] returned, [client] the error of
    the client factory. *)
Definition Handle (got : res xerr (option MLflowIntegration)) (client : option xerr) (ev : Event) : Outcome :=
  match got with
  | Err e => retryOutcome e "integration_lookup_failed"
  | Ok None =>
      mkOutcome false true (5 * time_Minute) "integration_missing" "mlflow integration no longer exists"
  | Ok (Some m) =>
      if IsDeleted m
      then mkOutcome false true (5 * time_Minute) "integration_missing" "mlflow integration no longer exists"
      else if negb (in_Enabled m)
      then mkOutcome false true (5 * time_Minute) "integration_disabled" "mlflow integration is disabled"
      else
        match client with
        | Some e => mkOutcome false true 0 "client_unavailable" (redactErr e)
        | None =>
            if String.eqb (ev_EventType ev) EventTypePipelineRunCreated then handlePipelineRunCreated m ev
            else if String.eqb (ev_EventType ev) EventTypePipelineRunFinished then handlePipelineRunFinished m ev
            else mkOutcome false false 0 "unknown_event_type" ("unrecognized outbox event_type " +:+ ev_EventType ev)%string
        end
  end.
End Exporter.

(** [PiperRunStatusToMLflow] *)
Definition PiperRunStatusToMLflow (piperStatus : string) : option string :=
  if String.eqb piperStatus "running" then Some "RUNNING"%string
  else if String.eqb piperStatus "success" then Some "FINISHED"%string
  else if String.eqb piperStatus "failed" then Some "FAILED"%string
  else if String.eqb piperStatus "canceled" then Some "KILLED"%string
  else None.

(** ** Concrete exports *)

Definition demo_integration (enabled : bool) : MLflowIntegration := mkIntegration "i" "p" enabled true true None.
Definition demo_handle (enabled : bool) : Event -> Outcome :=
  Handle (fun _ _ => mkOutcome true false 0 "" "") (fun _ _ => mkOutcome true false 0 "" "")
    (Ok (Some (demo_integration enabled))) None.

(** A created and a finished event of the run "r". *)
Definition demo_events : event_table :=
  (EnqueuePipelineRunFinished 5 "e2" true (Ok (Some (demo_integration true))) (Some "{}"%string) "p" "r"
    (EnqueuePipelineRunCreated 0 "e1" true (Ok (Some (demo_integration true))) (Some "{}"%string) "p" "r" ∅).2).2.

(** A poll every five minutes, the [n]-th at [(n + 1) * 300] seconds. *)
Definition demo_poll (enabled : bool) (n : nat) (t : event_table) : event_table :=
  (PollOnce demo_config demo_half (Z.of_nat (S n) * (5 * time_Minute)) (fun _ => AttemptOk) (fun _ => AttemptOk)
    (demo_handle enabled) t).2.

Definition statusOf (id : string) (t : event_table) : option string := ev_Status <$> t !! id.

(** An event of a disabled integration is not parked: the parking answer
    counts as a failed attempt, so that after the configured number of polls
    the event is dead, and enabling the integration again does not deliver it. *)
Example disabled_integration_dead_letters :
  let t := foldl (fun t n => demo_poll false n t) demo_events [0; 1; 2]%nat in
  statusOf "e1" t = Some StatusDead /\ statusOf "e1" (demo_poll true 3 t) = Some StatusDead /\
  statusOf "e2" (demo_poll true 3 t) = Some StatusDelivered.
Proof. vm_compute. split; [|split]; reflexivity. Qed.
