(* ===== verification/Runner.v ===== *)
(** * The in-process runner: [pkg/pipeline/runner.go]

    [Runner.Run] executes a pipeline with one goroutine for each step and a
    main loop that starts steps and waits for them; they share the result map
    and the in-flight set under one mutex, a semaphore channel, a [WaitGroup]
    and a channel of completion signals.  A state holds these and where each
    goroutine is; a step of the system is one section under the mutex or one
    operation on a channel ([step]), and a run is a sequence of such steps
    ([exec]).  What the executor function answers, the clock and the
    cancellation of the context are inputs of the steps. *)

From S2P Require Import Prelude Pipeline Dag.
From stdpp Require Import options.
#[local] Open Scope Z_scope.

Inductive StepStatus : Type :=
| StatusPending | StatusRunning | StatusDone | StatusFailed | StatusSkipped.

#[export] Instance StepStatus_eq_dec : EqDecision StepStatus.
Proof. solve_decision. Defined.

(** [Err] is [None] for nil and an error's text otherwise; times are nanoseconds. *)
Record StepResult := mkStepResult {
  sr_StepName : string;
  sr_Status : StepStatus;
  sr_StartedAt : Z;
  sr_EndedAt : Z;
  sr_Err : option string;
  sr_ErrMsg : string;
  sr_Attempts : Z }.

Definition sr_withStatus (v : StepStatus) (r : StepResult) : StepResult :=
  mkStepResult (sr_StepName r) v (sr_StartedAt r) (sr_EndedAt r) (sr_Err r) (sr_ErrMsg r) (sr_Attempts r).

Record RunResult := mkRunResult {
  rr_PipelineName : string;
  rr_StartedAt : Z;
  rr_EndedAt : Z;
  rr_Steps : gmap string StepResult }.

Definition has_status (v : StepStatus) (r : StepResult) : bool := bool_decide (sr_Status r = v).

Definition Failed (r : RunResult) : bool :=
  existsb (fun kv => has_status StatusFailed kv.2) (map_to_list (rr_Steps r)).

Definition statusLabel (r : RunResult) : string := if Failed r then "FAILED" else "SUCCESS".

Record RunnerConfig := mkRunnerConfig {
  rc_MaxRetries : Z;
  rc_RetryDelay : Z;
  rc_Concurrency : Z }.

(** Where a step's goroutine is: blocked on the semaphore; in the [select] of
    a retry; inside [execFn]; with a result, about to lock; about to signal;
    about to release the semaphore; about to call [wg.Done]; gone. *)
Inductive goroutine : Type :=
| GWait
| GDelay (r : StepResult)
| GExec (r : StepResult)
| GFinished (r : StepResult)
| GSignal | GRelease | GExit | GEnd.

(** Where [Run] is: about to lock; at [<-doneCh]; in the [select]; at
    [wg.Wait]; returned. *)
Inductive mainLoop : Type :=
| MLoop | MWaitDone | MSelect | MJoin
| MReturned (r : RunResult).

(** [rs_calls] is a trace: the step and the attempt of every call of [execFn]. *)
Record state := mkState {
  rs_results : gmap string StepResult;
  rs_inFlight : gset string;
  rs_sem : Z;
  rs_wg : Z;
  rs_doneCh : Z;
  rs_gos : list (Step * goroutine);
  rs_main : mainLoop;
  rs_ctxErr : option string;
  rs_calls : list (string * Z) }.

(** What a step reads from outside: the answer of [execFn], and which branch
    of a [select] is taken when the context is done. *)
Inductive input : Type :=
| Next
| ExecReturns (err : option string)
| CtxDone.

Inductive op : Type :=
| OMain (i : input) (now : Z)
| OGo (g : nat) (i : input) (now : Z)
| OCancel (err : string).

Section Runner.

Context (p : Pipeline) (dag : DAG) (cfg : RunnerConfig) (startedAt : Z).

Definition steps : list Step := ps_Steps (pl_Spec p).

Definition concurrency : Z := if rc_Concurrency cfg <=? 0 then 999 else rc_Concurrency cfg.

(** ** [runWithRetry] *)

Definition maxAttempts : Z := wrap64 (rc_MaxRetries cfg + 1).

(** The head of the loop over attempts: [attempt <= maxAttempts]. *)
Definition loopHead (r : StepResult) (attempt now : Z) : goroutine :=
  if attempt <=? maxAttempts then
    let r := mkStepResult (sr_StepName r) (sr_Status r) (sr_StartedAt r) (sr_EndedAt r)
               (sr_Err r) (sr_ErrMsg r) attempt in
    if 1 <? attempt then GDelay r else GExec r
  else GFinished (mkStepResult (sr_StepName r) StatusFailed (sr_StartedAt r) now
                    (sr_Err r) (sr_ErrMsg r) (sr_Attempts r)).

(** The zero status of a fresh result stands as [StatusPending]; it is replaced
    before the result is published. *)
Definition runWithRetry (s : Step) (now : Z) : goroutine :=
  loopHead (mkStepResult (s_Name s) StatusPending now 0 None "" 0) 1 now.

Definition execReturned (r : StepResult) (err : option string) (now : Z) : goroutine :=
  match err with
  | None => GFinished (mkStepResult (sr_StepName r) StatusDone (sr_StartedAt r) now
                         (sr_Err r) (sr_ErrMsg r) (sr_Attempts r))
  | Some e => loopHead (mkStepResult (sr_StepName r) (sr_Status r) (sr_StartedAt r) (sr_EndedAt r)
                          (Some e) e (sr_Attempts r)) (wrap64 (sr_Attempts r + 1)) now
  end.

Definition retryCanceled (r : StepResult) (e : string) (now : Z) : goroutine :=
  GFinished (mkStepResult (sr_StepName r) StatusFailed (sr_StartedAt r) now
               (Some e) (sr_ErrMsg r) (sr_Attempts r)).

(** ** The goroutine of a step *)

Definition setGo (i : nat) (s : Step) (g : goroutine) (st : state) : state :=
  mkState (rs_results st) (rs_inFlight st) (rs_sem st) (rs_wg st) (rs_doneCh st)
    (<[i := (s, g)]> (rs_gos st)) (rs_main st) (rs_ctxErr st)
    (match g with GExec r => rs_calls st ++ [(s_Name s, sr_Attempts r)] | _ => rs_calls st end).

Definition setSem (v : Z) (st : state) : state :=
  mkState (rs_results st) (rs_inFlight st) v (rs_wg st) (rs_doneCh st)
    (rs_gos st) (rs_main st) (rs_ctxErr st) (rs_calls st).

Definition setWg (v : Z) (st : state) : state :=
  mkState (rs_results st) (rs_inFlight st) (rs_sem st) v (rs_doneCh st)
    (rs_gos st) (rs_main st) (rs_ctxErr st) (rs_calls st).

Definition setDoneCh (v : Z) (st : state) : state :=
  mkState (rs_results st) (rs_inFlight st) (rs_sem st) (rs_wg st) v
    (rs_gos st) (rs_main st) (rs_ctxErr st) (rs_calls st).

Definition setMain (v : mainLoop) (st : state) : state :=
  mkState (rs_results st) (rs_inFlight st) (rs_sem st) (rs_wg st) (rs_doneCh st)
    (rs_gos st) v (rs_ctxErr st) (rs_calls st).

Definition setResults (m : gmap string StepResult) (fl : gset string) (st : state) : state :=
  mkState m fl (rs_sem st) (rs_wg st) (rs_doneCh st)
    (rs_gos st) (rs_main st) (rs_ctxErr st) (rs_calls st).

(** One step of a goroutine; [None] while it is blocked. *)
Definition goStep (i : nat) (inp : input) (now : Z) (st : state) : option state :=
  '(s, g) ← rs_gos st !! i;
  match g, inp with
  | GWait, Next =>
      if rs_sem st <? concurrency
      then Some (setSem (rs_sem st + 1) (setGo i s (runWithRetry s now) st))
      else None
  | GDelay r, Next => Some (setGo i s (GExec r) st)
  | GDelay r, CtxDone => e ← rs_ctxErr st; Some (setGo i s (retryCanceled r e now) st)
  | GExec r, ExecReturns err => Some (setGo i s (execReturned r err now) st)
  | GFinished r, Next =>
      Some (setGo i s GSignal
        (setResults (<[s_Name s := r]> (rs_results st)) (rs_inFlight st ∖ {[s_Name s]}) st))
  | GSignal, Next =>
      if rs_doneCh st <? Z.of_nat (List.length steps)
      then Some (setDoneCh (rs_doneCh st + 1) (setGo i s GRelease st))
      else None
  | GRelease, Next => if 0 <? rs_sem st then Some (setSem (rs_sem st - 1) (setGo i s GExit st)) else None
  | GExit, Next => Some (setWg (rs_wg st - 1) (setGo i s GEnd st))
  | _, _ => None
  end.

(** ** The loop of [Run] *)

Record stepStatusMaps := mkStatusMaps {
  sm_done : gset string;
  sm_terminal : gset string }.

Definition is_done (r : StepResult) : bool := (has_status StatusDone r || has_status StatusSkipped r)%bool.
Definition is_terminal (r : StepResult) : bool := (is_done r || has_status StatusFailed r)%bool.

Definition names_with (f : StepResult -> bool) (m : gmap string StepResult) : gset string :=
  dom (filter (fun kv : string * StepResult => f kv.2 = true) m).

Definition buildStatusMaps (m : gmap string StepResult) : stepStatusMaps :=
  mkStatusMaps (names_with is_done m) (names_with is_terminal m).

Definition hasFailedDep_ (m : gmap string StepResult) (s : Step) : bool :=
  existsb (fun dep =>
    match m !! dep with
    | Some r => (has_status StatusFailed r || has_status StatusSkipped r)%bool
    | None => false
    end) (s_DependsOn s).

(** The body of the loop that skips steps, on the results and [progressed]. *)
Definition skipStep (inFlight : gset string) (acc : gmap string StepResult * bool) (s : Step)
    : gmap string StepResult * bool :=
  match acc.1 !! s_Name s with
  | Some res =>
      if (has_status StatusPending res && negb (bool_decide (s_Name s ∈ inFlight))
            && hasFailedDep_ acc.1 s)%bool
      then (<[s_Name s := sr_withStatus StatusSkipped res]> acc.1, true)
      else acc
  | None => acc
  end.

(** The body of the loop that starts steps. *)
Definition startStep (st : state) (s : Step) : state :=
  mkState (alter (sr_withStatus StatusRunning) (s_Name s) (rs_results st))
    ({[s_Name s]} ∪ rs_inFlight st) (rs_sem st) (rs_wg st + 1) (rs_doneCh st)
    (rs_gos st ++ [(s, GWait)]) (rs_main st) (rs_ctxErr st) (rs_calls st).

Definition toStart (m : gmap string StepResult) (inFlight : gset string) : list Step :=
  let sm := buildStatusMaps m in
  List.filter (fun s =>
      (negb (bool_decide (s_Name s ∈ inFlight)) && negb (bool_decide (s_Name s ∈ sm_terminal sm)))%bool)
    (Runnable dag (sm_done sm)).

(** One iteration: the section under the mutex, up to where it blocks next. *)
Definition iterate (st : state) : state :=
  let sm := buildStatusMaps (rs_results st) in
  let start := toStart (rs_results st) (rs_inFlight st) in
  let '(m, progressed) := foldl (skipStep (rs_inFlight st)) (rs_results st, false) steps in
  let hasInFlight := negb (bool_decide (rs_inFlight st = ∅)) in
  let allDone := ((size (sm_terminal sm) =? List.length steps)%nat && negb hasInFlight)%bool in
  let st := setResults m (rs_inFlight st) st in
  if (allDone && (List.length start =? 0)%nat)%bool then setMain MJoin st
  else
    let st := foldl startStep st start in
    if (negb (List.length start =? 0)%nat || progressed)%bool then setMain MLoop st
    else if hasInFlight then setMain MWaitDone st
    else setMain MSelect st.

Definition receiveDone (st : state) : option state :=
  if 0 <? rs_doneCh st then Some (setMain MLoop (setDoneCh (rs_doneCh st - 1) st)) else None.

(** One step of the main loop. *)
Definition mainStep (inp : input) (now : Z) (st : state) : option state :=
  match rs_main st, inp with
  | MLoop, Next => Some (iterate st)
  | MWaitDone, Next => receiveDone st
  | MSelect, Next => receiveDone st
  | MSelect, CtxDone => _ ← rs_ctxErr st; Some (setMain MJoin st)
  | MJoin, Next =>
      if rs_wg st =? 0
      then Some (setMain (MReturned (mkRunResult (m_Name (pl_Metadata p)) startedAt now (rs_results st))) st)
      else None
  | _, _ => None
  end.

Definition cancel (e : string) (st : state) : state :=
  mkState (rs_results st) (rs_inFlight st) (rs_sem st) (rs_wg st) (rs_doneCh st)
    (rs_gos st) (rs_main st) (match rs_ctxErr st with Some e' => Some e' | None => Some e end) (rs_calls st).

Definition step (o : op) (st : state) : option state :=
  match o with
  | OMain i now => mainStep i now st
  | OGo g i now => goStep g i now st
  | OCancel e => Some (cancel e st)
  end.

Fixpoint exec (ops : list op) (st : state) : option state :=
  match ops with
  | [] => Some st
  | o :: ops => st' ← step o st; exec ops st'
  end.

(** [Run]'s preamble on a fresh [Runner]: every step pending. *)
Definition initState : state :=
  mkState (foldl (fun m s => <[s_Name s := mkStepResult (s_Name s) StatusPending 0 0 None "" 0]> m) ∅ steps)
    ∅ 0 0 0 [] MLoop None [].

End Runner.
