(* ===== verification/RunnerSpec.v ===== *)
(** * What the in-process runner guarantees

    Whatever the interleaving of the main loop and the goroutines, the answers
    of the executor function and the moment of a cancellation: [Run] returns,
    with every step in a final status; calls are bounded; and for pipelines
    whose steps are listed after their dependencies, a step is executed only
    after its dependencies succeeded. *)

From S2P Require Import Prelude Pipeline Dag Runner.
From stdpp Require Import options.
#[local] Open Scope Z_scope.
#[local] Set Default Proof Using "Type*".

(** ** Statuses *)

Definition mstat (m : gmap string StepResult) (n : string) : option StepStatus := sr_Status <$> m !! n.

Lemma mstat_Some m n v : mstat m n = Some v <-> exists r, m !! n = Some r /\ sr_Status r = v.
Proof. unfold mstat. rewrite fmap_Some. naive_solver. Qed.

Lemma mstat_insert m n r n' :
  mstat (<[n := r]> m) n' = if decide (n = n') then Some (sr_Status r) else mstat m n'.
Proof. unfold mstat. destruct (decide (n = n')) as [->|]; by rewrite ?lookup_insert_eq, ?lookup_insert_ne by done. Qed.

Lemma has_status_true v r : has_status v r = true <-> sr_Status r = v.
Proof. apply bool_decide_eq_true. Qed.

Lemma elem_of_names_with f m n : n ∈ names_with f m <-> exists r, m !! n = Some r /\ f r = true.
Proof.
  unfold names_with. rewrite elem_of_dom. unfold is_Some.
  setoid_rewrite map_lookup_filter_Some. done.
Qed.

(** The statuses counted as done and as terminal. *)
Definition done_status (v : StepStatus) : Prop := v = StatusDone \/ v = StatusSkipped.
Definition final_status (v : StepStatus) : Prop := v = StatusDone \/ v = StatusSkipped \/ v = StatusFailed.

Lemma in_done m n : n ∈ names_with is_done m <-> exists v, mstat m n = Some v /\ done_status v.
Proof.
  rewrite elem_of_names_with. setoid_rewrite mstat_Some. unfold is_done, done_status.
  setoid_rewrite orb_true_iff. setoid_rewrite has_status_true. naive_solver.
Qed.

Lemma in_terminal m n : n ∈ names_with is_terminal m <-> exists v, mstat m n = Some v /\ final_status v.
Proof.
  rewrite elem_of_names_with. setoid_rewrite mstat_Some. unfold is_terminal, is_done, final_status.
  setoid_rewrite orb_true_iff. setoid_rewrite orb_true_iff. setoid_rewrite has_status_true. naive_solver.
Qed.

Definition bad_status (v : StepStatus) : Prop := v = StatusFailed \/ v = StatusSkipped.

Lemma hasFailedDep_true m s :
  hasFailedDep_ m s = true <-> exists dep v, dep ∈ s_DependsOn s /\ mstat m dep = Some v /\ bad_status v.
Proof.
  unfold hasFailedDep_. rewrite existsb_exists. setoid_rewrite mstat_Some. unfold bad_status.
  setoid_rewrite <- list_elem_of_In. split.
  - intros (dep & Hd & H). destruct (m !! dep) as [r|] eqn:E; [|done].
    apply orb_true_iff in H. rewrite !has_status_true in H. exists dep, (sr_Status r). eauto.
  - intros (dep & v & Hd & (r & E & <-) & H). exists dep. split; [done|]. rewrite E.
    apply orb_true_iff. by rewrite !has_status_true.
Qed.

(** ** Sums over the goroutines *)

Definition gsum (w : goroutine -> Z) (gos : list (Step * goroutine)) : Z :=
  foldr (fun x acc => w x.2 + acc) 0 gos.

Lemma gsum_app w l1 l2 : gsum w (l1 ++ l2) = gsum w l1 + gsum w l2.
Proof. induction l1 as [|x l1 IH]; simpl; [done|]. rewrite IH. lia. Qed.

Lemma gsum_insert w gos i s g s' g' :
  gos !! i = Some (s, g) -> gsum w (<[i := (s', g')]> gos) = gsum w gos - w g + w g'.
Proof.
  revert i; induction gos as [|x gos IH]; intros [|i]; simpl; try done.
  - intros [= ->]. simpl. lia.
  - intros H. rewrite (IH _ H). lia.
Qed.

Lemma gsum_le w w' gos : (forall g, w g <= w' g) -> gsum w gos <= gsum w' gos.
Proof. intros H. induction gos as [|x gos IH]; simpl; [lia|]. specialize (H x.2). lia. Qed.

Lemma gsum_nonneg w gos : (forall g, 0 <= w g) -> 0 <= gsum w gos.
Proof. intros H. induction gos as [|x gos IH]; simpl; [lia|]. specialize (H x.2). lia. Qed.

Lemma gsum_nonneg_at w gos : (forall i s g, gos !! i = Some (s, g) -> 0 <= w g) -> 0 <= gsum w gos.
Proof.
  induction gos as [|[s g] gos IH]; simpl; [lia|]. intros H. specialize (H 0%nat s g eq_refl) as H0.
  assert (0 <= gsum w gos) by (apply IH; intros i; apply (H (S i))). lia.
Qed.

Lemma gsum_elem w gos i s g : (forall g, 0 <= w g) -> gos !! i = Some (s, g) -> w g <= gsum w gos.
Proof.
  intros Hw. revert i; induction gos as [|x gos IH]; intros [|i]; simpl; try done.
  - intros [= ->]. pose proof (gsum_nonneg w gos Hw). simpl. lia.
  - intros H%IH. specialize (Hw x.2). lia.
Qed.

Lemma gsum_pos w gos : 0 < gsum w gos -> exists i s g, gos !! i = Some (s, g) /\ 0 < w g.
Proof.
  induction gos as [|[s g] gos IH]; simpl; [lia|]. intros H.
  destruct (Z.lt_ge_cases 0 (w g)); [by exists 0%nat, s, g|].
  destruct IH as (i & s' & g' & ? & ?); [lia|]. by exists (S i), s', g'.
Qed.

(** Not yet published; not yet signalled; holding the semaphore; in [execFn];
    not yet gone. *)
Definition unpublished (g : goroutine) : bool :=
  match g with GWait | GDelay _ | GExec _ | GFinished _ => true | _ => false end.
Definition unsignalled (g : goroutine) : Z :=
  match g with GWait | GDelay _ | GExec _ | GFinished _ | GSignal => 1 | _ => 0 end.
Definition holds (g : goroutine) : Z :=
  match g with GDelay _ | GExec _ | GFinished _ | GSignal | GRelease => 1 | _ => 0 end.
Definition executing (g : goroutine) : Z := match g with GExec _ => 1 | _ => 0 end.
Definition alive (g : goroutine) : Z := match g with GEnd => 0 | _ => 1 end.

Lemma unsignalled_nonneg g : 0 <= unsignalled g. Proof. by destruct g. Qed.
Lemma holds_nonneg g : 0 <= holds g. Proof. by destruct g. Qed.
Lemma alive_nonneg g : 0 <= alive g. Proof. by destruct g. Qed.
#[local] Hint Resolve unsignalled_nonneg holds_nonneg alive_nonneg : piper.

Definition gonames (gos : list (Step * goroutine)) : list string := (fun x => s_Name x.1) <$> gos.

Lemma gonames_insert gos i s g g' :
  gos !! i = Some (s, g) -> gonames (<[i := (s, g')]> gos) = gonames gos.
Proof.
  intros H. unfold gonames. rewrite list_fmap_insert. apply list_insert_id.
  by rewrite list_lookup_fmap, H.
Qed.

Lemma gonames_elem gos i s g : gos !! i = Some (s, g) -> s_Name s ∈ gonames gos.
Proof. intros H. apply list_elem_of_fmap. exists (s, g). split; [done|]. by eapply list_elem_of_lookup_2. Qed.

Lemma gonames_inv gos n : n ∈ gonames gos -> exists i s g, gos !! i = Some (s, g) /\ s_Name s = n.
Proof.
  intros ([s g] & -> & [i Hi]%list_elem_of_lookup)%list_elem_of_fmap. by exists i, s, g.
Qed.

Lemma gonames_unique gos i j s g s' g' :
  NoDup (gonames gos) -> gos !! i = Some (s, g) -> gos !! j = Some (s', g') -> s_Name s = s_Name s' -> i = j.
Proof.
  intros Hn Hi Hj E. apply (NoDup_lookup (gonames gos) i j (s_Name s)); [done|..];
    unfold gonames; rewrite list_lookup_fmap, ?Hi, ?Hj; simpl; congruence.
Qed.

Lemma lookup_insert_cases (gos : list (Step * goroutine)) i s g x j s' g' :
  gos !! i = Some (s, g) -> <[i := x]> gos !! j = Some (s', g') ->
  (j = i /\ (s', g') = x) \/ (j <> i /\ gos !! j = Some (s', g')).
Proof.
  intros Hi. destruct (decide (j = i)) as [->|].
  - rewrite list_lookup_insert_eq by by eapply lookup_lt_Some. intros [= <-]. auto.
  - rewrite list_lookup_insert_ne by done. auto.
Qed.

(** ** The result map, the in-flight set and the goroutines agree *)

Section Rows.

Context (p : Pipeline).

Record rows_inv (m : gmap string StepResult) (fl : gset string) (gos : list (Step * goroutine)) : Prop := {
  ri_dom n : (exists v, mstat m n = Some v) <-> n ∈ step_names p;
  ri_go i s g : gos !! i = Some (s, g) -> s ∈ steps p /\
    if unpublished g then mstat m (s_Name s) = Some StatusRunning /\ s_Name s ∈ fl
    else (mstat m (s_Name s) = Some StatusDone \/ mstat m (s_Name s) = Some StatusFailed) /\ s_Name s ∉ fl;
  ri_nodup : NoDup (gonames gos);
  ri_rest n v : n ∉ gonames gos -> mstat m n = Some v -> v = StatusPending \/ v = StatusSkipped;
  ri_fl n : n ∈ fl -> n ∈ gonames gos }.

Lemma rows_go m fl gos i s g g' :
  rows_inv m fl gos -> gos !! i = Some (s, g) -> unpublished g' = unpublished g -> rows_inv m fl (<[i := (s, g')]> gos).
Proof.
  intros [Hd Hg Hn Hr Hf] Hi Ha. split; rewrite ?(gonames_insert _ _ _ _ _ Hi); [done| |done..].
  intros j s' g'' [[-> [= -> ->]]|[? Hj]]%(lookup_insert_cases _ _ _ _ _ _ _ _ Hi); [|by eapply Hg].
  rewrite Ha. by eapply Hg.
Qed.

Lemma rows_publish m fl gos i s r g' :
  rows_inv m fl gos -> gos !! i = Some (s, GFinished r) -> unpublished g' = false ->
  sr_Status r = StatusDone \/ sr_Status r = StatusFailed ->
  rows_inv (<[s_Name s := r]> m) (fl ∖ {[s_Name s]}) (<[i := (s, g')]> gos).
Proof.
  intros [Hd Hg Hn Hr Hf] Hi Ha Hst. destruct (Hg _ _ _ Hi) as (Hs & Hm & Hin).
  split; rewrite ?(gonames_insert _ _ _ _ _ Hi).
  - intros n. rewrite <- Hd, mstat_insert. case_decide as E; [|done].
    subst n. split; intros _; eauto.
  - intros j s' g'' [[-> [= -> ->]]|[Hne Hj]]%(lookup_insert_cases _ _ _ _ _ _ _ _ Hi).
    + rewrite Ha, mstat_insert, decide_True by done. split; [done|]. split; [destruct Hst as [->| ->]; auto|set_solver].
    + assert (s_Name s <> s_Name s') by (intros E; apply Hne; symmetry; by eapply gonames_unique).
      rewrite mstat_insert, decide_False by done. destruct (Hg _ _ _ Hj) as [? Hst']. split; [done|].
      destruct (unpublished g''); (split; [tauto|set_solver]).
  - done.
  - intros n v Hn'. rewrite mstat_insert, decide_False; [by apply Hr|].
    intros <-. apply Hn'. by eapply gonames_elem.
  - intros n ?. apply Hf. set_solver.
Qed.

(** What the skip pass may change. *)
Definition skips (fl : gset string) (m m' : gmap string StepResult) : Prop :=
  forall n, mstat m' n = mstat m n \/
    (mstat m n = Some StatusPending /\ n ∉ fl /\ mstat m' n = Some StatusSkipped).

#[local] Instance skips_preorder fl : PreOrder (skips fl).
Proof. split; [by left|]. intros m1 m2 m3 H1 H2 n. specialize (H1 n). specialize (H2 n). intuition congruence. Qed.

Lemma skips_stat fl m m' n v :
  skips fl m m' -> v <> StatusPending -> v <> StatusSkipped -> (mstat m' n = Some v <-> mstat m n = Some v).
Proof. intros H ? ?. specialize (H n). intuition congruence. Qed.

Lemma rows_skips m m' fl gos : rows_inv m fl gos -> skips fl m m' -> rows_inv m' fl gos.
Proof.
  intros [Hd Hg Hn Hr Hf] H. split; try done.
  - intros n. rewrite <- Hd. destruct (H n) as [->|(-> & _ & ->)]; [done|]. split; intros _; eauto.
  - intros i s g Hi. destruct (Hg _ _ _ Hi) as [? H']. split; [done|].
    destruct (unpublished g); rewrite ?(skips_stat _ _ _ _ _ H) by done; exact H'.
  - intros n v Hn'. destruct (H n) as [->|(_ & _ & ->)]; [by apply Hr|naive_solver].
Qed.

Lemma skipStep_skips fl acc s : skips fl acc.1 (skipStep fl acc s).1.
Proof.
  unfold skipStep. destruct (acc.1 !! s_Name s) as [r|] eqn:E; [|done].
  destruct (_ && _ && _)%bool eqn:Ec; [|done]. simpl.
  apply andb_true_iff in Ec as [[Hp%has_status_true Hf%negb_true_iff%bool_decide_eq_false]%andb_true_iff _].
  intros n. rewrite mstat_insert. case_decide as En; [subst|by left]. right.
  split_and!; [apply mstat_Some; eauto|done|done].
Qed.

Lemma foldl_skips fl l acc : skips fl acc.1 (foldl (skipStep fl) acc l).1.
Proof. revert acc; induction l as [|s l IH]; intros acc; simpl; [done|]. etrans; [apply skipStep_skips|apply IH]. Qed.

(** Either the pass changed nothing and nothing could be skipped, or it skipped
    a pending step. *)
Definition may_skip (fl : gset string) (m : gmap string StepResult) (s : Step) : Prop :=
  mstat m (s_Name s) = Some StatusPending /\ s_Name s ∉ fl /\ hasFailedDep_ m s = true.

Lemma skipStep_cases fl acc s :
  (may_skip fl acc.1 s /\ (skipStep fl acc s).2 = true /\
     forall n, mstat (skipStep fl acc s).1 n = if decide (s_Name s = n) then Some StatusSkipped else mstat acc.1 n) \/
  (~ may_skip fl acc.1 s /\ skipStep fl acc s = acc).
Proof.
  unfold skipStep, may_skip.
  change (mstat acc.1 (s_Name s)) with (sr_Status <$> acc.1 !! s_Name s). destruct (acc.1 !! s_Name s) as [r|]; simpl; [|right; naive_solver].
  unfold has_status. destruct (bool_decide_reflect (sr_Status r = StatusPending)) as [->|]; [|right; naive_solver].
  destruct (bool_decide_reflect (s_Name s ∈ fl)) as [|Hni]; simpl; [right; naive_solver|].
  destruct (hasFailedDep_ acc.1 s); simpl; [left|right; naive_solver].
  split_and!; try done. intros n. by rewrite mstat_insert.
Qed.

Lemma foldl_skip_none fl l acc :
  (foldl (skipStep fl) acc l).2 = false ->
  acc.2 = false /\ foldl (skipStep fl) acc l = acc /\ forall s, s ∈ l -> ~ may_skip fl acc.1 s.
Proof.
  revert acc; induction l as [|s l IH]; intros acc; simpl.
  - intros H. split_and!; try done. by intros s ?%elem_of_nil.
  - intros (Hf & He & Hs)%IH. destruct (skipStep_cases fl acc s) as [(_ & Ht & _)|[Hn E]]; [congruence|].
    rewrite E in *. split_and!; try done. by intros s' [->|?]%elem_of_cons; [|apply Hs].
Qed.

Lemma foldl_skip_some fl l acc :
  (foldl (skipStep fl) acc l).2 = true -> acc.2 = false ->
  exists n, mstat acc.1 n = Some StatusPending /\ mstat (foldl (skipStep fl) acc l).1 n = Some StatusSkipped.
Proof.
  revert acc; induction l as [|s l IH]; intros acc; simpl; [congruence|]. intros Ht Hf.
  destruct (skipStep_cases fl acc s) as [((Hp & _) & _ & Hn)|[_ E]]; [|rewrite E in *; by apply IH].
  exists (s_Name s). split; [done|]. specialize (Hn (s_Name s)). rewrite decide_True in Hn by done.
  destruct (foldl_skips fl l (skipStep fl acc s) (s_Name s)) as [->|(? & _)]; [done|congruence].
Qed.

(** Starting a step that has no goroutine. *)
Lemma mstat_alter_running m n n' :
  mstat (alter (sr_withStatus StatusRunning) n m) n' =
  if decide (n = n') then (fun _ => StatusRunning) <$> mstat m n' else mstat m n'.
Proof.
  unfold mstat. destruct (decide (n = n')) as [->|].
  - rewrite lookup_alter_eq. by destruct (m !! n').
  - by rewrite lookup_alter_ne.
Qed.

Lemma rows_start m fl gos s :
  rows_inv m fl gos -> s ∈ steps p -> s_Name s ∉ gonames gos ->
  rows_inv (alter (sr_withStatus StatusRunning) (s_Name s) m) ({[s_Name s]} ∪ fl) (gos ++ [(s, GWait)]).
Proof.
  intros [Hd Hg Hn Hr Hf] Hs Hno.
  assert (Hgn : gonames (gos ++ [(s, GWait)]) = gonames gos ++ [s_Name s]) by (unfold gonames; by rewrite fmap_app).
  split; rewrite ?Hgn.
  - intros n. rewrite <- Hd, mstat_alter_running. case_decide as E; [subst|done].
    destruct (mstat m (s_Name s)); simpl; (split; intros [? [=]]; eauto).
  - intros i s' g [Hi|[_ Hi]]%lookup_app_Some.
    + assert (s_Name s <> s_Name s') by (intros E; apply Hno; rewrite E; by eapply gonames_elem).
      rewrite mstat_alter_running, decide_False by done. destruct (Hg _ _ _ Hi) as [? H']. split; [done|].
      destruct (unpublished g); (split; [tauto|set_solver]).
    + apply list_lookup_singleton_Some in Hi as [_ [= <- <-]]. simpl.
      rewrite mstat_alter_running, decide_True by done.
      assert (s_Name s ∈ step_names p) as (v & ->)%Hd by by apply list_elem_of_fmap_2.
      split; [done|]. split; [done|set_solver].
  - apply NoDup_app. split_and!; [done| |apply NoDup_singleton]. intros n Hn' ->%list_elem_of_singleton. done.
  - intros n v H. apply not_elem_of_app in H as [H Hne%not_elem_of_cons].
    rewrite mstat_alter_running, decide_False by naive_solver. by apply Hr.
  - intros n Hn'. apply elem_of_app. rewrite list_elem_of_singleton. set_solver.
Qed.

(** The foldl of [startStep]. *)
Lemma foldl_start_rows l st :
  rows_inv (rs_results st) (rs_inFlight st) (rs_gos st) ->
  Forall (fun s => s ∈ steps p /\ s_Name s ∉ gonames (rs_gos st)) l -> NoDup (s_Name <$> l) ->
  let st' := foldl startStep st l in
  rows_inv (rs_results st') (rs_inFlight st') (rs_gos st').
Proof.
  revert st; induction l as [|s l IH]; intros st Hi Hf Hn; simpl; [done|].
  apply Forall_cons in Hf as [[Hs Hno] Hf]. apply NoDup_cons in Hn as [Hsl Hn].
  apply IH; [by apply rows_start| |done].
  apply Forall_forall. intros s' Hs'. rewrite Forall_forall in Hf. destruct (Hf s' Hs'). split; [done|].
  simpl. unfold gonames. rewrite fmap_app. apply not_elem_of_app. split; [done|].
  intros E%list_elem_of_singleton. simpl in E. apply Hsl. rewrite <- E. by apply list_elem_of_fmap_2.
Qed.

Lemma foldl_start_results l st n :
  mstat (rs_results (foldl startStep st l)) n =
  if decide (n ∈ s_Name <$> l) then (fun _ => StatusRunning) <$> mstat (rs_results st) n else mstat (rs_results st) n.
Proof.
  revert st; induction l as [|s l IH]; intros st; simpl; [done|].
  rewrite IH. simpl. rewrite mstat_alter_running.
  repeat case_decide; try done; try set_solver; by destruct (mstat (rs_results st) n).
Qed.

Lemma foldl_start_frame l st :
  let st' := foldl startStep st l in
  rs_sem st' = rs_sem st /\ rs_doneCh st' = rs_doneCh st /\ rs_main st' = rs_main st /\
  rs_calls st' = rs_calls st /\ rs_ctxErr st' = rs_ctxErr st /\
  rs_wg st' = rs_wg st + Z.of_nat (List.length l) /\
  rs_gos st' = rs_gos st ++ ((fun s => (s, GWait)) <$> l).
Proof.
  revert st; induction l as [|s l IH]; intros st; simpl; [by rewrite app_nil_r; split_and!; try lia|].
  destruct (IH (startStep st s)) as (-> & -> & -> & -> & -> & -> & ->). simpl.
  split_and!; try done; [lia|]. by rewrite <- app_assoc.
Qed.

End Rows.

(** ** The moves of one goroutine *)

Section System.

#[local] Set Default Proof Using "All".

Context (p : Pipeline) (dag : DAG) (cfg : RunnerConfig) (startedAt : Z).
Context (Hnd : NoDup (step_names p)) (Hdag : BuildDAG p = Ok dag).
Context (Hcfg : - 2^63 <= rc_MaxRetries cfg < 2^63 - 2).

Abbreviation max_attempts := (maxAttempts cfg).
Abbreviation slots := (concurrency cfg).
Abbreviation sys_step := (step p dag cfg startedAt).
Abbreviation sys_exec := (exec p dag cfg startedAt).

Lemma maxAttempts_eq : max_attempts = rc_MaxRetries cfg + 1.
Proof. unfold maxAttempts. rewrite wrap64_id; lia. Qed.

Lemma concurrency_pos : 0 < slots.
Proof. unfold concurrency. destruct (Z.leb_spec (rc_Concurrency cfg) 0); lia. Qed.

(** What a goroutine carries. *)
Definition go_ok (g : goroutine) : Prop :=
  match g with
  | GDelay r => 1 < sr_Attempts r <= max_attempts
  | GExec r => 1 <= sr_Attempts r <= max_attempts
  | GFinished r => sr_Status r = StatusDone \/ sr_Status r = StatusFailed
  | _ => True
  end.

Inductive gmove : goroutine -> goroutine -> Prop :=
| mv_start r : sr_Attempts r = 1 -> gmove GWait (GExec r)
| mv_never r : gmove GWait (GFinished r)
| mv_attempt r : gmove (GDelay r) (GExec r)
| mv_cancel r r' : gmove (GDelay r) (GFinished r')
| mv_return r r' : gmove (GExec r) (GFinished r')
| mv_retry r r' : sr_Attempts r' = sr_Attempts r + 1 -> gmove (GExec r) (GDelay r')
| mv_publish r : gmove (GFinished r) GSignal
| mv_signal : gmove GSignal GRelease
| mv_release : gmove GRelease GExit
| mv_exit : gmove GExit GEnd.
#[local] Hint Constructors gmove : piper.

Lemma runWithRetry_move s now :
  gmove GWait (runWithRetry cfg s now) /\ go_ok (runWithRetry cfg s now).
Proof.
  unfold runWithRetry, loopHead. destruct (Z.leb_spec 1 max_attempts); simpl; (split; [by constructor|simpl; first [lia|auto]]).
Qed.

Lemma execReturned_move r err now :
  go_ok (GExec r) -> gmove (GExec r) (execReturned cfg r err now) /\ go_ok (execReturned cfg r err now).
Proof.
  simpl. intros H. pose proof maxAttempts_eq. destruct err as [e|]; simpl; [|split; [constructor|by left]].
  rewrite wrap64_id by lia. unfold loopHead.
  destruct (Z.leb_spec (sr_Attempts r + 1) max_attempts); simpl; [|split; [constructor|by right]].
  replace (1 <? sr_Attempts r + 1) with true by lia. split; [by constructor|simpl; lia].
Qed.

(** A step of a goroutine, as a move with its effect on what is shared. *)
Record go_effect (i : nat) (s : Step) (g g' : goroutine) (st st' : state) : Prop := {
  ge_move : gmove g g';
  ge_ok : go_ok g';
  ge_gos : rs_gos st' = <[i := (s, g')]> (rs_gos st);
  ge_main : rs_main st' = rs_main st;
  ge_sem : rs_sem st' = rs_sem st - holds g + holds g';
  ge_room : rs_sem st' <= rs_sem st \/ rs_sem st' <= slots;
  ge_wg : rs_wg st' = rs_wg st - alive g + alive g';
  ge_chan : rs_doneCh st' = rs_doneCh st + unsignalled g - unsignalled g';
  ge_calls : rs_calls st' =
    match g' with GExec r => rs_calls st ++ [(s_Name s, sr_Attempts r)] | _ => rs_calls st end;
  ge_rows : (rs_results st', rs_inFlight st') =
    match g with
    | GFinished r => (<[s_Name s := r]> (rs_results st), rs_inFlight st ∖ {[s_Name s]})
    | _ => (rs_results st, rs_inFlight st)
    end }.

Lemma goStep_effect i inp now st st' s g :
  rs_gos st !! i = Some (s, g) -> go_ok g -> goStep p cfg i inp now st = Some st' ->
  exists g', go_effect i s g g' st st'.
Proof.
  intros Hi Hok. unfold goStep. rewrite Hi. simpl.
  destruct g, inp; try done.
  - destruct (Z.ltb_spec (rs_sem st) slots); [|done]. intros [= <-].
    destruct (runWithRetry_move s now) as [Hm Ho]. revert Hm Ho.
    generalize (runWithRetry cfg s now) as g'. intros g' Hm Ho. exists g'.
    split; simpl; try done; inversion Hm; subst; simpl; lia.
  - intros [= <-]. exists (GExec r). simpl in Hok. split; simpl; auto with piper; lia.
  - destruct (rs_ctxErr st) as [e|]; [|done]. intros [= <-]. exists (retryCanceled r e now).
    split; simpl; auto; [constructor|lia..].
  - intros [= <-]. destruct (execReturned_move r err now Hok) as [Hm Ho]. revert Hm Ho.
    generalize (execReturned cfg r err now) as g'. intros g' Hm Ho. exists g'.
    split; simpl; try done; inversion Hm; subst; simpl; lia.
  - intros [= <-]. exists GSignal. split; simpl; auto with piper; lia.
  - destruct (_ <? _); [|done]. intros [= <-]. exists GRelease. split; simpl; auto with piper; lia.
  - destruct (Z.ltb_spec 0 (rs_sem st)); [|done]. intros [= <-]. exists GExit. split; simpl; auto with piper; lia.
  - intros [= <-]. exists GEnd. split; simpl; auto with piper; lia.
Qed.

(** ** The invariant of a run *)

Definition called_upto (g : goroutine) (a : Z) : Prop :=
  match g with GWait => False | GDelay r => a < sr_Attempts r | GExec r => a <= sr_Attempts r | _ => True end.

Definition calls_inv (gos : list (Step * goroutine)) (calls : list (string * Z)) : Prop :=
  NoDup calls /\
  forall n a, (n, a) ∈ calls -> 1 <= a <= max_attempts /\
    exists i s g, gos !! i = Some (s, g) /\ s_Name s = n /\ called_upto g a.

Definition all_final (m : gmap string StepResult) : Prop :=
  forall n, n ∈ step_names p -> exists v, mstat m n = Some v /\ final_status v.

Definition main_inv (st : state) : Prop :=
  match rs_main st with
  | MLoop => True
  | MWaitDone => 0 < rs_doneCh st + gsum unsignalled (rs_gos st)
  | MSelect => False
  | MJoin => all_final (rs_results st)
  | MReturned rr => all_final (rs_results st) /\ rr_Steps rr = rs_results st /\ gsum alive (rs_gos st) = 0
  end.

Record inv (st : state) : Prop := {
  iv_rows : rows_inv p (rs_results st) (rs_inFlight st) (rs_gos st);
  iv_ok i s g : rs_gos st !! i = Some (s, g) -> go_ok g;
  iv_sem : rs_sem st = gsum holds (rs_gos st);
  iv_max : rs_sem st <= slots;
  iv_wg : rs_wg st = gsum alive (rs_gos st);
  iv_chan : 0 <= rs_doneCh st /\
    rs_doneCh st + gsum unsignalled (rs_gos st) <= Z.of_nat (List.length (rs_gos st));
  iv_calls : calls_inv (rs_gos st) (rs_calls st);
  iv_main : main_inv st }.

(** ** Steps of goroutines keep it *)

Lemma gmove_active g g' : gmove g g' -> unpublished g' = unpublished g \/ exists r, g = GFinished r /\ g' = GSignal.
Proof. destruct 1; simpl; eauto. Qed.

Lemma gmove_called g g' a : gmove g g' -> called_upto g a -> called_upto g' a.
Proof. destruct 1; simpl; intros; lia || done. Qed.

Lemma go_effect_rows i s g g' st st' :
  go_effect i s g g' st st' -> rs_gos st !! i = Some (s, g) -> go_ok g ->
  rows_inv p (rs_results st) (rs_inFlight st) (rs_gos st) ->
  rows_inv p (rs_results st') (rs_inFlight st') (rs_gos st').
Proof.
  intros [Hm _ Hg _ _ _ _ _ _ Hr] Hi Hok Hrows. rewrite Hg.
  destruct (gmove_active _ _ Hm) as [Ha|(r & -> & ->)].
  - assert (forall r, g <> GFinished r) as Hne by (intros r ->; inversion Hm; subst; done).
    assert ((rs_results st', rs_inFlight st') = (rs_results st, rs_inFlight st)) as [= -> ->].
    { rewrite Hr. destruct g; try done. by edestruct Hne. }
    by eapply rows_go.
  - injection Hr as -> ->. by eapply rows_publish.
Qed.

Lemma go_effect_calls i s g g' st st' :
  go_effect i s g g' st st' -> rs_gos st !! i = Some (s, g) -> NoDup (gonames (rs_gos st)) ->
  calls_inv (rs_gos st) (rs_calls st) -> calls_inv (rs_gos st') (rs_calls st').
Proof.
  intros [Hm Hok Hg _ _ _ _ _ Hc _] Hi Hnd' [Hn Hall].
  assert (Hget : rs_gos st' !! i = Some (s, g')).
  { rewrite Hg. apply list_lookup_insert_eq. by eapply lookup_lt_Some. }
  assert (Hold : forall n a, (n, a) ∈ rs_calls st -> 1 <= a <= max_attempts /\
    exists j s' h, rs_gos st' !! j = Some (s', h) /\ s_Name s' = n /\ called_upto h a).
  { intros n a H. destruct (Hall n a H) as (Ha & j & s' & h & Hj & En & Hcu). split; [done|].
    destruct (decide (j = i)) as [->|].
    - simplify_eq. exists i, s, g'. split_and!; [done..|]. by eapply gmove_called.
    - exists j, s', h. by rewrite Hg, list_lookup_insert_ne. }
  destruct g' as [| |r| | | | |]; try (rewrite Hc; by split).
  rewrite Hc. split.
  - apply NoDup_app. split_and!; [done| |apply NoDup_singleton].
    intros x H ->%list_elem_of_singleton.
    destruct (Hall _ _ H) as (_ & j & s' & h & Hj & En & Hcu).
    assert (j = i) as -> by by eapply gonames_unique. simplify_eq.
    inversion Hm; subst; simpl in *; [done|lia].
  - intros n a [H|[= -> ->]%list_elem_of_singleton]%elem_of_app; [by apply Hold|].
    split; [done|]. exists i, s, (GExec r). split_and!; [done..|simpl; lia].
Qed.

Lemma go_effect_final i s g g' st st' :
  go_effect i s g g' st st' -> go_ok g -> all_final (rs_results st) -> all_final (rs_results st').
Proof.
  intros He Hok Hf. pose proof (ge_rows _ _ _ _ _ _ He) as Hr.
  destruct g; try (by injection Hr as -> _). injection Hr as -> _.
  intros n Hn. rewrite mstat_insert. case_decide; [|by apply Hf].
  eexists. split; [done|]. unfold final_status. simpl in Hok. tauto.
Qed.

Lemma go_effect_main i s g g' st st' :
  go_effect i s g g' st st' -> rs_gos st !! i = Some (s, g) -> go_ok g -> main_inv st -> main_inv st'.
Proof.
  intros He Hi Hok. unfold main_inv. rewrite (ge_main _ _ _ _ _ _ He).
  destruct (rs_main st) as [| | | |rr]; [done| |done| |].
  - rewrite (ge_gos _ _ _ _ _ _ He), (gsum_insert _ _ _ _ _ _ _ Hi), (ge_chan _ _ _ _ _ _ He). lia.
  - by eapply go_effect_final.
  - intros (_ & _ & Ha). pose proof (gsum_elem alive _ _ _ _ alive_nonneg Hi).
    pose proof (ge_move _ _ _ _ _ _ He) as Hm. inversion Hm; subst; simpl in *; lia.
Qed.

Lemma inv_goStep i inp now st st' :
  inv st -> goStep p cfg i inp now st = Some st' -> inv st'.
Proof.
  intros [Hr Ho Hs Hm Hw [Hc0 Hc] Hcalls Hmain] Hstep.
  assert (exists s g, rs_gos st !! i = Some (s, g)) as (s & g & Hi).
  { unfold goStep in Hstep. destruct (rs_gos st !! i) as [[s g]|]; [eauto|done]. }
  destruct (goStep_effect _ _ _ _ _ _ _ Hi (Ho _ _ _ Hi) Hstep) as (g' & He).
  pose proof (gsum_elem unsignalled _ _ _ _ unsignalled_nonneg Hi).
  pose proof (ge_move _ _ _ _ _ _ He) as Hmv.
  pose proof (ge_gos _ _ _ _ _ _ He) as Hg.
  pose proof (ge_chan _ _ _ _ _ _ He) as Hch.
  split.
  - eapply go_effect_rows; eauto.
  - intros j s' h. rewrite Hg. intros [[_ [= -> ->]]|[_ Hj]]%(lookup_insert_cases _ _ _ _ _ _ _ _ Hi);
      [by eapply ge_ok|by eapply Ho].
  - rewrite Hg, (gsum_insert _ _ _ _ _ _ _ Hi), (ge_sem _ _ _ _ _ _ He). lia.
  - destruct (ge_room _ _ _ _ _ _ He); lia.
  - rewrite Hg, (gsum_insert _ _ _ _ _ _ _ Hi), (ge_wg _ _ _ _ _ _ He). lia.
  - rewrite Hg, (gsum_insert _ _ _ _ _ _ _ Hi), length_insert, Hch.
    destruct Hmv; simpl in *; lia.
  - eapply go_effect_calls; eauto. apply Hr.
  - eapply go_effect_main; eauto.
Qed.

(** ** The steps that an iteration starts *)

Lemma length_steps : List.length (step_names p) = List.length (steps p).
Proof. unfold step_names. by rewrite length_fmap. Qed.

Lemma gos_bound m fl gos : rows_inv p m fl gos -> (List.length gos <= List.length (steps p))%nat.
Proof.
  intros Hr. rewrite <- length_steps. replace (List.length gos) with (List.length (gonames gos))
    by (unfold gonames; by rewrite length_fmap).
  apply submseteq_length, NoDup_submseteq; [apply Hr|].
  intros n (i & s & g & Hi & <-)%gonames_inv. apply (ri_go _ _ _ _ Hr) in Hi as [? _]. by apply list_elem_of_fmap_2.
Qed.

Lemma NoDup_omap_names (f : string -> option Step) l :
  NoDup l -> (forall n s, n ∈ l -> f n = Some s -> s_Name s = n) -> NoDup (s_Name <$> omap f l).
Proof.
  induction l as [|n l IH]; intros Hn Hf; simpl; [constructor|].
  apply NoDup_cons in Hn as [Hnl Hn].
  assert (NoDup (s_Name <$> omap f l)) as Hn' by (apply IH; [done|]; intros; apply Hf; [by right|done]).
  destruct (f n) as [s|] eqn:E; [|done]. simpl. apply NoDup_cons. split; [|done].
  rewrite (Hf n s) by (done || by left). intros (s' & E' & (n' & Hn1 & Hn2)%list_elem_of_omap)%list_elem_of_fmap.
  assert (s_Name s' = n') as En by (apply Hf; [by right|done]). apply Hnl. by rewrite E', En.
Qed.

Lemma dag_steps_name n s : n ∈ dag_order dag -> dag_steps dag !! n = Some s -> s_Name s = n.
Proof.
  intros Hn Hs. destruct (BuildDAG_inv _ _ Hnd Hdag) as (_ & Hl & Hp).
  rewrite Hp in Hn. apply list_elem_of_fmap in Hn as (s' & -> & Hs'). rewrite (Hl _ Hs') in Hs. by simplify_eq.
Qed.

Lemma Runnable_names_nodup done : NoDup (s_Name <$> Runnable dag done).
Proof.
  destruct (BuildDAG_inv _ _ Hnd Hdag) as (_ & Hl & Hp).
  apply NoDup_omap_names; [by rewrite Hp|]. intros n s Hn. case_bool_decide; [done|].
  destruct (dag_steps dag !! n) as [s'|] eqn:E; [|done]. simpl.
  destruct (depsReady s' done); [|done]. intros [= <-]. by apply dag_steps_name.
Qed.

Lemma NoDup_filter_names (f : Step -> bool) l : NoDup (s_Name <$> l) -> NoDup (s_Name <$> List.filter f l).
Proof.
  induction l as [|s l IH]; simpl; [done|]. intros [Hs Hn]%NoDup_cons.
  destruct (f s); [|by apply IH]. simpl. apply NoDup_cons. split; [|by apply IH].
  intros (s' & E & [H _]%list_elem_of_In%filter_In)%list_elem_of_fmap. apply Hs. rewrite E.
  apply list_elem_of_fmap_2. by apply list_elem_of_In.
Qed.

Lemma elem_of_toStart m fl s :
  s ∈ toStart dag m fl <->
  s ∈ steps p /\ s_Name s ∉ fl /\ s_Name s ∉ names_with is_terminal m /\
  forall dep, dep ∈ s_DependsOn s -> exists v, mstat m dep = Some v /\ done_status v.
Proof.
  unfold toStart. rewrite list_elem_of_In, filter_In, <- list_elem_of_In.
  rewrite (proj1 (Runnable_spec p dag _ Hnd Hdag)), andb_true_iff, !negb_true_iff, !bool_decide_eq_false.
  unfold buildStatusMaps; simpl. rewrite Forall_forall. setoid_rewrite in_done. split.
  - intros [(? & ? & ?) [? ?]]. auto.
  - intros (? & ? & Ht & ?). split_and!; try done. intros (v & ? & Hv). apply Ht, in_terminal.
    exists v. split; [done|]. unfold final_status. destruct Hv; auto.
Qed.

Lemma toStart_fresh m fl gos :
  rows_inv p m fl gos ->
  Forall (fun s => s ∈ steps p /\ s_Name s ∉ gonames gos) (toStart dag m fl) /\
  NoDup (s_Name <$> toStart dag m fl).
Proof.
  intros Hr. split; [|apply NoDup_filter_names, Runnable_names_nodup].
  apply Forall_forall. intros s (Hs & Hf & Ht & _)%elem_of_toStart. split; [done|].
  intros (i & s' & g & Hi & En)%gonames_inv. apply (ri_go _ _ _ _ Hr) in Hi as [_ H]. rewrite En in H.
  destruct (unpublished g); [by destruct H as [_ H]; apply Hf|]. apply Ht, in_terminal.
  destruct H as [[H|H] _]; eexists; (split; [exact H|]); unfold final_status; auto.
Qed.

(** ** An iteration *)

(** While something is left, an iteration starts or skips a step or finds one
    in flight: the [select] of the loop is never reached. *)
Lemma no_stall m fl gos :
  rows_inv p m fl gos -> fl = ∅ -> toStart dag m fl = [] ->
  (forall s, s ∈ steps p -> ~ may_skip fl m s) -> all_final m.
Proof.
  intros Hr Hfl Hstart Hskip.
  destruct (BuildDAG_inv _ _ Hnd Hdag) as (Ho & _ & _).
  destruct (topoSort_acyclic _ _ Hnd Ho) as [rank Hrank].
  assert (H : forall k n, (rank n < k)%nat -> n ∈ step_names p -> exists v, mstat m n = Some v /\ final_status v).
  { induction k as [|k IH]; intros n Hk Hn; [lia|].
    destruct (proj2 (ri_dom _ _ _ _ Hr n) Hn) as [v Hv]. exists v. split; [done|].
    destruct (decide (n ∈ gonames gos)) as [(i & s & g & Hi & <-)%gonames_inv|Hng].
    { apply (ri_go _ _ _ _ Hr) in Hi as [_ H]. unfold final_status.
      destruct (unpublished g); [destruct H; set_solver|]. destruct H as [[H|H] _]; rewrite H in Hv; simplify_eq; auto. }
    destruct (ri_rest _ _ _ _ Hr _ _ Hng Hv) as [->| ->]; [|right; by left].
    apply list_elem_of_fmap in Hn as (s & -> & Hs).
    destruct (hasFailedDep_ m s) eqn:Ef.
    { destruct (Hskip s Hs). split_and!; [done|set_solver|done]. }
    assert (Hst : s ∈ toStart dag m fl); [|rewrite Hstart in Hst; by apply elem_of_nil in Hst].
    apply elem_of_toStart. split_and!; [done|set_solver| |].
    - intros (v & Hv' & Hf)%in_terminal. rewrite Hv in Hv'. simplify_eq. by destruct Hf as [?|[?|?]].
    - intros dep Hdep. destruct (Hrank _ _ Hs Hdep) as [Hin Hlt].
      destruct (IH dep ltac:(lia) Hin) as (v & Hv' & Hf). exists v. split; [done|].
      destruct Hf as [->|[->| ->]]; [by left|by right|].
      assert (hasFailedDep_ m s = true); [|congruence].
      apply hasFailedDep_true. exists dep, StatusFailed. split_and!; [done..|by left]. }
  intros n. apply (H (S (rank n))). lia.
Qed.

Lemma terminal_count m fl gos :
  rows_inv p m fl gos ->
  ((size (names_with is_terminal m) =? List.length (steps p))%nat = true <-> all_final m).
Proof.
  intros Hr. rewrite Nat.eqb_eq, <- length_steps.
  assert (Hs : size (list_to_set (step_names p) : gset string) = List.length (step_names p))
    by by apply size_list_to_set.
  assert (Hsub : names_with is_terminal m ⊆ list_to_set (step_names p)).
  { intros n (v & Hv & _)%in_terminal. apply elem_of_list_to_set, (ri_dom _ _ _ _ Hr). eauto. }
  unfold all_final. setoid_rewrite <- in_terminal. split.
  - intros E n Hn. rewrite (set_subseteq_size_eq (names_with is_terminal m) (list_to_set (step_names p))); [|done|lia].
    by apply elem_of_list_to_set.
  - intros H. rewrite <- Hs. f_equal. apply leibniz_equiv, (anti_symm (⊆)); [done|].
    intros n Hn%elem_of_list_to_set. by apply H.
Qed.

Definition skipped (st : state) : gmap string StepResult * bool :=
  foldl (skipStep (rs_inFlight st)) (rs_results st, false) (steps p).

Definition after_start (st : state) : state :=
  foldl startStep (setResults (skipped st).1 (rs_inFlight st) st) (toStart dag (rs_results st) (rs_inFlight st)).

Lemma skipped_skips st : skips (rs_inFlight st) (rs_results st) (skipped st).1.
Proof. apply (foldl_skips _ (steps p) (rs_results st, false)). Qed.

Lemma iterate_spec st :
  rows_inv p (rs_results st) (rs_inFlight st) (rs_gos st) ->
  exists x, iterate p dag st = setMain x (after_start st) /\
    ((x = MLoop /\ (toStart dag (rs_results st) (rs_inFlight st) <> [] \/ (skipped st).2 = true)) \/
     (x = MWaitDone /\ rs_inFlight st <> ∅) \/
     (x = MJoin /\ all_final (rs_results st) /\ toStart dag (rs_results st) (rs_inFlight st) = [])).
Proof.
  intros Hr. unfold after_start, iterate. fold (skipped st).
  destruct (skipped st) as [m prog] eqn:Es. simpl.
  change (sm_terminal _) with (names_with is_terminal (rs_results st)).
  destruct (toStart dag (rs_results st) (rs_inFlight st)) as [|s l] eqn:Et; simpl.
  2: { rewrite andb_false_r. simpl. exists MLoop. split; [done|]. left. split; [done|by left]. }
  rewrite andb_true_r.
  destruct (_ && _)%bool eqn:Ea.
  { apply andb_true_iff in Ea as [Ea _]. exists MJoin. split; [done|]. right. right.
    split_and!; [done| |done]. by eapply terminal_count. }
  destruct prog; [exists MLoop; split; [done|]; left; split; [done|by right]|].
  destruct (bool_decide_reflect (rs_inFlight st = ∅)) as [Hfl|]; simpl in *; [|exists MWaitDone; split; [done|]; auto].
  rewrite andb_true_r in Ea. exfalso.
  destruct (foldl_skip_none (rs_inFlight st) (steps p) (rs_results st, false)) as (_ & _ & Hno);
    [fold (skipped st); by rewrite Es|].
  pose proof (no_stall _ _ _ Hr Hfl Et Hno) as Hall%(terminal_count _ _ _ Hr). congruence.
Qed.

Lemma after_start_rows st :
  rows_inv p (rs_results st) (rs_inFlight st) (rs_gos st) ->
  rows_inv p (rs_results (after_start st)) (rs_inFlight (after_start st)) (rs_gos (after_start st)).
Proof.
  intros Hr. destruct (toStart_fresh _ _ _ Hr).
  apply (foldl_start_rows p _ (setResults (skipped st).1 (rs_inFlight st) st)); [|done..].
  simpl. eapply rows_skips; [exact Hr|]. apply skipped_skips.
Qed.

Lemma gsum_waits w l : gsum w ((fun s : Step => (s, GWait)) <$> l) = w GWait * Z.of_nat (List.length l).
Proof.
  induction l as [|s l IH]; [simpl; lia|].
  change (w GWait + gsum w ((fun s : Step => (s, GWait)) <$> l) = w GWait * Z.of_nat (S (List.length l))).
  rewrite IH. lia.
Qed.

Lemma started_frame st :
  let l := toStart dag (rs_results st) (rs_inFlight st) in
  rs_sem (after_start st) = rs_sem st /\ rs_doneCh (after_start st) = rs_doneCh st /\
  rs_calls (after_start st) = rs_calls st /\ rs_wg (after_start st) = rs_wg st + Z.of_nat (List.length l) /\
  rs_gos (after_start st) = rs_gos st ++ ((fun s => (s, GWait)) <$> l).
Proof.
  destruct (foldl_start_frame (toStart dag (rs_results st) (rs_inFlight st))
    (setResults (skipped st).1 (rs_inFlight st) st)) as (? & ? & ? & ? & ? & ? & ?). auto.
Qed.

Lemma skips_final fl m m' : skips fl m m' -> all_final m -> all_final m'.
Proof.
  intros H Hf n Hn. destruct (Hf n Hn) as (v & Hv & Hfin). exists v. split; [|done].
  destruct (H n) as [->|(Hp & _)]; [done|]. rewrite Hp in Hv. simplify_eq. by destruct Hfin as [?|[?|?]].
Qed.

Lemma lookup_started gos l i s g :
  (gos ++ ((fun s : Step => (s, GWait)) <$> l)) !! i = Some (s, g) -> gos !! i = Some (s, g) \/ g = GWait /\ s ∈ l.
Proof.
  intros [H|[_ H]]%lookup_app_Some; [by left|right].
  rewrite list_lookup_fmap, fmap_Some in H. destruct H as (s' & Hl & [= -> ->]).
  split; [done|]. by eapply list_elem_of_lookup_2.
Qed.

Lemma inv_iterate st : inv st -> inv (iterate p dag st).
Proof.
  intros [Hr Ho Hs Hm Hw [Hc0 Hc] [Hcn Hcalls] _].
  destruct (iterate_spec st Hr) as (x & -> & Hx).
  pose proof (after_start_rows st Hr) as Hr'.
  destruct (started_frame st) as (Es & Ed & Ec & Ew & Eg).
  split; simpl; [done|..].
  - intros i s g. rewrite Eg. intros [H|[-> _]]%lookup_started; [by eapply Ho|done].
  - rewrite Es, Eg, gsum_app, gsum_waits. simpl. lia.
  - lia.
  - rewrite Ew, Eg, gsum_app, gsum_waits, Hw. simpl. lia.
  - rewrite Ed, Eg, gsum_app, gsum_waits, length_app, length_fmap. simpl. lia.
  - rewrite Ec, Eg. split; [done|]. intros n a H. destruct (Hcalls n a H) as (? & i & s & g & Hi & ?).
    split; [done|]. exists i, s, g. split; [by apply lookup_app_l_Some|done].
  - unfold main_inv. simpl. destruct Hx as [[-> _]|[[-> Hfl]|(-> & Hf & Hnil)]]; [done| |].
    + apply set_choose_L in Hfl as [n Hn]. apply (ri_fl _ _ _ _ Hr) in Hn as Hg.
      apply gonames_inv in Hg as (i & s & g & Hi & <-).
      pose proof (gsum_elem unsignalled _ _ _ _ unsignalled_nonneg Hi).
      apply (ri_go _ _ _ _ Hr) in Hi as [_ Hi]. rewrite Ed, Eg, gsum_app, gsum_waits.
      destruct g; simpl in *; try lia; destruct Hi; done.
    + unfold after_start. rewrite Hnil. simpl. eapply skips_final; [apply skipped_skips|done].
Qed.

Lemma inv_step o st st' : inv st -> sys_step o st = Some st' -> inv st'.
Proof.
  intros Hi. destruct o as [i now|g i now|e]; simpl.
  - unfold mainStep, receiveDone. pose proof (iv_main _ Hi) as Hm. unfold main_inv in Hm.
    destruct (rs_main st) as [| | | |rr] eqn:Em, i; try done.
    + intros [= <-]. by apply inv_iterate.
    + destruct (Z.ltb_spec 0 (rs_doneCh st)); [|done]. intros [= <-].
      destruct Hi as [? ? ? ? ? [? ?] ? ?]. split; simpl; try done. lia.
    + destruct (Z.eqb_spec (rs_wg st) 0) as [E|]; [|done]. intros [= <-].
      destruct Hi as [? ? ? ? Hw ? ? ?]. split; simpl; try done. unfold main_inv. simpl.
      split_and!; [done|done|lia].
  - by apply inv_goStep.
  - intros [= <-]. by destruct Hi; split.
Qed.

Lemma init_stat n :
  mstat (rs_results (initState p)) n = if decide (n ∈ step_names p) then Some StatusPending else None.
Proof.
  assert (H : forall l (m : gmap string StepResult),
    mstat (foldl (fun m s => <[s_Name s := mkStepResult (s_Name s) StatusPending 0 0 None "" 0]> m) m l) n =
    if decide (n ∈ s_Name <$> l) then Some StatusPending else mstat m n).
  { induction l as [|s l IH]; intros m; simpl; [done|]. rewrite IH, mstat_insert.
    repeat case_decide; try done; set_solver. }
  etrans; [apply (H (steps p) ∅)|].
  assert (mstat ∅ n = None) as -> by (unfold mstat; by rewrite lookup_empty). done.
Qed.

Lemma rows_init : rows_inv p (rs_results (initState p)) ∅ [].
Proof.
  split; [|done|constructor| |done].
  - intros n. rewrite init_stat. case_decide; [split; eauto|]. split; [by intros [v ?]|done].
  - intros n v _. rewrite init_stat. case_decide; [intros [= <-]; by left|done].
Qed.

Lemma inv_init : inv (initState p).
Proof.
  split; try done.
  - apply rows_init.
  - simpl. pose proof concurrency_pos. lia.
  - split; [constructor|]. by intros n a ?%elem_of_nil.
Qed.

Lemma inv_exec ops st st' : inv st -> sys_exec ops st = Some st' -> inv st'.
Proof.
  revert st; induction ops as [|o ops IH]; intros st Hi; simpl; [by intros [= <-]|].
  destruct (sys_step o st) as [st1|] eqn:E; [|done]. simpl. apply IH. by eapply inv_step.
Qed.

(** ** Progress *)

Lemma holder_enabled st i s g :
  inv st -> rs_gos st !! i = Some (s, g) -> g <> GWait -> g <> GEnd ->
  exists inp, forall now, is_Some (goStep p cfg i inp now st).
Proof.
  intros Hi Hg Hw He. unfold goStep. rewrite Hg. simpl.
  destruct g; try done.
  - exists Next. eauto.
  - exists (ExecReturns None). eauto.
  - exists Next. eauto.
  - exists Next. intros _. pose proof (gsum_elem unsignalled _ _ _ _ unsignalled_nonneg Hg) as Hu.
    pose proof (gos_bound _ _ _ (iv_rows _ Hi)). destruct (iv_chan _ Hi). simpl in Hu.
    destruct (Z.ltb_spec (rs_doneCh st) (Z.of_nat (List.length (steps p)))); [eauto|lia].
  - exists Next. intros _. pose proof (gsum_elem holds _ _ _ _ holds_nonneg Hg) as Hh.
    rewrite (iv_sem _ Hi). simpl in Hh. destruct (Z.ltb_spec 0 (gsum holds (rs_gos st))); [eauto|lia].
  - exists Next. eauto.
Qed.

Lemma go_enabled st i s g :
  inv st -> rs_gos st !! i = Some (s, g) -> g <> GEnd ->
  exists j inp, forall now, is_Some (goStep p cfg j inp now st).
Proof.
  intros Hi Hg He. assert (g = GWait \/ g <> GWait) as [->|Hw] by (destruct g; auto).
  2: { exists i. by eapply holder_enabled. }
  destruct (Z.lt_ge_cases (rs_sem st) slots) as [Hlt|Hge].
  - exists i, Next. intros now. unfold goStep. rewrite Hg. simpl.
    destruct (Z.ltb_spec (rs_sem st) slots); [eauto|lia].
  - pose proof concurrency_pos. pose proof (iv_sem _ Hi).
    destruct (gsum_pos holds (rs_gos st)) as (j & s' & g' & Hj & Hpos); [lia|].
    exists j. eapply holder_enabled; [done..| |]; by intros ->.
Qed.

Definition is_move (o : op) : bool := match o with OCancel _ => false | _ => true end.
Definition returned (st : state) : option RunResult :=
  match rs_main st with MReturned rr => Some rr | _ => None end.

Lemma run_progress st :
  inv st -> is_Some (returned st) \/ exists o, is_move o = true /\ is_Some (sys_step o st).
Proof.
  intros Hi. pose proof (iv_main _ Hi) as Hm. unfold main_inv in Hm. unfold returned.
  assert (Hgo : forall i s g, rs_gos st !! i = Some (s, g) -> g <> GEnd ->
    exists o, is_move o = true /\ is_Some (sys_step o st)).
  { intros i s g Hg He. destruct (go_enabled _ _ _ _ Hi Hg He) as (j & inp & H). exists (OGo j inp 0). split; [done|apply H]. }
  destruct (rs_main st) as [| | | |rr] eqn:Em; [right..|left; eauto].
  - exists (OMain Next 0). simpl. unfold mainStep. rewrite Em. eauto.
  - destruct (Z.lt_ge_cases 0 (rs_doneCh st)).
    + exists (OMain Next 0). simpl. unfold mainStep, receiveDone. rewrite Em.
      destruct (Z.ltb_spec 0 (rs_doneCh st)); [eauto|lia].
    + destruct (gsum_pos unsignalled (rs_gos st)) as (i & s & g & Hg & Hp); [lia|].
      eapply Hgo; [done|]. by intros ->.
  - done.
  - destruct (Z.eq_dec (rs_wg st) 0) as [E|E].
    + exists (OMain Next 0). simpl. unfold mainStep. rewrite Em, E. eauto.
    + rewrite (iv_wg _ Hi) in E. pose proof (gsum_nonneg alive (rs_gos st) alive_nonneg).
      destruct (gsum_pos alive (rs_gos st)) as (i & s & g & Hg & Hp); [lia|].
      eapply Hgo; [done|]. by intros ->.
Qed.

(** ** A measure that every step decreases *)

Definition attempts : Z := Z.max 0 max_attempts.

Definition gmeasure (g : goroutine) : Z :=
  match g with
  | GWait => 2 * attempts + 9
  | GDelay r => 2 * (attempts - sr_Attempts r) + 8
  | GExec r => 2 * (attempts - sr_Attempts r) + 7
  | GFinished _ => 6
  | GSignal => 5
  | GRelease => 2
  | GExit => 1
  | GEnd => 0
  end.

Definition mmeasure (st : state) : Z :=
  match rs_main st with MLoop => 3 | MWaitDone | MSelect => 2 | MJoin => 1 | MReturned _ => 0 end.

Definition pending (m : gmap string StepResult) : list string :=
  List.filter (fun n => bool_decide (mstat m n = Some StatusPending)) (step_names p).

Definition measure (st : state) : Z :=
  (2 * attempts + 10) * (Z.of_nat (List.length (steps p)) - Z.of_nat (List.length (rs_gos st))) +
  Z.of_nat (List.length (pending (rs_results st))) + gsum gmeasure (rs_gos st) + 2 * rs_doneCh st + mmeasure st.

Lemma filter_length_sub {A} (f f' : A -> bool) l :
  (forall x, f' x = true -> f x = true) ->
  (List.length (List.filter f' l) <= List.length (List.filter f l))%nat /\
  ((exists x, x ∈ l /\ f x = true /\ f' x = false) ->
   (List.length (List.filter f' l) < List.length (List.filter f l))%nat).
Proof.
  intros H. induction l as [|y l [IH1 IH2]]; simpl.
  - split; [done|]. by intros (x & ?%elem_of_nil & _).
  - specialize (H y). destruct (f' y) eqn:E', (f y) eqn:E; simpl; try (by specialize (H eq_refl)).
    + split; [lia|]. intros (x & [->|Hx]%elem_of_cons & ? & ?); [congruence|].
      assert (List.length (List.filter f' l) < List.length (List.filter f l))%nat by eauto. lia.
    + split; [lia|]. intros _. lia.
    + split; [lia|]. intros (x & [->|Hx]%elem_of_cons & ? & ?); [congruence|]. eauto.
Qed.

Lemma pending_le m m' :
  (forall n, mstat m' n = Some StatusPending -> mstat m n = Some StatusPending) ->
  (List.length (pending m') <= List.length (pending m))%nat.
Proof. intros H. apply filter_length_sub. intros n. rewrite !bool_decide_eq_true. apply H. Qed.

Lemma pending_lt m m' n :
  (forall n, mstat m' n = Some StatusPending -> mstat m n = Some StatusPending) ->
  n ∈ step_names p -> mstat m n = Some StatusPending -> mstat m' n <> Some StatusPending ->
  (List.length (pending m') < List.length (pending m))%nat.
Proof.
  intros H Hn Hp Hp'. apply filter_length_sub; [intros n'; rewrite !bool_decide_eq_true; apply H|].
  exists n. rewrite bool_decide_eq_true, bool_decide_eq_false. done.
Qed.

Lemma gmeasure_move g g' :
  gmove g g' -> go_ok g -> go_ok g' ->
  gmeasure g' + 2 * (unsignalled g - unsignalled g') < gmeasure g.
Proof. destruct 1; simpl; unfold attempts; lia. Qed.

Lemma gmeasure_nonneg g : go_ok g -> 0 <= gmeasure g.
Proof. destruct g; simpl; unfold attempts; lia. Qed.

Lemma measure_nonneg st : inv st -> 0 <= measure st.
Proof.
  intros Hi. unfold measure. pose proof (gos_bound _ _ _ (iv_rows _ Hi)). destruct (iv_chan _ Hi).
  assert (0 <= gsum gmeasure (rs_gos st)).
  { apply gsum_nonneg_at. intros i s g Hg. eapply gmeasure_nonneg, iv_ok; eauto. }
  assert (0 <= mmeasure st) by (unfold mmeasure; destruct (rs_main st); lia).
  unfold attempts. nia.
Qed.

Lemma measure_goStep i inp now st st' :
  inv st -> goStep p cfg i inp now st = Some st' -> measure st' < measure st.
Proof.
  intros Hi Hstep.
  assert (exists s g, rs_gos st !! i = Some (s, g)) as (s & g & Hg).
  { unfold goStep in Hstep. destruct (rs_gos st !! i) as [[s g]|]; [eauto|done]. }
  pose proof (iv_ok _ Hi _ _ _ Hg) as Hok.
  destruct (goStep_effect _ _ _ _ _ _ _ Hg Hok Hstep) as (g' & He).
  pose proof (gmeasure_move _ _ (ge_move _ _ _ _ _ _ He) Hok (ge_ok _ _ _ _ _ _ He)).
  assert (Hp : (List.length (pending (rs_results st')) <= List.length (pending (rs_results st)))%nat).
  { apply pending_le. intros n. pose proof (ge_rows _ _ _ _ _ _ He) as Hr.
    destruct g; try (by injection Hr as -> _). injection Hr as -> _. rewrite mstat_insert.
    case_decide; [|done]. simpl in Hok. intros [= E]. rewrite E in Hok. by destruct Hok. }
  unfold measure, mmeasure. rewrite (ge_main _ _ _ _ _ _ He), (ge_chan _ _ _ _ _ _ He), (ge_gos _ _ _ _ _ _ He).
  rewrite (gsum_insert _ _ _ _ _ _ _ Hg), length_insert. lia.
Qed.

Lemma started_pending st n :
  mstat (rs_results (after_start st)) n = Some StatusPending -> mstat (rs_results st) n = Some StatusPending.
Proof.
  unfold after_start. rewrite foldl_start_results. simpl. case_decide.
  - by destruct (mstat (skipped st).1 n).
  - destruct (skipped_skips st n) as [->|(_ & _ & ->)]; done.
Qed.

Lemma measure_iterate st : inv st -> rs_main st = MLoop -> measure (iterate p dag st) < measure st.
Proof.
  intros Hi Em. destruct (iterate_spec st (iv_rows _ Hi)) as (x & -> & Hx).
  destruct (started_frame st) as (_ & Ed & _ & _ & Eg).
  assert (mmeasure st = 3) as Hm by (unfold mmeasure; by rewrite Em).
  pose proof (pending_le _ _ (started_pending st)) as Hp.
  unfold measure. simpl. rewrite Ed, Eg, gsum_app, gsum_waits, length_app, length_fmap, Hm.
  set (l := toStart dag (rs_results st) (rs_inFlight st)) in *. simpl (gmeasure GWait).
  assert (0 <= attempts) by (unfold attempts; lia).
  destruct Hx as [[-> [Hl|Hsk]]|[[-> _]|(-> & _)]]; simpl; unfold mmeasure; simpl; try nia.
  - assert (0 < List.length l)%nat by (destruct l; [done|simpl; lia]). nia.
  - destruct (foldl_skip_some (rs_inFlight st) (steps p) (rs_results st, false) Hsk eq_refl) as (n & Hn & Hs).
    fold (skipped st) in Hs. simpl in Hn.
    assert (List.length (pending (rs_results (after_start st))) < List.length (pending (rs_results st)))%nat; [|nia].
    apply (pending_lt _ _ n); [apply started_pending| |done|].
    + apply (ri_dom _ _ _ _ (iv_rows _ Hi)). eauto.
    + unfold after_start. rewrite foldl_start_results. simpl. rewrite Hs. by case_decide.
Qed.

Lemma measure_step o st st' :
  inv st -> sys_step o st = Some st' -> measure st' + (if is_move o then 1 else 0) <= measure st.
Proof.
  intros Hi. destruct o as [i now|g i now|e]; simpl.
  - unfold mainStep, receiveDone. pose proof (iv_main _ Hi) as Hm. unfold main_inv in Hm.
    destruct (rs_main st) as [| | | |rr] eqn:Em, i; try done.
    + intros [= <-]. pose proof (measure_iterate st Hi Em). lia.
    + destruct (_ <? _); [|done]. intros [= <-]. unfold measure, mmeasure. rewrite Em. simpl. lia.
    + destruct (_ =? _); [|done]. intros [= <-]. unfold measure, mmeasure. rewrite Em. simpl. lia.
  - intros H%measure_goStep; [lia|done].
  - intros [= <-]. unfold measure, mmeasure. simpl. lia.
Qed.

Lemma measure_exec ops st st' :
  inv st -> sys_exec ops st = Some st' -> measure st' + Z.of_nat (List.length (List.filter is_move ops)) <= measure st.
Proof.
  revert st; induction ops as [|o ops IH]; intros st Hi; simpl; [intros [= <-]; lia|].
  destruct (sys_step o st) as [st1|] eqn:E; [|done]. simpl. intros H%IH; [|by eapply inv_step].
  pose proof (measure_step _ _ _ Hi E). destruct (is_move o); simpl; lia.
Qed.

Definition move_bound : Z := Z.of_nat (List.length (steps p)) * (2 * attempts + 11) + 3.

Lemma measure_init : measure (initState p) <= move_bound.
Proof.
  unfold measure, move_bound, mmeasure. simpl.
  assert (List.length (pending (rs_results (initState p))) <= List.length (steps p))%nat as H; [|simpl in H; lia].
  rewrite <- length_steps. apply filter_length_le.
Qed.

(** C32: [Run] returns.  However the main loop and the goroutines interleave,
    whatever the executor function answers and whenever the context is cancelled,
    no more than [move_bound] steps happen, and until [Run] has returned one is
    possible, provided that [execFn] returns: there is no deadlock, no blocked
    send and no endless loop.  When [Run] has returned, every step has a result,
    and it is done, skipped or failed. *)
Theorem run_returns ops st (Hrun : sys_exec ops (initState p) = Some st) :
  Z.of_nat (List.length (List.filter is_move ops)) <= move_bound /\
  (returned st = None -> exists o, is_move o = true /\ is_Some (sys_step o st)) /\
  (forall rr, returned st = Some rr -> forall n, n ∈ step_names p ->
     exists r, rr_Steps rr !! n = Some r /\ final_status (sr_Status r)).
Proof.
  pose proof (inv_exec _ _ _ inv_init Hrun) as Hi.
  pose proof (measure_exec _ _ _ inv_init Hrun). pose proof (measure_nonneg _ Hi). pose proof measure_init.
  split_and!; [lia| |].
  - intros Hr. destruct (run_progress _ Hi) as [[rr E]|]; [congruence|done].
  - intros rr Hr n Hn. pose proof (iv_main _ Hi) as Hm. unfold main_inv, returned in *.
    destruct (rs_main st) as [| | | |rr']; try done. simplify_eq. destruct Hm as (Hf & -> & _).
    destruct (Hf n Hn) as (v & (r & Hr & <-)%mstat_Some & ?). eauto.
Qed.

(** The calls of the executor function are bounded.  At no time are more
    steps inside it than the configured concurrency; no attempt of a step is made
    twice, and none beyond the configured number of retries. *)
Theorem calls_bounded ops st (Hrun : sys_exec ops (initState p) = Some st) :
  gsum executing (rs_gos st) <= slots /\
  NoDup (rs_calls st) /\
  (forall n a, (n, a) ∈ rs_calls st -> n ∈ step_names p /\ 1 <= a <= rc_MaxRetries cfg + 1).
Proof.
  pose proof (inv_exec _ _ _ inv_init Hrun) as [Hr _ Hs Hm _ _ [Hn Hc] _].
  split_and!; [|done|].
  - etrans; [apply (gsum_le _ holds)|lia]. intros g. by destruct g.
  - intros n a H. destruct (Hc n a H) as (Ha & i & s & g & Hi & <- & _). rewrite maxAttempts_eq in Ha.
    split; [|done]. apply (ri_go _ _ _ _ Hr) in Hi as [? _]. by apply list_elem_of_fmap_2.
Qed.

(** ** Pipelines listed in dependency order *)

Definition listed_after_deps : Prop :=
  forall l1 s l2, steps p = l1 ++ s :: l2 -> forall d, d ∈ s_DependsOn s -> d ∈ s_Name <$> l1.

Definition bad_dep (m : gmap string StepResult) (s : Step) : Prop :=
  exists d v, d ∈ s_DependsOn s /\ mstat m d = Some v /\ bad_status v.

Definition skip_sound (m : gmap string StepResult) : Prop :=
  forall s, s ∈ steps p -> mstat m (s_Name s) = Some StatusSkipped -> bad_dep m s.

Record deps_inv (m : gmap string StepResult) (gos : list (Step * goroutine)) : Prop := {
  di_go i s g d : gos !! i = Some (s, g) -> d ∈ s_DependsOn s -> mstat m d = Some StatusDone;
  di_closed s d : s ∈ steps p -> d ∈ s_DependsOn s -> mstat m d = Some StatusSkipped ->
    mstat m (s_Name s) = Some StatusSkipped;
  di_sound : skip_sound m }.

Lemma step_name_inj s s' : s ∈ steps p -> s' ∈ steps p -> s_Name s = s_Name s' -> s = s'.
Proof.
  intros [i Hi]%list_elem_of_lookup [j Hj]%list_elem_of_lookup E.
  assert (i = j) as ->; [|congruence].
  apply (NoDup_lookup (step_names p) i j (s_Name s) Hnd); unfold step_names, steps in *;
    rewrite list_lookup_fmap, ?Hi, ?Hj; simpl; congruence.
Qed.

Lemma deps_publish m gos i s g g' r :
  deps_inv m gos -> gos !! i = Some (s, g) -> mstat m (s_Name s) = Some StatusRunning ->
  sr_Status r = StatusDone \/ sr_Status r = StatusFailed ->
  deps_inv (<[s_Name s := r]> m) (<[i := (s, g')]> gos).
Proof.
  intros [H1 H2 H3] Hi Hrun Hr. split.
  - intros j s' h d [[-> [= -> ->]]|[_ Hj]]%(lookup_insert_cases _ _ _ _ _ _ _ _ Hi) Hd;
      rewrite mstat_insert; case_decide as E; try (by eapply H1);
      rewrite E in Hrun; [rewrite (H1 _ _ _ _ Hi Hd) in Hrun|rewrite (H1 _ _ _ _ Hj Hd) in Hrun]; done.
  - intros s' d Hs' Hd. rewrite !mstat_insert. case_decide; [intros [= E]; rewrite E in Hr; by destruct Hr|].
    intros Hsk%(H2 s'); [|done..]. case_decide as E; [|done]. rewrite E in Hrun. congruence.
  - intros s' Hs'. rewrite mstat_insert. case_decide as E; [intros [= E']; rewrite E' in Hr; by destruct Hr|].
    intros (d & v & Hd & Hv & Hb)%H3; [|done]. exists d, v. split_and!; [done| |done].
    rewrite mstat_insert. case_decide as Ed; [|done]. rewrite Ed in Hrun. rewrite Hrun in Hv. simplify_eq.
    by destruct Hb.
Qed.

Lemma deps_goStep i inp now st st' :
  inv st -> deps_inv (rs_results st) (rs_gos st) -> goStep p cfg i inp now st = Some st' ->
  deps_inv (rs_results st') (rs_gos st').
Proof.
  intros Hi Hd Hstep.
  assert (exists s g, rs_gos st !! i = Some (s, g)) as (s & g & Hg).
  { unfold goStep in Hstep. destruct (rs_gos st !! i) as [[s g]|]; [eauto|done]. }
  pose proof (iv_ok _ Hi _ _ _ Hg) as Hok.
  destruct (goStep_effect _ _ _ _ _ _ _ Hg Hok Hstep) as (g' & He).
  rewrite (ge_gos _ _ _ _ _ _ He). pose proof (ge_rows _ _ _ _ _ _ He) as Hr.
  pose proof (ri_go _ _ _ _ (iv_rows _ Hi) _ _ _ Hg) as [_ Hst].
  assert (Hsame : rs_results st' = rs_results st -> deps_inv (rs_results st') (<[i := (s, g')]> (rs_gos st))).
  { intros ->. destruct Hd as [H1 H2 H3]. split; [|done..].
    intros j s' h d [[-> [= -> ->]]|[_ Hj]]%(lookup_insert_cases _ _ _ _ _ _ _ _ Hg); by eapply H1. }
  destruct g; try (injection Hr as Hr _; by apply Hsame).
  injection Hr as -> _. simpl in Hst, Hok. destruct Hst. eapply deps_publish; eauto.
Qed.

(** *** The skip pass *)

Lemma skips_bad fl m m' s : skips fl m m' -> bad_dep m s -> bad_dep m' s.
Proof.
  intros H (d & v & Hd & Hv & Hb). exists d, v. split_and!; [done| |done].
  destruct (H d) as [->|(Hp & _)]; [done|]. rewrite Hp in Hv. simplify_eq. by destruct Hb.
Qed.

Lemma skip_pass_sound fl l acc :
  (forall s, s ∈ l -> s ∈ steps p) -> skip_sound acc.1 -> skip_sound (foldl (skipStep fl) acc l).1.
Proof.
  revert acc; induction l as [|s l IH]; intros acc Hl Hs; simpl; [done|].
  apply IH; [intros; apply Hl; by right|]. intros s' Hs' Hsk.
  pose proof (skipStep_skips fl acc s) as Hsk'.
  destruct (skipStep_cases fl acc s) as [((_ & _ & Hf%hasFailedDep_true) & _ & Hn)|[_ E]].
  - eapply skips_bad; [done|]. rewrite Hn in Hsk. case_decide as E; [|by apply Hs].
    rewrite (step_name_inj s' s); [done|done|by apply Hl; left|done].
  - rewrite E in *. by apply Hs.
Qed.

Lemma skip_pass_closed m fl gos l1 l2 :
  listed_after_deps -> rows_inv p m fl gos -> deps_inv m gos -> steps p = l1 ++ l2 ->
  let m' := (foldl (skipStep fl) (m, false) l1).1 in
  forall s d, s ∈ l1 -> d ∈ s_DependsOn s -> mstat m' d = Some StatusSkipped ->
    mstat m' (s_Name s) = Some StatusSkipped.
Proof.
  intros Hord Hr Hdi. revert l2. induction l1 as [|s0 l1 IH] using rev_ind; intros l2 E m' s d Hs Hd Hsk;
    [by apply elem_of_nil in Hs|].
  rewrite <- app_assoc in E. specialize (IH _ E). simpl in E.
  subst m'. rewrite foldl_snoc in *. set (acc := foldl (skipStep fl) (m, false) l1) in *.
  assert (Hnew : s_Name s0 ∉ s_Name <$> l1).
  { unfold step_names in Hnd. fold (steps p) in Hnd. rewrite E, fmap_app in Hnd.
    apply NoDup_app in Hnd as (_ & Hdis & _). intros H. apply (Hdis _ H). by left. }
  assert (Hbefore : d ∈ s_Name <$> l1).
  { apply elem_of_app in Hs as [Hs| ->%list_elem_of_singleton]; [|by eapply Hord].
    apply list_elem_of_split in Hs as (k1 & k2 & ->).
    apply (Hord k1 s (k2 ++ s0 :: l2)) in Hd; [|by rewrite E, <- app_assoc]. rewrite fmap_app. set_solver. }
  assert (Hd0 : s_Name s0 <> d) by (intros <-; done).
  destruct (skipStep_cases fl acc s0) as [(_ & _ & Hn)|[Hns Eq]].
  - rewrite Hn in Hsk |- *. rewrite decide_False in Hsk by done. case_decide; [done|].
    apply elem_of_app in Hs as [Hs| ->%list_elem_of_singleton]; [|done]. by eapply IH.
  - rewrite Eq in Hsk |- *.
    apply elem_of_app in Hs as [Hs| ->%list_elem_of_singleton]; [by eapply IH|].
    assert (Hs0 : s0 ∈ steps p) by (rewrite E; set_solver).
    destruct (foldl_skips fl l1 (m, false) (s_Name s0)) as [E0|(_ & _ & E0)]; [|exact E0].
    fold acc in E0. rewrite E0. simpl in E0 |- *.
    destruct (foldl_skips fl l1 (m, false) d) as [Ed|(Ed & _)]; simpl in Ed; fold acc in Ed.
    { apply (di_closed _ _ Hdi s0 d); [done..|]. by rewrite <- Ed. }
    assert (s_Name s0 ∈ step_names p) as [v Hv]%(ri_dom _ _ _ _ Hr) by by apply list_elem_of_fmap_2.
    assert (Hno : s_Name s0 ∉ gonames gos).
    { intros (i & s' & g & Hi & En)%gonames_inv. destruct (ri_go _ _ _ _ Hr _ _ _ Hi) as [Hs' _].
      assert (s' = s0) as -> by by apply step_name_inj.
      rewrite (di_go _ _ Hdi _ _ _ _ Hi Hd) in Ed. done. }
    destruct (ri_rest _ _ _ _ Hr _ _ Hno Hv) as [->| ->]; [|done].
    destruct Hns. split_and!; [by rewrite E0|by intros ?%(ri_fl _ _ _ _ Hr)|].
    apply hasFailedDep_true. exists d, StatusSkipped. split_and!; [done..|by right].
Qed.

(** *** An iteration *)

Lemma toStart_deps_done m gos fl s d :
  deps_inv m gos -> s ∈ toStart dag m fl -> d ∈ s_DependsOn s -> mstat m d = Some StatusDone.
Proof.
  intros Hdi (Hs & _ & Ht & Hd)%elem_of_toStart Hin. destruct (Hd d Hin) as (v & Hv & [->| ->]); [done|].
  destruct Ht. apply in_terminal. exists StatusSkipped. split; [|right; by left].
  by eapply di_closed.
Qed.

Lemma deps_iterate st x :
  listed_after_deps -> inv st -> deps_inv (rs_results st) (rs_gos st) ->
  deps_inv (rs_results (setMain x (after_start st))) (rs_gos (setMain x (after_start st))).
Proof.
  intros Hord Hi Hdi. simpl. pose proof (iv_rows _ Hi) as Hr.
  destruct (started_frame st) as (_ & _ & _ & _ & Eg).
  set (fl := rs_inFlight st) in *. set (m := rs_results st) in *.
  assert (Hclosed : forall s d, s ∈ steps p -> d ∈ s_DependsOn s -> mstat (skipped st).1 d = Some StatusSkipped ->
    mstat (skipped st).1 (s_Name s) = Some StatusSkipped).
  { apply (skip_pass_closed m fl _ (steps p) [] Hord Hr Hdi). by rewrite app_nil_r. }
  assert (Hsound : skip_sound (skipped st).1) by (apply skip_pass_sound; [done|apply Hdi]).
  assert (Hdone : forall n, mstat m n = Some StatusDone -> mstat (skipped st).1 n = Some StatusDone).
  { intros n. by apply (skips_stat fl); [apply skipped_skips|..]. }
  assert (Hst : forall n, mstat (rs_results (after_start st)) n =
    if decide (n ∈ s_Name <$> toStart dag m fl) then (fun _ => StatusRunning) <$> mstat (skipped st).1 n
    else mstat (skipped st).1 n) by (intros n; apply foldl_start_results).
  assert (Hns : forall n, n ∈ s_Name <$> toStart dag m fl -> mstat (skipped st).1 n <> Some StatusSkipped).
  { intros n (s & -> & Hs)%list_elem_of_fmap Hsk. pose proof Hs as (Hin & _)%elem_of_toStart.
    destruct (Hsound s Hin Hsk) as (d & v & Hd & Hv & Hb).
    rewrite (Hdone d) in Hv by by eapply toStart_deps_done. simplify_eq. by destruct Hb. }
  assert (Hkeep : forall n, mstat m n = Some StatusDone -> mstat (rs_results (after_start st)) n = Some StatusDone).
  { intros n Hn. rewrite Hst. case_decide as E; [|by apply Hdone]. exfalso.
    apply list_elem_of_fmap in E as (s & -> & (_ & _ & Ht & _)%elem_of_toStart). apply Ht, in_terminal.
    exists StatusDone. split; [done|by left]. }
  split.
  - intros i s g d. rewrite Eg. intros [H|[-> H]]%lookup_started Hd; apply Hkeep;
      [by eapply di_go|by eapply toStart_deps_done].
  - intros s d Hs Hd. rewrite (Hst d). case_decide; [by destruct (mstat (skipped st).1 d)|]. intros Hsk.
    pose proof (Hclosed s d Hs Hd Hsk) as H'. rewrite Hst. case_decide as E; [|done]. by apply Hns in E.
  - intros s Hs. rewrite Hst. case_decide; [by destruct (mstat (skipped st).1 (s_Name s))|].
    intros (d & v & Hd & Hv & Hb)%Hsound; [|done]. exists d, v. split_and!; [done| |done].
    rewrite Hst. case_decide as E; [|done]. exfalso. pose proof (Hns d E).
    apply list_elem_of_fmap in E as (s' & -> & (_ & _ & Ht & _)%elem_of_toStart).
    destruct Hb as [->| ->]; [|done]. apply Ht, in_terminal. exists StatusFailed.
    split; [|right; by right]. by apply (skips_stat fl m _ _ _ (skipped_skips st)).
Qed.

Lemma deps_step o st st' :
  listed_after_deps -> inv st -> deps_inv (rs_results st) (rs_gos st) -> sys_step o st = Some st' ->
  deps_inv (rs_results st') (rs_gos st').
Proof.
  intros Hord Hi Hd. destruct o as [i now|g i now|e]; simpl.
  - unfold mainStep, receiveDone. destruct (rs_main st) as [| | | |rr], i; try done.
    + intros [= <-]. destruct (iterate_spec st (iv_rows _ Hi)) as (x & -> & _). by apply deps_iterate.
    + destruct (_ <? _); [|done]. by intros [= <-].
    + destruct (_ <? _); [|done]. by intros [= <-].
    + destruct (rs_ctxErr st); [|done]. by intros [= <-].
    + destruct (_ =? _); [|done]. by intros [= <-].
  - by apply deps_goStep.
  - by intros [= <-].
Qed.

Lemma deps_init : deps_inv (rs_results (initState p)) (rs_gos (initState p)).
Proof.
  assert (H : forall n, mstat (rs_results (initState p)) n <> Some StatusSkipped)
    by (intros n; rewrite init_stat; by case_decide).
  split; [done|by intros s d _ _ E%H|by intros s _ E%H].
Qed.

Lemma deps_exec ops st st' :
  listed_after_deps -> inv st -> deps_inv (rs_results st) (rs_gos st) -> sys_exec ops st = Some st' ->
  deps_inv (rs_results st') (rs_gos st').
Proof.
  intros Hord. revert st; induction ops as [|o ops IH]; intros st Hi Hd; simpl; [by intros [= <-]|].
  destruct (sys_step o st) as [st1|] eqn:E; [|done]. simpl.
  apply IH; [by eapply inv_step|by eapply deps_step].
Qed.

(** C33: In a pipeline whose steps are listed after their dependencies, a step is
    given to the executor function only after all its dependencies succeeded,
    and once [Run] has returned, a step is skipped exactly when one of its
    dependencies failed or was skipped. *)
Theorem deps_respected ops st (Hord : listed_after_deps) (Hrun : sys_exec ops (initState p) = Some st) :
  (forall s a d, s ∈ steps p -> (s_Name s, a) ∈ rs_calls st -> d ∈ s_DependsOn s ->
     mstat (rs_results st) d = Some StatusDone) /\
  (forall rr, returned st = Some rr -> forall s, s ∈ steps p ->
     mstat (rr_Steps rr) (s_Name s) = Some StatusSkipped <-> bad_dep (rr_Steps rr) s).
Proof.
  pose proof (inv_exec _ _ _ inv_init Hrun) as Hi.
  pose proof (deps_exec _ _ _ Hord inv_init deps_init Hrun) as Hd.
  pose proof (iv_rows _ Hi) as Hr. split.
  - intros s a d Hs Hc Hin. destruct (proj2 (iv_calls _ Hi) _ _ Hc) as (_ & i & s' & g & Hg & En & _).
    destruct (ri_go _ _ _ _ Hr _ _ _ Hg) as [Hs' _]. rewrite (step_name_inj s' s) in Hg by done.
    by eapply di_go.
  - intros rr Hret s Hs. pose proof (iv_main _ Hi) as Hm. unfold main_inv, returned in *.
    destruct (rs_main st); try done. simplify_eq. destruct Hm as (Hf & -> & _).
    split; [by apply Hd|]. intros (d & v & Hin & Hv & Hb).
    destruct (Hf (s_Name s)) as (w & Hw & Hfin); [by apply list_elem_of_fmap_2|].
    destruct (decide (s_Name s ∈ gonames (rs_gos st))) as [(i & s' & g & Hg & En)%gonames_inv|Hno].
    + destruct (ri_go _ _ _ _ Hr _ _ _ Hg) as [Hs' _]. rewrite (step_name_inj s' s) in Hg by done.
      rewrite (di_go _ _ Hd _ _ _ _ Hg Hin) in Hv. simplify_eq. by destruct Hb.
    + destruct (ri_rest _ _ _ _ Hr _ _ Hno Hw) as [->| ->]; [|done]. by destruct Hfin as [?|[?|?]].
Qed.

End System.

Definition run_demo (p : Pipeline) (cfg : RunnerConfig) (ops : list op) : option state :=
  match BuildDAG p with
  | Ok dag => exec p dag cfg 0 ops (initState p)
  | Err _ => None
  end.

(** ** A complete run

    Four steps in order, b and c after a, d after b and c, one slot, one retry:
    a succeeds at its second attempt, b fails, c succeeds, d is skipped. *)
Definition ordered_pipeline : Pipeline :=
  demo_pipeline [demo_step "a" []; demo_step "b" ["a"]; demo_step "c" ["a"]; demo_step "d" ["b"; "c"]].
Definition one_slot : RunnerConfig := mkRunnerConfig 1 0 1.

Definition finish (g : nat) (t : Z) : list op := [OGo g Next t; OGo g Next t; OGo g Next t; OGo g Next t].
Definition failing : input := ExecReturns (Some "exit 1"%string).

Definition ordered_ops : list op :=
  [OMain Next 1; OMain Next 2; OGo 0 Next 3; OGo 0 failing 4; OGo 0 Next 5; OGo 0 (ExecReturns None) 6] ++
  finish 0 7 ++ [OMain Next 8; OMain Next 9; OMain Next 10; OGo 1 Next 11] ++
  [OGo 1 failing 12; OGo 1 Next 13; OGo 1 failing 14] ++ finish 1 15 ++
  [OMain Next 16; OMain Next 17; OGo 2 Next 18; OGo 2 (ExecReturns None) 19; OMain Next 20] ++ finish 2 20 ++
  [OMain Next 21; OMain Next 22; OMain Next 23].

Example ordered_run :
  exists st rr, run_demo ordered_pipeline one_slot ordered_ops = Some st /\ returned st = Some rr /\
    (fun n => mstat (rr_Steps rr) n) <$> ["a"; "b"; "c"; "d"]%string =
      Some <$> [StatusDone; StatusFailed; StatusDone; StatusSkipped] /\
    rs_calls st = [("a", 1); ("a", 2); ("b", 1); ("b", 2); ("c", 1)]%string /\
    statusLabel rr = "FAILED"%string /\
    (* the result of a still names the error of its first attempt *)
    sr_ErrMsg <$> rr_Steps rr !! "a"%string = Some "exit 1"%string.
Proof. eexists _, _. split; [vm_compute; reflexivity|]. split_and!; vm_compute; reflexivity. Qed.

Definition ordered_dag : DAG :=
  match BuildDAG ordered_pipeline with Ok d => d | Err _ => mkDAG ∅ [] end.
Definition ordered_end : state :=
  default (initState ordered_pipeline) (run_demo ordered_pipeline one_slot ordered_ops).

(** The hypotheses of the theorems, at this run. *)
Lemma ordered_nodup : NoDup (step_names ordered_pipeline). Proof. compute_decide. Qed.
Lemma ordered_dag_ok : BuildDAG ordered_pipeline = Ok ordered_dag. Proof. vm_compute. reflexivity. Qed.
Lemma ordered_exec :
  exec ordered_pipeline ordered_dag one_slot 0 ordered_ops (initState ordered_pipeline) = Some ordered_end.
Proof. vm_compute. reflexivity. Qed.
Lemma one_slot_range : - 2 ^ 63 <= rc_MaxRetries one_slot < 2 ^ 63 - 2. Proof. simpl. lia. Qed.

Lemma ordered_listed : listed_after_deps ordered_pipeline.
Proof.
  intros l1 s l2 E d Hd. vm_compute in E.
  do 4 (destruct l1 as [|? l1]; simplify_eq/=; [repeat (apply elem_of_cons in Hd as [->|Hd]); set_solver|]).
  by destruct l1.
Qed.

Lemma run_returns_witness :
  Z.of_nat (List.length (List.filter is_move ordered_ops)) <= move_bound ordered_pipeline one_slot /\
  (returned ordered_end = None -> exists o, is_move o = true /\
     is_Some (step ordered_pipeline ordered_dag one_slot 0 o ordered_end)) /\
  (forall rr, returned ordered_end = Some rr -> forall n, n ∈ step_names ordered_pipeline ->
     exists r, rr_Steps rr !! n = Some r /\ final_status (sr_Status r)).
Proof.
  apply (run_returns ordered_pipeline ordered_dag one_slot 0 ordered_nodup ordered_dag_ok one_slot_range).
  exact ordered_exec.
Defined.

Lemma calls_bounded_witness :
  gsum executing (rs_gos ordered_end) <= concurrency one_slot /\
  NoDup (rs_calls ordered_end) /\
  (forall n a, (n, a) ∈ rs_calls ordered_end ->
     n ∈ step_names ordered_pipeline /\ 1 <= a <= rc_MaxRetries one_slot + 1).
Proof.
  apply (calls_bounded ordered_pipeline ordered_dag one_slot 0 ordered_nodup ordered_dag_ok one_slot_range
    ordered_ops). exact ordered_exec.
Defined.

Lemma deps_respected_witness :
  (forall s a d, s ∈ steps ordered_pipeline -> (s_Name s, a) ∈ rs_calls ordered_end -> d ∈ s_DependsOn s ->
     mstat (rs_results ordered_end) d = Some StatusDone) /\
  (forall rr, returned ordered_end = Some rr -> forall s, s ∈ steps ordered_pipeline ->
     mstat (rr_Steps rr) (s_Name s) = Some StatusSkipped <-> bad_dep (rr_Steps rr) s).
Proof.
  apply (deps_respected ordered_pipeline ordered_dag one_slot 0 ordered_nodup ordered_dag_ok one_slot_range
    ordered_ops); [exact ordered_listed|exact ordered_exec].
Defined.

(** ** A step that runs although its dependency was skipped

    The steps are listed as a, c, b with b after a and c after b.  a fails; b is
    skipped in one iteration, but c was passed before b in that iteration; the
    next one finds b among the steps that are done, so c is runnable, and c is
    started although the same iteration has just skipped it. *)
Definition unordered_pipeline : Pipeline :=
  demo_pipeline [demo_step "a" []; demo_step "c" ["b"]; demo_step "b" ["a"]].

Definition unordered_ops : list op :=
  [OMain Next 1; OGo 0 Next 2; OGo 0 (ExecReturns (Some "exit 1")) 3; OGo 0 Next 4;
   OMain Next 5; OMain Next 6; OGo 1 Next 7]%string.

Example skipped_dependency_executes :
  exists st, run_demo unordered_pipeline (mkRunnerConfig 0 0 0) unordered_ops = Some st /\
    rs_calls st = [("a", 1); ("c", 1)]%string /\
    sr_Status <$> rs_results st !! "b"%string = Some StatusSkipped /\
    sr_Status <$> rs_results st !! "c"%string = Some StatusRunning.
Proof. eexists. split; [vm_compute; reflexivity|]. split_and!; vm_compute; reflexivity. Qed.
