(* ===== verification/Prog.v ===== *)
(** * Programs that call out, and their interleavings

    Code that does its work through calls (to a repository, to a server, to a
    lock) is a tree: a node is a call, its children are the continuations for
    the possible replies.  Several such programs run as threads over a shared
    world, one call of one thread at a time.

    A [discipline] is an automaton on the calls of one program: which calls it may
    make in a phase, which replies it may count on, and the phase after a reply.
    [wp] says that a program obeys it, by recursion on the program; [good_step] lifts this to every interleaving: what each thread obeys and an
    invariant that relates the world to the phases of the threads are kept. *)

From S2P Require Import Prelude.
From stdpp Require Import options.

Inductive prog {call : Type} (reply : call -> Type) (A : Type) : Type :=
| Ret (a : A)
| Call (c : call) (k : reply c -> prog reply A).
Arguments Ret {call reply A} a.
Arguments Call {call reply A} c k.

Fixpoint prog_bind {call} {reply : call -> Type} {A B} (f : A -> prog reply B) (m : prog reply A) : prog reply B :=
  match m with
  | Ret a => f a
  | Call c k => Call c (fun r => prog_bind f (k r))
  end.

#[export] Instance prog_ret {call} {reply : call -> Type} : MRet (prog reply) := fun A a => Ret a.
#[export] Instance prog_mbind {call} {reply : call -> Type} : MBind (prog reply) := fun A B f m => prog_bind f m.

Definition perform {call} {reply : call -> Type} (c : call) : prog reply (reply c) := Call c (fun r => Ret r).

(** Go's [if err != nil { return ..., err }] after a call. *)
Definition tryOk {call} {reply : call -> Type} {E A B} (m : prog reply (res E A))
    (f : A -> prog reply (res E B)) : prog reply (res E B) :=
  r ← m; match r with Ok a => f a | Err e => Ret (Err e) end.

Notation "x ←! m ; k" := (tryOk m (fun x => k)) (at level 20, m at level 100, k at level 200, right associativity).
Notation "' pat ←! m ; k" := (tryOk m (fun x => match x with pat => k end))
  (at level 20, pat pattern, m at level 100, k at level 200, right associativity).

(** ** Disciplines *)

Record discipline {call : Type} (reply : call -> Type) : Type := mkDiscipline {
  phase : Type;
  allowed : phase -> call -> Prop;
  rely : phase -> forall c, reply c -> Prop;
  next : phase -> forall c, reply c -> phase }.
Arguments phase {call reply} _.
Arguments allowed {call reply} _ _ _.
Arguments rely {call reply} _ _ _ _.
Arguments next {call reply} _ _ _ _.

Section Wp.

Context {call : Type} {reply : call -> Type} (D : discipline reply).

Fixpoint wp {A} (s : phase D) (m : prog reply A) (Q : A -> phase D -> Prop) : Prop :=
  match m with
  | Ret a => Q a s
  | Call c k => allowed D s c /\ forall r, rely D s c r -> wp (next D s c r) (k r) Q
  end.

Lemma wp_mono {A} s (m : prog reply A) (Q Q' : A -> phase D -> Prop) :
  (forall a s', Q a s' -> Q' a s') -> wp s m Q -> wp s m Q'.
Proof.
  intros HQ. revert s; induction m as [a|c k IH]; intros s; simpl; [apply HQ|].
  intros [Ha Hk]. split; [done|]. intros r Hr. by apply IH, Hk.
Qed.

Lemma wp_bind {A B} s (m : prog reply A) (f : A -> prog reply B) (Q : B -> phase D -> Prop) :
  wp s (m ≫= f) Q <-> wp s m (fun a s' => wp s' (f a) Q).
Proof.
  revert s; induction m as [a|c k IH]; intros s; simpl; [done|].
  split; intros [Ha Hk]; (split; [done|]); intros r Hr; by apply IH, Hk.
Qed.

Lemma wp_tryOk {E A B} s (m : prog reply (res E A)) (f : A -> prog reply (res E B)) Q :
  wp s m (fun r s' => match r with Ok a => wp s' (f a) Q | Err e => Q (Err e) s' end) -> wp s (tryOk m f) Q.
Proof. intros H. apply wp_bind. eapply wp_mono; [|exact H]. by intros [a|e] s' Hs. Qed.

End Wp.

(** *** Programs all of whose calls are of one kind *)

Section Only.

Context {call : Type} {reply : call -> Type} (P : call -> Prop).

Fixpoint only {A} (m : prog reply A) : Prop :=
  match m with
  | Ret _ => True
  | Call c k => P c /\ forall r, only (k r)
  end.

Lemma only_bind {A B} (m : prog reply A) (f : A -> prog reply B) :
  only m -> (forall a, only (f a)) -> only (m ≫= f).
Proof. induction m as [a|c k IH]; simpl; intros Hm Hf; [apply Hf|]. split; [apply Hm|]. intros r. by apply IH; [apply Hm|]. Qed.

Lemma only_tryOk {E A B} (m : prog reply (res E A)) (f : A -> prog reply (res E B)) :
  only m -> (forall a, only (f a)) -> only (tryOk m f).
Proof. intros Hm Hf. apply only_bind; [done|]. intros [a|e]; [apply Hf|done]. Qed.

(** Calls that a discipline allows in a phase and that do not leave it. *)
Lemma only_wp (D : discipline reply) {A} ph (m : prog reply A) :
  (forall c, P c -> allowed D ph c /\ forall re, next D ph c re = ph) -> only m -> wp D ph m (fun _ ph' => ph' = ph).
Proof.
  intros HP. induction m as [a|c k IH]; simpl; [done|]. intros [Hc Hk]. destruct (HP c Hc) as [Ha Hn].
  split; [done|]. intros re _. rewrite Hn. apply IH, Hk.
Qed.

End Only.

Lemma only_mono {call} {reply : call -> Type} (P Q : call -> Prop) {A} (m : prog reply A) :
  (forall c, P c -> Q c) -> only P m -> only Q m.
Proof. intros HPQ. induction m as [a|c k IH]; simpl; [done|]. intros [Hc Hk]. split; [by apply HPQ|]. intros r. by apply IH. Qed.

(** The walk through a program whose calls need no argument. *)
Ltac wp_walk :=
  repeat match goal with
  | |- True => exact I
  | |- _ = _ => reflexivity
  | |- _ <> None => done
  | |- forall _, _ => intros ?
  | |- _ /\ _ => split
  | |- _ => progress simpl
  | |- context [tryOk] => unfold tryOk
  | |- context [match ?x with _ => _ end] => destruct x
  end.

(** ** Threads *)

Section Threads.

Context {call : Type} {reply : call -> Type} (W I : Type).

(** What a call of thread [tid] does: its reply, the new world, and the threads
    it starts; [None] while it is blocked. *)
Context (handle : forall c : call, nat -> I -> W -> option (reply c * W * list (prog reply unit))).

Definition thread_step (tid : nat) (i : I) (s : W * list (prog reply unit)) : option (W * list (prog reply unit)) :=
  match s.2 !! tid with
  | Some (Call c k) =>
      '(r, w, new) ← handle c tid i s.1; Some (w, <[tid := k r]> s.2 ++ new)
  | _ => None
  end.

Lemma thread_step_inv tid i s s' : thread_step tid i s = Some s' ->
  exists c k re w' new, s.2 !! tid = Some (Call c k) /\ handle c tid i s.1 = Some (re, w', new) /\
    s' = (w', <[tid := k re]> s.2 ++ new).
Proof.
  unfold thread_step. intros H. destruct (s.2 !! tid) as [[|c k]|] eqn:E; try done.
  apply bind_Some in H as ([[re w'] new] & Eh & H). simplify_eq. naive_solver.
Qed.

Context (D : discipline reply) (fin : phase D -> Prop) (Inv : W -> list (phase D) -> Prop).

Definition obeys (ph : phase D) (m : prog reply unit) : Prop := wp D ph m (fun _ ph' => fin ph').

(** Every thread obeys the discipline from a phase of its own, and the phases
    agree with the world. *)
Definition good (s : W * list (prog reply unit)) : Prop :=
  exists phs, Forall2 obeys phs s.2 /\ Inv s.1 phs.

(** A step of a thread, from an invariant to another, which may say more. *)
Lemma good_step_from (Inv' : W -> list (phase D) -> Prop) tid i s s' :
  (forall phs ph c r w' new, Inv s.1 phs -> phs !! tid = Some ph -> allowed D ph c -> handle c tid i s.1 = Some (r, w', new) ->
     rely D ph c r /\ exists phs', Forall2 obeys phs' new /\ Inv' w' (<[tid := next D ph c r]> phs ++ phs')) ->
  good s -> thread_step tid i s = Some s' -> exists phs, Forall2 obeys phs s'.2 /\ Inv' s'.1 phs.
Proof using Type.
  intros Hkeep (phs & Hf & Hi) Hs. unfold thread_step in Hs.
  destruct (s.2 !! tid) as [[|c k]|] eqn:Et; try done.
  destruct (Forall2_lookup_r _ _ _ _ _ Hf Et) as (ph & Hph & [Ha Hk]).
  destruct (handle c tid i s.1) as [[[r w'] new]|] eqn:Eh; [|done]. simplify_eq/=.
  destruct (Hkeep _ _ _ _ _ _ Hi Hph Ha Eh) as (Hr & phs' & Hn & Hi').
  exists (<[tid := next D ph c r]> phs ++ phs'). split; [|done].
  apply Forall2_app; [|done]. apply Forall2_insert; [done|]. by apply Hk.
Qed.

Context (Hkeep : forall w phs tid ph c i r w' new,
  Inv w phs -> phs !! tid = Some ph -> allowed D ph c -> handle c tid i w = Some (r, w', new) ->
  rely D ph c r /\ exists phs', Forall2 obeys phs' new /\ Inv w' (<[tid := next D ph c r]> phs ++ phs')).

Lemma good_step tid i s s' : good s -> thread_step tid i s = Some s' -> good s'.
Proof using Hkeep. apply good_step_from. intros phs ph c r w' new. by apply Hkeep. Qed.

End Threads.
