(* ===== verification/Jupyter.v ===== *)
(** * Notebook documents and kernel messages: [pkg/notebook/execution/jupyter]

    The .ipynb document ([notebook.go]), the loop that runs one cell over a
    kernel channel ([channels.go]) and the sink that bounds a cell's outputs
    ([service_run.go]).  Raw JSON values are strings; the encoder and the hash
    are parameters. *)

From S2P Require Import Prelude.
From stdpp Require Import options.
#[local] Open Scope Z_scope.

(** ** [Source] *)

Definition newline : ascii := Ascii.ascii_of_nat 10.

Abbreviation Source := (list string).

Definition Source_String (s : Source) : string := foldr String.append "" s.

(** The loop of [splitKeepingNewlines]: [line] is the text since [start]. *)
Fixpoint splitKeepingNewlines_from (line : string) (s : string) : list string :=
  match s with
  | EmptyString => if String.eqb line "" then [] else [line]
  | String c s =>
      if Ascii.eqb c newline then (line +:+ String c "")%string :: splitKeepingNewlines_from "" s
      else splitKeepingNewlines_from (line +:+ String c "")%string s
  end.
Definition splitKeepingNewlines (s : string) : list string := splitKeepingNewlines_from "" s.

Definition NewSource (code : string) : Source :=
  if String.eqb code "" then [] else splitKeepingNewlines code.

(** ** Documents *)

Record Output := mkOutput {
  o_OutputType : string;
  o_Name : string;
  o_Text : Source;
  o_Data : gmap string string;
  o_Metadata : gmap string string;
  o_ExecutionCount : option Z;
  o_Ename : string;
  o_Evalue : string;
  o_Traceback : list string }.

Record Cell := mkCell {
  c_ID : string;
  c_CellType : string;
  c_Source : Source;
  c_Metadata : gmap string string;
  c_Outputs : list Output;
  c_ExecutionCount : option Z }.

Record Notebook := mkNotebook {
  nb_NBFormat : Z;
  nb_NBFormatMinor : Z;
  nb_Metadata : gmap string string;
  nb_Cells : list Cell }.

Definition CellTypeCode : string := "code".

Definition EmptyNotebook : Notebook := mkNotebook 4 5 ∅ [].

Definition is_code (c : Cell) : bool := String.eqb (c_CellType c) CellTypeCode.

Definition nb_setCells (cells : list Cell) (n : Notebook) : Notebook :=
  mkNotebook (nb_NBFormat n) (nb_NBFormatMinor n) (nb_Metadata n) cells.

Section Hash.
(** [json.MarshalIndent] of a document, [None] for an error, and the hex digest. *)
Context (Marshal : Notebook -> option string) (SHA256Hex : string -> string).

Definition clear_id (c : Cell) : Cell :=
  mkCell "" (c_CellType c) (c_Source c) (c_Metadata c) (c_Outputs c) (c_ExecutionCount c).

Definition ContentHash (n : Notebook) : string :=
  match Marshal (nb_setCells (clear_id <$> nb_Cells n) n) with
  | Some raw => SHA256Hex raw
  | None => ""
  end.

Lemma ContentHash_ids n n' :
  nb_NBFormat n = nb_NBFormat n' -> nb_NBFormatMinor n = nb_NBFormatMinor n' -> nb_Metadata n = nb_Metadata n' ->
  clear_id <$> nb_Cells n = clear_id <$> nb_Cells n' -> ContentHash n = ContentHash n'.
Proof. intros E1 E2 E3 E4. unfold ContentHash, nb_setCells. by rewrite E1, E2, E3, E4. Qed.

End Hash.

(** [CodeCellIndexes]: the indexes of the code cells, from [i]. *)
Fixpoint codeIndexes_from (i : nat) (cells : list Cell) : list nat :=
  match cells with
  | [] => []
  | c :: cells => if is_code c then i :: codeIndexes_from (S i) cells else codeIndexes_from (S i) cells
  end.
Definition CodeCellIndexes (n : Notebook) : list nat := codeIndexes_from 0 (nb_Cells n).

Definition AppendCodeCell (id code : string) (n : Notebook) : Notebook :=
  nb_setCells (nb_Cells n ++ [mkCell id CellTypeCode (NewSource code) ∅ [] None]) n.

Definition is_cell (cellID : string) (c : Cell) : bool := (String.eqb (c_ID c) cellID && is_code c)%bool.

(** The index of the first code cell with this id. *)
Fixpoint find_cell (i : nat) (cellID : string) (cells : list Cell) : option nat :=
  match cells with
  | [] => None
  | c :: cells => if is_cell cellID c then Some i else find_cell (S i) cellID cells
  end.

Definition setSource (code : string) (c : Cell) : Cell :=
  mkCell (c_ID c) (c_CellType c) (NewSource code) (c_Metadata c) [] None.

(** [None] is the error of a cell that does not exist. *)
Definition ReplaceCellSource (cellID code : string) (n : Notebook) : option (nat * Notebook) :=
  i ← find_cell 0 cellID (nb_Cells n);
  Some (i, nb_setCells (alter (setSource code) i (nb_Cells n)) n).

(** ** The sink *)

Inductive sinkEvent : Type := OnOutput (o : Output) | OnClearOutput.

Record collectingSink := mkSink {
  cs_outputs : list Output;
  cs_bytes : Z;
  cs_limit : Z;
  cs_truncated : bool }.

Definition newSink (limit : Z) : collectingSink := mkSink [] 0 limit false.

Definition truncation_marker : Output :=
  mkOutput "stream" "stderr"
    (NewSource ("[piper] output truncated: exceeded inline_output_bytes limit" +:+ String newline "")%string)
    ∅ ∅ None "" "" [].

Section Sink.
(** The length of [json.Marshal(o)]. *)
Context (jsonLen : Output -> Z).

Definition onEvent (c : collectingSink) (ev : sinkEvent) : collectingSink :=
  match ev with
  | OnOutput o =>
      if cs_truncated c then c
      else if cs_limit c <? cs_bytes c + jsonLen o
      then mkSink (cs_outputs c ++ [truncation_marker]) (cs_bytes c) (cs_limit c) true
      else mkSink (cs_outputs c ++ [o]) (cs_bytes c + jsonLen o) (cs_limit c) false
  | OnClearOutput => mkSink [] 0 (cs_limit c) false
  end.

Definition collect (limit : Z) (evs : list sinkEvent) : collectingSink := foldl onEvent (newSink limit) evs.

Definition totalLen (l : list Output) : Z := foldr (fun o acc => jsonLen o + acc) 0 l.

(** The outputs since the last clear. *)
Definition pend (acc : list Output) (ev : sinkEvent) : list Output :=
  match ev with OnOutput o => acc ++ [o] | OnClearOutput => [] end.
Definition pending_outputs (evs : list sinkEvent) : list Output := foldl pend [] evs.

Lemma totalLen_app l1 l2 : totalLen (l1 ++ l2) = totalLen l1 + totalLen l2.
Proof. induction l1 as [|o l1 IH]; simpl; [done|]. rewrite IH. lia. Qed.

(** What a sink holds: a prefix of the outputs since the last clear that fits
    the limit, all of them, or with a marker where the next one did not fit. *)
Definition bounded (limit : Z) (all : list Output) (c : collectingSink) : Prop :=
  cs_limit c = limit /\
  exists kept rest, all = kept ++ rest /\ totalLen kept <= limit /\ cs_bytes c = totalLen kept /\
    ((cs_truncated c = false /\ rest = [] /\ cs_outputs c = kept) \/
     (cs_truncated c = true /\ cs_outputs c = kept ++ [truncation_marker] /\
      exists o, head rest = Some o /\ limit < totalLen kept + jsonLen o)).

Lemma onEvent_bounded limit all c ev :
  0 <= limit -> bounded limit all c ->
  bounded limit (pend all ev) (onEvent c ev).
Proof.
  intros Hl (El & kept & rest & -> & Hk & Hb & Hc). destruct ev as [o|]; simpl.
  2: { split; [done|]. exists [], []. split_and!; try done. by left. }
  destruct Hc as [(Ht & -> & Ho)|(Ht & Ho & o' & Hh & Hlt)]; rewrite Ht.
  - rewrite El, Hb, app_nil_r. destruct (Z.ltb_spec limit (totalLen kept + jsonLen o)); (split; [done|]).
    + exists kept, [o]. simpl. split_and!; try done. right. rewrite Ho. eauto.
    + exists (kept ++ [o]), []. simpl. rewrite totalLen_app, app_nil_r. simpl.
      split_and!; try done; try lia. left. by rewrite Ho.
  - split; [done|]. exists kept, (rest ++ [o]). rewrite app_assoc. split_and!; try done. right.
    split_and!; try done. exists o'. split; [|done]. by destruct rest.
Qed.

(** Whatever a cell prints, the outputs kept are within the limit: a
    prefix of the outputs since the last clear whose total length is at most the
    limit, followed by the truncation marker only when the next one did not fit. *)
Theorem collect_bounded limit evs : 0 <= limit -> bounded limit (pending_outputs evs) (collect limit evs).
Proof.
  intros Hl.
  assert (H : forall all c, bounded limit all c -> bounded limit (foldl pend all evs) (foldl onEvent c evs)).
  { induction evs as [|ev evs IH]; intros all c H; simpl; [done|]. apply IH. by apply onEvent_bounded. }
  apply H. split; [done|]. exists [], []. split_and!; try done. by left.
Qed.

End Sink.

(** ** Running one cell over a channel *)

Record ExecuteResult := mkExecuteResult {
  er_ExecutionCount : Z;
  er_Status : string;
  er_ErrorName : string;
  er_ErrorValue : string;
  er_Traceback : list string }.

(** The decoded content of a message. *)
Inductive content : Type :=
| CStatus (execution_state : string)
| CStream (name text : string)
| CDisplayData (data metadata : gmap string string)
| CExecuteResult (execution_count : Z) (data metadata : gmap string string)
| CError (ename evalue : string) (traceback : list string)
| CClearOutput
| CExecuteReply (status : string) (execution_count : Z) (ename evalue : string) (traceback : list string)
| COther.

Record wireMessage := mkWire { wm_Channel : string; wm_ParentID : string; wm_Content : content }.

(** What reading from the connection gives: a message, an error, or the
    observation that the context is done. *)
Inductive readEvent : Type := ReadMsg (m : wireMessage) | ReadError | ReadCtxDone.

Record pump := mkPump {
  pu_events : list sinkEvent;
  pu_result : ExecuteResult;
  pu_shellReply : bool;
  pu_idle : bool }.

Definition sink_output (o : Output) (u : pump) : pump :=
  mkPump (pu_events u ++ [OnOutput o]) (pu_result u) (pu_shellReply u) (pu_idle u).

Definition plain_output (type : string) (data metadata : gmap string string) (count : option Z) : Output :=
  mkOutput type "" [] data metadata count "" "" [].

Definition setError (ename evalue : string) (tb : list string) (r : ExecuteResult) : ExecuteResult :=
  mkExecuteResult (er_ExecutionCount r) (er_Status r) ename evalue tb.

Definition handleIOPub (c : content) (u : pump) : pump :=
  match c with
  | CStatus st => if String.eqb st "idle" then mkPump (pu_events u) (pu_result u) (pu_shellReply u) true else u
  | CStream name text => sink_output (mkOutput "stream" name (NewSource text) ∅ ∅ None "" "" []) u
  | CDisplayData d m => sink_output (plain_output "display_data" d m None) u
  | CExecuteResult n d m => sink_output (plain_output "execute_result" d m (Some n)) u
  | CError en ev tb =>
      let u := sink_output (mkOutput "error" "" [] ∅ ∅ None en ev tb) u in
      mkPump (pu_events u) (setError en ev tb (pu_result u)) (pu_shellReply u) (pu_idle u)
  | CClearOutput => mkPump (pu_events u ++ [OnClearOutput]) (pu_result u) (pu_shellReply u) (pu_idle u)
  | _ => u
  end.

Definition handleExecuteReply (c : content) (u : pump) : pump :=
  match c with
  | CExecuteReply st n en ev tb =>
      let r := mkExecuteResult n st (er_ErrorName (pu_result u)) (er_ErrorValue (pu_result u)) (er_Traceback (pu_result u)) in
      mkPump (pu_events u) (if String.eqb st "error" then setError en ev tb r else r) true (pu_idle u)
  | _ => u
  end.

Definition onMessage (msgID : string) (m : wireMessage) (u : pump) : pump :=
  if negb (String.eqb (wm_ParentID m) msgID) then u
  else if String.eqb (wm_Channel m) "iopub" then handleIOPub (wm_Content m) u
  else if String.eqb (wm_Channel m) "shell" then handleExecuteReply (wm_Content m) u
  else u.

(** The receive loop: [None] while it waits for more. *)
Fixpoint receive (msgID : string) (reads : list readEvent) (u : pump)
    : option (list sinkEvent * option ExecuteResult) :=
  if (pu_shellReply u && pu_idle u)%bool then Some (pu_events u, Some (pu_result u))
  else match reads with
  | [] => None
  | ReadMsg m :: reads => receive msgID reads (onMessage msgID m u)
  | (ReadError | ReadCtxDone) :: _ => Some (pu_events u, None)
  end.

(** [ExecuteCell] once the request is sent: the sink's events, and the result
    unless there was an error. *)
Definition ExecuteCell (msgID : string) (reads : list readEvent) : option (list sinkEvent * option ExecuteResult) :=
  receive msgID reads (mkPump [] (mkExecuteResult 0 "ok" "" "" []) false false).

(** Messages of other requests on the same kernel do not matter. *)
Definition is_mine (msgID : string) (r : readEvent) : bool :=
  match r with ReadMsg m => String.eqb (wm_ParentID m) msgID | _ => true end.

Lemma receive_ignores_others msgID reads u :
  receive msgID (List.filter (is_mine msgID) reads) u = receive msgID reads u.
Proof.
  revert u; induction reads as [|r reads IH]; intros u; simpl; [done|].
  destruct r as [m| |]; simpl; [|by destruct (_ && _)%bool..].
  unfold onMessage. destruct (String.eqb (wm_ParentID m) msgID) eqn:E; simpl.
  - destruct (_ && _)%bool; [done|]. unfold onMessage. rewrite E. simpl. apply IH.
  - rewrite IH. destruct reads; simpl; destruct (_ && _)%bool eqn:Ed; rewrite ?Ed; done.
Qed.

(** ** Lemmas on documents *)

Lemma Source_String_split_from line s :
  Source_String (splitKeepingNewlines_from line s) = (line +:+ s)%string.
Proof.
  revert line; induction s as [|c s IH]; intros line; simpl.
  - destruct (String.eqb_spec line ""); simpl; [by subst|done].
  - destruct (Ascii.eqb c newline); simpl; rewrite IH, <- ?str_app_assoc; simpl; by rewrite ?str_app_assoc.
Qed.

(** [NewSource] loses nothing: the lines concatenate to the code. *)
Lemma NewSource_roundtrip code : Source_String (NewSource code) = code.
Proof.
  unfold NewSource. destruct (String.eqb_spec code "") as [->|]; [done|]. apply Source_String_split_from.
Qed.

Lemma codeIndexes_from_spec k cells i :
  i ∈ codeIndexes_from k cells <-> exists c, (k <= i)%nat /\ cells !! (i - k)%nat = Some c /\ is_code c = true.
Proof.
  revert k; induction cells as [|c cells IH]; intros k; simpl.
  - split; [by intros ?%elem_of_nil|by intros (c & _ & ? & _)].
  - assert (Hr : i ∈ codeIndexes_from (S k) cells <->
        exists c0, (S k <= i)%nat /\ (c :: cells) !! (i - k)%nat = Some c0 /\ is_code c0 = true).
    { rewrite IH. apply exist_proper. intros c0. split; intros (Hk & H & Hc); (split; [lia|]); (split; [|done]).
      - by replace (i - k)%nat with (S (i - S k)) by lia.
      - by replace (i - k)%nat with (S (i - S k)) in H by lia. }
    destruct (is_code c) eqn:Ec; rewrite ?elem_of_cons, Hr.
    + split; [intros [->|(c0 & ? & ? & ?)]|intros (c0 & Hk & H & Hc)].
      * exists c. rewrite Nat.sub_diag. auto.
      * exists c0. split; [lia|done].
      * destruct (decide (i = k)) as [->|]; [by left|right]. exists c0. split; [lia|done].
    + split; intros (c0 & Hk & H & Hc); exists c0; (split; [|done]).
      * lia.
      * destruct (decide (i = k)) as [->|]; [|lia]. rewrite Nat.sub_diag in H. simpl in H. congruence.
Qed.

Lemma CodeCellIndexes_spec n i :
  i ∈ CodeCellIndexes n <-> exists c, nb_Cells n !! i = Some c /\ is_code c = true.
Proof.
  unfold CodeCellIndexes. rewrite codeIndexes_from_spec. rewrite Nat.sub_0_r.
  split; intros (c & H); exists c; [by destruct H|split; [lia|done]].
Qed.

Lemma codeIndexes_app k l c :
  is_code c = true -> last (codeIndexes_from k (l ++ [c])) = Some (k + List.length l)%nat.
Proof.
  intros Hc. revert k; induction l as [|c' l IH]; intros k; simpl; [rewrite Hc; by rewrite Nat.add_0_r|].
  destruct (is_code c'); [rewrite last_cons|]; rewrite IH; f_equal; lia.
Qed.

(** After an append the last code cell is the new one. *)
Lemma AppendCodeCell_last id code n :
  last (CodeCellIndexes (AppendCodeCell id code n)) = Some (List.length (nb_Cells n)).
Proof. unfold CodeCellIndexes, AppendCodeCell. simpl. by rewrite codeIndexes_app. Qed.
