(* ===== verification/ExecutionModel.v ===== *)
(** * Notebook executions: records, limits and calls

    The data of [pkg/notebook/execution]: statuses and their transitions, errors
    and records ([model.go], [errors.go], [gateway.go]), the limits
    ([scheduler.go]), and the calls through which the service reaches the
    repository, the notebook server, the locks, the contexts and the clock. *)

From S2P Require Import Prelude Prog Jupyter.
From stdpp Require Import options.
#[local] Open Scope Z_scope.

(** ** Statuses *)

Definition KernelStatusIdle : string := "idle".
Definition KernelStatusBusy : string := "busy".
Definition KernelStatusClosed : string := "closed".
Definition KernelStatusFailed : string := "failed".

Definition KindNotebook : string := "notebook".
Definition KindCell : string := "cell".
Definition CellEditAppend : string := "append".
Definition CellEditReplace : string := "replace".

Definition StatusAwaitingApproval : string := "awaiting_approval".
Definition StatusQueued : string := "queued".
Definition StatusRunning : string := "running".
Definition StatusSucceeded : string := "succeeded".
Definition StatusConflicted : string := "conflicted".
Definition StatusFailed : string := "failed".
Definition StatusTimedOut : string := "timed_out".
Definition StatusCancelling : string := "cancelling".
Definition StatusCancelled : string := "cancelled".

Definition executionTransitions : gmap string (list string) :=
  list_to_map
    [(StatusAwaitingApproval, [StatusQueued; StatusCancelled]);
     (StatusQueued, [StatusRunning; StatusCancelled]);
     (StatusRunning, [StatusSucceeded; StatusConflicted; StatusFailed; StatusTimedOut; StatusCancelling; StatusCancelled]);
     (StatusCancelling, [StatusCancelled; StatusFailed])].

Definition CanTransitionExecution (from to : string) : bool :=
  match executionTransitions !! from with
  | Some next => existsb (String.eqb to) next
  | None => false
  end.

Definition IsTerminalExecutionStatus (status : string) : bool :=
  existsb (String.eqb status) [StatusSucceeded; StatusConflicted; StatusFailed; StatusTimedOut; StatusCancelled].

Definition ActiveExecutionStatuses : list string := [StatusQueued; StatusRunning; StatusCancelling].

(** ** Errors *)

Definition ErrCodeNotebookNotRunning : string := "notebook_not_running".
Definition ErrCodeKernelUnavailable : string := "kernel_unavailable".
Definition ErrCodeKernelDied : string := "kernel_died".
Definition ErrCodeExecutionTimeout : string := "execution_timeout".
Definition ErrCodeExecutionCancelled : string := "execution_cancelled".
Definition ErrCodeContentConflict : string := "content_conflict".
Definition ErrCodePathInvalid : string := "path_invalid".
Definition ErrCodeOutputTooLarge : string := "output_too_large".
Definition ErrCodeApprovalRequired : string := "approval_required".
Definition ErrCodeApprovalDenied : string := "approval_denied".
Definition ErrCodeRuntimeUnavailable : string := "runtime_unavailable".
Definition ErrCodeRecoveryUncertain : string := "recovery_uncertain".

Definition MaxIdempotencyKeyLen : Z := 128.

(** [ErrNotFound], [ErrConflict] and [ErrForbidden], a structured [*Error], or
    any other error. *)
Inductive execErr : Type :=
| XNotFound | XConflict | XForbidden
| XError (Code : string) (Retryable : bool) (Message : string)
| XOther (msg : string).

Definition errMessage (e : execErr) : string :=
  match e with
  | XNotFound => "execution resource not found"
  | XConflict => "execution resource conflict"
  | XForbidden => "execution: forbidden"
  | XError _ _ m => m
  | XOther m => m
  end.

Definition isCode (e : execErr) (code : string) : bool :=
  match e with XError c _ _ => String.eqb c code | _ => false end.

Definition ErrLimitExceeded : execErr := XError ErrCodeRuntimeUnavailable true "concurrency limit exceeded".

(** [mapGatewayErr]: [None] when the error has no HTTP status. *)
Definition mapGatewayErr (op : string) (status : option Z) : execErr :=
  match status with
  | None => XError ErrCodeRuntimeUnavailable true (op +:+ ": jupyter server unreachable")%string
  | Some st =>
      if st =? 404 then XError ErrCodePathInvalid false (op +:+ ": not found")%string
      else if st =? 409 then XError ErrCodeContentConflict false (op +:+ ": conflict")%string
      else if ((st =? 401) || (st =? 403))%bool then XError ErrCodeRuntimeUnavailable false (op +:+ ": unauthorized")%string
      else XError ErrCodeRuntimeUnavailable true (op +:+ ": jupyter server error")%string
  end.

(** ** Records *)

Record KernelSession := mkKernel {
  ks_ID : string;
  ks_ProjectID : string;
  ks_NotebookName : string;
  ks_NotebookPath : string;
  ks_JupyterSessionID : string;
  ks_KernelID : string;
  ks_KernelName : string;
  ks_Status : string;
  ks_CreatedBy : string;
  ks_ClientID : string;
  ks_LastActivityAt : Z;
  ks_CreatedAt : Z;
  ks_ClosedAt : option Z }.

Definition ks_touch (now : Z) (e : KernelSession) : KernelSession :=
  mkKernel (ks_ID e) (ks_ProjectID e) (ks_NotebookName e) (ks_NotebookPath e) (ks_JupyterSessionID
    e) (ks_KernelID e) (ks_KernelName e) (ks_Status e) (ks_CreatedBy e) (ks_ClientID e) now
    (ks_CreatedAt e) (ks_ClosedAt e).
Definition ks_setStatus (st : string) (now : Z) (e : KernelSession) : KernelSession :=
  mkKernel (ks_ID e) (ks_ProjectID e) (ks_NotebookName e) (ks_NotebookPath e) (ks_JupyterSessionID
    e) (ks_KernelID e) (ks_KernelName e) st (ks_CreatedBy e) (ks_ClientID e) now (ks_CreatedAt e)
    (ks_ClosedAt e).
Definition ks_close (st : string) (now : Z) (at_ : option Z) (e : KernelSession) : KernelSession :=
  mkKernel (ks_ID e) (ks_ProjectID e) (ks_NotebookName e) (ks_NotebookPath e) (ks_JupyterSessionID
    e) (ks_KernelID e) (ks_KernelName e) st (ks_CreatedBy e) (ks_ClientID e) now (ks_CreatedAt e)
    at_.

(** [SET] of [UpdateKernelSession]. *)
Definition updateKernelRow (e row : KernelSession) : KernelSession :=
  mkKernel (ks_ID row) (ks_ProjectID row) (ks_NotebookName row) (ks_NotebookPath row)
    (ks_JupyterSessionID e) (ks_KernelID e) (ks_KernelName e) (ks_Status e) (ks_CreatedBy row)
    (ks_ClientID row) (ks_LastActivityAt e) (ks_CreatedAt row) (ks_ClosedAt e).

Record NotebookExecution := mkExec {
  ex_ID : string;
  ex_ProjectID : string;
  ex_NotebookName : string;
  ex_NotebookPath : string;
  ex_ResultPath : string;
  ex_KernelSessionID : string;
  ex_Kind : string;
  ex_Status : string;
  ex_RequestedBy : string;
  ex_ClientID : string;
  ex_IdempotencyKey : string;
  ex_RequestHash : string;
  ex_SourceSHA256 : string;
  ex_BaseContentHash : string;
  ex_CurrentCell : Z;
  ex_TotalCells : Z;
  ex_ErrorCode : string;
  ex_ErrorMessage : string;
  ex_OutputSummary : string;
  ex_ApprovedBy : string;
  ex_ApprovedAt : option Z;
  ex_DeniedBy : string;
  ex_DeniedAt : option Z;
  ex_QueuedAt : Z;
  ex_StartedAt : option Z;
  ex_FinishedAt : option Z;
  ex_UpdatedAt : Z }.

Definition ex_setStatus (st : string) (now : Z) (e : NotebookExecution) : NotebookExecution :=
  mkExec (ex_ID e) (ex_ProjectID e) (ex_NotebookName e) (ex_NotebookPath e) (ex_ResultPath e)
    (ex_KernelSessionID e) (ex_Kind e) st (ex_RequestedBy e) (ex_ClientID e) (ex_IdempotencyKey e)
    (ex_RequestHash e) (ex_SourceSHA256 e) (ex_BaseContentHash e) (ex_CurrentCell e) (ex_TotalCells
    e) (ex_ErrorCode e) (ex_ErrorMessage e) (ex_OutputSummary e) (ex_ApprovedBy e) (ex_ApprovedAt e)
    (ex_DeniedBy e) (ex_DeniedAt e) (ex_QueuedAt e) (ex_StartedAt e) (ex_FinishedAt e) now.
Definition ex_start (st : string) (at_ : option Z) (now : Z) (e : NotebookExecution) : NotebookExecution :=
  mkExec (ex_ID e) (ex_ProjectID e) (ex_NotebookName e) (ex_NotebookPath e) (ex_ResultPath e)
    (ex_KernelSessionID e) (ex_Kind e) st (ex_RequestedBy e) (ex_ClientID e) (ex_IdempotencyKey e)
    (ex_RequestHash e) (ex_SourceSHA256 e) (ex_BaseContentHash e) (ex_CurrentCell e) (ex_TotalCells
    e) (ex_ErrorCode e) (ex_ErrorMessage e) (ex_OutputSummary e) (ex_ApprovedBy e) (ex_ApprovedAt e)
    (ex_DeniedBy e) (ex_DeniedAt e) (ex_QueuedAt e) at_ (ex_FinishedAt e) now.
Definition ex_setKernel (id_ : string) (e : NotebookExecution) : NotebookExecution :=
  mkExec (ex_ID e) (ex_ProjectID e) (ex_NotebookName e) (ex_NotebookPath e) (ex_ResultPath e) id_
    (ex_Kind e) (ex_Status e) (ex_RequestedBy e) (ex_ClientID e) (ex_IdempotencyKey e)
    (ex_RequestHash e) (ex_SourceSHA256 e) (ex_BaseContentHash e) (ex_CurrentCell e) (ex_TotalCells
    e) (ex_ErrorCode e) (ex_ErrorMessage e) (ex_OutputSummary e) (ex_ApprovedBy e) (ex_ApprovedAt e)
    (ex_DeniedBy e) (ex_DeniedAt e) (ex_QueuedAt e) (ex_StartedAt e) (ex_FinishedAt e) (ex_UpdatedAt
    e).
Definition ex_setHashes (src : string) (base : string) (e : NotebookExecution) : NotebookExecution :=
  mkExec (ex_ID e) (ex_ProjectID e) (ex_NotebookName e) (ex_NotebookPath e) (ex_ResultPath e)
    (ex_KernelSessionID e) (ex_Kind e) (ex_Status e) (ex_RequestedBy e) (ex_ClientID e)
    (ex_IdempotencyKey e) (ex_RequestHash e) src base (ex_CurrentCell e) (ex_TotalCells e)
    (ex_ErrorCode e) (ex_ErrorMessage e) (ex_OutputSummary e) (ex_ApprovedBy e) (ex_ApprovedAt e)
    (ex_DeniedBy e) (ex_DeniedAt e) (ex_QueuedAt e) (ex_StartedAt e) (ex_FinishedAt e) (ex_UpdatedAt
    e).
Definition ex_setCells (cur : Z) (total : Z) (e : NotebookExecution) : NotebookExecution :=
  mkExec (ex_ID e) (ex_ProjectID e) (ex_NotebookName e) (ex_NotebookPath e) (ex_ResultPath e)
    (ex_KernelSessionID e) (ex_Kind e) (ex_Status e) (ex_RequestedBy e) (ex_ClientID e)
    (ex_IdempotencyKey e) (ex_RequestHash e) (ex_SourceSHA256 e) (ex_BaseContentHash e) cur total
    (ex_ErrorCode e) (ex_ErrorMessage e) (ex_OutputSummary e) (ex_ApprovedBy e) (ex_ApprovedAt e)
    (ex_DeniedBy e) (ex_DeniedAt e) (ex_QueuedAt e) (ex_StartedAt e) (ex_FinishedAt e) (ex_UpdatedAt
    e).
Definition ex_setUpdatedAt (now : Z) (e : NotebookExecution) : NotebookExecution :=
  mkExec (ex_ID e) (ex_ProjectID e) (ex_NotebookName e) (ex_NotebookPath e) (ex_ResultPath e)
    (ex_KernelSessionID e) (ex_Kind e) (ex_Status e) (ex_RequestedBy e) (ex_ClientID e)
    (ex_IdempotencyKey e) (ex_RequestHash e) (ex_SourceSHA256 e) (ex_BaseContentHash e)
    (ex_CurrentCell e) (ex_TotalCells e) (ex_ErrorCode e) (ex_ErrorMessage e) (ex_OutputSummary e)
    (ex_ApprovedBy e) (ex_ApprovedAt e) (ex_DeniedBy e) (ex_DeniedAt e) (ex_QueuedAt e)
    (ex_StartedAt e) (ex_FinishedAt e) now.
Definition ex_setMessage (msg : string) (e : NotebookExecution) : NotebookExecution :=
  mkExec (ex_ID e) (ex_ProjectID e) (ex_NotebookName e) (ex_NotebookPath e) (ex_ResultPath e)
    (ex_KernelSessionID e) (ex_Kind e) (ex_Status e) (ex_RequestedBy e) (ex_ClientID e)
    (ex_IdempotencyKey e) (ex_RequestHash e) (ex_SourceSHA256 e) (ex_BaseContentHash e)
    (ex_CurrentCell e) (ex_TotalCells e) (ex_ErrorCode e) msg (ex_OutputSummary e) (ex_ApprovedBy e)
    (ex_ApprovedAt e) (ex_DeniedBy e) (ex_DeniedAt e) (ex_QueuedAt e) (ex_StartedAt e)
    (ex_FinishedAt e) (ex_UpdatedAt e).
Definition ex_finish (st : string) (code : string) (msg : string) (at_ : option Z) (now : Z) (e : NotebookExecution) : NotebookExecution :=
  mkExec (ex_ID e) (ex_ProjectID e) (ex_NotebookName e) (ex_NotebookPath e) (ex_ResultPath e)
    (ex_KernelSessionID e) (ex_Kind e) st (ex_RequestedBy e) (ex_ClientID e) (ex_IdempotencyKey e)
    (ex_RequestHash e) (ex_SourceSHA256 e) (ex_BaseContentHash e) (ex_CurrentCell e) (ex_TotalCells
    e) code msg (ex_OutputSummary e) (ex_ApprovedBy e) (ex_ApprovedAt e) (ex_DeniedBy e)
    (ex_DeniedAt e) (ex_QueuedAt e) (ex_StartedAt e) at_ now.
Definition ex_approve (st : string) (who : string) (at_ : option Z) (now : Z) (e : NotebookExecution) : NotebookExecution :=
  mkExec (ex_ID e) (ex_ProjectID e) (ex_NotebookName e) (ex_NotebookPath e) (ex_ResultPath e)
    (ex_KernelSessionID e) (ex_Kind e) st (ex_RequestedBy e) (ex_ClientID e) (ex_IdempotencyKey e)
    (ex_RequestHash e) (ex_SourceSHA256 e) (ex_BaseContentHash e) (ex_CurrentCell e) (ex_TotalCells
    e) (ex_ErrorCode e) (ex_ErrorMessage e) (ex_OutputSummary e) who at_ (ex_DeniedBy e)
    (ex_DeniedAt e) (ex_QueuedAt e) (ex_StartedAt e) (ex_FinishedAt e) now.
Definition ex_deny (st : string) (code : string) (who : string) (at_ : option Z) (fin : option Z) (now : Z) (e : NotebookExecution) : NotebookExecution :=
  mkExec (ex_ID e) (ex_ProjectID e) (ex_NotebookName e) (ex_NotebookPath e) (ex_ResultPath e)
    (ex_KernelSessionID e) (ex_Kind e) st (ex_RequestedBy e) (ex_ClientID e) (ex_IdempotencyKey e)
    (ex_RequestHash e) (ex_SourceSHA256 e) (ex_BaseContentHash e) (ex_CurrentCell e) (ex_TotalCells
    e) code (ex_ErrorMessage e) (ex_OutputSummary e) (ex_ApprovedBy e) (ex_ApprovedAt e) who at_
    (ex_QueuedAt e) (ex_StartedAt e) fin now.

(** [SET] of [UpdateExecution]: the other columns of the row stay. *)
Definition updateRow (e row : NotebookExecution) : NotebookExecution :=
  mkExec (ex_ID row) (ex_ProjectID row) (ex_NotebookName row) (ex_NotebookPath row) (ex_ResultPath
    row) (ex_KernelSessionID e) (ex_Kind row) (ex_Status e) (ex_RequestedBy row) (ex_ClientID row)
    (ex_IdempotencyKey row) (ex_RequestHash row) (ex_SourceSHA256 row) (ex_BaseContentHash row)
    (ex_CurrentCell e) (ex_TotalCells e) (ex_ErrorCode e) (ex_ErrorMessage e) (ex_OutputSummary e)
    (ex_ApprovedBy e) (ex_ApprovedAt e) (ex_DeniedBy e) (ex_DeniedAt e) (ex_QueuedAt row)
    (ex_StartedAt e) (ex_FinishedAt e) (ex_UpdatedAt e).

(** The columns of a notebook server that this package reads. *)
Record NotebookServer := mkServer { sv_ProjectID : string; sv_Name : string; sv_Status : string }.
Definition serverRunning : string := "running".

(** Roles are ordered: viewer 1, member 2, admin 3. *)
Definition ProjectRoleAdmin : Z := 3.

Record Actor := mkActor { ac_ID : string; ac_Role : Z; ac_ClientID : string }.

Record CellEdit := mkCellEdit { ce_Mode : string; ce_Code : string; ce_CellID : string }.

Record CreateExecutionRequest := mkCreateReq {
  cr_Kind : string; cr_Path : string; cr_KernelSessionID : string; cr_Edit : option CellEdit;
  cr_CreateIfMissing : bool; cr_TimeoutSeconds : Z }.

(** ** Limits: [scheduler.go] *)

Record Limits := mkLimits {
  li_MaxRunningPerNotebook : Z;
  li_MaxKernelsPerNotebook : Z;
  li_MaxQueuedPerProject : Z;
  li_KernelIdleTTL : Z;
  li_CellTimeout : Z;
  li_ExecutionTimeout : Z;
  li_InlineOutputBytes : Z;
  li_FileReadBytes : Z }.

Definition DefaultLimits : Limits :=
  mkLimits 1 2 20 (30 * time_Minute) (5 * time_Minute) (60 * time_Minute) 65536 1048576.

Definition orPositive (v d : Z) : Z := if v <=? 0 then d else v.

Definition normalize (l : Limits) : Limits :=
  let d := DefaultLimits in
  mkLimits (orPositive (li_MaxRunningPerNotebook l) (li_MaxRunningPerNotebook d))
    (orPositive (li_MaxKernelsPerNotebook l) (li_MaxKernelsPerNotebook d))
    (orPositive (li_MaxQueuedPerProject l) (li_MaxQueuedPerProject d))
    (orPositive (li_KernelIdleTTL l) (li_KernelIdleTTL d))
    (orPositive (li_CellTimeout l) (li_CellTimeout d))
    (orPositive (li_ExecutionTimeout l) (li_ExecutionTimeout d))
    (orPositive (li_InlineOutputBytes l) (li_InlineOutputBytes d))
    (orPositive (li_FileReadBytes l) (li_FileReadBytes d)).

Definition PolicyDisabled : string := "disabled".
Definition PolicyApprovalRequired : string := "approval_required".
Definition PolicyAllowed : string := "allowed".

Definition ValidateConfig (mcpPolicy : string) (l : Limits) : res string unit :=
  check (negb (existsb (String.eqb mcpPolicy) [""; PolicyDisabled; PolicyApprovalRequired; PolicyAllowed]%string))
    "notebook_execution.mcp_policy must be disabled, approval_required, or allowed" ;;
  check ((li_MaxRunningPerNotebook l <? 0) || (li_MaxKernelsPerNotebook l <? 0) || (li_MaxQueuedPerProject l <? 0))%bool
    "notebook_execution concurrency limits must not be negative" ;;
  check ((li_KernelIdleTTL l <? 0) || (li_CellTimeout l <? 0) || (li_ExecutionTimeout l <? 0))%bool
    "notebook_execution durations must not be negative" ;;
  check ((li_InlineOutputBytes l <? 0) || (li_FileReadBytes l <? 0))%bool
    "notebook_execution byte limits must not be negative".

Definition notebookKey (projectID notebookName : string) : string := (projectID +:+ "/" +:+ notebookName)%string.

(** The interval of the idle-kernel reaper. *)
Definition reapInterval (ttl : Z) : Z :=
  let interval := Z.quot ttl 2 in
  let interval := if time_Minute <? interval then time_Minute else interval in
  if interval <? time_Second then time_Second else interval.

(** ** Calls *)

(** What [execFields] and the kernel events carry. *)
Inductive payload : Type :=
| PExec (execution_id notebook kind status : string) (current_cell total_cells : Z) (error_code : string)
| PKernel (kernel_session_id notebook reason : string).

Definition execFields (e : NotebookExecution) : payload :=
  PExec (ex_ID e) (ex_NotebookName e) (ex_Kind e) (ex_Status e) (ex_CurrentCell e) (ex_TotalCells e) (ex_ErrorCode e).

Inductive xcall : Type :=
(* the repository *)
| CGetPolicy (projectID : string)
| CSetPolicy (projectID policy updatedBy : string)
| CGetExecution (projectID id_ : string)
| CFindByKey (projectID notebookName requestedBy key : string)
| CCreateExecution (e : NotebookExecution)
| CUpdateExecution (e : NotebookExecution)
| CCountQueued (projectID : string)
| CListByStatus (statuses : list string)
| CGetKernel (projectID id_ : string)
| CCreateKernel (k : KernelSession)
| CUpdateKernel (k : KernelSession)
| CCountOpenKernels (projectID notebookName : string)
| CListStale (cutoff : Z)
(* notebook.Repository and the notebook server *)
| CGetServer (projectID notebookName : string)
| CReadNotebook (server : NotebookServer) (path : string)
| CSaveNotebook (server : NotebookServer) (path : string) (doc : Notebook)
| CCreateSession (server : NotebookServer) (path kernelName : string)
| CDeleteSession (server : NotebookServer) (jupyterSessionID : string)
| CInterrupt (server : NotebookServer) (kernelID : string)
| CRestart (server : NotebookServer) (kernelID : string)
| COpenChannel (server : NotebookServer) (kernelID sessionID : string)
| CCloseChannel
| CExecuteCell (code : string)
(* the in-memory scheduler *)
| CAcquireSlot (ctx : nat) (projectID notebookName : string)
| CReleaseSlot (projectID notebookName : string)
| CKernelLock (kernelSessionID : string)
| CLock (ctx : nat) (mutex : nat)
| CUnlock (mutex : nat)
| CReleaseKernel (kernelSessionID : string)
(* contexts and goroutines *)
| CWithTimeout (ctx : nat)
| CCtxErr (ctx : nat)
| CRunCtxErr (ctx : nat)
| CCancelInflight (id_ : string)
| CDispatch (e : NotebookExecution)
| CInflightDelete (id_ : string)
(* the rest *)
| CPublish (projectID eventType : string) (fields : payload)
| CNow
| CNewID
| CProgressDue.

Definition xreply (c : xcall) : Type :=
  match c with
  | CGetPolicy _ => res execErr string
  | CGetExecution _ _ | CFindByKey _ _ _ _ => res execErr (option NotebookExecution)
  | CSetPolicy _ _ _ | CCreateExecution _ | CUpdateExecution _ | CCreateKernel _ | CUpdateKernel _ => res execErr unit
  | CCountQueued _ | CCountOpenKernels _ _ => res execErr Z
  | CListByStatus _ => res execErr (list NotebookExecution)
  | CGetKernel _ _ => res execErr (option KernelSession)
  | CListStale _ => res execErr (list KernelSession)
  | CGetServer _ _ => res execErr (option NotebookServer)
  | CReadNotebook _ _ => res execErr (Notebook * string)
  | CSaveNotebook _ _ _ | CDeleteSession _ _ | CInterrupt _ _ | CRestart _ _ | COpenChannel _ _ _ => res execErr unit
  | CCreateSession _ _ _ => res execErr (string * string * string)
  | CExecuteCell _ => (list sinkEvent * option ExecuteResult * bool)%type
  | CAcquireSlot _ _ _ | CLock _ _ | CCtxErr _ | CRunCtxErr _ | CProgressDue => bool
  | CKernelLock _ => nat
  | CNow => Z
  | CNewID => string
  | _ => unit
  end.

Abbreviation X := (prog xreply).

Definition invoke (c : xcall) : X (xreply c) := perform c.
Definition now : X Z := invoke CNow.
