(* ===== verification/ExecutionService.v ===== *)
(** * Notebook executions: the service

    The handlers of [service.go] and [service_contents.go], the background run of
    an execution ([service_run.go]), admission ([scheduler.go]) and recovery
    ([recovery.go]), as programs over the calls of [ExecutionModel]. *)

From S2P Require Import Prelude Prog Jupyter ExecutionModel.
From stdpp Require Import options.
#[local] Open Scope Z_scope.

(** ** Handlers: [service.go] *)

Section Service.

(** [SHA256Hex], [json.Marshal] of the canonical request, the JSON length of an
    output and the size of a document, from the standard library. *)
Context (SHA256Hex : string -> string) (canonJSON : CreateExecutionRequest -> string).
Context (jsonLen : Output -> Z) (docSize : Notebook -> option Z).
Context (limits : Limits) (PolicyDefault : string).

Definition publish (projectID eventType : string) (fields : payload) : X unit :=
  invoke (CPublish projectID eventType fields).

Definition checkOwnership (actor : Actor) (ownerID : string) : res execErr unit :=
  if ProjectRoleAdmin <=? ac_Role actor then Ok tt
  else if (negb (String.eqb ownerID "") && String.eqb (ac_ID actor) ownerID)%bool then Ok tt
  else Err XForbidden.

Definition resolvePolicy (projectID : string) : X (res execErr string) :=
  r ← invoke (CGetPolicy projectID);
  Ret (match r with
       | Err e => Err (XOther ("execution: resolve policy: " +:+ errMessage e)%string)
       | Ok p => Ok (if String.eqb p "" then PolicyDefault else p)
       end).

Definition SetPolicy (actor : Actor) (projectID policy : string) : X (res execErr unit) :=
  if existsb (String.eqb policy) [PolicyDisabled; PolicyApprovalRequired; PolicyAllowed]
  then invoke (CSetPolicy projectID policy (ac_ID actor))
  else Ret (Err (XError ErrCodePathInvalid false "mcp_policy must be disabled, approval_required, or allowed")).

Definition CleanWorkspacePath (p : string) : res string string :=
  let raw := str_replace backslash slash (TrimSpace p) in
  if String.prefix "/" raw then Err "notebook: workspace path must be relative"%string
  else
    let clean := path_Clean raw in
    if String.eqb clean "." then Ok ""%string
    else if (String.eqb clean ".." || String.prefix "../" clean)%bool
    then Err "notebook: workspace path escapes volume"%string
    else Ok clean.

Definition hasSuffix (suffix s : string) : bool :=
  String.eqb (str_drop (String.length s - String.length suffix) s) suffix.

Definition validateNotebookPath (p : string) : res execErr string :=
  match CleanWorkspacePath p with
  | Err e => Err (XError ErrCodePathInvalid false ("invalid path: " +:+ e)%string)
  | Ok clean =>
      if (String.eqb clean "" || negb (hasSuffix ".ipynb" clean))%bool
      then Err (XError ErrCodePathInvalid false "path must be a non-empty .ipynb path")
      else Ok clean
  end.

Definition getRunningServer (projectID notebookName : string) : X (res execErr NotebookServer) :=
  r ← invoke (CGetServer projectID notebookName);
  Ret (match r with
       | Err e => Err (XOther ("execution: get notebook server: " +:+ errMessage e)%string)
       | Ok None => Err XNotFound
       | Ok (Some server) =>
           if String.eqb (sv_Status server) serverRunning then Ok server
           else Err (XError ErrCodeNotebookNotRunning false ("notebook server " +:+ Quote notebookName +:+ " is not running")%string)
       end).

(** *** Kernel sessions *)

Definition checkKernelAdmission (projectID notebookName : string) : X (res execErr unit) :=
  r ← invoke (CCountOpenKernels projectID notebookName);
  Ret (match r with
       | Err e => Err (XOther ("execution: check kernel admission: " +:+ errMessage e)%string)
       | Ok n => if li_MaxKernelsPerNotebook limits <=? n then Err ErrLimitExceeded else Ok tt
       end).

Definition checkQueueAdmission (projectID : string) : X (res execErr unit) :=
  r ← invoke (CCountQueued projectID);
  Ret (match r with
       | Err e => Err (XOther ("execution: check queue admission: " +:+ errMessage e)%string)
       | Ok n => if li_MaxQueuedPerProject limits <=? n then Err ErrLimitExceeded else Ok tt
       end).

Definition createKernelSessionRecord (actor : Actor) (server : NotebookServer)
    (notebookName notebookPath kernelName : string) : X (res execErr KernelSession) :=
  let kernelName := if String.eqb kernelName "" then "python3"%string else kernelName in
  _ ←! checkKernelAdmission (sv_ProjectID server) notebookName;
  id_ ← invoke CNewID;
  ' (jid, kid, kname) ←! invoke (CCreateSession server notebookPath kernelName);
  t ← now;
  let ks := mkKernel id_ (sv_ProjectID server) notebookName notebookPath jid kid kname KernelStatusIdle
              (ac_ID actor) (ac_ClientID actor) t t None in
  _ ←! invoke (CCreateKernel ks);
  publish (sv_ProjectID server) "notebook.kernel.created" (PKernel id_ notebookName "") ;;
  Ret (Ok ks).

Definition CreateKernelSession (actor : Actor) (projectID notebookName NotebookPath KernelName : string)
    : X (res execErr KernelSession) :=
  cleanPath ←! Ret (validateNotebookPath NotebookPath);
  server ←! getRunningServer projectID notebookName;
  createKernelSessionRecord actor server notebookName cleanPath KernelName.

Definition GetKernelSession (projectID id_ : string) : X (res execErr KernelSession) :=
  r ←! invoke (CGetKernel projectID id_);
  Ret (match r with None => Err XNotFound | Some ks => Ok ks end).

Definition GetKernelSessionForActor (actor : Actor) (projectID notebookName id_ : string) : X (res execErr KernelSession) :=
  ks ←! GetKernelSession projectID id_;
  if negb (String.eqb (ks_NotebookName ks) notebookName) then Ret (Err XNotFound)
  else Ret (match checkOwnership actor (ks_CreatedBy ks) with Err e => Err e | Ok _ => Ok ks end).

Definition InterruptKernelSession (actor : Actor) (projectID notebookName id_ : string) : X (res execErr unit) :=
  ks ←! GetKernelSessionForActor actor projectID notebookName id_;
  server ←! getRunningServer projectID (ks_NotebookName ks);
  _ ←! invoke (CInterrupt server (ks_KernelID ks));
  t ← now;
  invoke (CUpdateKernel (ks_touch t ks)).

Definition RestartKernelSession (actor : Actor) (projectID notebookName id_ : string) : X (res execErr unit) :=
  ks ←! GetKernelSessionForActor actor projectID notebookName id_;
  server ←! getRunningServer projectID (ks_NotebookName ks);
  _ ←! invoke (CRestart server (ks_KernelID ks));
  t ← now;
  invoke (CUpdateKernel (ks_setStatus KernelStatusIdle t ks)).

Definition CloseKernelSession (actor : Actor) (projectID notebookName id_ : string) : X (res execErr unit) :=
  ks ←! GetKernelSessionForActor actor projectID notebookName id_;
  server ← getRunningServer projectID (ks_NotebookName ks);
  (match server with
   | Ok server => _ ← invoke (CDeleteSession server (ks_JupyterSessionID ks)); Ret tt
   | Err _ => Ret tt
   end) ;;
  t ← now;
  _ ←! invoke (CUpdateKernel (ks_close KernelStatusClosed t (Some t) ks));
  invoke (CReleaseKernel id_) ;;
  publish projectID "notebook.kernel.closed" (PKernel id_ (ks_NotebookName ks) "") ;;
  Ret (Ok tt).

(** One session of [sweepIdleKernels]; an error skips the session. *)
Definition sweepOne (ks : KernelSession) : X unit :=
  if negb (String.eqb (ks_Status ks) KernelStatusIdle) then Ret tt
  else
    server ← getRunningServer (ks_ProjectID ks) (ks_NotebookName ks);
    deleted ← (match server with
               | Ok server => invoke (CDeleteSession server (ks_JupyterSessionID ks))
               | Err _ => Ret (Ok tt)
               end);
    match deleted with
    | Err _ => Ret tt
    | Ok _ =>
        t ← now;
        r ← invoke (CUpdateKernel (ks_close KernelStatusClosed t (Some t) ks));
        match r with
        | Err _ => Ret tt
        | Ok _ =>
            invoke (CReleaseKernel (ks_ID ks)) ;;
            publish (ks_ProjectID ks) "notebook.kernel.closed" (PKernel (ks_ID ks) (ks_NotebookName ks) "idle_timeout")
        end
    end.

Fixpoint forEach {A} (f : A -> X unit) (l : list A) : X unit :=
  match l with
  | [] => Ret tt
  | x :: l => f x ;; forEach f l
  end.

Definition sweepIdleKernels : X unit :=
  t ← now;
  r ← invoke (CListStale (t - li_KernelIdleTTL limits));
  match r with
  | Err _ => Ret tt
  | Ok sessions => forEach sweepOne sessions
  end.

(** *** Creating an execution *)

Definition hashCreateRequest (req : CreateExecutionRequest) : string := SHA256Hex (canonJSON req).

Definition resultPathFor (id_ : string) : string := (".piper/executions/" +:+ id_ +:+ "/result.ipynb")%string.

(** The document with the edit; the ids of cells come from [uuid.NewString]. *)
Definition applyEdit (edit : CellEdit) (uuid : string) (doc : Notebook) : res execErr Notebook :=
  if String.eqb (ce_Mode edit) CellEditAppend
  then Ok (AppendCodeCell ("piper-" +:+ uuid)%string (ce_Code edit) doc)
  else if String.eqb (ce_Mode edit) CellEditReplace
  then match ReplaceCellSource (ce_CellID edit) (ce_Code edit) doc with
       | Some (_, doc) => Ok doc
       | None => Err (XError ErrCodePathInvalid false ("cell " +:+ Quote (ce_CellID edit) +:+ " not found")%string)
       end
  else Ok doc.

Definition stageCellExecution (server : NotebookServer) (exec : NotebookExecution)
    (req : CreateExecutionRequest) (edit : CellEdit) : X (res execErr NotebookExecution) :=
  r ← invoke (CReadNotebook server (ex_NotebookPath exec));
  ' (doc, origHash) ←! Ret (match r with
    | Ok d => Ok d
    | Err e => if (cr_CreateIfMissing req && isCode e ErrCodePathInvalid)%bool then Ok (EmptyNotebook, ""%string) else Err e
    end);
  let exec := ex_setHashes (SHA256Hex (ce_Code edit)) origHash exec in
  uuid ← (if String.eqb (ce_Mode edit) CellEditAppend then invoke CNewID else Ret ""%string);
  doc ←! Ret (applyEdit edit uuid doc);
  _ ←! invoke (CSaveNotebook server (ex_ResultPath exec) doc);
  Ret (Ok (ex_setCells (ex_CurrentCell exec) 1 exec)).

(** The checks on a request, before anything is read. *)
Definition validateRequest (req : CreateExecutionRequest) (idempotencyKey : string) : res execErr string :=
  if MaxIdempotencyKeyLen <? Z.of_nat (String.length idempotencyKey)
  then Err (XError ErrCodePathInvalid false "idempotency key exceeds 128 characters")
  else
    match validateNotebookPath (cr_Path req) with
    | Err e => Err e
    | Ok cleanPath =>
        if negb (existsb (String.eqb (cr_Kind req)) [KindNotebook; KindCell])
        then Err (XError ErrCodePathInvalid false ("kind must be " +:+ Quote KindNotebook +:+ " or " +:+ Quote KindCell)%string)
        else if String.eqb (cr_Kind req) KindCell then
          match cr_Edit req with
          | None => Err (XError ErrCodePathInvalid false "cell execution requires edit.mode append or replace")
          | Some edit =>
              if negb (existsb (String.eqb (ce_Mode edit)) [CellEditAppend; CellEditReplace])
              then Err (XError ErrCodePathInvalid false "cell execution requires edit.mode append or replace")
              else if (String.eqb (ce_Mode edit) CellEditReplace && String.eqb (TrimSpace (ce_CellID edit)) "")%bool
              then Err (XError ErrCodePathInvalid false "replace mode requires edit.cell_id")
              else if String.eqb (TrimSpace (ce_Code edit)) ""
              then Err (XError ErrCodePathInvalid false "edit.code is required")
              else Ok cleanPath
          end
        else Ok cleanPath
    end.

(** The hash of the notebook, or the staged document, on the new record. *)
Definition prepareExecution (server : NotebookServer) (exec : NotebookExecution) (req : CreateExecutionRequest)
    : X (res execErr NotebookExecution) :=
  match (if String.eqb (cr_Kind req) KindNotebook then None else cr_Edit req) with
  | None =>
      ' (_, hash) ←! invoke (CReadNotebook server (ex_NotebookPath exec));
      Ret (Ok (ex_setHashes (ex_SourceSHA256 exec) hash exec))
  | Some edit => stageCellExecution server exec req edit
  end.

(** The record, and whether it is a replay. *)
Definition CreateExecution (actor : Actor) (projectID notebookName : string) (req : CreateExecutionRequest)
    (idempotencyKey : string) : X (res execErr (NotebookExecution * bool)) :=
  cleanPath ←! Ret (validateRequest req idempotencyKey);
  let requestHash := hashCreateRequest req in
  existing ←! (if String.eqb idempotencyKey "" then Ret (Ok None)
               else invoke (CFindByKey projectID notebookName (ac_ID actor) idempotencyKey));
  match existing with
  | Some e => if negb (String.eqb (ex_RequestHash e) requestHash) then Ret (Err XConflict) else Ret (Ok (e, true))
  | None =>
      server ←! getRunningServer projectID notebookName;
      policy ←! resolvePolicy projectID;
      if String.eqb policy PolicyDisabled
      then Ret (Err (XError ErrCodeApprovalRequired false "notebook execution is disabled for this project"))
      else
        id_ ← invoke CNewID;
        t ← now;
        let exec := mkExec id_ projectID notebookName cleanPath (resultPathFor id_) (cr_KernelSessionID req)
                      (cr_Kind req) "" (ac_ID actor) (ac_ClientID actor) idempotencyKey requestHash "" "" 0 0
                      "" "" "" "" None "" None t None None t in
        exec ←! prepareExecution server exec req;
        exec ←! (if String.eqb policy PolicyApprovalRequired
                 then Ret (Ok (ex_setStatus StatusAwaitingApproval t exec))
                 else _ ←! checkQueueAdmission projectID; Ret (Ok (ex_setStatus StatusQueued t exec)));
        _ ←! invoke (CCreateExecution exec);
        (if String.eqb (ex_Status exec) StatusQueued
         then publish projectID "notebook.execution.queued" (execFields exec) ;; invoke (CDispatch exec)
         else Ret tt) ;;
        Ret (Ok (exec, false))
  end.

(** *** Existing executions *)

Definition GetExecution (projectID id_ : string) : X (res execErr NotebookExecution) :=
  r ←! invoke (CGetExecution projectID id_);
  Ret (match r with None => Err XNotFound | Some e => Ok e end).

Definition GetExecutionForNotebook (projectID notebookName id_ : string) : X (res execErr NotebookExecution) :=
  e ←! GetExecution projectID id_;
  Ret (if negb (String.eqb (ex_NotebookName e) notebookName) then Err XNotFound else Ok e).

Definition CancelExecution (actor : Actor) (projectID notebookName id_ : string) : X (res execErr unit) :=
  exec ←! GetExecutionForNotebook projectID notebookName id_;
  _ ←! Ret (checkOwnership actor (ex_RequestedBy exec));
  if (String.eqb (ex_Status exec) StatusAwaitingApproval || String.eqb (ex_Status exec) StatusQueued)%bool then
    t ← now;
    let exec := ex_finish StatusCancelled ErrCodeExecutionCancelled (ex_ErrorMessage exec) (Some t) t exec in
    _ ←! invoke (CUpdateExecution exec);
    publish projectID "notebook.execution.cancelled" (execFields exec) ;;
    Ret (Ok tt)
  else if String.eqb (ex_Status exec) StatusRunning then
    invoke (CCancelInflight id_) ;;
    (if CanTransitionExecution (ex_Status exec) StatusCancelling
     then t ← now; _ ← invoke (CUpdateExecution (ex_setStatus StatusCancelling t exec)); Ret tt
     else Ret tt) ;;
    Ret (Ok tt)
  else if String.eqb (ex_Status exec) StatusCancelling then Ret (Ok tt)
  else Ret (Err XConflict).

Definition ApproveExecution (actor : Actor) (projectID notebookName id_ : string) : X (res execErr unit) :=
  exec ←! GetExecutionForNotebook projectID notebookName id_;
  if negb (String.eqb (ex_Status exec) StatusAwaitingApproval) then Ret (Err XConflict)
  else
    _ ←! checkQueueAdmission projectID;
    t ← now;
    let exec := ex_approve StatusQueued (ac_ID actor) (Some t) t exec in
    _ ←! invoke (CUpdateExecution exec);
    publish projectID "notebook.execution.queued" (execFields exec) ;;
    invoke (CDispatch exec) ;;
    Ret (Ok tt).

Definition DenyExecution (actor : Actor) (projectID notebookName id_ : string) : X (res execErr unit) :=
  exec ←! GetExecutionForNotebook projectID notebookName id_;
  if negb (String.eqb (ex_Status exec) StatusAwaitingApproval) then Ret (Err XConflict)
  else
    t ← now;
    let exec := ex_deny StatusCancelled ErrCodeApprovalDenied (ac_ID actor) (Some t) (Some t) t exec in
    _ ←! invoke (CUpdateExecution exec);
    publish projectID "notebook.execution.cancelled" (execFields exec) ;;
    Ret (Ok tt).

(** *** Documents: [service_contents.go] *)

Definition ReadDocument (projectID notebookName path : string) : X (res execErr (Notebook * string)) :=
  clean ←! Ret (validateNotebookPath path);
  server ←! getRunningServer projectID notebookName;
  ' (doc, hash) ←! invoke (CReadNotebook server clean);
  Ret (match docSize doc with
       | Some n =>
           if li_FileReadBytes limits <? n
           then Err (XError ErrCodeOutputTooLarge false "document exceeds the file_read_bytes limit")
           else Ok (doc, hash)
       | None => Ok (doc, hash)
       end).

Definition WriteDocument (projectID notebookName path : string) (doc : Notebook) (baseHash : string) : X (res execErr unit) :=
  clean ←! Ret (validateNotebookPath path);
  server ←! getRunningServer projectID notebookName;
  if String.eqb baseHash "" then invoke (CSaveNotebook server clean doc)
  else
    r ← invoke (CReadNotebook server clean);
    match r with
    | Ok (_, currentHash) =>
        if negb (String.eqb currentHash baseHash)
        then Ret (Err (XError ErrCodeContentConflict false "document changed since base_hash was read"))
        else invoke (CSaveNotebook server clean doc)
    | Err _ => invoke (CSaveNotebook server clean doc)
    end.

(** ** The run of an execution: [service_run.go] *)

Definition updateExecution_ (e : NotebookExecution) : X unit := _ ← invoke (CUpdateExecution e); Ret tt.

Definition finishEvent (status : string) : string :=
  if String.eqb status StatusSucceeded then "notebook.execution.succeeded"
  else if String.eqb status StatusCancelled then "notebook.execution.cancelled"
  else if String.eqb status StatusConflicted then "notebook.execution.conflicted"
  else "notebook.execution.failed".

Definition finishExecution (exec : NotebookExecution) (status code message : string) : X unit :=
  t ← now;
  let exec := ex_finish status
    (if String.eqb code "" then ex_ErrorCode exec else code)
    (if String.eqb message "" then ex_ErrorMessage exec else message) (Some t) t exec in
  updateExecution_ exec ;;
  publish (ex_ProjectID exec) (finishEvent status) (execFields exec).

(** The session an execution runs on, and the record that remembers it. *)
Definition ensureKernel (server : NotebookServer) (exec : NotebookExecution)
    : X (res execErr (NotebookExecution * KernelSession)) :=
  if negb (String.eqb (ex_KernelSessionID exec) "") then
    r ← invoke (CGetKernel (ex_ProjectID exec) (ex_KernelSessionID exec));
    Ret (match r with
         | Err e => Err (XOther ("execution: get kernel session: " +:+ errMessage e)%string)
         | Ok None => Err (XError ErrCodeKernelUnavailable false "requested kernel session is not available")
         | Ok (Some ks) =>
             if (String.eqb (ks_Status ks) KernelStatusClosed || String.eqb (ks_Status ks) KernelStatusFailed)%bool
             then Err (XError ErrCodeKernelUnavailable false "requested kernel session is not available")
             else Ok (exec, ks)
         end)
  else
    r ← createKernelSessionRecord (mkActor (ex_RequestedBy exec) 0 (ex_ClientID exec)) server
          (ex_NotebookName exec) (ex_NotebookPath exec) "";
    match r with
    | Err e => Ret (Err (XError ErrCodeKernelUnavailable true ("could not start a kernel: " +:+ errMessage e)%string))
    | Ok ks =>
        let exec := ex_setKernel (ks_ID ks) exec in
        updateExecution_ exec ;;
        Ret (Ok (exec, ks))
    end.

Definition saveResult (server : NotebookServer) (exec : NotebookExecution) (doc : Notebook) : X (res execErr unit) :=
  invoke (CSaveNotebook server (ex_ResultPath exec) doc).

(** [conflict], or an error. *)
Definition checkConflictAndSave (server : NotebookServer) (exec : NotebookExecution) (doc : Notebook)
    : X (res execErr bool) :=
  r ← invoke (CReadNotebook server (ex_NotebookPath exec));
  ' (originalMissing, currentHash) ←! Ret (match r with
    | Ok (_, h) => Ok (false, h)
    | Err e => if isCode e ErrCodePathInvalid then Ok (true, ""%string) else Err e
    end);
  let conflict := if String.eqb (ex_BaseContentHash exec) "" then negb originalMissing
                  else (originalMissing || negb (String.eqb currentHash (ex_BaseContentHash exec)))%bool in
  if conflict : bool then Ret (Ok true)
  else
    _ ←! invoke (CSaveNotebook server (ex_NotebookPath exec) doc);
    Ret (Ok false).

Definition truncateStr (s : string) (n : nat) : string :=
  if Nat.leb (String.length s) n then s else (str_take n s +:+ "...")%string.

Definition setOutputs (outputs : list Output) (c : Cell) : Cell :=
  mkCell (c_ID c) (c_CellType c) (c_Source c) (c_Metadata c) outputs (c_ExecutionCount c).
Definition setCount (n : Z) (c : Cell) : Cell :=
  mkCell (c_ID c) (c_CellType c) (c_Source c) (c_Metadata c) (c_Outputs c) (Some n).

(** How the loop over the cells ends: [break] or its end, with [cellFailed];
    or a [return] after the execution was finished. *)
Inductive loopEnd : Type :=
| LEnd (cellFailed : bool) (exec : NotebookExecution) (doc : Notebook)
| LReturned.

(** The loop; [i] counts the cells run, [Itoa] renders it in a message. *)
Context (Itoa : Z -> string).
Fixpoint runCells (ctx : nat) (server : NotebookServer) (cellIndexes : list nat) (i : Z)
    (exec : NotebookExecution) (doc : Notebook) : X loopEnd :=
  match cellIndexes with
  | [] => Ret (LEnd false exec doc)
  | idx :: rest =>
      stop ← invoke (CRunCtxErr ctx);
      if stop : bool then Ret (LEnd false exec doc)
      else
        let code := match nb_Cells doc !! idx with Some cell => Source_String (c_Source cell) | None => ""%string end in
        ' (evs, result, timedOut) ← invoke (CExecuteCell code);
        let outputs := cs_outputs (collect jsonLen (li_InlineOutputBytes limits) evs) in
        let doc := nb_setCells (alter (setOutputs outputs) idx (nb_Cells doc)) doc in
        match result with
        | None =>
            stop ← invoke (CRunCtxErr ctx);
            if stop : bool then Ret (LEnd false exec doc)
            else
              _ ← saveResult server exec doc;
              (if timedOut : bool
               then finishExecution exec StatusTimedOut ErrCodeExecutionTimeout ("cell " +:+ Itoa i +:+ " timed out")%string
               else finishExecution exec StatusFailed ErrCodeKernelDied "lost communication with the kernel") ;;
              Ret LReturned
        | Some r =>
            let doc := nb_setCells (alter (setCount (er_ExecutionCount r)) idx (nb_Cells doc)) doc in
            let exec := ex_setCells (i + 1) (ex_TotalCells exec) exec in
            due ← invoke CProgressDue;
            exec ← (if (due || bool_decide (rest = []))%bool then
                      t ← now;
                      let exec := ex_setUpdatedAt t exec in
                      updateExecution_ exec ;;
                      publish (ex_ProjectID exec) "notebook.execution.progress" (execFields exec) ;;
                      Ret exec
                    else Ret exec);
            if String.eqb (er_Status r) "error" then
              Ret (LEnd true (ex_setMessage (truncateStr (er_ErrorName r +:+ ": " +:+ er_ErrorValue r) 500) exec) doc)
            else runCells ctx server rest (i + 1) exec doc
        end
  end.

(** After the loop. *)
Definition conclude (ctx : nat) (server : NotebookServer) (ks : KernelSession) (cellFailed : bool)
    (exec : NotebookExecution) (doc : Notebook) : X unit :=
  stop ← invoke (CRunCtxErr ctx);
  if stop : bool then
    _ ← invoke (CInterrupt server (ks_KernelID ks));
    _ ← saveResult server exec doc;
    cancelled ← invoke (CCtxErr ctx);
    if cancelled : bool
    then finishExecution exec StatusCancelled ErrCodeExecutionCancelled "execution cancelled"
    else finishExecution exec StatusTimedOut ErrCodeExecutionTimeout "execution timed out"
  else
    r ← saveResult server exec doc;
    match r with
    | Err _ => finishExecution exec StatusFailed ErrCodeRuntimeUnavailable "failed to save result notebook"
    | Ok _ =>
        if cellFailed then finishExecution exec StatusFailed "" (ex_ErrorMessage exec)
        else
          r ← checkConflictAndSave server exec doc;
          match r with
          | Err _ => finishExecution exec StatusFailed ErrCodeRuntimeUnavailable "failed to finalize notebook"
          | Ok true => finishExecution exec StatusConflicted ErrCodeContentConflict
              "original notebook changed since this execution started; result preserved at result_path"
          | Ok false => finishExecution exec StatusSucceeded "" ""
          end
    end.

(** The code cells that a run executes. *)
Definition cellsToRun (exec : NotebookExecution) (doc : Notebook) : option (list nat) :=
  let cells := CodeCellIndexes doc in
  if String.eqb (ex_Kind exec) KindCell
  then match last cells with Some i => Some [i] | None => None end
  else Some cells.

(** From the working document to the end of the run. *)
Definition runDocument (ctx : nat) (server : NotebookServer) (ks : KernelSession) (exec : NotebookExecution) : X unit :=
  r ← invoke (CReadNotebook server
        (if String.eqb (ex_Kind exec) KindCell then ex_ResultPath exec else ex_NotebookPath exec));
  match r with
  | Err _ => finishExecution exec StatusFailed ErrCodeRuntimeUnavailable "could not load working document"
  | Ok (doc, _) =>
      match cellsToRun exec doc with
      | None => finishExecution exec StatusFailed ErrCodePathInvalid "staged document has no code cell to execute"
      | Some cellIndexes =>
          let exec := ex_setCells 0 (Z.of_nat (List.length cellIndexes)) exec in
          updateExecution_ exec ;;
          e ← runCells ctx server cellIndexes 0 exec doc;
          match e with
          | LReturned => Ret tt
          | LEnd cellFailed exec doc => conclude ctx server ks cellFailed exec doc
          end
      end
  end.

(** With the kernel's lock: the channel, the busy mark and their deferred ends. *)
Definition runOnKernel (ctx : nat) (server : NotebookServer) (ks : KernelSession) (exec : NotebookExecution) : X unit :=
  r ← invoke (COpenChannel server (ks_KernelID ks) (ks_ID ks));
  match r with
  | Err _ => finishExecution exec StatusFailed ErrCodeKernelUnavailable "could not open kernel channel"
  | Ok _ =>
      t ← now;
      let ks := ks_setStatus KernelStatusBusy t ks in
      _ ← invoke (CUpdateKernel ks);
      runDocument ctx server ks exec ;;
      t ← now;
      _ ← invoke (CUpdateKernel (ks_setStatus KernelStatusIdle t ks));
      invoke CCloseChannel
  end.

(** With the notebook's slot. *)
Definition runInSlot (ctx : nat) (exec : NotebookExecution) : X unit :=
  cancelled ← invoke (CCtxErr ctx);
  if cancelled : bool
  then finishExecution exec StatusCancelled ErrCodeExecutionCancelled "cancelled before starting"
  else
    invoke (CWithTimeout ctx) ;;
    t ← now;
    let exec := ex_start StatusRunning (Some t) t exec in
    r ← invoke (CUpdateExecution exec);
    match r with
    | Err _ => Ret tt
    | Ok _ =>
        publish (ex_ProjectID exec) "notebook.execution.started" (execFields exec) ;;
        server ← getRunningServer (ex_ProjectID exec) (ex_NotebookName exec);
        match server with
        | Err _ => finishExecution exec StatusFailed ErrCodeNotebookNotRunning "notebook server is not running"
        | Ok server =>
            r ← ensureKernel server exec;
            match r with
            | Err e => finishExecution exec StatusFailed ErrCodeKernelUnavailable (errMessage e)
            | Ok (exec, ks) =>
                mutex ← invoke (CKernelLock (ks_ID ks));
                locked ← invoke (CLock ctx mutex);
                if locked : bool
                then runOnKernel ctx server ks exec ;; invoke (CUnlock mutex)
                else finishExecution exec StatusCancelled ErrCodeExecutionCancelled "cancelled waiting for kernel"
            end
        end
    end.

Definition runExecution (ctx : nat) (exec : NotebookExecution) : X unit :=
  acquired ← invoke (CAcquireSlot ctx (ex_ProjectID exec) (ex_NotebookName exec));
  if acquired : bool
  then runInSlot ctx exec ;; invoke (CReleaseSlot (ex_ProjectID exec) (ex_NotebookName exec))
  else finishExecution exec StatusCancelled ErrCodeExecutionCancelled "cancelled while waiting for a run slot".

(** The goroutine that [dispatch] starts. *)
Definition runThread (ctx : nat) (exec : NotebookExecution) : X unit :=
  runExecution ctx exec ;; invoke (CInflightDelete (ex_ID exec)).

(** ** Recovery: [recovery.go] *)

Definition recoverQueued (exec : NotebookExecution) : X unit :=
  policy ← resolvePolicy (ex_ProjectID exec);
  let off := match policy with Err _ => true | Ok p => String.eqb p PolicyDisabled end in
  if off : bool
  then finishExecution exec StatusFailed ErrCodeApprovalRequired "notebook execution is disabled for this project"
  else
    server ← getRunningServer (ex_ProjectID exec) (ex_NotebookName exec);
    match server with
    | Err _ => finishExecution exec StatusFailed ErrCodeNotebookNotRunning "notebook server was not running after piper restart"
    | Ok _ => invoke (CDispatch exec)
    end.

Definition recoverCancelling (exec : NotebookExecution) : X unit :=
  server ← getRunningServer (ex_ProjectID exec) (ex_NotebookName exec);
  (match server with
   | Ok server =>
       if String.eqb (ex_KernelSessionID exec) "" then Ret tt
       else
         r ← invoke (CGetKernel (ex_ProjectID exec) (ex_KernelSessionID exec));
         match r with
         | Ok (Some ks) =>
             if String.eqb (ks_KernelID ks) "" then Ret tt
             else _ ← invoke (CInterrupt server (ks_KernelID ks)); Ret tt
         | _ => Ret tt
         end
   | Err _ => Ret tt
   end) ;;
  finishExecution exec StatusCancelled ErrCodeExecutionCancelled "cancelled before piper restart completed".

Definition recoverOne (exec : NotebookExecution) : X unit :=
  if String.eqb (ex_Status exec) StatusQueued then recoverQueued exec
  else if String.eqb (ex_Status exec) StatusRunning then
    finishExecution exec StatusFailed ErrCodeRecoveryUncertain
      "piper restarted while this execution was running; outcome could not be verified"
  else if String.eqb (ex_Status exec) StatusCancelling then recoverCancelling exec
  else Ret tt.

Definition RecoverOnStartup : X unit :=
  r ← invoke (CListByStatus ActiveExecutionStatuses);
  match r with
  | Err _ => Ret tt
  | Ok l => forEach recoverOne l
  end.

End Service.
