(* ===== verification/ExecutionWorld.v ===== *)
(** * Notebook executions: the world and its interleavings

    The tables ([internal/store/sqlite/notebook_execution.go]), the slots and
    kernel locks of the scheduler, the contexts and the event bus, what each call
    does to them ([handle]), and the system of concurrent requests, runs, time
    limits, shutdown and restart ([step]). *)

From S2P Require Import Prelude Prog Jupyter ExecutionModel ExecutionService.
From stdpp Require Import options.
#[local] Open Scope Z_scope.

Section System.

Context (SHA256Hex : string -> string) (canonJSON : CreateExecutionRequest -> string).
Context (jsonLen : Output -> Z).
Context (limits : Limits) (PolicyDefault : string) (Itoa : Z -> string).

(** ** The world *)

Record Ctx := mkCtx { cx_cancelled : bool; cx_deadline : bool; cx_timedOut : bool }.
(** A mutex, and the goroutines of [AcquireKernelLock] whose caller gave up:
    they still take the lock when they can, and nothing unlocks it then. *)
Record Mutex := mkMutex { mu_locked : bool; mu_orphans : nat }.

Record World := mkWorld {
  w_execs : gmap (string * string) NotebookExecution;
  w_kernels : gmap (string * string) KernelSession;
  w_policies : gmap string string;
  w_slots : gmap string Z;
  w_mutexes : list Mutex;
  w_kernelLocks : gmap string nat;
  w_inflight : gmap string nat;
  w_ctxs : list Ctx;
  w_bgDone : bool;
  w_events : list (string * string * payload) }.

Definition emptyWorld : World := mkWorld ∅ ∅ ∅ ∅ [] ∅ ∅ [] false [].

Definition w_setExecs m w := mkWorld m (w_kernels w) (w_policies w) (w_slots w) (w_mutexes w) (w_kernelLocks w) (w_inflight w) (w_ctxs w) (w_bgDone w) (w_events w).
Definition w_setKernels m w := mkWorld (w_execs w) m (w_policies w) (w_slots w) (w_mutexes w) (w_kernelLocks w) (w_inflight w) (w_ctxs w) (w_bgDone w) (w_events w).
Definition w_setPolicies m w := mkWorld (w_execs w) (w_kernels w) m (w_slots w) (w_mutexes w) (w_kernelLocks w) (w_inflight w) (w_ctxs w) (w_bgDone w) (w_events w).
Definition w_setSlots m w := mkWorld (w_execs w) (w_kernels w) (w_policies w) m (w_mutexes w) (w_kernelLocks w) (w_inflight w) (w_ctxs w) (w_bgDone w) (w_events w).
Definition w_setMutexes l w := mkWorld (w_execs w) (w_kernels w) (w_policies w) (w_slots w) l (w_kernelLocks w) (w_inflight w) (w_ctxs w) (w_bgDone w) (w_events w).
Definition w_setKernelLocks m w := mkWorld (w_execs w) (w_kernels w) (w_policies w) (w_slots w) (w_mutexes w) m (w_inflight w) (w_ctxs w) (w_bgDone w) (w_events w).
Definition w_setInflight m w := mkWorld (w_execs w) (w_kernels w) (w_policies w) (w_slots w) (w_mutexes w) (w_kernelLocks w) m (w_ctxs w) (w_bgDone w) (w_events w).
Definition w_setCtxs l w := mkWorld (w_execs w) (w_kernels w) (w_policies w) (w_slots w) (w_mutexes w) (w_kernelLocks w) (w_inflight w) l (w_bgDone w) (w_events w).
Definition w_setEvents l w := mkWorld (w_execs w) (w_kernels w) (w_policies w) (w_slots w) (w_mutexes w) (w_kernelLocks w) (w_inflight w) (w_ctxs w) (w_bgDone w) l.

(** What a call reads from outside. *)
Inductive choice : Type :=
| Plain
| DbFail (a : attempt) (msg : string)
| WhenDone
| EBool (b : bool)
| ETime (t : Z)
| EID (id_ : string)
| EServer (r : res execErr (option NotebookServer))
| EUnit (r : res execErr unit)
| EDoc (r : res execErr (Notebook * string))
| ESession (r : res execErr (string * string * string))
| ECell (evs : list sinkEvent) (result : option ExecuteResult) (timedOut : bool).

Abbreviation outcome A := (option (A * World * list (X unit))).

Definition dbRead {A} (i : choice) (w : World) (v : A) : outcome (res execErr A) :=
  match i with
  | Plain => Some (Ok v, w, [])
  | DbFail _ msg => Some (Err (XOther msg), w, [])
  | _ => None
  end.

(** A write: [after] is the error of the statement or the new world. *)
Definition dbWrite (i : choice) (w : World) (after : res execErr World) : outcome (res execErr unit) :=
  match i, after with
  | Plain, Ok w' => Some (Ok tt, w', [])
  | Plain, Err e => Some (Err e, w, [])
  | DbFail AttemptApplied msg, Ok w' => Some (Err (XOther msg), w', [])
  | DbFail _ msg, _ => Some (Err (XOther msg), w, [])
  | _, _ => None
  end.

Definition execKey (e : NotebookExecution) : string * string := (ex_ProjectID e, ex_ID e).
Definition kernelKey (k : KernelSession) : string * string := (ks_ProjectID k, ks_ID k).

Definition same_request (projectID notebookName requestedBy key : string) (e : NotebookExecution) : bool :=
  (String.eqb (ex_ProjectID e) projectID && String.eqb (ex_NotebookName e) notebookName &&
   String.eqb (ex_RequestedBy e) requestedBy && String.eqb (ex_IdempotencyKey e) key)%bool.

Definition findByKey (projectID notebookName requestedBy key : string) (w : World) : option NotebookExecution :=
  if String.eqb key "" then None
  else List.find (same_request projectID notebookName requestedBy key) (snd <$> map_to_list (w_execs w)).

(** The primary key and the partial unique index on idempotency keys. *)
Definition insertExec (e : NotebookExecution) (w : World) : res execErr World :=
  match w_execs w !! execKey e,
        findByKey (ex_ProjectID e) (ex_NotebookName e) (ex_RequestedBy e) (ex_IdempotencyKey e) w with
  | None, None => Ok (w_setExecs (<[execKey e := e]> (w_execs w)) w)
  | _, _ => Err XConflict
  end.

Definition updateExec (e : NotebookExecution) (w : World) : res execErr World :=
  match w_execs w !! execKey e with
  | Some row => Ok (w_setExecs (<[execKey e := updateRow e row]> (w_execs w)) w)
  | None => Err XNotFound
  end.

Definition insertKernel (k : KernelSession) (w : World) : res execErr World :=
  match w_kernels w !! kernelKey k with
  | None => Ok (w_setKernels (<[kernelKey k := k]> (w_kernels w)) w)
  | Some _ => Err (XOther "UNIQUE constraint failed: kernel_sessions.project_id, kernel_sessions.id")
  end.

Definition updateKernel (k : KernelSession) (w : World) : res execErr World :=
  match w_kernels w !! kernelKey k with
  | Some row => Ok (w_setKernels (<[kernelKey k := updateKernelRow k row]> (w_kernels w)) w)
  | None => Err XNotFound
  end.

Definition has_exec_status (statuses : list string) (e : NotebookExecution) : bool :=
  existsb (String.eqb (ex_Status e)) statuses.

Definition countQueued (projectID : string) (w : World) : Z :=
  Z.of_nat (size (filter (fun kv : (string * string) * NotebookExecution =>
    ((ex_ProjectID kv.2 =? projectID)%string && has_exec_status [StatusQueued; StatusAwaitingApproval] kv.2)%bool = true)
    (w_execs w))).

Definition kernel_open (k : KernelSession) : bool :=
  negb (existsb (String.eqb (ks_Status k)) [KernelStatusClosed; KernelStatusFailed]).

Definition countOpenKernels (projectID notebookName : string) (w : World) : Z :=
  Z.of_nat (size (filter (fun kv : (string * string) * KernelSession =>
    (String.eqb (ks_ProjectID kv.2) projectID && String.eqb (ks_NotebookName kv.2) notebookName && kernel_open kv.2)%bool = true)
    (w_kernels w))).

Definition by_queued (e e' : NotebookExecution) : Prop := ex_QueuedAt e <= ex_QueuedAt e'.
#[local] Instance by_queued_dec : RelDecision by_queued.
Proof. intros e e'. unfold by_queued. apply _. Defined.

Definition listByStatus (statuses : list string) (w : World) : list NotebookExecution :=
  merge_sort by_queued (List.filter (has_exec_status statuses) (snd <$> map_to_list (w_execs w))).

Definition listStale (cutoff : Z) (w : World) : list KernelSession :=
  List.filter (fun k => (kernel_open k && (ks_LastActivityAt k <? cutoff))%bool) (snd <$> map_to_list (w_kernels w)).

(** [len(slot)] of a notebook's channel. *)
Definition slotCount (key : string) (w : World) : Z := default 0 (w_slots w !! key).

Definition ctx_done (w : World) (ctx : nat) : bool :=
  match w_ctxs w !! ctx with Some c => cx_cancelled c | None => true end.
Definition runCtx_done (w : World) (ctx : nat) : bool :=
  match w_ctxs w !! ctx with Some c => (cx_cancelled c || cx_timedOut c)%bool | None => true end.
Definition cancelCtx (c : Ctx) : Ctx := mkCtx true (cx_deadline c) (cx_timedOut c).

Definition external {A} (r : A) (w : World) : outcome A := Some (r, w, []).

Definition handle (c : xcall) (tid : nat) (i : choice) (w : World) : outcome (xreply c) :=
  match c as c return outcome (xreply c) with
  | CGetPolicy p => dbRead i w (default ""%string (w_policies w !! p))
  | CSetPolicy p v _ => dbWrite i w (Ok (w_setPolicies (<[p := v]> (w_policies w)) w))
  | CGetExecution p id_ => dbRead i w (w_execs w !! (p, id_))
  | CFindByKey p n r k => dbRead i w (findByKey p n r k w)
  | CCreateExecution e => dbWrite i w (insertExec e w)
  | CUpdateExecution e => dbWrite i w (updateExec e w)
  | CCountQueued p => dbRead i w (countQueued p w)
  | CListByStatus l => dbRead i w (listByStatus l w)
  | CGetKernel p id_ => dbRead i w (w_kernels w !! (p, id_))
  | CCreateKernel k => dbWrite i w (insertKernel k w)
  | CUpdateKernel k => dbWrite i w (updateKernel k w)
  | CCountOpenKernels p n => dbRead i w (countOpenKernels p n w)
  | CListStale t => dbRead i w (listStale t w)
  | CGetServer _ _ => match i with EServer r => external r w | _ => None end
  | CReadNotebook _ _ => match i with EDoc r => external r w | _ => None end
  | CSaveNotebook _ _ _ => match i with EUnit r => external r w | _ => None end
  | CCreateSession _ _ _ => match i with ESession r => external r w | _ => None end
  | CDeleteSession _ _ => match i with EUnit r => external r w | _ => None end
  | CInterrupt _ _ => match i with EUnit r => external r w | _ => None end
  | CRestart _ _ => match i with EUnit r => external r w | _ => None end
  | COpenChannel _ _ _ => match i with EUnit r => external r w | _ => None end
  | CCloseChannel => external tt w
  | CExecuteCell _ => match i with ECell evs r t => external (evs, r, t) w | _ => None end
  | CAcquireSlot ctx p n =>
      let key := notebookKey p n in
      match i with
      | Plain =>
          if slotCount key w <? li_MaxRunningPerNotebook limits
          then external true (w_setSlots (<[key := slotCount key w + 1]> (w_slots w)) w) else None
      | WhenDone => if ctx_done w ctx then external false w else None
      | _ => None
      end
  | CReleaseSlot p n =>
      let key := notebookKey p n in
      if 0 <? slotCount key w then external tt (w_setSlots (<[key := slotCount key w - 1]> (w_slots w)) w) else None
  | CKernelLock id_ =>
      match w_kernelLocks w !! id_ with
      | Some m => external m w
      | None =>
          let m := List.length (w_mutexes w) in
          external m (w_setKernelLocks (<[id_ := m]> (w_kernelLocks w)) (w_setMutexes (w_mutexes w ++ [mkMutex false 0]) w))
      end
  | CLock ctx m =>
      mu ← w_mutexes w !! m;
      match i with
      | Plain =>
          if mu_locked mu : bool then None
          else external true (w_setMutexes (<[m := mkMutex true (mu_orphans mu)]> (w_mutexes w)) w)
      | WhenDone =>
          if runCtx_done w ctx
          then external false (w_setMutexes (<[m := mkMutex (mu_locked mu) (S (mu_orphans mu))]> (w_mutexes w)) w)
          else None
      | _ => None
      end
  | CUnlock m =>
      mu ← w_mutexes w !! m;
      if mu_locked mu : bool
      then external tt (w_setMutexes (<[m := mkMutex false (mu_orphans mu)]> (w_mutexes w)) w) else None
  | CReleaseKernel id_ => external tt (w_setKernelLocks (delete id_ (w_kernelLocks w)) w)
  | CWithTimeout ctx =>
      external tt (w_setCtxs (alter (fun c => mkCtx (cx_cancelled c) true (cx_timedOut c)) ctx (w_ctxs w)) w)
  | CCtxErr ctx => external (ctx_done w ctx) w
  | CRunCtxErr ctx => external (runCtx_done w ctx) w
  | CCancelInflight id_ =>
      external tt (match w_inflight w !! id_ with
                   | Some ctx => w_setCtxs (alter cancelCtx ctx (w_ctxs w)) w
                   | None => w
                   end)
  | CDispatch e =>
      let ctx := List.length (w_ctxs w) in
      Some (tt, w_setInflight (<[ex_ID e := ctx]> (w_inflight w)) (w_setCtxs (w_ctxs w ++ [mkCtx (w_bgDone w) false false]) w),
            [runThread jsonLen limits Itoa ctx e])
  | CInflightDelete id_ => external tt (w_setInflight (delete id_ (w_inflight w)) w)
  | CPublish p t f => external tt (w_setEvents (w_events w ++ [(p, t, f)]) w)
  | CNow => match i with ETime t => external t w | _ => None end
  | CNewID => match i with EID s => external s w | _ => None end
  | CProgressDue => match i with EBool b => external b w | _ => None end
  end.

(** ** The system *)

(** The requests that change something, and the tick of the reaper. *)
Inductive request : Type :=
| RSetPolicy (actor : Actor) (projectID policy : string)
| RCreateKernel (actor : Actor) (projectID notebookName path kernelName : string)
| RInterruptKernel (actor : Actor) (projectID notebookName id_ : string)
| RRestartKernel (actor : Actor) (projectID notebookName id_ : string)
| RCloseKernel (actor : Actor) (projectID notebookName id_ : string)
| RCreate (actor : Actor) (projectID notebookName : string) (req : CreateExecutionRequest) (idempotencyKey : string)
| RCancel (actor : Actor) (projectID notebookName id_ : string)
| RApprove (actor : Actor) (projectID notebookName id_ : string)
| RDeny (actor : Actor) (projectID notebookName id_ : string)
| RWrite (projectID notebookName path : string) (doc : Notebook) (baseHash : string)
| RSweep.

Definition ignore {A} (m : X A) : X unit := _ ← m; Ret tt.

Definition program (r : request) : X unit :=
  match r with
  | RSetPolicy a p v => ignore (SetPolicy a p v)
  | RCreateKernel a p n path k => ignore (CreateKernelSession limits a p n path k)
  | RInterruptKernel a p n id_ => ignore (InterruptKernelSession a p n id_)
  | RRestartKernel a p n id_ => ignore (RestartKernelSession a p n id_)
  | RCloseKernel a p n id_ => ignore (CloseKernelSession a p n id_)
  | RCreate a p n req key => ignore (CreateExecution SHA256Hex canonJSON limits PolicyDefault a p n req key)
  | RCancel a p n id_ => ignore (CancelExecution a p n id_)
  | RApprove a p n id_ => ignore (ApproveExecution limits a p n id_)
  | RDeny a p n id_ => ignore (DenyExecution a p n id_)
  | RWrite p n path doc h => ignore (WriteDocument p n path doc h)
  | RSweep => sweepIdleKernels limits
  end.

(** A step of a thread; a request; the deadline of a run; a lock taken by an
    abandoned waiter; the shutdown of the process's context; a restart, which
    keeps the tables only. *)
Inductive op : Type :=
| OThread (tid : nat) (i : choice)
| ORequest (r : request)
| OTimeout (ctx : nat)
| OOrphan (m : nat)
| OShutdown
| ORestart.

Abbreviation sys := (World * list (X unit))%type.

Definition timeoutCtx (c : Ctx) : Ctx := mkCtx (cx_cancelled c) (cx_deadline c) (cx_deadline c || cx_timedOut c).
Definition takeOrphan (mu : Mutex) : Mutex :=
  match mu_locked mu, mu_orphans mu with
  | false, S n => mkMutex true n
  | _, _ => mu
  end.

Definition step (o : op) (s : sys) : option sys :=
  match o with
  | OThread tid i => thread_step World choice handle tid i s
  | ORequest r => Some (s.1, s.2 ++ [program r])
  | OTimeout ctx => Some (w_setCtxs (alter timeoutCtx ctx (w_ctxs s.1)) s.1, s.2)
  | OOrphan m => Some (w_setMutexes (alter takeOrphan m (w_mutexes s.1)) s.1, s.2)
  | OShutdown =>
      Some (mkWorld (w_execs s.1) (w_kernels s.1) (w_policies s.1) (w_slots s.1) (w_mutexes s.1) (w_kernelLocks s.1)
              (w_inflight s.1) (cancelCtx <$> w_ctxs s.1) true (w_events s.1), s.2)
  | ORestart =>
      Some (mkWorld (w_execs s.1) (w_kernels s.1) (w_policies s.1) ∅ [] ∅ ∅ [] false (w_events s.1), [RecoverOnStartup PolicyDefault])
  end.

Fixpoint exec (ops : list op) (s : sys) : option sys :=
  match ops with
  | [] => Some s
  | o :: ops => s' ← step o s; exec ops s'
  end.

End System.

(** ** Database calls *)

Lemma dbRead_inv {A} i w (v : A) r w' new : dbRead i w v = Some (r, w', new) -> w' = w /\ new = [].
Proof. unfold dbRead. intros H. by case_match; simplify_eq. Qed.

Lemma dbWrite_inv i w after r w' new :
  dbWrite i w after = Some (r, w', new) -> new = [] /\ (w' = w \/ after = Ok w').
Proof. unfold dbWrite. intros H. repeat case_match; simplify_eq; auto. Qed.
