(* ===== verification/ExecutionRun.v ===== *)
(** * Notebook executions: what a run does

    The calls of the goroutine that [dispatch] starts, for every answer of the
    repository, the server, the kernel and the locks: the statuses it writes, and
    when it writes to the original notebook. *)

From S2P Require Import Prelude Prog Jupyter ExecutionModel ExecutionService.
From stdpp Require Import options.
#[local] Open Scope Z_scope.
#[local] Set Default Proof Using "Type*".

(** ** The life cycle that a run writes *)

(** The status last written and whether marking the run as running failed.  An
    update keeps the row's key, never follows a terminal status, and is a
    transition of the table or none. *)
Definition life (key : string * string) : discipline xreply :=
  mkDiscipline xcall xreply (string * bool)
    (fun ph c =>
       match c with
       | CUpdateExecution e =>
           (ex_ProjectID e, ex_ID e) = key /\ ph.2 = false /\ IsTerminalExecutionStatus ph.1 = false /\
           (ex_Status e = ph.1 \/ CanTransitionExecution ph.1 (ex_Status e) = true)
       | CCreateExecution _ | CDispatch _ => False
       | _ => True
       end)
    (fun _ _ _ => True)
    (fun ph c =>
       match c as c return xreply c -> string * bool with
       | CUpdateExecution e => fun r =>
           (ex_Status e, (String.eqb ph.1 StatusQueued && String.eqb (ex_Status e) StatusRunning && negb (is_ok r))%bool)
       | _ => fun _ => ph
       end).


Section Run.

Context (jsonLen : Output -> Z) (limits : Limits) (Itoa : Z -> string).

Section Life.

Context (key : string * string).

(** The record of a run in progress. *)
Definition mine (e : NotebookExecution) : Prop := (ex_ProjectID e, ex_ID e) = key /\ ex_Status e = StatusRunning.
Abbreviation running := (StatusRunning, false).

Lemma finish_life {st} e status code message (Q : unit -> string * bool -> Prop) :
  (ex_ProjectID e, ex_ID e) = key -> IsTerminalExecutionStatus st = false ->
  CanTransitionExecution st status = true -> IsTerminalExecutionStatus status = true ->
  (forall b, b = false -> Q tt (status, b)) ->
  wp (life key) (st, false) (finishExecution e status code message) Q.
Proof.
  intros Hk Ht Hc Hf HQ. unfold finishExecution. simpl. split; [done|]. intros t _. split; [auto|]. intros r _. split; [done|]. intros [] _.
  apply HQ. assert (String.eqb status StatusRunning = false) as ->; [|by rewrite andb_false_r].
  apply String.eqb_neq. intros ->. vm_compute in Hf. done.
Qed.
#[local] Opaque finishExecution.

(** A finish from the running status, which ends the run. *)
Definition ended (ph : string * bool) : Prop := IsTerminalExecutionStatus ph.1 = true /\ ph.2 = false.

Lemma finish_running e status code message (Q : unit -> string * bool -> Prop) :
  mine e -> CanTransitionExecution StatusRunning status = true -> IsTerminalExecutionStatus status = true ->
  (forall ph, ended ph -> Q tt ph) ->
  wp (life key) running (finishExecution e status code message) Q.
Proof. intros [Hk _] Hc Hf HQ. apply finish_life; [done..|]. intros b ->. by apply HQ. Qed.

Lemma update_life e (Q : unit -> string * bool -> Prop) :
  mine e -> Q tt running -> wp (life key) running (updateExecution_ e) Q.
Proof.
  intros [Hk Hs] HQ. unfold updateExecution_. simpl. rewrite Hs. split; [auto|]. intros r _. exact HQ.
Qed.
#[local] Opaque updateExecution_.

Lemma ensureKernel_life server e :
  mine e ->
  wp (life key) running (ensureKernel limits server e)
    (fun r ph => ph = running /\ match r with Ok (e', _) => mine e' | Err _ => True end).
Proof.
  intros Hm. unfold ensureKernel. destruct (negb _); simpl.
  - split; [done|]. intros [[ks|]|err] _; simpl; try done. by destruct (_ || _)%bool.
  - split; [done|]. intros [n|err] _; simpl; [|done]. destruct (_ <=? _); simpl; [done|].
    split; [done|]. intros id_ _. split; [done|]. intros [[[jid kid] kname]|err] _; simpl; [|done].
    split; [done|]. intros t _. split; [done|]. intros [[]|err] _; simpl; [|done].
    split; [done|]. intros [] _. by apply wp_bind, update_life.
Qed.
#[local] Opaque ensureKernel.

Lemma runCells_life ctx server idxs i e doc :
  mine e ->
  wp (life key) running (runCells jsonLen limits Itoa ctx server idxs i e doc)
    (fun r ph => match r with LReturned => ended ph | LEnd _ e' _ => ph = running /\ mine e' end).
Proof.
  revert i e doc; induction idxs as [|idx rest IH]; intros i e doc Hm; simpl; [done|].
  split; [done|]. intros [] _; simpl; [done|]. split; [done|]. intros [[evs [r|]] timedOut] _; simpl.
  - split; [done|]. intros due _. destruct (due || _)%bool; simpl.
    + split; [done|]. intros t _. apply wp_bind, wp_bind, update_life; [done|]. simpl. split; [done|].
      intros [] _. destruct (String.eqb (er_Status r) "error"); simpl; [done|]. by apply IH.
    + destruct (String.eqb (er_Status r) "error"); simpl; [done|]. by apply IH.
  - split; [done|]. intros [] _; simpl; [done|]. split; [done|]. intros r _.
    apply wp_bind. destruct timedOut; by apply finish_running.
Qed.

Lemma conclude_life ctx server ks failed e doc :
  mine e -> wp (life key) running (conclude ctx server ks failed e doc) (fun _ ph => ended ph).
Proof.
  intros Hm. unfold conclude. simpl. split; [done|]. intros [] _; simpl.
  - split; [done|]. intros r _. split; [done|]. intros r' _. split; [done|]. intros [] _; by apply finish_running.
  - split; [done|]. intros [[]|err] _; simpl; [|by apply finish_running].
    destruct failed; [by apply finish_running|]. unfold checkConflictAndSave. simpl.
    split; [done|]. intros r _. apply wp_bind, wp_tryOk.
    destruct r as [[d h]|err]; [|destruct (isCode err _)]; simpl; try (by apply finish_running).
    all: case_match; simpl; [by apply finish_running|].
    all: split; [done|]; intros [[]|err'] _; simpl; by apply finish_running.
Qed.
#[local] Opaque conclude.

Lemma runDocument_life ctx server ks e :
  mine e -> wp (life key) running (runDocument jsonLen limits Itoa ctx server ks e) (fun _ ph => ended ph).
Proof.
  intros Hm. unfold runDocument. simpl. split; [done|]. intros [[doc h]|err] _; simpl; [|by apply finish_running].
  destruct (cellsToRun e doc) as [idxs|]; [|by apply finish_running].
  apply wp_bind, update_life; [done|]. apply wp_bind.
  eapply wp_mono; [|by apply runCells_life]. intros [failed e' doc'|] ph; simpl; [|done].
  intros [-> Hm']. by apply conclude_life.
Qed.
#[local] Opaque runDocument.

Lemma runOnKernel_life ctx server ks e :
  mine e -> wp (life key) running (runOnKernel jsonLen limits Itoa ctx server ks e) (fun _ ph => ended ph).
Proof.
  intros Hm. unfold runOnKernel. simpl. split; [done|]. intros [[]|err] _; [|by apply finish_running].
  simpl. split; [done|]. intros t _. split; [done|]. intros r _. apply wp_bind.
  eapply wp_mono; [|by apply runDocument_life]. intros [] ph Hph. simpl.
  repeat (split; [done|]; intros ? _). done.
Qed.
#[local] Opaque runOnKernel.

Definition stopped (ph : string * bool) : Prop := ended ph \/ ph = (StatusRunning, true).

Lemma runInSlot_life ctx e :
  (ex_ProjectID e, ex_ID e) = key ->
  wp (life key) (StatusQueued, false) (runInSlot jsonLen limits Itoa ctx e) (fun _ ph => stopped ph).
Proof.
  intros Hk. unfold runInSlot. simpl. split; [done|]. intros [] _.
  { apply finish_life; [done..|]. intros b ->. by left. }
  simpl. split; [done|]. intros [] _. split; [done|]. intros t _. split; [auto|].
  set (e' := ex_start StatusRunning (Some t) t e). assert (Hm : mine e') by done.
  intros [[]|err] _; simpl; [|by right]. split; [done|]. intros [] _.
  split; [done|]. intros r _.
  apply wp_mono with (Q := fun _ ph => ended ph); [intros ? ph Hph; by left|].
  destruct r as [[sv|]|err]; [destruct (String.eqb (sv_Status sv) _)| |]; try (by apply finish_running).
  apply wp_bind. eapply wp_mono; [|by apply ensureKernel_life].
  intros [[e'' ks]|err] ph; simpl; [|intros [-> _]; by apply finish_running].
  intros [-> Hm']. split; [done|]. intros m _. split; [done|]. intros [] _; simpl; [|by apply finish_running].
  apply wp_bind. eapply wp_mono; [|by apply runOnKernel_life]. intros [] ph Hph. simpl. done.
Qed.

End Life.
#[local] Opaque finishExecution runInSlot.

(** C16: Whatever the repository, the notebook server, the kernel and the locks
    answer, the run of a queued execution ends, and its writes follow the
    transition table: it writes only its own row, never after a final status,
    and it always ends with one final status, unless the row could not be
    marked as running, after which it writes nothing. *)
Theorem run_ends_once ctx e (Hq : ex_Status e = StatusQueued) :
  wp (life (ex_ProjectID e, ex_ID e)) (ex_Status e, false) (runThread jsonLen limits Itoa ctx e)
    (fun _ ph => stopped ph).
Proof.
  rewrite Hq. unfold runThread, runExecution. simpl. split; [done|]. intros [] _; simpl.
  - apply wp_bind, wp_bind. eapply wp_mono; [|by apply runInSlot_life]. intros [] ph Hph. simpl.
    repeat (split; [done|]; intros ? _). done.
  - apply wp_bind. apply finish_life; [done..|]. intros b ->. simpl. split; [done|]. intros [] _. by left.
Qed.

End Run.

(** ** Recovery *)

Definition unsettled (e : NotebookExecution) : bool :=
  existsb (String.eqb (ex_Status e)) [StatusQueued; StatusRunning; StatusCancelling].

(** What settles a row: a queued one is dispatched again or fails, a running
    one fails as uncertain, a cancelling one is cancelled. *)
Definition settles (row : NotebookExecution) (c : xcall) : Prop :=
  match c with
  | CDispatch e => e = row /\ ex_Status row = StatusQueued
  | CUpdateExecution e =>
      (ex_ProjectID e, ex_ID e) = (ex_ProjectID row, ex_ID row) /\
      ((ex_Status row = StatusQueued /\ ex_Status e = StatusFailed) \/
       (ex_Status row = StatusRunning /\ ex_Status e = StatusFailed /\ ex_ErrorCode e = ErrCodeRecoveryUncertain) \/
       (ex_Status row = StatusCancelling /\ ex_Status e = StatusCancelled))
  | _ => False
  end.

(** The rows that are not yet settled: each is settled once, in order, and
    nothing runs on the way. *)
Definition recovery : discipline xreply :=
  mkDiscipline xcall xreply (list NotebookExecution)
    (fun ph c =>
       match c with
       | CDispatch _ | CUpdateExecution _ => match ph with row :: _ => settles row c | [] => False end
       | CExecuteCell _ | CSaveNotebook _ _ _ | CCreateExecution _ | COpenChannel _ _ _ | CCreateSession _ _ _ => False
       | CListByStatus l => ph = [] /\ incl [StatusQueued; StatusRunning; StatusCancelling] l
       | _ => True
       end)
    (fun _ _ _ => True)
    (fun ph c =>
       match c as c return xreply c -> list NotebookExecution with
       | CListByStatus _ => fun r => match r with Ok l => List.filter unsettled l | Err _ => ph end
       | CDispatch _ | CUpdateExecution _ => fun _ => List.tl ph
       | _ => fun _ => ph
       end).

Lemma finish_settles row rest status code message (Q : unit -> list NotebookExecution -> Prop) :
  (forall t, settles row (CUpdateExecution (ex_finish status
    (if String.eqb code "" then ex_ErrorCode row else code)
    (if String.eqb message "" then ex_ErrorMessage row else message) (Some t) t row))) ->
  Q tt rest -> wp recovery (row :: rest) (finishExecution row status code message) Q.
Proof. intros Hs HQ. simpl. split; [done|]. intros t _. split; [exact (Hs t)|]. intros r _. split; [done|]. by intros [] _. Qed.
#[local] Opaque finishExecution.

Lemma recoverOne_settles PolicyDefault row rest :
  wp recovery (if unsettled row then row :: rest else rest) (recoverOne PolicyDefault row) (fun _ ph => ph = rest).
Proof.
  unfold recoverOne, unsettled. simpl.
  destruct (String.eqb_spec (ex_Status row) StatusQueued) as [Hq|]; simpl.
  { split; [done|]. intros pol _.
    assert (Hf : forall code msg, wp recovery (row :: rest) (finishExecution row StatusFailed code msg) (fun _ ph => ph = rest))
      by (intros code msg; apply finish_settles; [split; auto|done]).
    match goal with |- wp _ _ (if ?b then _ else _) _ => destruct b end; [apply Hf|].
    simpl. split; [done|]. intros r _.
    destruct r as [[sv|]|err]; [destruct (String.eqb (sv_Status sv) _)| |]; try apply Hf. by repeat split. }
  destruct (String.eqb_spec (ex_Status row) StatusRunning) as [Hr|]; simpl.
  { apply finish_settles; [split; auto|done]. }
  destruct (String.eqb_spec (ex_Status row) StatusCancelling) as [Hc|]; simpl; [|done].
  split; [done|]. intros r _.
  assert (Hf : wp recovery (row :: rest) (finishExecution row StatusCancelled ErrCodeExecutionCancelled
    "cancelled before piper restart completed") (fun _ ph => ph = rest))
    by (apply finish_settles; [split; auto|done]).
  destruct r as [[sv|]|err]; simpl; try apply Hf. destruct (String.eqb (sv_Status sv) _); [|apply Hf].
  destruct (String.eqb _ ""); [apply Hf|]. simpl. split; [done|]. intros [[ks|]|err] _; try apply Hf.
  destruct (String.eqb _ ""); [apply Hf|]. simpl. split; [done|]. intros _ _. apply Hf.
Qed.

