(* ===== verification/ExecutionSafety.v ===== *)
(** * Notebook executions: the original notebook of a run

    When a run may write to the notebook the user sees, and what its last
    status says of it, for every answer of the notebook server. *)

From S2P Require Import Prelude Prog Jupyter ExecutionModel ExecutionService.
From stdpp Require Import options.
#[local] Open Scope Z_scope.
#[local] Set Default Proof Using "Type*".

(** ** The original notebook of a run *)

(** What the run knows of the original: nothing; that its last call read it,
    unchanged or not; that it holds the results. *)
Inductive original : Type := Unknown | Unchanged | Changed | Saved.

Definition unchanged (base : string) (r : res execErr (Notebook * string)) : option bool :=
  match r with
  | Ok (_, h) => Some (negb (String.eqb base "") && String.eqb h base)%bool
  | Err e => if isCode e ErrCodePathInvalid then Some (String.eqb base "") else None
  end.

(** A save goes to the result path, or to the original just after it was read
    unchanged; a run succeeds when the original holds the results, and
    conflicts just after it was read changed. *)
Definition keeper (path result base : string) : discipline xreply :=
  mkDiscipline xcall xreply original
    (fun ph c =>
       match c with
       | CSaveNotebook _ p _ => p = result \/ (p = path /\ ph = Unchanged)
       | CUpdateExecution e =>
           (ex_Status e = StatusSucceeded -> ph = Saved) /\ (ex_Status e = StatusConflicted -> ph = Changed)
       | _ => True
       end)
    (fun _ _ _ => True)
    (fun ph c =>
       match c as c return xreply c -> original with
       | CReadNotebook _ p => fun r =>
           match ph, String.eqb p path, unchanged base r with
           | Saved, _, _ => Saved
           | _, true, Some true => Unchanged
           | _, true, Some false => Changed
           | _, _, _ => Unknown
           end
       | CSaveNotebook _ p _ => fun r => if (is_ok r && String.eqb p path)%bool then Saved else Unknown
       | CNow => fun _ => ph
       | _ => fun _ => match ph with Saved => Saved | _ => Unknown end
       end).

Section Keeper.

Context (jsonLen : Output -> Z) (limits : Limits) (Itoa : Z -> string) (path result base : string).

Definition same_paths (e : NotebookExecution) : Prop :=
  ex_Status e = StatusRunning /\ ex_NotebookPath e = path /\ ex_ResultPath e = result /\ ex_BaseContentHash e = base.
Abbreviation K := (keeper path result base).
Context (Hne : result <> path).

Lemma finish_keeper ph e status code message (Q : unit -> original -> Prop) :
  (status = StatusSucceeded -> ph = Saved) -> (status = StatusConflicted -> ph = Changed) ->
  (forall ph', Q tt ph') -> wp K ph (finishExecution e status code message) Q.
Proof. intros Hs Hc HQ. simpl. split; [done|]. intros t _. split; [done|]. intros r _. split; [done|]. intros [] _. apply HQ. Qed.
#[local] Opaque finishExecution.

Lemma update_keeper ph e (Q : unit -> original -> Prop) :
  ex_Status e = StatusRunning -> ph <> Saved -> Q tt Unknown -> wp K ph (updateExecution_ e) Q.
Proof. intros Hs Hn HQ. unfold updateExecution_. simpl. rewrite Hs. split; [done|]. intros r _. by destruct ph. Qed.
#[local] Opaque updateExecution_.

Lemma saveResult_keeper server e doc ph (Q : res execErr unit -> original -> Prop) :
  same_paths e -> ph <> Saved -> (forall r, Q r Unknown) -> wp K ph (saveResult server e doc) Q.
Proof.
  intros (Hst & Hp & Hr & Hb) Hs HQ. unfold saveResult. simpl. split; [auto|]. intros r _.
  apply String.eqb_neq in Hne. rewrite Hr, Hne, andb_false_r. by destruct ph.
Qed.
#[local] Opaque saveResult.

Lemma checkConflict_keeper server e doc ph :
  same_paths e -> ph <> Saved ->
  wp K ph (checkConflictAndSave server e doc)
    (fun r ph' => match r with Ok true => ph' = Changed | Ok false => ph' = Saved | Err _ => True end).
Proof.
  intros (Hst & Hp & Hr & Hb) Hs. unfold checkConflictAndSave. simpl. split; [done|]. intros r _.
  rewrite Hp, Hb, String.eqb_refl. apply wp_tryOk. destruct r as [[d h]|err]; simpl.
  - destruct (String.eqb base ""); destruct (String.eqb h base); simpl; destruct ph; try done.
    all: split; [by right|]; intros [[]|err'] _; simpl; by rewrite ?String.eqb_refl.
  - destruct (isCode err _); simpl; [|done]. destruct (String.eqb base ""); simpl; destruct ph; try done.
    all: split; [by right|]; intros [[]|err'] _; simpl; by rewrite ?String.eqb_refl.
Qed.
#[local] Opaque checkConflictAndSave.

Lemma conclude_keeper ctx server ks failed e doc ph :
  same_paths e -> ph <> Saved -> wp K ph (conclude ctx server ks failed e doc) (fun _ _ => True).
Proof.
  intros He Hs. unfold conclude. simpl. split; [done|]. intros [] _; simpl.
  - split; [done|]. intros r _. apply wp_bind, saveResult_keeper; [done| |]; [by destruct ph|].
    intros r'. simpl. split; [done|]. intros [] _; by apply finish_keeper.
  - apply wp_bind, saveResult_keeper; [done| |]; [by destruct ph|]. intros [[]|err]; [|by apply finish_keeper].
    destruct failed; [by apply finish_keeper|]. apply wp_bind.
    eapply wp_mono; [|by apply checkConflict_keeper]. intros [[]|err'] ph' Hph; simpl; by apply finish_keeper.
Qed.
#[local] Opaque conclude.

Lemma runCells_keeper ctx server idxs i e doc ph :
  same_paths e -> ph <> Saved ->
  wp K ph (runCells jsonLen limits Itoa ctx server idxs i e doc)
    (fun r ph' => match r with LReturned => True | LEnd _ e' _ => ph' <> Saved /\ same_paths e' end).
Proof.
  revert i e doc ph; induction idxs as [|idx rest IH]; intros i e doc ph He Hs; simpl; [done|].
  split; [done|]. intros [] _; simpl; [by destruct ph|]. split; [done|]. intros [[evs [r|]] timedOut] _; simpl.
  - split; [done|]. intros due _.
    apply wp_bind. apply wp_mono with (Q := fun e' ph' => ph' <> Saved /\ same_paths e').
    { intros e' ph' [Hs' He']. destruct (String.eqb _ "error"); [done|by apply IH]. }
    destruct (due || _)%bool; simpl; [|by destruct ph].
    split; [done|]. intros t _. apply wp_bind, update_keeper; [by destruct He|by destruct ph|].
    simpl. split; [done|]. by intros [] _.
  - split; [done|]. intros [] _; simpl; [by destruct ph|].
    apply wp_bind, saveResult_keeper; [done| |]; [by destruct ph|]. intros r.
    apply wp_bind. destruct timedOut; by apply finish_keeper.
Qed.
#[local] Opaque runCells.

Lemma runDocument_keeper ctx server ks e ph :
  same_paths e -> ph <> Saved ->
  wp K ph (runDocument jsonLen limits Itoa ctx server ks e) (fun _ _ => True).
Proof.
  intros He Hs. unfold runDocument. simpl. split; [done|]. intros r _.
  match goal with |- wp _ ?p _ _ => assert (Hs1 : p <> Saved); [|generalize p Hs1; clear ph Hs Hs1; intros ph Hs] end.
  { destruct ph; try done; by repeat case_match. }
  destruct r as [[doc h]|err]; [|by apply finish_keeper].
  destruct (cellsToRun e doc) as [idxs|]; [|by apply finish_keeper].
  apply wp_bind, update_keeper; [by destruct He|done|]. apply wp_bind.
  eapply wp_mono; [|by apply runCells_keeper]. intros [failed e' doc'|] ph'; [|done].
  intros [Hs' He']. by apply conclude_keeper.
Qed.
#[local] Opaque runDocument.

Lemma ensureKernel_keeper server e ph :
  same_paths e -> ph <> Saved ->
  wp K ph (ensureKernel limits server e)
    (fun r ph' => ph' <> Saved /\ match r with Ok (e', _) => same_paths e' | Err _ => True end).
Proof.
  intros He Hs. assert (Hu : match ph with Saved => Saved | _ => Unknown end = Unknown) by (by destruct ph).
  unfold ensureKernel. destruct (negb _); simpl.
  - split; [done|]. rewrite Hu. intros [[k|]|err] _; simpl; try done. by destruct (_ || _)%bool.
  - split; [done|]. rewrite Hu. intros [n|err] _; simpl; [|done]. destruct (_ <=? _); simpl; [done|].
    split; [done|]. intros id_ _. split; [done|]. intros [[[jid kid] kname]|err] _; simpl; [|done].
    split; [done|]. intros t _. split; [done|]. intros [[]|err] _; simpl; [|done].
    split; [done|]. intros [] _. apply wp_bind. apply update_keeper; [by destruct He|done|]. done.
Qed.
#[local] Opaque ensureKernel.

Lemma runOnKernel_keeper ctx server ks e ph :
  same_paths e -> ph <> Saved ->
  wp K ph (runOnKernel jsonLen limits Itoa ctx server ks e) (fun _ _ => True).
Proof.
  intros He Hs. unfold runOnKernel. simpl. split; [done|]. intros [[]|err] _; [|by apply finish_keeper].
  simpl. split; [done|]. intros t _. split; [done|]. intros r _. apply wp_bind.
  eapply wp_mono; [|apply runDocument_keeper; [done|by destruct ph]]. intros [] ph' _. simpl.
  repeat (split; [done|]; intros ? _). done.
Qed.
#[local] Opaque runOnKernel.

Lemma runInSlot_keeper ctx e :
  same_paths (ex_start StatusRunning None 0 e) ->
  wp K Unknown (runInSlot jsonLen limits Itoa ctx e) (fun _ _ => True).
Proof.
  intros He. unfold runInSlot. simpl. split; [done|]. intros [] _; [by apply finish_keeper|].
  simpl. split; [done|]. intros [] _. split; [done|]. intros t _. split; [done|].
  intros [[]|err] _; simpl; [|done]. split; [done|]. intros [] _. split; [done|]. intros r _.
  destruct r as [[sv|]|err]; [destruct (String.eqb (sv_Status sv) _)| |]; try (by apply finish_keeper).
  apply wp_bind. eapply wp_mono; [|by apply ensureKernel_keeper].
  intros [[e'' ks]|err] ph [Hs He']; simpl; [|by apply finish_keeper].
  split; [done|]. intros m _. split; [done|]. intros [] _; simpl; [|by apply finish_keeper].
  apply wp_bind. eapply wp_mono; [|apply runOnKernel_keeper; [done|by destruct ph]]. intros [] ph' Hph. simpl. done.
Qed.

End Keeper.
#[local] Opaque finishExecution runInSlot.

(** C15: A run never overwrites work in the original notebook, whatever the
    server answers: it saves to the execution's result path, and to the original
    only as the next call after reading it with the hash the execution started
    from (or finding it still missing).  It records success only when the
    original then holds the results, and a conflict only just after it read a
    changed original. *)
Theorem run_keeps_original jsonLen limits Itoa ctx e (Hne : ex_ResultPath e <> ex_NotebookPath e) :
  wp (keeper (ex_NotebookPath e) (ex_ResultPath e) (ex_BaseContentHash e)) Unknown
    (runThread jsonLen limits Itoa ctx e) (fun _ _ => True).
Proof.
  unfold runThread, runExecution. simpl. split; [done|]. intros [] _; simpl.
  - apply wp_bind, wp_bind. eapply wp_mono; [|by apply runInSlot_keeper]. intros [] ph _. simpl.
    repeat (split; [done|]; intros ? _). done.
  - apply wp_bind. by apply finish_keeper.
Qed.
