(* ===== verification/ExecutionSlots.v ===== *)
(** * Notebook executions: the slots of a notebook

    For every interleaving of requests, runs, time limits, shutdowns and
    restarts: who holds the slots of a notebook, and how many are in use. *)

From S2P Require Import Prelude Prog Jupyter ExecutionModel ExecutionService ExecutionWorld.
From stdpp Require Import options.
#[local] Open Scope Z_scope.
#[local] Set Default Proof Using "Type*".

(** ** The discipline *)

(** The slot a thread holds.  Cells run, and a slot is given back, only with it. *)
Definition slots : discipline xreply :=
  mkDiscipline xcall xreply (option string)
    (fun ph c =>
       match c with
       | CAcquireSlot _ _ _ => ph = None
       | CReleaseSlot p n => ph = Some (notebookKey p n)
       | CExecuteCell _ | COpenChannel _ _ _ => ph <> None
       | _ => True
       end)
    (fun _ _ _ => True)
    (fun ph c =>
       match c as c return xreply c -> option string with
       | CAcquireSlot _ p n => fun r => if r : bool then Some (notebookKey p n) else None
       | CReleaseSlot _ _ => fun _ => None
       | _ => fun _ => ph
       end).

Section Slots.

Context (SHA256Hex : string -> string) (canonJSON : CreateExecutionRequest -> string).
Context (jsonLen : Output -> Z) (limits : Limits) (PolicyDefault : string) (Itoa : Z -> string).

Abbreviation holds ph m := (wp slots ph m (fun _ ph' => ph' = ph)).

Lemma holds_bind {A B} ph (m : X A) (f : A -> X B) :
  holds ph m -> (forall a, holds ph (f a)) -> holds ph (m ≫= f).
Proof. intros Hm Hf. apply wp_bind. eapply wp_mono; [|exact Hm]. intros a ph' ->. apply Hf. Qed.

Lemma runCells_slots ctx server idxs i e doc key :
  holds (Some key) (runCells jsonLen limits Itoa ctx server idxs i e doc).
Proof.
  revert i e doc; induction idxs as [|idx rest IH]; intros i e doc; [done|].
  simpl. split; [done|]. intros []; [done|]. intros _. split; [done|]. intros [[evs [r|]] b] _; [|wp_walk].
  simpl. split; [done|]. intros due _. destruct (due || _)%bool; simpl; [|destruct (String.eqb _ _); [done|apply IH]].
  split; [done|]. intros t _. split; [done|]. intros r' _. split; [done|]. intros r'' _.
  destruct (String.eqb _ _); [done|apply IH].
Qed.
#[local] Opaque runCells.

Lemma runDocument_slots ctx server ks e key :
  holds (Some key) (runDocument jsonLen limits Itoa ctx server ks e).
Proof.
  unfold runDocument. simpl. split; [done|]. intros [[doc h]|err] _; [|wp_walk].
  simpl. destruct (cellsToRun e doc); [|wp_walk]. simpl. split; [done|]. intros r _.
  apply (holds_bind _ (runCells _ _ _ _ _ _ _ _ _)); [apply runCells_slots|]. intros [failed e' doc'|]; [|done].
  unfold conclude, checkConflictAndSave. wp_walk.
Qed.
#[local] Opaque runDocument.

Lemma runInSlot_slots ctx e key : holds (Some key) (runInSlot jsonLen limits Itoa ctx e).
Proof.
  unfold runInSlot. simpl. split; [done|]. intros [] _; [wp_walk|].
  simpl. split; [done|]. intros _ _. split; [done|]. intros t _. split; [done|].
  intros [[]|err] _; [|done]. simpl. split; [done|]. intros _ _. split; [done|]. intros r _.
  destruct r as [[sv|]|err]; simpl; [destruct (String.eqb (sv_Status sv) _)| |]; try wp_walk.
  apply (holds_bind _ (ensureKernel _ _ _)); [unfold ensureKernel; wp_walk|].
  intros [[e' ks]|err]; [|wp_walk]. simpl. split; [done|]. intros m _. split; [done|]. intros [] _; [|wp_walk].
  simpl. split; [done|]. intros [[]|err] _; [|wp_walk].
  simpl. split; [done|]. intros t' _. split; [done|]. intros r _. apply wp_bind, wp_bind.
  eapply wp_mono; [|apply runDocument_slots]. intros [] ph ->. wp_walk.
Qed.
#[local] Opaque runInSlot.

Lemma runThread_slots ctx e : holds None (runThread jsonLen limits Itoa ctx e).
Proof.
  unfold runThread, runExecution. simpl. split; [done|]. intros [] _; [|wp_walk].
  apply wp_bind, wp_bind. eapply wp_mono; [|apply runInSlot_slots]. intros [] ph ->. wp_walk.
Qed.

Lemma forEach_slots {A} (f : A -> X unit) l : (forall x, holds None (f x)) -> holds None (forEach f l).
Proof. intros Hf. induction l as [|x l IH]; [done|]. by apply holds_bind; [apply Hf|]. Qed.
#[local] Opaque forEach.

#[local] Opaque validateRequest validateNotebookPath applyEdit.
Lemma program_slots r : holds None (program SHA256Hex canonJSON limits PolicyDefault r).
Proof.
  destruct r; simpl;
    unfold ignore, SetPolicy, CreateKernelSession, CreateExecution, WriteDocument, prepareExecution, stageCellExecution;
    try solve [wp_walk].
  split; [done|]. intros t _. split; [done|]. intros [l|err] _; [|done]. apply forEach_slots. intros ks. unfold sweepOne. wp_walk.
Qed.

Lemma recover_slots : holds None (RecoverOnStartup PolicyDefault).
Proof.
  unfold RecoverOnStartup. simpl. split; [done|]. intros [l|err] _; [|done]. apply forEach_slots.
  intros e. unfold recoverOne. repeat case_match; wp_walk.
Qed.

(** *** The slots of the world *)

Abbreviation handle := (handle jsonLen limits Itoa).

(** The threads that hold a slot of the notebook. *)
Definition holders (key : string) (held : list (option string)) : Z :=
  Z.of_nat (List.length (List.filter (fun ph => bool_decide (ph = Some key)) held)).

Lemma holders_insert key held tid old new :
  held !! tid = Some old ->
  holders key (<[tid := new]> held) =
    holders key held - Z.b2z (bool_decide (old = Some key)) + Z.b2z (bool_decide (new = Some key)).
Proof.
  unfold holders. revert tid; induction held as [|h held IH]; intros [|tid] Hl; simplify_eq/=.
  - repeat case_bool_decide; simpl; lia.
  - specialize (IH _ Hl). destruct (bool_decide (h = Some key)); simpl; lia.
Qed.

Lemma holders_app key held held' : holders key (held ++ held') = holders key held + holders key held'.
Proof. unfold holders. rewrite List.filter_app, length_app. lia. Qed.

Lemma holders_none key held : Forall (fun h => h = None) held -> holders key held = 0.
Proof. unfold holders. induction 1 as [|h held -> _ IH]; [done|]. simpl. exact IH. Qed.

(** Only the slot calls change the slots, and the threads that a call starts hold none. *)
Definition slots_effect (c : xcall) (r : xreply c) (w w' : World) : Prop :=
  match c as c return xreply c -> Prop with
  | CAcquireSlot _ p n => fun r =>
      let key := notebookKey p n in
      if r : bool then slotCount key w < li_MaxRunningPerNotebook limits /\ w_slots w' = <[key := slotCount key w + 1]> (w_slots w)
      else w_slots w' = w_slots w
  | CReleaseSlot p n => fun _ =>
      let key := notebookKey p n in w_slots w' = <[key := slotCount key w - 1]> (w_slots w)
  | _ => fun _ => w_slots w' = w_slots w
  end r.

Lemma handle_slots c tid i w r w' new :
  handle c tid i w = Some (r, w', new) -> slots_effect c r w w' /\ Forall (fun m : X unit => holds None m) new.
Proof.
  destruct c; simpl; intros Hh.
  all: try (apply dbRead_inv in Hh as [-> ->]; done).
  all: try (apply dbWrite_inv in Hh as [-> [->|Hw]]; [done|]; (split; [|done]);
    unfold insertExec, updateExec, insertKernel, updateKernel in Hw; repeat case_match; simplify_eq/=; done).
  all: unfold external in Hh; repeat case_match; try (apply bind_Some in Hh as (mu & Hmu & Hh); repeat case_match).
  all: simplify_eq/=; (split; [try done|first [by apply Forall_nil | apply Forall_singleton, runThread_slots]]).
  split; [by apply Z.ltb_lt|done].
Qed.

(** Every slot in use is one thread's, and no notebook is over its limit. *)
Definition slots_inv (w : World) (held : list (option string)) : Prop :=
  forall key, slotCount key w = holders key held /\ slotCount key w <= li_MaxRunningPerNotebook limits.

Lemma slots_keep w held tid h c i r w' new :
  slots_inv w held -> held !! tid = Some h -> allowed slots h c -> handle c tid i w = Some (r, w', new) ->
  rely slots h c r /\ exists held', Forall2 (obeys slots (fun h => h = None)) held' new /\
    slots_inv w' (<[tid := next slots h c r]> held ++ held').
Proof.
  intros Hi Hl Ha Hh. split; [done|]. apply handle_slots in Hh as [He Hn].
  exists (replicate (List.length new) None). split.
  { clear -Hn. induction Hn as [|m ms Hm _ IH]; simpl; constructor; [exact Hm|exact IH]. }
  intros key. destruct (Hi key) as [Hk Hm].
  rewrite holders_app, (holders_none key (replicate _ _)) by (by apply Forall_replicate).
  rewrite (holders_insert key _ _ _ _ Hl).
  assert (Hid : w_slots w' = w_slots w -> next slots h c r = h ->
    slotCount key w' = holders key held - Z.b2z (bool_decide (h = Some key)) +
      Z.b2z (bool_decide (next slots h c r = Some key)) + 0 /\ slotCount key w' <= li_MaxRunningPerNotebook limits).
  { unfold slotCount in *. intros -> ->. lia. }
  destruct c; try (by apply Hid); simpl in *; clear Hid.
  - subst h. destruct r; [destruct He as [Hlt He]|]; unfold slotCount in *; rewrite He; [|simpl; lia].
    destruct (decide (key = notebookKey projectID notebookName)) as [->|Hne].
    + rewrite lookup_insert_eq. repeat case_bool_decide; simplify_eq/=; lia.
    + rewrite lookup_insert_ne by done. repeat case_bool_decide; simplify_eq/=; lia.
  - subst h. unfold slotCount in *; rewrite He.
    destruct (decide (key = notebookKey projectID notebookName)) as [->|Hne].
    + rewrite lookup_insert_eq. repeat case_bool_decide; simplify_eq/=; lia.
    + rewrite lookup_insert_ne by done. repeat case_bool_decide; simplify_eq/=; lia.
Qed.

Lemma slots_init : 0 <= li_MaxRunningPerNotebook limits -> forall held, Forall (fun h => h = None) held ->
  slots_inv emptyWorld held.
Proof. intros Hm held Hh key. unfold slotCount. simpl. rewrite lookup_empty, holders_none by done. by split. Qed.

Abbreviation step := (step SHA256Hex canonJSON jsonLen limits PolicyDefault Itoa).
Abbreviation exec := (exec SHA256Hex canonJSON jsonLen limits PolicyDefault Itoa).
Abbreviation slots_good := (good World slots (fun h => h = None) slots_inv).

Lemma slots_step o s s' : 0 <= li_MaxRunningPerNotebook limits -> slots_good s -> step o s = Some s' -> slots_good s'.
Proof.
  intros Hm Hg Hs. destruct o as [tid i|r|ctx|m| |]; simpl in Hs; simplify_eq.
  - eapply good_step; [|exact Hg|exact Hs]. intros. by eapply slots_keep.
  - destruct Hg as (held & Hf & Hi). exists (held ++ [None]). split.
    + apply Forall2_app; [done|]. repeat constructor. apply program_slots.
    + intros key. rewrite holders_app. destruct (Hi key). by rewrite Z.add_0_r.
  - exact Hg.
  - exact Hg.
  - exact Hg.
  - exists [None]. split; [repeat constructor; apply recover_slots|].
    intros key. by apply slots_init; [|repeat constructor].
Qed.

Lemma slots_run ops s s' :
  0 <= li_MaxRunningPerNotebook limits -> slots_good s -> exec ops s = Some s' -> slots_good s'.
Proof.
  intros Hm. revert s; induction ops as [|o ops IH]; intros s Hg He; simpl in He; [by simplify_eq|].
  apply bind_Some in He as (s1 & Hs & He). eapply IH; [|exact He]. by eapply slots_step.
Qed.

End Slots.

(** C12: However the requests, runs, time limits, shutdowns and restarts
    interleave, the slots of a notebook are never over [max_running_per_notebook],
    and each one in use belongs to exactly one thread: no thread opens a kernel
    channel or runs a cell without one, gives back a slot it does not hold, or
    ends with one. *)
Theorem slots_respected SHA256Hex canonJSON jsonLen raw PolicyDefault Itoa ops s
    (Hrun : exec SHA256Hex canonJSON jsonLen (normalize raw) PolicyDefault Itoa ops (emptyWorld, []) = Some s) :
  exists held : list (option string),
    Forall2 (fun h (t : X unit) =>
      match t with
      | Call (CExecuteCell _) _ | Call (COpenChannel _ _ _) _ => h <> None
      | Call (CReleaseSlot p n) _ => h = Some (notebookKey p n)
      | Ret _ => h = None
      | _ => True
      end) held s.2 /\
    forall key, slotCount key s.1 = holders key held /\ slotCount key s.1 <= li_MaxRunningPerNotebook (normalize raw).
Proof.
  assert (Hm : 0 <= li_MaxRunningPerNotebook (normalize raw)).
  { unfold normalize, orPositive. simpl. destruct (Z.leb_spec (li_MaxRunningPerNotebook raw) 0); lia. }
  eapply slots_run in Hrun as (held & Hf & Hi); [|exact Hm|].
  - exists held. split; [|exact Hi]. eapply Forall2_impl; [exact Hf|].
    intros h [u|c k] Ho; [exact Ho|]. destruct Ho as [Ha _]. by destruct c.
  - exists []. split; [constructor|]. by apply slots_init.
Qed.
