(* ===== verification/ExecutionApproval.v ===== *)
(** * Notebook executions: approval

    In a project whose policy asks for approval, what every interleaving of
    requests, runs and restarts keeps of the rows: an execution is past
    approval only when somebody approved it. *)

From S2P Require Import Prelude Prog Jupyter ExecutionModel ExecutionService ExecutionWorld.
From stdpp Require Import options.
#[local] Open Scope Z_scope.
#[local] Set Default Proof Using "Type*".

Definition strict (policy : string) : Prop := policy = PolicyDisabled \/ policy = PolicyApprovalRequired.

Section Approval.

(** The project, and who may have approved which execution of it. *)
Context (P : string) (A : string -> string -> Prop).

Definition approved (e : NotebookExecution) : Prop :=
  ex_ProjectID e = P -> ex_ApprovedAt e <> None /\ A (ex_ApprovedBy e) (ex_ID e).

Definition gated (e : NotebookExecution) : Prop :=
  ex_Status e = StatusAwaitingApproval \/ ex_Status e = StatusCancelled \/ approved e.

(** Rows are written gated, and dispatched approved, if they are read gated and
    the policy of the project stays strict. *)
Definition approval : discipline xreply :=
  mkDiscipline xcall xreply unit
    (fun _ c =>
       match c with
       | CCreateExecution e | CUpdateExecution e => gated e
       | CDispatch e => approved e
       | CSetPolicy p v _ => p = P -> strict v
       | _ => True
       end)
    (fun _ c =>
       match c as c return xreply c -> Prop with
       | CGetPolicy p => fun r => p = P -> forall v, r = Ok v -> v = ""%string \/ strict v
       | CGetExecution p id_ => fun r => forall e, r = Ok (Some e) -> execKey e = (p, id_) /\ gated e
       | CListByStatus _ => fun r => forall l, r = Ok l -> Forall gated l
       | _ => fun _ => True
       end)
    (fun _ _ _ => tt).

Abbreviation ok m := (wp approval tt m (fun _ _ => True)).

Lemma ok_bind {B C} (m : X B) (f : B -> X C) : ok m -> (forall b, ok (f b)) -> ok (m ≫= f).
Proof. intros Hm Hf. apply wp_bind. eapply wp_mono; [|exact Hm]. intros b [] _. apply Hf. Qed.

Lemma approved_gated e : approved e -> gated e.
Proof. unfold gated. auto. Qed.

Lemma gated_approved e : gated e -> ex_Status e <> StatusAwaitingApproval -> ex_Status e <> StatusCancelled -> approved e.
Proof. unfold gated. naive_solver. Qed.

(** ** A run *)

Section Run.

Context (jsonLen : Output -> Z) (limits : Limits) (Itoa : Z -> string).

Lemma finish_ok e status code message : approved e -> ok (finishExecution e status code message).
Proof. intros He. simpl. split; [done|]. intros t _. split; [by apply approved_gated|]. wp_walk. Qed.

Lemma cancel_ok e code message : ok (finishExecution e StatusCancelled code message).
Proof. simpl. split; [done|]. intros t _. split; [by right; left|]. wp_walk. Qed.
#[local] Opaque finishExecution.

Lemma update_ok e : approved e -> ok (updateExecution_ e).
Proof. intros He. simpl. split; [by apply approved_gated|]. wp_walk. Qed.
#[local] Opaque updateExecution_.

(** The walk, where every record at hand is approved. *)
Ltac ok_walk :=
  repeat match goal with
  | |- wp _ _ (finishExecution _ _ _ _) _ => by apply finish_ok
  | |- wp _ _ (finishExecution _ _ _ _) _ => apply cancel_ok
  | |- wp _ _ (updateExecution_ _) _ => by apply update_ok
  | |- wp _ _ (_ ≫= _) _ => apply ok_bind; [|intros ?]
  | |- True => exact I
  | |- gated _ => by apply approved_gated
  | |- approved _ => done
  | |- forall _, _ => intros ?
  | |- _ /\ _ => split
  | |- _ => progress simpl
  | |- context [tryOk] => unfold tryOk
  | |- context [match ?x with _ => _ end] => destruct x
  end.

Lemma runCells_ok ctx server idxs i e doc :
  approved e ->
  wp approval tt (runCells jsonLen limits Itoa ctx server idxs i e doc)
    (fun r _ => match r with LReturned => True | LEnd _ e' _ => approved e' end).
Proof.
  revert i e doc; induction idxs as [|idx rest IH]; intros i e doc He; simpl; [done|].
  split; [done|]. intros [] _; [done|]. simpl. split; [done|]. intros [[evs [r|]] b] _; simpl.
  - split; [done|]. intros due _. apply wp_bind. apply wp_mono with (Q := fun e' _ => approved e').
    { intros e' [] He'. destruct (String.eqb _ "error"); [done|by apply IH]. }
    destruct (due || _)%bool; [|done]. simpl. split; [done|]. intros t _. apply wp_bind.
    eapply wp_mono; [|by apply update_ok]. simpl. by intros [] [] _.
  - split; [done|]. intros [] _; [done|]. simpl. split; [done|]. intros r _. apply wp_bind.
    eapply wp_mono; [|destruct b; by apply finish_ok]. done.
Qed.
#[local] Opaque runCells.

Lemma runDocument_ok ctx server ks e : approved e -> ok (runDocument jsonLen limits Itoa ctx server ks e).
Proof.
  intros He. unfold runDocument. simpl. split; [done|]. intros [[doc h]|err] _; [|by apply finish_ok].
  destruct (cellsToRun e doc); [|by apply finish_ok]. apply ok_bind; [by apply update_ok|]. intros [].
  apply wp_bind. eapply wp_mono; [|by apply runCells_ok]. intros [failed e' doc'|] []; [|done]. intros He'.
  unfold conclude, checkConflictAndSave. ok_walk.
Qed.
#[local] Opaque runDocument.

Lemma ensureKernel_ok server e : approved e ->
  wp approval tt (ensureKernel limits server e) (fun r _ => match r with Ok (e', _) => approved e' | Err _ => True end).
Proof.
  intros He. unfold ensureKernel. destruct (negb _).
  - simpl. split; [done|]. intros [[ks|]|err] _; [|done|done]. by destruct (_ || _)%bool.
  - apply wp_bind. apply wp_mono with (Q := fun _ _ => True); [|wp_walk].
    intros [ks|err] [] _; [|done]. apply wp_bind. eapply wp_mono; [|by apply update_ok]. done.
Qed.
#[local] Opaque ensureKernel.

Lemma runInSlot_ok ctx e : approved e -> ok (runInSlot jsonLen limits Itoa ctx e).
Proof.
  intros He. unfold runInSlot. simpl. split; [done|]. intros [] _; [by apply finish_ok|].
  simpl. split; [done|]. intros _ _. split; [done|]. intros t _. split; [by apply approved_gated|].
  intros [[]|err] _; [|done]. simpl. split; [done|]. intros _ _. split; [done|]. intros r _.
  destruct r as [[sv|]|err]; simpl; [destruct (String.eqb (sv_Status sv) _)| |]; try (by apply finish_ok).
  apply wp_bind. eapply wp_mono; [|by apply ensureKernel_ok].
  intros [[e' ks]|err] [] He'; [|by apply finish_ok]. simpl. split; [done|]. intros m _. split; [done|].
  intros [] _; [|by apply finish_ok]. simpl. split; [done|]. intros [[]|err] _; [|apply ok_bind; [by apply finish_ok|wp_walk]].
  simpl. split; [done|]. intros t' _. split; [done|]. intros r _. apply ok_bind; [|wp_walk].
  apply ok_bind; [by apply runDocument_ok|wp_walk].
Qed.
#[local] Opaque runInSlot.

Lemma runThread_ok ctx e : approved e -> ok (runThread jsonLen limits Itoa ctx e).
Proof.
  intros He. unfold runThread, runExecution. simpl. split; [done|]. intros [] _.
  - apply ok_bind; [|wp_walk]. apply ok_bind; [by apply runInSlot_ok|wp_walk].
  - apply ok_bind; [by apply finish_ok|wp_walk].
Qed.

End Run.
#[local] Opaque finishExecution runThread.

(** ** Requests and recovery *)

Section Requests.
#[local] Set Default Proof Using "All".

Context (SHA256Hex : string -> string) (canonJSON : CreateExecutionRequest -> string).
Context (limits : Limits) (PolicyDefault : string) (Hdefault : strict PolicyDefault).

(** What a request may do: a policy of the project stays strict, and an approver is known. *)
Definition permitted (r : request) : Prop :=
  match r with
  | RSetPolicy _ p v => p = P -> v <> PolicyAllowed
  | RApprove actor p _ id_ => p = P -> A (ac_ID actor) id_
  | _ => True
  end.

Lemma resolvePolicy_ok p :
  wp approval tt (resolvePolicy PolicyDefault p) (fun r _ => p = P -> forall v, r = Ok v -> strict v).
Proof.
  simpl. split; [done|]. intros [v|err] Hr; simpl in *; [|done]. intros Hp v' [= <-].
  destruct (Hr Hp _ eq_refl) as [->|Hv]; simpl; [done|]. by destruct Hv as [->| ->]; [left|right].
Qed.
#[local] Opaque resolvePolicy.

Lemma prepare_ok server e req :
  wp approval tt (prepareExecution SHA256Hex server e req)
    (fun r _ => match r with Ok e' => ex_ProjectID e' = ex_ProjectID e | Err _ => True end).
Proof. unfold prepareExecution, stageCellExecution. destruct (if String.eqb _ _ then _ else _); wp_walk. Qed.
#[local] Opaque prepareExecution validateRequest validateNotebookPath.

Lemma CreateExecution_ok actor p n req key :
  ok (CreateExecution SHA256Hex canonJSON limits PolicyDefault actor p n req key).
Proof.
  unfold CreateExecution. apply wp_tryOk. destruct (validateRequest req key) as [clean|err]; simpl; [|done].
  apply wp_tryOk. apply wp_mono with (Q := fun _ _ => True); [|wp_walk].
  intros [[old|]|err] [] _; [wp_walk| |done]. apply wp_tryOk. apply wp_mono with (Q := fun _ _ => True); [|wp_walk].
  intros [sv|err] [] _; [|done]. apply wp_tryOk. eapply wp_mono; [|apply resolvePolicy_ok].
  intros [pol|err] [] Hpol; [|done]. destruct (String.eqb_spec pol PolicyDisabled) as [|Hd]; [done|].
  simpl. split; [done|]. intros id_ _. split; [done|]. intros t _.
  apply wp_bind. eapply wp_mono; [|apply prepare_ok]. intros [e|err] [] He; [|done]. simpl in He.
  destruct (String.eqb_spec pol PolicyApprovalRequired) as [|Ha]; simpl.
  { split; [by left|]. wp_walk. }
  assert (Happ : forall st, approved (ex_setStatus st t e)).
  { intros st Hp. simpl in Hp. destruct (Hpol ltac:(congruence) _ eq_refl); congruence. }
  split; [done|]. intros [k|err] _; simpl; [|done]. destruct (_ <=? _); simpl; [done|].
  split; [by apply approved_gated|]. intros [[]|err] _; simpl; [|done].
  split; [done|]. intros _ _. split; [apply Happ|]. done.
Qed.
#[local] Opaque CreateExecution.

(** An execution that a request reads. *)
Lemma GetExecutionForNotebook_ok p n id_ :
  wp approval tt (GetExecutionForNotebook p n id_)
    (fun r _ => match r with Ok e => execKey e = (p, id_) /\ gated e | Err _ => True end).
Proof.
  unfold GetExecutionForNotebook, GetExecution. simpl. split; [done|]. intros [[e|]|err] Hr; simpl; try done.
  destruct (negb _); [done|]. by apply Hr.
Qed.
#[local] Opaque GetExecutionForNotebook.

Lemma CancelExecution_ok actor p n id_ : ok (CancelExecution actor p n id_).
Proof.
  apply wp_tryOk. eapply wp_mono; [|apply GetExecutionForNotebook_ok]. intros [e|err] [] H; [|done].
  apply wp_tryOk. destruct (checkOwnership _ _); [|done]. destruct (_ || _)%bool.
  { simpl. split; [done|]. intros t _. split; [by right; left|]. wp_walk. }
  destruct (String.eqb_spec (ex_Status e) StatusRunning) as [Hr|]; [|destruct (String.eqb _ _); done].
  assert (He : approved e) by (apply gated_approved; [by destruct H|by rewrite Hr..]).
  rewrite Hr. simpl. split; [done|]. intros _ _. split; [done|]. intros t _. split; [by apply approved_gated|]. wp_walk.
Qed.

Lemma ApproveExecution_ok actor p n id_ : (p = P -> A (ac_ID actor) id_) -> ok (ApproveExecution limits actor p n id_).
Proof.
  intros HA. apply wp_tryOk. eapply wp_mono; [|apply GetExecutionForNotebook_ok]. intros [e|err] [] H; [|done].
  destruct (negb _); [done|]. simpl. split; [done|]. intros [k|err] _; simpl; [|done]. destruct (_ <=? _); simpl; [done|].
  split; [done|]. intros t _. destruct H as [[= <- <-] _].
  assert (Ha : approved (ex_approve StatusQueued (ac_ID actor) (Some t) t e)) by (intros Hp; split; [done|by apply HA]).
  split; [by apply approved_gated|]. intros [[]|err] _; simpl; [|done]. wp_walk. by apply Ha.
Qed.

Lemma DenyExecution_ok actor p n id_ : ok (DenyExecution actor p n id_).
Proof.
  apply wp_tryOk. eapply wp_mono; [|apply GetExecutionForNotebook_ok]. intros [e|err] [] H; [|done].
  destruct (negb _); [done|]. simpl. split; [done|]. intros t _. split; [by right; left|]. wp_walk.
Qed.

Lemma forEach_ok {B} (f : B -> X unit) l : Forall (fun x => ok (f x)) l -> ok (forEach f l).
Proof. induction 1 as [|x l Hx _ IH]; [done|]. by apply ok_bind. Qed.
#[local] Opaque forEach CancelExecution ApproveExecution DenyExecution.

Lemma program_ok r : permitted r -> ok (program SHA256Hex canonJSON limits PolicyDefault r).
Proof.
  intros Hp. destruct r; simpl; unfold ignore; try (apply ok_bind; [|done]).
  - unfold SetPolicy. destruct (existsb _ _) eqn:Hv; [|done]. simpl. split; [|done]. intros ->.
    specialize (Hp eq_refl). apply existsb_exists in Hv as (v & Hin & ->%String.eqb_eq).
    simpl in Hin. unfold strict. naive_solver.
  - unfold CreateKernelSession. wp_walk.
  - wp_walk.
  - wp_walk.
  - wp_walk.
  - apply CreateExecution_ok.
  - apply CancelExecution_ok.
  - by apply ApproveExecution_ok.
  - apply DenyExecution_ok.
  - unfold WriteDocument. wp_walk.
  - split; [done|]. intros t _. split; [done|]. intros [l|err] _; [|done]. apply forEach_ok, Forall_true.
    intros ks. unfold sweepOne. wp_walk.
Qed.

Lemma recoverOne_ok e : gated e -> ok (recoverOne PolicyDefault e).
Proof.
  intros Hg. unfold recoverOne.
  destruct (String.eqb_spec (ex_Status e) StatusQueued) as [Hs|].
  { assert (He : approved e) by (apply gated_approved; [done|by rewrite Hs..]).
    unfold recoverQueued. apply wp_bind. eapply wp_mono; [|apply resolvePolicy_ok]. intros pol [] _.
    destruct (match pol with Ok _ => _ | Err _ => _ end); [by apply finish_ok|].
    simpl. split; [done|]. intros r _. destruct r as [[sv|]|err]; simpl; [destruct (String.eqb (sv_Status sv) _)| |];
      try (by apply finish_ok). by split. }
  destruct (String.eqb_spec (ex_Status e) StatusRunning) as [Hs|].
  { apply finish_ok, gated_approved; [done|by rewrite Hs..]. }
  destruct (String.eqb _ StatusCancelling); [|done].
  unfold recoverCancelling. apply ok_bind; [wp_walk|]. intros sv. apply ok_bind; [wp_walk|]. intros u. apply cancel_ok.
Qed.
#[local] Opaque recoverOne.

Lemma recover_ok : ok (RecoverOnStartup PolicyDefault).
Proof.
  simpl. split; [done|]. intros [l|err] Hl; [|done]. apply forEach_ok. eapply Forall_impl; [by apply Hl|].
  intros e. apply recoverOne_ok.
Qed.

(** ** The world *)

Context (jsonLen : Output -> Z) (Itoa : Z -> string).
Abbreviation handle := (handle jsonLen limits Itoa).

Record approval_inv (w : World) : Prop := {
  ai_rows : forall k e, w_execs w !! k = Some e -> execKey e = k /\ gated e;
  ai_policy : forall v, w_policies w !! P = Some v -> strict v }.

Lemma listByStatus_gated statuses w : approval_inv w -> Forall gated (listByStatus statuses w).
Proof.
  intros Hi. unfold listByStatus. rewrite merge_sort_Permutation. apply List.Forall_forall.
  intros e [He _]%filter_In. apply list_elem_of_In, list_elem_of_fmap in He as ([k e'] & -> & Hk).
  apply elem_of_map_to_list in Hk. by apply (ai_rows w Hi) in Hk as [_ Hg].
Qed.

Lemma updateRow_gated e row : execKey row = execKey e -> gated e -> gated (updateRow e row).
Proof. intros [= Hp Hi]. unfold gated, approved. simpl. by rewrite Hp, Hi. Qed.

Lemma rows_insert w k e : approval_inv w -> execKey e = k -> gated e ->
  approval_inv (w_setExecs (<[k := e]> (w_execs w)) w).
Proof.
  intros [Hr Hp] Hk Hg. split; [|exact Hp]. intros k' e'. simpl. rewrite lookup_insert_Some. naive_solver.
Qed.

Lemma approval_same w w' : w_execs w' = w_execs w -> w_policies w' = w_policies w -> approval_inv w -> approval_inv w'.
Proof. intros He Hp [H1 H2]. split; [by rewrite He|by rewrite Hp]. Qed.

Lemma handle_rely c tid i w r w' new :
  approval_inv w -> handle c tid i w = Some (r, w', new) -> rely approval tt c r.
Proof.
  intros Hi Hh. destruct c; try done; simpl in *; unfold dbRead in Hh; case_match; simplify_eq/=; try done.
  - intros -> v [= <-]. destruct (w_policies w' !! P) eqn:E; [right; by eapply ai_policy|by left].
  - intros e [= He]. by apply (ai_rows w' Hi).
  - intros l [= <-]. by apply listByStatus_gated.
Qed.

Lemma handle_inv c tid i w r w' new :
  approval_inv w -> allowed approval tt c -> handle c tid i w = Some (r, w', new) -> approval_inv w'.
Proof.
  intros Hi Ha. destruct c; simpl in *; intros Hh.
  all: try (apply dbRead_inv in Hh as [-> ->]; done).
  all: try (apply dbWrite_inv in Hh as [-> [->|Hw]]; [done|];
    unfold insertExec, updateExec, insertKernel, updateKernel in Hw; repeat case_match; simplify_eq/=).
  all: unfold external in *; repeat case_match; try (apply bind_Some in Hh as (mu & Hmu & Hh); repeat case_match).
  all: simplify_eq/=; try (by apply (approval_same w)); try done.
  - destruct Hi as [Hr Hp]. split; [done|]. simpl. intros v. rewrite lookup_insert_Some. naive_solver.
  - by apply rows_insert.
  - match goal with H : w_execs w !! execKey e = Some ?row |- _ => destruct (ai_rows w Hi _ _ H) as [Hk _]; clear H end.
    apply rows_insert; [done|exact Hk|by apply updateRow_gated].
Qed.

Lemma handle_new c tid i w r w' new :
  allowed approval tt c -> handle c tid i w = Some (r, w', new) -> Forall (fun m : X unit => ok m) new.
Proof.
  intros Ha Hh. destruct c; simpl in *.
  all: try (apply dbRead_inv in Hh as [_ ->]; done).
  all: try (apply dbWrite_inv in Hh as [-> _]; done).
  all: unfold external in *; repeat case_match; try (apply bind_Some in Hh as (mu & Hmu & Hh); repeat case_match).
  all: simplify_eq/=; try done.
  apply Forall_singleton. by apply runThread_ok.
Qed.

Abbreviation step := (step SHA256Hex canonJSON jsonLen limits PolicyDefault Itoa).
Abbreviation exec := (exec SHA256Hex canonJSON jsonLen limits PolicyDefault Itoa).
Abbreviation approval_good := (good World approval (fun _ => True) (fun w _ => approval_inv w)).

Definition permitted_op (o : op) : Prop := match o with ORequest r => permitted r | _ => True end.

Lemma approval_step o s s' : permitted_op o -> approval_good s -> step o s = Some s' -> approval_good s'.
Proof.
  intros Hp Hg Hs. destruct o as [tid i|r|ctx|m| |]; simpl in Hs; simplify_eq.
  - eapply good_step; [|exact Hg|exact Hs]. intros w phs tid' [] c i' r w' new Hi _ Ha Hh.
    split; [by eapply handle_rely|]. exists (replicate (List.length new) tt). split; [|by eapply handle_inv].
    apply handle_new in Hh; [|done]. clear -Hh. induction Hh as [|m ms Hm _ IH]; simpl; constructor; [exact Hm|exact IH].
  - destruct Hg as (phs & Hf & Hi). exists (phs ++ [tt]). split; [|done].
    apply Forall2_app; [done|]. repeat constructor. by apply program_ok.
  - destruct Hg as (phs & Hf & Hi). exists phs. split; [done|]. by apply (approval_same s.1).
  - destruct Hg as (phs & Hf & Hi). exists phs. split; [done|]. by apply (approval_same s.1).
  - destruct Hg as (phs & Hf & Hi). exists phs. split; [done|]. by apply (approval_same s.1).
  - destruct Hg as (phs & Hf & Hi). exists [tt]. split; [|by apply (approval_same s.1)].
    repeat constructor. apply recover_ok.
Qed.

Lemma approval_run ops s s' : Forall permitted_op ops -> approval_good s -> exec ops s = Some s' -> approval_inv s'.1.
Proof.
  intros Hp. revert s; induction Hp as [|o ops Ho _ IH]; intros s Hg He; simpl in He.
  - simplify_eq. by destruct Hg as (phs & _ & Hi).
  - apply bind_Some in He as (s1 & Hs & He). eapply IH; [|exact He]. by eapply approval_step.
Qed.

Lemma approval_init : approval_good (emptyWorld, []).
Proof using Type. exists []. split; [constructor|]. split; simpl; intros ?; [intros ?|]; by rewrite lookup_empty. Qed.

End Requests.

End Approval.

(** C13: In a project that asks for approval (the default policy is disabled or
    approval_required and no request sets the project's policy to allowed), every
    execution that is past approval without being cancelled was approved: the
    row says when and by whom, and that actor did ask to approve this execution.
    It holds for every interleaving of requests, runs, failures of the database,
    time limits, shutdowns and restarts. *)
Theorem approval_enforced SHA256Hex canonJSON jsonLen limits PolicyDefault Itoa ops s project key e
    (Hdefault : strict PolicyDefault)
    (Hpolicy : forall actor policy, ORequest (RSetPolicy actor project policy) ∈ ops -> policy <> PolicyAllowed)
    (Hrun : exec SHA256Hex canonJSON jsonLen limits PolicyDefault Itoa ops (emptyWorld, []) = Some s)
    (Hrow : w_execs s.1 !! key = Some e) (Hproject : ex_ProjectID e = project)
    (Hstatus : ex_Status e <> StatusAwaitingApproval /\ ex_Status e <> StatusCancelled) :
  ex_ApprovedAt e <> None /\
  exists actor notebook, ac_ID actor = ex_ApprovedBy e /\ ORequest (RApprove actor project notebook (ex_ID e)) ∈ ops.
Proof.
  pose (A := fun who id_ => exists actor notebook, ac_ID actor = who /\ ORequest (RApprove actor project notebook id_) ∈ ops).
  assert (Hp : Forall (permitted_op project A) ops).
  { apply List.Forall_forall. intros [| [] | | | |] Hin%list_elem_of_In; simpl; try done.
    - intros ->. by eapply Hpolicy.
    - intros ->. by eexists _, _. }
  eapply (approval_run project A) in Hrun as [Hr _]; [|done|exact Hp|apply approval_init].
  apply Hr in Hrow as [_ [?|[?|Ha]]]; [naive_solver..|]. by apply Ha.
Qed.
