(* ===== verification/ExecutionRows.v ===== *)
(** * Notebook executions: the rows

    What every step keeps of the table of executions: rows stay, their request
    does not change, and an idempotency key names one of them. *)

From S2P Require Import Prelude Prog Jupyter ExecutionModel ExecutionService ExecutionWorld.
From stdpp Require Import options.
#[local] Open Scope Z_scope.
#[local] Set Default Proof Using "Type*".

(** What a caller asked for: the columns that no update writes. *)
Definition request_of (e : NotebookExecution) : string * string * string * string :=
  (ex_ProjectID e, ex_NotebookName e, ex_RequestedBy e, ex_IdempotencyKey e).
Definition asked (e : NotebookExecution) : (string * string * string * string) * (string * string * string * string) * (string * string) :=
  (request_of e, (ex_NotebookPath e, ex_ResultPath e, ex_Kind e, ex_RequestHash e), (ex_SourceSHA256 e, ex_BaseContentHash e)).

Lemma asked_request e e' : asked e = asked e' -> request_of e = request_of e'.
Proof. unfold asked. congruence. Qed.

(** Every row of [w] is still in [w'] and asks for the same. *)
Definition rows_kept (w w' : World) : Prop :=
  forall key e, w_execs w !! key = Some e -> exists e', w_execs w' !! key = Some e' /\ asked e' = asked e.

Record rows_inv (w : World) : Prop := {
  ri_key : forall key e, w_execs w !! key = Some e -> execKey e = key;
  ri_request : forall key1 key2 e1 e2, w_execs w !! key1 = Some e1 -> w_execs w !! key2 = Some e2 ->
    ex_IdempotencyKey e1 <> ""%string -> request_of e1 = request_of e2 -> key1 = key2 }.

#[export] Instance rows_kept_refl : Reflexive rows_kept.
Proof. intros w key e He. eauto. Qed.

#[export] Instance rows_kept_trans : Transitive rows_kept.
Proof. intros w1 w2 w3 H12 H23 key e He. destruct (H12 _ _ He) as (e2 & H2 & <-). by apply H23. Qed.

Lemma findByKey_None p n r k w key e :
  findByKey p n r k w = None -> k <> ""%string -> w_execs w !! key = Some e -> request_of e <> (p, n, r, k).
Proof.
  unfold findByKey. intros Hf Hk He [= <- <- <- <-]. destruct (String.eqb_spec (ex_IdempotencyKey e) ""); [done|].
  apply (List.find_none _ _) with (x := e) in Hf; [|].
  - unfold same_request in Hf. by rewrite !String.eqb_refl in Hf.
  - apply list_elem_of_In, list_elem_of_fmap. exists (key, e). split; [done|]. by apply elem_of_map_to_list.
Qed.

Lemma insertExec_rows e w w' : insertExec e w = Ok w' -> rows_inv w -> rows_inv w' /\ rows_kept w w'.
Proof.
  unfold insertExec. intros Hi [Hk Hr]. repeat case_match; simplify_eq.
  match goal with H : findByKey _ _ _ _ _ = None |- _ => rename H into Hf end.
  match goal with H : w_execs w !! execKey e = None |- _ => rename H into Hn end.
  repeat split; simpl.
  - intros key e'. rewrite lookup_insert_Some. naive_solver.
  - intros key1 key2 e1 e2. rewrite !lookup_insert_Some. intros [[<- <-]|[H1 H1']] [[<- <-]|[H2 H2']] Hne He.
    + done.
    + destruct (findByKey_None _ _ _ _ _ _ _ Hf Hne H2'). by rewrite <-He.
    + destruct (findByKey_None _ _ _ _ _ key1 e1 Hf); [unfold request_of in He; congruence|done|done].
    + by eapply Hr.
  - intros key e' He'. exists e'. split; [|done]. simpl. rewrite lookup_insert_ne; [done|]. intros <-. congruence.
Qed.

Lemma updateExec_rows e w w' : updateExec e w = Ok w' -> rows_inv w -> rows_inv w' /\ rows_kept w w'.
Proof.
  unfold updateExec. intros Hu [Hk Hr]. destruct (w_execs w !! execKey e) as [row|] eqn:Hrow; simplify_eq.
  assert (Hlook : forall key e', w_execs w !! key = Some e' \/ key = execKey e /\ e' = updateRow e row ->
    exists e0, w_execs w !! key = Some e0 /\ asked e' = asked e0 /\ execKey e' = execKey e0).
  { intros key e' [He'|[-> ->]]; [by exists e'|]. by exists row. }
  assert (Hins : forall key e', <[execKey e := updateRow e row]> (w_execs w) !! key = Some e' ->
    exists e0, w_execs w !! key = Some e0 /\ asked e' = asked e0 /\ execKey e' = execKey e0).
  { intros key e'. rewrite lookup_insert_Some. intros [[<- <-]|[_ He']]; apply Hlook; auto. }
  repeat split; simpl.
  - intros key e' He'. destruct (Hins _ _ He') as (e0 & H0 & _ & ->). by apply Hk.
  - intros key1 key2 e1 e2 H1 H2 Hne He.
    destruct (Hins _ _ H1) as (e1' & H1' & Ha1%asked_request & _), (Hins _ _ H2) as (e2' & H2' & Ha2%asked_request & _).
    eapply Hr; [exact H1'|exact H2'| |congruence]. unfold request_of in *; congruence.
  - intros key e' He'. simpl. destruct (decide (key = execKey e)) as [->|Hne].
    + rewrite lookup_insert_eq. simplify_eq. by eexists.
    + rewrite lookup_insert_ne by done. eauto.
Qed.

Lemma rows_same w w' : w_execs w' = w_execs w -> rows_inv w -> rows_inv w' /\ rows_kept w w'.
Proof.
  intros He [Hk Hr]. split; [split; by rewrite He|]. intros key e H. exists e. by rewrite He.
Qed.

Section Rows.

Context (SHA256Hex : string -> string) (canonJSON : CreateExecutionRequest -> string).
Context (jsonLen : Output -> Z) (limits : Limits) (PolicyDefault : string) (Itoa : Z -> string).

Lemma handle_rows c tid i w r w' new :
  handle jsonLen limits Itoa c tid i w = Some (r, w', new) -> rows_inv w -> rows_inv w' /\ rows_kept w w'.
Proof.
  intros Hh Hi. destruct c; simpl in Hh.
  all: try (apply dbRead_inv in Hh as [-> _]; by apply rows_same).
  all: try (apply dbWrite_inv in Hh as [_ [->|Hw]]; [by apply rows_same|];
    first [ by apply insertExec_rows in Hw | by apply updateExec_rows in Hw |
      unfold insertKernel, updateKernel in Hw; repeat case_match; simplify_eq/=; by apply rows_same ]).
  all: unfold external in *; repeat case_match; try (apply bind_Some in Hh as (mu & Hmu & Hh); repeat case_match).
  all: simplify_eq/=; by apply rows_same.
Qed.

Lemma step_rows o s s' :
  step SHA256Hex canonJSON jsonLen limits PolicyDefault Itoa o s = Some s' -> rows_inv s.1 ->
  rows_inv s'.1 /\ rows_kept s.1 s'.1.
Proof.
  intros Hs Hi. destruct o; simpl in Hs; simplify_eq/=; try by apply rows_same.
  unfold thread_step in Hs. destruct (s.2 !! tid) as [[|c k]|]; try done.
  apply bind_Some in Hs as ([[r w'] new] & Hh & Hs). simplify_eq/=. by eapply handle_rows.
Qed.

Lemma exec_rows ops s s' :
  exec SHA256Hex canonJSON jsonLen limits PolicyDefault Itoa ops s = Some s' -> rows_inv s.1 ->
  rows_inv s'.1 /\ rows_kept s.1 s'.1.
Proof.
  revert s; induction ops as [|o ops IH]; intros s He Hi; simpl in He; [by simplify_eq; split|].
  apply bind_Some in He as (s1 & Hs & He). destruct (step_rows _ _ _ Hs Hi) as [Hi1 Hk1].
  destruct (IH _ He Hi1) as [Hi2 Hk2]. split; [done|]. by etrans.
Qed.

Lemma exec_rows_init : rows_inv emptyWorld.
Proof. split; simpl; intros *; by rewrite lookup_empty. Qed.

End Rows.

(** C35: At most one execution exists for a caller's idempotency key on a
    notebook, in every reachable state; and once it exists, its row stays and
    keeps what was asked (path, kind, request hash, source and base hashes), so a
    replay of the key finds it again whatever happened in between. *)
Theorem idempotency_key_names_one SHA256Hex canonJSON jsonLen limits PolicyDefault Itoa ops1 ops2 s1 s2 key1 key2 e1 e2
    (Hrun1 : exec SHA256Hex canonJSON jsonLen limits PolicyDefault Itoa ops1 (emptyWorld, []) = Some s1)
    (Hrun2 : exec SHA256Hex canonJSON jsonLen limits PolicyDefault Itoa ops2 s1 = Some s2)
    (Hrow1 : w_execs s1.1 !! key1 = Some e1) (Hrow2 : w_execs s2.1 !! key2 = Some e2)
    (Hkey : ex_IdempotencyKey e1 <> ""%string) (Hsame : request_of e1 = request_of e2) :
  key2 = key1 /\ asked e2 = asked e1 /\
  exists e, findByKey (ex_ProjectID e1) (ex_NotebookName e1) (ex_RequestedBy e1) (ex_IdempotencyKey e1) s2.1 = Some e /\ e = e2.
Proof.
  apply exec_rows in Hrun1 as [Hi1 _]; [|apply exec_rows_init]. apply exec_rows in Hrun2 as [Hi2 Hk]; [|done].
  destruct (Hk _ _ Hrow1) as (e1' & Hrow1' & Ha).
  pose proof (asked_request _ _ Ha) as Hreq.
  assert (key2 = key1) as ->.
  { eapply (ri_request _ Hi2); [exact Hrow2|exact Hrow1'| |]; unfold request_of in *; congruence. }
  assert (e1' = e2) as -> by congruence. split; [done|]. split; [exact Ha|].
  destruct (findByKey _ _ _ _ _) as [e|] eqn:Hf.
  - exists e. split; [done|]. unfold findByKey in Hf. case_match; [done|].
    apply List.find_some in Hf as [Hin Hs]. apply list_elem_of_In, list_elem_of_fmap in Hin as ([k e'] & -> & Hin).
    apply elem_of_map_to_list in Hin. simpl in *. unfold same_request in Hs.
    repeat match goal with H : (_ && _)%bool = true |- _ => apply andb_prop in H as [? ?] end.
    repeat match goal with H : String.eqb _ _ = true |- _ => apply String.eqb_eq in H end.
    assert (k = key1) as ->; [|congruence].
    eapply (ri_request _ Hi2); [exact Hin|exact Hrow2| |]; unfold request_of in *; congruence.
  - destruct (findByKey_None _ _ _ _ _ _ _ Hf Hkey Hrow2). by rewrite <-Hsame.
Qed.
