(* ===== verification/ExecutionDemo.v ===== *)
(** * Notebook executions: runs of the whole system

    Concrete parameters, and runs of the requests, the goroutine of an execution
    and the recovery, evaluated by the kernel. *)

From S2P Require Import Prelude Prog Jupyter ExecutionModel ExecutionService ExecutionWorld ExecutionRun ExecutionSafety ExecutionSlots ExecutionApproval ExecutionRows.
From stdpp Require Import options.
#[local] Open Scope Z_scope.

Definition demoSHA (s : string) : string := ("sha:" +:+ s)%string.
Definition demoJSON (req : CreateExecutionRequest) : string := (cr_Kind req +:+ ":" +:+ cr_Path req)%string.
Definition demoLen (o : Output) : Z := 10.
Definition demoItoa (n : Z) : string := if n =? 0 then "0" else "n".

Definition unset : Limits := mkLimits 0 0 0 0 0 0 0 0.
Abbreviation demo policy := (exec demoSHA demoJSON demoLen (normalize unset) policy demoItoa).

Definition demoActor : Actor := mkActor "alice" 2 "cli".
Definition demoAdmin : Actor := mkActor "root" 3 "ui".
Definition demoReq : CreateExecutionRequest := mkCreateReq KindNotebook "a.ipynb" "" None false 0.
Definition demoServer : NotebookServer := mkServer "p" "nb" serverRunning.
Definition demoDoc : Notebook := nb_setCells [mkCell "c1" "code" (NewSource "1+1") ∅ [] None] EmptyNotebook.

(** The calls of the request that creates [x] at time 1, as thread [tid], up to its admission. *)
Definition createOps (tid : nat) : list op :=
  [OThread tid (EServer (Ok (Some demoServer))); OThread tid Plain; OThread tid (EID "x"); OThread tid (ETime 1);
   OThread tid (EDoc (Ok (demoDoc, "h"%string)))].

Definition P (tid : nat) : op := OThread tid Plain.
Definition T (tid : nat) (t : Z) : op := OThread tid (ETime t).

(** The run of [x] from the slot to the cell, from time [t], as thread [tid]. *)
Definition startOps (tid : nat) (t : Z) : list op :=
  [P tid; P tid; P tid; T tid t; P tid; P tid; OThread tid (EServer (Ok (Some demoServer)));
   P tid; OThread tid (EID "k"); OThread tid (ESession (Ok ("j", "kid", "python3")%string)); T tid t; P tid; P tid; P tid;
   P tid; P tid; OThread tid (EUnit (Ok tt)); T tid t; P tid; OThread tid (EDoc (Ok (demoDoc, "h"%string))); P tid; P tid].

(** From the cell to the end, with the original notebook unchanged. *)
Definition finishOps (tid : nat) (t : Z) : list op :=
  [OThread tid (ECell [] (Some (mkExecuteResult 1 "ok" "" "" [])) false); OThread tid (EBool true); T tid t; P tid; P tid; P tid;
   OThread tid (EUnit (Ok tt)); OThread tid (EDoc (Ok (demoDoc, "h"%string))); OThread tid (EUnit (Ok tt)); T tid t; P tid; P tid;
   T tid t; P tid; P tid; P tid; P tid; P tid].

(** The rows, and what each thread calls next. *)
Definition statuses (s : World * list (X unit)) : list string := (fun kv => ex_Status kv.2) <$> map_to_list (w_execs s.1).
Definition nextCall (m : X unit) : option xcall := match m with Ret _ => None | Call c _ => Some c end.

Definition createAllowed : list op :=
  ORequest (RCreate demoActor "p" "nb" demoReq "") :: createOps 0 ++ [P 0; P 0; P 0; P 0].
Definition createKeyed : list op :=
  ORequest (RCreate demoActor "p" "nb" demoReq "retry") :: P 0 :: createOps 0 ++ [P 0; P 0; P 0; P 0].
Definition cancelOps (tid : nat) : list op := [ORequest (RCancel demoActor "p" "nb" "x"); P tid; T tid 2; P tid; P tid].

Definition approveOps (tid : nat) : list op :=
  [ORequest (RApprove demoAdmin "p" "nb" "x"); P tid; P tid; T tid 2; P tid; P tid; P tid].
Definition createApproval : list op :=
  ORequest (RCreate demoActor "p" "nb" demoReq "") :: createOps 0 ++ [P 0].

Lemma run_some {A} (o : option A) (d : A) : (match o with Some _ => true | None => false end) = true ->
  o = Some (default d o).
Proof. by destruct o. Qed.

(** The states of the demonstrations. *)
Definition idle : World * list (X unit) := (emptyWorld, []).
Definition runningSys := default idle (demo PolicyAllowed (createAllowed ++ startOps 1 3) idle).
Definition approvedSys := default idle (demo PolicyApprovalRequired (createApproval ++ approveOps 1 ++ startOps 2 3) idle).
Definition keyedSys := default idle (demo PolicyAllowed createKeyed idle).
Definition keyedDone := default idle (demo PolicyAllowed (startOps 1 3 ++ finishOps 1 4) keyedSys).
Definition cancelledSys := default idle (demo PolicyAllowed (createAllowed ++ cancelOps 2) idle).

Definition rowOf (s : World * list (X unit)) : option NotebookExecution := w_execs s.1 !! ("p", "x")%string.
Definition noRow : NotebookExecution :=
  mkExec "" "" "" "" "" "" "" "" "" "" "" "" "" "" 0 0 "" "" "" "" None "" None 0 None None 0.

Lemma collect_bounded_witness :
  List.length (cs_outputs (collect demoLen 15 [OnOutput truncation_marker; OnOutput truncation_marker])) = 2%nat /\
  bounded demoLen 15 [truncation_marker; truncation_marker]
    (collect demoLen 15 [OnOutput truncation_marker; OnOutput truncation_marker]).
Proof. split; [by vm_compute|]. apply (collect_bounded demoLen 15 [OnOutput truncation_marker; OnOutput truncation_marker]). lia. Defined.

Lemma run_ends_once_witness :
  wp (life ("p", "x")%string) (StatusQueued, false) (runThread demoLen (normalize unset) demoItoa 0 (default noRow (rowOf keyedSys)))
    (fun _ ph => stopped ph).
Proof. exact (run_ends_once demoLen (normalize unset) demoItoa 0 (default noRow (rowOf keyedSys)) eq_refl). Defined.

Lemma run_keeps_original_witness :
  wp (keeper "a.ipynb" ".piper/executions/x/result.ipynb" "h") Unknown
    (runThread demoLen (normalize unset) demoItoa 0 (default noRow (rowOf keyedSys))) (fun _ _ => True).
Proof. apply (run_keeps_original demoLen (normalize unset) demoItoa 0 (default noRow (rowOf keyedSys))). vm_compute. congruence. Defined.

Lemma slots_respected_witness :
  (nextCall <$> runningSys.2) = [None; Some (CExecuteCell "1+1")] /\
  exists held : list (option string), holders "p/nb" held = 1 /\ List.length held = 2%nat.
Proof.
  split; [by vm_compute|].
  destruct (slots_respected demoSHA demoJSON demoLen unset PolicyAllowed demoItoa (createAllowed ++ startOps 1 3) runningSys)
    as (held & Hf & Hk); [by apply run_some; vm_compute|].
  exists held. split; [|by apply Forall2_length in Hf].
  destruct (Hk "p/nb"%string) as [<- _]. by vm_compute.
Defined.

Lemma approval_enforced_witness :
  statuses approvedSys = [StatusRunning] /\ ex_ApprovedAt (default noRow (rowOf approvedSys)) <> None.
Proof.
  split; [by vm_compute|].
  apply (approval_enforced demoSHA demoJSON demoLen (normalize unset) PolicyApprovalRequired demoItoa
    (createApproval ++ approveOps 1 ++ startOps 2 3) approvedSys "p" ("p", "x")%string).
  - by right.
  - intros actor policy Hin. exfalso. apply list_elem_of_In in Hin. simpl in Hin.
    repeat (destruct Hin as [Hin|Hin]; [discriminate|]). destruct Hin.
  - by apply run_some; vm_compute.
  - by vm_compute.
  - by vm_compute.
  - split; by vm_compute.
Defined.

Lemma idempotency_key_names_one_witness :
  statuses keyedSys = [StatusQueued] /\ statuses keyedDone = [StatusSucceeded] /\
  asked (default noRow (rowOf keyedDone)) = asked (default noRow (rowOf keyedSys)).
Proof.
  split; [by vm_compute|]. split; [by vm_compute|].
  apply (idempotency_key_names_one demoSHA demoJSON demoLen (normalize unset) PolicyAllowed demoItoa
    createKeyed (startOps 1 3 ++ finishOps 1 4) keyedSys keyedDone ("p", "x")%string ("p", "x")%string).
  - by apply run_some; vm_compute.
  - by apply run_some; vm_compute.
  - by vm_compute.
  - by vm_compute.
  - by vm_compute.
  - by vm_compute.
Defined.

(** Cancelling an execution that waits for a slot does not stop it: the row
    is cancelled and the request answers success, but the waiting goroutine is
    not told, and when it gets the slot it runs the cells and the row ends as
    succeeded. *)
Theorem cancelled_execution_still_runs :
  exists s, demo PolicyAllowed (createAllowed ++ cancelOps 2) idle = Some s /\
    statuses s = [StatusCancelled] /\ (nextCall <$> s.2) = [None; Some (CAcquireSlot 0 "p" "nb"); None] /\
  exists s', demo PolicyAllowed (startOps 1 3 ++ finishOps 1 4) s = Some s' /\
    statuses s' = [StatusSucceeded] /\ (nextCall <$> s'.2) = [None; None; None].
Proof.
  exists cancelledSys. split; [by apply run_some; vm_compute|]. split; [by vm_compute|]. split; [by vm_compute|].
  eexists. split; [by apply (run_some _ idle); vm_compute|]. split; by vm_compute.
Qed.
