(* ===== verification/Stats.v ===== *)
(** * Statistics: lines, points, cursors and pages

    The data of [pkg/statsstore], its opaque cursors ([cursor.go]) with the
    base-64 encoding they use, and the pages of a query ([spooled_backend.go]).
    The code has every function twice, for log lines and for metric points; here
    a class [Stat] says what the two have in common. *)

From S2P Require Import Prelude.
From stdpp Require Import options.
#[local] Open Scope Z_scope.

(** ** [base64.RawURLEncoding] *)

Definition alphabet : string := "ABCDEFGHIJKLMNOPQRSTUVWXYZabcdefghijklmnopqrstuvwxyz0123456789-_".

Fixpoint str_at (n : nat) (s : string) : ascii :=
  match s with
  | EmptyString => "A"%char
  | String c s => match n with O => c | S n => str_at n s end
  end.

Definition sextet (v : Z) : ascii := str_at (Z.to_nat v) alphabet.
Definition unsextet (c : ascii) : option Z := Z.of_nat <$> str_index c alphabet.

(** Three bytes become four characters; the rest of one or two bytes becomes two
    or three. *)
Fixpoint EncodeToString (l : list Z) : string :=
  match l with
  | b0 :: b1 :: b2 :: l =>
      String (sextet (b0 / 4)) (String (sextet ((b0 mod 4) * 16 + b1 / 16))
        (String (sextet ((b1 mod 16) * 4 + b2 / 64)) (String (sextet (b2 mod 64)) (EncodeToString l))))
  | [b0; b1] => String (sextet (b0 / 4)) (String (sextet ((b0 mod 4) * 16 + b1 / 16)) (String (sextet ((b1 mod 16) * 4)) ""))
  | [b0] => String (sextet (b0 / 4)) (String (sextet ((b0 mod 4) * 16)) "")
  | [] => ""
  end.

Fixpoint decodeSextets (l : list Z) : option (list Z) :=
  match l with
  | v0 :: v1 :: v2 :: v3 :: l =>
      out ← decodeSextets l;
      Some (v0 * 4 + v1 / 16 :: (v1 mod 16) * 16 + v2 / 4 :: (v2 mod 4) * 64 + v3 :: out)
  | [v0; v1; v2] => Some [v0 * 4 + v1 / 16; (v1 mod 16) * 16 + v2 / 4]
  | [v0; v1] => Some [v0 * 4 + v1 / 16]
  | [_] => None
  | [] => Some []
  end.

(** The characters of a string, without the line breaks that the decoder skips. *)
Definition is_break (c : ascii) : bool := (Ascii.eqb c (byte_of 10) || Ascii.eqb c (byte_of 13))%bool.
Fixpoint unsextets (s : string) : option (list Z) :=
  match s with
  | EmptyString => Some []
  | String c s =>
      if is_break c then unsextets s
      else v ← unsextet c; l ← unsextets s; Some (v :: l)
  end.

Definition DecodeString (s : string) : option (list Z) := l ← unsextets s; decodeSextets l.

(** ** [binary.BigEndian] *)

Fixpoint putBE (n : nat) (v : Z) : list Z :=
  match n with O => [] | S n => v / 256 ^ Z.of_nat n :: putBE n (v mod 256 ^ Z.of_nat n) end.
Definition PutUint64 (v : Z) : list Z := putBE 8 v.
Definition Uint64 (l : list Z) : Z := foldl (fun acc b => acc * 256 + b) 0 l.

(** ** Cursors *)

Definition cursorVersion : Z := 1.
Definition queryCursorVersion : Z := 2.

(** [uint64(id)] of an [int64]. *)
Definition toUint64 (id : Z) : Z := id mod 2 ^ 64.

Definition CursorFromID (id : Z) : string :=
  if id <=? 0 then "" else EncodeToString (cursorVersion :: PutUint64 (toUint64 id)).

Definition cursorForQuery (id : Z) (fingerprint : list Z) : string :=
  if id <=? 0 then "" else EncodeToString (queryCursorVersion :: PutUint64 (toUint64 id) ++ fingerprint).

Definition ErrInvalidCursor : string := "invalid statistics cursor".

(** [id == 0 || id > ^uint64(0)>>1] *)
Definition cursorID (bytes : list Z) : res string Z :=
  let id := Uint64 bytes in
  if ((id =? 0) || (2 ^ 63 - 1 <? id))%bool then Err ErrInvalidCursor else Ok id.

Definition IDFromCursor (cursor : string) : res string Z :=
  if String.eqb cursor "" then Ok 0
  else
    match DecodeString cursor with
    | Some (v :: payload) =>
        if (negb (Nat.eqb (List.length payload) 8) || negb (v =? cursorVersion))%bool then Err ErrInvalidCursor
        else cursorID payload
    | _ => Err ErrInvalidCursor
    end.

(** A byte comparison in constant time. *)
Definition equalBytes (a b : list Z) : bool :=
  if negb (Nat.eqb (List.length a) (List.length b)) then false
  else Z.eqb (foldl (fun diff xy => Z.lor diff (Z.lxor xy.1 xy.2)) 0 (zip a b)) 0.

Definition idFromQueryCursor (cursor : string) (fingerprint : list Z) : res string Z :=
  if String.eqb cursor "" then Ok 0
  else
    match DecodeString cursor with
    | None => Err ErrInvalidCursor
    | Some payload =>
        if (Nat.eqb (List.length payload) 9 && (hd 0 payload =? cursorVersion))%bool then IDFromCursor cursor
        else if (negb (Nat.eqb (List.length payload) 25) || negb (hd 0 payload =? queryCursorVersion) ||
                 negb (equalBytes (drop 9 payload) fingerprint))%bool then Err ErrInvalidCursor
        else cursorID (take 8 (drop 1 payload))
    end.

(** ** Data *)

Record LogLine := mkLogLine {
  ll_ID : Z; ll_EventID : string; ll_ProjectID : string; ll_RunID : string; ll_StepName : string;
  ll_Ts : Z; ll_Stream : string; ll_Line : string }.

(** The value of a point is its IEEE bits: nothing here computes with it. *)
Record MetricPoint := mkMetricPoint {
  mp_ID : Z; mp_EventID : string; mp_ProjectID : string; mp_RunID : string; mp_StepName : string;
  mp_Key : string; mp_Value : Z; mp_Ts : Z }.

(** Times are nanoseconds; the zero time of a bound is [None]. *)
Record LogQuery := mkLogQuery {
  lq_ProjectID : string; lq_RunID : string; lq_StepName : string; lq_Cursor : string;
  lq_Since : option Z; lq_Until : option Z; lq_Search : string; lq_Limit : Z }.

Record MetricQuery := mkMetricQuery {
  mq_ProjectID : string; mq_RunID : string; mq_StepName : string; mq_Keys : list string; mq_Cursor : string;
  mq_Since : option Z; mq_Until : option Z; mq_Limit : Z }.

#[export] Instance LogLine_eq_dec : EqDecision LogLine.
Proof. solve_decision. Defined.
#[export] Instance MetricPoint_eq_dec : EqDecision MetricPoint.
Proof. solve_decision. Defined.

Definition DefaultPageLimit : Z := 1000.
Definition MaxPageLimit : Z := 5000.

Definition NormalizeLimit (limit : Z) : Z :=
  if limit <=? 0 then DefaultPageLimit else if MaxPageLimit <? limit then MaxPageLimit else limit.

(** ** What log lines and metric points have in common *)

Class Entry (T : Type) := mkEntry {
  st_eq_dec :: EqDecision T;
  st_ID : T -> Z;
  st_setID : Z -> T -> T;
  st_EventID : T -> string;
  st_setEventID : string -> T -> T;
  st_ProjectID : T -> string }.

(** Entries and the queries that select them. *)
Class Stat (T Q : Type) := mkStat {
  st_entry :: Entry T;
  q_Cursor : Q -> string;
  q_setCursor : string -> Q -> Q;
  q_Limit : Q -> Z;
  q_setLimit : Z -> Q -> Q;
  q_fingerprint : Q -> list Z;
  q_selects : Q -> T -> bool }.

Class StatLaws (T Q : Type) `{!Stat T Q} := {
  q_Cursor_set c q : q_Cursor (q_setCursor c q) = c;
  q_Cursor_limit l q : q_Cursor (q_setLimit l q) = q_Cursor q;
  q_Limit_set l q : q_Limit (q_setLimit l q) = l;
  q_Limit_cursor c q : q_Limit (q_setCursor c q) = q_Limit q;
  q_setCursor_twice c c' q : q_setCursor c (q_setCursor c' q) = q_setCursor c q;
  q_fingerprint_cursor c q : q_fingerprint (q_setCursor c q) = q_fingerprint q;
  q_fingerprint_limit l q : q_fingerprint (q_setLimit l q) = q_fingerprint q;
  q_fingerprint_length q : List.length (q_fingerprint q) = 16%nat;
  q_fingerprint_bytes q : Forall (fun b => 0 <= b < 256) (q_fingerprint q);
  q_selects_cursor c q x : q_selects (q_setCursor c q) x = q_selects q x;
  q_selects_limit l q x : q_selects (q_setLimit l q) x = q_selects q x }.

#[export] Instance logEntry : Entry LogLine :=
  mkEntry _ _ ll_ID
    (fun v x => mkLogLine v (ll_EventID x) (ll_ProjectID x) (ll_RunID x) (ll_StepName x) (ll_Ts x) (ll_Stream x) (ll_Line x))
    ll_EventID
    (fun v x => mkLogLine (ll_ID x) v (ll_ProjectID x) (ll_RunID x) (ll_StepName x) (ll_Ts x) (ll_Stream x) (ll_Line x))
    ll_ProjectID.

#[export] Instance metricEntry : Entry MetricPoint :=
  mkEntry _ _ mp_ID
    (fun v x => mkMetricPoint v (mp_EventID x) (mp_ProjectID x) (mp_RunID x) (mp_StepName x) (mp_Key x) (mp_Value x) (mp_Ts x))
    mp_EventID
    (fun v x => mkMetricPoint (mp_ID x) v (mp_ProjectID x) (mp_RunID x) (mp_StepName x) (mp_Key x) (mp_Value x) (mp_Ts x))
    mp_ProjectID.

Section Instances.

(** [sha256.Sum256], as bytes, and [t.UTC().Format(time.RFC3339Nano)]. *)
Context (Sum256 : string -> list Z) (Format : option Z -> string).

Definition str_le (a b : string) : Prop := String.leb a b = true.
#[local] Instance str_le_dec : RelDecision str_le.
Proof. intros a b. unfold str_le. apply _. Defined.

Definition unitSep : ascii := byte_of 31.

Definition fingerprint (projectID runID step : string) (since until : option Z) (search : string) (keys : list string) : list Z :=
  take 16 (Sum256 (str_join unitSep
    [projectID; runID; step; Format since; Format until; search; str_join (byte_of 0) keys])).

Definition logFingerprint (q : LogQuery) : list Z :=
  fingerprint (lq_ProjectID q) (lq_RunID q) (lq_StepName q) (lq_Since q) (lq_Until q) (lq_Search q) [].
Definition metricFingerprint (q : MetricQuery) : list Z :=
  fingerprint (mq_ProjectID q) (mq_RunID q) (mq_StepName q) (mq_Since q) (mq_Until q) "" (merge_sort str_le (mq_Keys q)).

Definition notBefore (since : option Z) (ts : Z) : bool := match since with None => true | Some t => negb (ts <? t) end.
Definition notAfter (until : option Z) (ts : Z) : bool := match until with None => true | Some t => negb (t <? ts) end.

(** [strings.Contains] *)
Fixpoint str_contains (s sub : string) : bool :=
  (String.prefix sub s || match s with EmptyString => false | String _ s => str_contains s sub end)%bool.

(** [matchLog] without the cursor. *)
Definition logSelects (q : LogQuery) (line : LogLine) : bool :=
  (String.eqb (ll_ProjectID line) (lq_ProjectID q) && String.eqb (ll_RunID line) (lq_RunID q) &&
   String.eqb (ll_StepName line) (lq_StepName q) && notBefore (lq_Since q) (ll_Ts line) && notAfter (lq_Until q) (ll_Ts line) &&
   (String.eqb (lq_Search q) "" || str_contains (ll_Line line) (lq_Search q)))%bool.

(** [matchMetric] without the cursor. *)
Definition metricSelects (q : MetricQuery) (point : MetricPoint) : bool :=
  (String.eqb (mp_ProjectID point) (mq_ProjectID q) && String.eqb (mp_RunID point) (mq_RunID q) &&
   String.eqb (mp_StepName point) (mq_StepName q) && notBefore (mq_Since q) (mp_Ts point) && notAfter (mq_Until q) (mp_Ts point) &&
   (match mq_Keys q with [] => true | keys => existsb (String.eqb (mp_Key point)) keys end))%bool.

#[export] Instance logStat : Stat LogLine LogQuery :=
  mkStat _ _ _ lq_Cursor
    (fun c q => mkLogQuery (lq_ProjectID q) (lq_RunID q) (lq_StepName q) c (lq_Since q) (lq_Until q) (lq_Search q) (lq_Limit q))
    lq_Limit
    (fun l q => mkLogQuery (lq_ProjectID q) (lq_RunID q) (lq_StepName q) (lq_Cursor q) (lq_Since q) (lq_Until q) (lq_Search q) l)
    logFingerprint logSelects.

#[export] Instance metricStat : Stat MetricPoint MetricQuery :=
  mkStat _ _ _ mq_Cursor
    (fun c q => mkMetricQuery (mq_ProjectID q) (mq_RunID q) (mq_StepName q) (mq_Keys q) c (mq_Since q) (mq_Until q) (mq_Limit q))
    mq_Limit
    (fun l q => mkMetricQuery (mq_ProjectID q) (mq_RunID q) (mq_StepName q) (mq_Keys q) (mq_Cursor q) (mq_Since q) (mq_Until q) l)
    metricFingerprint metricSelects.

(** A digest is 32 bytes. *)
Definition digest (sum : string -> list Z) : Prop :=
  forall s, List.length (sum s) = 32%nat /\ Forall (fun b => 0 <= b < 256) (sum s).
Context (Hsum : digest Sum256).

Lemma fingerprint_shape p r s since until search keys :
  List.length (fingerprint p r s since until search keys) = 16%nat /\
  Forall (fun b => 0 <= b < 256) (fingerprint p r s since until search keys).
Proof using Hsum.
  unfold fingerprint. set (raw := str_join _ _). destruct (Hsum raw) as [Hl Hb].
  rewrite length_take, Hl. split; [done|]. by apply Forall_take.
Qed.

Lemma logStat_laws : StatLaws LogLine LogQuery.
Proof using Hsum. split; try done; intros q; apply fingerprint_shape. Qed.
Lemma metricStat_laws : StatLaws MetricPoint MetricQuery.
Proof using Hsum. split; try done; intros q; apply fingerprint_shape. Qed.

End Instances.

(** ** Round trips *)

Definition bytes (l : list Z) : Prop := Forall (fun b => 0 <= b < 256) l.

Lemma sextet_ok v : 0 <= v < 64 -> unsextet (sextet v) = Some v /\ is_break (sextet v) = false.
Proof.
  intros Hv.
  assert (H : forallb (fun n => bool_decide (unsextet (sextet (Z.of_nat n)) = Some (Z.of_nat n)) && negb (is_break (sextet (Z.of_nat n))))%bool
    (seq 0 64) = true) by (vm_compute; reflexivity).
  rewrite forallb_forall in H. specialize (H (Z.to_nat v)). rewrite Z2Nat.id in H by lia.
  destruct (andb_prop _ _ (H ltac:(apply in_seq; lia))) as [H1%bool_decide_eq_true H2%negb_true_iff]. done.
Qed.

Lemma unsextets_cons v s : 0 <= v < 64 -> unsextets (String (sextet v) s) = (l ← unsextets s; Some (v :: l)).
Proof. intros Hv. destruct (sextet_ok v Hv) as [H1 H2]. simpl. by rewrite H2, H1. Qed.

Lemma decode_encode l : bytes l -> DecodeString (EncodeToString l) = Some l.
Proof.
  unfold DecodeString. intros Hb. cut (exists vs, unsextets (EncodeToString l) = Some vs /\ decodeSextets vs = Some l).
  { by intros (vs & -> & H). }
  remember (List.length l) as n eqn:Hn. revert l Hn Hb. induction n as [n IH] using lt_wf_ind. intros l -> Hb.
  destruct l as [|b0 [|b1 [|b2 l]]]; unfold bytes in Hb; rewrite ?Forall_cons in Hb.
  - by exists [].
  - destruct Hb as (H0 & _). exists [b0 / 4; b0 mod 4 * 16]. cbn [EncodeToString].
    rewrite !unsextets_cons by (Z.to_euclidean_division_equations; lia). split; [done|]. simpl. f_equal. f_equal.
    Z.to_euclidean_division_equations; lia.
  - destruct Hb as (H0 & H1 & _). exists [b0 / 4; b0 mod 4 * 16 + b1 / 16; b1 mod 16 * 4]. cbn [EncodeToString].
    rewrite !unsextets_cons by (Z.to_euclidean_division_equations; lia). split; [done|]. simpl. f_equal. f_equal; [|f_equal];
    Z.to_euclidean_division_equations; lia.
  - destruct Hb as (H0 & H1 & H2 & Hb). destruct (IH (List.length l) ltac:(simpl; lia) l eq_refl Hb) as (vs & Hu & Hd).
    exists (b0 / 4 :: b0 mod 4 * 16 + b1 / 16 :: b1 mod 16 * 4 + b2 / 64 :: b2 mod 64 :: vs). cbn [EncodeToString].
    rewrite !unsextets_cons by (Z.to_euclidean_division_equations; lia). rewrite Hu. split; [done|]. simpl. rewrite Hd. simpl. f_equal.
    f_equal; [|f_equal; [|f_equal]]; Z.to_euclidean_division_equations; lia.
Qed.

Lemma putBE_length n v : List.length (putBE n v) = n.
Proof. revert v; induction n as [|n IH]; intros v; simpl; [done|]. by rewrite IH. Qed.

Lemma putBE_bytes n v : 0 <= v < 256 ^ Z.of_nat n -> bytes (putBE n v).
Proof.
  revert v; induction n as [|n IH]; intros v Hv; simpl; [constructor|].
  rewrite Nat2Z.inj_succ, Z.pow_succ_r in Hv by lia. assert (0 < 256 ^ Z.of_nat n) by (apply Z.pow_pos_nonneg; lia).
  constructor.
  - split; [apply Z.div_pos; lia|apply Z.div_lt_upper_bound; lia].
  - apply IH. by apply Z.mod_pos_bound.
Qed.

Lemma Uint64_putBE n v acc : 0 <= v < 256 ^ Z.of_nat n ->
  foldl (fun acc b => acc * 256 + b) acc (putBE n v) = acc * 256 ^ Z.of_nat n + v.
Proof.
  revert v acc; induction n as [|n IH]; intros v acc Hv; simpl.
  - rewrite Z.pow_0_r in *. lia.
  - assert (0 < 256 ^ Z.of_nat n) by (apply Z.pow_pos_nonneg; lia).
    rewrite IH by (by apply Z.mod_pos_bound). rewrite Nat2Z.inj_succ, Z.pow_succ_r by lia.
    pose proof (Z.div_mod v (256 ^ Z.of_nat n)). lia.
Qed.

Lemma Uint64_PutUint64 v : 0 <= v < 2 ^ 64 -> Uint64 (PutUint64 v) = v.
Proof. intros Hv. unfold Uint64, PutUint64. rewrite Uint64_putBE; [lia|]. by change (256 ^ Z.of_nat 8) with (2 ^ 64). Qed.

Lemma PutUint64_bytes v : 0 <= v < 2 ^ 64 -> bytes (PutUint64 v).
Proof. intros Hv. apply putBE_bytes. by change (256 ^ Z.of_nat 8) with (2 ^ 64). Qed.

Lemma equalBytes_spec a b : List.length a = List.length b -> bytes a -> bytes b -> equalBytes a b = true <-> a = b.
Proof.
  intros Hl Ha Hb. unfold equalBytes. rewrite Hl, Nat.eqb_refl. simpl. rewrite Z.eqb_eq.
  assert (Hz : forall acc, foldl (fun diff (xy : Z * Z) => Z.lor diff (Z.lxor xy.1 xy.2)) acc (zip a b) = 0 <-> acc = 0 /\ a = b).
  { clear Ha Hb. revert b Hl; induction a as [|x a IH]; intros [|y b] Hl acc; simpl in *; try done; [naive_solver|].
    rewrite IH, Z.lor_eq_0_iff, Z.lxor_eq_0_iff by lia. naive_solver. }
  rewrite Hz. naive_solver.
Qed.

Section Cursors.

Context (id : Z) (Hid : 0 < id < 2 ^ 63).

Lemma toUint64_id : toUint64 id = id.
Proof using Hid. unfold toUint64. apply Z.mod_small. lia. Qed.

Lemma cursorID_put : cursorID (PutUint64 id) = Ok id.
Proof using Hid.
  unfold cursorID. rewrite Uint64_PutUint64 by lia. destruct (Z.eqb_spec id 0), (Z.ltb_spec (2 ^ 63 - 1) id); simpl; [lia..|done].
Qed.

Lemma encode_nonempty b l : String.eqb (EncodeToString (b :: l)) "" = false.
Proof. by destruct l as [|b1 [|b2 l]]. Qed.

Lemma IDFromCursor_of : IDFromCursor (CursorFromID id) = Ok id.
Proof using Hid.
  unfold CursorFromID, IDFromCursor. destruct (Z.leb_spec id 0); [lia|]. rewrite encode_nonempty, toUint64_id.
  rewrite decode_encode; [|constructor; [unfold cursorVersion; lia|apply PutUint64_bytes; lia]].
  unfold PutUint64. rewrite putBE_length, Z.eqb_refl. apply cursorID_put.
Qed.

Lemma decode_query_cursor fp : bytes fp ->
  DecodeString (cursorForQuery id fp) = Some (queryCursorVersion :: PutUint64 id ++ fp).
Proof using Hid.
  intros Hb. unfold cursorForQuery. destruct (Z.leb_spec id 0); [lia|]. rewrite toUint64_id. apply decode_encode.
  constructor; [unfold queryCursorVersion; lia|]. apply Forall_app. split; [apply PutUint64_bytes; lia|done].
Qed.

(** A cursor carries exactly the number it was made from back to the query it
    was made for, and no other query accepts it: decoding inverts encoding for
    every positive 63-bit number, and a different fingerprint is refused.
    (A cursor of the first version has no fingerprint and is accepted by every
    query.) *)
Theorem cursor_roundtrip fp fp' (Hb : bytes fp) (Hb' : bytes fp') (Hl : List.length fp = 16%nat) (Hl' : List.length fp' = 16%nat) :
  idFromQueryCursor (cursorForQuery id fp) fp' = (if decide (fp = fp') then Ok id else Err ErrInvalidCursor) /\
  idFromQueryCursor (CursorFromID id) fp' = Ok id.
Proof using Hid.
  split.
  - unfold idFromQueryCursor. rewrite decode_query_cursor by done.
    unfold cursorForQuery. destruct (Z.leb_spec id 0); [lia|]. rewrite encode_nonempty.
    pose proof cursorID_put as Hput. assert (Hp8 : List.length (PutUint64 id) = 8%nat) by apply putBE_length.
    revert Hput Hp8. generalize (PutUint64 id) as p. intros p Hput Hp8. cbn [List.length hd drop]. rewrite length_app, Hp8, Hl. simpl.
    rewrite drop_0, take_app_length', drop_app_length' by done.
    destruct (decide (fp = fp')) as [<-|Hne].
    + rewrite (proj2 (equalBytes_spec fp fp eq_refl Hb Hb) eq_refl). exact Hput.
    + destruct (equalBytes fp fp') eqn:E; [|done]. apply equalBytes_spec in E; [done|by rewrite Hl|done|done].
  - pose proof IDFromCursor_of as H. unfold idFromQueryCursor.
    destruct (String.eqb_spec (CursorFromID id) "") as [E|_].
    { unfold CursorFromID in E. destruct (Z.leb_spec id 0); [lia|]. pose proof (encode_nonempty cursorVersion (PutUint64 (toUint64 id))) as Hn.
      rewrite E in Hn. done. }
    assert (Hd : DecodeString (CursorFromID id) = Some (cursorVersion :: PutUint64 id)).
    { unfold CursorFromID. destruct (Z.leb_spec id 0); [lia|]. rewrite toUint64_id. apply decode_encode.
      constructor; [unfold cursorVersion; lia|apply PutUint64_bytes; lia]. }
    rewrite Hd. cbn [List.length hd]. rewrite (putBE_length 8 id : List.length (PutUint64 id) = 8%nat). exact H.
Qed.

End Cursors.
