(* ===== verification/StatsPages.v ===== *)
(** * Statistics: pages of a query

    What [QueryLogs] and [QueryMetrics] of [spooled_backend.go] make of the
    backend's page and of the records that are still in the spool, and what a
    client gets that follows the cursors. *)

From S2P Require Import Prelude Stats.
From stdpp Require Import options.
#[local] Open Scope Z_scope.

Section Pages.

Context {T Q : Type} `{!Stat T Q}.

(** ** Pages *)

Definition by_id (x y : T) : Prop := st_ID x <= st_ID y.
#[export] Instance by_id_dec : RelDecision by_id.
Proof. intros x y. unfold by_id. apply _. Defined.

Definition limitOf (q : Q) : nat := Z.to_nat (NormalizeLimit (q_Limit q)).

Definition CursorForQuery (id : Z) (q : Q) : string := cursorForQuery id (q_fingerprint q).
Definition IDFromQuery (q : Q) : res string Z := idFromQueryCursor (q_Cursor q) (q_fingerprint q).

Definition withLimit (limit : Z) (q : Q) : Q := q_setLimit limit q.

(** The lines of a page and its next cursor. *)
Definition pageFrom (lines : list T) (q : Q) : list T * string :=
  if Nat.ltb (limitOf q) (List.length lines)
  then (take (limitOf q) lines,
        match last (take (limitOf q) lines) with Some x => CursorForQuery (st_ID x) q | None => ""%string end)
  else (lines, ""%string).

Definition matchEntry (x : T) (q : Q) : bool :=
  match IDFromQuery q with
  | Err _ => false
  | Ok after => ((after <? st_ID x) && q_selects q x)%bool
  end.

(** An entry is identified by its event, or by its number when it has none. *)
Definition dedupKey (x : T) : bool * string * Z :=
  if negb (String.eqb (st_EventID x) "") then (true, st_EventID x, 0) else (false, ""%string, st_ID x).

Definition addEntry (byEvent : gmap (bool * string * Z) T) (x : T) : gmap (bool * string * Z) T :=
  <[dedupKey x := x]> byEvent.

(** The page of the backend (or its error), then the spooled entries that match,
    which override; [iter] is the order in which Go iterates over the map. *)
Definition mergePage {Er : Type} (iter : gmap (bool * string * Z) T -> list T) (backend : res Er (list T)) (spool : list T) (q : Q)
    : res Er (list T * string) :=
  let byEvent := foldl addEntry ∅ (match backend with Ok l => l | Err _ => [] end) in
  let byEvent := foldl addEntry byEvent (List.filter (fun x => matchEntry x q) spool) in
  let lines := iter byEvent in
  match backend, lines with
  | Err e, [] => Err e
  | _, _ => Ok (pageFrom (merge_sort by_id lines) q)
  end.

(** ** Sorted lists of numbered entries *)

Definition strict : list T -> Prop := StronglySorted (fun x y => st_ID x < st_ID y).

Definition distinct (l : list T) : Prop :=
  forall x y, x ∈ l -> y ∈ l -> st_ID x = st_ID y -> x = y.

Lemma strict_NoDup l : strict l -> NoDup l.
Proof.
  induction 1 as [|x l _ IH Hx]; constructor; [|done].
  intros Hin. rewrite Forall_forall in Hx. specialize (Hx _ Hin). lia.
Qed.

Lemma sorted_strict l : StronglySorted by_id l -> NoDup l -> distinct l -> strict l.
Proof.
  induction 1 as [|x l _ IH Hx]; intros Hn Hd; constructor; apply NoDup_cons in Hn as [Hx' Hn].
  - apply IH; [done|]. intros y z Hy Hz. apply Hd; by right.
  - rewrite Forall_forall in *. intros y Hy. specialize (Hx y Hy). unfold by_id in Hx.
    assert (st_ID x <> st_ID y); [|lia]. intros He. apply Hx'. rewrite (Hd x y); [done|by left|by right|done].
Qed.

#[local] Instance by_id_total : Total by_id.
Proof. intros x y. unfold by_id. lia. Qed.
#[local] Instance by_id_trans : Transitive by_id.
Proof. intros x y z. unfold by_id. lia. Qed.

Lemma sort_strict l : NoDup l -> distinct l -> strict (merge_sort by_id l).
Proof.
  intros Hn Hd. apply sorted_strict; [apply StronglySorted_merge_sort; apply _| |].
  - by rewrite merge_sort_Permutation.
  - intros x y. rewrite merge_sort_Permutation. apply Hd.
Qed.

(** Two strictly sorted lists with the same entries are equal. *)
Lemma strict_ext l1 l2 : strict l1 -> strict l2 -> (forall x, x ∈ l1 <-> x ∈ l2) -> l1 = l2.
Proof.
  intros H1. revert l2; induction H1 as [|x l1 H1 IH Hx]; intros l2 H2 He.
  - destruct l2 as [|y l2]; [done|]. destruct (not_elem_of_nil y). apply He. by left.
  - inversion H2 as [|y l2' H2' Hy]; subst; [destruct (not_elem_of_nil x); apply He; by left|].
    rewrite Forall_forall in Hx, Hy.
    assert (x = y) as ->.
    { assert (Hin : x ∈ y :: l2') by (apply He; by left). apply elem_of_cons in Hin as [|Hin]; [done|].
      assert (Hin' : y ∈ x :: l1) by (apply He; by left). apply elem_of_cons in Hin' as [|Hin']; [done|].
      specialize (Hx _ Hin'). specialize (Hy _ Hin). lia. }
    f_equal. apply IH; [done|]. intros z. specialize (He z). rewrite !elem_of_cons in He.
    split; intros Hz.
    + destruct (proj1 He (or_intror Hz)) as [->|]; [|done]. specialize (Hx _ Hz). lia.
    + destruct (proj2 He (or_intror Hz)) as [->|]; [|done]. specialize (Hy _ Hz). lia.
Qed.

Lemma strict_app l1 l2 : strict (l1 ++ l2) -> strict l1 /\ strict l2 /\ forall x y, x ∈ l1 -> y ∈ l2 -> st_ID x < st_ID y.
Proof.
  induction l1 as [|x l1 IH]; simpl; intros H; [split; [constructor|split; [done|by intros ? ? ?%not_elem_of_nil]]|].
  inversion H as [|? ? H' Hx]; subst. destruct (IH H') as (Ha & Hb & Hab). rewrite Forall_forall in Hx.
  split; [constructor; [done|]; apply Forall_forall; intros y Hy; apply Hx, elem_of_app; by left|]. split; [done|].
  intros y z [->|Hy]%elem_of_cons Hz; [apply Hx, elem_of_app; by right|by apply Hab].
Qed.

(** [M] lacks only entries of [R] that have at least [n] entries of [M] below them. *)
Lemma take_of_subset n M R :
  strict M -> strict R -> (forall x, x ∈ M -> x ∈ R) ->
  (forall r, r ∈ R -> r ∉ M -> exists l, NoDup l /\ List.length l = n /\ forall x, x ∈ l -> x ∈ M /\ st_ID x < st_ID r) ->
  take n M = take n R.
Proof.
  revert M R; induction n as [|n IH]; intros M R HM HR Hsub Hb; [done|].
  destruct R as [|r R].
  { destruct M as [|m M]; [done|]. destruct (not_elem_of_nil m). apply Hsub. by left. }
  inversion HR as [|? ? HR' Hr]; subst. rewrite Forall_forall in Hr.
  assert (HrM : r ∈ M).
  { destruct (decide (r ∈ M)) as [|Hno]; [done|]. destruct (Hb r ltac:(by left) Hno) as ([|x l] & _ & Hl & Hx); [done|].
    destruct (Hx x ltac:(by left)) as [Hin Hlt]. apply Hsub, elem_of_cons in Hin as [->|Hin]; [lia|]. specialize (Hr _ Hin). lia. }
  destruct M as [|m M]; [by apply not_elem_of_nil in HrM|]. inversion HM as [|? ? HM' Hm]; subst. rewrite Forall_forall in Hm.
  assert (m = r) as ->.
  { apply elem_of_cons in HrM as [|HrM]; [done|]. specialize (Hm _ HrM).
    destruct (proj1 (elem_of_cons _ _ _) (Hsub m ltac:(by left))) as [|Hin]; [done|]. specialize (Hr _ Hin). lia. }
  simpl. f_equal. apply IH; [done|done| |].
  - intros x Hx. destruct (proj1 (elem_of_cons _ _ _) (Hsub x ltac:(by right))) as [->|]; [|done]. specialize (Hm _ Hx). lia.
  - intros y Hy Hn. assert (Hny : y ∉ r :: M).
    { intros [->|]%elem_of_cons; [|done]. specialize (Hr _ Hy). lia. }
    destruct (Hb y ltac:(by right) Hny) as (l & Hnd & Hlen & Hl).
    destruct (decide (r ∈ l)) as [Hrl|Hrl].
    + apply list_elem_of_split in Hrl as (la & lb & ->). exists (la ++ lb).
      rewrite length_app in Hlen. simpl in Hlen.
      assert (Hnd' : NoDup (la ++ lb) /\ r ∉ la ++ lb).
      { rewrite <-Permutation_middle in Hnd. by apply NoDup_cons in Hnd as [? ?]. }
      split; [by destruct Hnd'|]. split; [rewrite length_app; lia|]. intros x Hx.
      destruct (Hl x) as [[->|HxM]%elem_of_cons Hlt]; [set_solver|by destruct Hnd'|done].
    + destruct l as [|x l]; [done|]. exists l. apply NoDup_cons in Hnd as [Hxl Hnd]. split; [done|]. split; [simpl in Hlen; lia|].
      intros z Hz. destruct (Hl z ltac:(by right)) as [[->|HzM]%elem_of_cons Hlt]; [destruct Hrl; by right|done].
Qed.

(** ** A backend *)

(** Which entries a backend finds for a query, cursor and limit aside: its own search
    need not be the spool's ([strings.Contains]); ClickHouse's ignores case,
    Elasticsearch's goes by words. *)
Context (finds : T -> Q -> bool).

Definition found (x : T) (q : Q) : bool :=
  match IDFromQuery q with
  | Err _ => false
  | Ok after => ((after <? st_ID x) && finds x q)%bool
  end.

(** What a backend answers: the entries it stores and finds, in the order of their
    numbers, cut to the limit of the query. *)
Definition selected (store : list T) (q : Q) : list T :=
  merge_sort by_id (List.filter (fun x => found x q) store).

Definition backendPage (store : list T) (q : Q) : list T * string :=
  pageFrom (take (S (limitOf q)) (selected store q)) q.

(** What there is to be had for a query: what the backend finds among the stored
    entries and [matchEntry] among the spooled ones, once, in the order of the
    numbers. *)
Definition everything (store spool : list T) (q : Q) : list T :=
  merge_sort by_id (remove_dups (List.filter (fun x => found x q) store ++ List.filter (fun x => matchEntry x q) spool)).

(** [QueryLogs] while the backend is up. *)
Definition query (iter : gmap (bool * string * Z) T -> list T) (store spool : list T) (q : Q) : list T * string :=
  match mergePage (Er := unit) iter (Ok (backendPage store (withLimit MaxPageLimit q)).1) spool q with
  | Ok page => page
  | Err _ => ([], ""%string)
  end.

(** A client that follows the cursors. *)
Fixpoint followCursors (iter : gmap (bool * string * Z) T -> list T) (store spool : list T) (fuel : nat) (q : Q) : list T :=
  match fuel with
  | O => []
  | S fuel =>
      let '(lines, next) := query iter store spool q in
      if String.eqb next "" then lines else lines ++ followCursors iter store spool fuel (q_setCursor next q)
  end.

(** ** The merged page *)

(** Entries with the same event or the same number are the same entry. *)
Definition consistent (l : list T) : Prop :=
  (forall x y, x ∈ l -> y ∈ l -> dedupKey x = dedupKey y -> x = y) /\ distinct l.

Lemma consistent_mono l l' : (forall x, x ∈ l -> x ∈ l') -> consistent l' -> consistent l.
Proof. intros Hs [Hk Hd]. split; intros x y Hx Hy; [apply Hk|apply Hd]; by apply Hs. Qed.

Lemma byEvent_lookup l key x :
  (forall x y, x ∈ l -> y ∈ l -> dedupKey x = dedupKey y -> x = y) ->
  foldl addEntry ∅ l !! key = Some x <-> x ∈ l /\ dedupKey x = key.
Proof.
  induction l as [|y l IH] using rev_ind; intros Hk; simpl.
  - rewrite lookup_empty. split; [done|by intros [?%not_elem_of_nil _]].
  - rewrite foldl_app. simpl. unfold addEntry at 1. rewrite lookup_insert_Some, elem_of_app, list_elem_of_singleton.
    rewrite IH by (intros ? ? ? ?; apply Hk; apply elem_of_app; by left).
    split; [intros [[<- <-]|[Hne [Hx <-]]]; auto|].
    intros [[Hx| ->] <-]; [|by left].
    destruct (decide (dedupKey y = dedupKey x)) as [He|]; [left|right; auto].
    split; [done|]. apply Hk; [apply elem_of_app; right; by apply list_elem_of_singleton|apply elem_of_app; by left|done].
Qed.

Context (iter : gmap (bool * string * Z) T -> list T).
Context (Hiter : forall m, iter m ≡ₚ (map_to_list m).*2).

Lemma iter_spec l :
  (forall x y, x ∈ l -> y ∈ l -> dedupKey x = dedupKey y -> x = y) ->
  NoDup (iter (foldl addEntry ∅ l)) /\ forall x, x ∈ iter (foldl addEntry ∅ l) <-> x ∈ l.
Proof using Hiter.
  intros Hk. set (m := foldl addEntry ∅ l). split.
  - rewrite Hiter. apply NoDup_fmap_2_strong; [|apply NoDup_map_to_list].
    intros [k1 x] [k2 y] H1 H2 Hxy. simpl in Hxy. subst y.
    apply elem_of_map_to_list in H1, H2. apply byEvent_lookup in H1 as [_ <-], H2 as [_ <-]; done.
  - intros x. rewrite Hiter, list_elem_of_fmap. split.
    + intros ([k y] & -> & Hin). apply elem_of_map_to_list, byEvent_lookup in Hin as [? _]; done.
    + intros Hx. exists (dedupKey x, x). split; [done|]. apply elem_of_map_to_list. by apply byEvent_lookup.
Qed.

Lemma limitOf_pos q : (0 < limitOf q)%nat.
Proof. unfold limitOf, NormalizeLimit, DefaultPageLimit, MaxPageLimit. repeat case_match; to_prop; lia. Qed.

Section Query.
#[local] Set Default Proof Using "All".

Context `{!StatLaws T Q}.
(** The backend takes the cursor and the limit for what they are. *)
Context (finds_cursor : forall c x q, finds x (q_setCursor c q) = finds x q).
Context (finds_limit : forall l x q, finds x (q_setLimit l q) = finds x q).

Lemma limitOf_max q : (limitOf q <= limitOf (withLimit MaxPageLimit q))%nat.
Proof.
  unfold limitOf, withLimit. rewrite q_Limit_set. unfold NormalizeLimit, DefaultPageLimit, MaxPageLimit.
  repeat case_match; to_prop; lia.
Qed.

Lemma matchEntry_limit x limit q : matchEntry x (withLimit limit q) = matchEntry x q.
Proof.
  unfold matchEntry, IDFromQuery, withLimit. rewrite q_Cursor_limit, q_fingerprint_limit. case_match; [|done].
  by rewrite q_selects_limit.
Qed.

Lemma found_limit x limit q : found x (withLimit limit q) = found x q.
Proof.
  unfold found, IDFromQuery, withLimit. rewrite q_Cursor_limit, q_fingerprint_limit. case_match; [|done].
  by rewrite finds_limit.
Qed.

Lemma selected_limit store limit q : selected store (withLimit limit q) = selected store q.
Proof.
  unfold selected. f_equal. induction store as [|x store IH]; simpl; [done|]. by rewrite found_limit, IH.
Qed.

Lemma selected_in store q x : x ∈ selected store q <-> x ∈ store /\ found x q = true.
Proof.
  unfold selected. by rewrite merge_sort_Permutation, !list_elem_of_In, filter_In.
Qed.

Lemma everything_in store spool q x :
  x ∈ everything store spool q <-> (x ∈ store /\ found x q = true) \/ (x ∈ spool /\ matchEntry x q = true).
Proof.
  unfold everything. rewrite merge_sort_Permutation, elem_of_remove_dups, elem_of_app. by rewrite !list_elem_of_In, !filter_In.
Qed.

Lemma selected_strict store q : NoDup store -> distinct store -> strict (selected store q).
Proof.
  intros Hn Hd. apply sort_strict; [by apply NoDup_ListNoDup, List.NoDup_filter, NoDup_ListNoDup|].
  intros x y [Hx _]%list_elem_of_In%filter_In [Hy _]%list_elem_of_In%filter_In.
  apply Hd; by apply list_elem_of_In.
Qed.

Lemma pageFrom_lines lines q : (pageFrom lines q).1 = take (limitOf q) lines.
Proof. unfold pageFrom. case_match eqn:E; simpl; [done|]. apply Nat.ltb_ge in E. by rewrite take_ge. Qed.

Abbreviation maxLimit q := (limitOf (withLimit MaxPageLimit q)).

Lemma backend_lines store q :
  (backendPage store (withLimit MaxPageLimit q)).1 = take (maxLimit q) (selected store q).
Proof. unfold backendPage. rewrite pageFrom_lines, selected_limit, take_take. f_equal. lia. Qed.

(** The entries of which a page is made: the backend's page and the spool's. *)
Definition entries (store spool : list T) (q : Q) : list T :=
  take (maxLimit q) (selected store q) ++ List.filter (fun x => matchEntry x q) spool.
Definition merged (store spool : list T) (q : Q) : list T :=
  merge_sort by_id (iter (foldl addEntry ∅ (entries store spool q))).

Lemma query_merged store spool q : query iter store spool q = pageFrom (merged store spool q) q.
Proof. unfold query, mergePage, merged, entries. by rewrite backend_lines, foldl_app. Qed.

Lemma entries_in store spool q x :
  x ∈ entries store spool q <-> x ∈ take (maxLimit q) (selected store q) \/ (x ∈ spool /\ matchEntry x q = true).
Proof. unfold entries. rewrite elem_of_app. f_equiv. by rewrite !list_elem_of_In, filter_In. Qed.

Lemma in_take n (l : list T) x : x ∈ take n l -> x ∈ l.
Proof. intros H. rewrite <-(take_drop n l). apply elem_of_app. by left. Qed.

Lemma entries_everything store spool q x : x ∈ entries store spool q -> x ∈ everything store spool q.
Proof. rewrite entries_in, everything_in. intros [H%in_take|H]; [apply selected_in in H|]; auto. Qed.

Lemma everything_stored store spool q x : x ∈ everything store spool q -> x ∈ store ++ spool.
Proof. rewrite everything_in, elem_of_app. tauto. Qed.

Section Store.

Context (store spool : list T) (Hstore : NoDup store) (Hc : consistent (store ++ spool)) (q : Q).
Abbreviation R := (everything store spool q).

Lemma merged_spec : strict (merged store spool q) /\ forall x, x ∈ merged store spool q <-> x ∈ entries store spool q.
Proof.
  assert (He : consistent (entries store spool q)).
  { eapply consistent_mono; [|exact Hc]. intros x Hx. by eapply everything_stored, entries_everything. }
  destruct (iter_spec _ (proj1 He)) as [Hn Hin]. unfold merged. split.
  - apply sort_strict; [done|]. intros x y Hx Hy. apply He; by apply Hin.
  - intros x. by rewrite merge_sort_Permutation.
Qed.

Lemma everything_strict q' : strict (everything store spool q').
Proof.
  apply sort_strict; [apply NoDup_remove_dups|]. intros x y. rewrite !elem_of_remove_dups, !elem_of_app, !list_elem_of_In, !filter_In.
  intros Hx Hy. apply Hc; rewrite elem_of_app, !list_elem_of_In; tauto.
Qed.
Lemma R_strict : strict R.
Proof. apply everything_strict. Qed.

(** What the merged page lacks is beyond a full page of the backend. *)
Lemma merged_take : take (maxLimit q) (merged store spool q) = take (maxLimit q) R.
Proof.
  destruct merged_spec as [Hm Hin]. apply take_of_subset; [done|apply R_strict| |].
  - intros x Hx%Hin. by apply entries_everything.
  - intros r Hr Hn. rewrite Hin, entries_in in Hn. apply everything_in in Hr.
    assert (Hs : r ∈ selected store q) by (apply selected_in; tauto).
    assert (Hst : strict (selected store q)).
    { apply selected_strict; [done|]. intros x y Hx Hy. apply Hc; apply elem_of_app; by left. }
    rewrite <-(take_drop (maxLimit q) (selected store q)) in Hs, Hst.
    apply elem_of_app in Hs as [Hs|Hs]; [naive_solver|]. apply strict_app in Hst as (Ht & _ & Hlt).
    exists (take (maxLimit q) (selected store q)). split; [by apply strict_NoDup|]. split.
    + rewrite length_take. assert (drop (maxLimit q) (selected store q) <> []) as Hd by (intros E; rewrite E in Hs; by apply not_elem_of_nil in Hs).
      assert (~ (List.length (selected store q) <= maxLimit q)%nat) by (intros ?; by apply Hd, drop_ge). lia.
    + intros x Hx. split; [apply Hin, entries_in; by left|by apply Hlt].
Qed.

Lemma page_lines : (query iter store spool q).1 = take (limitOf q) R.
Proof.
  rewrite query_merged, pageFrom_lines. pose proof (limitOf_max q) as Hle.
  rewrite <-(Nat.min_l _ _ Hle), <-!take_take. by rewrite merged_take.
Qed.

Lemma page_below_max : (limitOf q < maxLimit q)%nat -> query iter store spool q = pageFrom R q.
Proof.
  intros Hlt. rewrite query_merged. pose proof merged_take as Ht. unfold pageFrom.
  assert (Hl : Nat.min (maxLimit q) (List.length (merged store spool q)) = Nat.min (maxLimit q) (List.length R))
    by (rewrite <-!length_take; by rewrite Ht).
  assert (Hq : take (limitOf q) (merged store spool q) = take (limitOf q) R)
    by (rewrite <-(Nat.min_l (limitOf q) (maxLimit q)), <-!take_take by lia; by rewrite Ht).
  destruct (Nat.ltb_spec (limitOf q) (List.length (merged store spool q))), (Nat.ltb_spec (limitOf q) (List.length R)).
  - by rewrite Hq.
  - lia.
  - lia.
  - rewrite !take_ge in Ht by lia. by rewrite Ht.
Qed.

(** Numbers are positive [int64]s. *)
Definition numbered (l : list T) : Prop := forall x, x ∈ l -> 0 < st_ID x < 2 ^ 63.
Context (Hnum : numbered (store ++ spool)).

Lemma IDFromQuery_next id : 0 < id < 2 ^ 63 -> IDFromQuery (q_setCursor (CursorForQuery id q) q) = Ok id.
Proof.
  intros Hid. unfold IDFromQuery, CursorForQuery. rewrite q_Cursor_set, q_fingerprint_cursor.
  destruct (cursor_roundtrip id Hid (q_fingerprint q) (q_fingerprint q)) as [-> _];
    try apply q_fingerprint_bytes; try apply q_fingerprint_length. by rewrite decide_True.
Qed.

Lemma selected_next x : last (take (limitOf q) R) = Some x ->
  everything store spool (q_setCursor (CursorForQuery (st_ID x) q) q) = drop (limitOf q) R.
Proof.
  intros Hl. pose proof R_strict as HR. apply last_Some in Hl as [l Hl].
  rewrite <-(take_drop (limitOf q) R) in HR. apply strict_app in HR as (Ht & Hd & Hlt).
  assert (Hx : x ∈ take (limitOf q) R) by (rewrite Hl; apply elem_of_app; right; by apply list_elem_of_singleton).
  assert (HxR : x ∈ R) by (by eapply in_take).
  pose proof (Hnum x (everything_stored _ _ _ _ HxR)) as Hid.
  assert (Ha : exists after, IDFromQuery q = Ok after /\ after < st_ID x).
  { apply everything_in in HxR as [[_ Hm]|[_ Hm]]; unfold found, matchEntry in Hm; destruct (IDFromQuery q) as [after|]; try done;
      apply andb_prop in Hm as [Hm%Z.ltb_lt _]; eauto. }
  destruct Ha as (after & Ea & Hax).
  assert (Hnext : forall y, (found y (q_setCursor (CursorForQuery (st_ID x) q) q) = true <-> st_ID x < st_ID y /\ found y q = true) /\
                            (matchEntry y (q_setCursor (CursorForQuery (st_ID x) q) q) = true <-> st_ID x < st_ID y /\ matchEntry y q = true)).
  { intros y. unfold found, matchEntry. rewrite IDFromQuery_next, Ea, finds_cursor, q_selects_cursor, !andb_true_iff, !Z.ltb_lt by done.
    split; split; intros H; destruct_and?; split_and?; try done; lia. }
  apply strict_ext; [apply everything_strict|done|].
  intros y. rewrite everything_in, (proj1 (Hnext y)), (proj2 (Hnext y)). split.
  - intros Hy. assert (HyR : y ∈ R) by (apply everything_in; tauto). assert (Hxy : st_ID x < st_ID y) by tauto.
    rewrite <-(take_drop (limitOf q) R) in HyR. apply elem_of_app in HyR as [HyR|]; [|done].
    rewrite Hl in Ht, HyR. apply strict_app in Ht as (_ & _ & Hlx). apply elem_of_app in HyR as [HyR|HyR].
    + specialize (Hlx y x HyR ltac:(by apply list_elem_of_singleton)). lia.
    + apply list_elem_of_singleton in HyR as ->. lia.
  - intros Hy. assert (HyR : y ∈ R) by (rewrite <-(take_drop (limitOf q) R); apply elem_of_app; by right).
    specialize (Hlt x y Hx Hy). apply everything_in in HyR. tauto.
Qed.

End Store.

(** A client that follows the cursors gets every matching entry once, in order. *)
Lemma follow_all store spool fuel q :
  NoDup store -> consistent (store ++ spool) -> numbered (store ++ spool) -> (limitOf q < maxLimit q)%nat ->
  (List.length (everything store spool q) < fuel)%nat ->
  followCursors iter store spool fuel q = everything store spool q.
Proof.
  intros Hs Hc Hn. revert q; induction fuel as [|fuel IH]; intros q Hlim Hfuel; [lia|]. simpl.
  rewrite page_below_max by done. unfold pageFrom. destruct (Nat.ltb_spec (limitOf q) (List.length (everything store spool q))) as [Hlt|_]; [|done].
  destruct (last (take (limitOf q) (everything store spool q))) as [x|] eqn:El.
  - pose proof (limitOf_pos q) as Hpos.
    assert (Hid : 0 < st_ID x < 2 ^ 63).
    { apply Hn. eapply (everything_stored _ _ q), in_take. apply last_Some in El as [l ->]. apply elem_of_app. right. by apply list_elem_of_singleton. }
    assert (Hne : String.eqb (CursorForQuery (st_ID x) q) "" = false).
    { unfold CursorForQuery, cursorForQuery. destruct (Z.leb_spec (st_ID x) 0); [lia|]. apply encode_nonempty. }
    rewrite Hne, IH.
    + by rewrite (selected_next _ _ Hs Hc _ Hn _ El), take_drop.
    + unfold limitOf, withLimit in *. rewrite q_Limit_cursor, q_Limit_set in *. exact Hlim.
    + rewrite (selected_next _ _ Hs Hc _ Hn _ El), length_drop. lia.
  - apply last_None in El. pose proof (limitOf_pos q). assert (Hl : List.length (take (limitOf q) (everything store spool q)) = 0%nat) by (by rewrite El).
    rewrite length_take in Hl. lia.
Qed.

Lemma merged_backend_only store spool q :
  NoDup store -> consistent (store ++ spool) -> Forall (fun x => matchEntry x q = false) spool ->
  merged store spool q = take (maxLimit q) (selected store q).
Proof.
  intros Hs Hc Hsp. destruct (merged_spec store spool Hs Hc q) as [Hm Hin].
  assert (Hst : strict (selected store q)).
  { apply selected_strict; [done|]. intros x y Hx Hy. apply Hc; apply elem_of_app; by left. }
  apply strict_ext; [done| |].
  - rewrite <-(take_drop (maxLimit q) (selected store q)) in Hst. by apply strict_app in Hst as (? & _ & _).
  - intros x. rewrite Hin, entries_in. split; [|auto]. intros [|[Hx Hmx]]; [done|].
    rewrite Forall_forall in Hsp. by rewrite Hsp in Hmx.
Qed.

(** C36: While nothing changes, a client that asks for pages below the maximal
    size and follows the cursors gets every entry that is stored and that the
    backend finds, or that is spooled and matches there, exactly once, in the order
    of the numbers, after finitely many pages, although each page merges a page of
    the backend with the spool. For a search the two need not agree on what
    matches. *)
Theorem paging_complete store spool q fuel
    (Hstore : NoDup store) (Hconsistent : consistent (store ++ spool)) (Hnum : numbered (store ++ spool))
    (Hlimit : (limitOf q < limitOf (withLimit MaxPageLimit q))%nat)
    (Hfuel : (List.length (everything store spool q) < fuel)%nat) :
  followCursors iter store spool fuel q = everything store spool q.
Proof. by apply follow_all. Qed.

(** With the maximal page size the paging stops too early: when the backend
    has more matching entries than fit a page and the spool has none, the page
    is full but has no next cursor, so that a client that follows the cursors
    never sees the rest. *)
Theorem full_page_stops store spool q
    (Hstore : NoDup store) (Hconsistent : consistent (store ++ spool)) (Hlimit : MaxPageLimit <= q_Limit q)
    (Hmany : (limitOf q < List.length (selected store q))%nat) (Hspool : Forall (fun x => matchEntry x q = false) spool) :
  List.length (query iter store spool q).1 = limitOf q /\ (query iter store spool q).2 = ""%string.
Proof.
  assert (Hmax : maxLimit q = limitOf q).
  { unfold limitOf, withLimit. rewrite q_Limit_set. unfold NormalizeLimit, DefaultPageLimit, MaxPageLimit in *. repeat case_match; to_prop; lia. }
  rewrite query_merged, merged_backend_only by done. rewrite Hmax. unfold pageFrom.
  rewrite length_take, Nat.min_l, Nat.ltb_irrefl by lia. simpl. split; [|done]. rewrite length_take. lia.
Qed.

End Query.

End Pages.
