(* ===== verification/StatsBackends.v ===== *)
(** * Statistics: the external backends

    Choosing and checking the backends ([pkg/statsstore/open.go]), and the texts
    the adapters send: SQL for ClickHouse, Flux and line protocol for InfluxDB
    ([clickhouse.go], [influxdb.go]), with what quoting does to a value. *)

From S2P Require Import Prelude Stats StatsPages.
From stdpp Require Import options.
#[local] Open Scope string_scope.

(** ** Quoting *)

(** [strings.ReplaceAll(s, c, by)] for a one-byte [c]. *)
Fixpoint replaceChar (c : ascii) (by_ : string) (s : string) : string :=
  match s with
  | EmptyString => EmptyString
  | String d s => ((if Ascii.eqb d c then by_ else String d EmptyString) +:+ replaceChar c by_ s)%string
  end.

Definition quote : ascii := byte_of 39.
Definition dquote : ascii := byte_of 34.
Definition newline : ascii := byte_of 10.
Definition one (c : ascii) : string := String c EmptyString.
Definition escaped (c : ascii) : string := String backslash (one c).

Definition chQuote (value : string) : string := one quote +:+ replaceChar quote (escaped quote) value +:+ one quote.

(** [strings.NewReplacer] with one-byte keys looks at every byte once. *)
Fixpoint influxEscape (v : string) : string :=
  match v with
  | EmptyString => EmptyString
  | String c v =>
      ((if (Ascii.eqb c (byte_of 32) || Ascii.eqb c (byte_of 44) || Ascii.eqb c (byte_of 61))%bool then escaped c else one c) +:+ influxEscape v)%string
  end.

Definition fluxQuote (v : string) : string :=
  one dquote +:+ replaceChar dquote (escaped dquote) (replaceChar backslash (escaped backslash) v) +:+ one dquote.

(** ** What the adapters send *)

Fixpoint joinWith (sep : string) (l : list string) : string :=
  match l with
  | [] => ""
  | [w] => w
  | w :: l => w +:+ sep +:+ joinWith sep l
  end.

Section Texts.

(** [strconv.FormatInt], [FormatFloat] and [Time.Format(time.RFC3339Nano)] in UTC. *)
Context (Itoa : Z -> string) (FormatFloat : Z -> string) (RFC3339Nano : Z -> string).

Definition chTime (t : Z) : string := "parseDateTime64BestEffort(" +:+ chQuote (RFC3339Nano t) +:+ ")".

Definition chWhere (projectID runID step : string) (after : Z) (since until : option Z) : string :=
  joinWith " AND "
    (["project_id=" +:+ chQuote projectID; "run_id=" +:+ chQuote runID; "step_name=" +:+ chQuote step; "id>" +:+ Itoa after] ++
     match since with Some t => ["ts>=" +:+ chTime t] | None => [] end ++
     match until with Some t => ["ts<=" +:+ chTime t] | None => [] end).

Definition chSelect (database table where_ : string) (limit : Z) : string :=
  "SELECT * FROM " +:+ database +:+ "." +:+ table +:+ " FINAL WHERE " +:+ where_ +:+ " ORDER BY id ASC LIMIT " +:+
  Itoa (NormalizeLimit limit + 1) +:+ " FORMAT JSON".

Definition chLogWhere (q : LogQuery) (after : Z) : string :=
  let where_ := chWhere (lq_ProjectID q) (lq_RunID q) (lq_StepName q) after (lq_Since q) (lq_Until q) in
  if negb (String.eqb (lq_Search q) "") then where_ +:+ " AND positionCaseInsensitive(line," +:+ chQuote (lq_Search q) +:+ ")>0" else where_.

Definition chMetricWhere (q : MetricQuery) (after : Z) : string :=
  let where_ := chWhere (mq_ProjectID q) (mq_RunID q) (mq_StepName q) after (mq_Since q) (mq_Until q) in
  match mq_Keys q with
  | [] => where_
  | keys => where_ +:+ " AND key IN (" +:+ joinWith "," (chQuote <$> keys) +:+ ")"
  end.

Definition chDelete (database table projectID : string) : string :=
  "ALTER TABLE " +:+ database +:+ "." +:+ table +:+ " DELETE WHERE project_id=" +:+ chQuote projectID.

(** A query: the cursor, the text, the rows of the answer, the page. *)
Definition chQuery {T Q : Type} `{!Stat T Q} (request : string -> res string (list T)) (database table : string)
    (where_ : Q -> Z -> string) (q : Q) : res string (list T * string) :=
  match IDFromQuery q with
  | Err e => Err e
  | Ok after =>
      match request (chSelect database table (where_ q after) (q_Limit q)) with
      | Err e => Err e
      | Ok rows => Ok (pageFrom rows q)
      end
  end.

Definition influxLine (p : MetricPoint) : string :=
  "run_metrics,project_id=" +:+ influxEscape (mp_ProjectID p) +:+ ",run_id=" +:+ influxEscape (mp_RunID p) +:+
  ",step_name=" +:+ influxEscape (mp_StepName p) +:+ ",key=" +:+ influxEscape (mp_Key p) +:+ ",event_id=" +:+
  influxEscape (mp_EventID p) +:+ " value=" +:+ FormatFloat (mp_Value p) +:+ ",id=" +:+ Itoa (mp_ID p) +:+ "i " +:+
  Itoa (mp_Ts p) +:+ one newline.

Definition influxBody (points : list MetricPoint) : string := joinWith "" (influxLine <$> points).

Definition fluxFilter (q : MetricQuery) : string :=
  let filter_ := "r._measurement == " +:+ fluxQuote "run_metrics" +:+ " and r.project_id == " +:+ fluxQuote (mq_ProjectID q) +:+
    " and r.run_id == " +:+ fluxQuote (mq_RunID q) +:+ " and r.step_name == " +:+ fluxQuote (mq_StepName q) in
  match mq_Keys q with
  | [] => filter_
  | keys => filter_ +:+ " and (" +:+ joinWith " or " ((fun k => "r.key == " +:+ fluxQuote k) <$> keys) +:+ ")"
  end.

(** The bounds of [range]; the upper one is exclusive, hence one nanosecond more. *)
Definition fluxStart (q : MetricQuery) : string := match mq_Since q with Some t => RFC3339Nano t | None => "0" end.
Definition fluxStop (q : MetricQuery) : string := match mq_Until q with Some t => RFC3339Nano (t + 1) | None => "now()" end.

(** A row of the CSV answer as a point: the columns by the last header. *)
Context (ParseInt : string -> Z) (ParseFloat : string -> Z) (ParseTime : string -> Z).

Definition csvHeaderRow (row : list string) : bool := (existsb (String.eqb "_time") row && existsb (String.eqb "id") row)%bool.

Definition valuesOf (header row : list string) : gmap string string :=
  foldl (fun values kv => <[kv.1 := kv.2]> values) ∅ (zip header row).
Definition valueAt (values : gmap string string) (key : string) : string := default "" (values !! key).

Definition pointOf (header row : list string) : MetricPoint :=
  let v := valueAt (valuesOf header row) in
  mkMetricPoint (ParseInt (v "id")) (v "event_id") (v "project_id") (v "run_id") (v "step_name") (v "key")
    (ParseFloat (v "value")) (ParseTime (v "_time")).

Fixpoint parseInfluxMetrics (header : option (list string)) (rows : list (list string)) : list MetricPoint :=
  match rows with
  | [] => []
  | row :: rows =>
      if (match row with [] => true | first :: _ => String.prefix "#" first end) then parseInfluxMetrics header rows
      else
        match header with
        | Some h => if csvHeaderRow row then parseInfluxMetrics (Some row) rows else pointOf h row :: parseInfluxMetrics header rows
        | None => parseInfluxMetrics (Some row) rows
        end
  end.

End Texts.

(** ** Opening: [open.go] *)

(** What [url.Parse] gives. *)
Record URL := mkURL { u_Scheme : string; u_Host : string; u_User : bool; u_QueryKeys : list string }.

Record BackendConfig := mkBackendConfig { bc_URL : string; bc_CredentialRef : string; bc_ManageRetention : bool }.
Record Config := mkConfig { cf_SpoolDir : string; cf_SpoolMaxBytes : Z; cf_Logs : BackendConfig; cf_Metrics : BackendConfig }.

Record Capabilities := mkCapabilities {
  ca_FullTextSearch : bool; ca_TimeRange : bool; ca_MetricKeyFilter : bool; ca_LogsBackend : string; ca_MetricsBackend : string }.

(** Who serves one half: the fallback, or a backend of a scheme. *)
Inductive backend : Type := Fallback | External (scheme : string).

Record Store := mkStore { so_Logs : backend; so_Metrics : backend; so_Capabilities : Capabilities; so_Spooled : option (bool * bool) }.

Inductive openErr : Type :=
| EURL (kind_ why : string)
| ECredential (kind_ : string)
| EOpen (kind_ : string)
| EUnsupported (kind_ : string)
| ESpoolDir
| ESpool.

(** A call that returns, or that panics. *)
Inductive outcome (A : Type) : Type := Returns (r : res openErr A) | Panics.
Arguments Returns {A} r.
Arguments Panics {A}.

Section Opening.

Context (Parse : string -> option URL) (ToLower : string -> string).

Definition isBlank (s : string) : bool := String.eqb (TrimSpace s) "".

Definition supported (kind_ scheme : string) : bool :=
  (String.eqb scheme "elasticsearch" || String.eqb scheme "elasticsearch+https" || String.eqb scheme "clickhouse" ||
   String.eqb scheme "clickhouse+https" ||
   (String.eqb kind_ "metrics" && (String.eqb scheme "influxdb" || String.eqb scheme "influxdb+https")))%bool.

Definition secretField (key : string) : bool :=
  let lower := ToLower key in
  (str_contains lower "token" || str_contains lower "password" || str_contains lower "secret" || str_contains lower "api_key")%bool.

Definition ValidateBackendURL (kind_ rawURL : string) : res openErr unit :=
  if isBlank rawURL then Ok tt
  else
    match Parse rawURL with
    | None => Err (EURL kind_ "absolute")
    | Some u =>
        if String.eqb (u_Host u) "" then Err (EURL kind_ "absolute")
        else if u_User u then Err (EURL kind_ "credentials")
        else if negb (supported kind_ (ToLower (u_Scheme u))) then Err (EURL kind_ "scheme")
        else if existsb secretField (u_QueryKeys u) then Err (EURL kind_ "secret field")
        else Ok tt
    end.

(** [strings.TrimSuffix(s, "+https")] *)
Definition trimHTTPS (s : string) : string :=
  let n := (String.length s - 6)%nat in
  if (Nat.leb 6 (String.length s) && String.eqb (str_drop n s) "+https")%bool then str_take n s else s.

(** [None] when the URL does not parse: the code then reads a field of nil. *)
Definition schemeOf (raw : string) : option string := u ← Parse raw; Some (trimHTTPS (ToLower (u_Scheme u))).

(** Connecting to a backend of a scheme may fail. *)
Context (connects : string -> string -> bool).

Definition openLogBackend (c : BackendConfig) : outcome backend :=
  match schemeOf (bc_URL c) with
  | None => Panics
  | Some scheme =>
      Returns (if (String.eqb scheme "elasticsearch" || String.eqb scheme "clickhouse")%bool
               then (if connects scheme (bc_URL c) then Ok (External scheme) else Err (EOpen "logs"))
               else Err (EUnsupported "logs"))
  end.

Definition openMetricBackend (c : BackendConfig) : outcome backend :=
  match schemeOf (bc_URL c) with
  | None => Panics
  | Some scheme =>
      Returns (if (String.eqb scheme "elasticsearch" || String.eqb scheme "clickhouse" || String.eqb scheme "influxdb")%bool
               then (if connects scheme (bc_URL c) then Ok (External scheme) else Err (EOpen "metrics"))
               else Err (EUnsupported "metrics"))
  end.

(** The resolver of credentials, [None] when there is none; and whether the
    directory of the spool can be opened. *)
Context (Resolve : option (string -> bool)) (spoolOpens : string -> bool).

Definition resolve (c : BackendConfig) : bool :=
  if String.eqb (bc_CredentialRef c) "" then true
  else match Resolve with None => false | Some f => f (bc_CredentialRef c) end.

Definition bindO {A B} (m : outcome A) (f : A -> outcome B) : outcome B :=
  match m with Returns (Ok a) => f a | Returns (Err e) => Returns (Err e) | Panics => Panics end.

(** Both halves from one backend: one connection, one description. *)
Definition openShared (config : Config) : outcome (backend * backend * Capabilities) :=
  match schemeOf (bc_URL (cf_Logs config)) with
  | None => Panics
  | Some scheme =>
      let caps := mkCapabilities true true true scheme scheme in
      if (String.eqb scheme "elasticsearch" || String.eqb scheme "clickhouse")%bool
      then (if connects scheme (bc_URL (cf_Logs config)) then Returns (Ok (External scheme, External scheme, caps)) else Returns (Err (EOpen "logs")))
      else Returns (Ok (Fallback, Fallback, caps))
  end.

Definition openLogsHalf (config : Config) (caps : Capabilities) : outcome (backend * Capabilities) :=
  if String.eqb (bc_URL (cf_Logs config)) "" then Returns (Ok (Fallback, caps))
  else
    bindO (openLogBackend (cf_Logs config)) (fun b =>
      match schemeOf (bc_URL (cf_Logs config)) with
      | None => Panics
      | Some s => Returns (Ok (b, mkCapabilities true true (ca_MetricKeyFilter caps) s (ca_MetricsBackend caps)))
      end).

Definition openMetricsHalf (config : Config) (caps : Capabilities) : outcome (backend * Capabilities) :=
  if String.eqb (bc_URL (cf_Metrics config)) "" then Returns (Ok (Fallback, caps))
  else
    bindO (openMetricBackend (cf_Metrics config)) (fun b =>
      match schemeOf (bc_URL (cf_Metrics config)) with
      | None => Panics
      | Some s => Returns (Ok (b, mkCapabilities (ca_FullTextSearch caps) true true (ca_LogsBackend caps) s))
      end).

Definition openHalves (config : Config) (caps : Capabilities) : outcome (backend * backend * Capabilities) :=
  bindO (openLogsHalf config caps) (fun '(logs, caps) =>
    bindO (openMetricsHalf config caps) (fun '(metrics, caps) => Returns (Ok (logs, metrics, caps)))).

Definition Open (config : Config) (fallback : Capabilities) : outcome Store :=
  let lu := bc_URL (cf_Logs config) in
  let mu := bc_URL (cf_Metrics config) in
  match ValidateBackendURL "logs" lu, ValidateBackendURL "metrics" mu with
  | Err e, _ => Returns (Err e)
  | Ok _, Err e => Returns (Err e)
  | Ok _, Ok _ =>
      if (String.eqb lu "" && String.eqb mu "")%bool then Returns (Ok (mkStore Fallback Fallback fallback None))
      else if negb (resolve (cf_Logs config)) then Returns (Err (ECredential "logs"))
      else if negb (resolve (cf_Metrics config)) then Returns (Err (ECredential "metrics"))
      else
        bindO (if (negb (String.eqb lu "") && String.eqb lu mu && String.eqb (bc_CredentialRef (cf_Logs config)) (bc_CredentialRef (cf_Metrics config)))%bool
               then openShared config else openHalves config fallback)
          (fun '(logs, metrics, caps) =>
             if String.eqb (cf_SpoolDir config) "" then Returns (Err ESpoolDir)
             else if negb (spoolOpens (cf_SpoolDir config)) then Returns (Err ESpool)
             else Returns (Ok (mkStore logs metrics caps (Some (negb (String.eqb lu ""), negb (String.eqb mu ""))))))
  end.

End Opening.

(** ** What a server reads *)

(** How the server reads a string literal between two [q], from behind the
    first: the value and the rest of the text.  A backslash takes the next
    character, if that is a backslash or [q], as it is; the next [q] ends the
    literal; [plain] characters stand for themselves. *)
Class Literal (q : ascii) (plain : ascii -> string -> bool) (lex : string -> option (string * string)) := {
  lex_end rest : (forall r, rest <> String q r) -> lex (String q rest) = Some ("", rest);
  lex_escape c rest : c = q \/ c = backslash ->
    lex (String backslash (String c rest)) = '(v, r) ← lex rest; Some (String c v, r);
  lex_char c rest : c <> q -> c <> backslash -> plain c rest = true ->
    lex (String c rest) = '(v, r) ← lex rest; Some (String c v, r) }.

Lemma replaceChar_cons c by_ d s :
  replaceChar c by_ (String d s) = (if Ascii.eqb d c then by_ else one d) +:+ replaceChar c by_ s.
Proof. done. Qed.

(** Every character that stands for itself where it is quoted. *)
Fixpoint plainly (plain : ascii -> string -> bool) (v rest : string) : bool :=
  match v with
  | EmptyString => true
  | String c v => (plain c (v +:+ rest) && plainly plain v rest)%bool
  end.

Section ClickHouse.

Context (lex : string -> option (string * string)) `{!Literal quote (fun _ _ => true) lex}.

Definition ends_literal (rest : string) : Prop := forall r, rest <> String quote r.

Lemma lex_replaced v rest : str_mem backslash v = false -> ends_literal rest ->
  lex (replaceChar quote (escaped quote) v +:+ String quote rest) = Some (v, rest).
Proof using Type*.
  intros Hb He. induction v as [|c v IH]; [by apply lex_end|]. simpl in Hb. apply orb_false_iff in Hb as [Hc Hb].
  rewrite replaceChar_cons, str_app_assoc. destruct (Ascii.eqb_spec c quote) as [->|Hne].
  - cbn [escaped one String.append]. rewrite lex_escape by (by left). by rewrite (IH Hb).
  - cbn [one String.append]. rewrite lex_char; [|done|by intros ->; rewrite Ascii.eqb_refl in Hc|done]. by rewrite (IH Hb).
Qed.

(** A value without a backslash is read back by ClickHouse as it was; but
    [chQuote] does not escape backslashes, so that the text that follows a
    backslash and a quote in the search of a log query (of any user who may read
    logs) is not part of a literal: the server reads it as SQL. *)
Theorem chQuote_literal (Itoa : Z -> string) (RFC3339Nano : Z -> string) v rest p q after
    (Hv : str_mem backslash v = false) (Hrest : ends_literal rest)
    (Hq : lq_Search q = String backslash (String quote p)) (Hp : str_mem quote p = false) (Hp' : ends_literal p) (Hne : p <> "") :
  chQuote v +:+ rest = String quote (replaceChar quote (escaped quote) v +:+ String quote rest) /\
  lex (replaceChar quote (escaped quote) v +:+ String quote rest) = Some (v, rest) /\
  exists before inside,
    chLogWhere Itoa RFC3339Nano q after = before +:+ "positionCaseInsensitive(line," +:+ String quote inside /\
    lex inside = Some (one backslash, p +:+ one quote +:+ ")>0").
Proof using Type*.
  split; [by unfold chQuote; rewrite !str_app_assoc|]. split; [by apply lex_replaced|].
  exists (chWhere Itoa RFC3339Nano (lq_ProjectID q) (lq_RunID q) (lq_StepName q) after (lq_Since q) (lq_Until q) +:+ " AND "),
    (String backslash (String backslash (String quote (p +:+ one quote +:+ ")>0")))).
  assert (Hr : replaceChar quote (escaped quote) p = p).
  { clear -Hp. induction p as [|c p IH]; [done|]. simpl in Hp. apply orb_false_iff in Hp as [Hc Hp]. rewrite replaceChar_cons, Hc, (IH Hp). done. }
  split.
  - unfold chLogWhere. rewrite Hq. cbn [String.eqb negb]. rewrite str_app_assoc. f_equal. unfold chQuote.
    rewrite !replaceChar_cons, Hr. simpl. by rewrite !str_app_assoc.
  - rewrite lex_escape by (by right). rewrite lex_end; [done|]. intros r He. destruct p as [|c p]; [done|]. by apply (Hp' p); simplify_eq/=.
Qed.

End ClickHouse.

Section Flux.

(** In Flux a dollar before a brace starts an interpolated expression. *)
Definition fluxPlain (c : ascii) (rest : string) : bool :=
  negb (Ascii.eqb c (byte_of 36) && match rest with String d _ => Ascii.eqb d (byte_of 123) | EmptyString => false end).

Context (lex : string -> option (string * string)) `{!Literal dquote fluxPlain lex}.

Definition fluxBody (v : string) : string := replaceChar dquote (escaped dquote) (replaceChar backslash (escaped backslash) v).

Lemma fluxBody_cons c v :
  fluxBody (String c v) = (if (Ascii.eqb c dquote || Ascii.eqb c backslash)%bool then escaped c else one c) +:+ fluxBody v.
Proof.
  unfold fluxBody. rewrite replaceChar_cons. destruct (Ascii.eqb_spec c backslash) as [->|Hb]; [done|].
  simpl. destruct (Ascii.eqb_spec c dquote) as [->|Hd]; done.
Qed.

(** What follows a character stays the same, as far as interpolation goes. *)
Lemma fluxPlain_body c v rest rest' : fluxPlain c (v +:+ rest) = true -> (forall d r, rest' = String d r -> d <> byte_of 123) ->
  fluxPlain c (fluxBody v +:+ rest') = true.
Proof.
  unfold fluxPlain. intros Hp Hr. destruct (Ascii.eqb c (byte_of 36)); [|done]. simpl in *.
  destruct v as [|d v].
  - destruct rest' as [|d r]; [done|]. simpl. destruct (Ascii.eqb_spec d (byte_of 123)) as [->|]; [|done]. by destruct (Hr _ _ eq_refl).
  - rewrite fluxBody_cons. simpl in Hp.
    destruct (Ascii.eqb_spec d dquote) as [->|]; [done|]. destruct (Ascii.eqb_spec d backslash) as [->|]; [done|]. done.
Qed.

Lemma fluxQuote_read v rest : plainly fluxPlain v "" = true -> (forall r, rest <> String dquote r) ->
  fluxQuote v +:+ rest = String dquote (fluxBody v +:+ String dquote rest) /\ lex (fluxBody v +:+ String dquote rest) = Some (v, rest).
Proof using Type*.
  intros Hp He. split; [unfold fluxQuote; rewrite !str_app_assoc; done|].
  induction v as [|c v IH]; [by apply lex_end|]. simpl in Hp. apply andb_true_iff in Hp as [Hc Hp]. rewrite fluxBody_cons, str_app_assoc.
  destruct (Ascii.eqb_spec c dquote) as [->|Hd]; [|destruct (Ascii.eqb_spec c backslash) as [->|Hb]]; cbn.
  - rewrite lex_escape by (by left). by rewrite (IH Hp).
  - rewrite lex_escape by (by right). by rewrite (IH Hp).
  - rewrite lex_char; [|done|done|]. { by rewrite (IH Hp). }
    apply fluxPlain_body with (rest := ""); [done|]. by intros d r [= <- _].
Qed.

End Flux.

(** ** What opening gives *)

Section Opened.

Context (Parse : string -> option URL) (ToLower : string -> string) (connects : string -> string -> bool).
Context (Resolve : option (string -> bool)) (spoolOpens : string -> bool).

Abbreviation Open := (Open Parse ToLower connects Resolve spoolOpens).
Abbreviation schemeOf := (schemeOf Parse ToLower).

Lemma supported_scheme kind_ u : ValidateBackendURL Parse ToLower kind_ u = Ok tt -> isBlank u = false ->
  exists s, schemeOf u = Some s /\ (s = "elasticsearch" \/ s = "clickhouse" \/ (kind_ = "metrics" /\ s = "influxdb")).
Proof.
  unfold ValidateBackendURL, StatsBackends.schemeOf. intros Hv Hb. rewrite Hb in Hv. destruct (Parse u) as [p|]; [|done].
  destruct (String.eqb (u_Host p) ""); [done|]. destruct (u_User p); [done|].
  destruct (supported kind_ (ToLower (u_Scheme p))) eqn:E; [|done]. clear Hv. eexists. split; [done|].
  unfold supported in E. rewrite !orb_true_iff, andb_true_iff, orb_true_iff, !String.eqb_eq in E.
  destruct E as [[[[-> | ->] | ->] | ->]|[-> [-> | ->]]]; vm_compute; first [by left|by right; left|by right; right].
Qed.

(** The half of a URL that is set, or the fallback. *)
Definition served (u : string) (b : backend) (named : string) (unset : string) : Prop :=
  if String.eqb u "" then b = Fallback /\ named = unset else exists s, schemeOf u = Some s /\ b = External s /\ named = s.

Lemma logs_half config caps : let u := bc_URL (cf_Logs config) in
  ValidateBackendURL Parse ToLower "logs" u = Ok tt -> (isBlank u = true -> u = "") ->
  exists r, openLogsHalf Parse ToLower connects config caps = Returns r /\
    match r with
    | Ok (b, c) => served u b (ca_LogsBackend c) (ca_LogsBackend caps) /\ ca_MetricsBackend c = ca_MetricsBackend caps
    | Err e => e = EOpen "logs"
    end.
Proof.
  intros u Hv Hb. unfold openLogsHalf, served. fold u. destruct (String.eqb_spec u "") as [->|Hne]; [by eexists|].
  destruct (isBlank u) eqn:E; [by destruct Hne, Hb|]. destruct (supported_scheme "logs" u Hv E) as (s & Hs & Hsup).
  unfold openLogBackend. fold u. rewrite Hs. simpl. destruct Hsup as [-> |[-> |[? ?]]]; [..|done]; simpl.
  all: destruct (connects _ u); simpl; [rewrite ?Hs|by eexists]; eexists; (split; [done|]); (split; [by eexists|done]).
Qed.

Lemma metrics_half config caps : let u := bc_URL (cf_Metrics config) in
  ValidateBackendURL Parse ToLower "metrics" u = Ok tt -> (isBlank u = true -> u = "") ->
  exists r, openMetricsHalf Parse ToLower connects config caps = Returns r /\
    match r with
    | Ok (b, c) => served u b (ca_MetricsBackend c) (ca_MetricsBackend caps) /\ ca_LogsBackend c = ca_LogsBackend caps
    | Err e => e = EOpen "metrics"
    end.
Proof.
  intros u Hv Hb. unfold openMetricsHalf, served. fold u. destruct (String.eqb_spec u "") as [->|Hne]; [by eexists|].
  destruct (isBlank u) eqn:E; [by destruct Hne, Hb|]. destruct (supported_scheme "metrics" u Hv E) as (s & Hs & Hsup).
  unfold openMetricBackend. fold u. rewrite Hs. simpl. destruct Hsup as [-> |[-> |[_ ->]]]; simpl.
  all: destruct (connects _ u); simpl; [rewrite ?Hs|by eexists]; eexists; (split; [done|]); (split; [by eexists|done]).
Qed.

(** Opening the store with URLs that are empty or not blank never panics and
    never meets a scheme it does not know after the check of the URLs; when it
    succeeds, each half is served by the fallback exactly when its URL is empty,
    otherwise by a backend of the URL's scheme, the capabilities name who serves
    it, and exactly the halves with a backend of their own are spooled. *)
Theorem Open_serves config fallback
    (Hlogs : isBlank (bc_URL (cf_Logs config)) = true -> bc_URL (cf_Logs config) = "")
    (Hmetrics : isBlank (bc_URL (cf_Metrics config)) = true -> bc_URL (cf_Metrics config) = "") :
  exists r, Open config fallback = Returns r /\
    match r with
    | Err e => forall kind_, e <> EUnsupported kind_
    | Ok st =>
        let lu := bc_URL (cf_Logs config) in
        let mu := bc_URL (cf_Metrics config) in
        served lu (so_Logs st) (ca_LogsBackend (so_Capabilities st)) (ca_LogsBackend fallback) /\
        served mu (so_Metrics st) (ca_MetricsBackend (so_Capabilities st)) (ca_MetricsBackend fallback) /\
        so_Spooled st = (if (String.eqb lu "" && String.eqb mu "")%bool then None else Some (negb (String.eqb lu ""), negb (String.eqb mu "")))
    end.
Proof.
  unfold StatsBackends.Open. set (lu := bc_URL (cf_Logs config)) in *. set (mu := bc_URL (cf_Metrics config)) in *.
  destruct (ValidateBackendURL Parse ToLower "logs" lu) as [[]|e] eqn:Vl;
    [|eexists; split; [done|]; unfold ValidateBackendURL in Vl; repeat case_match; simplify_eq; done].
  destruct (ValidateBackendURL Parse ToLower "metrics" mu) as [[]|e] eqn:Vm;
    [|eexists; split; [done|]; unfold ValidateBackendURL in Vm; repeat case_match; simplify_eq; done].
  destruct (String.eqb lu "" && String.eqb mu "")%bool eqn:Eb.
  { apply andb_true_iff in Eb as [E1 E2]. eexists; split; [done|]. unfold served. simpl. by rewrite E1, E2. }
  destruct (resolve Resolve (cf_Logs config)); [|by eexists]. destruct (resolve Resolve (cf_Metrics config)); [|by eexists]. simpl.
  cut (exists r, (if (negb (String.eqb lu "") && String.eqb lu mu && String.eqb (bc_CredentialRef (cf_Logs config)) (bc_CredentialRef (cf_Metrics config)))%bool
      then openShared Parse ToLower connects config else openHalves Parse ToLower connects config fallback) = Returns r /\
    match r with
    | Ok (l, m, c) => served lu l (ca_LogsBackend c) (ca_LogsBackend fallback) /\ served mu m (ca_MetricsBackend c) (ca_MetricsBackend fallback)
    | Err e => forall kind_, e <> EUnsupported kind_
    end).
  { intros (r & -> & Hr). destruct r as [[[l m] c]|e]; simpl; [|by eexists].
    destruct (String.eqb (cf_SpoolDir config) ""); [by eexists|]. destruct (spoolOpens _); simpl; [|by eexists].
    eexists. split; [done|]. simpl. by destruct Hr. }
  destruct (negb (String.eqb lu "") && String.eqb lu mu && _)%bool eqn:Es.
  - apply andb_true_iff in Es as [Es _]. apply andb_true_iff in Es as [Hne Heq%String.eqb_eq].
    apply negb_true_iff in Hne. destruct (isBlank lu) eqn:Hbl; [by rewrite (Hlogs eq_refl) in Hne|].
    destruct (supported_scheme "logs" lu Vl Hbl) as (s & Hs & Hsup). unfold openShared. fold lu. rewrite Hs. unfold served.
    rewrite <- Heq, Hne. destruct Hsup as [-> |[-> |[? ?]]]; [..|done]; simpl; destruct (connects _ lu); eexists; (split; [done|]); simpl; try done;
      rewrite Hs; split; by eexists.
  - unfold openHalves. destruct (logs_half config fallback Vl Hlogs) as ([[l c]|e] & -> & Hl); simpl; [|subst; by eexists].
    destruct (metrics_half config c Vm Hmetrics) as ([[m' c']|e] & -> & Hm); simpl; [|subst; by eexists].
    eexists. split; [done|]. simpl. destruct Hl as [Hl Hlm], Hm as [Hm Hml]. rewrite Hml, <- Hlm. by split.
Qed.

(** A URL of white space only passes the check; when it does not parse (a line
    break), opening then reads a field of a nil pointer. *)
Lemma blank_URL_panics config fallback u : isBlank u = true -> u <> "" -> Parse u = None ->
  cf_Logs config = mkBackendConfig u "" false -> cf_Metrics config = mkBackendConfig "" "" false ->
  Open config fallback = Panics.
Proof.
  intros Hb Hne Hp Hl Hm. apply String.eqb_neq in Hne. unfold StatsBackends.Open, ValidateBackendURL. rewrite Hl, Hm. simpl. rewrite Hb, Hne. simpl.
  unfold resolve. simpl. unfold openHalves, openLogsHalf, openLogBackend. rewrite Hl. simpl. rewrite Hne.
  unfold StatsBackends.schemeOf. by rewrite Hp.
Qed.

End Opened.
