(* ===== verification/Spool.v ===== *)
(** * Statistics: the spool

    The durable spool of [pkg/statsstore/spool.go] and the backend that delivers
    from it ([spooled_backend.go]), as programs over calls of the file system,
    the two mutexes, the memory they guard and the external backends. *)

From S2P Require Import Prelude Prog Stats StatsPages.
From stdpp Require Import options.
#[local] Open Scope Z_scope.

(** ** Data *)

Inductive kind : Type := Logs | Metrics.
#[export] Instance kind_eq_dec : EqDecision kind.
Proof. solve_decision. Defined.
#[export] Instance kind_countable : Countable kind.
Proof.
  refine (inj_countable' (fun k => match k with Logs => true | Metrics => false end)
    (fun b : bool => if b then Logs else Metrics) _). by intros [].
Defined.

Record spoolRecord := mkSpoolRecord { sr_Kind : kind; sr_Logs : list LogLine; sr_Metrics : list MetricPoint }.

(** A name [%020d-%06d-%s.json] by its parts, in the order of the names (which
    is the order of the strings below a million records in one process). *)
Record fileName := mkFileName { fn_nano : Z; fn_serial : Z; fn_kind : kind }.
#[export] Instance fileName_eq_dec : EqDecision fileName.
Proof. solve_decision. Defined.
#[export] Instance fileName_countable : Countable fileName.
Proof.
  refine (inj_countable' (fun n => (fn_nano n, fn_serial n, fn_kind n)) (fun p => mkFileName p.1.1 p.1.2 p.2) _). by intros [].
Defined.

Definition name_le (n m : fileName) : Prop :=
  fn_nano n < fn_nano m \/ (fn_nano n = fn_nano m /\ fn_serial n <= fn_serial m).
#[export] Instance name_le_dec : RelDecision name_le.
Proof. intros n m. unfold name_le. apply _. Defined.

Record namedSpoolRecord := mkNamed { nr_name : fileName; nr_size : Z; nr_record : spoolRecord }.
Definition named_le (a b : namedSpoolRecord) : Prop := name_le (nr_name a) (nr_name b).
#[export] Instance named_le_dec : RelDecision named_le.
Proof. intros a b. unfold named_le. apply _. Defined.

(** What [s.mu] guards.  The byte count and the serial number, of 64 bits, count
    files and do not wrap. *)
Record diskSpool := mkDiskSpool { ds_maxBytes : Z; ds_bytes : Z; ds_nextID : Z; ds_serial : Z }.
Definition ds_setBytes v s := mkDiskSpool (ds_maxBytes s) v (ds_nextID s) (ds_serial s).
Definition ds_setNextID v s := mkDiskSpool (ds_maxBytes s) (ds_bytes s) v (ds_serial s).
Definition ds_setSerial v s := mkDiskSpool (ds_maxBytes s) (ds_bytes s) (ds_nextID s) v.

Inductive statsErr : Type :=
| ErrSpoolFull
| ErrBackendUnavailable (msg : string)
| ErrOther (msg : string).

(** ** Calls *)

Inductive scall : Type :=
(* memory and mutexes *)
| CLockMu
| CUnlockMu
| CGetSpool
| CSetSpool (s : diskSpool)
| CLockDelivery
| CUnlockDelivery
(* the file system; a file is its decoded record *)
| CWriteSequence (v : Z)
| CSyncDir
| CWriteTemp (name : fileName)
| CRename (name : fileName) (r : spoolRecord)
| CReadDir
| CReadFile (name : fileName)
| CRemove (name : fileName)
| CWriteAtomic (name : fileName) (r : spoolRecord)
(* the backends *)
| CAppendLogs (l : list LogLine)
| CAppendMetrics (l : list MetricPoint)
| CQueryLogs (q : LogQuery)
| CQueryMetrics (q : MetricQuery)
| CPurge (k : kind) (projectID : string)
(* health, wake-up, clock, ids *)
| CSetError (e : option statsErr)
| CErrorGeneration
| CClearError (generation : Z)
| CSignal
| CNow
| CNewEventID
(* what the caller of an append gets *)
| CReply (l : list LogLine + list MetricPoint) (r : res statsErr unit).

Definition sreply (c : scall) : Type :=
  match c with
  | CGetSpool => diskSpool
  | CWriteSequence _ | CSyncDir | CWriteTemp _ | CRename _ _ | CWriteAtomic _ _ => res statsErr unit
  | CAppendLogs _ | CAppendMetrics _ | CPurge _ _ => res statsErr unit
  | CReadDir => res statsErr (list fileName)
  | CReadFile _ => res statsErr spoolRecord
  | CRemove _ => res statsErr bool (* whether the file was there *)
  | CQueryLogs _ => res statsErr (list LogLine * string)
  | CQueryMetrics _ => res statsErr (list MetricPoint * string)
  | CErrorGeneration | CNow => Z
  | CNewEventID => string
  | _ => unit
  end.

Abbreviation S := (prog sreply).
Definition call (c : scall) : S (sreply c) := perform c.

(** [defer s.mu.Unlock()] and [defer b.deliveryMu.Unlock()]. *)
Definition withMu {A} (m : S A) : S A := call CLockMu ;; r ← m; call CUnlockMu ;; Ret r.
Definition withDelivery {A} (m : S A) : S A := call CLockDelivery ;; r ← m; call CUnlockDelivery ;; Ret r.

(** ** The spool: [spool.go] *)

Section Spool.

(** The length of [json.Marshal(record)], [None] for an error. *)
Context (jsonLen : spoolRecord -> option Z).
Definition fileSize (r : spoolRecord) : Z := default 0 (jsonLen r).

Definition persistSequenceLocked (nextID : Z) : S (res statsErr unit) :=
  _ ←! call (CWriteSequence nextID);
  call CSyncDir.

(** [assignLogs] and [assignMetrics]: the numbers, then the event ids. *)
Section Assign.
Context {T : Type} `{!Entry T}.

Definition assignOne (nextID : Z) (x : T) : Z * T :=
  if st_ID x <=? 0 then let next := wrap64 (nextID + 1) in (next, st_setID next x)
  else if nextID <? st_ID x then (st_ID x, x) else (nextID, x).

Fixpoint assignAll (nextID : Z) (l : list T) : S (Z * list T) :=
  match l with
  | [] => Ret (nextID, [])
  | x :: l =>
      let '(nextID, x) := assignOne nextID x in
      x ← (if String.eqb (st_EventID x) "" then id_ ← call CNewEventID; Ret (st_setEventID id_ x) else Ret x);
      ' (nextID, l) ← assignAll nextID l;
      Ret (nextID, x :: l)
  end.

(** The lines with their numbers, and the error. *)
Definition assign (l : list T) : S (list T * res statsErr unit) :=
  withMu (
    s ← call CGetSpool;
    ' (nextID, l) ← assignAll (ds_nextID s) l;
    call (CSetSpool (ds_setNextID nextID s)) ;;
    r ← persistSequenceLocked nextID;
    Ret (l, r)).
End Assign.

Definition put (record : spoolRecord) : S (res statsErr fileName) :=
  match jsonLen record with
  | None => Ret (Err (ErrOther "json"))
  | Some len =>
      withMu (
        s ← call CGetSpool;
        if ((0 <? ds_maxBytes s) && (ds_maxBytes s <? ds_bytes s + len))%bool then Ret (Err ErrSpoolFull)
        else
          let s := ds_setSerial (ds_serial s + 1) s in
          call (CSetSpool s) ;;
          t ← call CNow;
          let name := mkFileName t (ds_serial s) (sr_Kind record) in
          _ ←! call (CWriteTemp name);
          _ ←! call (CRename name record);
          _ ←! call CSyncDir;
          call (CSetSpool (ds_setBytes (ds_bytes s + len) s)) ;;
          Ret (Ok name))
  end.

Fixpoint readAll (names : list fileName) : S (res statsErr (list namedSpoolRecord)) :=
  match names with
  | [] => Ret (Ok [])
  | n :: names =>
      r ←! call (CReadFile n);
      l ←! readAll names;
      Ret (Ok (mkNamed n (fileSize r) r :: l))
  end.

(** The names of the entries of one kind are those that end in [-kind.json]. *)
Definition records (k : kind) : S (res statsErr (list namedSpoolRecord)) :=
  withMu (
    entries ←! call CReadDir;
    l ←! readAll (List.filter (fun n => bool_decide (fn_kind n = k)) entries);
    Ret (Ok (merge_sort named_le l))).

Definition clamp (bytes : Z) : Z := if bytes <? 0 then 0 else bytes.

Definition ack (record : namedSpoolRecord) : S (res statsErr unit) :=
  withMu (
    _ ←! call (CRemove (nr_name record));
    s ← call CGetSpool;
    call (CSetSpool (ds_setBytes (clamp (ds_bytes s - nr_size record)) s)) ;;
    call CSyncDir).

(** What is left of a record when a project is purged. *)
Definition purgeRecord (k : kind) (projectID : string) (r : spoolRecord) : spoolRecord :=
  match k with
  | Logs => mkSpoolRecord (sr_Kind r) (List.filter (fun x => negb (String.eqb (ll_ProjectID x) projectID)) (sr_Logs r)) (sr_Metrics r)
  | Metrics => mkSpoolRecord (sr_Kind r) (sr_Logs r) (List.filter (fun x => negb (String.eqb (mp_ProjectID x) projectID)) (sr_Metrics r))
  end.

Definition addBytes (d : Z) : S unit := s ← call CGetSpool; call (CSetSpool (ds_setBytes (ds_bytes s + d) s)).

Definition purgeFile (k : kind) (projectID : string) (n : fileName) : S (res statsErr unit) :=
  r ←! call (CReadFile n);
  let r' := purgeRecord k projectID r in
  match sr_Logs r', sr_Metrics r' with
  | [], [] =>
      removed ← call (CRemove n);
      match removed with
      | Ok true => addBytes (- fileSize r) ;; Ret (Ok tt)
      | Ok false => Ret (Err (ErrOther "file does not exist"))
      | Err e => Ret (Err e)
      end
  | _, _ =>
      match jsonLen r' with
      | None => Ret (Err (ErrOther "json"))
      | Some len =>
          _ ←! call (CWriteAtomic n r');
          addBytes (len - fileSize r) ;; Ret (Ok tt)
      end
  end.

Fixpoint purgeFiles (k : kind) (projectID : string) (names : list fileName) : S (res statsErr unit) :=
  match names with
  | [] => Ret (Ok tt)
  | n :: names => _ ←! purgeFile k projectID n; purgeFiles k projectID names
  end.

Definition purge (k : kind) (projectID : string) : S (res statsErr unit) :=
  withMu (
    entries ←! call CReadDir;
    _ ←! purgeFiles k projectID entries;
    s ← call CGetSpool;
    call (CSetSpool (ds_setBytes (clamp (ds_bytes s)) s)) ;;
    call CSyncDir).

(** ** The backend: [spooled_backend.go] *)

Context (spoolLogs spoolMetrics : bool).

(** The caller's slice, which [assignLogs] changes in place, and the error. *)
Definition AppendLogs (lines : list LogLine) : S (list LogLine * res statsErr unit) :=
  match lines with
  | [] => Ret (lines, Ok tt)
  | _ =>
      if negb spoolLogs then r ← call (CAppendLogs lines); Ret (lines, r)
      else
        ' (lines, r) ← assign lines;
        match r with
        | Err e => Ret (lines, Err e)
        | Ok _ =>
            r ← put (mkSpoolRecord Logs lines []);
            match r with
            | Err e => call (CSetError (Some e)) ;; Ret (lines, Err e)
            | Ok _ => call CSignal ;; Ret (lines, Ok tt)
            end
        end
  end.

Definition AppendMetrics (points : list MetricPoint) : S (list MetricPoint * res statsErr unit) :=
  match points with
  | [] => Ret (points, Ok tt)
  | _ =>
      if negb spoolMetrics then r ← call (CAppendMetrics points); Ret (points, r)
      else
        ' (points, r) ← assign points;
        match r with
        | Err e => Ret (points, Err e)
        | Ok _ =>
            r ← put (mkSpoolRecord Metrics [] points);
            match r with
            | Err e => call (CSetError (Some e)) ;; Ret (points, Err e)
            | Ok _ => call CSignal ;; Ret (points, Ok tt)
            end
        end
  end.

Definition appendRecord (k : kind) (r : spoolRecord) : S (res statsErr unit) :=
  match k with Logs => call (CAppendLogs (sr_Logs r)) | Metrics => call (CAppendMetrics (sr_Metrics r)) end.

Fixpoint deliver (k : kind) (l : list namedSpoolRecord) : S (res statsErr unit) :=
  match l with
  | [] => Ret (Ok tt)
  | record :: l =>
      r ← appendRecord k (nr_record record);
      match r with
      | Err _ => Ret (Err (ErrBackendUnavailable "append"))
      | Ok _ => _ ←! ack record; deliver k l
      end
  end.

Definition flushKind (k : kind) : S (res statsErr unit) :=
  withDelivery (l ←! records k; deliver k l).

(** One turn of [loop].  (The code joins the two errors.) *)
Definition loopOnce : S unit :=
  errGen ← call CErrorGeneration;
  r1 ← (if spoolLogs then flushKind Logs else Ret (Ok tt));
  r2 ← (if spoolMetrics then flushKind Metrics else Ret (Ok tt));
  match r1, r2 with
  | Ok _, Ok _ => call (CClearError errGen)
  | Err e, _ | Ok _, Err e => call (CSetError (Some e))
  end.

Definition PurgeProject (k : kind) (projectID : string) : S (res statsErr unit) :=
  withDelivery (_ ←! call (CPurge k projectID); purge k projectID).

(** [QueryLogs]: the backend's page, then the spool, in one delivery epoch. *)
Definition QueryLogs `{!Stat LogLine LogQuery} (iter : gmap (bool * string * Z) LogLine -> list LogLine) (q : LogQuery)
    : S (res statsErr (list LogLine * string)) :=
  if negb spoolLogs then call (CQueryLogs q)
  else
    withDelivery (
      page ← call (CQueryLogs (withLimit MaxPageLimit q));
      (match page with Err _ => call (CSetError (Some (ErrBackendUnavailable "query"))) | Ok _ => Ret tt end) ;;
      l ←! records Logs;
      Ret (mergePage iter (fst <$> page) (l ≫= fun n => sr_Logs (nr_record n)) q)).

Definition QueryMetrics `{!Stat MetricPoint MetricQuery} (iter : gmap (bool * string * Z) MetricPoint -> list MetricPoint) (q : MetricQuery)
    : S (res statsErr (list MetricPoint * string)) :=
  if negb spoolMetrics then call (CQueryMetrics q)
  else
    withDelivery (
      page ← call (CQueryMetrics (withLimit MaxPageLimit q));
      (match page with Err _ => call (CSetError (Some (ErrBackendUnavailable "query"))) | Ok _ => Ret tt end) ;;
      l ←! records Metrics;
      Ret (mergePage iter (fst <$> page) (l ≫= fun n => sr_Metrics (nr_record n)) q)).

End Spool.
