(* ===== verification/SpoolWorld.v ===== *)
(** * Statistics: the disk, the backend and the interleavings

    What each call of the spool does to the directory (with what a power loss
    can undo), to the memory, to the mutexes and to the backends, and the system
    of concurrent appends, deliveries, purges and crashes. *)

From S2P Require Import Prelude Prog Stats StatsPages Spool.
From stdpp Require Import options.
#[local] Open Scope Z_scope.

(** A log line or a metric point. *)
Inductive item : Type := ILog (x : LogLine) | IMetric (x : MetricPoint).
#[export] Instance item_eq_dec : EqDecision item.
Proof. solve_decision. Defined.

Definition contents (r : spoolRecord) : list item := (ILog <$> sr_Logs r) ++ (IMetric <$> sr_Metrics r).
Definition payload (l : list LogLine + list MetricPoint) : list item :=
  match l with inl l => ILog <$> l | inr l => IMetric <$> l end.

Definition item_of (k : kind) (projectID : string) (it : item) : bool :=
  match k, it with
  | Logs, ILog x => String.eqb (ll_ProjectID x) projectID
  | Metrics, IMetric x => String.eqb (mp_ProjectID x) projectID
  | _, _ => false
  end.

Section System.

Context (jsonLen : spoolRecord -> option Z) (spoolLogs spoolMetrics : bool).

(** The directory as it is seen and as it is on stable storage. *)
Record Disk := mkDisk {
  dk_files : gmap fileName spoolRecord;
  dk_durable : gmap fileName spoolRecord;
  dk_seq : Z;
  dk_seqDurable : Z }.

Record World := mkWorld {
  w_disk : Disk;
  w_spool : diskSpool;
  w_mu : bool;
  w_delivery : bool;
  w_stored : list item;
  w_now : Z;
  w_lastErr : option statsErr;
  w_errGen : Z;
  (* what was promised and what was taken back *)
  w_accepted : list item;
  w_purged : list (kind * string) }.

Definition w_setDisk v w := mkWorld v (w_spool w) (w_mu w) (w_delivery w) (w_stored w) (w_now w) (w_lastErr w) (w_errGen w) (w_accepted w) (w_purged w).
Definition w_setSpool v w := mkWorld (w_disk w) v (w_mu w) (w_delivery w) (w_stored w) (w_now w) (w_lastErr w) (w_errGen w) (w_accepted w) (w_purged w).
Definition w_setMu v w := mkWorld (w_disk w) (w_spool w) v (w_delivery w) (w_stored w) (w_now w) (w_lastErr w) (w_errGen w) (w_accepted w) (w_purged w).
Definition w_setDelivery v w := mkWorld (w_disk w) (w_spool w) (w_mu w) v (w_stored w) (w_now w) (w_lastErr w) (w_errGen w) (w_accepted w) (w_purged w).
Definition w_setStored v w := mkWorld (w_disk w) (w_spool w) (w_mu w) (w_delivery w) v (w_now w) (w_lastErr w) (w_errGen w) (w_accepted w) (w_purged w).
Definition w_setNow v w := mkWorld (w_disk w) (w_spool w) (w_mu w) (w_delivery w) (w_stored w) v (w_lastErr w) (w_errGen w) (w_accepted w) (w_purged w).
Definition w_setErr e g w := mkWorld (w_disk w) (w_spool w) (w_mu w) (w_delivery w) (w_stored w) (w_now w) e g (w_accepted w) (w_purged w).
Definition w_setAccepted v w := mkWorld (w_disk w) (w_spool w) (w_mu w) (w_delivery w) (w_stored w) (w_now w) (w_lastErr w) (w_errGen w) v (w_purged w).
Definition w_setPurged v w := mkWorld (w_disk w) (w_spool w) (w_mu w) (w_delivery w) (w_stored w) (w_now w) (w_lastErr w) (w_errGen w) (w_accepted w) v.

Definition dk_setFiles m d := mkDisk m (dk_durable d) (dk_seq d) (dk_seqDurable d).
Definition dk_setSeq v d := mkDisk (dk_files d) (dk_durable d) v (dk_seqDurable d).
Definition dk_sync d := mkDisk (dk_files d) (dk_files d) (dk_seq d) (dk_seq d).

(** How a call ends: done; failed without effect; failed after its effect (a
    backend that applied a batch and then timed out). *)
Inductive choice : Type :=
| Done
| Failed
| FailedAfter
| AnID (s : string)
| LogPage (r : res statsErr (list LogLine * string))
| MetricPage (r : res statsErr (list MetricPoint * string)).

Definition ioErr : statsErr := ErrOther "io".
Abbreviation outcome A := (option (A * World * list (S unit))).

Definition external {A} (r : A) (w : World) : outcome A := Some (r, w, []).

(** An operation of the file system: [after] is its effect. *)
Definition fsOp {A} (i : choice) (w : World) (v : A) (after : World) : outcome (res statsErr A) :=
  match i with Done => external (Ok v) after | Failed => external (Err ioErr) w | _ => None end.

Definition backendOp (i : choice) (w after : World) : outcome (res statsErr unit) :=
  match i with
  | Done => external (Ok tt) after
  | Failed => external (Err ioErr) w
  | FailedAfter => external (Err ioErr) after
  | _ => None
  end.

Definition handle (c : scall) (tid : nat) (i : choice) (w : World) : outcome (sreply c) :=
  let d := w_disk w in
  match c as c return outcome (sreply c) with
  | CLockMu => if w_mu w then None else external tt (w_setMu true w)
  | CUnlockMu => external tt (w_setMu false w)
  | CGetSpool => external (w_spool w) w
  | CSetSpool s => external tt (w_setSpool s w)
  | CLockDelivery => if w_delivery w then None else external tt (w_setDelivery true w)
  | CUnlockDelivery => external tt (w_setDelivery false w)
  | CWriteSequence v => fsOp i w tt (w_setDisk (dk_setSeq v d) w)
  | CSyncDir => fsOp i w tt (w_setDisk (dk_sync d) w)
  | CWriteTemp _ => fsOp i w tt w
  | CRename n r => fsOp i w tt (w_setDisk (dk_setFiles (<[n := r]> (dk_files d)) d) w)
  | CReadDir => fsOp i w (fst <$> map_to_list (dk_files d)) w
  | CReadFile n =>
      match dk_files d !! n with
      | Some r => fsOp i w r w
      | None => external (Err ioErr) w
      end
  | CRemove n =>
      match dk_files d !! n with
      | Some _ => fsOp i w true (w_setDisk (dk_setFiles (delete n (dk_files d)) d) w)
      | None => fsOp i w false w
      end
  | CWriteAtomic n r => fsOp i w tt (w_setDisk (dk_setFiles (<[n := r]> (dk_files d)) d) w)
  | CAppendLogs l => backendOp i w (w_setStored (w_stored w ++ (ILog <$> l)) w)
  | CAppendMetrics l => backendOp i w (w_setStored (w_stored w ++ (IMetric <$> l)) w)
  | CQueryLogs _ => match i with LogPage r => external r w | _ => None end
  | CQueryMetrics _ => match i with MetricPage r => external r w | _ => None end
  | CPurge k p =>
      backendOp i (w_setPurged ((k, p) :: w_purged w) w)
        (w_setStored (List.filter (fun it => negb (item_of k p it)) (w_stored w)) (w_setPurged ((k, p) :: w_purged w) w))
  | CSetError e => external tt (w_setErr e (w_errGen w + 1) w)
  | CErrorGeneration => external (w_errGen w) w
  | CClearError g => external tt (if w_errGen w =? g then w_setErr None (w_errGen w) w else w)
  | CSignal => external tt w
  | CNow => external (w_now w) w
  | CNewEventID => match i with AnID s => external s w | _ => None end
  | CReply l r => external tt (match r with Ok _ => w_setAccepted (w_accepted w ++ payload l) w | Err _ => w end)
  end.

(** ** The system *)

(** An append and what its caller is told; the turns of the delivery loop, which
    wake up at any time; queries and purges. *)
Inductive request : Type :=
| RAppendLogs (l : list LogLine)
| RAppendMetrics (l : list MetricPoint)
| RDeliver
| RPurge (k : kind) (projectID : string)
| RQueryLogs (q : LogQuery)
| RQueryMetrics (q : MetricQuery).

Context `{!Stat LogLine LogQuery} `{!Stat MetricPoint MetricQuery}.
Context (iterLogs : gmap (bool * string * Z) LogLine -> list LogLine) (iterMetrics : gmap (bool * string * Z) MetricPoint -> list MetricPoint).

Definition ignore {A} (m : S A) : S unit := _ ← m; Ret tt.

Definition program (r : request) : S unit :=
  match r with
  | RAppendLogs l => ' (values, r) ← AppendLogs jsonLen spoolLogs l; call (CReply (inl values) r)
  | RAppendMetrics l => ' (values, r) ← AppendMetrics jsonLen spoolMetrics l; call (CReply (inr values) r)
  | RDeliver => loopOnce jsonLen spoolLogs spoolMetrics
  | RPurge k p => ignore (PurgeProject jsonLen k p)
  | RQueryLogs q => ignore (QueryLogs jsonLen spoolLogs iterLogs q)
  | RQueryMetrics q => ignore (QueryMetrics jsonLen spoolMetrics iterMetrics q)
  end.

(** Opening the spool reads the directory and the sequence file. *)
Definition openDiskSpool (d : Disk) (maxBytes : Z) : diskSpool :=
  mkDiskSpool maxBytes (foldr (fun kr acc => fileSize jsonLen kr.2 + acc) 0 (map_to_list (dk_files d))) (dk_seq d) 0.

(** A crash: of every file, and of the sequence, either what was seen or what
    was on stable storage is left. *)
Definition afterCrash (keep : fileName -> bool) (keepSeq : bool) (d : Disk) : Disk :=
  let m := filter (fun nr : fileName * spoolRecord => keep nr.1 = true) (dk_files d) ∪
           filter (fun nr : fileName * spoolRecord => keep nr.1 = false) (dk_durable d) in
  let s := if keepSeq then dk_seq d else dk_seqDurable d in
  mkDisk m m s s.

Inductive op : Type :=
| OThread (tid : nat) (i : choice)
| ORequest (r : request)
| OTick (d : Z)
| OCrash (keep : fileName -> bool) (keepSeq : bool) (maxBytes : Z).

Abbreviation sys := (World * list (S unit))%type.

Definition step (o : op) (s : sys) : option sys :=
  match o with
  | OThread tid i => thread_step World choice handle tid i s
  | ORequest r => Some (s.1, s.2 ++ [program r])
  | OTick d => Some (w_setNow (w_now s.1 + Z.max 0 d) s.1, s.2)
  | OCrash keep keepSeq maxBytes =>
      let w := s.1 in
      let d := afterCrash keep keepSeq (w_disk w) in
      Some (mkWorld d (openDiskSpool d maxBytes) false false (w_stored w) (w_now w + 1) None 0 (w_accepted w) (w_purged w), [])
  end.

(** A new directory. *)
Definition freshWorld (maxBytes now : Z) : World :=
  mkWorld (mkDisk ∅ ∅ 0 0) (mkDiskSpool maxBytes 0 0 0) false false [] now None 0 [] [].

Fixpoint exec (ops : list op) (s : sys) : option sys :=
  match ops with
  | [] => Some s
  | o :: ops => s' ← step o s; exec ops s'
  end.

End System.
