(* ===== verification/SpoolSafety.v ===== *)
(** * Statistics: delivery at least once

    For every interleaving of appends, deliveries, purges, queries and power
    losses: an entry whose append was acknowledged is in the backend or in a
    file that no power loss takes away, unless its project was purged.

    The argument is a discipline ([Spool.mu] guards the directory, the delivery
    mutex guards what was read from it, a file is removed only when the thread
    knows its entries to be stored or purged) and an invariant that says what
    the phases of the threads know about the world. *)

From S2P Require Import Prelude Prog Stats StatsPages Spool SpoolWorld.
From stdpp Require Import options.
#[local] Open Scope Z_scope.

(** ** What is kept *)

Definition purgedItem (l : list (kind * string)) (x : item) : Prop :=
  exists k p, In (k, p) l /\ item_of k p x = true.
Definition kept (w : World) (x : item) : Prop := In x (w_stored w) \/ purgedItem (w_purged w) x.

(** In a file, whichever of its two versions a power loss leaves. *)
Definition spooled (d : Disk) (x : item) : Prop :=
  exists n r r', dk_files d !! n = Some r /\ dk_durable d !! n = Some r' /\ In x (contents r) /\ In x (contents r').
Definition safe (w : World) (x : item) : Prop := kept w x \/ spooled (w_disk w) x.

(** ** The discipline *)

(** A file holds entries of the kind its name says. *)
Definition well_kinded (n : fileName) (r : spoolRecord) : Prop :=
  match fn_kind n with Logs => sr_Metrics r = [] | Metrics => sr_Logs r = [] end.

(** What a thread knows: the locks it holds, the spool's memory, a time it read,
    that its serial number is unused, the files it read under the delivery mutex,
    the file it just renamed, and the entries it saw stored, safe or purged. *)
Record sphase := mkPhase {
  p_mu : bool; p_del : bool;
  p_spool : option diskSpool; p_time : option Z; p_fresh : bool;
  p_read : list (fileName * spoolRecord);
  p_renamed : option (fileName * spoolRecord);
  p_stored : list item; p_safe : list item; p_purged : list (kind * string) }.

Definition start : sphase := mkPhase false false None None false [] None [] [] [].

Definition p_lock p := mkPhase true (p_del p) None (p_time p) false (p_read p) None (p_stored p) (p_safe p) (p_purged p).
Definition p_unlock p := mkPhase false (p_del p) None (p_time p) false (p_read p) None (p_stored p) (p_safe p) (p_purged p).
Definition p_lockDel p := mkPhase (p_mu p) true (p_spool p) (p_time p) (p_fresh p) [] (p_renamed p) (p_stored p) (p_safe p) (p_purged p).
Definition p_unlockDel p := mkPhase (p_mu p) false (p_spool p) (p_time p) (p_fresh p) [] (p_renamed p) (p_stored p) (p_safe p) (p_purged p).
Definition p_setSpool s f p := mkPhase (p_mu p) (p_del p) (Some s) (p_time p) f (p_read p) (p_renamed p) (p_stored p) (p_safe p) (p_purged p).
Definition p_setTime t p := mkPhase (p_mu p) (p_del p) (p_spool p) (Some t) (p_fresh p) (p_read p) (p_renamed p) (p_stored p) (p_safe p) (p_purged p).
Definition p_setRead l p := mkPhase (p_mu p) (p_del p) (p_spool p) (p_time p) (p_fresh p) l (p_renamed p) (p_stored p) (p_safe p) (p_purged p).
Definition p_changed l p := mkPhase (p_mu p) (p_del p) (p_spool p) (p_time p) (p_fresh p) l None (p_stored p) (p_safe p) (p_purged p).
Definition p_rename nr p := mkPhase (p_mu p) (p_del p) (p_spool p) (p_time p) false (p_read p) (Some nr) (p_stored p) (p_safe p) (p_purged p).
Definition p_addStored l p := mkPhase (p_mu p) (p_del p) (p_spool p) (p_time p) (p_fresh p) (p_read p) (p_renamed p) (l ++ p_stored p) (p_safe p) (p_purged p).
Definition p_addSafe l p := mkPhase (p_mu p) (p_del p) (p_spool p) (p_time p) (p_fresh p) (p_read p) (p_renamed p) (p_stored p) (l ++ p_safe p) (p_purged p).
Definition p_addPurged kp p := mkPhase (p_mu p) (p_del p) (p_spool p) (p_time p) (p_fresh p) (p_read p) (p_renamed p) (p_stored p) (p_safe p) (kp :: p_purged p).

(** The thread holds no mutex. *)
Definition released (ph : sphase) : Prop := p_mu ph = false /\ p_del ph = false.

(** The entry needs no file any more. *)
Definition gone (ph : sphase) (x : item) : Prop := In x (p_stored ph) \/ purgedItem (p_purged ph) x.

Definition spool_allowed (ph : sphase) (c : scall) : Prop :=
  match c with
  | CLockMu => p_mu ph = false
  | CUnlockMu => p_mu ph = true
  | CLockDelivery => p_del ph = false
  | CUnlockDelivery => p_del ph = true
  | CSetSpool s => p_mu ph = true /\ exists s0, p_spool ph = Some s0 /\ ds_serial s0 <= ds_serial s
  | CRename n r =>
      p_mu ph = true /\ p_fresh ph = true /\ p_time ph = Some (fn_nano n) /\ well_kinded n r /\
      exists s, p_spool ph = Some s /\ fn_serial n = ds_serial s
  | CReadFile _ => p_mu ph = true /\ p_del ph = true
  | CRemove n =>
      p_mu ph = true /\ p_del ph = true /\
      exists r, In (n, r) (p_read ph) /\ forall x, In x (contents r) -> gone ph x
  | CWriteAtomic n r' =>
      p_mu ph = true /\ p_del ph = true /\ well_kinded n r' /\
      exists r, In (n, r) (p_read ph) /\ forall x, In x (contents r) -> In x (contents r') \/ gone ph x
  | CReply l (Ok _) => forall x, In x (payload l) -> In x (p_stored ph) \/ In x (p_safe ph)
  | _ => True
  end.

Definition spool_rely (_ : sphase) (c : scall) : sreply c -> Prop :=
  match c as c return sreply c -> Prop with
  | CReadFile n => fun r => match r with Ok r => well_kinded n r | Err _ => True end
  | _ => fun _ => True
  end.

Definition spool_next (ph : sphase) (c : scall) : sreply c -> sphase :=
  match c as c return sreply c -> sphase with
  | CLockMu => fun _ => p_lock ph
  | CUnlockMu => fun _ => p_unlock ph
  | CLockDelivery => fun _ => p_lockDel ph
  | CUnlockDelivery => fun _ => p_unlockDel ph
  | CGetSpool => fun s => if p_mu ph then p_setSpool s (p_fresh ph) ph else ph
  | CSetSpool s => fun _ =>
      p_setSpool s (p_fresh ph || match p_spool ph with Some s0 => ds_serial s0 <? ds_serial s | None => false end)%bool ph
  | CNow => fun t => p_setTime t ph
  | CRename n r => fun res => if res is Ok _ then p_rename (n, r) ph else ph
  | CReadFile n => fun res => if res is Ok r then p_setRead ((n, r) :: p_read ph) ph else ph
  | CRemove _ => fun _ => p_changed (p_read ph) ph
  | CWriteAtomic n _ => fun _ => p_changed (List.filter (fun nr => bool_decide (nr.1 <> n)) (p_read ph)) ph
  | CSyncDir => fun res =>
      if res is Ok _ then match p_renamed ph with Some nr => p_addSafe (contents nr.2) ph | None => ph end else ph
  | CAppendLogs l => fun res => if res is Ok _ then p_addStored (ILog <$> l) ph else ph
  | CAppendMetrics l => fun res => if res is Ok _ then p_addStored (IMetric <$> l) ph else ph
  | CPurge k p => fun _ => p_addPurged (k, p) ph
  | _ => fun _ => ph
  end.

Definition spoolDiscipline : discipline sreply :=
  mkDiscipline scall sreply sphase spool_allowed spool_rely spool_next.

(** ** The programs obey it *)

Section Programs.

Context (jsonLen : spoolRecord -> option Z) (spoolLogs spoolMetrics : bool).

Abbreviation wp := (wp spoolDiscipline).

Lemma assignAll_wp {T} `{!Entry T} nextID l ph :
  wp ph (assignAll nextID l) (fun a ph' => ph' = ph).
Proof.
  revert nextID; induction l as [|x l IH]; intros nextID; [done|]. cbn [assignAll].
  destruct (assignOne nextID x) as [v y]. apply wp_bind. destruct (String.eqb _ _).
  - simpl. split; [done|]. intros e _. apply wp_bind. eapply wp_mono; [|apply IH]. by intros [? ?] ? ->.
  - simpl. apply wp_bind. eapply wp_mono; [|apply IH]. by intros [? ?] ? ->.
Qed.
#[local] Opaque assignAll.

(** Under [mu] and outside it nothing but the number and the mutex changes. *)
Lemma assign_wp {T} `{!Entry T} (l : list T) : wp start (assign l) (fun _ ph' => ph' = start).
Proof.
  unfold assign, withMu, persistSequenceLocked. cbn. split; [done|]. intros _ _. split; [done|]. intros s _.
  apply wp_bind, wp_bind. eapply wp_mono; [|apply assignAll_wp]. intros [v l'] ph ->.
  cbn. split; [split; [done|]; eexists; split; [done|]; simpl; lia|]. intros _ _. split; [done|].
  intros [[]|e] _; cbn; repeat (split; [done|]; intros [[]|?] _; cbn); by repeat (split; [done|]; intros _ _).
Qed.

(** A record that was put is on stable storage. *)
Lemma put_wp r : well_kinded (mkFileName 0 0 (sr_Kind r)) r ->
  wp start (put jsonLen r)
    (fun res ph' => p_mu ph' = false /\ p_del ph' = false /\ if res is Ok _ then forall x, In x (contents r) -> In x (p_safe ph') else True).
Proof.
  intros Hk. unfold put. destruct (jsonLen r) as [len|]; [|done]. unfold withMu. cbn. split; [done|]. intros _ _.
  split; [done|]. intros s _. destruct ((0 <? ds_maxBytes s) && (ds_maxBytes s <? ds_bytes s + len))%bool; [cbn; repeat (split; [done|]; intros); done|].
  cbn. split; [split; [done|]; eexists; split; [done|]; simpl; lia|]. intros _ _. split; [done|]. intros t _. split; [done|].
  assert (Hlt : (ds_serial s <? ds_serial s + 1) = true) by (apply Z.ltb_lt; lia).
  intros [[]|e] _; cbn; [|repeat (split; [done|]; intros); done].
  rewrite Hlt. split; [repeat (split; [done|]); eexists; split; [done|]; done|].
  intros [[]|e] _; cbn; [|repeat (split; [done|]; intros); done]. split; [done|].
  intros [[]|e] _; cbn; [|repeat (split; [done|]; intros); done].
  split; [split; [done|]; eexists; split; [done|]; simpl; lia|]. intros _ _. split; [done|]. intros _ _.
  repeat (split; [done|]). intros x Hx. simpl. apply in_or_app. by left.
Qed.
#[local] Opaque assign put.

Lemma AppendLogs_wp l :
  wp start (AppendLogs jsonLen spoolLogs l)
    (fun lr ph' => released ph' /\ if lr.2 is Ok _ then forall x, In x (payload (inl lr.1)) -> In x (p_stored ph') \/ In x (p_safe ph') else True).
Proof.
  unfold AppendLogs. destruct l as [|x l]; [split; [done|intros y []]|]. destruct spoolLogs; simpl.
  - apply wp_bind. eapply wp_mono; [|apply assign_wp]. intros [l' [[]|e]] ph ->; [|done].
    apply wp_bind. eapply wp_mono; [|apply (put_wp (mkSpoolRecord Logs l' []))]; [|done].
    intros [nm|e] ph' (Hm & Hd & Hs); simpl; (split; [done|]; intros _ _); [|done].
    split; [done|]. intros y Hy. right. apply Hs. unfold contents. simpl. by rewrite app_nil_r.
  - split; [done|]. intros [[]|e] _; [|done]. simpl. split; [done|]. intros y Hy. left. by rewrite app_nil_r.
Qed.

Lemma AppendMetrics_wp l :
  wp start (AppendMetrics jsonLen spoolMetrics l)
    (fun lr ph' => released ph' /\ if lr.2 is Ok _ then forall x, In x (payload (inr lr.1)) -> In x (p_stored ph') \/ In x (p_safe ph') else True).
Proof.
  unfold AppendMetrics. destruct l as [|x l]; [split; [done|intros y []]|]. destruct spoolMetrics; simpl.
  - apply wp_bind. eapply wp_mono; [|apply assign_wp]. intros [l' [[]|e]] ph ->; [|done].
    apply wp_bind. eapply wp_mono; [|apply (put_wp (mkSpoolRecord Metrics [] l'))]; [|done].
    intros [nm|e] ph' (Hm & Hd & Hs); simpl; (split; [done|]; intros _ _); [|done].
    split; [done|]. intros y Hy. right. by apply Hs.
  - split; [done|]. intros [[]|e] _; [|done]. simpl. split; [done|]. intros y Hy. left. by rewrite app_nil_r.
Qed.

(** What a thread under the delivery mutex knows of a record it read. *)
Definition known (k : kind) (ph : sphase) (nr : namedSpoolRecord) : Prop :=
  In (nr_name nr, nr_record nr) (p_read ph) /\ fn_kind (nr_name nr) = k /\ well_kinded (nr_name nr) (nr_record nr).

Definition under (ph : sphase) : Prop := p_mu ph = true /\ p_del ph = true.
Definition between (ph : sphase) : Prop := p_mu ph = false /\ p_del ph = true.

Lemma readAll_wp k names ph : under ph -> Forall (fun n => fn_kind n = k) names ->
  wp ph (readAll jsonLen names)
    (fun res ph' => under ph' /\ incl (p_read ph) (p_read ph') /\ if res is Ok l then Forall (known k ph') l else True).
Proof.
  revert ph; induction names as [|n names IH]; intros ph Hu Hn; [split; [exact Hu|split; [intros y; exact id|constructor]]|].
  apply Forall_cons in Hn as [Hn Hns]. cbn. split; [exact Hu|]. intros [r|e] Hr; [|split; [exact Hu|split; [intros y; exact id|done]]].
  apply wp_tryOk. eapply wp_mono; [|apply IH; [exact Hu|exact Hns]].
  simpl. intros [l|e] ph' (Hu' & Hi & Hl); (split; [done|]; split; [by intros y Hy; apply Hi; right|]); [|done].
  constructor; [|done]. split; [apply Hi; by left|done].
Qed.
#[local] Opaque readAll.

Lemma records_wp k ph : between ph ->
  wp ph (records jsonLen k) (fun res ph' => between ph' /\ if res is Ok l then Forall (known k ph') l else True).
Proof.
  intros [Hm Hd]. unfold records, withMu. cbn. split; [done|]. intros _ _. split; [done|]. intros [entries|e] _; [|by cbn].
  apply wp_bind, wp_tryOk. eapply wp_mono; [|apply (readAll_wp k)].
  - intros [l|e] ph' ([Hm' Hd'] & _ & Hl); cbn; (split; [done|]; intros _ _; split; [done|]); [|done].
    apply Forall_forall. intros nr Hnr. rewrite (merge_sort_Permutation named_le l) in Hnr. exact (proj1 (Forall_forall _ _) Hl nr Hnr).
  - done.
  - apply Forall_forall. intros n Hn%list_elem_of_In. apply filter_In in Hn as [_ Hn]. by apply bool_decide_eq_true in Hn.
Qed.

Lemma ack_wp k ph nr : between ph -> known k ph nr -> (forall x, In x (contents (nr_record nr)) -> gone ph x) ->
  wp ph (ack nr) (fun _ ph' => between ph' /\ p_read ph' = p_read ph).
Proof.
  intros [Hm Hd] (Hr & _) Hg. unfold ack, withMu. cbn. split; [done|]. intros _ _.
  split; [repeat (split; [done|]); by exists (nr_record nr)|]. intros [b|e] _; cbn; [|done].
  split; [done|]. intros s _. split; [split; [done|]; eexists; split; [done|]; simpl; lia|]. intros _ _. by repeat (split; [done|]; intros [] _).
Qed.
#[local] Opaque ack records.

Lemma well_kinded_contents n r : well_kinded n r ->
  contents r = match fn_kind n with Logs => ILog <$> sr_Logs r | Metrics => IMetric <$> sr_Metrics r end.
Proof. unfold well_kinded, contents. destruct (fn_kind n); intros ->; simpl; [by rewrite app_nil_r|done]. Qed.

Lemma deliver_wp k l ph : between ph -> Forall (known k ph) l -> wp ph (deliver k l) (fun _ ph' => between ph').
Proof.
  revert ph; induction l as [|nr l IH]; intros ph Hb Hl; [done|]. apply Forall_cons in Hl as [Hnr Hl].
  cbn [deliver]. apply wp_bind.
  assert (Hack : wp (p_addStored (contents (nr_record nr)) ph) (_ ←! ack nr; deliver k l) (fun _ ph' => between ph')).
  { apply wp_tryOk. eapply wp_mono; [|apply (ack_wp k); [exact Hb|exact Hnr|]].
    - intros [[]|e] ph' [Hb' Hr]; [|done]. apply IH; [done|]. eapply Forall_impl; [exact Hl|]. intros nr' [Hi Hk]. split; [|done]. by rewrite Hr.
    - intros x Hx. left. simpl. apply in_or_app. by left. }
  destruct Hnr as (_ & Hk & Hw). rewrite (well_kinded_contents _ _ Hw), Hk in Hack.
  destruct k; cbn; (split; [done|]; intros [[]|e] _; [exact Hack|done]).
Qed.
#[local] Opaque deliver.

Lemma withDelivery_wp {A} ph (m : S A) : p_del ph = false -> p_mu ph = false ->
  (forall ph', between ph' -> wp ph' m (fun _ ph'' => between ph'')) ->
  wp ph (withDelivery m) (fun _ ph' => p_mu ph' = false /\ p_del ph' = false).
Proof.
  intros Hd Hm H. unfold withDelivery. cbn. split; [done|]. intros _ _. apply wp_bind.
  eapply wp_mono; [|apply H; done]. intros a ph' [Hm' Hd']. cbn. by split; [|intros _ _].
Qed.

Lemma flushKind_wp k ph : p_del ph = false -> p_mu ph = false ->
  wp ph (flushKind jsonLen k) (fun _ ph' => p_mu ph' = false /\ p_del ph' = false).
Proof.
  intros Hd Hm. apply withDelivery_wp; [done..|]. intros ph' Hb. apply wp_tryOk. eapply wp_mono; [|by apply records_wp].
  intros [l|e] ph'' [Hb' Hl]; [by apply deliver_wp|done].
Qed.
#[local] Opaque flushKind.

Lemma loopOnce_wp : wp start (loopOnce jsonLen spoolLogs spoolMetrics) (fun _ ph' => released ph').
Proof.
  unfold loopOnce. cbn. split; [done|]. intros g _. apply wp_bind. eapply wp_mono with (Q := fun _ ph => released ph);
    [|by destruct spoolLogs; [apply flushKind_wp|]].
  intros r1 ph [Hm Hd]. apply wp_bind. eapply wp_mono with (Q := fun _ ph => released ph);
    [|by destruct spoolMetrics; [apply flushKind_wp|]].
  intros r2 ph' [Hm' Hd']. destruct r1, r2; cbn; done.
Qed.

Lemma purgeRecord_contents k p r x : In x (contents r) -> In x (contents (purgeRecord k p r)) \/ item_of k p x = true.
Proof.
  unfold contents, purgeRecord. rewrite <- !list_elem_of_In, !elem_of_app, !list_elem_of_fmap.
  assert (Hf : forall {T} (f : T -> bool) (l : list T) y, y ∈ l -> f y = false -> y ∈ List.filter (fun z => negb (f z)) l).
  { intros T f l y Hy Hf. apply list_elem_of_In, filter_In. split; [by apply list_elem_of_In|]. by rewrite Hf. }
  destruct k; simpl; intros [(y & -> & Hy)|(y & -> & Hy)]; try (left; first [left; by exists y|right; by exists y]).
  - destruct (String.eqb (ll_ProjectID y) p) eqn:E; [by right|]. left; left. exists y. split; [done|]. by apply (Hf _ (fun z => String.eqb (ll_ProjectID z) p)).
  - destruct (String.eqb (mp_ProjectID y) p) eqn:E; [by right|]. left; right. exists y. split; [done|]. by apply (Hf _ (fun z => String.eqb (mp_ProjectID z) p)).
Qed.

Lemma purgeRecord_kinded k p n r : well_kinded n r -> well_kinded n (purgeRecord k p r).
Proof. unfold well_kinded, purgeRecord. by destruct (fn_kind n), k; simpl; intros ->. Qed.

(** A purge drops the purged entries and no other. *)
Lemma purgeFile_wp k p n ph : under ph -> In (k, p) (p_purged ph) ->
  wp ph (purgeFile jsonLen k p n) (fun _ ph' => under ph' /\ In (k, p) (p_purged ph')).
Proof.
  intros [Hm Hd] Hp. unfold purgeFile. cbn. split; [done|]. intros [r|e] Hr; [|by cbn].
  assert (Hdrop : forall x, In x (contents r) -> In x (contents (purgeRecord k p r)) \/ gone (p_setRead ((n, r) :: p_read ph) ph) x).
  { intros x Hx. destruct (purgeRecord_contents k p r x Hx) as [H|H]; [by left|]. right. right. by exists k, p. }
  assert (Hw : wp (p_setRead ((n, r) :: p_read ph) ph)
      (match jsonLen (purgeRecord k p r) with
       | None => Ret (Err (ErrOther "json"))
       | Some len => _ ←! call (CWriteAtomic n (purgeRecord k p r)); addBytes (len - fileSize jsonLen r) ;; Ret (Ok tt)
       end) (fun _ ph' => under ph' /\ In (k, p) (p_purged ph'))).
  { destruct (jsonLen _) as [len|]; [|done]. cbn. split.
    - repeat (split; [done|]). split; [by apply purgeRecord_kinded|]. exists r. split; [by left|done].
    - intros [[]|e] _; [|done]. cbn. rewrite Hm. split; [done|]. intros s _. cbn. split; [split; [done|]; eexists; split; [done|]; simpl; lia|]. done. }
  destruct (sr_Logs (purgeRecord k p r)) as [|y l] eqn:El; [|exact Hw].
  destruct (sr_Metrics (purgeRecord k p r)) as [|y l] eqn:Em; [|exact Hw].
  cbn. split.
  - repeat (split; [done|]). exists r. split; [by left|]. intros x Hx. destruct (Hdrop x Hx) as [H|H]; [|done].
    unfold contents in H. by rewrite El, Em in H.
  - intros [[]|e] _; cbn; [|done|done]. rewrite Hm. split; [done|]. intros s _. cbn. split; [split; [done|]; eexists; split; [done|]; simpl; lia|]. done.
Qed.
#[local] Opaque purgeFile.

Lemma purgeFiles_wp k p names ph : under ph -> In (k, p) (p_purged ph) ->
  wp ph (purgeFiles jsonLen k p names) (fun _ ph' => under ph' /\ In (k, p) (p_purged ph')).
Proof.
  revert ph; induction names as [|n names IH]; intros ph Hu Hp; [done|]. cbn [purgeFiles]. apply wp_tryOk.
  eapply wp_mono; [|by apply purgeFile_wp]. intros [[]|e] ph' [Hu' Hp']; [by apply IH|done].
Qed.
#[local] Opaque purgeFiles.

Lemma PurgeProject_wp k p : wp start (PurgeProject jsonLen k p) (fun _ ph' => released ph').
Proof.
  eapply wp_mono; [|apply withDelivery_wp; [done..|]]; [done|]. intros ph [Hm Hd]. cbn. split; [done|].
  intros [[]|e] _; [|done]. unfold purge, withMu. cbn. split; [done|]. intros _ _. split; [done|]. intros [l|e] _; [|by cbn].
  apply wp_bind, wp_tryOk. eapply wp_mono; [|apply purgeFiles_wp; [done|by left]]. intros [[]|e] ph' [[Hm' Hd'] _]; [|by cbn].
  cbn. rewrite Hm'. split; [done|]. intros s _. split; [split; [done|]; eexists; split; [done|]; simpl; lia|]. intros _ _. split; [done|].
  intros [[]|e] _; cbn; (split; [try destruct (p_renamed ph'); done|]); intros _ _; try destruct (p_renamed ph'); done.
Qed.

Context `{!Stat LogLine LogQuery} `{!Stat MetricPoint MetricQuery}.
Context (iterLogs : gmap (bool * string * Z) LogLine -> list LogLine) (iterMetrics : gmap (bool * string * Z) MetricPoint -> list MetricPoint).

Lemma program_wp r : wp start (program jsonLen spoolLogs spoolMetrics iterLogs iterMetrics r) (fun _ ph' => released ph').
Proof.
  destruct r as [l|l| |k p|q|q]; unfold program.
  - apply wp_bind. eapply wp_mono; [|apply AppendLogs_wp]. intros [l' [[]|e]] ph [Hr H]; cbn; done.
  - apply wp_bind. eapply wp_mono; [|apply AppendMetrics_wp]. intros [l' [[]|e]] ph [Hr H]; cbn; done.
  - apply loopOnce_wp.
  - unfold ignore. apply wp_bind. eapply wp_mono; [|apply PurgeProject_wp]. done.
  - unfold ignore, QueryLogs. apply wp_bind. destruct spoolLogs; [|done]. simpl negb. cbv iota.
    eapply wp_mono; [|apply withDelivery_wp; [done..|]]; [done|]. intros ph Hb. cbn. split; [done|]. intros page _.
    apply wp_bind. destruct page; cbn; [|split; [done|]; intros _ _]; apply wp_tryOk; (eapply wp_mono; [|by apply records_wp]);
      intros [?|?] ph' [Hb' _]; done.
  - unfold ignore, QueryMetrics. apply wp_bind. destruct spoolMetrics; [|done]. simpl negb. cbv iota.
    eapply wp_mono; [|apply withDelivery_wp; [done..|]]; [done|]. intros ph Hb. cbn. split; [done|]. intros page _.
    apply wp_bind. destruct page; cbn; [|split; [done|]; intros _ _]; apply wp_tryOk; (eapply wp_mono; [|by apply records_wp]);
      intros [?|?] ph' [Hb' _]; done.
Qed.

End Programs.
