(* ===== verification/SpoolInv.v ===== *)
(** * Statistics: what the threads of the spool know

    The invariant that ties the phases of [SpoolSafety] to the world, for every
    interleaving and every power loss, and the theorem it gives. *)

From S2P Require Import Prelude Prog Stats StatsPages Spool SpoolWorld SpoolSafety.
From stdpp Require Import options.
#[local] Open Scope Z_scope.

(** ** The invariant *)

Abbreviation files w := (dk_files (w_disk w)).
Abbreviation durable w := (dk_durable (w_disk w)).

(** No later record of this process ([boot] its start, [lim] its last used
    serial number) gets this name. *)
Definition oldName (boot lim : Z) (w : World) (n : fileName) : Prop :=
  fn_nano n <= w_now w /\ (fn_nano n < boot \/ fn_serial n <= lim).

Record knows (boot lim : Z) (w : World) (ph : sphase) : Prop := {
  k_mu : p_mu ph = true -> w_mu w = true;
  k_del : p_del ph = true -> w_delivery w = true;
  k_spool s : p_spool ph = Some s -> p_mu ph = true /\ w_spool w = s;
  k_time t : p_time ph = Some t -> boot <= t <= w_now w;
  k_fresh : p_fresh ph = true -> p_mu ph = true /\ lim < ds_serial (w_spool w);
  k_read n r : In (n, r) (p_read ph) -> p_del ph = true /\ oldName boot lim w n /\ (files w !! n = Some r \/ files w !! n = None);
  k_renamed n r : p_renamed ph = Some (n, r) -> p_mu ph = true /\ files w !! n = Some r;
  k_stored x : In x (p_stored ph) -> kept w x;
  k_safe x : In x (p_safe ph) -> safe w x;
  k_purged : incl (p_purged ph) (w_purged w) }.

(** The mutexes exclude. *)
Definition exclusive (f : sphase -> bool) (phs : list sphase) : Prop :=
  forall i j p q, phs !! i = Some p -> phs !! j = Some q -> f p = true -> f q = true -> i = j.

Record directory (boot lim : Z) (w : World) : Prop := {
  d_boot : boot <= w_now w;
  d_lim : lim <= ds_serial (w_spool w);
  d_file n r : files w !! n = Some r \/ durable w !! n = Some r -> oldName boot lim w n /\ well_kinded n r;
  d_accepted x : In x (w_accepted w) -> safe w x }.

Definition spool_inv (w : World) (phs : list sphase) : Prop :=
  exists boot lim, directory boot lim w /\ Forall (knows boot lim w) phs /\ exclusive p_mu phs /\ exclusive p_del phs.

Lemma exclusive_insert f phs tid ph ph' :
  exclusive f phs -> phs !! tid = Some ph ->
  (f ph' = true -> f ph = true \/ forall j q, phs !! j = Some q -> f q = false) -> exclusive f (<[tid := ph']> phs).
Proof.
  intros He Ht Hf. assert (Hlt := lookup_lt_Some _ _ _ Ht).
  assert (H : forall j q, j <> tid -> phs !! j = Some q -> f ph' = true -> f q = true -> False).
  { intros j q Hne Hj Hp Hq. destruct (Hf Hp) as [Ho|Ho]; [by destruct Hne; eapply He|]. by rewrite (Ho _ _ Hj) in Hq. }
  intros i j p q Hi Hj Hp Hq. destruct (decide (i = tid)) as [->|Hni], (decide (j = tid)) as [->|Hnj]; [done|..];
    rewrite ?list_lookup_insert_eq in Hi by done; rewrite ?list_lookup_insert_eq in Hj by done;
    rewrite ?list_lookup_insert_ne in Hi by done; rewrite ?list_lookup_insert_ne in Hj by done; simplify_eq.
  - by destruct (H j q).
  - by destruct (H i p).
  - by eapply He.
Qed.

Lemma exclusive_start f phs : exclusive f phs -> f start = false -> exclusive f (phs ++ [start]).
Proof.
  intros He Hs.
  assert (H : forall i p, (phs ++ [start]) !! i = Some p -> f p = true -> phs !! i = Some p).
  { intros i p Hi Hp. apply lookup_app_Some in Hi as [Hi|[_ Hi]]; [done|]. apply list_lookup_singleton_Some in Hi as [_ <-]. congruence. }
  intros i j p q Hi Hj Hp Hq. eapply He; eauto.
Qed.

(** What a step may do to the world as far as the other threads are concerned. *)
Record grows (boot lim lim' : Z) (w w' : World) : Prop := {
  g_lim : lim <= lim';
  g_now : w_now w <= w_now w';
  g_kept x : kept w x -> kept w' x;
  g_safe x : safe w x -> safe w' x;
  g_purged : incl (w_purged w) (w_purged w') }.

Definition mu_frame (lim lim' : Z) (w w' : World) : Prop :=
  w_mu w' = true /\ w_spool w' = w_spool w /\ files w' = files w /\ lim' = lim.
Definition del_frame (boot lim : Z) (w w' : World) : Prop :=
  w_delivery w' = true /\ forall n, oldName boot lim w n -> files w' !! n = files w !! n.

Lemma oldName_grows boot lim lim' w w' n : grows boot lim lim' w w' -> oldName boot lim w n -> oldName boot lim' w' n.
Proof. intros [] []. unfold oldName. lia. Qed.

Lemma knows_frame boot lim lim' w w' ph :
  knows boot lim w ph -> grows boot lim lim' w w' ->
  (p_mu ph = true -> mu_frame lim lim' w w') -> (p_del ph = true -> del_frame boot lim w w') -> knows boot lim' w' ph.
Proof.
  intros K G Hmu Hdel. pose proof G as G'. destruct K, G'. split.
  - intros H. by destruct (Hmu H).
  - intros H. by destruct (Hdel H).
  - intros s Hs. destruct (k_spool0 _ Hs) as [Hm <-]. split; [done|]. by destruct (Hmu Hm) as (_ & -> & _).
  - intros t Ht. destruct (k_time0 _ Ht). lia.
  - intros H. destruct (k_fresh0 H) as [Hm Hl]. split; [done|]. destruct (Hmu Hm) as (_ & -> & _ & ->). done.
  - intros n r Hr. destruct (k_read0 _ _ Hr) as (Hd & Ho & Hf). destruct (Hdel Hd) as [_ Hsame]. rewrite (Hsame _ Ho).
    split; [done|]. split; [by eapply oldName_grows|done].
  - intros n r Hr. destruct (k_renamed0 _ _ Hr) as [Hm Hf]. split; [done|]. by destruct (Hmu Hm) as (_ & _ & -> & _).
  - auto.
  - auto.
  - intros y Hy. by apply g_purged0, k_purged0.
Qed.

Lemma no_holder f g boot lim w phs :
  Forall (knows boot lim w) phs -> (forall ph, knows boot lim w ph -> f ph = true -> g w = true) -> g w = false ->
  forall j q, phs !! j = Some q -> f q = false.
Proof.
  intros Hk Hf Hg j q Hj. destruct (f q) eqn:E; [|done]. rewrite Forall_lookup in Hk.
  by rewrite (Hf q (Hk _ _ Hj) E) in Hg.
Qed.

(** One step of one thread. *)
Lemma inv_insert boot lim lim' w w' phs tid ph ph' :
  Forall (knows boot lim w) phs -> exclusive p_mu phs -> exclusive p_del phs -> phs !! tid = Some ph ->
  directory boot lim' w' -> knows boot lim' w' ph' -> grows boot lim lim' w w' ->
  (p_mu ph = true \/ (w_mu w = true -> mu_frame lim lim' w w')) ->
  (p_del ph = true \/ (w_delivery w = true -> del_frame boot lim w w')) ->
  (p_mu ph' = true -> p_mu ph = true \/ w_mu w = false) -> (p_del ph' = true -> p_del ph = true \/ w_delivery w = false) ->
  spool_inv w' (<[tid := ph']> phs ++ []).
Proof.
  intros Hk Em Ed Ht Hd K G Hmu Hdel Hm' Hd'. rewrite app_nil_r. exists boot, lim'. split; [done|].
  split; [|split].
  - apply Forall_lookup. intros j q Hj. destruct (decide (tid = j)) as [<-|Hne].
    { rewrite list_lookup_insert_eq in Hj by (by eapply lookup_lt_Some). by simplify_eq. }
    rewrite list_lookup_insert_ne in Hj by done.
    assert (Hq : knows boot lim w q) by (rewrite Forall_lookup in Hk; eauto).
    eapply knows_frame; [exact Hq|exact G|..]; intros Hb.
    + destruct Hmu as [Ha|Ha]; [|by apply Ha, (k_mu _ _ _ _ Hq)]. destruct Hne. by eapply Em.
    + destruct Hdel as [Ha|Ha]; [|by apply Ha, (k_del _ _ _ _ Hq)]. destruct Hne. by eapply Ed.
  - eapply exclusive_insert; [done..|]. intros H. destruct (Hm' H) as [?|Hf]; [by left|right].
    eapply (no_holder _ w_mu); [done| |done]. intros p' Kp. apply (k_mu _ _ _ _ Kp).
  - eapply exclusive_insert; [done..|]. intros H. destruct (Hd' H) as [?|Hf]; [by left|right].
    eapply (no_holder _ w_delivery); [done| |done]. intros p' Kp. apply (k_del _ _ _ _ Kp).
Qed.

Lemma grows_by boot lim lim' w w' :
  lim <= lim' -> w_now w <= w_now w' -> (forall x, In x (w_stored w) -> kept w' x) -> incl (w_purged w) (w_purged w') ->
  (forall x, spooled (w_disk w) x -> safe w' x) -> grows boot lim lim' w w'.
Proof.
  intros Hl Hn Hs Hp Hd.
  assert (Hk : forall x, kept w x -> kept w' x).
  { intros x [Hx|(k & p & Hx & Hi)]; [by apply Hs|]. right. exists k, p. split; [by apply Hp|done]. }
  split; [done|done|done| |done]. intros x [Hx|Hx]; [left; by apply Hk|by apply Hd].
Qed.

(** The step leaves the entries, the files and the clock alone. *)
Lemma grows_refl boot lim w w' :
  w_stored w' = w_stored w -> w_purged w' = w_purged w -> w_now w' = w_now w -> files w' = files w -> durable w' = durable w ->
  grows boot lim lim w w'.
Proof.
  intros Hs Hp Hn Hf Hd. apply grows_by; [lia|lia| |by rewrite Hp; intros y| ].
  - intros x Hx. left. by rewrite Hs.
  - intros x (n & r & r' & H1 & H2 & H). right. exists n, r, r'. by rewrite Hf, Hd.
Qed.

Lemma in_unread n n' r' l : In (n', r') (List.filter (fun nr : fileName * spoolRecord => bool_decide (nr.1 <> n)) l) -> In (n', r') l /\ n' <> n.
Proof. intros [Hin Hne]%filter_In. split; [done|]. by apply bool_decide_eq_true in Hne. Qed.

Section Steps.

Context (boot lim : Z) (w : World) (phs : list sphase) (tid : nat) (ph : sphase).
Context (Hd : directory boot lim w) (Hk : Forall (knows boot lim w) phs).
Context (Em : exclusive p_mu phs) (Ed : exclusive p_del phs) (Ht : phs !! tid = Some ph).

#[local] Set Default Proof Using "All".

Lemma own : knows boot lim w ph.
Proof. rewrite Forall_lookup in Hk. eauto. Qed.

Lemma directory_same w' :
  w_spool w' = w_spool w -> w_accepted w' = w_accepted w -> w_now w' = w_now w -> files w' = files w -> durable w' = durable w ->
  w_stored w' = w_stored w -> w_purged w' = w_purged w -> directory boot lim w'.
Proof.
  intros Hsp Ha Hn Hf Hdu Hs Hp. destruct Hd as [H1 H2 H3 H4]. split.
  - by rewrite Hn.
  - by rewrite Hsp.
  - unfold oldName. rewrite Hf, Hdu, Hn. exact H3.
  - rewrite Ha. intros x Hx. apply (g_safe boot lim lim w); [by apply grows_refl|by apply H4].
Qed.

(** Nothing that matters changes. *)
Lemma inv_quiet w' ph' :
  w_mu w' = w_mu w -> w_delivery w' = w_delivery w ->
  w_spool w' = w_spool w -> w_accepted w' = w_accepted w -> w_now w' = w_now w -> files w' = files w -> durable w' = durable w ->
  w_stored w' = w_stored w -> w_purged w' = w_purged w ->
  (p_mu ph' = p_mu ph) -> (p_del ph' = p_del ph) -> knows boot lim w ph' -> spool_inv w' (<[tid := ph']> phs ++ []).
Proof.
  intros Hmu Hdel Hsp Ha Hn Hf Hdu Hs Hp Pm Pd K.
  assert (G : grows boot lim lim w w') by by apply grows_refl.
  assert (Fm : w_mu w = true -> mu_frame lim lim w w') by (intros; repeat split; [by rewrite Hmu|done..]).
  assert (Fd : w_delivery w = true -> del_frame boot lim w w') by (intros; split; [by rewrite Hdel|by rewrite Hf]).
  eapply (inv_insert boot lim lim); [done..|by apply directory_same| |exact G|by right|by right|rewrite Pm; by left|rewrite Pd; by left].
  eapply knows_frame; [exact K|exact G|..]; intros H; [apply Fm, (k_mu _ _ _ _ K H)|apply Fd, (k_del _ _ _ _ K H)].
Qed.

Lemma inv_lockMu : w_mu w = false -> spool_inv (w_setMu true w) (<[tid := p_lock ph]> phs ++ []).
Proof.
  intros Hf. pose proof own as []. eapply (inv_insert boot lim lim); [done..|by apply directory_same| |by apply grows_refl|right|right| |].
  - split; simpl; done.
  - by rewrite Hf.
  - done.
  - by right.
  - by left.
Qed.

Lemma inv_unlockMu : p_mu ph = true -> spool_inv (w_setMu false w) (<[tid := p_unlock ph]> phs ++ []).
Proof.
  intros Hm. pose proof own as []. eapply (inv_insert boot lim lim); [done..|by apply directory_same| |by apply grows_refl|by left|by right|by left|by left].
  split; simpl; done.
Qed.

Lemma inv_lockDel : w_delivery w = false -> spool_inv (w_setDelivery true w) (<[tid := p_lockDel ph]> phs ++ []).
Proof.
  intros Hf. pose proof own as []. eapply (inv_insert boot lim lim); [done..|by apply directory_same| |by apply grows_refl|by right|right| |].
  - split; simpl; done.
  - by rewrite Hf.
  - by left.
  - by right.
Qed.

Lemma inv_unlockDel : p_del ph = true -> spool_inv (w_setDelivery false w) (<[tid := p_unlockDel ph]> phs ++ []).
Proof.
  intros Hm. pose proof own as []. eapply (inv_insert boot lim lim); [done..|by apply directory_same| |by apply grows_refl|by right|by left|by left|by left].
  split; simpl; done.
Qed.

Lemma inv_setSpool s : spool_allowed ph (CSetSpool s) ->
  spool_inv (w_setSpool s w) (<[tid := spool_next ph (CSetSpool s) tt]> phs ++ []).
Proof.
  intros (Hm & s0 & Hs0 & Hle). pose proof own as []. destruct (k_spool0 _ Hs0) as [_ Hw].
  assert (G : grows boot lim lim w (w_setSpool s w)) by by apply grows_refl.
  eapply (inv_insert boot lim lim); [done..| | |exact G|by left|by right|by left|by left].
  - destruct Hd as [H1 H2 H3 H4]. split; simpl; [done|rewrite Hw in H2; lia|done|]. intros x Hx. by apply (g_safe _ _ _ _ _ G), H4.
  - cbn. rewrite Hs0. split; simpl; try done.
    + by intros ? [= <-].
    + intros Hf. split; [done|]. destruct Hd as [_ H2 _ _]. rewrite Hw in H2.
      apply orb_true_iff in Hf as [Hf|Hf]; [destruct (k_fresh0 Hf) as [_ Hlt]; rewrite Hw in Hlt; lia|apply Z.ltb_lt in Hf; lia].
Qed.

Lemma inv_sync : spool_inv (w_setDisk (dk_sync (w_disk w)) w) (<[tid := spool_next ph CSyncDir (Ok tt)]> phs ++ []).
Proof.
  pose proof own as K. set (w' := w_setDisk _ w).
  assert (G : grows boot lim lim w w').
  { apply grows_by; [lia|done|by left|by intros y|]. intros x (n & r & r' & H1 & _ & Hx & _). right. by exists n, r, r. }
  eapply (inv_insert boot lim lim); [done..| | |exact G|by right|by right| |].
  - destruct Hd as [H1 H2 H3 H4]. split; simpl; [done|done| |].
    + intros n r [H|H]; apply H3; by left.
    + intros x Hx. by apply (g_safe _ _ _ _ _ G), H4.
  - assert (K' : knows boot lim w' ph) by (by eapply knows_frame; [exact K|exact G|intros H; pose proof (k_mu _ _ _ _ K H)|intros H; pose proof (k_del _ _ _ _ K H)]).
    cbn. destruct (p_renamed ph) as [[n r]|] eqn:Er; [|done]. pose proof K' as []. split; simpl; try done.
    + intros x [Hx|Hx]%in_app_or; [|by apply k_safe0]. right. exists n, r, r. destruct (k_renamed0 _ _ Er) as [_ Hf]. done.
  - cbn. intros H. left. by destruct (p_renamed ph).
  - cbn. intros H. left. by destruct (p_renamed ph).
Qed.

Lemma inv_rename n r : spool_allowed ph (CRename n r) ->
  spool_inv (w_setDisk (dk_setFiles (<[n := r]> (files w)) (w_disk w)) w) (<[tid := p_rename (n, r) ph]> phs ++ []).
Proof.
  intros (Hm & Hfr & Htm & Hwk & s & Hs & Hser). pose proof own as K. destruct K. destruct (k_spool0 _ Hs) as [_ Hw].
  destruct (k_fresh0 Hfr) as [_ Hlt]. pose proof (k_time0 _ Htm) as Htime. rewrite Hw in Hlt. set (w' := w_setDisk _ w).
  assert (Hnew : forall n', oldName boot lim w n' -> n' <> n) by (intros n' [_ Ho] ->; lia).
  destruct Hd as [H1 H2 H3 H4].
  assert (Hno : files w !! n = None).
  { destruct (files w !! n) as [r0|] eqn:E; [|done]. destruct (H3 n r0) as [Ho _]; [by left|]. by destruct (Hnew _ Ho). }
  assert (G : grows boot lim (ds_serial s) w w').
  { apply grows_by; [lia|done|by left|by intros y|]. intros x (n' & r1 & r' & E1 & E2 & Hx). right. exists n', r1, r'.
    split; [|done]. simpl. rewrite lookup_insert_ne; [done|]. intros <-. by rewrite Hno in E1. }
  eapply (inv_insert boot lim (ds_serial s)); [done..| | |exact G|by left|right|by left|by left].
  - split; simpl; [done|rewrite Hw; lia| |].
    + intros n' r' Hr. destruct (decide (n' = n)) as [->|Hne].
      * destruct Hr as [Hr|Hr].
        -- rewrite lookup_insert_eq in Hr. simplify_eq. split; [|done]. unfold oldName; simpl. lia.
        -- destruct (H3 n r') as [Ho ?]; [by right|]. by destruct (Hnew _ Ho).
      * rewrite lookup_insert_ne in Hr by done. destruct (H3 _ _ Hr) as [Ho ?]. split; [|done]. by eapply oldName_grows.
    + intros x Hx. by apply (g_safe _ _ _ _ _ G), H4.
  - split; simpl; try done.
    + intros n' r' Hr. destruct (k_read0 _ _ Hr) as (Hdl & Ho & Hf). split; [done|]. split; [by eapply oldName_grows|].
      rewrite lookup_insert_ne; [done|]. intros E. by apply (Hnew _ Ho).
    + intros ? ? [= <- <-]. split; [done|]. by rewrite lookup_insert_eq.
    + intros x Hx. by apply (g_safe _ _ _ _ _ G), k_safe0.
  - intros Hdl. split; [done|]. intros n' Ho. simpl. rewrite lookup_insert_ne; [done|]. intros E. by apply (Hnew _ Ho).
Qed.

Lemma inv_readFile n r : p_mu ph = true -> p_del ph = true -> files w !! n = Some r ->
  spool_inv w (<[tid := p_setRead ((n, r) :: p_read ph) ph]> phs ++ []).
Proof.
  intros Hm Hdl Hf. pose proof own as []. apply inv_quiet; try done. split; simpl; try done.
  intros n' r' [[= <- <-]|Hr]; [|by apply k_read0]. split; [done|]. split; [|by left].
  destruct Hd as [_ _ H3 _]. by apply (H3 n r); left.
Qed.

Lemma gone_kept x : gone ph x -> kept w x.
Proof.
  pose proof own as []. intros [Hx|(k & p & Hx & Hi)]; [by apply k_stored0|]. right. exists k, p. split; [by apply k_purged0|done].
Qed.

(** A file changes that the thread read, under both mutexes. *)
Lemma inv_files n r m ph' :
  p_mu ph = true -> p_del ph = true -> In (n, r) (p_read ph) ->
  (forall n', n' <> n -> m !! n' = files w !! n') ->
  (forall r', m !! n = Some r' -> well_kinded n r' /\ forall x, In x (contents r) -> In x (contents r') \/ gone ph x) ->
  (m !! n = None -> forall x, In x (contents r) -> gone ph x) ->
  p_mu ph' = p_mu ph -> p_del ph' = p_del ph -> p_spool ph' = p_spool ph -> p_time ph' = p_time ph -> p_fresh ph' = p_fresh ph ->
  p_renamed ph' = None -> p_stored ph' = p_stored ph -> p_safe ph' = p_safe ph -> p_purged ph' = p_purged ph ->
  (forall n' r', In (n', r') (p_read ph') -> In (n', r') (p_read ph) /\ (n' = n -> m !! n = None)) ->
  spool_inv (w_setDisk (dk_setFiles m (w_disk w)) w) (<[tid := ph']> phs ++ []).
Proof.
  intros Hm Hdl Hr Hoth Hsome Hnone Em' Ed' Esp Et Ef Er Est Esf Ep Hrd. pose proof own as K. pose proof K as [].
  destruct (k_read0 _ _ Hr) as (_ & Hold & Hcur). set (w' := w_setDisk _ w). pose proof Hd as [H1 H2 H3 H4].
  assert (G : grows boot lim lim w w').
  { apply grows_by; [lia|done|by left|by intros y|]. intros x (n' & r1 & r2 & E1 & E2 & X1 & X2).
    destruct (decide (n' = n)) as [->|Hne].
    - assert (r1 = r) as -> by (destruct Hcur; congruence).
      destruct (m !! n) as [r'|] eqn:Emn.
      + destruct (Hsome _ eq_refl) as [_ Hx]. destruct (Hx _ X1) as [Hx'|Hx']; [right; by exists n, r', r2|left; by apply gone_kept].
      + left. by apply gone_kept, Hnone.
    - right. exists n', r1, r2. split; [|done]. simpl. by rewrite Hoth. }
  eapply (inv_insert boot lim lim); [done..| | |exact G|by left|by left|rewrite Em'; by left|rewrite Ed'; by left].
  - split; simpl; [done|done| |].
    + intros n' r' Hf. destruct (decide (n' = n)) as [->|Hne].
      * destruct Hf as [Hf|Hf]; [|by apply H3; right]. split; [done|]. by destruct (Hsome _ Hf).
      * rewrite Hoth in Hf by done. by apply H3.
    + intros x Hx. by apply (g_safe _ _ _ _ _ G), H4.
  - split; rewrite ?Em', ?Ed', ?Esp, ?Et, ?Ef, ?Er, ?Est, ?Esf, ?Ep; try done.
    + intros n' r' Hin. destruct (Hrd _ _ Hin) as [Hin' Hn']. destruct (k_read0 _ _ Hin') as (_ & Ho & Hf). split; [done|]. split; [done|].
      simpl. destruct (decide (n' = n)) as [->|Hne]; [right; by apply Hn'|]. by rewrite Hoth.
    + intros x Hx. by apply (g_safe _ _ _ _ _ G), k_safe0.
Qed.

Lemma inv_remove n : spool_allowed ph (CRemove n) ->
  spool_inv (w_setDisk (dk_setFiles (delete n (files w)) (w_disk w)) w) (<[tid := p_changed (p_read ph) ph]> phs ++ []).
Proof.
  intros (Hm & Hdl & r & Hr & Hg). apply (inv_files n r); try done.
  - intros n' Hne. by rewrite lookup_delete_ne.
  - intros r'. by rewrite lookup_delete_eq.
  - intros n' r' Hin. split; [done|]. intros ->. apply lookup_delete_eq.
Qed.

Lemma inv_writeAtomic n r' : spool_allowed ph (CWriteAtomic n r') ->
  spool_inv (w_setDisk (dk_setFiles (<[n := r']> (files w)) (w_disk w)) w)
    (<[tid := p_changed (List.filter (fun nr => bool_decide (nr.1 <> n)) (p_read ph)) ph]> phs ++ []).
Proof.
  intros (Hm & Hdl & Hw & r & Hr & Hg). apply (inv_files n r); try done.
  - intros n' Hne. by rewrite lookup_insert_ne.
  - intros r''. rewrite lookup_insert_eq. by intros [= <-].
  - by rewrite lookup_insert_eq.
  - intros n' r'' [Hin Hne]%in_unread. by split.
Qed.

(** The thread forgets some of what it read. *)
Lemma inv_forget l : incl l (p_read ph) -> spool_inv w (<[tid := p_changed l ph]> phs ++ []).
Proof. intros Hl. pose proof own as []. apply inv_quiet; try done. split; simpl; try done. intros n r Hr. by apply k_read0, Hl. Qed.

(** A batch reached the backend, whatever it answered. *)
Lemma inv_append l ph' : ph' = ph \/ ph' = p_addStored l ph ->
  spool_inv (w_setStored (w_stored w ++ l) w) (<[tid := ph']> phs ++ []).
Proof.
  intros Hph. pose proof own as K. set (w' := w_setStored _ w).
  assert (G : grows boot lim lim w w').
  { apply grows_by; [lia|done| |by intros y|by right]. intros x Hx. left. apply in_or_app. by left. }
  assert (K' : knows boot lim w' ph).
  { eapply knows_frame; [exact K|exact G|..]; intros H; [pose proof (k_mu _ _ _ _ K H)|pose proof (k_del _ _ _ _ K H)]; done. }
  destruct Hd as [H1 H2 H3 H4].
  eapply (inv_insert boot lim lim); [done..| | |exact G|by right|by right|by destruct Hph as [-> | ->]; left|by destruct Hph as [-> | ->]; left].
  - split; [done..|]. intros x Hx. by apply (g_safe _ _ _ _ _ G), H4.
  - destruct Hph as [-> | ->]; [done|]. destruct K'. split; try done.
    intros x [Hx|Hx]%in_app_or; [|by apply k_stored0]. left. apply in_or_app. by right.
Qed.

(** A purge is asked for, and the backend drops entries of the project or none. *)
Lemma inv_purge k p stored :
  (forall x, In x (w_stored w) -> In x stored \/ item_of k p x = true) ->
  spool_inv (w_setStored stored (w_setPurged ((k, p) :: w_purged w) w)) (<[tid := p_addPurged (k, p) ph]> phs ++ []).
Proof.
  intros Hs. pose proof own as K. set (w' := w_setStored _ _).
  assert (G : grows boot lim lim w w').
  { apply grows_by; [lia|done| |by intros y Hy; right|by right]. intros x Hx. destruct (Hs x Hx) as [H|H]; [by left|].
    right. exists k, p. split; [by left|done]. }
  assert (K' : knows boot lim w' ph).
  { eapply knows_frame; [exact K|exact G|..]; intros H; [pose proof (k_mu _ _ _ _ K H)|pose proof (k_del _ _ _ _ K H)]; done. }
  destruct Hd as [H1 H2 H3 H4]. eapply (inv_insert boot lim lim); [done..| | |exact G|by right|by right|by left|by left].
  - split; [done..|]. intros x Hx. by apply (g_safe _ _ _ _ _ G), H4.
  - destruct K', K. split; try done. intros kp [<-|Hy]; [by left|right; by apply k_purged1].
Qed.

Lemma inv_accept l : (forall x, In x l -> In x (p_stored ph) \/ In x (p_safe ph)) ->
  spool_inv (w_setAccepted (w_accepted w ++ l) w) (<[tid := ph]> phs ++ []).
Proof.
  intros Hl. pose proof own as K. set (w' := w_setAccepted _ w).
  assert (G : grows boot lim lim w w') by by apply grows_refl.
  destruct Hd as [H1 H2 H3 H4]. eapply (inv_insert boot lim lim); [done..| | |exact G|by right|by right|by left|by left].
  - split; [done..|]. intros x [Hx|Hx]%in_app_or; [by apply H4|]. destruct K. destruct (Hl x Hx) as [H|H]; [left; by apply k_stored0|by apply k_safe0].
  - eapply knows_frame; [exact K|exact G|..]; intros H; [pose proof (k_mu _ _ _ _ K H)|pose proof (k_del _ _ _ _ K H)]; done.
Qed.

End Steps.

(** ** Every call keeps it *)

Lemma fsOp_inv {A} i w (v : A) after r w' new : fsOp i w v after = Some (r, w', new) ->
  new = [] /\ ((r = Ok v /\ w' = after) \/ (exists e, r = Err e /\ w' = w)).
Proof. destruct i; intros [= <- <- <-]; (split; [done|]); [by left|right; by eexists]. Qed.

Lemma backendOp_inv i w after r w' new : backendOp i w after = Some (r, w', new) ->
  new = [] /\ ((r = Ok tt /\ w' = after) \/ (exists e, r = Err e /\ (w' = w \/ w' = after))).
Proof. destruct i; intros [= <- <- <-]; (split; [done|]); [by left|right; eexists; split; [done|]; tauto..]. Qed.

Lemma in_kept (f : item -> bool) l x : In x l -> In x (List.filter (fun y => negb (f y)) l) \/ f x = true.
Proof. intros Hx. destruct (f x) eqn:E; [by right|left]. apply filter_In. by rewrite E. Qed.

Lemma spool_keep w phs tid ph c i r w' new :
  spool_inv w phs -> phs !! tid = Some ph -> allowed spoolDiscipline ph c -> handle c tid i w = Some (r, w', new) ->
  rely spoolDiscipline ph c r /\ exists phs', Forall2 (obeys spoolDiscipline released) phs' new /\
    spool_inv w' (<[tid := next spoolDiscipline ph c r]> phs ++ phs').
Proof.
  intros (boot & lim & Hd & Hk & Em & Ed) Ht Ha Hh. pose proof (own boot lim w phs tid ph Hd Hk Em Ed Ht) as K.
  cut (rely spoolDiscipline ph c r /\ new = [] /\ spool_inv w' (<[tid := next spoolDiscipline ph c r]> phs ++ [])).
  { intros (Hr & -> & Hi). split; [done|]. exists []. by split. }
  assert (Hq : spool_inv w (<[tid := ph]> phs ++ [])) by by eapply inv_quiet.
  destruct c; cbn in *; unfold external in *.
  all: try (apply fsOp_inv in Hh as [-> [[-> ->]|(e & -> & ->)]]; (split; [done|]; split; [done|]); try exact Hq).
  all: try (destruct i; simplify_eq; by do 2 (split; [done|])).
  - destruct (w_mu w) eqn:E; [done|]. simplify_eq. do 2 (split; [done|]). by eapply inv_lockMu.
  - simplify_eq. do 2 (split; [done|]). by eapply inv_unlockMu.
  - simplify_eq. do 2 (split; [done|]). destruct (p_mu ph) eqn:E; [|done]. eapply inv_quiet; try done. pose proof K as []. split; simpl; try done.
    by intros ? [= <-].
  - simplify_eq. do 2 (split; [done|]). eapply (inv_setSpool boot lim); done.
  - destruct (w_delivery w) eqn:E; [done|]. simplify_eq. do 2 (split; [done|]). by eapply inv_lockDel.
  - simplify_eq. do 2 (split; [done|]). by eapply inv_unlockDel.
  - eapply inv_quiet; done.
  - by eapply (inv_sync boot lim).
  - by eapply inv_rename.
  - destruct (files w !! name) as [r0|] eqn:E.
    + apply fsOp_inv in Hh as [-> [[-> ->]|(e & -> & ->)]]; [|by do 2 (split; [done|])].
      split; [destruct Hd as [_ _ H3 _]; by apply (H3 name r0); left|]. split; [done|]. destruct Ha. by eapply inv_readFile.
    + simplify_eq. by do 2 (split; [done|]).
  - destruct (files w !! name) as [r0|] eqn:E; apply fsOp_inv in Hh as [-> [[-> ->]|(e & -> & ->)]]; (split; [done|]; split; [done|]).
    + by eapply inv_remove.
    + eapply inv_forget; try done. by intros y.
    + eapply inv_forget; try done. by intros y.
    + eapply inv_forget; try done. by intros y.
  - by eapply inv_writeAtomic.
  - eapply inv_forget; try done. intros [n' r'] Hin. by eapply in_unread.
  - apply backendOp_inv in Hh as [-> [[-> ->]|(e & -> & [-> | ->])]]; (split; [done|]; split; [done|]); [eapply inv_append; try done; by right|done|eapply inv_append; try done; by left].
  - apply backendOp_inv in Hh as [-> [[-> ->]|(e & -> & [-> | ->])]]; (split; [done|]; split; [done|]); [eapply inv_append; try done; by right|done|eapply inv_append; try done; by left].
  - assert (Hp : forall stored, (forall x, In x (w_stored w) -> In x stored \/ item_of k projectID x = true) ->
      spool_inv (w_setStored stored (w_setPurged ((k, projectID) :: w_purged w) w)) (<[tid := p_addPurged (k, projectID) ph]> phs ++ []))
      by (intros stored Hs; by eapply inv_purge).
    assert (Hall := Hp (w_stored w) ltac:(by left)). assert (Hsome := Hp _ (fun x Hx => in_kept (item_of k projectID) _ x Hx)).
    apply backendOp_inv in Hh as [-> [[-> ->]|(e & -> & [-> | ->])]]; done.
  - simplify_eq. do 2 (split; [done|]). eapply inv_quiet; done.
  - simplify_eq. do 2 (split; [done|]). destruct (_ =? _); [eapply inv_quiet; done|done].
  - simplify_eq. do 2 (split; [done|]). eapply inv_quiet; try done. pose proof K as []. destruct Hd. split; simpl; try done. intros t [= <-]. lia.
  - simplify_eq. do 2 (split; [done|]). destruct r0 as [[]|e]; [|done]. by eapply (inv_accept boot lim).
Qed.

(** *** A mutex that is taken is held *)

Definition held (w : World) (phs : list sphase) : Prop :=
  (w_mu w = true -> exists j p, phs !! j = Some p /\ p_mu p = true) /\
  (w_delivery w = true -> exists j p, phs !! j = Some p /\ p_del p = true).

(** A step that takes neither mutex, by a thread that keeps those it holds. *)
Lemma held_same (f : sphase -> bool) phs phs' tid ph ph' :
  phs !! tid = Some ph -> f ph' = f ph -> (exists j p, phs !! j = Some p /\ f p = true) ->
  exists j p, (<[tid := ph']> phs ++ phs') !! j = Some p /\ f p = true.
Proof.
  intros Ht Hf (j & p & Hj & Hp). assert (Hlt := lookup_lt_Some _ _ _ Hj). destruct (decide (tid = j)) as [<-|Hne].
  - exists tid, ph'. split; [|congruence]. rewrite lookup_app_l by (by rewrite length_insert). by apply list_lookup_insert_eq.
  - exists j, p. split; [|done]. rewrite lookup_app_l by (by rewrite length_insert). by rewrite list_lookup_insert_ne.
Qed.

Lemma held_mine (f : sphase -> bool) phs phs' tid ph ph' :
  phs !! tid = Some ph -> f ph' = true -> exists j p, (<[tid := ph']> phs ++ phs') !! j = Some p /\ f p = true.
Proof.
  intros Ht Hf. exists tid, ph'. assert (Hlt := lookup_lt_Some _ _ _ Ht). split; [|done].
  rewrite lookup_app_l by (by rewrite length_insert). by apply list_lookup_insert_eq.
Qed.

Lemma held_keep w phs phs' tid ph c i r w' new :
  held w phs -> phs !! tid = Some ph -> handle c tid i w = Some (r, w', new) ->
  held w' (<[tid := next spoolDiscipline ph c r]> phs ++ phs').
Proof.
  intros [Hm Hd] Ht Hh.
  assert (Hcase : (c = CLockMu /\ w' = w_setMu true w) \/ (c = CUnlockMu /\ w' = w_setMu false w) \/
    (c = CLockDelivery /\ w' = w_setDelivery true w) \/ (c = CUnlockDelivery /\ w' = w_setDelivery false w) \/
    w_mu w' = w_mu w /\ w_delivery w' = w_delivery w /\
    p_mu (next spoolDiscipline ph c r) = p_mu ph /\ p_del (next spoolDiscipline ph c r) = p_del ph).
  { destruct c; cbn in *; unfold fsOp, backendOp in *; repeat case_match; unfold external in *; simplify_eq; cbn; repeat case_match;
      first [left; by split|right; left; by split|do 2 right; left; by split|do 3 right; left; by split|do 4 right; by split_and!]. }
  destruct Hcase as [[-> ->]|[[-> ->]|[[-> ->]|[[-> ->]|(E1 & E2 & E3 & E4)]]]]; split; cbn.
  - intros _. by eapply held_mine.
  - intros H. by eapply held_same; [..|apply Hd].
  - done.
  - intros H. by eapply held_same; [..|apply Hd].
  - intros H. by eapply held_same; [..|apply Hm].
  - intros _. by eapply held_mine.
  - intros H. by eapply held_same; [..|apply Hm].
  - done.
  - rewrite E1. intros H. by eapply held_same; [..|apply Hm].
  - rewrite E2. intros H. by eapply held_same; [..|apply Hd].
Qed.

(** ** Delivery at least once *)

Lemma afterCrash_lookup keep keepSeq d n :
  dk_files (afterCrash keep keepSeq d) !! n = (if keep n then dk_files d !! n else dk_durable d !! n) /\
  dk_durable (afterCrash keep keepSeq d) !! n = (if keep n then dk_files d !! n else dk_durable d !! n).
Proof.
  cut ((filter (fun nr : fileName * spoolRecord => keep nr.1 = true) (dk_files d) ∪
        filter (fun nr : fileName * spoolRecord => keep nr.1 = false) (dk_durable d)) !! n =
       (if keep n then dk_files d !! n else dk_durable d !! n)); [by split|].
  apply option_eq. intros r. rewrite lookup_union_Some_raw, !map_lookup_filter_Some, map_lookup_filter_None. simpl.
  destruct (keep n) eqn:E; naive_solver.
Qed.

Section Reachable.

Context (jsonLen : spoolRecord -> option Z) (spoolLogs spoolMetrics : bool).
Context `{!Stat LogLine LogQuery} `{!Stat MetricPoint MetricQuery}.
Context (iterLogs : gmap (bool * string * Z) LogLine -> list LogLine) (iterMetrics : gmap (bool * string * Z) MetricPoint -> list MetricPoint).

Abbreviation step := (step jsonLen spoolLogs spoolMetrics iterLogs iterMetrics).
Abbreviation exec := (exec jsonLen spoolLogs spoolMetrics iterLogs iterMetrics).
Abbreviation spool_good := (good World spoolDiscipline released (fun w phs => spool_inv w phs /\ held w phs)).

(** A power loss leaves every spooled entry in a file. *)
Lemma inv_crash w phs keep keepSeq maxBytes : spool_inv w phs ->
  let d := afterCrash keep keepSeq (w_disk w) in
  spool_inv (mkWorld d (openDiskSpool jsonLen d maxBytes) false false (w_stored w) (w_now w + 1) None 0 (w_accepted w) (w_purged w)) [].
Proof.
  intros (boot & lim & [H1 H2 H3 H4] & _). exists (w_now w + 1), 0. split; [|split; [done|split; by intros i j p q Hi]].
  assert (Hl := fun n => afterCrash_lookup keep keepSeq (w_disk w) n). split; cbn [w_disk w_spool w_now w_accepted].
  - lia.
  - done.
  - intros n r Hr. destruct (Hl n) as [E1 E2]. rewrite E1, E2 in Hr. destruct (H3 n r) as [[Hn _] Hw]; [destruct (keep n); tauto|].
    split; [|done]. unfold oldName. simpl. lia.
  - intros x Hx. destruct (H4 x Hx) as [Hk|(n & r & r' & F1 & F2 & X1 & X2)]; [by left|]. right. exists n. destruct (Hl n) as [E1 E2].
    cbn [w_disk]. rewrite E1, E2. destruct (keep n); [exists r, r|exists r', r']; done.
Qed.

Lemma spool_step o s s' : spool_good s -> step o s = Some s' -> spool_good s'.
Proof.
  intros Hg Hs. destruct o as [tid i|r|d|keep keepSeq maxBytes]; simpl in Hs; simplify_eq.
  - eapply good_step; [|exact Hg|exact Hs]. intros w phs tid' ph c i' r w' new [Hi Hh] Ht Ha Hc.
    destruct (spool_keep _ _ _ _ _ _ _ _ _ Hi Ht Ha Hc) as (Hr & phs' & Hn & Hi'). split; [done|]. exists phs'. split; [done|].
    split; [done|]. by eapply held_keep.
  - destruct Hg as (phs & Hf & (boot & lim & Hd & Hk & Em & Ed) & Hm & Hdl). exists (phs ++ [start]). split; [|split].
    + apply Forall2_app; [done|]. repeat constructor. apply program_wp.
    + exists boot, lim. split; [done|]. split; [|by split; apply exclusive_start].
      apply Forall_app. split; [done|]. apply Forall_singleton. split; simpl; first [done|by intros y].
    + split; intros H; [destruct (Hm H) as (j & p & Hj & Hp)|destruct (Hdl H) as (j & p & Hj & Hp)]; exists j, p;
        (split; [by apply lookup_app_l_Some|done]).
  - destruct Hg as (phs & Hf & (boot & lim & [H1 H2 H3 H4] & Hk & Em & Ed) & Hh). exists phs. split; [done|]. split; [|done]. exists boot, lim.
    assert (G : grows boot lim lim s.1 (w_setNow (w_now s.1 + Z.max 0 d) s.1)).
    { apply grows_by; [lia|simpl; lia|by left|by intros y|by right]. }
    split; [|split; [|done]].
    + split; simpl; [lia|done| |done]. intros n r Hr. destruct (H3 _ _ Hr). split; [by eapply oldName_grows|done].
    + eapply Forall_impl; [exact Hk|]. intros ph K. (eapply knows_frame; [exact K|exact G|..]); intros Hp;
        [pose proof (k_mu _ _ _ _ K Hp)|pose proof (k_del _ _ _ _ K Hp)]; done.
  - destruct Hg as (phs & Hf & Hi & _). exists []. split; [constructor|]. split; [by eapply inv_crash|done].
Qed.

Lemma spool_exec ops s s' : spool_good s -> exec ops s = Some s' -> spool_good s'.
Proof.
  revert s; induction ops as [|o ops IH]; intros s Hg He; simpl in He; [by simplify_eq|].
  apply bind_Some in He as (s1 & H1 & H2). eapply IH; [|exact H2]. by eapply spool_step.
Qed.

Lemma fresh_good maxBytes now : spool_good (freshWorld maxBytes now, []).
Proof.
  exists []. split; [constructor|]. split; [|done]. exists now, 0. split; [|split; [done|split; by intros i j p q Hi]].
  split; simpl; [done|done| |done]. intros n r Hr. rewrite lookup_empty in Hr. by destruct Hr.
Qed.

(** When every thread has ended, no mutex is held. *)
Lemma ended_unlocked w threads : spool_good (w, threads) -> Forall (fun m => m = Ret tt) threads ->
  w_mu w = false /\ w_delivery w = false.
Proof.
  intros (phs & Hf & _ & Hm & Hd) He. simpl in *.
  assert (Hrel : forall j p, phs !! j = Some p -> released p).
  { intros j p Hj. destruct (Forall2_lookup_l _ _ _ _ _ Hf Hj) as (m & Hj' & Ho). rewrite Forall_lookup in He.
    by rewrite (He _ _ Hj') in Ho. }
  split; apply not_true_is_false; intros E.
  - destruct (Hm E) as (j & p & Hj & Hp). destruct (Hrel _ _ Hj). congruence.
  - destruct (Hd E) as (j & p & Hj & Hp). destruct (Hrel _ _ Hj). congruence.
Qed.

(** C14: Delivery is at least once.  Whatever appends, deliveries, purges and
    queries interleave, whichever calls fail, and whatever the power losses take:
    an entry whose append was acknowledged is in the backend, or in a file of
    the spool in both the version that is seen and the one a power loss would
    leave, unless a purge of its project was asked for. *)
Theorem delivered_at_least_once maxBytes now ops w threads
    (Hrun : exec ops (freshWorld maxBytes now, []) = Some (w, threads)) :
  forall x, In x (w_accepted w) ->
    In x (w_stored w) \/
    (exists n r r', dk_files (w_disk w) !! n = Some r /\ dk_durable (w_disk w) !! n = Some r' /\ In x (contents r) /\ In x (contents r')) \/
    (exists k p, In (k, p) (w_purged w) /\ item_of k p x = true).
Proof.
  destruct (spool_exec ops _ _ (fresh_good maxBytes now) Hrun) as (phs & _ & (boot & lim & [_ _ _ H4] & _) & _).
  intros x Hx. destruct (H4 x Hx) as [[?|?]|?]; tauto.
Qed.

End Reachable.
