(* ===== verification/SpoolDrain.v ===== *)
(** * Statistics: a turn of the loop delivers everything

    A program run alone, every call of it succeeding ([solo]), and what one turn
    of the delivery loop then does: it ends, and nothing that was spooled is
    left. *)

From S2P Require Import Prelude Prog Stats StatsPages Spool SpoolWorld SpoolSafety SpoolInv.
From stdpp Require Import options.
#[local] Open Scope Z_scope.

(** ** A program alone *)

Fixpoint solo {A} (m : S A) (w : World) : option (A * World) :=
  match m with
  | Ret a => Some (a, w)
  | Call c k =>
      match handle c 0 Done w with
      | Some (r, w', _) => solo (k r) w'
      | None => None
      end
  end.

Lemma solo_bind {A B} (m : S A) (f : A -> S B) w :
  solo (m ≫= f) w = match solo m w with Some (a, w') => solo (f a) w' | None => None end.
Proof.
  revert w; induction m as [a|c k IH]; intros w; simpl; [done|].
  destruct (handle c 0 Done w) as [[[r w'] new]|]; [apply IH|done].
Qed.

Lemma solo_tryOk {A B} (m : S (res statsErr A)) (f : A -> S (res statsErr B)) w :
  solo (tryOk m f) w =
    match solo m w with Some (Ok a, w') => solo (f a) w' | Some (Err e, w') => Some (Err e, w') | None => None end.
Proof. unfold tryOk. rewrite solo_bind. by destruct (solo m w) as [[[a|e] w']|]. Qed.

Lemma solo_withMu {A} (m : S A) w a w' :
  w_mu w = false -> solo m (w_setMu true w) = Some (a, w') -> solo (withMu m) w = Some (a, w_setMu false w').
Proof. intros Hm Hs. unfold withMu. cbn. rewrite Hm. cbn. by rewrite (solo_bind m), Hs. Qed.

Lemma solo_withDelivery {A} (m : S A) w a w' :
  w_delivery w = false -> solo m (w_setDelivery true w) = Some (a, w') -> solo (withDelivery m) w = Some (a, w_setDelivery false w').
Proof. intros Hm Hs. unfold withDelivery. cbn. rewrite Hm. cbn. by rewrite (solo_bind m), Hs. Qed.

Lemma handle_starts_none c tid i w r w' new : handle c tid i w = Some (r, w', new) -> new = [].
Proof.
  destruct c; cbn; unfold fsOp, backendOp, external; intros H.
  all: repeat case_match; simplify_eq; done.
Qed.

Lemma handle_thread c tid tid' i w : handle c tid i w = handle c tid' i w.
Proof. by destruct c. Qed.

(** The program as a thread of the system. *)
Section Threads.

Context (jsonLen : spoolRecord -> option Z) (spoolLogs spoolMetrics : bool).
Context `{!Stat LogLine LogQuery} `{!Stat MetricPoint MetricQuery}.
Context (iterLogs : gmap (bool * string * Z) LogLine -> list LogLine) (iterMetrics : gmap (bool * string * Z) MetricPoint -> list MetricPoint).
Abbreviation exec := (exec jsonLen spoolLogs spoolMetrics iterLogs iterMetrics).

Lemma solo_exec (m : S unit) w w' threads tid :
  threads !! tid = Some m -> solo m w = Some (tt, w') ->
  exists n, exec (replicate n (OThread tid Done)) (w, threads) = Some (w', <[tid := Ret tt]> threads).
Proof.
  revert w threads; induction m as [[]|c k IH]; intros w threads Ht Hs; simpl in Hs.
  - simplify_eq. exists 0%nat. simpl. by rewrite list_insert_id.
  - destruct (handle c 0 Done w) as [[[r w1] new]|] eqn:Eh; [|done]. pose proof (handle_starts_none _ _ _ _ _ _ _ Eh) as ->.
    destruct (IH r w1 (<[tid := k r]> threads)) as (n & Hn); [by rewrite list_lookup_insert_eq by (by eapply lookup_lt_Some)|done|].
    exists (Datatypes.S n). simpl. unfold thread_step at 1. simpl. rewrite Ht, (handle_thread c tid 0), Eh. simpl.
    rewrite app_nil_r, Hn. by rewrite list_insert_insert_eq.
Qed.

End Threads.

(** ** The loop *)

Section Drain.

Context (jsonLen : spoolRecord -> option Z).

Lemma mu_back w : w_mu w = false -> w_setMu false (w_setMu true w) = w.
Proof. destruct w; simpl. by intros ->. Qed.

Lemma readAll_solo names w : Forall (fun n => is_Some (files w !! n)) names ->
  exists l, solo (readAll jsonLen names) w = Some (Ok l, w) /\ Forall2 (fun n nr => nr_name nr = n /\ files w !! n = Some (nr_record nr)) names l.
Proof.
  induction 1 as [|n names [r Hr] _ (l & Hl & Hf)]; [by exists []|].
  exists (mkNamed n (fileSize jsonLen r) r :: l). cbn [readAll]. rewrite solo_tryOk. simpl. rewrite Hr. simpl.
  rewrite solo_tryOk, Hl. split; [done|]. by constructor.
Qed.
#[local] Opaque readAll.

(** [records] finds every file of its kind. *)
Lemma records_solo k w : w_mu w = false ->
  exists l, solo (records jsonLen k) w = Some (Ok l, w) /\
    (forall nr, In nr l -> fn_kind (nr_name nr) = k) /\
    (forall n r, files w !! n = Some r -> fn_kind n = k -> exists nr, In nr l /\ nr_name nr = n /\ nr_record nr = r).
Proof.
  intros Hm. set (names := List.filter (fun n => bool_decide (fn_kind n = k)) (map_to_list (files w)).*1).
  assert (Hnames : forall n, In n names <-> is_Some (files w !! n) /\ fn_kind n = k).
  { intros n. unfold names. rewrite filter_In, bool_decide_eq_true, <- list_elem_of_In, list_elem_of_fmap.
    split; intros [H Hkd]; (split; [|done]).
    - destruct H as ([n' r] & -> & Hr). apply elem_of_map_to_list in Hr. by exists r.
    - destruct H as [r Hr]. exists (n, r). by rewrite elem_of_map_to_list. }
  destruct (readAll_solo names (w_setMu true w)) as (l & Hl & Hf).
  { apply Forall_forall. intros n Hn%list_elem_of_In. by apply Hnames. }
  exists (merge_sort named_le l). split; [|split].
  - rewrite <- (mu_back w Hm) at 2. apply solo_withMu; [done|]. rewrite solo_tryOk. cbn. fold names. by rewrite solo_tryOk, Hl.
  - intros nr Hin%list_elem_of_In. rewrite (merge_sort_Permutation named_le l) in Hin.
    apply list_elem_of_lookup in Hin as [i Hi]. destruct (Forall2_lookup_r _ _ _ _ _ Hf Hi) as (n & Hn & <- & _).
    apply Hnames. apply list_elem_of_In, list_elem_of_lookup. by exists i.
  - intros n r Hr Hkd. assert (Hin : In n names) by by apply Hnames.
    apply list_elem_of_In, list_elem_of_lookup in Hin as [i Hi]. destruct (Forall2_lookup_l _ _ _ _ _ Hf Hi) as (nr & Hnr & Hn & Hfr).
    exists nr. split; [|split; [done|]].
    + apply list_elem_of_In. rewrite (merge_sort_Permutation named_le l). apply list_elem_of_lookup. by exists i.
    + simpl in Hfr. congruence.
Qed.
#[local] Opaque records.

Definition batch (k : kind) (r : spoolRecord) : list item :=
  match k with Logs => ILog <$> sr_Logs r | Metrics => IMetric <$> sr_Metrics r end.

(** What the delivery of some files does. *)
Record delivered (names : list fileName) (items : list item) (w w' : World) : Prop := {
  v_files n : files w' !! n = if decide (n ∈ names) then None else files w !! n;
  v_stored : w_stored w' = w_stored w ++ items;
  v_mu : w_mu w' = false;
  v_delivery : w_delivery w' = w_delivery w;
  v_err : w_lastErr w' = w_lastErr w /\ w_errGen w' = w_errGen w }.

Lemma ack_solo nr w : w_mu w = false ->
  exists w', solo (ack nr) w = Some (Ok tt, w') /\ delivered [nr_name nr] [] w w'.
Proof.
  intros Hm. unfold ack, withMu. cbn. rewrite Hm. cbn. destruct (files w !! nr_name nr) as [r|] eqn:E; simpl; eexists; (split; [done|]).
  all: split; simpl; try done; [intros n|by rewrite app_nil_r].
  all: case_decide as Hn; rewrite list_elem_of_singleton in Hn; subst.
  - apply lookup_delete_eq.
  - by rewrite lookup_delete_ne by done.
  - done.
  - done.
Qed.
#[local] Opaque ack.

Lemma delivered_trans ns ns' xs xs' w1 w2 w3 :
  delivered ns xs w1 w2 -> delivered ns' xs' w2 w3 -> delivered (ns ++ ns') (xs ++ xs') w1 w3.
Proof.
  intros [F1 S1 M1 D1 [E1 G1]] [F2 S2 M2 D2 [E2 G2]]. split; [|by rewrite S2, S1, app_assoc|done|congruence|split; congruence].
  intros n. rewrite F2, F1. repeat case_decide; rewrite elem_of_app in *; tauto.
Qed.

Lemma deliver_solo k l w : w_mu w = false ->
  exists w', solo (deliver k l) w = Some (Ok tt, w') /\
    delivered (nr_name <$> l) (l ≫= fun nr => batch k (nr_record nr)) w w'.
Proof.
  revert w; induction l as [|nr l IH]; intros w Hm.
  { exists w. split; [done|]. split; try done. simpl. by rewrite app_nil_r. }
  cbn [deliver]. set (w1 := w_setStored (w_stored w ++ batch k (nr_record nr)) w).
  assert (Hs : solo (appendRecord k (nr_record nr)) w = Some (Ok tt, w1)) by by destruct k.
  destruct (ack_solo nr w1 Hm) as (w2 & H2 & D2). destruct (IH w2 (v_mu _ _ _ _ D2)) as (w3 & H3 & D3).
  exists w3. rewrite solo_bind, Hs, solo_tryOk, H2. split; [done|].
  assert (D1 : delivered [] (batch k (nr_record nr)) w w1) by by split.
  by apply (delivered_trans _ _ _ _ _ _ _ D1), (delivered_trans _ _ _ _ _ _ _ D2).
Qed.
#[local] Opaque deliver.

Lemma flushKind_solo k w : w_mu w = false -> w_delivery w = false ->
  exists w', solo (flushKind jsonLen k) w = Some (Ok tt, w') /\ w_mu w' = false /\ w_delivery w' = false /\
    w_lastErr w' = w_lastErr w /\ w_errGen w' = w_errGen w /\
    (forall n, files w' !! n = if bool_decide (fn_kind n = k) then None else files w !! n) /\
    (forall x, In x (w_stored w) -> In x (w_stored w')) /\
    (forall n r x, files w !! n = Some r -> fn_kind n = k -> In x (batch k r) -> In x (w_stored w')).
Proof.
  intros Hm Hdl. set (w1 := w_setDelivery true w).
  destruct (records_solo k w1 Hm) as (l & Hl & Hkd & Hall). destruct (deliver_solo k l w1 Hm) as (w2 & H2 & [F2 S2 M2 D2 [E2 G2]]).
  exists (w_setDelivery false w2). split; [apply solo_withDelivery; [done|]; fold w1; by rewrite solo_tryOk, Hl|]. repeat (split; [done|]). split; [|split].
  - intros n. rewrite F2. case_decide as Hc; case_bool_decide as Hc0; try done.
    + exfalso. apply Hc0. apply list_elem_of_fmap in Hc as (nr & -> & Hin). by apply Hkd, list_elem_of_In.
    + destruct (files w !! n) as [r|] eqn:E; [|done]. exfalso. apply Hc. destruct (Hall n r E Hc0) as (nr & Hin & <- & _).
      apply list_elem_of_fmap. exists nr. by rewrite list_elem_of_In.
  - intros x Hx. simpl. rewrite S2. apply in_or_app. by left.
  - intros n r x Hr Hn Hx. simpl. rewrite S2. apply in_or_app. right. destruct (Hall n r Hr Hn) as (nr & Hin & _ & <-).
    apply list_elem_of_In, list_elem_of_bind. exists nr. by rewrite !list_elem_of_In.
Qed.
#[local] Opaque flushKind.

Lemma maybeFlush_solo k b w : w_mu w = false -> w_delivery w = false ->
  exists w', solo (if b : bool then flushKind jsonLen k else Ret (Ok tt)) w = Some (Ok tt, w') /\
    w_mu w' = false /\ w_delivery w' = false /\ w_errGen w' = w_errGen w /\
    (forall n, files w' !! n = if (bool_decide (fn_kind n = k) && b)%bool then None else files w !! n) /\
    (forall x, In x (w_stored w) -> In x (w_stored w')) /\
    (forall n r x, files w !! n = Some r -> fn_kind n = k -> b = true -> In x (batch k r) -> In x (w_stored w')).
Proof.
  intros Hm Hd. destruct b; [|exists w; repeat (split; [done|]); split; [intros n; by rewrite andb_false_r|done]].
  destruct (flushKind_solo k w Hm Hd) as (w1 & H & ? & ? & ? & ? & Hf & Hs & Hn). exists w1. repeat (split; [done|]).
  split; [intros n; by rewrite andb_true_r|]. split; [done|]. naive_solver.
Qed.

Lemma loopOnce_solo spoolLogs spoolMetrics w : w_mu w = false -> w_delivery w = false ->
  let delivers k := match k with Logs => spoolLogs | Metrics => spoolMetrics end in
  exists w', solo (loopOnce jsonLen spoolLogs spoolMetrics) w = Some (tt, w') /\ w_lastErr w' = None /\
    (forall n, files w' !! n = if delivers (fn_kind n) then None else files w !! n) /\
    (forall x, In x (w_stored w) -> In x (w_stored w')) /\
    (forall n r x, files w !! n = Some r -> delivers (fn_kind n) = true -> In x (batch (fn_kind n) r) -> In x (w_stored w')).
Proof.
  intros Hm Hd delivers. unfold loopOnce. cbn.
  destruct (maybeFlush_solo Logs spoolLogs w Hm Hd) as (w1 & Hs1 & Hm1 & Hd1 & Hg1 & Hf1 & Hi1 & Hn1).
  rewrite (solo_bind (if spoolLogs then _ else _)), Hs1. cbn.
  destruct (maybeFlush_solo Metrics spoolMetrics w1 Hm1 Hd1) as (w2 & Hs2 & Hm2 & Hd2 & Hg2 & Hf2 & Hi2 & Hn2).
  rewrite (solo_bind (if spoolMetrics then _ else _)), Hs2. cbn.
  eexists. split; [done|]. rewrite Hg2, Hg1, Z.eqb_refl. split; [done|]. split; [|split].
  - intros n. simpl. rewrite Hf2, Hf1. by destruct (fn_kind n), spoolLogs, spoolMetrics.
  - intros x Hx. simpl. by apply Hi2, Hi1.
  - intros n r x Hr Hdl Hx. simpl. destruct (fn_kind n) eqn:Ek; simpl in Hdl.
    + apply Hi2. by eapply Hn1.
    + eapply Hn2; [|done|done|done]. by rewrite Hf1, Ek.
Qed.

End Drain.

Section Delivery.

Context (jsonLen : spoolRecord -> option Z) (spoolLogs spoolMetrics : bool).
Context `{!Stat LogLine LogQuery} `{!Stat MetricPoint MetricQuery}.
Context (iterLogs : gmap (bool * string * Z) LogLine -> list LogLine) (iterMetrics : gmap (bool * string * Z) MetricPoint -> list MetricPoint).

Lemma batch_contents n r x : well_kinded n r -> In x (contents r) -> In x (batch (fn_kind n) r).
Proof. intros Hw. by rewrite (well_kinded_contents _ _ Hw). Qed.

(** C18: What was accepted is delivered by one turn without faults.  Both kinds
    spooled, from every reachable state (power losses and failures included) in which
    the requests started so far have ended, so that they have given the mutexes back,
    a turn of the delivery loop whose calls succeed ends, leaves no file in the spool
    and no error, and then every entry ever acknowledged is in the backend, unless a
    purge of its project was asked for. *)
Theorem accepted_entries_delivered maxBytes now ops w threads
    (Hrun : exec jsonLen true true iterLogs iterMetrics ops (freshWorld maxBytes now, []) = Some (w, threads))
    (Hended : Forall (fun m => m = Ret tt) threads) :
  exists n w' threads',
    exec jsonLen true true iterLogs iterMetrics (ORequest RDeliver :: replicate n (OThread (List.length threads) Done)) (w, threads) = Some (w', threads') /\
    threads' = threads ++ [Ret tt] /\ w_lastErr w' = None /\ dk_files (w_disk w') = ∅ /\
    forall x, In x (w_accepted w) -> In x (w_stored w') \/ exists k p, In (k, p) (w_purged w) /\ item_of k p x = true.
Proof.
  pose proof (spool_exec _ _ _ _ _ ops _ _ (fresh_good maxBytes now) Hrun) as Hg.
  destruct (ended_unlocked _ _ Hg Hended) as [Hmu Hdelivery]. destruct Hg as (phs & _ & (boot & lim & [_ _ H3 H4] & _) & _).
  destruct (loopOnce_solo jsonLen true true w Hmu Hdelivery) as (w' & Hs & He & Hf & Hi & Hn).
  destruct (solo_exec jsonLen true true iterLogs iterMetrics (loopOnce jsonLen true true) w w' (threads ++ [loopOnce jsonLen true true]) (List.length threads)) as (n & Hx);
    [by apply list_lookup_middle|done|].
  exists n, w', (threads ++ [Ret tt]). split; [|split; [done|split; [done|split]]].
  - simpl. rewrite Hx. by rewrite insert_app_r_alt, Nat.sub_diag by lia.
  - apply map_eq. intros nm. rewrite lookup_empty, Hf. by destruct (fn_kind nm).
  - intros x Hacc. destruct (H4 x Hacc) as [[Hx'|Hx']|(nm & r & r' & F1 & _ & X1 & _)]; [left; by apply Hi|by right|left].
    apply (Hn nm r); [done|by destruct (fn_kind nm)|]. apply batch_contents; [|done]. apply (H3 nm r). by left.
Qed.

End Delivery.
