(* ===== verification/SpoolDemo.v ===== *)
(** * Statistics: runs of the spool

    Concrete entries, queries and directories: a full page, an append that a
    power loss follows, and an append whose last call fails. *)

From S2P Require Import Prelude Prog Stats StatsPages StatsBackends Spool SpoolWorld SpoolSafety SpoolInv SpoolDrain.
From stdpp Require Import options.
#[local] Open Scope Z_scope.

Definition demoSum (s : string) : list Z := replicate 32 7.
Definition demoFormat (t : option Z) : string := "t".

Lemma demoSum_digest : digest demoSum.
Proof. intros s. split; [done|]. apply Forall_forall. intros b Hb. apply elem_of_replicate in Hb as [-> _]. lia. Qed.

#[local] Instance demoLogStat : Stat LogLine LogQuery := logStat demoSum demoFormat.
#[local] Instance demoMetricStat : Stat MetricPoint MetricQuery := metricStat demoSum demoFormat.
#[local] Instance demoLogLaws : StatLaws LogLine LogQuery := logStat_laws demoSum demoFormat demoSum_digest.

(** The number [n], as a line with its own event. *)
Definition demoLine (n : nat) : LogLine := mkLogLine (Z.of_nat n) "" "p" "r" "s" 0 "stdout" "hello".
Definition demoQuery (limit : Z) : LogQuery := mkLogQuery "p" "r" "s" "" None None "" limit.

Definition mapOrder {T} (m : gmap (bool * string * Z) T) : list T := (map_to_list m).*2.

Lemma cursor_roundtrip_witness :
  idFromQueryCursor (cursorForQuery 42 (logFingerprint demoSum demoFormat (demoQuery 1))) (replicate 16 7) = Ok 42 /\
  idFromQueryCursor (cursorForQuery 42 (logFingerprint demoSum demoFormat (demoQuery 1))) (replicate 16 8) = Err ErrInvalidCursor.
Proof.
  split.
  - refine (proj1 (cursor_roundtrip 42 _ (replicate 16 7) (replicate 16 7) _ _ eq_refl eq_refl)); [lia|repeat constructor; lia..].
  - refine (proj1 (cursor_roundtrip 42 _ (replicate 16 7) (replicate 16 8) _ _ eq_refl eq_refl)); [lia|repeat constructor; lia..].
Defined.

(** Lines with numbers of their own and no event. *)
Lemma demo_consistent l : consistent (demoLine <$> l).
Proof.
  split; intros x y (m & -> & _)%list_elem_of_fmap (n & -> & _)%list_elem_of_fmap; [intros [= H]|simpl; intros H];
    apply Nat2Z.inj in H; by subst.
Qed.

Lemma demo_NoDup l : NoDup l -> NoDup (demoLine <$> l).
Proof. apply NoDup_fmap_2. intros m n [= H]. by apply Nat2Z.inj. Qed.

Lemma demo_numbered l : Forall (fun n => 0 < Z.of_nat n < 2 ^ 63) l -> numbered (demoLine <$> l).
Proof. intros Hl x (n & -> & Hn)%list_elem_of_fmap. rewrite Forall_forall in Hl. by apply Hl. Qed.

Lemma mapOrder_ok {T} (m : gmap (bool * string * Z) T) : mapOrder m ≡ₚ (map_to_list m).*2.
Proof. done. Qed.

(** A backend that searches without regard to case, as ClickHouse does. *)
Fixpoint lowered (s : string) : string :=
  match s with
  | EmptyString => ""
  | String c s => String (let n := nat_of_ascii c in if (Nat.leb 65 n && Nat.leb n 90)%bool then ascii_of_nat (n + 32) else c) (lowered s)
  end.
Definition searching (search : string) (q : LogQuery) : LogQuery :=
  mkLogQuery (lq_ProjectID q) (lq_RunID q) (lq_StepName q) (lq_Cursor q) (lq_Since q) (lq_Until q) search (lq_Limit q).
Definition anyCase (x : LogLine) (q : LogQuery) : bool :=
  (q_selects (searching "" q) x && (String.eqb (lq_Search q) "" || str_contains (lowered (ll_Line x)) (lowered (lq_Search q))))%bool.

(** Two stored lines and a spooled one, two to a page. *)
Lemma paging_complete_witness :
  followCursors anyCase mapOrder (demoLine <$> [1; 2]%nat) (demoLine <$> [3]%nat) 4 (demoQuery 2) = demoLine <$> [1; 2; 3]%nat /\
  followCursors anyCase mapOrder (demoLine <$> [1; 2]%nat) (demoLine <$> [3]%nat) 4 (demoQuery 2) =
    everything anyCase (demoLine <$> [1; 2]%nat) (demoLine <$> [3]%nat) (demoQuery 2).
Proof.
  split; [vm_compute; reflexivity|].
  refine (paging_complete anyCase mapOrder mapOrder_ok _ _ (demoLine <$> [1; 2]%nat) (demoLine <$> [3]%nat) (demoQuery 2) 4 _ _ _ _ _).
  - reflexivity.
  - reflexivity.
  - apply demo_NoDup. repeat constructor; set_solver.
  - exact (demo_consistent [1; 2; 3]%nat).
  - apply (demo_numbered [1; 2; 3]%nat). repeat constructor; lia.
  - vm_compute. lia.
  - vm_compute. lia.
Defined.

(** The backend finds the stored lines for "HELLO", the spool does not find the same
    line that it still holds. *)
Example search_disagrees :
  everything anyCase (demoLine <$> [1; 2]%nat) (demoLine <$> [3]%nat) (searching "HELLO" (demoQuery 2)) = demoLine <$> [1; 2]%nat.
Proof. vm_compute. reflexivity. Qed.

Lemma demo_selected l : (forall n, In n l -> (0 < n)%nat) -> List.length (selected anyCase (demoLine <$> l) (demoQuery 6000)) = List.length l.
Proof.
  intros Hl. unfold selected. rewrite (Permutation_length (merge_sort_Permutation by_id _)).
  enough (Hf : List.filter (fun x => found anyCase x (demoQuery 6000)) (demoLine <$> l) = demoLine <$> l) by (rewrite Hf; apply length_fmap).
  induction l as [|n l IH]; [done|]. simpl.
  assert (Hm : found anyCase (demoLine n) (demoQuery 6000) = true).
  { unfold found, demoLine. change (IDFromQuery (demoQuery 6000)) with (Ok 0 : res string Z). cbv iota.
    apply andb_true_intro. split; [apply Z.ltb_lt; simpl; specialize (Hl n (or_introl eq_refl)); lia|reflexivity]. }
  rewrite Hm. f_equal. apply IH. intros m Hin. apply Hl. by right.
Qed.

(** A store of 5001 lines and a client that asks for the largest page. *)
Lemma full_page_stops_witness :
  List.length (query anyCase mapOrder (demoLine <$> seq 1 5001) [] (demoQuery 6000)).1 = limitOf (demoQuery 6000) /\
  (query anyCase mapOrder (demoLine <$> seq 1 5001) [] (demoQuery 6000)).2 = ""%string.
Proof.
  refine (full_page_stops anyCase mapOrder mapOrder_ok _ _ (demoLine <$> seq 1 5001) [] (demoQuery 6000) _ _ _ _ _).
  - reflexivity.
  - reflexivity.
  - apply demo_NoDup, NoDup_seq.
  - rewrite app_nil_r. apply demo_consistent.
  - unfold MaxPageLimit. simpl. lia.
  - rewrite demo_selected by (intros n [H _]%in_seq; lia). rewrite length_seq. apply Nat2Z.inj_lt. unfold limitOf. rewrite Z2Nat.id; vm_compute; done.
  - constructor.
Defined.

(** ** The spool *)

Definition demoLen (r : spoolRecord) : option Z := Some (Z.of_nat (List.length (contents r))).
Abbreviation demo := (exec demoLen true true mapOrder mapOrder).

Definition D (n tid : nat) : list op := replicate n (OThread tid Done).

(** An append of one line, to the answer of its caller. *)
Definition fresh_line : LogLine := mkLogLine 0 "" "p" "r" "s" 0 "stdout" "hello".
Definition appendOps (tid : nat) (event : string) : list op :=
  [ORequest (RAppendLogs [fresh_line])] ++ D 2 tid ++ [OThread tid (AnID event)] ++ D 15 tid.

(** An append, a power loss that takes what was not synced, another append, and
    a delivery that the backend refuses. *)
Definition demoOps : list op :=
  appendOps 0 "e1" ++ [OCrash (fun _ => false) false 0] ++ appendOps 0 "e2" ++
  [ORequest RDeliver] ++ D 7 1 ++ [OThread 1 Failed] ++ D 7 1.

Definition none : World * list (S unit) := (freshWorld 0 0, []).
Definition demoSys := default none (demo demoOps (freshWorld 0 0, [])).

Lemma run_demo {A} (o : option A) (d : A) : (match o with Some _ => true | None => false end) = true -> o = Some (default d o).
Proof. by destruct o. Qed.

(** Both lines were acknowledged, with numbers that do not repeat. *)
Example demo_accepted :
  (fun it => match it with ILog x => (ll_ID x, ll_EventID x) | IMetric _ => (0, ""%string) end) <$> w_accepted demoSys.1 =
    [(1, "e1"%string); (2, "e2"%string)].
Proof. vm_compute. reflexivity. Qed.
Example demo_stored : w_stored demoSys.1 = [] /\ List.length (map_to_list (dk_files (w_disk demoSys.1))) = 2%nat /\ w_mu demoSys.1 = false.
Proof. vm_compute. done. Qed.

Lemma demo_runs : demo demoOps (freshWorld 0 0, []) = Some (demoSys.1, demoSys.2).
Proof. transitivity (Some demoSys); [apply run_demo; vm_compute; reflexivity|]. by destruct demoSys. Qed.

Definition firstLine : item := ILog (mkLogLine 1 "e1" "p" "r" "s" 0 "stdout" "hello").

Lemma delivered_at_least_once_witness :
  In firstLine (w_accepted demoSys.1) /\
  (In firstLine (w_stored demoSys.1) \/
   (exists n r r', dk_files (w_disk demoSys.1) !! n = Some r /\ dk_durable (w_disk demoSys.1) !! n = Some r' /\
      In firstLine (contents r) /\ In firstLine (contents r')) \/
   (exists k p, In (k, p) (w_purged demoSys.1) /\ item_of k p firstLine = true)).
Proof.
  assert (Hin : In firstLine (w_accepted demoSys.1)) by (vm_compute; by left). split; [exact Hin|].
  exact (delivered_at_least_once demoLen true true mapOrder mapOrder 0 0 demoOps demoSys.1 demoSys.2 demo_runs firstLine Hin).
Defined.

Lemma accepted_entries_delivered_witness :
  exists n w' threads',
    demo (ORequest RDeliver :: replicate n (OThread (List.length demoSys.2) Done)) (demoSys.1, demoSys.2) = Some (w', threads') /\
    threads' = demoSys.2 ++ [Ret tt] /\ w_lastErr w' = None /\ dk_files (w_disk w') = ∅ /\
    forall x, In x (w_accepted demoSys.1) -> In x (w_stored w') \/ exists k p, In (k, p) (w_purged demoSys.1) /\ item_of k p x = true.
Proof.
  refine (accepted_entries_delivered demoLen mapOrder mapOrder 0 0 demoOps demoSys.1 demoSys.2 demo_runs _). vm_compute. repeat constructor.
Defined.

(** An append whose directory sync fails is refused, but its record stays and is
    not counted: the spool then holds more than its bound. *)
Definition driftOps : list op :=
  appendOps 0 "e1" ++
  [ORequest (RAppendLogs [fresh_line])] ++ D 2 1 ++ [OThread 1 (AnID "e2")] ++ D 10 1 ++ [OThread 1 Failed] ++ D 3 1 ++
  appendOps 2 "e3".
Definition driftSys := default none (demo driftOps (freshWorld 2 0, [])).
Example refused_record_not_counted :
  List.length (w_accepted driftSys.1) = 2%nat /\ ds_maxBytes (w_spool driftSys.1) = 2 /\ ds_bytes (w_spool driftSys.1) = 2 /\
  ds_bytes (openDiskSpool demoLen (w_disk driftSys.1) 2) = 3.
Proof. vm_compute. done. Qed.

(** ** The backends *)

(** A server's reader of literals. *)
Fixpoint demoLex (q : ascii) (s : string) : option (string * string) :=
  match s with
  | EmptyString => None
  | String c rest =>
      if Ascii.eqb c q then Some (EmptyString, rest)
      else if Ascii.eqb c backslash
      then match rest with
           | EmptyString => None
           | String d rest => '(v, r) ← demoLex q rest; Some (String d v, r)
           end
      else '(v, r) ← demoLex q rest; Some (String c v, r)
  end.

#[local] Instance demoLiteral plain : Literal quote plain (demoLex quote).
Proof.
  split.
  - intros rest _. done.
  - by intros c rest [-> | ->].
  - intros c rest Hq Hb _. simpl. destruct (Ascii.eqb_spec c quote); [done|]. by destruct (Ascii.eqb_spec c backslash).
Qed.

Definition evil : LogQuery := mkLogQuery "p" "r" "s" "" None None (String backslash (String quote " OR 1=1 -- ")) 10.

Lemma chQuote_literal_witness :
  demoLex quote (replaceChar quote (escaped quote) "p1" +:+ String quote " AND x") = Some ("p1", " AND x")%string /\
  exists before inside,
    chLogWhere (fun _ => "0"%string) (fun _ => "t"%string) evil 0 = (before +:+ "positionCaseInsensitive(line," +:+ String quote inside)%string /\
    demoLex quote inside = Some (one backslash, (" OR 1=1 -- " +:+ one quote +:+ ")>0"))%string.
Proof.
  refine (proj2 (chQuote_literal (demoLex quote) (fun _ => "0"%string) (fun _ => "t"%string) "p1" " AND x" " OR 1=1 -- " evil 0 _ _ _ _ _ _)); try reflexivity; try done.
Defined.

Definition demoConfig : Config := mkConfig "spool" 0 (mkBackendConfig "clickhouse://db" "" false) (mkBackendConfig "" "" false).
Definition demoParse (s : string) : option URL := Some (mkURL "clickhouse" "db" false []).
Definition demoCaps : Capabilities := mkCapabilities false false false "database" "database".

Lemma Open_serves_witness :
  exists r, Open demoParse id (fun _ _ => true) None (fun _ => true) demoConfig demoCaps = Returns r /\
    match r with
    | Err e => forall kind_, e <> EUnsupported kind_
    | Ok st => exists s, schemeOf demoParse id "clickhouse://db" = Some s /\ so_Logs st = External s /\ ca_LogsBackend (so_Capabilities st) = s
    end.
Proof.
  destruct (Open_serves demoParse id (fun _ _ => true) None (fun _ => true) demoConfig demoCaps) as (r & Hr & H); [done..|].
  exists r. split; [exact Hr|]. destruct r as [st|e]; [|exact H]. exact (proj1 H).
Defined.
