(* ===== verification/Alerting.v ===== *)
(** * Alerting: rules, conditions and the engine

    Alert rules with their validation and conditions ([pkg/alerting/model.go],
    [eval.go]), the operations on them ([service.go]) and the engine that matches
    events and delivers notifications ([internal/alerting/engine.go]), as programs
    over calls of the repository, the clock, the cache of rules, the bounded
    queue of deliveries and the notifiers. *)

From S2P Require Import Prelude Prog Pipeline.
From Stdlib Require Import SpecFloat.
From stdpp Require Import options.
#[local] Open Scope Z_scope.

(** ** Rules *)

Record Rule := mkRule {
  r_ID : string; r_ProjectID : string; r_Name : string; r_Source : string; r_EventType : string; r_When : string;
  r_MetricKey : string; r_Condition : string; r_Notify : list string; r_CooldownSeconds : Z; r_Enabled : bool;
  r_CreatedBy : string; r_LastMatchedAt : option Z; r_LastAttemptedAt : option Z; r_LastSuccessAt : option Z; r_LastError : string }.

Definition SourceEvent : string := "event".
Definition SourceMetric : string := "metric".
Definition DefaultCooldownSeconds : Z := 300.
Definition MinCooldownSeconds : Z := 10.

Inductive alertErr : Type :=
| ErrNotFound
| ErrAlreadyExists
| ErrInvalid (what : string)
| ErrRepo.

(** ** Conditions *)

Definition between (lo hi : nat) (c : ascii) : bool := (Nat.leb lo (nat_of_ascii c) && Nat.leb (nat_of_ascii c) hi)%bool.
Definition is_digit (c : ascii) : bool := between 48 57 c.
Definition is_alpha (c : ascii) : bool := (between 65 90 c || between 97 122 c || Ascii.eqb c "_")%bool.
(** [\s] *)
Definition is_blank (c : ascii) : bool := (between 9 10 c || between 12 13 c || Ascii.eqb c " ")%bool.

(** The longest prefix of characters that satisfy [f], and the rest. *)
Fixpoint spanStr (f : ascii -> bool) (s : string) : string * string :=
  match s with
  | EmptyString => (EmptyString, EmptyString)
  | String c s' => if f c then let '(a, b) := spanStr f s' in (String c a, b) else (EmptyString, s)
  end.

Definition stripPrefix (p s : string) : option string :=
  if String.prefix p s then Some (str_drop (String.length p) s) else None.

Definition dquote : ascii := byte_of 34.

(** Characters of a valid UTF-8 string: the bytes that continue none. *)
Fixpoint runeCount (s : string) : nat :=
  match s with
  | EmptyString => O
  | String c s => ((if between 128 191 c then 0 else 1) + runeCount s)%nat
  end.

Fixpoint allStr (f : ascii -> bool) (s : string) : bool :=
  match s with EmptyString => true | String c s => (f c && allStr f s)%bool end.

Definition identTail (c : ascii) : bool := (is_alpha c || is_digit c)%bool.
Definition plainChar (c : ascii) : bool := negb (Ascii.eqb c dquote || Ascii.eqb c backslash)%bool.

(** [eventConditionRE]: the field, whether the comparison is [==], the value. *)
Definition eventCondition (s : string) : option (string * bool * string) :=
  s ← stripPrefix "fields." s;
  match s with
  | EmptyString => None
  | String c s =>
      if negb (is_alpha c) then None
      else
        let '(tail, s) := spanStr identTail s in
        let s := (spanStr is_blank s).2 in
        ' (equal, s) ← match stripPrefix "==" s with
                       | Some s => Some (true, s)
                       | None => s ← stripPrefix "!=" s; Some (false, s)
                       end;
        match (spanStr is_blank s).2 with
        | String q s =>
            if negb (Ascii.eqb q dquote) then None
            else
              let '(value, s) := spanStr plainChar s in
              if (String.eqb s (String dquote EmptyString) && Nat.leb (runeCount value) 256)%bool
              then Some (String c tail, equal, value) else None
        | EmptyString => None
        end
  end.

Inductive comparison : Type := Lt | Le | Gt | Ge | Eq | Ne.

Definition comparisonOf (s : string) : option (comparison * string) :=
  match stripPrefix "<=" s, stripPrefix ">=" s, stripPrefix "<" s, stripPrefix ">" s, stripPrefix "==" s, stripPrefix "!=" s with
  | Some s, _, _, _, _, _ => Some (Le, s)
  | _, Some s, _, _, _, _ => Some (Ge, s)
  | _, _, Some s, _, _, _ => Some (Lt, s)
  | _, _, _, Some s, _, _ => Some (Gt, s)
  | _, _, _, _, Some s, _ => Some (Eq, s)
  | _, _, _, _, _, Some s => Some (Ne, s)
  | _, _, _, _, _, _ => None
  end.

(** Digits with an optional fraction, or a fraction alone; then an exponent. *)
Definition isExponent (s : string) : bool :=
  match s with
  | EmptyString => true
  | String c s =>
      (Ascii.eqb c "e" || Ascii.eqb c "E") &&
      (let s := match s with String d t => if (Ascii.eqb d "+" || Ascii.eqb d "-")%bool then t else s | EmptyString => s end in
       negb (String.eqb s "") && allStr is_digit s)
  end%bool.

Definition isNumber (s : string) : bool :=
  let s := match s with String c t => if Ascii.eqb c "-" then t else s | EmptyString => s end in
  let '(whole, s) := spanStr is_digit s in
  match s with
  | String c t =>
      if Ascii.eqb c "."
      then let '(frac, s) := spanStr is_digit t in ((negb (String.eqb whole "") || negb (String.eqb frac "")) && isExponent s)%bool
      else (negb (String.eqb whole "") && isExponent s)%bool
  | EmptyString => negb (String.eqb whole "")
  end.

(** [metricConditionRE] *)
Definition metricCondition (s : string) : option (comparison * string) :=
  ' (op, s) ← comparisonOf s;
  let number := (spanStr is_blank s).2 in
  if isNumber number then Some (op, number) else None.

(** ** [ValidateRule] *)

Definition supportedEventTypes : list string :=
  ["run.completed"; "service.status"; "notebook.running"; "notebook.stopped"; "notebook.failed"]%string.

(** The loop over [rule.Notify]: trimmed, not empty, not repeated. *)
Fixpoint checkNotify (seen : list string) (l : list string) : res alertErr (list string) :=
  match l with
  | [] => Ok []
  | x :: l =>
      let x := TrimSpace x in
      if String.eqb x "" then Err (ErrInvalid "notify empty")
      else if existsb (String.eqb x) seen then Err (ErrInvalid "notify duplicate")
      else match checkNotify (x :: seen) l with Ok l => Ok (x :: l) | Err e => Err e end
  end.

Definition withSettings (name source eventType when_ metricKey condition : string) (notify : list string) (cooldown : Z) (r : Rule) : Rule :=
  mkRule (r_ID r) (r_ProjectID r) name source eventType when_ metricKey condition notify cooldown (r_Enabled r) (r_CreatedBy r)
    (r_LastMatchedAt r) (r_LastAttemptedAt r) (r_LastSuccessAt r) (r_LastError r).

Definition ValidateRule (rule : Rule) : res alertErr Rule :=
  let name := TrimSpace (r_Name rule) in
  let eventType := TrimSpace (r_EventType rule) in
  let when_ := TrimSpace (r_When rule) in
  let metricKey := TrimSpace (r_MetricKey rule) in
  let condition := TrimSpace (r_Condition rule) in
  if String.eqb name "" then Err (ErrInvalid "name")
  else
    let cooldown := if r_CooldownSeconds rule =? 0 then DefaultCooldownSeconds else r_CooldownSeconds rule in
    if cooldown <? MinCooldownSeconds then Err (ErrInvalid "cooldown_seconds")
    else
      match r_Notify rule with
      | [] => Err (ErrInvalid "notify")
      | l =>
          match checkNotify [] l with
          | Err e => Err e
          | Ok notify =>
              if String.eqb (r_Source rule) SourceEvent then
                if negb (existsb (String.eqb eventType) supportedEventTypes) then Err (ErrInvalid "event_type")
                else if (negb (String.eqb when_ "") && match eventCondition when_ with None => true | Some _ => false end)%bool then Err (ErrInvalid "when")
                else Ok (withSettings name (r_Source rule) eventType when_ "" "" notify cooldown rule)
              else if String.eqb (r_Source rule) SourceMetric then
                if String.eqb metricKey "" then Err (ErrInvalid "metric_key")
                else match metricCondition condition with
                     | None => Err (ErrInvalid "condition")
                     | Some _ => Ok (withSettings name (r_Source rule) "" "" metricKey condition notify cooldown rule)
                     end
              else Err (ErrInvalid "on")
          end
      end.

(** ** Matching *)

Section Engine.

(** A value of an event's field, printed by [fmt.Sprint], and as a string or a
    number when it is one. *)
Context {V : Type} (Sprint : V -> string) (asString : V -> string) (number : V -> option spec_float).
(** [strconv.ParseFloat]; a status as a field's value. *)
Context (ParseFloat : string -> option spec_float) (statusValue : string -> V).

Abbreviation Fields := (gmap string V).

Definition MatchEvent (rule : Rule) (eventType : string) (fields : Fields) : bool :=
  if (negb (String.eqb (r_Source rule) SourceEvent) || negb (String.eqb (r_EventType rule) eventType))%bool then false
  else if String.eqb (r_When rule) "" then true
  else
    match eventCondition (r_When rule) with
    | None => false
    | Some (field, equal, want) =>
        match fields !! field with
        | None => false
        | Some actual => Bool.eqb (String.eqb (Sprint actual) want) equal
        end
    end.

Definition MatchMetric (rule : Rule) (key : string) (value : spec_float) : bool :=
  if (negb (String.eqb (r_Source rule) SourceMetric) || negb (String.eqb (r_MetricKey rule) key))%bool then false
  else
    match metricCondition (r_Condition rule) with
    | None => false
    | Some (op, text) =>
        match ParseFloat text with
        | None => false
        | Some want =>
            match op with
            | Lt => SFltb value want
            | Le => SFleb value want
            | Gt => SFltb want value
            | Ge => SFleb want value
            | Eq => SFeqb value want
            | Ne => negb (SFeqb value want)
            end
        end
    end.

Record Event := mkEvent { ev_ID : string; ev_Type : string; ev_ProjectID : string; ev_At : Z; ev_Fields : option Fields }.

Definition fieldsOf (e : Event) : Fields := default ∅ (ev_Fields e).

Definition normalizeEvent (value : Event) : Event :=
  let set s := mkEvent (ev_ID value) (ev_Type value) (ev_ProjectID value) (ev_At value) (Some (<["status"%string := statusValue s]> (fieldsOf value))) in
  if String.eqb (ev_Type value) "notebook.running" then set "running"%string
  else if String.eqb (ev_Type value) "notebook.stopped" then set "stopped"%string
  else if String.eqb (ev_Type value) "notebook.failed" then set "failed"%string
  else mkEvent (ev_ID value) (ev_Type value) (ev_ProjectID value) (ev_At value) (Some (fieldsOf value)).

(** Whether the engine takes a rule to match an event. *)
Definition matches (rule : Rule) (value : Event) : bool :=
  if (String.eqb (r_Source rule) SourceMetric && String.eqb (ev_Type value) "metric.recorded")%bool
  then match fieldsOf value !! "value"%string ≫= number with
       | Some metric => MatchMetric rule (match fieldsOf value !! "key"%string with Some v => asString v | None => "" end) metric
       | None => false
       end
  else MatchEvent rule (ev_Type value) (fieldsOf value).

Record Message := mkMessage { ms_Title : string; ms_Body : string; ms_Fields : gmap string string; ms_Event : option Event }.
Record deliveryJob := mkJob { j_rule : option Rule; j_projectID : string; j_credentialRef : string; j_event : option Event; j_message : option Message }.

(** ** Calls *)

Inductive acall : Type :=
(* e.rules under e.mu, and e.jobs *)
| ARulesOf (projectID : string)
| AInstall (rules : list Rule)
| AEnqueue (job : deliveryJob)
| ANextJob
| ANow
(* the repository *)
| AListEnabled
| AGet (projectID id : string)
| ACreate (r : Rule)
| AUpdate (r : Rule)
| ADelete (projectID id : string)
(* [TryClaimFire] for the ids of the rule *)
| AClaim (rule : Rule) (now before : Z)
| ARecord (projectID id : string) (at_ : Z) (success : bool) (message : string)
(* credentials and notifiers *)
| AValidCredential (projectID name : string)
| AResolve (projectID name : string)
| AOpen (kind_ : string) (data : gmap string string)
| ASend (m : Message)
| ANewID
| ARender (body : string) (data : gmap string string).

Definition areply (c : acall) : Type :=
  match c with
  | ARulesOf _ => list Rule
  | AEnqueue _ | AValidCredential _ _ => bool
  | ANextJob => deliveryJob
  | ANow => Z
  | AListEnabled => res alertErr (list Rule)
  | AGet _ _ => res alertErr (option Rule)
  | ACreate _ | AUpdate _ | ADelete _ _ => res alertErr unit
  | AClaim _ _ _ => res alertErr bool
  | AResolve _ _ => res string (string * gmap string string)
  | AOpen _ _ | ASend _ => res string unit
  | ANewID => string
  | ARender _ _ => res string string
  | _ => unit
  end.

Abbreviation A := (prog areply).
Definition ask (c : acall) : A (areply c) := perform c.

Fixpoint forEach {X} (f : X -> A unit) (l : list X) : A unit :=
  match l with [] => Ret tt | x :: l => f x ;; forEach f l end.

(** ** [engine.go] *)

Definition Refresh : A (res alertErr unit) :=
  rules ←! ask AListEnabled;
  ask (AInstall rules) ;; Ret (Ok tt).

(** The message names the rule and the event, which stands here for its fields. *)
Definition messageFor (rule : option Rule) (value : option Event) : Message :=
  let name := match rule with Some r => r_Name r | None => "" end in
  let type := match value with Some e => ev_Type e | None => "" end in
  let projectID := match value with Some e => ev_ProjectID e | None => "" end in
  mkMessage ("Piper alert: " +:+ name) (type +:+ " matched for project " +:+ projectID) ∅ value.

Definition cooldownNanos (rule : Rule) : Z := wrap64 (r_CooldownSeconds rule * 1000000000).
(** [now.Add(-time.Duration(rule.CooldownSeconds) * time.Second)] *)
Definition cooldownBefore (now : Z) (rule : Rule) : Z := now + wrap64 (- cooldownNanos rule).

Definition notifyOne (rule : Rule) (value : Event) (ref : string) : A unit :=
  queued ← ask (AEnqueue (mkJob (Some rule) (r_ProjectID rule) ref (Some value) None));
  if queued : bool then Ret tt
  else
    now ← ask ANow;
    ask (ARecord (r_ProjectID rule) (r_ID rule) now false "notification delivery queue is full").

Definition evaluateRule (value : Event) (rule : Rule) : A unit :=
  if negb (matches rule value) then Ret tt
  else
    now ← ask ANow;
    claimed ← ask (AClaim rule now (cooldownBefore now rule));
    match claimed with
    | Ok true => forEach (notifyOne rule value) (r_Notify rule)
    | _ => Ret tt
    end.

Definition evaluate (value : Event) : A unit :=
  rules ← ask (ARulesOf (ev_ProjectID value));
  forEach (evaluateRule value) rules.

(** A message of an error is cut at 512 bytes. *)
Definition cut512 (s : string) : string := if Nat.ltb 512 (String.length s) then str_take 512 s else s.

Definition deliver (job : deliveryJob) : A unit :=
  resolved ← ask (AResolve (j_projectID job) (j_credentialRef job));
  err ← (match resolved with
         | Err e => Ret (Err e)
         | Ok (kind_, data) =>
             notifier ← ask (AOpen kind_ data);
             let message := match j_message job with Some m => m | None => messageFor (j_rule job) (j_event job) end in
             match notifier with Err e => Ret (Err e) | Ok _ => ask (ASend message) end
         end);
  now ← ask ANow;
  match j_rule job with
  | None => Ret tt
  | Some rule =>
      match err with
      | Err e => ask (ARecord (j_projectID job) (r_ID rule) now false (cut512 e))
      | Ok _ => ask (ARecord (j_projectID job) (r_ID rule) now true "")
      end
  end.

(** One turn of [deliveryWorker]. *)
Definition workOnce : A unit := job ← ask ANextJob; deliver job.

Definition defaultBody : string := "Pipeline {{.PipelineName}} run {{.RunID}} finished with status {{.Status}}.".

Definition notifyOutcome (projectID runID status name : string) (action : NotifyAction) : A unit :=
  let body := if String.eqb (n_Message action) "" then defaultBody else n_Message action in
  let data := <["ProjectID" := projectID]> (<["RunID" := runID]> (<["PipelineName" := name]> (<["Status" := status]> ∅)))%string in
  rendered ← ask (ARender body data);
  match rendered with
  | Err _ => Ret tt
  | Ok text =>
      let message := mkMessage ("Piper pipeline " +:+ status +:+ ": " +:+ name) text
        (<["project_id" := projectID]> (<["run_id" := runID]> (<["pipeline_name" := name]> (<["status" := status]> ∅))))%string None in
      _ ← ask (AEnqueue (mkJob None projectID (n_CredentialRef action) None (Some message)));
      Ret tt
  end.

Definition NotifyPipelineOutcome (projectID runID status : string) (pl : Pipeline) : A unit :=
  let outcome :=
    if String.eqb status "success" then ps_OnSuccess (pl_Spec pl)
    else if String.eqb status "failed" then ps_OnFailure (pl_Spec pl)
    else None in
  match outcome with
  | None => Ret tt
  | Some o => forEach (notifyOutcome projectID runID status (m_Name (pl_Metadata pl))) (oo_Notify o)
  end.

(** ** [service.go] *)

Record CreateRequest := mkCreate {
  cr_Name : string; cr_Source : string; cr_EventType : string; cr_When : string; cr_MetricKey : string; cr_Condition : string;
  cr_Notify : list string; cr_CooldownSeconds : Z; cr_Enabled : option bool }.
Record PatchRequest := mkPatch {
  pr_Name : option string; pr_Source : option string; pr_EventType : option string; pr_When : option string;
  pr_MetricKey : option string; pr_Condition : option string; pr_Notify : option (list string);
  pr_CooldownSeconds : option Z; pr_Enabled : option bool }.

Definition withEnabled (enabled : bool) (r : Rule) : Rule :=
  mkRule (r_ID r) (r_ProjectID r) (r_Name r) (r_Source r) (r_EventType r) (r_When r) (r_MetricKey r) (r_Condition r) (r_Notify r)
    (r_CooldownSeconds r) enabled (r_CreatedBy r) (r_LastMatchedAt r) (r_LastAttemptedAt r) (r_LastSuccessAt r) (r_LastError r).

Definition newRule (id projectID actorID : string) (req : CreateRequest) : Rule :=
  mkRule id projectID (cr_Name req) (cr_Source req) (cr_EventType req) (cr_When req) (cr_MetricKey req) (cr_Condition req)
    (cr_Notify req) (cr_CooldownSeconds req) (default true (cr_Enabled req)) actorID None None None "".

Definition patched (req : PatchRequest) (r : Rule) : Rule :=
  withEnabled (default (r_Enabled r) (pr_Enabled req))
    (withSettings (default (r_Name r) (pr_Name req)) (default (r_Source r) (pr_Source req)) (default (r_EventType r) (pr_EventType req))
       (default (r_When r) (pr_When req)) (default (r_MetricKey r) (pr_MetricKey req)) (default (r_Condition r) (pr_Condition req))
       (default (r_Notify r) (pr_Notify req)) (default (r_CooldownSeconds r) (pr_CooldownSeconds req)) r).

(** Whether the service has a validator of credentials. *)
Context (hasCredentials : bool).

Fixpoint checkCredentials (projectID : string) (l : list string) : A (res alertErr unit) :=
  match l with
  | [] => Ret (Ok tt)
  | ref :: l =>
      if negb hasCredentials then Ret (Err (ErrInvalid "credential validation is unavailable"))
      else
        ok ← ask (AValidCredential projectID ref);
        if ok : bool then checkCredentials projectID l else Ret (Err (ErrInvalid "notify credential"))
  end.

Definition withName (name : string) (r : Rule) : Rule :=
  withSettings name (r_Source r) (r_EventType r) (r_When r) (r_MetricKey r) (r_Condition r) (r_Notify r) (r_CooldownSeconds r) r.

Definition validate (rule : Rule) : A (res alertErr Rule) :=
  match ValidateRule rule with
  | Err e => Ret (Err e)
  | Ok rule =>
      _ ←! checkCredentials (r_ProjectID rule) (r_Notify rule);
      Ret (Ok (withName (TrimSpace (r_Name rule)) rule))
  end.

(** [onChanged] is the engine's [Refresh]; its error is only logged. *)
Definition changed : A unit := _ ← Refresh; Ret tt.

Definition Create (projectID actorID : string) (req : CreateRequest) : A (res alertErr Rule) :=
  id ← ask ANewID;
  rule ←! validate (newRule id projectID actorID req);
  _ ←! ask (ACreate rule);
  changed ;; Ret (Ok rule).

Definition Patch (projectID id : string) (req : PatchRequest) : A (res alertErr Rule) :=
  found ←! ask (AGet projectID id);
  match found with
  | None => Ret (Err ErrNotFound)
  | Some rule =>
      rule ←! validate (patched req rule);
      _ ←! ask (AUpdate rule);
      changed ;; Ret (Ok rule)
  end.

Definition Delete (projectID id : string) : A (res alertErr unit) :=
  _ ←! ask (ADelete projectID id);
  changed ;; Ret (Ok tt).

End Engine.
