(* ===== verification/AlertingWorld.v ===== *)
(** * Alerting: the table of rules, the engine's state, the interleavings

    What each call does to the table of rules
    ([internal/store/sqlite/alert_rule.go]), to the cached rules and to the
    bounded queue of deliveries, and the system of concurrent events, deliveries
    and requests. *)

From S2P Require Import Prelude Prog Pipeline Alerting.
From Stdlib Require Import SpecFloat.
From stdpp Require Import options.
#[local] Open Scope Z_scope.

(** ** The statements *)

Definition key : Type := string * string.
Definition keyOf (r : Rule) : key := (r_ProjectID r, r_ID r).
Abbreviation Table := (gmap key Rule).

Definition stamped (matched attempted success : option Z) (lastError : string) (r : Rule) : Rule :=
  mkRule (r_ID r) (r_ProjectID r) (r_Name r) (r_Source r) (r_EventType r) (r_When r) (r_MetricKey r) (r_Condition r) (r_Notify r)
    (r_CooldownSeconds r) (r_Enabled r) (r_CreatedBy r) matched attempted success lastError.

(** A new row has no stamps; the project and the id are the primary key, and a
    name is unique in its project. *)
Definition insertRule (rule : Rule) (t : Table) : res alertErr Table :=
  if (bool_decide (is_Some (t !! keyOf rule)) ||
      existsb (fun r => String.eqb (r_ProjectID r) (r_ProjectID rule) && String.eqb (r_Name r) (r_Name rule)) (map_to_list t).*2)%bool
  then Err ErrAlreadyExists
  else Ok (<[keyOf rule := stamped None None None "" rule]> t).

Definition updateRule (rule : Rule) (t : Table) : res alertErr Table :=
  match t !! keyOf rule with
  | None => Err ErrNotFound
  | Some old =>
      if existsb (fun r => (String.eqb (r_ProjectID r) (r_ProjectID rule) && String.eqb (r_Name r) (r_Name rule) &&
            negb (String.eqb (r_ID r) (r_ID rule)))%bool) (map_to_list t).*2
      then Err ErrAlreadyExists
      else Ok (<[keyOf rule := withEnabled (r_Enabled rule)
                   (withSettings (r_Name rule) (r_Source rule) (r_EventType rule) (r_When rule) (r_MetricKey rule) (r_Condition rule)
                      (r_Notify rule) (r_CooldownSeconds rule) old)]> t)
  end.

Definition deleteRule (k : key) (t : Table) : res alertErr Table :=
  match t !! k with None => Err ErrNotFound | Some _ => Ok (delete k t) end.

(** [enabled=1 AND (last_attempted_at IS NULL OR last_attempted_at<=before)] *)
Definition claimable (before : Z) (r : Rule) : bool :=
  (r_Enabled r && match r_LastAttemptedAt r with None => true | Some t => t <=? before end)%bool.

Definition claimRule (k : key) (now before : Z) (t : Table) : bool * Table :=
  match t !! k with
  | Some r => if claimable before r then (true, <[k := stamped (Some now) (Some now) (r_LastSuccessAt r) "" r]> t) else (false, t)
  | None => (false, t)
  end.

Definition recordRule (k : key) (at_ : Z) (success : bool) (message : string) (t : Table) : Table :=
  match t !! k with
  | None => t
  | Some r =>
      <[k := if success then stamped (r_LastMatchedAt r) (r_LastAttemptedAt r) (Some at_) "" r
             else stamped (r_LastMatchedAt r) (r_LastAttemptedAt r) (r_LastSuccessAt r) message r]> t
  end.

(** [ListEnabled]; the order of the rules does not matter here. *)
Definition enabledRules (t : Table) : list Rule := List.filter r_Enabled (map_to_list t).*2.

(** ** The world *)

Definition deliveryQueueSize : nat := 256.

Section World.

Context {V : Type}.
Abbreviation acall := (@acall V).
Abbreviation areply := (@areply V).
Abbreviation A := (prog areply).

Record AWorld := mkAWorld {
  aw_table : Table;
  aw_rules : list Rule;
  aw_jobs : list (@deliveryJob V);
  aw_now : Z;
  (* the claims of the present rows, newest first: when, by which copy of the rule *)
  aw_fires : gmap key (list (Z * Rule));
  (* all claims ever won, and the notifications about rules that were queued, as the
     copy of the rule and the credential; newest first *)
  aw_claims : list (Z * Rule);
  aw_sent : list (Rule * string) }.

Definition aw_setTable t w := mkAWorld t (aw_rules w) (aw_jobs w) (aw_now w) (aw_fires w) (aw_claims w) (aw_sent w).
Definition aw_setRules l w := mkAWorld (aw_table w) l (aw_jobs w) (aw_now w) (aw_fires w) (aw_claims w) (aw_sent w).
Definition aw_setJobs l w := mkAWorld (aw_table w) (aw_rules w) l (aw_now w) (aw_fires w) (aw_claims w) (aw_sent w).
Definition aw_setNow t w := mkAWorld (aw_table w) (aw_rules w) (aw_jobs w) t (aw_fires w) (aw_claims w) (aw_sent w).
Definition aw_setFires f w := mkAWorld (aw_table w) (aw_rules w) (aw_jobs w) (aw_now w) f (aw_claims w) (aw_sent w).
Definition aw_setClaims l w := mkAWorld (aw_table w) (aw_rules w) (aw_jobs w) (aw_now w) (aw_fires w) l (aw_sent w).
Definition aw_setSent l w := mkAWorld (aw_table w) (aw_rules w) (aw_jobs w) (aw_now w) (aw_fires w) (aw_claims w) l.

Definition firesOf (w : AWorld) (k : key) : list (Z * Rule) := default [] (aw_fires w !! k).

(** A claim that was won, and a delivery that was queued. *)
Definition claimed (now : Z) (rule : Rule) (w : AWorld) : AWorld :=
  aw_setClaims ((now, rule) :: aw_claims w)
    (aw_setFires (<[keyOf rule := (now, rule) :: firesOf w (keyOf rule)]> (aw_fires w)) w).
Definition queued (job : deliveryJob) (w : AWorld) : AWorld :=
  let w := aw_setJobs (aw_jobs w ++ [job]) w in
  match j_rule job with Some rule => aw_setSent ((rule, j_credentialRef job) :: aw_sent w) w | None => w end.

(** How a call ends: a statement is done, fails, or fails although it was done;
    what credentials, notifiers and templates answer. *)
Inductive achoice : Type :=
| ADone
| AFailed
| AFailedAfter
| ABool (b : bool)
| AString (s : string)
| AResolved (r : res string (string * gmap string string))
| AAnswer (r : res string unit)
| ARendered (r : res string string).

Abbreviation outcome R := (option (R * AWorld * list (A unit))).
Definition external {R} (r : R) (w : AWorld) : outcome R := Some (r, w, []).

Definition statement (i : achoice) (w : AWorld) (r : res alertErr Table) (after : Table -> AWorld) : outcome (res alertErr unit) :=
  match i, r with
  | ADone, Ok t => external (Ok tt) (after t)
  | ADone, Err e => external (Err e) w
  | AFailed, _ => external (Err ErrRepo) w
  | AFailedAfter, Ok t => external (Err ErrRepo) (after t)
  | _, _ => None
  end.

Definition handle (c : acall) (tid : nat) (i : achoice) (w : AWorld) : outcome (areply c) :=
  match c as c return outcome (areply c) with
  | ARulesOf p => external (List.filter (fun r => String.eqb (r_ProjectID r) p) (aw_rules w)) w
  | AInstall l => external tt (aw_setRules l w)
  | AEnqueue job =>
      if Nat.ltb (List.length (aw_jobs w)) deliveryQueueSize then external true (queued job w)
      else external false w
  | ANextJob => match aw_jobs w with [] => None | job :: l => external job (aw_setJobs l w) end
  | ANow => external (aw_now w) w
  | AListEnabled => match i with ADone => external (Ok (enabledRules (aw_table w))) w | AFailed => external (Err ErrRepo) w | _ => None end
  | AGet p id => match i with ADone => external (Ok (aw_table w !! (p, id))) w | AFailed => external (Err ErrRepo) w | _ => None end
  | ACreate r => statement i w (insertRule r (aw_table w)) (fun t => aw_setFires (delete (keyOf r) (aw_fires w)) (aw_setTable t w))
  | AUpdate r => statement i w (updateRule r (aw_table w)) (fun t => aw_setTable t w)
  | ADelete p id => statement i w (deleteRule (p, id) (aw_table w)) (fun t => aw_setTable t w)
  | AClaim rule now before =>
      let k := keyOf rule in
      let '(won, t) := claimRule k now before (aw_table w) in
      let w' := if won then claimed now rule (aw_setTable t w) else w in
      match i with
      | ADone => external (Ok won) w'
      | AFailed => external (Err ErrRepo) w
      | AFailedAfter => external (Err ErrRepo) w'
      | _ => None
      end
  | ARecord p id at_ success message =>
      match i with
      | ADone => external tt (aw_setTable (recordRule (p, id) at_ success message (aw_table w)) w)
      | AFailed => external tt w
      | _ => None
      end
  | AValidCredential _ _ => match i with ABool b => external b w | _ => None end
  | AResolve _ _ => match i with AResolved r => external r w | _ => None end
  | AOpen _ _ | ASend _ => match i with AAnswer r => external r w | _ => None end
  | ANewID => match i with AString s => external s w | _ => None end
  | ARender _ _ => match i with ARendered r => external r w | _ => None end
  end.

(** ** The system *)

Context (Sprint : V -> string) (asString : V -> string) (number : V -> option spec_float).
Context (ParseFloat : string -> option spec_float) (statusValue : string -> V) (hasCredentials : bool).

Inductive arequest : Type :=
| REvent (e : @Event V)
| RWork
| RRefresh
| RCreate (projectID actorID : string) (req : CreateRequest)
| RPatch (projectID id : string) (req : PatchRequest)
| RDelete (projectID id : string)
| ROutcome (projectID runID status : string) (pl : Pipeline).

Definition ignore {R} (m : A R) : A unit := _ ← m; Ret tt.

Definition program (r : arequest) : A unit :=
  match r with
  | REvent e => evaluate Sprint asString number ParseFloat (normalizeEvent statusValue e)
  | RWork => workOnce
  | RRefresh => ignore Refresh
  | RCreate p actor req => ignore (Create hasCredentials p actor req)
  | RPatch p id req => ignore (Patch hasCredentials p id req)
  | RDelete p id => ignore (Delete p id)
  | ROutcome p run status pl => NotifyPipelineOutcome p run status pl
  end.

(** Time passes; a restart keeps the table only. *)
Inductive aop : Type :=
| OThread (tid : nat) (i : achoice)
| ORequest (r : arequest)
| OTick (d : Z)
| ORestart.

Definition astep (o : aop) (s : AWorld * list (A unit)) : option (AWorld * list (A unit)) :=
  match o with
  | OThread tid i => thread_step AWorld achoice handle tid i s
  | ORequest r => Some (s.1, s.2 ++ [program r])
  | OTick d => Some (aw_setNow (aw_now s.1 + Z.max 0 d) s.1, s.2)
  | ORestart => Some (mkAWorld (aw_table s.1) [] [] (aw_now s.1) (aw_fires s.1) (aw_claims s.1) (aw_sent s.1), [program RRefresh])
  end.

Fixpoint aexec (ops : list aop) (s : AWorld * list (A unit)) : option (AWorld * list (A unit)) :=
  match ops with
  | [] => Some s
  | o :: ops => s' ← astep o s; aexec ops s'
  end.

Definition emptyWorld (now : Z) : AWorld := mkAWorld ∅ [] [] now ∅ [] [].

End World.
