(* ===== verification/AlertingSpec.v ===== *)
(** * Alerting: conditions, valid rules, cooldown

    What a condition is, what a rule that passed the validation looks like, and
    for every interleaving of events, deliveries, requests, failures and
    restarts: all rules in the table and in the engine are valid, a rule is claimed
    again only after its cooldown, and only claims send notifications. *)

From S2P Require Import Prelude Prog Pipeline Alerting AlertingWorld.
From Stdlib Require Import SpecFloat.
From stdpp Require Import options.
#[local] Open Scope Z_scope.

(** ** The grammar of event conditions *)

Definition starts_not (f : ascii -> bool) (s : string) : Prop :=
  match s with EmptyString => True | String c _ => f c = false end.

Lemma spanStr_spec f s : s = ((spanStr f s).1 +:+ (spanStr f s).2)%string /\ allStr f (spanStr f s).1 = true /\ starts_not f (spanStr f s).2.
Proof.
  induction s as [|c s (H1 & H2 & H3)]; simpl; [done|]. destruct (f c) eqn:E; [|done].
  destruct (spanStr f s) as [a b]. simpl in *. rewrite E. split; [by f_equal|done].
Qed.

Lemma spanStr_app f a b : allStr f a = true -> starts_not f b -> spanStr f (a +:+ b) = (a, b).
Proof.
  induction a as [|c a IH]; simpl; intros Ha Hb.
  - destruct b as [|d b]; [done|]. simpl in *. by rewrite Hb.
  - apply andb_true_iff in Ha as [Hc Ha]. by rewrite Hc, (IH Ha Hb).
Qed.

Lemma stripPrefix_Some p s s' : stripPrefix p s = Some s' <-> s = (p +:+ s')%string.
Proof.
  unfold stripPrefix. revert s; induction p as [|c p IH]; intros s; simpl.
  - destruct s; (split; [by intros [= <-]|by intros <-]).
  - destruct s as [|d s]; simpl; [done|]. destruct (ascii_dec c d) as [->|Hne].
    + rewrite IH. split; [by intros ->|by intros [= ->]].
    + split; [done|by intros [= -> _]].
Qed.

Definition identifier (f : string) : Prop :=
  match f with String c t => is_alpha c = true /\ allStr identTail t = true | EmptyString => False end.

(** A string that [eventConditionRE] matches, by its parts. *)
Definition isEventCondition (s f : string) (equal : bool) (v : string) : Prop :=
  exists b1 b2, allStr is_blank b1 = true /\ allStr is_blank b2 = true /\ identifier f /\
    allStr plainChar v = true /\ (runeCount v <= 256)%nat /\
    s = ("fields." +:+ f +:+ b1 +:+ (if equal then "==" else "!=") +:+ b2 +:+ String dquote (v +:+ String dquote ""))%string.

Lemma stripOp_eq x : stripPrefix "==" ("==" +:+ x)%string = Some x.
Proof. by apply stripPrefix_Some. Qed.

Lemma eventCondition_complete s f equal v : isEventCondition s f equal v -> eventCondition s = Some (f, equal, v).
Proof.
  intros (b1 & b2 & Hb1 & Hb2 & Hf & Hv & Hn & ->). unfold eventCondition. destruct f as [|c t]; [done|]. destruct Hf as [Hc Ht].
  rewrite (proj2 (stripPrefix_Some "fields." _ _) eq_refl). cbn [mbind option_bind String.append]. rewrite Hc. cbn [negb].
  rewrite (spanStr_app identTail t); [|done|].
  2: { destruct b1 as [|d b1]; [by destruct equal|]. simpl in *. apply andb_true_iff in Hb1 as [Hd _]. revert Hd. clear.
       unfold is_blank, identTail, is_alpha, is_digit, between. destruct d as [[] [] [] [] [] [] [] []]; vm_compute; congruence. }
  rewrite (spanStr_app is_blank b1); [|done|by destruct equal]. cbn [snd].
  assert (Hop : match stripPrefix "==" ((if equal then "==" else "!=") +:+ b2 +:+ String dquote (v +:+ String dquote ""))%string with
                | Some s => Some (true, s)
                | None => s ← stripPrefix "!=" ((if equal then "==" else "!=") +:+ b2 +:+ String dquote (v +:+ String dquote ""))%string; Some (false, s)
                end = Some (equal, (b2 +:+ String dquote (v +:+ String dquote ""))%string)).
  { destruct equal; [by rewrite stripOp_eq|]. by rewrite (proj2 (stripPrefix_Some "!=" _ _) eq_refl). }
  rewrite Hop. cbn [mbind option_bind]. rewrite (spanStr_app is_blank b2); [|done|done]. cbn [snd]. rewrite Ascii.eqb_refl. cbn [negb].
  rewrite (spanStr_app plainChar v); [|done|done]. rewrite String.eqb_refl. simpl. by rewrite (proj2 (Nat.leb_le _ _) Hn).
Qed.

Lemma eventCondition_sound s f equal v : eventCondition s = Some (f, equal, v) -> isEventCondition s f equal v.
Proof.
  unfold eventCondition. intros H. apply bind_Some in H as (s1 & H1 & H). apply stripPrefix_Some in H1 as ->.
  destruct s1 as [|c s1]; [done|]. destruct (is_alpha c) eqn:Hc; [|done]. cbn [negb] in H.
  destruct (spanStr identTail s1) as [tail s2] eqn:E1. pose proof (spanStr_spec identTail s1) as (H1 & H2 & _). rewrite E1 in H1, H2. simpl in H1, H2.
  pose proof (spanStr_spec is_blank s2) as (H3 & H4 & _). destruct (spanStr is_blank s2) as [b1 s3] eqn:E2. cbn [fst snd] in *.
  apply bind_Some in H as ([equal' s4] & Hop & H). pose proof (spanStr_spec is_blank s4) as (H5 & H6 & _).
  destruct (spanStr is_blank s4) as [b2 s5] eqn:E3. cbn [fst snd] in *. destruct s5 as [|q s5]; [done|].
  destruct (Ascii.eqb_spec q dquote) as [->|]; [|done]. cbn [negb] in H. pose proof (spanStr_spec plainChar s5) as (H7 & H8 & _).
  destruct (spanStr plainChar s5) as [value s6] eqn:E4. cbn [fst snd] in *.
  destruct (String.eqb_spec s6 (String dquote "")) as [->|]; [|done]. simpl in H.
  destruct (Nat.leb_spec (runeCount value) 256) as [Hn|]; [|done]. injection H as <- -> <-.
  assert (Hs3 : s3 = ((if equal then "==" else "!=") +:+ s4)%string).
  { destruct (stripPrefix "==" s3) as [x|] eqn:Ex; [apply stripPrefix_Some in Ex as ->; by injection Hop as <- <-|].
    apply bind_Some in Hop as (x & Hx & Hop). apply stripPrefix_Some in Hx as ->. by injection Hop as <- <-. }
  exists b1, b2. repeat (split; [done|]). by rewrite H1, H3, Hs3, H5, H7.
Qed.

(** [eventConditionRE], as the scanner that the model uses, accepts exactly the
    strings of the grammar and splits them into their field, comparison and
    value. *)
Theorem eventCondition_grammar s f equal v : eventCondition s = Some (f, equal, v) <-> isEventCondition s f equal v.
Proof. split; [apply eventCondition_sound|apply eventCondition_complete]. Qed.

(** ** Valid rules *)

Definition valid_rule (r : Rule) : Prop :=
  r_Name r <> ""%string /\ MinCooldownSeconds <= r_CooldownSeconds r /\
  r_Notify r <> [] /\ NoDup (r_Notify r) /\ ~ In ""%string (r_Notify r) /\
  ((r_Source r = SourceEvent /\ In (r_EventType r) supportedEventTypes /\ r_MetricKey r = ""%string /\ r_Condition r = ""%string /\
    (r_When r = ""%string \/ exists f equal v, isEventCondition (r_When r) f equal v)) \/
   (r_Source r = SourceMetric /\ r_MetricKey r <> ""%string /\ r_EventType r = ""%string /\ r_When r = ""%string /\
    exists op n, metricCondition (r_Condition r) = Some (op, n))).

Lemma checkNotify_spec seen l l' : checkNotify seen l = Ok l' ->
  List.length l' = List.length l /\ NoDup l' /\ ~ In ""%string l' /\ forall x, In x l' -> ~ In x seen.
Proof.
  revert seen l'; induction l as [|x l IH]; intros seen l'; cbn [checkNotify].
  - intros [= <-]. split; [done|]. split; [constructor|]. split; [by intros []|by intros x []].
  - destruct (String.eqb_spec (TrimSpace x) ""); [done|]. destruct (existsb (String.eqb (TrimSpace x)) seen) eqn:E; [done|].
    destruct (checkNotify (TrimSpace x :: seen) l) as [l1|] eqn:E1; [|done]. intros [= <-].
    destruct (IH _ _ E1) as (H1 & H2 & H3 & H4). split; [simpl; by rewrite H1|]. split; [|split].
    + constructor; [|done]. intros Hin%list_elem_of_In. destruct (H4 _ Hin). by left.
    + by intros [|].
    + intros y [<-|Hy] Hs; [|by destruct (H4 y Hy); right].
      assert (existsb (String.eqb (TrimSpace x)) seen = true); [|congruence].
      apply existsb_exists. exists (TrimSpace x). split; [done|]. apply String.eqb_refl.
Qed.

Lemma ValidateRule_valid r r' : ValidateRule r = Ok r' ->
  valid_rule r' /\ keyOf r' = keyOf r /\ r_Name r' = TrimSpace (r_Name r) /\ r_Enabled r' = r_Enabled r.
Proof.
  unfold ValidateRule. destruct (String.eqb_spec (TrimSpace (r_Name r)) ""); [done|].
  set (cooldown := if r_CooldownSeconds r =? 0 then _ else _). destruct (Z.ltb_spec cooldown MinCooldownSeconds); [done|].
  destruct (r_Notify r) as [|x l] eqn:El; [done|]. destruct (checkNotify [] (x :: l)) as [notify|] eqn:En; [|done].
  destruct (checkNotify_spec _ _ _ En) as (Hlen & Hnd & Hne & _).
  assert (Hnot : notify <> []) by (intros ->; done).
  destruct (String.eqb_spec (r_Source r) SourceEvent) as [Es|Es].
  - destruct (existsb (String.eqb (TrimSpace (r_EventType r))) supportedEventTypes) eqn:Et; [|done]. cbn [negb].
    destruct (negb (String.eqb (TrimSpace (r_When r)) "") && _)%bool eqn:Ew; [done|]. intros [= <-]. split; [|done].
    do 5 (split; [done|]). left. split; [done|]. split; [|do 2 (split; [done|])].
    + apply existsb_exists in Et as (t & Ht & Heq%String.eqb_eq). simpl. by rewrite Heq.
    + simpl. destruct (String.eqb_spec (TrimSpace (r_When r)) "") as [->|]; [by left|]. right.
      destruct (eventCondition (TrimSpace (r_When r))) as [[[f eq] v]|] eqn:Ec; [|done]. exists f, eq, v. by apply eventCondition_sound.
  - destruct (String.eqb_spec (r_Source r) SourceMetric) as [Em|]; [|done].
    destruct (String.eqb_spec (TrimSpace (r_MetricKey r)) ""); [done|]. destruct (metricCondition _) as [[op nn]|] eqn:Ec; [|done].
    intros [= <-]. split; [|done]. do 5 (split; [done|]). right. do 4 (split; [done|]). by exists op, nn.
Qed.

(** The rows keep the settings of the rules, whatever their stamps. *)
Lemma valid_stamped m a s e r : valid_rule r -> valid_rule (stamped m a s e r).
Proof. done. Qed.

Lemma valid_withName r : valid_rule r -> TrimSpace (r_Name r) = r_Name r -> valid_rule (withName (TrimSpace (r_Name r)) r).
Proof. intros Hv ->. exact Hv. Qed.

(** ** Every interleaving *)

Section System.

Context {V : Type} (Sprint : V -> string) (asString : V -> string) (number : V -> option spec_float).
Context (ParseFloat : string -> option spec_float) (statusValue : string -> V) (hasCredentials : bool).

Abbreviation A := (prog (@areply V)).

(** A notification about a rule: the copy of the rule and the credential. *)
Abbreviation notice := (Rule * string)%type.
Definition notices (rule : Rule) : list notice := map (pair rule) (r_Notify rule).

(** Only valid rules are stored, cached and claimed, and a claim asks for the
    cooldown of its rule. The phase are the notifications that a thread may queue:
    those of the claims that it won, each once. *)
Definition alerts : discipline (@areply V) :=
  mkDiscipline (@acall V) (@areply V) (list notice)
    (fun ph c =>
       match c with
       | AEnqueue job => match j_rule job with Some rule => exists rest, ph = (rule, j_credentialRef job) :: rest | None => True end
       | AClaim rule now before => valid_rule rule /\ before = cooldownBefore now rule
       | ACreate r | AUpdate r => valid_rule r
       | AInstall l => Forall valid_rule l
       | _ => True
       end)
    (fun _ c =>
       match c as c return areply c -> Prop with
       | ARulesOf _ => fun l => Forall valid_rule l
       | AListEnabled => fun r => match r with Ok l => Forall valid_rule l | Err _ => True end
       | _ => fun _ => True
       end)
    (fun ph c =>
       match c as c return areply c -> list notice with
       | AClaim rule _ _ => fun r => match r with Ok true => notices rule ++ ph | _ => ph end
       | AEnqueue job => fun _ => match j_rule job with Some _ => tail ph | None => ph end
       | _ => fun _ => ph
       end).

Abbreviation wp := (wp alerts).
(** A program that begins and ends with nothing to send. *)
Abbreviation obeying m := (wp [] m (fun _ ph => ph = [])).

Lemma forEach_wp {X} (f : X -> A unit) l : Forall (fun x => obeying (f x)) l -> obeying (forEach f l).
Proof.
  induction 1 as [|x l Hx _ IH]; [done|]. cbn [forEach]. apply wp_bind. eapply wp_mono; [|exact Hx]. by intros _ ph ->.
Qed.

(** The notifications of a claim, one after another. *)
Lemma notify_wp rule value refs : wp (map (pair rule) refs) (forEach (notifyOne rule value) refs) (fun _ ph => ph = []).
Proof.
  induction refs as [|ref refs IH]; [done|]. cbn [forEach map]. apply wp_bind. unfold notifyOne. cbn. split; [by eexists|].
  intros [] _; cbn; [done|]. split; [done|]. intros t _. split; [done|]. by intros _ _.
Qed.
#[local] Opaque forEach.

Lemma evaluate_wp e : obeying (evaluate Sprint asString number ParseFloat e).
Proof.
  unfold evaluate. cbn. split; [done|]. intros rules Hr. apply forEach_wp. eapply Forall_impl; [exact Hr|]. intros rule Hv.
  unfold evaluateRule. destruct (matches _ _ _ _ rule e); [|done]. cbn. split; [done|]. intros now _. split; [done|].
  intros [[]|err] _; [|done|done]. cbn. rewrite app_nil_r. apply notify_wp.
Qed.

Lemma deliver_alert_wp job : obeying (deliver job).
Proof.
  unfold deliver. cbn. split; [done|]. intros resolved _. apply wp_bind.
  apply (wp_mono alerts _ _ (fun _ ph => ph = [])); [|destruct resolved as [[kd data]|]; [|done]].
  - intros err ph ->. cbn. split; [done|]. intros now _. destruct (j_rule job); [|done]. by destruct err; cbn; split.
  - cbn. split; [done|]. intros [[]|] _; cbn; done.
Qed.

Lemma Refresh_wp : wp [] Refresh (fun _ ph => ph = []).
Proof. unfold Refresh. cbn. split; [done|]. intros [l|e] Hl; cbn; [|done]. by split. Qed.

Lemma changed_wp : wp [] changed (fun _ ph => ph = []).
Proof. unfold changed. apply wp_bind. eapply wp_mono; [|apply Refresh_wp]. done. Qed.
#[local] Opaque changed.

Lemma checkCredentials_wp p l : wp [] (checkCredentials hasCredentials p l) (fun _ ph => ph = []).
Proof.
  induction l as [|x l IH]; [done|]. cbn [checkCredentials]. destruct hasCredentials; [|done]. cbn. split; [done|]. by intros [] _.
Qed.
#[local] Opaque checkCredentials.

Lemma validate_wp r : wp [] (validate hasCredentials r) (fun res ph => match res with Ok r' => valid_rule r' | Err _ => True end /\ ph = []).
Proof.
  unfold validate. destruct (ValidateRule r) as [r'|] eqn:E; [|done]. apply ValidateRule_valid in E as (Hv & _ & Hn & _).
  apply wp_tryOk. eapply wp_mono; [|apply checkCredentials_wp]. intros [[]|e] ph ->; [|done]. split; [|done].
  apply valid_withName; [done|]. by rewrite Hn, TrimSpace_idem.
Qed.
#[local] Opaque validate.

Lemma alert_program_wp r : obeying (program Sprint asString number ParseFloat statusValue hasCredentials r).
Proof.
  destruct r as [e| | |p actor req|p id req|p id|p run st pl]; unfold program, ignore.
  - apply evaluate_wp.
  - unfold workOnce. cbn. split; [done|]. intros job _. apply deliver_alert_wp.
  - apply wp_bind. eapply wp_mono; [|apply Refresh_wp]. done.
  - unfold Create. cbn. split; [done|]. intros id _. apply wp_bind, wp_tryOk. eapply wp_mono; [|apply validate_wp].
    intros [r'|e] ph [Hv ->]; [|done]. cbn. split; [done|]. intros [[]|e] _; cbn; [|done].
    apply wp_bind. eapply wp_mono; [|apply changed_wp]. done.
  - unfold Patch. cbn. split; [done|]. intros [[r'|]|e] _; cbn; [|done|done]. apply wp_bind, wp_tryOk.
    eapply wp_mono; [|apply validate_wp]. intros [r''|e] ph [Hv ->]; [|done]. cbn. split; [done|]. intros [[]|e] _; cbn; [|done].
    apply wp_bind. eapply wp_mono; [|apply changed_wp]. done.
  - unfold Delete. cbn. split; [done|]. intros [[]|e] _; cbn; [|done]. apply wp_bind, wp_bind. eapply wp_mono; [|apply changed_wp]. done.
  - unfold NotifyPipelineOutcome. destruct (if String.eqb st "success" then _ else _) as [o|]; [|done].
    apply forEach_wp, Forall_forall. intros action _. unfold notifyOutcome. cbn. split; [done|]. by intros [text|e] _; cbn.
Qed.

(** *** The invariant *)

(** Each claim came the cooldown of its rule after the one before. *)
Fixpoint spaced (l : list (Z * Rule)) : Prop :=
  match l with
  | (t2, r2) :: (((t1, _) :: _) as l') => t1 <= cooldownBefore t2 r2 /\ spaced l'
  | _ => True
  end.

Record alert_inv (w : @AWorld V) : Prop := {
  i_rows k r : aw_table w !! k = Some r -> valid_rule r /\ r_LastAttemptedAt r = fst <$> head (firesOf w k);
  i_cache : Forall valid_rule (aw_rules w);
  i_fires k : spaced (firesOf w k) /\ Forall (fun f => valid_rule f.2) (firesOf w k) }.

Definition keeps (w w' : @AWorld V) : Prop := alert_inv w -> alert_inv w'.

(** The table changes one row, and no claim. *)
Lemma keep_row w k r0 r : aw_table w !! k = Some r0 -> (valid_rule r0 -> valid_rule r) -> r_LastAttemptedAt r = r_LastAttemptedAt r0 ->
  keeps w (aw_setTable (<[k := r]> (aw_table w)) w).
Proof.
  intros H0 Hv Ha [H1 H2 H3]. split; [|exact H2|exact H3]. intros k' r' Hr. cbn in Hr.
  destruct (decide (k' = k)) as [->|Hne].
  - rewrite lookup_insert_eq in Hr. simplify_eq. destruct (H1 k r0 H0) as [Hv0 Ha0]. split; [by apply Hv|]. by rewrite Ha.
  - rewrite lookup_insert_ne in Hr by done. by apply H1.
Qed.

Lemma keep_insert w r t : valid_rule r -> insertRule r (aw_table w) = Ok t ->
  keeps w (aw_setFires (delete (keyOf r) (aw_fires w)) (aw_setTable t w)).
Proof.
  unfold insertRule. intros Hv Hi [H1 H2 H3]. destruct (_ || _)%bool; [done|]. simplify_eq. split; [|exact H2|].
  - intros k r' Hr. cbn in Hr. destruct (decide (k = keyOf r)) as [->|Hne].
    + rewrite lookup_insert_eq in Hr. simplify_eq. split; [done|]. unfold firesOf. cbn. by rewrite lookup_delete_eq.
    + rewrite lookup_insert_ne in Hr by done. destruct (H1 _ _ Hr) as [? ?]. split; [done|]. unfold firesOf. cbn.
      by rewrite lookup_delete_ne by done.
  - intros k. unfold firesOf. cbn. destruct (decide (k = keyOf r)) as [->|Hne]; [by rewrite lookup_delete_eq|].
    rewrite lookup_delete_ne by done. apply H3.
Qed.

Lemma keep_update w r t : valid_rule r -> updateRule r (aw_table w) = Ok t -> keeps w (aw_setTable t w).
Proof.
  unfold updateRule. intros Hv Hu. destruct (aw_table w !! keyOf r) as [old|] eqn:E; [|done].
  destruct (existsb _ _); [done|]. simplify_eq. by apply (keep_row w _ old).
Qed.

Lemma keep_delete w k t : deleteRule k (aw_table w) = Ok t -> keeps w (aw_setTable t w).
Proof.
  unfold deleteRule. intros Hd [H1 H2 H3]. destruct (aw_table w !! k); [|done]. simplify_eq. split; [|exact H2|exact H3].
  intros k' r' Hr. cbn in Hr. apply lookup_delete_Some in Hr as [_ Hr]. by apply H1.
Qed.

Lemma keep_record w k at_ success message : keeps w (aw_setTable (recordRule k at_ success message (aw_table w)) w).
Proof.
  unfold recordRule. destruct (aw_table w !! k) as [r|] eqn:E; [|by intros []].
  by destruct success; apply (keep_row w k r).
Qed.

(** A claim that is won comes after the cooldown of the rule it was made with. *)
Lemma keep_claim w rule now t : valid_rule rule -> claimRule (keyOf rule) now (cooldownBefore now rule) (aw_table w) = (true, t) ->
  keeps w (claimed now rule (aw_setTable t w)).
Proof.
  unfold claimRule, claimed. intros Hv Hc [H1 H2 H3]. set (k := keyOf rule) in *.
  destruct (aw_table w !! k) as [r|] eqn:E; [|done]. destruct (claimable (cooldownBefore now rule) r) eqn:Ec; [|done]. simplify_eq.
  destruct (H1 k r E) as [Hr Ha]. split; [|exact H2|].
  - intros k' r' Hr'. unfold firesOf. cbn in *. destruct (decide (k' = k)) as [->|Hne].
    + rewrite lookup_insert_eq in Hr'. simplify_eq. by rewrite lookup_insert_eq.
    + rewrite lookup_insert_ne in Hr' by done. rewrite lookup_insert_ne by done. by apply H1.
  - intros k'. unfold firesOf in *. cbn. destruct (decide (k' = k)) as [->|Hne]; [|rewrite lookup_insert_ne by done; apply H3].
    rewrite lookup_insert_eq. cbn. destruct (H3 k) as [Hsp Hval]. unfold claimable in Ec. apply andb_true_iff in Ec as [_ Ec].
    rewrite Ha in Ec. destruct (default [] (aw_fires w !! k)) as [|[t1 r1] l]; [split; [done|by apply Forall_singleton]|].
    split; [|by constructor]. split; [by apply Z.leb_le|done].
Qed.

Lemma statement_inv i (w : @AWorld V) r after x w' new : statement i w r after = Some (x, w', new) ->
  new = [] /\ (w' = w \/ exists t, r = Ok t /\ w' = after t).
Proof. destruct i, r as [t|e]; cbn; intros [= <- <- <-]; (split; [done|]); first [by left|by right; exists t]. Qed.

Lemma alert_keep w ph c tid i r w' new : alert_inv w -> allowed alerts ph c -> handle c tid i w = Some (r, w', new) ->
  rely alerts ph c r /\ new = [] /\ alert_inv w'.
Proof.
  intros Hi Ha Hh. pose proof Hi as [H1 H2 H3]. destruct c; cbn in *; unfold external, queued in *.
  all: try (apply statement_inv in Hh as (-> & [->|(t & Ht & ->)]); (split; [done|]); (split; [done|]); [done|]).
  all: try (repeat case_match; simplify_eq; by split).
  - simplify_eq. split; [|done]. apply Forall_forall. intros r0 Hr%list_elem_of_In. apply filter_In in Hr as [Hr _].
    rewrite Forall_forall in H2. by apply H2, list_elem_of_In.
  - destruct i; simplify_eq; (split; [|done]); [|done]. apply Forall_forall. intros r0 Hr%list_elem_of_In.
    apply filter_In in Hr as [Hr%list_elem_of_In _]. apply list_elem_of_fmap in Hr as ([k r1] & -> & Hr).
    apply elem_of_map_to_list in Hr. by apply (H1 k).
  - by apply (keep_insert w _ t).
  - by apply (keep_update w r0 t).
  - by apply (keep_delete w (projectID, id) t).
  - destruct Ha as [Hv ->]. destruct (claimRule (keyOf rule) now _ (aw_table w)) as [won t] eqn:E.
    assert (Hw : alert_inv (if won then claimed now rule (aw_setTable t w) else w)).
    { destruct won; [|done]. by apply keep_claim. }
    destruct i; simplify_eq; by split.
  - destruct i; simplify_eq; (split; [done|]); (split; [done|]); [|done]. by apply keep_record.
Qed.

(** *** Notifications *)

(** Those that the claims account for. *)
Definition owed (claims : list (Z * Rule)) : list notice := flat_map (fun c => notices c.2) claims.

(** What was queued and what threads may still queue are owed, and the claims of the
    present row of a key are its latest. *)
Record sent_inv (w : @AWorld V) (phs : list (list notice)) : Prop := {
  i_sent : aw_sent w ++ concat phs ⊆+ owed (aw_claims w);
  i_latest k : exists earlier, filter (fun c => keyOf c.2 = k) (aw_claims w) = firesOf w k ++ earlier }.

Lemma concat_insert (phs : list (list notice)) tid ph : phs !! tid = Some ph ->
  exists rest, concat phs ≡ₚ ph ++ rest /\ forall ph', concat (<[tid := ph']> phs) ≡ₚ ph' ++ rest.
Proof.
  revert tid; induction phs as [|x phs IH]; intros [|tid] H; simpl in H; [done|done| |].
  - simplify_eq. by exists (concat phs).
  - destruct (IH _ H) as (rest & Hr & Hi). exists (x ++ rest). split.
    + simpl. rewrite Hr. by rewrite !app_assoc, (Permutation_app_comm x ph).
    + intros ph'. simpl. rewrite Hi. by rewrite !app_assoc, (Permutation_app_comm x ph').
Qed.

(** The calls other than claims and deliveries change neither. *)
Lemma sent_same w w' phs tid ph : aw_sent w' = aw_sent w -> aw_claims w' = aw_claims w ->
  (forall k, firesOf w' k = firesOf w k \/ firesOf w' k = []) -> phs !! tid = Some ph ->
  sent_inv w phs -> sent_inv w' (<[tid := ph]> phs).
Proof.
  intros Es Ec Hf Hl [H1 H2]. rewrite list_insert_id by done. split; rewrite ?Es, ?Ec; [done|]. intros k.
  destruct (Hf k) as [->| ->]; [apply H2|by eexists].
Qed.

Lemma sent_claim w phs tid ph rule now t toks : phs !! tid = Some ph -> (toks = notices rule \/ toks = []) -> sent_inv w phs ->
  sent_inv (claimed now rule (aw_setTable t w)) (<[tid := toks ++ ph]> phs).
Proof.
  intros Hl Ht [H1 H2]. destruct (concat_insert _ _ _ Hl) as (rest & Hr & Hi). split.
  - change (aw_sent w ++ concat (<[tid := toks ++ ph]> phs) ⊆+ notices rule ++ owed (aw_claims w)).
    rewrite Hi. rewrite Hr in H1. rewrite <- app_assoc, Permutation_app_swap_app.
    apply submseteq_app; [|done]. destruct Ht as [->| ->]; [done|apply submseteq_nil_l].
  - intros k. change (aw_claims (claimed now rule (aw_setTable t w))) with ((now, rule) :: aw_claims w).
    rewrite filter_cons. unfold firesOf. cbn [snd]. destruct (H2 k) as [earlier E]. unfold firesOf in E.
    destruct (decide (keyOf rule = k)) as [<-|Hne].
    + exists earlier. cbn [aw_fires claimed aw_setClaims aw_setFires]. rewrite lookup_insert_eq. cbn. by rewrite E.
    + exists earlier. cbn [aw_fires claimed aw_setClaims aw_setFires]. by rewrite lookup_insert_ne.
Qed.

Lemma sent_queued w phs tid rule job rest : phs !! tid = Some ((rule, j_credentialRef job) :: rest) -> j_rule job = Some rule ->
  sent_inv w phs -> sent_inv (queued job w) (<[tid := rest]> phs) /\ sent_inv w (<[tid := rest]> phs).
Proof.
  intros Hl Hj [H1 H2]. destruct (concat_insert _ _ _ Hl) as (rest' & Hr & Hi). rewrite Hr in H1. unfold queued. rewrite Hj.
  split; (split; [|done]); cbn; rewrite Hi; (etrans; [|exact H1]).
  - cbn. rewrite <- Permutation_middle. done.
  - apply submseteq_app; [done|]. cbn. by apply submseteq_cons.
Qed.

Lemma sent_keep w phs tid ph c i r w' new : sent_inv w phs -> phs !! tid = Some ph -> allowed alerts ph c ->
  handle c tid i w = Some (r, w', new) -> sent_inv w' (<[tid := next alerts ph c r]> phs).
Proof.
  intros Hi Hl Ha Hh. pose proof (fun w' Es Ec Hf => sent_same w w' phs tid ph Es Ec Hf Hl Hi) as Hsame.
  destruct c; cbn in *; unfold external in *.
  all: try (apply statement_inv in Hh as (-> & [->|(t & Ht & ->)])).
  all: try (repeat case_match; simplify_eq; apply Hsame; by auto).
  - destruct (j_rule job) as [rule|] eqn:Ej.
    + destruct Ha as [rest ->]. destruct (sent_queued _ _ _ _ _ _ Hl Ej Hi) as [Hq Hn]. cbn [tail]. by case_match; simplify_eq.
    + case_match; simplify_eq; apply Hsame; unfold queued; rewrite ?Ej; by auto.
  - apply Hsame; try done. intros k. unfold firesOf. cbn. destruct (decide (k = keyOf r0)) as [->|Hne].
    + right. by rewrite lookup_delete_eq.
    + left. by rewrite lookup_delete_ne.
  - destruct (claimRule (keyOf rule) now before (aw_table w)) as [[] t].
    + destruct i; simplify_eq.
      * apply sent_claim; [done|by left|done].
      * apply Hsame; by auto.
      * apply (sent_claim _ _ _ _ _ _ _ []); [done|by right|done].
    + destruct i; simplify_eq; apply Hsame; by auto.
Qed.

Abbreviation astep := (astep Sprint asString number ParseFloat statusValue hasCredentials).
Abbreviation aexec := (aexec Sprint asString number ParseFloat statusValue hasCredentials).

Definition alert_good (s : @AWorld V * list (A unit)) : Prop :=
  good (@AWorld V) alerts (fun _ => True) (fun w phs => alert_inv w /\ sent_inv w phs) s.

Lemma obeying_obeys m : obeying m -> obeys alerts (fun _ => True) [] m.
Proof. intros Hm. eapply wp_mono; [|exact Hm]. done. Qed.

Lemma alert_step o s s' : alert_good s -> astep o s = Some s' -> alert_good s'.
Proof.
  intros Hg Hs. destruct o as [tid i|r|d|]; simpl in Hs; simplify_eq.
  - eapply good_step; [|exact Hg|exact Hs]. intros w phs t ph c i0 r w' new [Hi Hse] Hl Ha Hh.
    pose proof (sent_keep _ _ _ _ _ _ _ _ _ Hse Hl Ha Hh) as Hse'.
    destruct (alert_keep _ _ _ _ _ _ _ _ Hi Ha Hh) as (Hr & -> & Hi'). split; [done|]. exists []. by rewrite app_nil_r.
  - destruct Hg as (phs & Hf & Hi & [H1 H2]). exists (phs ++ [[]]). split; [|split; [done|]].
    + apply Forall2_app; [done|]. constructor; [apply obeying_obeys, alert_program_wp|constructor].
    + split; [|done]. by rewrite concat_app, app_nil_r.
  - destruct Hg as (phs & Hf & [H1 H2 H3] & [H4 H5]). by exists phs.
  - destruct Hg as (phs & Hf & [H1 H2 H3] & [H4 H5]). exists [[]]. split; [|split; [by split|split; [|done]]].
    + constructor; [exact (obeying_obeys _ (alert_program_wp RRefresh))|constructor].
    + etrans; [|exact H4]. cbn. apply submseteq_app; [done|apply submseteq_nil_l].
Qed.

Lemma alert_exec ops s s' : alert_good s -> aexec ops s = Some s' -> alert_good s'.
Proof.
  revert s; induction ops as [|o ops IH]; intros s Hg He; simpl in He; [by simplify_eq|].
  apply bind_Some in He as (s1 & H1 & H2). eapply IH; [|exact H2]. by eapply alert_step.
Qed.

Lemma empty_good now : alert_good (emptyWorld now, []).
Proof.
  exists []. split; [constructor|]. split.
  - split; [intros k r; cbn; by rewrite lookup_empty|constructor|]. intros k. unfold firesOf. cbn. by rewrite lookup_empty.
  - split; [done|]. intros k. unfold firesOf. cbn. rewrite lookup_empty. by exists [].
Qed.

(** Whatever requests, events and failures interleave, every stored rule and
    every rule the engine uses passed the validation: a name, a cooldown of at
    least ten seconds, distinct credentials, and a condition of its source. *)
Theorem rules_stay_valid now ops w threads (Hrun : aexec ops (emptyWorld now, []) = Some (w, threads)) :
  (forall k r, aw_table w !! k = Some r -> valid_rule r) /\ Forall valid_rule (aw_rules w).
Proof.
  destruct (alert_exec ops _ _ (empty_good now) Hrun) as (phs & _ & [H1 H2 _] & _). split; [|exact H2]. intros k r Hr. by destruct (H1 k r Hr).
Qed.

Lemma spaced_app l1 t2 r2 t1 r1 l2 : spaced (l1 ++ (t2, r2) :: (t1, r1) :: l2) -> t1 <= cooldownBefore t2 r2.
Proof.
  induction l1 as [|[t r] l1 IH]; [by intros [H _]|]. intros H. apply IH. destruct l1 as [|[t' r'] l1]; apply H.
Qed.

(** C34: Notifications about rules come from claims only, and claims keep the
    cooldown. Whatever events, stale copies of rules, changes of them, failures and
    restarts come in between: the notifications that were queued for delivery are
    among those of the claims that were won, one for each credential that the claiming
    copy of the rule names, each at most once; the claims of a rule's present row are
    the latest with its key; and between two of them in a row the cooldown of the later
    copy, at least ten seconds, has passed, unless it does not fit a duration. *)
Theorem cooldown_respected now ops w threads (Hrun : aexec ops (emptyWorld now, []) = Some (w, threads)) :
  aw_sent w ⊆+ owed (aw_claims w) /\
  forall k, (exists earlier, filter (fun c => keyOf c.2 = k) (aw_claims w) = firesOf w k ++ earlier) /\
    forall newer t2 r2 t1 r1 older, firesOf w k = newer ++ (t2, r2) :: (t1, r1) :: older ->
      r_CooldownSeconds r2 * 1000000000 < 2 ^ 63 ->
      MinCooldownSeconds <= r_CooldownSeconds r2 /\ t1 + r_CooldownSeconds r2 * 1000000000 <= t2.
Proof.
  destruct (alert_exec ops _ _ (empty_good now) Hrun) as (phs & _ & [_ _ H3] & [H4 H5]). cbn [fst] in *. split.
  { etrans; [|exact H4]. apply submseteq_inserts_r. done. }
  intros k. split; [apply H5|]. intros newer t2 r2 t1 r1 older Hfires Hfits.
  destruct (H3 k) as [Hs Hv]. rewrite Hfires in Hs, Hv.
  apply spaced_app in Hs. apply Forall_app in Hv as [_ Hv]. apply Forall_cons in Hv as [(_ & Hc & _) _]. cbn in Hc.
  split; [done|]. unfold cooldownBefore, cooldownNanos in Hs. unfold MinCooldownSeconds in Hc. rewrite (wrap64_id (r_CooldownSeconds r2 * 1000000000)) in Hs by lia. rewrite wrap64_id in Hs by lia. lia.
Qed.

End System.
