(* ===== verification/AlertingDemo.v ===== *)
(** * Alerting: runs of the engine

    A rule that fires, is quiet, and fires again, each time with one notification; and a rule with a cooldown that
    does not fit a duration, which fires twice at once. *)

From S2P Require Import Prelude Prog Pipeline Alerting AlertingWorld AlertingSpec.
From Stdlib Require Import SpecFloat.
From stdpp Require Import options.
#[local] Open Scope Z_scope.

(** The values of fields are strings here. *)
Abbreviation demo := (aexec (V := string) id id (fun _ => None) (fun _ => None) id true).

Definition demoWhen : string := ("fields.status == " +:+ String dquote ("failed" +:+ String dquote ""))%string.
Definition demoCreate (cooldown : Z) : CreateRequest :=
  mkCreate " on failure " "event" "run.completed" demoWhen "" "" ["slack"%string] cooldown None.
Definition demoEvent : @Event string := mkEvent "e" "run.completed" "p" 0 (Some {["status"%string := "failed"%string]}).

Definition D (n tid : nat) : list (@aop string) := replicate n (OThread tid ADone).
Definition createOps (cooldown : Z) : list (@aop string) :=
  [ORequest (RCreate "p" "alice" (demoCreate cooldown)); OThread 0 (AString "id"); OThread 0 (ABool true)] ++ D 3 0.

(** Three events: at once, after five seconds, after twenty. *)
Definition demoOps : list (@aop string) :=
  createOps 10 ++ [ORequest (REvent demoEvent)] ++ D 4 1 ++ [OTick 5000000000; ORequest (REvent demoEvent)] ++ D 3 2 ++
  [OTick 15000000000; ORequest (REvent demoEvent)] ++ D 4 3.
Definition overflowOps : list (@aop string) :=
  createOps 9223372037 ++ [ORequest (REvent demoEvent); ORequest (REvent demoEvent)] ++ D 4 1 ++ D 4 2.

Definition start : @AWorld string * list (prog (@areply string) unit) := (emptyWorld 0, []).
Definition demoSys := default start (demo demoOps start).
Definition overflowSys := default start (demo overflowOps start).

Lemma demo_alerts_run : demo demoOps start = Some (demoSys.1, demoSys.2).
Proof.
  transitivity (Some demoSys); [|by destruct demoSys].
  assert (H : match demo demoOps start with Some _ => true | None => false end = true) by (vm_compute; reflexivity).
  unfold demoSys. by destruct (demo demoOps start).
Qed.

Definition demoKey : key := ("p", "id")%string.

Example demo_fires : fst <$> firesOf demoSys.1 demoKey = [20000000000; 0] /\ List.length (aw_jobs demoSys.1) = 2%nat.
Proof. vm_compute. done. Qed.

(** A cooldown beyond [2^63] nanoseconds turns negative and is none. *)
Example cooldown_overflow :
  (exists r, ValidateRule (newRule "id" "p" "alice" (demoCreate 9223372037)) = Ok r) /\
  fst <$> firesOf overflowSys.1 demoKey = [0; 0].
Proof. split; [by eexists|]. vm_compute. done. Qed.

Lemma eventCondition_demo : eventCondition demoWhen = Some ("status"%string, true, "failed"%string).
Proof. vm_compute. done. Qed.

Definition demoRule : Rule := match firesOf demoSys.1 demoKey with (_, r) :: _ => r | [] => newRule "" "" "" (demoCreate 10) end.

Lemma rules_stay_valid_witness :
  (forall k r, aw_table demoSys.1 !! k = Some r -> valid_rule r) /\ Forall valid_rule (aw_rules demoSys.1).
Proof. exact (rules_stay_valid (V := string) id id (fun _ => None) (fun _ => None) id true 0 demoOps demoSys.1 demoSys.2 demo_alerts_run). Defined.

Lemma cooldown_respected_witness :
  snd <$> aw_sent demoSys.1 = ["slack"; "slack"]%string /\ aw_sent demoSys.1 ⊆+ owed (aw_claims demoSys.1) /\
  MinCooldownSeconds <= r_CooldownSeconds demoRule /\ 0 + r_CooldownSeconds demoRule * 1000000000 <= 20000000000.
Proof.
  split; [vm_compute; reflexivity|].
  refine ((fun H => conj (proj1 H) (proj2 (proj2 H demoKey) [] 20000000000 demoRule 0 demoRule [] _ _))
    (cooldown_respected (V := string) id id (fun _ => None) (fun _ => None) id true 0 demoOps demoSys.1 demoSys.2 demo_alerts_run));
    vm_compute; reflexivity.
Defined.
