(* ===== verification/Serving.v ===== *)
(** * Model services: manifests, rows, calls

    The data of [pkg/serving]: manifests and their validation ([types.go],
    [parse.go], [placement.go]), the rows ([model.go]), and the calls through which
    the manager and the local driver reach the repository, the artifact store, the
    driver's own slots and the supervisor of processes or containers. *)

From S2P Require Import Prelude Prog Pipeline.
From stdpp Require Import options.
#[local] Open Scope Z_scope.

(** ** Manifests *)

Record ArtifactRef := mkArtifactRef { ar_Pipeline : string; ar_Step : string; ar_Artifact : string; ar_Run : string }.
Record ModelRef := mkModelRef { mr_FromArtifact : option ArtifactRef; mr_FromURI : string }.
Record ModelServiceRun := mkServiceRun { sr_Command : list string; sr_Port : Z; sr_HealthPath : string }.
Record ModelServiceSpec := mkServiceSpec {
  sp_Options : SpecOptions; sp_Model : ModelRef; sp_Run : ModelServiceRun; sp_Driver : DriverSpec }.
Record ModelService := mkModelService { ms_TypeMeta : TypeMeta; ms_Metadata : ObjectMeta; ms_Spec : ModelServiceSpec }.

(** One constructor per message; the last three wrap other errors. *)
Inductive servErr : Type :=
| SMeta (e : verr) | SDecode
| SNameRequired | SReserved (name : string) | SModel | SCommand | SPort
| SDockerImage | SK8sImage | SK8sNamespace | SRuntime (runtime : string)
| SPlacement (owned : string)
| SProject
| SNotFound (name : string)
| SMissing (name : string)
| SWrongRuntime (name owner reporter : string)
| SNotPersisted (name : string)
| SNoYAML (name : string)
| SActive (name : string)
| SBackendMismatch
| SMsg (msg : string)
| SWrap (context : string) (e : servErr)
| SMarkFailed (e setErr : servErr)
| SRestore (e restoreErr : servErr).

(** [errors.Is(err, ErrNotFound)]: [fmt.Errorf] unwraps to the argument of [%w]. *)
Fixpoint isNotFound (e : servErr) : bool :=
  match e with
  | SNotFound _ => true
  | SWrap _ e => isNotFound e
  | SMarkFailed e _ => isNotFound e
  | SRestore _ e => isNotFound e
  | _ => false
  end.

Definition reservedServiceNames : list string := ["history"; "predict"].

Definition validateMeta (s : ModelService) : res servErr unit :=
  match ValidateTypeMeta (ms_TypeMeta s) "ModelService" with Ok _ => Ok tt | Err e => Err (SMeta e) end.

Definition validateServiceDriver (d : DriverSpec) : res servErr unit :=
  if (String.eqb (dr_Runtime d) "" || String.eqb (dr_Runtime d) "baremetal")%bool then Ok tt
  else if String.eqb (dr_Runtime d) "docker" then
    check match dr_Docker d with None => true | Some k => String.eqb (d_Image k) "" end SDockerImage
  else if String.eqb (dr_Runtime d) "k8s" then
    _ ← check match dr_K8s d with None => true | Some k => String.eqb (k8s_Image k) "" end SK8sImage;
    check match dr_K8s d with None => true | Some k => String.eqb (k8s_Namespace k) "" end SK8sNamespace
  else Err (SRuntime (dr_Runtime d)).

Definition ValidateService (s : ModelService) : res servErr unit :=
  let name := m_Name (ms_Metadata s) in
  let spec := ms_Spec s in
  _ ← validateMeta s;
  _ ← check (String.eqb (TrimSpace name) "") SNameRequired;
  _ ← check (existsb (String.eqb name) reservedServiceNames) (SReserved name);
  _ ← check (Bool.eqb (match mr_FromArtifact (sp_Model spec) with None => true | Some _ => false end)
                      (String.eqb (TrimSpace (mr_FromURI (sp_Model spec))) "")) SModel;
  _ ← check (Nat.eqb (List.length (sr_Command (sp_Run spec))) 0) SCommand;
  _ ← check ((sr_Port (sp_Run spec) <? 1) || (65535 <? sr_Port (sp_Run spec)))%bool SPort;
  validateServiceDriver (sp_Driver spec).

(** [serving.Parse]; [decode] is the strict YAML decoder. *)
Definition ParseService (decode : string -> option ModelService) (data : string) : res servErr ModelService :=
  match decode data with
  | None => Err (SWrap "parse ModelService YAML" SDecode)
  | Some s =>
      match RequireTypeMeta (ms_TypeMeta s) "ModelService" with
      | Err e => Err (SMeta e)
      | Ok _ => _ ← ValidateService s; Ok s
      end
  end.

(** [manifest.ValidateRuntimePlacement] through [ValidateDirectPlacement] *)
Definition ValidateDirectPlacement (spec : ModelService) (owned : string) : res servErr unit :=
  let runtime := dr_Runtime (sp_Driver (ms_Spec spec)) in
  if String.eqb owned "" then Ok tt
  else check (negb (String.eqb runtime "") && negb (String.eqb runtime owned))%bool (SPlacement owned).

(** ** Rows *)

Definition StatusStarting : string := "starting".
Definition StatusRunning : string := "running".
Definition StatusStopping : string := "stopping".
Definition StatusStopped : string := "stopped".
Definition StatusFailed : string := "failed".

Record Service := mkService {
  sv_ProjectID : string; sv_Name : string; sv_RunID : string; sv_Artifact : string; sv_Status : string;
  sv_Endpoint : string; sv_Namespace : string; sv_PID : Z; sv_RuntimeID : string; sv_YAML : string;
  sv_CreatedBy : string; sv_CreatedAt : Z; sv_UpdatedAt : Z }.

Record ServiceHistory := mkHistory {
  sh_ProjectID : string; sh_Name : string; sh_RunID : string; sh_Artifact : string; sh_Status : string;
  sh_Endpoint : string; sh_Namespace : string; sh_PID : Z; sh_YAML : string; sh_CreatedBy : string;
  sh_DeployedAt : Z; sh_StoppedAt : Z }.

Abbreviation skey := (string * string)%type.
Definition serviceRow (s : Service) : skey := (sv_ProjectID s, sv_Name s).

Definition withProjectID (p : string) (s : ModelService) : ModelService :=
  let m := ms_Metadata s in
  mkModelService (ms_TypeMeta s) (mkObjectMeta (m_Name m) (m_Version m) p (m_Labels m) (m_Description m) (m_Tags m)) (ms_Spec s).

(** The label of the artifact, as [Manager.Deploy] and the drivers build it. *)
Definition artifactLabel (spec : ModelService) : string :=
  match mr_FromArtifact (sp_Model (ms_Spec spec)) with
  | Some ref => ar_Step ref +:+ "/" +:+ ar_Artifact ref
  | None => mr_FromURI (sp_Model (ms_Spec spec))
  end.

(** ** Artifacts *)

Inductive Target : Type := TargetLocal | TargetS3 | TargetRemote.
#[export] Instance Target_eq_dec : EqDecision Target.
Proof. solve_decision. Defined.

Record Resolved := mkResolved {
  rs_RunID : string; rs_LocalPath : string; rs_S3URI : string; rs_ArtifactKey : string; rs_RemoteURI : string }.

(** [filepath.Join] *)
Definition filepath_Join (parts : list string) : string :=
  match List.filter (fun p => negb (String.eqb p "")) parts with
  | [] => ""
  | l => path_Clean (str_join slash l)
  end.

(** [filepath.Base] *)
Fixpoint trimSlashes (s : string) : string :=
  match s with
  | EmptyString => ""
  | String c s =>
      match trimSlashes s with
      | EmptyString => if Ascii.eqb c slash then "" else String c ""
      | t => String c t
      end
  end.
Definition filepath_Base (s : string) : string :=
  if String.eqb s "" then "."
  else match trimSlashes s with
       | EmptyString => "/"
       | t => List.last (str_split slash t) ""%string
       end.

(** [filepath.Dir] *)
Definition filepath_Dir (s : string) : string :=
  path_Clean (str_join slash (rev (""%string :: List.tl (rev (str_split slash s))))).

(** [strings.TrimPrefix] *)
Definition TrimPrefix (s prefix : string) : string :=
  if String.prefix prefix s then str_drop (String.length prefix) s else s.

(** ** Calls *)

(** What [servingdriver.Deploy] is asked for; [dq_Key] and [dq_Gen] are what its
    [OnExit] closes over. *)
Record DeployRequest := mkDeployRequest {
  dq_ProjectID : string; dq_Name : string; dq_RuntimeName : string; dq_Image : string; dq_Docker : option DriverDockerSpec;
  dq_Command : list string; dq_Env : gmap string string; dq_ModelDir : string; dq_Port : Z; dq_HealthPath : string;
  dq_GPUs : string; dq_Key : string; dq_Gen : nat }.

Record RecoveredHandle := mkHandle { rh_ProjectID : string; rh_Name : string; rh_RuntimeName : string; rh_Port : Z }.

(** A runtime reports an exit to the closure of a deployment or of a recovery. *)
Inductive exitCallback : Type :=
| ExitOfDeploy (projectID name key : string) (gen : nat)
| ExitOfRecovery (projectID name key : string) (gen : nat).

Inductive vcall : Type :=
(* the repository *)
| VGet (projectID name : string)
| VUpsert (s : Service)
| VUpdate (s : Service)
| VSetStatus (projectID name status : string)
| VSetStatusEndpoint (projectID name status endpoint : string)
| VSetRuntime (s : Service)
| VDelete (projectID name : string)
| VAppendHistory (s : Service)
(* events *)
| VPublish (projectID eventType : string) (fields : list (string * string))
(* artifacts: runs, the store, the file system, HTTP *)
| VLatestSuccessful (projectID pipeline : string)
| VRunBackend (projectID runID : string)
| VStat (path : string)
| VMkdirAll (path : string)
| VStoreList (prefix : string)
| VStoreGet (key : string)
| VCreate (path : string)
| VCopy (path content : string)
| VHTTPGet (uri : string)
(* the local driver's locked sections *)
| VReserve (key projectID name : string)
| VReattach (key projectID name : string)
| VActive (key : string)
| VRemove (key : string) (gen : nat)
| VIsCurrent (key : string) (gen : nat)
| VFailDeploy (key : string) (gen : nat)
| VExit (cb : exitCallback) (status : string)
(* what it calls *)
| VResolveEnv (projectID : string) (env : list EnvVar)
| VRtDeploy (req : DeployRequest)
| VRtStop (runtimeName : string)
| VRtRecover
| VWaitReady (url : string) (timeout : Z)
(* go statements and callbacks handed to the runtime *)
| VGoHealth (req : DeployRequest) (endpoint : string)
| VOnExit (cb : exitCallback).

Definition vreply (c : vcall) : Type :=
  match c with
  | VGet _ _ => res servErr (option Service)
  | VUpsert _ | VUpdate _ | VSetStatus _ _ _ | VSetStatusEndpoint _ _ _ _ | VSetRuntime _ | VDelete _ _ | VAppendHistory _ =>
      res servErr unit
  | VPublish _ _ _ => unit
  | VLatestSuccessful _ _ => res servErr (option string)
  | VRunBackend _ _ => res servErr (option string)
  | VStat _ => bool
  | VMkdirAll _ | VCreate _ | VCopy _ _ => res servErr unit
  | VStoreList _ => res servErr (list string)
  | VStoreGet _ => res servErr string
  | VHTTPGet _ => res servErr (Z * string)
  | VReserve _ _ _ => option nat
  | VReattach _ _ _ => nat
  | VActive _ => option nat
  | VRemove _ _ => unit
  | VIsCurrent _ _ | VFailDeploy _ _ => bool
  | VExit _ _ => option string
  | VResolveEnv _ _ => res servErr (list string)
  | VRtDeploy _ => res servErr string
  | VRtStop _ => res servErr unit
  | VRtRecover => res servErr (list (RecoveredHandle * option string))
  | VWaitReady _ _ => res servErr unit
  | VGoHealth _ _ => unit
  | VOnExit _ => unit
  end.

Abbreviation V := (prog vreply).
Abbreviation invoke c := (perform (reply := vreply) c).

(** [fmt.Errorf("context: %w", err)] on the error of a call. *)
Definition wrapping {A} (context : string) (m : V (res servErr A)) : V (res servErr A) :=
  r ← m; Ret match r with Ok a => Ok a | Err e => Err (SWrap context e) end.

Definition lift {A} (r : res servErr A) : V (res servErr A) := Ret r.
