(* ===== verification/ServingManager.v ===== *)
(** * Model services: artifacts, the manager, the local driver

    Resolving the artifact of a service ([internal/artifact/localresolver.go],
    [pkg/storage/helpers.go], [service_api.go]), the manager and the status sink
    ([pkg/serving/manager.go], [status.go]), and the driver of local processes and
    containers ([pkg/serving/dispatch/localdriver/driver.go]), as programs over the
    calls of [Serving]. *)

From S2P Require Import Prelude Prog Pipeline Serving.
From stdpp Require Import options.
#[local] Open Scope Z_scope.

(** ** Artifacts *)

(** [storage.DownloadDir] *)
Fixpoint downloadObjects (prefix localDir : string) (keys : list string) : V (res servErr unit) :=
  match keys with
  | [] => Ret (Ok tt)
  | key :: keys =>
      let rel := TrimPrefix (TrimPrefix key prefix) "/" in
      let rel := if String.eqb rel "" then filepath_Base key else rel in
      let dest := filepath_Join [localDir; rel] in
      _ ←! invoke (VMkdirAll (filepath_Dir dest));
      content ←! wrapping ("get " +:+ key) (invoke (VStoreGet key));
      _ ←! invoke (VCreate dest);
      _ ←! wrapping ("write " +:+ dest) (invoke (VCopy dest content));
      downloadObjects prefix localDir keys
  end.

Definition DownloadDir (prefix localDir : string) : V (res servErr unit) :=
  keys ←! invoke (VStoreList prefix);
  match keys with
  | [] => Ret (Err (SMsg ("no objects found at prefix " +:+ prefix)))
  | _ => downloadObjects prefix localDir keys
  end.

(** The store is absent, a directory of this host, or remote. *)
Inductive StoreKind : Type := NoStore | LocalStore (root : string) | RemoteStore.

(** The resolver's fields; [lr_URL] is [url.Parse] of the storage URL, its scheme
    and host. *)
Record localResolver := mkResolver {
  lr_outputDir : string; lr_storageURL : string; lr_URL : res servErr (string * string);
  lr_store : StoreKind; lr_liveIdentity : string }.

Definition CacheDirName : string := "artifact-cache".

Section Resolver.

Context (r : localResolver) (projectID : string).

Definition storageBackendMismatch (runID : string) : V bool :=
  rec ← invoke (VRunBackend projectID runID);
  Ret match rec with
      | Ok (Some backend) => (negb (String.eqb backend "") && negb (String.eqb backend (lr_liveIdentity r)))%bool
      | _ => false
      end.

Definition artifactURI (artKey : string) : res servErr string :=
  _ ← check (String.eqb (lr_storageURL r) "")
        (SMsg "artifact URI requires a storage backend (configure storage.url or s3)");
  '(scheme, host) ← lr_URL r;
  if String.eqb scheme "s3" then Ok ("s3://" +:+ host +:+ "/" +:+ artKey)%string
  else if (String.eqb scheme "http" || String.eqb scheme "https")%bool
  then Err (SMsg "remote serving requires s3 storage; HTTP artifact storage is not supported")
  else Err (SMsg ("storage backend " +:+ scheme +:+ " cannot provide artifact URIs for remote serving")).

Definition resolveLocal (runID step artKey : string) : V (res servErr Resolved) :=
  mismatch ← storageBackendMismatch runID;
  if mismatch : bool then Ret (Err (SWrap ("resolve " +:+ artKey) SBackendMismatch))
  else match lr_store r with
  | LocalStore root => Ret (Ok (mkResolved runID (filepath_Join [root; artKey]) "" "" ""))
  | RemoteStore =>
      let dest := filepath_Join [lr_outputDir r; CacheDirName; artKey] in
      present ← invoke (VStat dest);
      if present : bool then Ret (Ok (mkResolved runID dest "" "" ""))
      else
        _ ←! wrapping ("stage local copy of " +:+ artKey) (DownloadDir (artKey +:+ "/") dest);
        Ret (Ok (mkResolved runID dest "" "" ""))
  | NoStore => Ret (Ok (mkResolved runID (filepath_Join [lr_outputDir r; runID; step]) "" "" ""))
  end.

Definition resolveRun (pipeline runRef : string) : V (res servErr string) :=
  if (String.eqb runRef "latest" || String.eqb runRef "")%bool then
    latest ←! wrapping ("lookup latest run for pipeline " +:+ pipeline) (invoke (VLatestSuccessful projectID pipeline));
    match latest with
    | None => Ret (Err (SMsg ("no successful run found for pipeline " +:+ pipeline)))
    | Some id_ => Ret (Ok id_)
    end
  else Ret (Ok runRef).

Definition Resolve (pipeline step artName runRef : string) (target : Target) : V (res servErr Resolved) :=
  runID ←! resolveRun pipeline runRef;
  let artKey := (runID +:+ "/" +:+ step +:+ "/" +:+ artName)%string in
  match target with
  | TargetS3 => Ret (uri ← artifactURI artKey; Ok (mkResolved runID "" uri "" ""))
  | TargetRemote =>
      Ret (resolved ← (if String.prefix "s3://" (lr_storageURL r)
                       then uri ← artifactURI artKey; Ok (mkResolved runID "" uri artKey uri)
                       else Ok (mkResolved runID "" "" artKey ""));
           _ ← check (String.eqb (lr_storageURL r) "") (SMsg "remote artifact delivery requires storage");
           Ok resolved)
  | TargetLocal => resolveLocal runID step artKey
  end.

(** *** Models by URI: [service_api.go] *)

Context (modelDirCfg : string).

(** [Piper.modelDir] *)
Definition modelDir (serviceName : string) : string :=
  if String.eqb modelDirCfg "" then filepath_Join [lr_outputDir r; "models"; serviceName]
  else filepath_Join [modelDirCfg; serviceName].

Definition localPath (dir : string) : Resolved := mkResolved "" dir "" "" "".

Definition resolveModelURI (serviceName uri : string) (target : Target) : V (res servErr Resolved) :=
  if String.prefix "s3://" uri then
    if bool_decide (target = TargetS3 \/ target = TargetRemote) then Ret (Ok (mkResolved "" "" uri "" uri))
    else match lr_store r with
    | NoStore => Ret (Err (SMsg "local serving from s3:// URI requires a storage backend"))
    | _ =>
        let dir := modelDir serviceName in
        _ ←! invoke (VMkdirAll dir);
        let without := TrimPrefix uri "s3://" in
        match str_index slash without with
        | None => Ret (Err (SMsg ("invalid s3 URI: missing key")))
        | Some i =>
            _ ←! wrapping "download s3 model" (DownloadDir (str_drop (S i) without) dir);
            Ret (Ok (localPath dir))
        end
    end
  else if String.prefix "file://" uri then
    if bool_decide (target = TargetRemote) then Ret (Err (SMsg "remote serving cannot access a master-local file URI"))
    else Ret (Ok (localPath (TrimPrefix uri "file://")))
  else if (String.prefix "http://" uri || String.prefix "https://" uri)%bool then
    match target with
    | TargetRemote => Ret (Ok (mkResolved "" "" "" "" uri))
    | TargetS3 => Ret (Err (SMsg "k8s serving from http(s) URI requires an s3:// URI"))
    | TargetLocal =>
        let dir := modelDir serviceName in
        _ ←! invoke (VMkdirAll dir);
        let dest := filepath_Join [dir; filepath_Base (List.hd ""%string (str_split "?"%char uri))] in
        '(status, body) ←! invoke (VHTTPGet uri);
        if ((status <? 200) || (300 <=? status))%bool then Ret (Err (SMsg "download model URI"))
        else
          _ ←! invoke (VCreate dest);
          _ ←! invoke (VCopy dest body);
          Ret (Ok (localPath dir))
    end
  else Ret (Ok (localPath uri)).

Definition resolveServiceModel (svc : ModelService) (target : Target) : V (res servErr (Resolved * string)) :=
  match mr_FromArtifact (sp_Model (ms_Spec svc)) with
  | Some ref =>
      resolved ←! wrapping "resolve artifact" (Resolve (ar_Pipeline ref) (ar_Step ref) (ar_Artifact ref) (ar_Run ref) target);
      Ret (Ok (resolved, ar_Step ref +:+ "/" +:+ ar_Artifact ref)%string)
  | None =>
      let uri := TrimSpace (mr_FromURI (sp_Model (ms_Spec svc))) in
      if String.eqb uri "" then Ret (Err (SMsg "spec.model.from_artifact or spec.model.from_uri is required"))
      else
        resolved ←! resolveModelURI (m_Name (ms_Metadata svc)) uri target;
        Ret (Ok (resolved, uri))
  end.

End Resolver.

(** ** The status sink and the manager *)

(** [StatusSink.Update] *)
Definition UpdateStatus (projectID runtimeID name status endpoint : string) : V (res servErr unit) :=
  if String.eqb projectID "" then Ret (Err SProject)
  else
    svc ←! wrapping "serving: get status target" (invoke (VGet projectID name));
    match svc with
    | None => Ret (Err (SNotFound name))
    | Some svc =>
        if (negb (String.eqb runtimeID "") && negb (String.eqb (sv_RuntimeID svc) "") &&
            negb (String.eqb (sv_RuntimeID svc) runtimeID))%bool
        then Ret (Err (SWrongRuntime name (sv_RuntimeID svc) runtimeID))
        else
          let previousStatus := sv_Status svc in
          let status := if String.eqb status "" then previousStatus else status in
          _ ←! invoke (VSetStatusEndpoint projectID name status endpoint);
          if String.eqb status previousStatus then Ret (Ok tt)
          else
            _ ← invoke (VPublish projectID "service.status" [("name", name); ("status", status)]);
            Ret (Ok tt)
    end.

(** [serving.Driver]: the runtime that executes services. *)
Class Driver := {
  ArtifactTarget : Target;
  driverDeploy : ModelService -> Resolved -> string -> V (res servErr Service);
  driverStop : Service -> V (res servErr unit) }.

Section Manager.

Context `{Driver}.
(** [Manager.runtime]; the identity of the caller in its context. *)
Context (runtime : string).

Definition archivePrevious (existing : res servErr (option Service)) : V (res servErr unit) :=
  match existing with
  | Ok (Some existing) => wrapping "archive previous deployment" (invoke (VAppendHistory existing))
  | _ => Ret (Ok tt)
  end.

Definition Deploy (identity projectID : string) (svc : ModelService) (art : Resolved) (yamlStr : string) : V (res servErr unit) :=
  _ ←! wrapping "serving" (lift (ValidateService svc));
  _ ←! wrapping "serving" (lift (ValidateDirectPlacement svc runtime));
  if String.eqb projectID "" then Ret (Err SProject)
  else
    let name := m_Name (ms_Metadata svc) in
    let svc := withProjectID projectID svc in
    let label := artifactLabel svc in
    let rec := mkService projectID name (rs_RunID art) label StatusStarting "" "" 0 "" yamlStr identity 0 0 in
    existing ← invoke (VGet projectID name);
    _ ←! archivePrevious existing;
    _ ←! invoke (VUpsert rec);
    deployed ← driverDeploy svc art yamlStr;
    match deployed with
    | Err err =>
        marked ← invoke (VSetStatus projectID name StatusFailed);
        Ret match marked with Err setErr => Err (SMarkFailed err setErr) | Ok _ => Err err end
    | Ok d =>
        _ ←! invoke (VSetRuntime (mkService projectID name (sv_RunID d) (sv_Artifact d) (sv_Status d) (sv_Endpoint d)
               (sv_Namespace d) (sv_PID d) (sv_RuntimeID d) (sv_YAML d) (sv_CreatedBy d) (sv_CreatedAt d) (sv_UpdatedAt d)));
        _ ← invoke (VPublish projectID "service.deployed" [("name", name); ("artifact", label)]);
        Ret (Ok tt)
    end.

Definition Stop (projectID name : string) : V (res servErr unit) :=
  if String.eqb projectID "" then Ret (Err SProject)
  else
    svc ←! wrapping "get service" (invoke (VGet projectID name));
    match svc with
    | None => Ret (Err (SMissing name))
    | Some svc =>
        if (String.eqb (sv_Status svc) StatusStopped || String.eqb (sv_Status svc) StatusStopping)%bool then Ret (Ok tt)
        else
          _ ←! wrapping "set service stopping" (invoke (VSetStatus projectID name StatusStopping));
          stopped ← driverStop svc;
          match stopped with
          | Err err =>
              restored ← invoke (VSetStatus projectID name (sv_Status svc));
              Ret match restored with
                  | Err restoreErr => Err (SRestore err restoreErr)
                  | Ok _ => Err (SWrap "stop service" err)
                  end
          | Ok _ => wrapping "stop service: mark stopped" (invoke (VSetStatus projectID name StatusStopped))
          end
    end.

Definition Replace (identity projectID : string) (svc : ModelService) (art : Resolved) (yamlStr : string) : V (res servErr Service) :=
  let name := m_Name (ms_Metadata svc) in
  existing ←! wrapping "get existing service" (invoke (VGet projectID name));
  _ ←! match existing with Some _ => Stop projectID name | None => Ret (Ok tt) end;
  _ ←! Deploy identity projectID svc art yamlStr;
  rec ←! wrapping "get deployed service" (invoke (VGet projectID name));
  match rec with
  | None => Ret (Err (SNotPersisted name))
  | Some rec => Ret (Ok rec)
  end.

Definition Delete (projectID name : string) : V (res servErr unit) :=
  if String.eqb projectID "" then Ret (Err SProject)
  else
    svc ←! wrapping "serving: get service" (invoke (VGet projectID name));
    match svc with
    | None => Ret (Err (SNotFound name))
    | Some svc =>
        _ ←! (if (negb (String.eqb (sv_Status svc) StatusStopped) && negb (String.eqb (sv_Status svc) StatusStopping))%bool
              then wrapping "serving: stop before delete" (Stop projectID name) else Ret (Ok tt));
        _ ←! wrapping "serving: delete record" (invoke (VDelete projectID name));
        _ ← invoke (VPublish projectID "service.deleted" [("name", name)]);
        Ret (Ok tt)
    end.

Definition RestartModel (identity projectID : string) (svc : ModelService) (art : Resolved) (yamlStr : string) : V (res servErr unit) :=
  if String.eqb projectID "" then Ret (Err SProject)
  else _ ←! Replace identity projectID svc art yamlStr; Ret (Ok tt).

Definition SetYAML (projectID name yaml : string) : V (res servErr unit) :=
  if String.eqb projectID "" then Ret (Err SProject)
  else
    svc ← invoke (VGet projectID name);
    match svc with
    | Ok (Some s) =>
        invoke (VUpdate (mkService (sv_ProjectID s) (sv_Name s) (sv_RunID s) (sv_Artifact s) (sv_Status s) (sv_Endpoint s)
          (sv_Namespace s) (sv_PID s) (sv_RuntimeID s) yaml (sv_CreatedBy s) (sv_CreatedAt s) (sv_UpdatedAt s)))
    | _ => Ret (Err (SMissing name))
    end.

(** *** [service_api.go] *)

Context (decode : string -> option ModelService) (r : localResolver) (modelDirCfg : string).

Definition deployService (identity projectID yamlBytes : string) : V (res servErr Service) :=
  svc ←! lift (ParseService decode yamlBytes);
  '(resolved, _) ←! resolveServiceModel r projectID modelDirCfg svc ArtifactTarget;
  rec ← Replace identity projectID svc resolved yamlBytes;
  match rec with
  | Err err =>
      _ ← invoke (VSetStatus projectID (m_Name (ms_Metadata svc)) StatusFailed);
      Ret (Err (SWrap "deploy service" err))
  | Ok rec => Ret (Ok rec)
  end.

Definition DeployService (identity projectID yamlBytes : string) : V (res servErr Service) :=
  if String.eqb projectID "" then Ret (Err SProject) else deployService identity projectID yamlBytes.

Definition StopService (projectID name : string) : V (res servErr unit) := Stop projectID name.
Definition DeleteService (projectID name : string) : V (res servErr unit) := Delete projectID name.

Definition RestartService (identity projectID name : string) : V (res servErr unit) :=
  rec ← invoke (VGet projectID name);
  match rec with
  | Ok (Some rec) =>
      if String.eqb (sv_YAML rec) "" then Ret (Err (SNoYAML name))
      else _ ←! DeployService identity projectID (sv_YAML rec); Ret (Ok tt)
  | _ => Ret (Err (SMissing name))
  end.

End Manager.

(** ** The local driver *)

Section LocalDriver.

(** The fields of its [Config]. *)
Record LocalConfig := mkLocalConfig {
  lc_RuntimeID : string; lc_docker : bool; lc_EnvResolver : bool; lc_HealthCheckTimeout : Z }.

Context (cfg : LocalConfig) (Itoa : Z -> string).

Definition Infrastructure : string := if lc_docker cfg then "docker" else "baremetal".
Definition ContainerModelDir : string := "/piper/model".

Definition serviceKey (projectID name : string) : string := (projectID +:+ ":" +:+ name)%string.
Definition runtimeName (projectID name : string) : string :=
  if String.eqb projectID "" then name else (projectID +:+ "__" +:+ name)%string.

(** [cfg.ReportStatus] of the composition root, its error logged. *)
Definition report (projectID name status endpoint : string) : V unit :=
  _ ← UpdateStatus projectID (lc_RuntimeID cfg) name status endpoint; Ret tt.

Definition plainEnv (env : gmap string string) (e : EnvVar) : gmap string string :=
  if (match ev_ValueFrom e with None => true | Some _ => false end &&
      negb (String.eqb (ev_Name e) "") && negb (String.eqb (ev_Value e) ""))%bool
  then <[ev_Name e := ev_Value e]> env else env.

Definition resolvedPair (env : gmap string string) (kv : string) : gmap string string :=
  match str_index "="%char kv with
  | Some (S i) => <[str_take (S i) kv := str_drop (S (S i)) kv]> env
  | _ => env
  end.

(** [None] when there is nothing to resolve. *)
Definition resolveEnv (projectID : string) (env : list EnvVar) : V (res servErr (list string)) :=
  if (lc_EnvResolver cfg && negb (Nat.eqb (List.length env) 0))%bool
  then wrapping "serving env resolution" (invoke (VResolveEnv projectID env)) else Ret (Ok []).

Definition deployRequest (spec : ModelService) (art : Resolved) (resolvedEnv : list string) (gen : nat) : DeployRequest :=
  let projectID := m_ProjectID (ms_Metadata spec) in
  let name := m_Name (ms_Metadata spec) in
  let rt := sp_Run (ms_Spec spec) in
  let drv := sp_Driver (ms_Spec spec) in
  let modelEnvDir := if lc_docker cfg then ContainerModelDir else rs_LocalPath art in
  let base : gmap string string := <["PIPER_SERVICE_NAME" := name]> (<["PIPER_MODEL_DIR" := modelEnvDir]> ∅) in
  mkDeployRequest projectID name (runtimeName projectID name)
    match dr_Docker drv with Some k => d_Image k | None => "" end (dr_Docker drv)
    (sr_Command rt) (foldl resolvedPair (foldl plainEnv base (o_Env (sp_Options (ms_Spec spec)))) resolvedEnv)
    (rs_LocalPath art) (sr_Port rt) (sr_HealthPath rt)
    match dr_Process drv with Some p => p_GPUs p | None => "" end
    (serviceKey projectID name) gen.

Definition localDeploy (spec : ModelService) (art : Resolved) (yamlStr : string) : V (res servErr Service) :=
  let projectID := m_ProjectID (ms_Metadata spec) in
  let name := m_Name (ms_Metadata spec) in
  let rt := sp_Run (ms_Spec spec) in
  let key := serviceKey projectID name in
  _ ←! lift (check (Nat.eqb (List.length (sr_Command rt)) 0) (SMsg "localdriver: run.command must not be empty"));
  _ ←! lift (check (sr_Port rt =? 0) (SMsg "localdriver: run.port must be set"));
  _ ←! wrapping "localdriver" (lift (ValidateDirectPlacement spec Infrastructure));
  slot ← invoke (VReserve key projectID name);
  match slot with
  | None => Ret (Err (SActive name))
  | Some gen =>
      env ← resolveEnv projectID (o_Env (sp_Options (ms_Spec spec)));
      match env with
      | Err err => _ ← invoke (VRemove key gen); Ret (Err err)
      | Ok env =>
          let req := deployRequest spec art env gen in
          deployed ← invoke (VRtDeploy req);
          match deployed with
          | Err err => _ ← invoke (VRemove key gen); Ret (Err err)
          | Ok endpoint =>
              _ ← invoke (VGoHealth req endpoint);
              Ret (Ok (mkService projectID name "" (artifactLabel spec) StatusStarting endpoint "" 0 (lc_RuntimeID cfg) yamlStr "" 0 0))
          end
      end
  end.

(** The health-check goroutine of a deployment. *)
Definition healthCheck (req : DeployRequest) (endpoint : string) : V unit :=
  let healthPath := if String.eqb (dq_HealthPath req) "" then "/"%string else dq_HealthPath req in
  let timeout := if lc_HealthCheckTimeout cfg <=? 0 then 30 * time_Second else lc_HealthCheckTimeout cfg in
  ready ← invoke (VWaitReady (endpoint +:+ healthPath) timeout);
  match ready with
  | Err _ =>
      failed ← invoke (VFailDeploy (dq_Key req) (dq_Gen req));
      if failed : bool then
        stopped ← invoke (VRtStop (dq_RuntimeName req));
        match stopped with
        | Err _ => report (dq_ProjectID req) (dq_Name req) StatusFailed ""
        | Ok _ => Ret tt
        end
      else Ret tt
  | Ok _ =>
      current ← invoke (VIsCurrent (dq_Key req) (dq_Gen req));
      if current : bool then report (dq_ProjectID req) (dq_Name req) StatusRunning endpoint else Ret tt
  end.

(** The callbacks for an exit: [OnExit] of [Deploy], and the one of [Recover]. *)
Definition onExit (cb : exitCallback) (status : string) : V unit :=
  granted ← invoke (VExit cb status);
  match granted, cb with
  | Some status, (ExitOfDeploy projectID name _ _ | ExitOfRecovery projectID name _ _) => report projectID name status ""
  | None, _ => Ret tt
  end.

Definition localStop (svc : Service) : V (res servErr unit) :=
  let key := serviceKey (sv_ProjectID svc) (sv_Name svc) in
  active ← invoke (VActive key);
  _ ←! invoke (VRtStop (runtimeName (sv_ProjectID svc) (sv_Name svc)));
  match active with
  | Some gen => _ ← invoke (VRemove key gen); Ret (Ok tt)
  | None => Ret (Ok tt)
  end.

(** The runtime's [Recover] calls [onRecovered] for each workload that runs and
    [onTerminal], with a status, for each that has ended. *)
Fixpoint recoverEach (l : list (RecoveredHandle * option string)) : V unit :=
  match l with
  | [] => Ret tt
  | (h, ended) :: l =>
      let key := serviceKey (rh_ProjectID h) (rh_Name h) in
      _ ← match ended with
          | None =>
              gen ← invoke (VReattach key (rh_ProjectID h) (rh_Name h));
              _ ← report (rh_ProjectID h) (rh_Name h) StatusRunning ("http://127.0.0.1:" +:+ Itoa (rh_Port h));
              invoke (VOnExit (ExitOfRecovery (rh_ProjectID h) (rh_Name h) key gen))
          | Some status =>
              active ← invoke (VActive key);
              match active with
              | None => report (rh_ProjectID h) (rh_Name h) status ""
              | Some _ => Ret tt
              end
          end;
      recoverEach l
  end.

Definition Recover : V (res servErr unit) :=
  l ←! invoke VRtRecover;
  _ ← recoverEach l; Ret (Ok tt).

#[export] Instance localDriver : Driver := {
  ArtifactTarget := TargetLocal;
  driverDeploy := localDeploy;
  driverStop := localStop }.

End LocalDriver.
