(* ===== verification/ServingWorld.v ===== *)
(** * Model services: tables, slots, interleavings

    What each call does to the tables ([internal/store/sqlite/serving.go]) and to
    the local driver's slots ([localdriver/driver.go]), and the system of requests,
    health checks, exits of workloads, ticks of the clock, purges and restarts of
    the process. *)

From S2P Require Import Prelude Prog Pipeline Serving ServingManager.
From stdpp Require Import options.
#[local] Open Scope Z_scope.

(** ** The statements *)

Abbreviation Rows := (gmap skey Service).

Definition terminal (status : string) : bool := (String.eqb status StatusStopped || String.eqb status StatusFailed)%bool.

Definition setRow (f : Service -> Service) (k : skey) (t : Rows) : Rows := alter f k t.

(** [Create]: the project and the name are the primary key. *)
Definition createRow (s : Service) (now : Z) (t : Rows) : option Rows :=
  match t !! serviceRow s with
  | Some _ => None
  | None => Some (<[serviceRow s := mkService (sv_ProjectID s) (sv_Name s) (sv_RunID s) (sv_Artifact s) (sv_Status s) (sv_Endpoint s)
                     (sv_Namespace s) (sv_PID s) (sv_RuntimeID s) (sv_YAML s) (sv_CreatedBy s) now now]> t)
  end.

Definition updateRow (s : Service) (now : Z) : Rows -> Rows :=
  setRow (fun old => mkService (sv_ProjectID old) (sv_Name old) (sv_RunID s) (sv_Artifact s) (sv_Status s) (sv_Endpoint s)
           (sv_Namespace s) (sv_PID s) (sv_RuntimeID s) (sv_YAML s) (sv_CreatedBy old) (sv_CreatedAt old) now) (serviceRow s).

(** [ON CONFLICT] keeps the row's [created_at]. *)
Definition upsertRow (s : Service) (now : Z) (t : Rows) : Rows :=
  let created := match t !! serviceRow s with Some old => sv_CreatedAt old | None => now end in
  <[serviceRow s := mkService (sv_ProjectID s) (sv_Name s) (sv_RunID s) (sv_Artifact s) (sv_Status s) (sv_Endpoint s)
      (sv_Namespace s) (sv_PID s) (sv_RuntimeID s) (sv_YAML s) (sv_CreatedBy s) created now]> t.

Definition withStatus (status : string) (now : Z) (s : Service) : Service :=
  mkService (sv_ProjectID s) (sv_Name s) (sv_RunID s) (sv_Artifact s) status (sv_Endpoint s)
    (sv_Namespace s) (sv_PID s) (sv_RuntimeID s) (sv_YAML s) (sv_CreatedBy s) (sv_CreatedAt s) now.

Definition withStatusEndpoint (status endpoint : string) (now : Z) (s : Service) : Service :=
  mkService (sv_ProjectID s) (sv_Name s) (sv_RunID s) (sv_Artifact s) status
    (if terminal status then "" else if negb (String.eqb endpoint "") then endpoint else sv_Endpoint s)
    (sv_Namespace s) (if terminal status then 0 else sv_PID s) (sv_RuntimeID s) (sv_YAML s) (sv_CreatedBy s) (sv_CreatedAt s) now.

Definition withRuntime (d : Service) (now : Z) (s : Service) : Service :=
  mkService (sv_ProjectID s) (sv_Name s) (sv_RunID s) (sv_Artifact s) (sv_Status s)
    (if terminal (sv_Status s) then "" else sv_Endpoint d)
    (sv_Namespace d) (if terminal (sv_Status s) then 0 else sv_PID d) (sv_RuntimeID d) (sv_YAML s) (sv_CreatedBy s) (sv_CreatedAt s) now.

(** [appendServiceHistory] *)
Definition historyOf (s : Service) (now : Z) : ServiceHistory :=
  mkHistory (sv_ProjectID s) (sv_Name s) (sv_RunID s) (sv_Artifact s) (sv_Status s) (sv_Endpoint s) (sv_Namespace s) (sv_PID s)
    (sv_YAML s) (sv_CreatedBy s) (sv_CreatedAt s) now.

(** [Delete] archives the row in the transaction that removes it. *)
Definition deleteRow (k : skey) (now : Z) (t : Rows) (h : list ServiceHistory) : Rows * list ServiceHistory :=
  (delete k t, match t !! k with Some s => historyOf s now :: h | None => h end).

(** [List], newest first; limit 0 is none. *)
Definition newer (a b : Service) : Prop := sv_CreatedAt b <= sv_CreatedAt a.
#[export] Instance newer_dec : RelDecision newer.
Proof. intros a b. unfold newer. apply _. Defined.
Definition page {A} (limit offset : nat) (l : list A) : list A :=
  if Nat.ltb 0 limit then take limit (drop offset l) else l.
Definition listRows (projectID : string) (limit offset : nat) (t : Rows) : list Service :=
  page limit offset (merge_sort newer (List.filter (fun s => String.eqb (sv_ProjectID s) projectID) (map_to_list t).*2)).
Definition countRows (projectID : string) (t : Rows) : nat :=
  List.length (List.filter (fun s => String.eqb (sv_ProjectID s) projectID) (map_to_list t).*2).

Definition stoppedLater (a b : ServiceHistory) : Prop := sh_StoppedAt b <= sh_StoppedAt a.
#[export] Instance stoppedLater_dec : RelDecision stoppedLater.
Proof. intros a b. unfold stoppedLater. apply _. Defined.
Definition listHistory (projectID : string) (limit offset : nat) (h : list ServiceHistory) : list ServiceHistory :=
  page limit offset (merge_sort stoppedLater (List.filter (fun s => String.eqb (sh_ProjectID s) projectID) h)).
Definition countHistory (projectID : string) (h : list ServiceHistory) : nat :=
  List.length (List.filter (fun s => String.eqb (sh_ProjectID s) projectID) h).
Definition purgeHistory (cutoff : Z) (h : list ServiceHistory) : list ServiceHistory * nat :=
  let kept := List.filter (fun s => negb (sh_StoppedAt s <? cutoff)) h in
  (kept, (List.length h - List.length kept)%nat).

(** ** The world *)

Record activeService := mkActive { as_projectID : string; as_name : string; as_gen : nat; as_exitAs : string }.

(** A decision of the driver on behalf of a generation. *)
Inductive decision : Type := DRunning | DExit.

(** A probe of a workload's health path, and a request to the runtime to stop a
    workload, with what they answered. *)
Inductive rtCall : Type :=
| RtReady (url : string) (timeout : Z) (ready : bool)
| RtStop (runtimeName : string) (done : bool).

Record SWorld := mkSWorld {
  sw_rows : Rows;
  sw_history : list ServiceHistory;      (* newest first *)
  sw_now : Z;
  sw_files : gmap string string;
  sw_dirs : gset string;
  sw_slots : gmap string activeService;  (* Driver.services *)
  sw_nextGen : nat;
  sw_callbacks : list exitCallback;      (* what the runtime may call *)
  sw_events : list (string * string * list (string * string));
  (* what was observed: every deployment that had a row, decisions of this
     process newest first, what this process asked of the workloads, newest first *)
  sw_versions : list Service;
  sw_decisions : list (nat * decision);
  sw_calls : list rtCall }.

Definition sw_setRows t w := mkSWorld t (sw_history w) (sw_now w) (sw_files w) (sw_dirs w) (sw_slots w) (sw_nextGen w) (sw_callbacks w) (sw_events w) (sw_versions w) (sw_decisions w) (sw_calls w).
Definition sw_setHistory h w := mkSWorld (sw_rows w) h (sw_now w) (sw_files w) (sw_dirs w) (sw_slots w) (sw_nextGen w) (sw_callbacks w) (sw_events w) (sw_versions w) (sw_decisions w) (sw_calls w).
Definition sw_setNow t w := mkSWorld (sw_rows w) (sw_history w) t (sw_files w) (sw_dirs w) (sw_slots w) (sw_nextGen w) (sw_callbacks w) (sw_events w) (sw_versions w) (sw_decisions w) (sw_calls w).
Definition sw_setFiles f d w := mkSWorld (sw_rows w) (sw_history w) (sw_now w) f d (sw_slots w) (sw_nextGen w) (sw_callbacks w) (sw_events w) (sw_versions w) (sw_decisions w) (sw_calls w).
Definition sw_setSlots m w := mkSWorld (sw_rows w) (sw_history w) (sw_now w) (sw_files w) (sw_dirs w) m (sw_nextGen w) (sw_callbacks w) (sw_events w) (sw_versions w) (sw_decisions w) (sw_calls w).
Definition sw_setNextGen n w := mkSWorld (sw_rows w) (sw_history w) (sw_now w) (sw_files w) (sw_dirs w) (sw_slots w) n (sw_callbacks w) (sw_events w) (sw_versions w) (sw_decisions w) (sw_calls w).
Definition sw_setCallbacks l w := mkSWorld (sw_rows w) (sw_history w) (sw_now w) (sw_files w) (sw_dirs w) (sw_slots w) (sw_nextGen w) l (sw_events w) (sw_versions w) (sw_decisions w) (sw_calls w).
Definition sw_setEvents l w := mkSWorld (sw_rows w) (sw_history w) (sw_now w) (sw_files w) (sw_dirs w) (sw_slots w) (sw_nextGen w) (sw_callbacks w) l (sw_versions w) (sw_decisions w) (sw_calls w).
Definition sw_setVersions l w := mkSWorld (sw_rows w) (sw_history w) (sw_now w) (sw_files w) (sw_dirs w) (sw_slots w) (sw_nextGen w) (sw_callbacks w) (sw_events w) l (sw_decisions w) (sw_calls w).
Definition sw_setDecisions l w := mkSWorld (sw_rows w) (sw_history w) (sw_now w) (sw_files w) (sw_dirs w) (sw_slots w) (sw_nextGen w) (sw_callbacks w) (sw_events w) (sw_versions w) l (sw_calls w).
Definition sw_setCalls l w := mkSWorld (sw_rows w) (sw_history w) (sw_now w) (sw_files w) (sw_dirs w) (sw_slots w) (sw_nextGen w) (sw_callbacks w) (sw_events w) (sw_versions w) (sw_decisions w) l.

(** How a call ends: as it should; it fails without effect, or although it had
    its effect; or what the world outside answers. *)
Inductive vchoice : Type :=
| VDone
| VFailed (how : attempt) (msg : string)
| VOptString (r : res servErr (option string))
| VString (r : res servErr string)
| VStrings (r : res servErr (list string))
| VUnit (r : res servErr unit)
| VHTTP (r : res servErr (Z * string))
| VPartial (content msg : string)
| VHandles (r : res servErr (list (RecoveredHandle * option string))).

Section World.

Context (cfg : LocalConfig) (Itoa : Z -> string).

Abbreviation outcome R := (option (R * SWorld * list (V unit))).
Definition external {R} (r : R) (w : SWorld) : outcome R := Some (r, w, []).

Definition dbWrite (i : vchoice) (w after : SWorld) : outcome (res servErr unit) :=
  match i with
  | VDone => external (Ok tt) after
  | VFailed AttemptApplied msg => external (Err (SMsg msg)) after
  | VFailed _ msg => external (Err (SMsg msg)) w
  | _ => None
  end.

(** *** The driver's locked sections *)

Definition current (key : string) (gen : nat) (w : SWorld) : option activeService :=
  match sw_slots w !! key with
  | Some a => if Nat.eqb (as_gen a) gen then Some a else None
  | None => None
  end.

Definition newSlot (key projectID name : string) (w : SWorld) : SWorld :=
  let gen := S (sw_nextGen w) in
  sw_setSlots (<[key := mkActive projectID name gen ""]> (sw_slots w)) (sw_setNextGen gen w).

Definition removeService (key : string) (gen : nat) (w : SWorld) : SWorld :=
  match current key gen w with Some _ => sw_setSlots (delete key (sw_slots w)) w | None => w end.

Definition failDeploy (key : string) (gen : nat) (w : SWorld) : bool * SWorld :=
  match current key gen w with
  | Some a => (true, sw_setSlots (<[key := mkActive (as_projectID a) (as_name a) (as_gen a) StatusFailed]> (sw_slots w)) w)
  | None => (false, w)
  end.

(** The locked section of an exit callback: the status to report, when its
    generation is still current. *)
Definition exitSection (cb : exitCallback) (status : string) (w : SWorld) : option string * SWorld :=
  match cb with
  | ExitOfDeploy _ _ key gen =>
      match current key gen w with
      | Some a => (Some (if String.eqb (as_exitAs a) "" then status else as_exitAs a), sw_setSlots (delete key (sw_slots w)) w)
      | None => (None, w)
      end
  | ExitOfRecovery _ _ key gen =>
      match current key gen w with
      | Some _ => (Some status, sw_setSlots (delete key (sw_slots w)) w)
      | None => (None, w)
      end
  end.

Definition genOf (cb : exitCallback) : nat :=
  match cb with ExitOfDeploy _ _ _ g | ExitOfRecovery _ _ _ g => g end.

(** A directory and those above it. *)
Definition ancestors (p : string) : list string :=
  let parts := str_split slash p in
  map (fun k => str_join slash (take k parts)) (seq 1 (List.length parts)).

(** Workloads end as stopped or failed. *)
Definition ended (h : RecoveredHandle * option string) : bool :=
  match h.2 with Some status => terminal status | None => true end.

Definition decided (gen : nat) (d : decision) (w : SWorld) : SWorld := sw_setDecisions ((gen, d) :: sw_decisions w) w.

Definition handle (c : vcall) (tid : nat) (i : vchoice) (w : SWorld) : outcome (vreply c) :=
  match c as c return outcome (vreply c) with
  | VGet p n =>
      match i with
      | VDone => external (Ok (sw_rows w !! (p, n))) w
      | VFailed _ msg => external (Err (SMsg msg)) w
      | _ => None
      end
  | VUpsert s =>
      dbWrite i w (sw_setVersions (s :: sw_versions w) (sw_setRows (upsertRow s (sw_now w) (sw_rows w)) w))
  | VUpdate s => dbWrite i w (sw_setRows (updateRow s (sw_now w) (sw_rows w)) w)
  | VSetStatus p n st => dbWrite i w (sw_setRows (setRow (withStatus st (sw_now w)) (p, n) (sw_rows w)) w)
  | VSetStatusEndpoint p n st ep =>
      dbWrite i w (sw_setRows (setRow (withStatusEndpoint st ep (sw_now w)) (p, n) (sw_rows w)) w)
  | VSetRuntime d => dbWrite i w (sw_setRows (setRow (withRuntime d (sw_now w)) (serviceRow d) (sw_rows w)) w)
  | VDelete p n =>
      let '(t, h) := deleteRow (p, n) (sw_now w) (sw_rows w) (sw_history w) in
      dbWrite i w (sw_setHistory h (sw_setRows t w))
  | VAppendHistory s => dbWrite i w (sw_setHistory (historyOf s (sw_now w) :: sw_history w) w)
  | VPublish p t f => external tt (sw_setEvents (sw_events w ++ [(p, t, f)]) w)
  | VLatestSuccessful _ _ => match i with VOptString r => external r w | _ => None end
  | VRunBackend _ _ => match i with VOptString r => external r w | _ => None end
  | VStat p => external (bool_decide (is_Some (sw_files w !! p) \/ p ∈ sw_dirs w)) w
  | VMkdirAll p =>
      match i with
      | VDone => external (Ok tt) (sw_setFiles (sw_files w) (list_to_set (ancestors p) ∪ sw_dirs w) w)
      | VFailed _ msg => external (Err (SMsg msg)) w
      | _ => None
      end
  | VStoreList _ => match i with VStrings r => external r w | _ => None end
  | VStoreGet _ => match i with VString r => external r w | _ => None end
  | VCreate p =>
      match i with
      | VDone => external (Ok tt) (sw_setFiles (<[p := ""%string]> (sw_files w)) (sw_dirs w) w)
      | VFailed _ msg => external (Err (SMsg msg)) w
      | _ => None
      end
  | VCopy p content =>
      match i with
      | VDone => external (Ok tt) (sw_setFiles (<[p := content]> (sw_files w)) (sw_dirs w) w)
      | VPartial part msg => external (Err (SMsg msg)) (sw_setFiles (<[p := part]> (sw_files w)) (sw_dirs w) w)
      | _ => None
      end
  | VHTTPGet _ => match i with VHTTP r => external r w | _ => None end
  | VReserve key p n =>
      match sw_slots w !! key with
      | Some _ => external None w
      | None => external (Some (S (sw_nextGen w))) (newSlot key p n w)
      end
  | VReattach key p n =>
      external (S (sw_nextGen w)) (decided (S (sw_nextGen w)) DRunning (newSlot key p n w))
  | VActive key => external (as_gen <$> sw_slots w !! key) w
  | VRemove key gen => external tt (removeService key gen w)
  | VIsCurrent key gen =>
      match current key gen w with
      | Some _ => external true (decided gen DRunning w)
      | None => external false w
      end
  | VFailDeploy key gen => let '(b, w') := failDeploy key gen w in external b w'
  | VExit cb status =>
      match exitSection cb status w with
      | (Some st, w') => external (Some st) (decided (genOf cb) DExit w')
      | (None, w') => external None w'
      end
  | VResolveEnv _ _ => match i with VStrings r => external r w | _ => None end
  | VRtDeploy req =>
      match i with
      | VString r =>
          external r (sw_setCallbacks (ExitOfDeploy (dq_ProjectID req) (dq_Name req) (dq_Key req) (dq_Gen req) :: sw_callbacks w) w)
      | _ => None
      end
  | VRtStop name =>
      match i with VUnit r => external r (sw_setCalls (RtStop name (is_ok r) :: sw_calls w) w) | _ => None end
  | VRtRecover =>
      match i with
      | VHandles (Ok l) => if forallb ended l then external (Ok l) w else None
      | VHandles r => external r w
      | _ => None
      end
  | VWaitReady url timeout =>
      match i with VUnit r => external r (sw_setCalls (RtReady url timeout (is_ok r) :: sw_calls w) w) | _ => None end
  | VGoHealth req endpoint => Some (tt, w, [healthCheck cfg req endpoint])
  | VOnExit cb => external tt (sw_setCallbacks (cb :: sw_callbacks w) w)
  end.

(** ** The system *)

Context (runtime : string) (decode : string -> option ModelService) (r : localResolver) (modelDirCfg : string).

Inductive request : Type :=
| RDeploy (identity projectID yaml : string)
| RRestart (identity projectID name : string)
| RStop (projectID name : string)
| RDelete (projectID name : string).

Definition ignore {A} (m : V A) : V unit := _ ← m; Ret tt.

#[local] Instance driver : Driver := localDriver cfg.

Definition program (q : request) : V unit :=
  match q with
  | RDeploy a p y => ignore (DeployService runtime decode r modelDirCfg a p y)
  | RRestart a p n => ignore (RestartService runtime decode r modelDirCfg a p n)
  | RStop p n => ignore (StopService p n)
  | RDelete p n => ignore (DeleteService p n)
  end.

(** A call of a thread; a request; the next request of thread 0, which serves
    requests one after another; an exit that the runtime reports, to any callback
    it was ever given; time; a purge; a restart of the process, which keeps the
    tables and files. *)
Inductive op : Type :=
| OThread (tid : nat) (i : vchoice)
| ORequest (q : request)
| ONext (q : request)
| OExit (j : nat) (status : string)
| OTick (d : Z)
| OPurge (cutoff : Z)
| ORestart.

Abbreviation sys := (SWorld * list (V unit))%type.

Definition restarted (w : SWorld) : SWorld :=
  mkSWorld (sw_rows w) (sw_history w) (sw_now w) (sw_files w) (sw_dirs w) ∅ 0 [] [] (sw_versions w) [] [].

Definition step (o : op) (s : sys) : option sys :=
  match o with
  | OThread tid i => thread_step SWorld vchoice handle tid i s
  | ORequest q => Some (s.1, s.2 ++ [program q])
  | ONext q =>
      match s.2 !! 0%nat with
      | Some (Ret _) => Some (s.1, <[0%nat := program q]> s.2)
      | _ => None
      end
  | OExit j status =>
      cb ← sw_callbacks s.1 !! j;
      if terminal status then Some (s.1, s.2 ++ [onExit cfg cb status]) else None
  | OTick d => if 0 <=? d then Some (sw_setNow (sw_now s.1 + d) s.1, s.2) else None
  | OPurge cutoff => Some (sw_setHistory (purgeHistory cutoff (sw_history s.1)).1 s.1, s.2)
  | ORestart => Some (restarted s.1, [Ret tt; ignore (Recover cfg Itoa)])
  end.

Fixpoint exec (ops : list op) (s : sys) : option sys :=
  match ops with
  | [] => Some s
  | o :: ops => s' ← step o s; exec ops s'
  end.

End World.

(** A new installation. *)
Definition start (now : Z) : SWorld * list (V unit) :=
  (mkSWorld ∅ [] now ∅ ∅ ∅ 0 [] [] [] [] [], [Ret tt]).
