(* ===== verification/ServingSafety.v ===== *)
(** * Model services: safety in every interleaving

    For every interleaving of requests, health checks, exits, failures and
    restarts of the process: nothing is reported for a generation after its
    exit. *)

From S2P Require Import Prelude Prog Pipeline Serving ServingManager ServingWorld.
From stdpp Require Import options.
#[local] Open Scope Z_scope.
#[local] Set Default Proof Using "Type*".

Lemma write_inv i w after r w' new : dbWrite i w after = Some (r, w', new) -> new = [] /\ (w' = w \/ w' = after).
Proof. unfold dbWrite, external. intros H. repeat case_match; simplify_eq; auto. Qed.

Lemma statement_ok i w after u w' new : dbWrite i w after = Some (Ok u, w', new) -> w' = after.
Proof. unfold dbWrite, external. intros H. repeat case_match; by simplify_eq. Qed.

Lemma current_Some key gen w a : current key gen w = Some a -> sw_slots w !! key = Some a /\ as_gen a = gen.
Proof. unfold current. intros H. repeat case_match; simplify_eq. split; [done|]. by apply Nat.eqb_eq. Qed.

Lemma failDeploy_inv key gen w b w' : failDeploy key gen w = (b, w') ->
  w' = w \/ exists a, sw_slots w !! key = Some a /\ as_gen a = gen /\
    w' = sw_setSlots (<[key := mkActive (as_projectID a) (as_name a) (as_gen a) StatusFailed]> (sw_slots w)) w.
Proof.
  unfold failDeploy. destruct (current key gen w) as [a|] eqn:E; intros [= <- <-]; [|by left].
  right. apply current_Some in E as [E1 E2]. eauto.
Qed.

(** What an exit callback grants, and for which slot. *)
Lemma exitSection_inv cb status w o w' : exitSection cb status w = (o, w') ->
  (o = None /\ w' = w) \/
  exists key a st, sw_slots w !! key = Some a /\ as_gen a = genOf cb /\ o = Some st /\
    (st = status \/ (as_exitAs a <> ""%string /\ st = as_exitAs a)) /\ w' = sw_setSlots (delete key (sw_slots w)) w.
Proof.
  unfold exitSection. destruct cb as [p n key gen|p n key gen]; simpl; destruct (current key gen w) as [a|] eqn:E;
    intros [= <- <-]; try (by left); right; apply current_Some in E as [E1 E2]; exists key, a; eexists.
  - repeat (split; [done|]). split; [|done]. destruct (String.eqb_spec (as_exitAs a) ""); auto.
  - repeat (split; [done|]). split; [by left|done].
Qed.

(** A step of a thread either leaves the calls of the database alone or is one of
    a few; the same case analysis serves every invariant. *)
Ltac serve_cases Hh :=
  simpl in Hh; unfold external, removeService in Hh;
  repeat match type of Hh with
  | dbWrite _ _ _ = Some _ => apply write_inv in Hh as [-> [-> | ->]]
  | context [match ?x with _ => _ end] => destruct x eqn:?
  end; simplify_eq/=.

(** The only threads a call starts are health checks. *)
Lemma serve_new cfg c tid i w re w' new : handle cfg c tid i w = Some (re, w', new) ->
  new = [] \/ exists req ep, new = [healthCheck cfg req ep].
Proof. intros Hh. destruct c; serve_cases Hh; eauto. Qed.

(** ** Programs that only make harmless calls *)

(** Calls that leave the rows, the slots and the checks alone. *)
Definition artifactCall (c : vcall) : Prop :=
  match c with
  | VLatestSuccessful _ _ | VRunBackend _ _ | VStat _ | VMkdirAll _ | VStoreList _ | VStoreGet _ | VCreate _ | VCopy _ _
  | VHTTPGet _ => True
  | _ => False
  end.

(** The walk of [wp_walk] through the notations of this component. *)
Ltac serve_walk := unfold wrapping, lift; wp_walk.

Section Artifacts.

Context (r : localResolver) (projectID modelDirCfg : string).

Lemma DownloadDir_only prefix dir : only artifactCall (DownloadDir prefix dir).
Proof.
  unfold DownloadDir. simpl. split; [done|]. intros [[|key keys]|e]; [done| |done].
  generalize (key :: keys). clear key keys. intros keys.
  induction keys as [|key keys IH]; simpl; [done|]. serve_walk; done || exact IH.
Qed.

Lemma resolveServiceModel_only svc target : only artifactCall (resolveServiceModel r projectID modelDirCfg svc target).
Proof.
  unfold resolveServiceModel. destruct (mr_FromArtifact _) as [ref|].
  - apply only_tryOk; [|done]. apply only_bind; [|by intros []]. unfold Resolve. apply only_tryOk.
    { unfold resolveRun. serve_walk. }
    intros runID. destruct target; [|done|done]. unfold resolveLocal, storageBackendMismatch. simpl. split; [done|].
    intros rec. simpl. destruct rec as [[b|]|e]; [destruct (_ && _)%bool; [done|]| |].
    all: destruct (lr_store r); [done|done|]; simpl; (split; [done|]); intros []; [done|].
    all: apply only_tryOk; [|done]; apply only_bind; [apply DownloadDir_only|by intros []].
  - destruct (String.eqb _ _); [done|]. apply only_tryOk; [|done]. unfold resolveModelURI.
    repeat match goal with
    | |- only _ (Ret _) => exact I
    | |- only _ (tryOk (wrapping _ (DownloadDir _ _)) _) =>
        apply only_tryOk; [apply only_bind; [apply DownloadDir_only|by intros []]|]; intros ?
    | |- only _ (tryOk (perform _) _) => apply only_tryOk; [done|]; intros ?
    | |- context [if ?b then _ else _] => destruct b
    | |- context [match ?x with _ => _ end] => destruct x
    end.
Qed.

End Artifacts.

(** ** Generations *)

Section Generations.

Context (cfg : LocalConfig) (Itoa : Z -> string).
Context (runtime : string) (decode : string -> option ModelService) (r : localResolver) (modelDirCfg : string).

(** Newest first: nothing comes after the exit of a generation. *)
Fixpoint exits_last (l : list (nat * decision)) : Prop :=
  match l with
  | [] => True
  | (g, d) :: l => (g, DExit) ∉ l /\ exits_last l
  end.

Record gens_ok (w : SWorld) : Prop := mkGensOk {
  go_bound : forall key a, sw_slots w !! key = Some a -> (as_gen a <= sw_nextGen w)%nat;
  go_unique : forall key key' a a', sw_slots w !! key = Some a -> sw_slots w !! key' = Some a' -> as_gen a = as_gen a' -> key = key';
  go_past : forall g d, (g, d) ∈ sw_decisions w -> (g <= sw_nextGen w)%nat;
  go_open : forall key a, sw_slots w !! key = Some a -> (as_gen a, DExit) ∉ sw_decisions w;
  go_last : exits_last (sw_decisions w) }.

Lemma gens_newSlot key p n w : gens_ok w -> gens_ok (newSlot key p n w).
Proof.
  intros [Hb Hu Hp Ho Hl]. constructor; simpl.
  - intros key' a. rewrite lookup_insert_Some. intros [[<- <-]|[_ Ha]]; simpl; [lia|]. specialize (Hb _ _ Ha). lia.
  - intros k1 k2 a1 a2. rewrite !lookup_insert_Some.
    intros [[<- <-]|[Hn1 H1]] [[<- <-]|[Hn2 H2]]; simpl; [done|..].
    + specialize (Hb _ _ H2). lia.
    + specialize (Hb _ _ H1). lia.
    + by eapply Hu.
  - intros g d Hg. specialize (Hp _ _ Hg). lia.
  - intros key' a. rewrite lookup_insert_Some. intros [[<- <-]|[_ Ha]]; simpl; [|by eapply Ho].
    intros Hin. specialize (Hp _ _ Hin). lia.
  - done.
Qed.

Lemma gens_delete key w : gens_ok w -> gens_ok (sw_setSlots (delete key (sw_slots w)) w).
Proof.
  intros [Hb Hu Hp Ho Hl]. constructor; simpl; [| |done| |done].
  - intros key' a [_ Ha]%lookup_delete_Some. by eapply Hb.
  - intros k1 k2 a1 a2 [_ H1]%lookup_delete_Some [_ H2]%lookup_delete_Some. by eapply Hu.
  - intros key' a [_ Ha]%lookup_delete_Some. by eapply Ho.
Qed.

Lemma gens_running gen w :
  gens_ok w -> (gen <= sw_nextGen w)%nat -> (gen, DExit) ∉ sw_decisions w -> gens_ok (decided gen DRunning w).
Proof.
  intros [Hb Hu Hp Ho Hl] Hg He. constructor; simpl; [done|done| |  |done].
  - intros g d [[= -> ->]|Hin]%elem_of_cons; [done|by eapply Hp].
  - intros key a Ha [[=]|Hin]%elem_of_cons. by eapply Ho.
Qed.

Lemma gens_exit key a w : gens_ok w -> sw_slots w !! key = Some a ->
  gens_ok (decided (as_gen a) DExit (sw_setSlots (delete key (sw_slots w)) w)).
Proof.
  intros Hg Ha. pose proof Hg as [Hb Hu Hp Ho Hl]. destruct (gens_delete key w Hg) as [Hb' Hu' Hp' Ho' Hl'].
  constructor; simpl; [done|done| | |].
  - intros g d [[= -> ->]|Hin]%elem_of_cons; [by eapply Hb|by eapply Hp].
  - intros key' a' [Hne Ha']%lookup_delete_Some [[= Heq]|Hin]%elem_of_cons; [|by eapply Ho].
    apply Hne. by eapply Hu.
  - split; [by eapply Ho|done].
Qed.

Lemma gens_same w w' :
  sw_slots w' = sw_slots w -> sw_nextGen w' = sw_nextGen w -> sw_decisions w' = sw_decisions w -> gens_ok w -> gens_ok w'.
Proof. intros H1 H2 H3 [Hb Hu Hp Ho Hl]. constructor; rewrite ?H1, ?H2, ?H3; done. Qed.

Lemma gens_empty w : sw_slots w = ∅ -> sw_decisions w = [] -> gens_ok w.
Proof. intros Hs Hd. constructor; rewrite ?Hs, ?Hd; try done; intros ?? H; by apply not_elem_of_nil in H. Qed.

Lemma gens_fail key a w : gens_ok w -> sw_slots w !! key = Some a ->
  gens_ok (sw_setSlots (<[key := mkActive (as_projectID a) (as_name a) (as_gen a) StatusFailed]> (sw_slots w)) w).
Proof.
  intros [Hb Hu Hp Ho Hl] Ha. constructor; simpl; [| |done| |done].
  - intros key' a'. rewrite lookup_insert_Some. intros [[<- <-]|[_ Ha']]; simpl; by eapply Hb.
  - intros k1 k2 a1 a2. rewrite !lookup_insert_Some.
    intros [[<- <-]|[Hn1 H1]] [[<- <-]|[Hn2 H2]]; simpl; [done|..]; intros E; by eapply Hu.
  - intros key' a'. rewrite lookup_insert_Some. intros [[<- <-]|[_ Ha']]; simpl; by eapply Ho.
Qed.

Lemma gens_handle c tid i w re w' new : gens_ok w -> handle cfg c tid i w = Some (re, w', new) -> gens_ok w'.
Proof.
  intros Hg Hh. destruct c; serve_cases Hh.
  all: repeat match goal with
    | H : current _ _ _ = Some _ |- _ => apply current_Some in H as [? <-]
    | H : failDeploy _ _ _ = _ |- _ => apply failDeploy_inv in H as [->|(? & ? & <- & ->)]
    | H : exitSection _ _ _ = _ |- _ => apply exitSection_inv in H as [[? ->]|(? & ? & ? & ? & Egen & ? & ? & ->)]; simplify_eq; try rewrite <- Egen
    end; simplify_eq.
  all: first [ exact Hg | by apply gens_newSlot | by apply gens_delete | by apply gens_exit | by apply gens_fail
             | by eapply gens_same; [..|exact Hg] | idtac ].
  - apply gens_running; simpl; [by apply gens_newSlot|lia|]. intros Hin. apply (go_past _ Hg) in Hin. lia.
  - apply gens_running; [done|by eapply go_bound|by eapply go_open].
Qed.

Abbreviation step := (step cfg Itoa runtime decode r modelDirCfg).
Abbreviation exec := (exec cfg Itoa runtime decode r modelDirCfg).

Lemma gens_step o s s' : gens_ok s.1 -> step o s = Some s' -> gens_ok s'.1.
Proof.
  intros Hg Hs. destruct o as [tid i|q|q|j st|d|cut|]; simpl in Hs.
  - apply thread_step_inv in Hs as (c & k & re & w' & new & _ & Eh & ->). by eapply gens_handle.
  - by simplify_eq.
  - by repeat case_match; simplify_eq.
  - apply bind_Some in Hs as (cb & _ & Hs). by case_match; simplify_eq.
  - case_match; simplify_eq. by eapply gens_same; [..|exact Hg].
  - simplify_eq. by eapply gens_same; [..|exact Hg].
  - simplify_eq. apply gens_empty; done.
Qed.

Lemma gens_run ops s s' : gens_ok s.1 -> exec ops s = Some s' -> gens_ok s'.1.
Proof.
  revert s; induction ops as [|o ops IH]; intros s Hg He; simpl in He; [by simplify_eq|].
  apply bind_Some in He as (s1 & Hs & He). eapply IH; [|exact He]. by eapply gens_step.
Qed.

Lemma gens_start now : gens_ok (start now).1.
Proof. by apply gens_empty. Qed.

End Generations.

