(* ===== verification/ServingHistory.v ===== *)
(** * Model services: no deployment is lost

    When requests are served one after another and rows can be read, every
    deployment that ever had a row is the current row or in the history, whatever
    writes fail, workloads exit and restarts happen in between. *)

From S2P Require Import Prelude Prog Pipeline Serving ServingManager ServingWorld ServingSafety.
From stdpp Require Import options.
#[local] Open Scope Z_scope.
#[local] Set Default Proof Using "All".

(** What identifies a deployment, in a row and in the history. *)
Definition sameDeployment (s row : Service) : Prop :=
  sv_ProjectID s = sv_ProjectID row /\ sv_Name s = sv_Name row /\ sv_RunID s = sv_RunID row /\ sv_Artifact s = sv_Artifact row /\
  sv_YAML s = sv_YAML row /\ sv_CreatedBy s = sv_CreatedBy row.
Definition sameArchived (s : Service) (h : ServiceHistory) : Prop :=
  sv_ProjectID s = sh_ProjectID h /\ sv_Name s = sh_Name h /\ sv_RunID s = sh_RunID h /\ sv_Artifact s = sh_Artifact h /\
  sv_YAML s = sh_YAML h /\ sv_CreatedBy s = sh_CreatedBy h.

#[export] Instance Service_eq_dec : EqDecision Service.
Proof. solve_decision. Defined.
#[export] Instance sameDeployment_equiv : Equivalence sameDeployment.
Proof. unfold sameDeployment. constructor; red; naive_solver congruence. Qed.

Lemma sameArchived_trans s s' h : sameDeployment s s' -> sameArchived s' h -> sameArchived s h.
Proof. unfold sameDeployment, sameArchived. naive_solver congruence. Qed.
Lemma sameArchived_historyOf s now : sameArchived s (historyOf s now).
Proof. done. Qed.

Definition archived (s : Service) (w : SWorld) : Prop := exists h, h ∈ sw_history w /\ sameArchived s h.
Definition kept (s : Service) (w : SWorld) : Prop :=
  archived s w \/ exists row, sw_rows w !! serviceRow s = Some row /\ sameDeployment s row.

(** Requests come one after another, reads do not fail, and nothing is purged. *)
Definition calm (o : op) (s : SWorld * list (V unit)) : bool :=
  match o with
  | ORequest _ | OPurge _ => false
  | OThread tid (VFailed _ _) => match s.2 !! tid with Some (Call (VGet _ _) _) => false | _ => true end
  | _ => true
  end.

Section History.

Context (cfg : LocalConfig) (Itoa : Z -> string).
Context (runtime : string) (decode : string -> option ModelService) (r : localResolver) (modelDirCfg : string).

Abbreviation step := (step cfg Itoa runtime decode r modelDirCfg).
Abbreviation exec := (exec cfg Itoa runtime decode r modelDirCfg).

Fixpoint orderly (ops : list op) (s : SWorld * list (V unit)) : bool :=
  match ops with
  | [] => true
  | o :: ops => calm o s && match step o s with Some s' => orderly ops s' | None => true end
  end.

(** A thread that only observes; the thread of requests, by what it knows of a
    row: nothing, what it read, or that it is archived. *)
Inductive vphase : Type :=
| PObserver
| PIdle
| PSaw (k : skey) (o : option Service)
| PArchived (k : skey).

Definition versions : discipline vreply :=
  mkDiscipline vcall vreply vphase
    (fun ph c =>
       match c with
       | VUpsert s => ph = PSaw (serviceRow s) None \/ ph = PArchived (serviceRow s)
       | VUpdate _ => False
       | VDelete _ _ => ph <> PObserver
       | _ => True
       end)
    (fun _ c =>
       match c as c return vreply c -> Prop with
       | VGet _ _ => fun o => is_ok o = true
       | _ => fun _ => True
       end)
    (fun ph c =>
       match c as c return vreply c -> vphase with
       | VGet p n => fun o =>
           match ph, o with
           | PObserver, _ => PObserver
           | _, Ok o => PSaw (p, n) o
           | _, Err _ => PIdle
           end
       | VAppendHistory s => fun o =>
           match ph, o with
           | PSaw k (Some s'), Ok _ => if bool_decide (s = s') then PArchived k else ph
           | _, _ => ph
           end
       | VUpsert _ | VDelete _ _ => fun _ => PIdle
       | _ => fun _ => ph
       end).

(** *** The programs *)

Abbreviation lane ph m := (wp versions ph m (fun _ ph' => ph' <> PObserver)).
Abbreviation observes m := (wp versions PObserver m (fun _ ph' => ph' = PObserver)).

(** The calls of the driver and of the artifacts, and the changes of a status. *)
Definition plainCall (c : vcall) : Prop :=
  match c with
  | VUpsert _ | VUpdate _ | VDelete _ _ | VAppendHistory _ | VGet _ _ => False
  | _ => True
  end.

Lemma plain_wp {A} ph (m : V A) : only plainCall m -> wp versions ph m (fun _ ph' => ph' = ph).
Proof. apply only_wp. by intros []. Qed.

Lemma lane_plain {A} ph (m : V A) : ph <> PObserver -> only plainCall m -> lane ph m.
Proof. intros Hph Hm. eapply wp_mono; [|by apply plain_wp]. by intros a ph' ->. Qed.

Lemma lane_bind {A B} ph (m : V A) (f : A -> V B) :
  lane ph m -> (forall a ph', ph' <> PObserver -> lane ph' (f a)) -> lane ph (m ≫= f).
Proof. intros Hm Hf. apply wp_bind. eapply wp_mono; [|exact Hm]. intros a ph'. apply Hf. Qed.

Lemma lane_tryOk {A B} ph (m : V (res servErr A)) (f : A -> V (res servErr B)) :
  lane ph m -> (forall a ph', ph' <> PObserver -> lane ph' (f a)) -> lane ph (tryOk m f).
Proof. intros Hm Hf. apply lane_bind; [done|]. intros [a|e] ph' Hph; [by apply Hf|done]. Qed.

Lemma localDeploy_plain spec art y : only plainCall (localDeploy cfg spec art y).
Proof.
  unfold localDeploy, lift, wrapping. destruct (Nat.eqb _ 0); [done|]. destruct (sr_Port _ =? 0); [done|].
  destruct (ValidateDirectPlacement _ _); [|done]. simpl. split; [done|]. intros [gen|]; [|done].
  unfold resolveEnv, wrapping. destruct (_ && _)%bool; by serve_walk.
Qed.

Lemma localStop_plain s : only plainCall (localStop s).
Proof. unfold localStop. by serve_walk. Qed.

Lemma artifacts_plain {A} (m : V A) : only artifactCall m -> only plainCall m.
Proof. induction m as [a|c k IH]; simpl; [done|]. intros [Hc Hk]. split; [by destruct c|]. intros re. apply IH, Hk. Qed.

#[local] Opaque localDeploy localStop.
#[local] Instance driver : Driver := localDriver cfg.

Lemma Stop_lane ph p n : ph <> PObserver -> lane ph (Stop p n).
Proof.
  intros Hph. unfold Stop, wrapping. destruct (String.eqb p ""); [done|]. simpl. split; [done|].
  intros [s|e] Hre; [|done]. destruct ph; [done|..]; simpl; destruct s as [s|]; try done.
  all: simpl; destruct (_ || _)%bool; [done|]; simpl; (split; [done|]); intros [u|e] _; [|done]; simpl.
  all: apply lane_bind; [apply lane_plain; [done|apply localStop_plain]|]; intros [v|e] ph' Hph'; by serve_walk.
Qed.

Lemma Deploy_lane ph a p svc art y : ph <> PObserver -> lane ph (Deploy runtime a p svc art y).
Proof.
  intros Hph. unfold Deploy, wrapping, lift. destruct (ValidateService svc); [|done].
  destruct (ValidateDirectPlacement _ _); [|done]. simpl. destruct (String.eqb p ""); [done|]. simpl. split; [done|].
  intros [ex|e] Hre; [|done]. apply wp_tryOk. unfold archivePrevious, wrapping.
  destruct ph; [done|..]; simpl; destruct ex as [ex|]; simpl.
  all: try (split; [done|]; intros [u|e] _; simpl; [|done]; rewrite bool_decide_eq_true_2 by done).
  all: split; [first [by left|by right]|]; intros [u'|e'] _; simpl; [|done].
  all: apply lane_bind; [apply lane_plain; [done|apply localDeploy_plain]|]; intros [d|e] ph'' Hph''; by serve_walk.
Qed.
#[local] Opaque Stop Deploy resolveServiceModel ParseService.

Lemma Replace_lane ph a p svc art y : ph <> PObserver -> lane ph (Replace runtime a p svc art y).
Proof.
  intros Hph. unfold Replace, wrapping. apply lane_tryOk; [by destruct ph; serve_walk|]. intros ex ph1 H1.
  apply lane_tryOk; [destruct ex; [by apply Stop_lane|done]|]. intros _ ph2 H2.
  apply lane_tryOk; [by apply Deploy_lane|]. intros _ ph3 H3.
  apply lane_tryOk; [by destruct ph3; serve_walk|]. by intros [].
Qed.
#[local] Opaque Replace.

Lemma DeployService_lane ph a p y : ph <> PObserver -> lane ph (DeployService runtime decode r modelDirCfg a p y).
Proof.
  intros Hph. unfold DeployService, deployService, lift. destruct (String.eqb p ""); [done|].
  apply lane_tryOk; [done|]. intros svc ph1 H1. apply lane_tryOk.
  { apply lane_plain; [done|]. apply artifacts_plain, resolveServiceModel_only. }
  intros [art l] ph2 H2. apply lane_bind; [by apply Replace_lane|]. intros [rec|e] ph3 H3; by serve_walk.
Qed.
#[local] Opaque DeployService.

Lemma program_lane q : lane PIdle (program cfg runtime decode r modelDirCfg q).
Proof.
  destruct q; unfold program, ignore; (apply lane_bind; [|done]).
  - by apply DeployService_lane.
  - unfold RestartService. apply lane_bind; [by serve_walk|]. intros [[s|]|e] ph1 H1; [|done..].
    destruct (String.eqb (sv_YAML s) _); [done|]. apply lane_tryOk; [by apply DeployService_lane|done].
  - by apply Stop_lane.
  - unfold DeleteService, Delete, wrapping. destruct (String.eqb projectID ""); [done|].
    apply lane_tryOk; [by serve_walk|]. intros [s|] ph1 H1; [|done]. apply lane_tryOk.
    { destruct (_ && _)%bool; [|done]. apply lane_bind; [by apply Stop_lane|by intros []]. }
    intros _ ph2 H2. by serve_walk.
Qed.

Lemma report_observes p n st ep : observes (report cfg p n st ep).
Proof. unfold report, UpdateStatus. by serve_walk. Qed.
#[local] Opaque report.

Lemma observes_bind {A B} (m : V A) (f : A -> V B) : observes m -> (forall a, observes (f a)) -> observes (m ≫= f).
Proof. intros Hm Hf. apply wp_bind. eapply wp_mono; [|exact Hm]. intros a ph' ->. apply Hf. Qed.

Lemma healthCheck_observes req ep : observes (healthCheck cfg req ep).
Proof.
  unfold healthCheck. simpl. split; [done|]. intros [u|e] _; simpl; (split; [done|]); intros [] _; simpl; try done.
  - apply report_observes.
  - split; [done|]. intros [] _; simpl; [done|apply report_observes].
Qed.

Lemma onExit_observes cb st : observes (onExit cfg cb st).
Proof. unfold onExit. simpl. split; [done|]. intros [st'|] _; [|done]. destruct cb; apply report_observes. Qed.

Lemma Recover_observes : observes (ignore (Recover cfg Itoa)).
Proof.
  unfold ignore, Recover. apply observes_bind; [|done]. simpl. split; [done|]. intros [l|e] _; [|done]. simpl.
  apply observes_bind; [|done]. induction l as [|[h [st|]] l IH]; [done|..]; simpl; (split; [done|]).
  - intros [g|] _; simpl; [done|]. apply observes_bind; [apply report_observes|done].
  - intros g _. apply observes_bind; [|done]. apply observes_bind; [apply report_observes|]. by serve_walk.
Qed.

(** *** The world *)

Definition sameRow (o o' : option Service) : Prop :=
  match o, o' with
  | None, None => True
  | Some s, Some s' => sameDeployment s s'
  | _, _ => False
  end.

(** A change of the world that keeps which deployment each row is. *)
Record quiet (w w' : SWorld) : Prop := mkQuiet {
  q_versions : sw_versions w' = sw_versions w;
  q_history : forall h, h ∈ sw_history w -> h ∈ sw_history w';
  q_rows : forall k, sameRow (sw_rows w !! k) (sw_rows w' !! k) }.

Definition phase_ok (w : SWorld) (ph : vphase) : Prop :=
  match ph with
  | PSaw k None => sw_rows w !! k = None
  | PSaw k (Some s) => exists row, sw_rows w !! k = Some row /\ sameDeployment s row
  | PArchived k => forall row, sw_rows w !! k = Some row -> archived row w
  | _ => True
  end.

Lemma archived_same s s' w : sameDeployment s s' -> archived s' w -> archived s w.
Proof. intros Hs (h & Hh & Ha). exists h. split; [done|]. by eapply sameArchived_trans. Qed.

Lemma archived_quiet w w' s : quiet w w' -> archived s w -> archived s w'.
Proof. intros Hq (h & Hh & Ha). exists h. split; [by apply (q_history _ _ Hq)|done]. Qed.

Lemma kept_quiet w w' s : quiet w w' -> kept s w -> kept s w'.
Proof.
  intros Hq [Ha|(row & Hr & Hs)]; [left; by eapply archived_quiet|].
  pose proof (q_rows _ _ Hq (serviceRow s)) as H. rewrite Hr in H.
  destruct (sw_rows w' !! serviceRow s) as [row'|] eqn:E; [|done]. right. exists row'. split; [done|]. by trans row.
Qed.

Lemma phase_quiet w w' ph : quiet w w' -> phase_ok w ph -> phase_ok w' ph.
Proof.
  intros Hq. pose proof (q_rows _ _ Hq) as H. destruct ph as [| |k [s|]|k]; simpl; try done.
  - intros (row & Hr & Hs). specialize (H k). rewrite Hr in H. destruct (sw_rows w' !! k) as [row'|]; [|done].
    exists row'. split; [done|]. by trans row.
  - intros Hr. specialize (H k). rewrite Hr in H. by destruct (sw_rows w' !! k).
  - intros Ha row' Hr'. specialize (H k). rewrite Hr' in H. destruct (sw_rows w !! k) as [row|] eqn:E; [|done].
    eapply archived_same; [symmetry; exact H|]. eapply archived_quiet; [done|]. by apply Ha.
Qed.

Lemma quiet_refl w w' : sw_versions w' = sw_versions w -> sw_history w' = sw_history w -> sw_rows w' = sw_rows w -> quiet w w'.
Proof. intros H1 H2 H3. constructor; rewrite ?H1, ?H2, ?H3; [done..|]. intros k. destruct (sw_rows w !! k); simpl; [reflexivity|done]. Qed.

Lemma quiet_setRow f k w : (forall s, sameDeployment s (f s)) -> quiet w (sw_setRows (setRow f k (sw_rows w)) w).
Proof.
  intros Hf. constructor; simpl; [done|done|]. intros k'. unfold setRow. destruct (decide (k = k')) as [<-|Hne].
  - rewrite lookup_alter_eq. destruct (sw_rows w !! k); simpl; [apply Hf|done].
  - rewrite lookup_alter_ne by done. destruct (sw_rows w !! k'); simpl; [reflexivity|done].
Qed.

Definition versions_inv (w : SWorld) (phs : list vphase) : Prop :=
  (forall s, s ∈ sw_versions w -> kept s w) /\
  exists ph rest, phs = ph :: rest /\ phase_ok w ph /\ Forall (fun ph => ph = PObserver) rest.

(** Every call but two is quiet. *)
Lemma quiet_handle c tid i w re w' new : handle cfg c tid i w = Some (re, w', new) ->
  (forall s, c <> VUpdate s) ->
  quiet w w' \/
  (exists s, c = VUpsert s /\ w' = sw_setVersions (s :: sw_versions w) (sw_setRows (upsertRow s (sw_now w) (sw_rows w)) w)) \/
  (exists p n, c = VDelete p n /\
     w' = sw_setHistory (deleteRow (p, n) (sw_now w) (sw_rows w) (sw_history w)).2 (sw_setRows (delete (p, n) (sw_rows w)) w)).
Proof.
  intros Hh Hu. destruct c; serve_cases Hh.
  all: repeat match goal with
    | H : failDeploy _ _ _ = _ |- _ => apply failDeploy_inv in H as [->|(? & ? & <- & ->)]
    | H : exitSection _ _ _ = _ |- _ => apply exitSection_inv in H as [[? ->]|(? & ? & ? & ? & ? & ? & Hst & ->)]; simplify_eq
    end.
  all: try (left; by apply quiet_refl).
  all: try (left; by apply quiet_setRow).
  all: try (right; left; by eauto).
  all: try (right; right; by eauto).
  all: try (by destruct (Hu s)).
  left. constructor; simpl; [done|set_solver|]. intros k. destruct (sw_rows w !! k); simpl; [reflexivity|done].
Qed.

Lemma kept_upsert s w s0 : phase_ok w (PSaw (serviceRow s) None) \/ phase_ok w (PArchived (serviceRow s)) ->
  kept s0 w -> kept s0 (sw_setVersions (s :: sw_versions w) (sw_setRows (upsertRow s (sw_now w) (sw_rows w)) w)).
Proof.
  intros Hph [Ha|(row & Hr & Hs)]; [by left|]. destruct (decide (serviceRow s0 = serviceRow s)) as [E|Hne].
  - rewrite E in Hr. left. destruct Hph as [Hn|Ha]; [by rewrite Hn in Hr|]. by apply (archived_same _ row), Ha.
  - right. exists row. split; [|done]. simpl. unfold upsertRow. by rewrite lookup_insert_ne.
Qed.

Lemma kept_delete k w s0 : kept s0 w ->
  kept s0 (sw_setHistory (deleteRow k (sw_now w) (sw_rows w) (sw_history w)).2 (sw_setRows (delete k (sw_rows w)) w)).
Proof.
  intros [(h & Hh & Ha)|(row & Hr & Hs)].
  - left. exists h. split; [|done]. simpl. destruct (sw_rows w !! k); [by right|done].
  - destruct (decide (serviceRow s0 = k)) as [<-|Hne].
    + left. exists (historyOf row (sw_now w)). simpl. rewrite Hr. split; [by left|].
      by eapply sameArchived_trans; [|apply sameArchived_historyOf].
    + right. exists row. split; [|done]. simpl. by rewrite lookup_delete_ne.
Qed.

(** What the thread of requests knows after a quiet call. *)
Lemma phase_next c tid i w re w' new ph :
  handle cfg c tid i w = Some (re, w', new) -> quiet w w' -> ph <> PObserver -> phase_ok w ph ->
  phase_ok w' (next versions ph c re).
Proof.
  intros Hh Hq Hph Hok. pose proof (phase_quiet _ _ _ Hq Hok) as Hok'. destruct c; try exact Hok'; try exact I.
  - serve_cases Hh; destruct ph; try done; simpl.
    all: destruct (sw_rows w' !! (projectID, name)) as [s|] eqn:E; [|done].
    all: exists s; split; [done|reflexivity].
  - simpl in *. destruct ph as [| |k [s'|]|k]; try done. destruct re; [|done]. case_bool_decide; [|done]. subst s'.
    destruct Hok as (row0 & Hr & Hs). simpl. apply statement_ok in Hh as ->. intros row Hr'. simplify_eq/=.
    exists (historyOf s (sw_now w)). split; [by left|]. eapply sameArchived_trans; [symmetry; exact Hs|]. apply sameArchived_historyOf.
Qed.

Definition failedRead (c : vcall) (i : vchoice) : bool :=
  match c, i with VGet _ _, VFailed _ _ => true | _, _ => false end.
Definition calmHandle (c : vcall) (tid : nat) (i : vchoice) (w : SWorld) : option (vreply c * SWorld * list (V unit)) :=
  if failedRead c i then None else handle cfg c tid i w.

Lemma calm_rely ph c tid i w re w' new : calmHandle c tid i w = Some (re, w', new) -> rely versions ph c re.
Proof.
  unfold calmHandle. destruct (failedRead c i) eqn:Ef; [done|]. intros Hh. destruct c; try done. by serve_cases Hh.
Qed.

Lemma versions_keep w phs tid ph c i re w' new :
  versions_inv w phs -> phs !! tid = Some ph -> allowed versions ph c -> calmHandle c tid i w = Some (re, w', new) ->
  rely versions ph c re /\ exists phs', Forall2 (obeys versions (fun _ => True)) phs' new /\
    versions_inv w' (<[tid := next versions ph c re]> phs ++ phs').
Proof.
  intros (Hkept & ph0 & rest & -> & Hok & Hrest) Hl Ha Hh. split; [by eapply calm_rely|].
  unfold calmHandle in Hh. destruct (failedRead c i); [done|]. exists (replicate (List.length new) PObserver). split.
  { apply serve_new in Hh as [->|(req & ep & ->)]; [constructor|]. constructor; [|constructor].
    eapply wp_mono; [|apply healthCheck_observes]. done. }
  assert (Hu : forall s, c <> VUpdate s) by (intros s ->; done).
  assert (Hobs : forall l n, Forall (fun ph => ph = PObserver) l -> Forall (fun ph => ph = PObserver) (l ++ replicate n PObserver)).
  { intros l n Hf. apply Forall_app. split; [done|]. by apply Forall_replicate. }
  destruct tid as [|tid]; simplify_eq/=.
  - destruct (quiet_handle _ _ _ _ _ _ _ Hh Hu) as [Hq|[(s & -> & ->)|(p & n & -> & ->)]].
    + split; [intros s Hs; eapply kept_quiet, Hkept; [done|]; by rewrite <- (q_versions _ _ Hq)|].
      assert (ph = PObserver \/ ph <> PObserver) as [->|Hph] by (destruct ph; auto).
      * exists PObserver. eexists. split; [|split; [done|by apply Hobs]]. f_equal. clear -Ha Hu. by destruct c; naive_solver.
      * eexists _, _. split; [reflexivity|]. split; [by eapply phase_next|by apply Hobs].
    + split.
      * intros s0 [->|Hs0]%elem_of_cons.
        -- right. eexists. split; [apply lookup_insert_eq|]. done.
        -- apply kept_upsert; [|by apply Hkept]. by destruct Ha as [-> | ->]; [left|right].
      * eexists _, _. split; [reflexivity|]. split; [done|by apply Hobs].
    + split; [intros s0 Hs0; apply kept_delete; by apply Hkept|]. eexists _, _. split; [reflexivity|]. split; [done|by apply Hobs].
  - assert (Hph : ph = PObserver) by exact (Forall_lookup_1 _ _ _ _ Hrest Hl). subst ph.
    destruct (quiet_handle _ _ _ _ _ _ _ Hh Hu) as [Hq|[(s & -> & ->)|(p & n & -> & ->)]]; [|by destruct Ha|done].
    split; [intros s Hs; eapply kept_quiet, Hkept; [done|]; by rewrite <- (q_versions _ _ Hq)|].
    eexists _, _. split; [reflexivity|]. split; [by eapply phase_quiet|]. apply Hobs.
    apply Forall_insert; [done|]. clear -Ha Hu. by destruct c; naive_solver.
Qed.

Abbreviation versions_good := (good SWorld versions (fun _ => True) versions_inv).

Lemma observer_append w ts m : versions_good (w, ts) -> observes m -> versions_good (w, ts ++ [m]).
Proof.
  intros (phs & Hf & Hk & ph & rest & -> & Hok & Hrest) Hm. exists ((ph :: rest) ++ [PObserver]). split.
  - apply Forall2_app; [done|]. constructor; [|constructor]. eapply wp_mono; [|exact Hm]. done.
  - split; [done|]. exists ph, (rest ++ [PObserver]). repeat (split; [done|]). apply Forall_app. by split; [|repeat constructor].
Qed.

Lemma versions_quiet w w' ts : quiet w w' -> versions_good (w, ts) -> versions_good (w', ts).
Proof.
  intros Hq (phs & Hf & Hk & ph & rest & -> & Hok & Hrest). exists (ph :: rest). split; [done|]. simpl in *. split.
  - intros s Hs. eapply kept_quiet, Hk; [done|]. by rewrite <- (q_versions _ _ Hq).
  - exists ph, rest. split; [done|]. split; [by eapply phase_quiet|done].
Qed.

Lemma calm_thread tid i s s' : calm (OThread tid i) s = true -> step (OThread tid i) s = Some s' ->
  thread_step SWorld vchoice calmHandle tid i s = Some s'.
Proof.
  simpl. unfold thread_step, calmHandle. destruct (s.2 !! tid) as [[|c k]|]; [done| |done].
  destruct (failedRead c i) eqn:Ef; [|done]. by destruct c, i.
Qed.

Lemma versions_step o s s' : calm o s = true -> versions_good s -> step o s = Some s' -> versions_good s'.
Proof.
  intros Hc Hg Hs. destruct o as [tid i|q|q|j st|d|cut|]; [|done|..|done|]; destruct s as [w ts].
  - eapply good_step; [|exact Hg|by eapply calm_thread]. intros. by eapply versions_keep.
  - simpl in Hs. destruct ts as [|[u|c k] ts]; simplify_eq/=. destruct Hg as (phs & Hf & Hk & ph & rest & -> & Hok & Hrest).
    exists (PIdle :: rest). apply Forall2_cons in Hf as [_ Hf]. split.
    + constructor; [|done]. eapply wp_mono; [|apply program_lane]. done.
    + split; [done|]. by exists PIdle, rest.
  - apply bind_Some in Hs as (cb & _ & Hs). destruct (terminal st); simplify_eq. apply observer_append; [done|]. apply onExit_observes.
  - simpl in Hs. destruct (0 <=? d); simplify_eq. eapply versions_quiet; [|exact Hg]. by apply quiet_refl.
  - simpl in Hs. simplify_eq. destruct Hg as (phs & Hf & Hk & _). exists [PIdle; PObserver]. split.
    + constructor; [done|]. constructor; [|constructor]. eapply wp_mono; [|apply Recover_observes]. done.
    + split; [|by exists PIdle, [PObserver]; repeat constructor]. intros s0 Hs0.
      apply (kept_quiet w); [by apply quiet_refl|]. by apply Hk.
Qed.

Lemma versions_run ops s s' : orderly ops s = true -> versions_good s -> exec ops s = Some s' -> versions_good s'.
Proof.
  revert s; induction ops as [|o ops IH]; intros s Ho Hg He; simpl in Ho, He; [by simplify_eq|].
  apply andb_true_iff in Ho as [Hc Ho]. apply bind_Some in He as (s1 & Hs & He). rewrite Hs in Ho.
  eapply IH; [exact Ho| |exact He]. by eapply versions_step.
Qed.

End History.

