(* ===== verification/ServingSpec.v ===== *)
(** * Model services: what the operations do

    The manager's operations run by themselves, whatever their calls answer: what
    a stop, a deletion, a status report and a health check leave in the tables and
    in the driver, and what they ask of the workload. *)

From S2P Require Import Prelude Prog Pipeline Serving ServingManager ServingWorld ServingSafety ServingHistory.
From stdpp Require Import options.
#[local] Open Scope Z_scope.

Section Spec.

Context (cfg : LocalConfig).

(** A program by itself: the answers to its calls, one after another. *)
Fixpoint runs {A} (answers : list vchoice) (m : V A) (w : SWorld) : option (A * SWorld) :=
  match m, answers with
  | Ret a, [] => Some (a, w)
  | Call c k, i :: answers => '(re, w', _) ← handle cfg c 0%nat i w; runs answers (k re) w'
  | _, _ => None
  end.

Lemma runs_call {A} answers c (k : vreply c -> V A) w x : runs answers (Call c k) w = Some x ->
  exists i rest re w1 new, answers = i :: rest /\ handle cfg c 0%nat i w = Some (re, w1, new) /\ runs rest (k re) w1 = Some x.
Proof.
  destruct answers as [|i rest]; [done|]. cbn [runs]. intros H. apply bind_Some in H as ([[re w1] new] & Hh & H). eauto 10.
Qed.

Lemma runs_ret {A} answers (a : A) w x : runs answers (Ret a) w = Some x -> x = (a, w).
Proof. destruct answers; simpl; by intros [= <-]. Qed.

Lemma runs_bind {A B} answers (m : V A) (f : A -> V B) w x : runs answers (m ≫= f) w = Some x ->
  exists l1 l2 a w1, answers = l1 ++ l2 /\ runs l1 m w = Some (a, w1) /\ runs l2 (f a) w1 = Some x.
Proof.
  revert answers w; induction m as [a|c k IH]; intros answers w H.
  - exists [], answers, a, w. done.
  - apply runs_call in H as (i & rest & re & w1 & new & -> & Hh & H). apply IH in H as (l1 & l2 & a & w2 & -> & H1 & H2).
    exists (i :: l1), l2, a, w2. split; [done|]. split; [|done]. cbn [runs]. rewrite Hh. exact H1.
Qed.

#[local] Instance driver : Driver := localDriver cfg.

(** The name under which the runtime knows the workload of a service. *)
Definition workload (s : Service) : string := runtimeName (sv_ProjectID s) (sv_Name s).

(** The driver's stop leaves the tables alone, asks the runtime once, and succeeds
    only if the runtime says it stopped the workload. *)
Lemma localStop_runs answers s w re w' : runs answers (localStop s) w = Some (re, w') ->
  sw_rows w' = sw_rows w /\ sw_history w' = sw_history w /\ sw_now w' = sw_now w /\
  sw_calls w' = RtStop (workload s) (is_ok re) :: sw_calls w /\
  (is_ok re = true -> sw_slots w' !! serviceKey (sv_ProjectID s) (sv_Name s) = None).
Proof.
  unfold localStop. intros H. apply runs_call in H as (i & rest & act & w1 & new & -> & Hh & H). serve_cases Hh.
  apply runs_call in H as (i2 & rest2 & re2 & w2 & new2 & -> & Hh & H).
  simpl in Hh. destruct i2 as [| | | | |r| | |]; try done. unfold external in Hh. simplify_eq/=.
  destruct re2 as [[]|e]; [|by apply runs_ret in H; simplify_eq].
  destruct (sw_slots w1 !! serviceKey _ _) as [act|] eqn:E; simpl in H; [|by apply runs_ret in H; simplify_eq].
  apply runs_call in H as (i3 & rest3 & re3 & w3 & new3 & -> & Hh & H). apply runs_ret in H. simpl in Hh. unfold external in Hh.
  simplify_eq/=. unfold removeService, current. simpl. rewrite E, Nat.eqb_refl. simpl.
  repeat (split; [done|]). intros _. apply lookup_delete_eq.
Qed.

Definition idle (s : Service) : bool := (String.eqb (sv_Status s) StatusStopped || String.eqb (sv_Status s) StatusStopping)%bool.

Lemma lookup_setRow f k w s : sw_rows w !! k = Some s -> setRow f k (sw_rows w) = <[k := f s]> (sw_rows w).
Proof. intros Hs. apply map_eq. intros k'. unfold setRow. destruct (decide (k = k')) as [<-|Hne].
  - by rewrite lookup_alter_eq, lookup_insert_eq, Hs.
  - by rewrite lookup_alter_ne, lookup_insert_ne. Qed.

(** Some statement failed. *)
Definition faulty (answers : list vchoice) : Prop := exists how msg, VFailed how msg ∈ answers.

Lemma faulty_sub l l' : l ⊆ l' -> faulty l -> faulty l'.
Proof. intros Hs (how & msg & H). exists how, msg. by apply Hs. Qed.

(** [Stop], on each way it can go: with [bad], when a statement fails. *)
Inductive stopped (p n : string) (bad : Prop) (w : SWorld) : res servErr unit -> SWorld -> Prop :=
| StopRefused e : p = "" \/ sw_rows w !! (p, n) = None \/ bad -> stopped p n bad w (Err e) w
| StopIdle s : sw_rows w !! (p, n) = Some s -> idle s = true -> stopped p n bad w (Ok tt) w
| StopDone s re w' : sw_rows w !! (p, n) = Some s -> idle s = false ->
    sw_rows w' = <[(p, n) := withStatus StatusStopped (sw_now w) s]> (sw_rows w) -> sw_history w' = sw_history w ->
    sw_now w' = sw_now w -> sw_slots w' !! serviceKey (sv_ProjectID s) (sv_Name s) = None ->
    sw_calls w' = RtStop (workload s) true :: sw_calls w ->
    (re = Ok tt \/ bad) -> stopped p n bad w re w'
| StopFailed s e w' : sw_rows w !! (p, n) = Some s -> idle s = false ->
    sw_rows w' = <[(p, n) := withStatus (sv_Status s) (sw_now w) s]> (sw_rows w) -> sw_history w' = sw_history w ->
    sw_calls w' = RtStop (workload s) false :: sw_calls w -> stopped p n bad w (Err e) w'
| StopStuck s e w' : sw_rows w !! (p, n) = Some s -> idle s = false ->
    sw_rows w' = <[(p, n) := withStatus StatusStopping (sw_now w) s]> (sw_rows w) -> sw_history w' = sw_history w ->
    bad -> stopped p n bad w (Err e) w'.

Lemma get_runs {A} answers p n (k : vreply (VGet p n) -> V A) w x : runs answers (Call (VGet p n) k) w = Some x ->
  exists rest g, rest ⊆ answers /\ runs rest (k g) w = Some x /\
    (g = Ok (sw_rows w !! (p, n)) \/ faulty answers /\ exists e, g = Err e).
Proof.
  intros H. apply runs_call in H as (i & rest & g & w1 & new & -> & Hh & H).
  assert (w1 = w) as -> by (by serve_cases Hh). exists rest, g. split; [set_solver|]. split; [done|].
  serve_cases Hh; [by left|]. right. split; [|eauto]. eexists _, _. by left.
Qed.

Lemma setStatus_runs {A} answers p n st (k : vreply (VSetStatus p n st) -> V A) s w x : sw_rows w !! (p, n) = Some s ->
  runs answers (Call (VSetStatus p n st) k) w = Some x ->
  exists rest g w1, rest ⊆ answers /\ runs rest (k g) w1 = Some x /\ (g = Ok tt \/ faulty answers /\ exists e, g = Err e) /\
    (w1 = sw_setRows (<[(p, n) := withStatus st (sw_now w) s]> (sw_rows w)) w \/ (w1 = w /\ is_ok g = false)).
Proof.
  intros Es H. apply runs_call in H as (i & rest & g & w1 & new & -> & Hh & H). simpl in Hh. rewrite (lookup_setRow _ _ _ _ Es) in Hh.
  exists rest, g, w1. split; [set_solver|]. split; [done|]. destruct g as [[]|e].
  - apply statement_ok in Hh as ->. split; by left.
  - split; [right; split; [|eauto]|apply write_inv in Hh as [_ [->| ->]]; [by right|by left]].
    destruct i as [|how msg| | | | | | |]; try done. exists how, msg. by left.
Qed.
#[local] Opaque localStop.

Lemma Stop_runs answers p n w re w' : runs answers (Stop p n) w = Some (re, w') -> stopped p n (faulty answers) w re w'.
Proof.
  unfold Stop. destruct (String.eqb_spec p ""); [intros H; apply runs_ret in H; simplify_eq; constructor; by left|].
  intros H. apply get_runs in H as (rest & g & Hsub & H & [->|[Hf [e ->]]]); [|apply runs_ret in H; simplify_eq; constructor; tauto].
  cbn in H. destruct (sw_rows w !! (p, n)) as [s|] eqn:Es; [|apply runs_ret in H; simplify_eq; constructor; tauto].
  fold (idle s) in H. destruct (idle s) eqn:Ei; [apply runs_ret in H; simplify_eq; by econstructor|].
  cbn in H. apply (setStatus_runs _ _ _ _ _ _ _ _ Es) in H as (rest2 & g & w1 & Hsub2 & H & Hg & Hw1).
  destruct g as [u|e].
  2: { apply runs_ret in H. simplify_eq. destruct Hg as [?|[Hf _]]; [done|]. apply (faulty_sub _ answers) in Hf; [|done].
       destruct Hw1 as [->|[-> _]]; [by eapply StopStuck|constructor; tauto]. }
  destruct Hw1 as [->|[_ ?]]; [|done]. cbn in H. apply runs_bind in H as (l1 & l2 & d & w2 & -> & Hd & H).
  apply localStop_runs in Hd as (Hr & Hh & Hn & Hc & Hslot). simpl in *.
  assert (Es2 : sw_rows w2 !! (p, n) = Some (withStatus StatusStopping (sw_now w) s)) by (by rewrite Hr, lookup_insert_eq).
  assert (Hl2 : faulty l2 -> faulty answers) by (apply faulty_sub; set_solver).
  destruct d as [v|e]; apply (setStatus_runs _ _ _ _ _ _ _ _ Es2) in H as (rest3 & g & w3 & _ & H & Hg2 & Hw3);
    apply runs_ret in H; simplify_eq; rewrite Hr, Hn, insert_insert_eq in Hw3; destruct Hw3 as [->|[-> Hg3]].
  - eapply StopDone; simpl; try done; [by apply Hslot|]. destruct Hg2 as [->|[Hf [e ->]]]; [by left|right; auto].
  - destruct Hg2 as [->|[Hf [e ->]]]; [done|]. eapply (StopStuck _ _ _ _ s); [done..|auto].
  - destruct g; by eapply StopFailed.
  - destruct Hg2 as [->|[Hf [e' ->]]]; [done|]. eapply (StopStuck _ _ _ _ s); [done..|auto].
Qed.

#[local] Opaque Stop.

(** The row a deletion archives: the one it found, when that was not live, or the
    row after the stop. *)
Definition lastRow (s : Service) (now : Z) : Service := if idle s then s else withStatus StatusStopped now s.

Lemma delete_tail answers p n w s w' : sw_rows w !! (p, n) = Some s ->
  runs answers (_ ←! wrapping "serving: delete record" (invoke (VDelete p n));
                _ ← invoke (VPublish p "service.deleted" [("name"%string, n)]); Ret (Ok tt)) w = Some (Ok tt, w') ->
  sw_rows w' = delete (p, n) (sw_rows w) /\ sw_history w' = historyOf s (sw_now w) :: sw_history w /\
  sw_slots w' = sw_slots w /\ sw_calls w' = sw_calls w /\ sw_events w' = sw_events w ++ [(p, "service.deleted"%string, [("name"%string, n)])].
Proof.
  intros Es H. cbn in H. apply runs_call in H as (i & rest & g & w1 & new & -> & Hh & H). simpl in Hh. rewrite Es in Hh.
  destruct g as [u|e]; [|by apply runs_ret in H]. apply statement_ok in Hh as ->. cbn in H.
  apply runs_call in H as (i2 & rest2 & g2 & w2 & new2 & -> & Hh2 & H). apply runs_ret in H. simpl in Hh2. unfold external in Hh2.
  by simplify_eq/=.
Qed.

Lemma Delete_runs answers p n w w' : runs answers (Delete p n) w = Some (Ok tt, w') ->
  exists s, sw_rows w !! (p, n) = Some s /\
    sw_rows w' = delete (p, n) (sw_rows w) /\
    sw_history w' = historyOf (lastRow s (sw_now w)) (sw_now w) :: sw_history w /\
    sw_calls w' = (if idle s then [] else [RtStop (workload s) true]) ++ sw_calls w /\
    (idle s = false -> sw_slots w' !! serviceKey (sv_ProjectID s) (sv_Name s) = None).
Proof.
  unfold Delete. destruct (String.eqb p ""); [intros H; by apply runs_ret in H|].
  intros H. apply get_runs in H as (rest & g & _ & H & [->|[_ [e ->]]]); [|by apply runs_ret in H].
  cbn in H. destruct (sw_rows w !! (p, n)) as [s|] eqn:Es; [|by apply runs_ret in H]. exists s. split; [done|].
  unfold lastRow. destruct (idle s) eqn:Ei; unfold idle in Ei.
  - assert (Hb : (negb (String.eqb (sv_Status s) StatusStopped) && negb (String.eqb (sv_Status s) StatusStopping))%bool = false)
      by (by rewrite <- negb_orb, Ei).
    rewrite Hb in H. by apply (delete_tail rest _ _ _ _ _ Es) in H as (-> & -> & -> & -> & _).
  - assert (Hb : (negb (String.eqb (sv_Status s) StatusStopped) && negb (String.eqb (sv_Status s) StatusStopping))%bool = true)
      by (by rewrite <- negb_orb, Ei).
    rewrite Hb in H. apply runs_bind in H as (l1 & l2 & d & w2 & -> & Hd & H). apply runs_bind in Hd as (l3 & l4 & re & w3 & -> & Hd & Hw).
    apply runs_ret in Hw. destruct re as [[]|e]; simplify_eq; [|by apply runs_ret in H].
    apply Stop_runs in Hd. inversion Hd as [|s' Hs' Hi'|s' re w'' Hs' Hi' Hr Hh Hn Hsl Hc Hre| |]; simplify_eq; [unfold idle in *; congruence|].
    assert (Es3 : sw_rows w3 !! (p, n) = Some (withStatus StatusStopped (sw_now w) s)) by (by rewrite Hr, lookup_insert_eq).
    apply (delete_tail _ _ _ _ _ _ Es3) in H as (-> & -> & -> & -> & _). rewrite Hr, Hh, Hn, Hc, delete_insert_eq. done.
Qed.

(** A status report, on each way it can go: with [bad], when a statement fails. *)
Definition foreign (rid : string) (s : Service) : bool :=
  (negb (String.eqb rid "") && negb (String.eqb (sv_RuntimeID s) "") && negb (String.eqb (sv_RuntimeID s) rid))%bool.
Definition orKept (st : string) (s : Service) : string := if String.eqb st "" then sv_Status s else st.
Definition withReport (p n st ep : string) (s : Service) (w : SWorld) : SWorld :=
  sw_setRows (<[(p, n) := withStatusEndpoint (orKept st s) ep (sw_now w) s]> (sw_rows w)) w.

Inductive reported (p rid n st ep : string) (bad : Prop) (w : SWorld) : SWorld -> Prop :=
| ReportRefused : p = "" \/ sw_rows w !! (p, n) = None \/ (exists s, sw_rows w !! (p, n) = Some s /\ foreign rid s = true) \/ bad ->
    reported p rid n st ep bad w w
| ReportWritten s : sw_rows w !! (p, n) = Some s -> foreign rid s = false -> (orKept st s = sv_Status s \/ bad) ->
    reported p rid n st ep bad w (withReport p n st ep s w)
| ReportPublished s : sw_rows w !! (p, n) = Some s -> foreign rid s = false -> orKept st s <> sv_Status s ->
    reported p rid n st ep bad w
      (sw_setEvents (sw_events w ++ [(p, "service.status"%string, [("name"%string, n); ("status"%string, orKept st s)])])
         (withReport p n st ep s w)).

Lemma UpdateStatus_runs answers p rid n st ep w re w' : runs answers (UpdateStatus p rid n st ep) w = Some (re, w') ->
  reported p rid n st ep (faulty answers) w w'.
Proof.
  unfold UpdateStatus. destruct (String.eqb_spec p ""); [intros H; apply runs_ret in H; simplify_eq; constructor; by left|].
  intros H. apply get_runs in H as (rest & g & Hsub & H & [->|[Hf [e ->]]]); [|apply runs_ret in H; simplify_eq; constructor; tauto].
  cbn in H. destruct (sw_rows w !! (p, n)) as [s|] eqn:Es; [|apply runs_ret in H; simplify_eq; constructor; tauto].
  fold (foreign rid s) in H. destruct (foreign rid s) eqn:Eo; [apply runs_ret in H; simplify_eq; apply ReportRefused; right; right; left; by exists s|].
  fold (orKept st s) in H. cbn in H. apply runs_call in H as (i & rest2 & g & w1 & new & -> & Hh & H). simpl in Hh.
  rewrite (lookup_setRow _ _ _ _ Es) in Hh. destruct g as [u|e].
  - apply statement_ok in Hh as ->. cbn in H. destruct (String.eqb_spec (orKept st s) (sv_Status s)).
    + apply runs_ret in H. simplify_eq. apply ReportWritten; [done|done|by left].
    + apply runs_call in H as (i2 & rest3 & g2 & w2 & new2 & -> & Hh2 & H). apply runs_ret in H. simpl in Hh2. unfold external in Hh2.
      simplify_eq. by apply (ReportPublished _ _ _ _ _ _ _ s).
  - apply runs_ret in H. simplify_eq.
    assert (Hf : faulty answers).
    { destruct i as [|how msg| | | | | | |]; try done. exists how, msg. apply Hsub. by left. }
    apply write_inv in Hh as [_ [->| ->]]; [constructor; tauto|]. apply ReportWritten; [done|done|by right].
Qed.

Lemma reported_mono p rid n st ep (bad bad' : Prop) w w' : (bad -> bad') -> reported p rid n st ep bad w w' -> reported p rid n st ep bad' w w'.
Proof. intros Hb []; [apply ReportRefused; tauto|apply ReportWritten; tauto|by apply ReportPublished]. Qed.

Lemma report_runs answers p n st ep w u w' : runs answers (report cfg p n st ep) w = Some (u, w') ->
  reported p (lc_RuntimeID cfg) n st ep (faulty answers) w w'.
Proof.
  unfold report. intros H. apply runs_bind in H as (l1 & l2 & re & w1 & -> & H & Hr). apply runs_ret in Hr. simplify_eq.
  apply UpdateStatus_runs in H. eapply reported_mono; [|exact H]. apply faulty_sub. set_solver.
Qed.

(** *** Health checks *)

(** What a health check probes, and for how long. *)
Definition probeURL (req : DeployRequest) (endpoint : string) : string :=
  endpoint +:+ (if String.eqb (dq_HealthPath req) "" then "/"%string else dq_HealthPath req).
Definition probeTimeout : Z := if lc_HealthCheckTimeout cfg <=? 0 then 30 * time_Second else lc_HealthCheckTimeout cfg.
Definition probed (req : DeployRequest) (endpoint : string) (ready : bool) (w : SWorld) : SWorld :=
  sw_setCalls (RtReady (probeURL req endpoint) probeTimeout ready :: sw_calls w) w.
(** The slot of a service whose check failed: the exit will be reported as failed. *)
Definition condemned (req : DeployRequest) (a : activeService) (w : SWorld) : SWorld :=
  sw_setSlots (<[dq_Key req := mkActive (as_projectID a) (as_name a) (as_gen a) StatusFailed]> (sw_slots w)) w.
Definition stopAsked (req : DeployRequest) (done : bool) (w : SWorld) : SWorld :=
  sw_setCalls (RtStop (dq_RuntimeName req) done :: sw_calls w) w.

(** The check of a deployment, on each way it can go. *)
Inductive checked (req : DeployRequest) (endpoint : string) (bad : Prop) (w : SWorld) : SWorld -> Prop :=
| CheckPassed a w' : current (dq_Key req) (dq_Gen req) w = Some a ->
    reported (dq_ProjectID req) (lc_RuntimeID cfg) (dq_Name req) StatusRunning endpoint bad
      (decided (dq_Gen req) DRunning (probed req endpoint true w)) w' ->
    checked req endpoint bad w w'
| CheckPassedLate : current (dq_Key req) (dq_Gen req) w = None -> checked req endpoint bad w (probed req endpoint true w)
| CheckFailed a : current (dq_Key req) (dq_Gen req) w = Some a ->
    checked req endpoint bad w (stopAsked req true (condemned req a (probed req endpoint false w)))
| CheckFailedStays a w' : current (dq_Key req) (dq_Gen req) w = Some a ->
    reported (dq_ProjectID req) (lc_RuntimeID cfg) (dq_Name req) StatusFailed "" bad
      (stopAsked req false (condemned req a (probed req endpoint false w))) w' ->
    checked req endpoint bad w w'
| CheckFailedLate : current (dq_Key req) (dq_Gen req) w = None -> checked req endpoint bad w (probed req endpoint false w).
#[local] Opaque report.

Lemma healthCheck_runs answers req endpoint w u w' : runs answers (healthCheck cfg req endpoint) w = Some (u, w') ->
  checked req endpoint (faulty answers) w w'.
Proof.
  unfold healthCheck. intros H. apply runs_call in H as (i & rest & ready & w1 & new & -> & Hh & H).
  simpl in Hh. destruct i as [| | | | |r| | |]; try done. unfold external in Hh. simplify_eq/=.
  destruct ready as [v|e]; apply runs_call in H as (i2 & rest2 & b & w2 & new2 & -> & Hh & H); simpl in Hh.
  - fold (probeURL req endpoint) probeTimeout (probed req endpoint true w) in Hh.
    destruct (current (dq_Key req) (dq_Gen req) w) as [a|] eqn:Ec.
    + assert (Ec' : current (dq_Key req) (dq_Gen req) (probed req endpoint true w) = Some a) by exact Ec. rewrite Ec' in Hh.
      unfold external in Hh. simplify_eq/=. apply report_runs in H. eapply CheckPassed; [done|].
      eapply reported_mono; [|exact H]. apply faulty_sub. set_solver.
    + assert (Ec' : current (dq_Key req) (dq_Gen req) (probed req endpoint true w) = None) by exact Ec. rewrite Ec' in Hh.
      unfold external in Hh. simplify_eq/=. apply runs_ret in H. simplify_eq. by apply CheckPassedLate.
  - fold (probeURL req endpoint) probeTimeout (probed req endpoint false w) in Hh. unfold failDeploy in Hh.
    destruct (current (dq_Key req) (dq_Gen req) w) as [a|] eqn:Ec.
    + assert (Ec' : current (dq_Key req) (dq_Gen req) (probed req endpoint false w) = Some a) by exact Ec. rewrite Ec' in Hh.
      unfold external in Hh. simplify_eq/=. apply runs_call in H as (i3 & rest3 & stop & w3 & new3 & -> & Hh & H).
      simpl in Hh. destruct i3 as [| | | | |r| | |]; try done. unfold external in Hh. simplify_eq/=.
      destruct stop as [v|e']; simpl in H.
      * apply runs_ret in H. simplify_eq. by eapply CheckFailed.
      * apply report_runs in H. eapply CheckFailedStays; [done|].
        eapply reported_mono; [|exact H]. apply faulty_sub. set_solver.
    + assert (Ec' : current (dq_Key req) (dq_Gen req) (probed req endpoint false w) = None) by exact Ec. rewrite Ec' in Hh.
      unfold external in Hh. simplify_eq/=. apply runs_ret in H. simplify_eq. by apply CheckFailedLate.
Qed.

(** A report changes no row but its own. *)
Lemma reported_rows p rid n st ep bad w w' k row : reported p rid n st ep bad w w' -> sw_rows w' !! k = Some row ->
  sw_rows w !! k = Some row \/
  exists s, k = (p, n) /\ sw_rows w !! k = Some s /\ row = withStatusEndpoint (orKept st s) ep (sw_now w) s.
Proof.
  intros H Hk. destruct H as [|s Hs|s Hs]; [by left|..]; simpl in Hk;
    (apply lookup_insert_Some in Hk as [[<- <-]|[_ Hk]]; [right; by exists s|by left]).
Qed.

End Spec.

(** By itself, whatever its calls answer, a stop either refuses, changing
    nothing; or leaves the row stopped, all else of it as it was, and the driver's
    slot free; or, when the driver could not stop the workload, leaves the row with
    the status it had.  Only when a statement fails may the row stay at stopping, or
    an error follow a stop that was done.  It never reports success for a service
    that is still live. *)
Theorem Stop_outcomes cfg answers p n w re w'
    (Hrun : runs cfg answers (@Stop (localDriver cfg) p n) w = Some (re, w')) :
  stopped p n (faulty answers) w re w' /\
  (re = Ok tt -> forall s, sw_rows w' !! (p, n) = Some s -> idle s = true).
Proof.
  apply Stop_runs in Hrun. split; [done|]. intros -> s Hs.
  inversion Hrun as [|s' Hs' Hi'|s' re w'' Hs' Hi' Hr Hh Hn Hsl Hc Hre| |]; simplify_eq; [done|].
  rewrite Hr, lookup_insert_eq in Hs. by simplify_eq.
Qed.

(** C30: A deletion that succeeds removes exactly the service's row and archives
    its last state as the newest entry of the history.  Unless its row said stopped
    or stopping, the runtime was asked once to stop the workload and said it did,
    the archived status is stopped and the driver's slot is free.  A service whose row
    says stopping is deleted without that, whether its workload runs or not. *)
Theorem Delete_archives cfg answers p n w w'
    (Hrun : runs cfg answers (@Delete (localDriver cfg) p n) w = Some (Ok tt, w')) :
  exists s, sw_rows w !! (p, n) = Some s /\
    sw_rows w' = delete (p, n) (sw_rows w) /\
    sw_history w' = historyOf (lastRow s (sw_now w)) (sw_now w) :: sw_history w /\
    sw_calls w' = (if idle s then [] else [RtStop (workload s) true]) ++ sw_calls w /\
    (idle s = false -> sw_slots w' !! serviceKey (sv_ProjectID s) (sv_Name s) = None /\
                       sv_Status (lastRow s (sw_now w)) = StatusStopped).
Proof.
  apply Delete_runs in Hrun as (s & H1 & H2 & H3 & H4 & H5). exists s. repeat (split; [done|]).
  intros Hi. split; [by apply H5|]. unfold lastRow. by rewrite Hi.
Qed.

(** C27: The health check of a deployment, by itself, whatever its calls answer:
    it probes the deployment's own endpoint once.  When the probe succeeds it
    reports the deployment as running, with that endpoint, exactly if its generation
    still holds the driver's slot, and otherwise changes nothing.  When it fails, and
    the generation still holds the slot, the slot is marked so that the exit will be
    reported as failed, the runtime is asked to stop the workload and, only if that
    fails too, the deployment is reported as failed; a superseded generation is left
    alone.  So no row becomes running but that of a deployment that holds the slot and
    answered this probe. *)
Theorem healthCheck_outcomes cfg answers req endpoint w u w'
    (Hrun : runs cfg answers (healthCheck cfg req endpoint) w = Some (u, w')) :
  checked cfg req endpoint (faulty answers) w w' /\
  (forall k row, sw_rows w' !! k = Some row -> sv_Status row = StatusRunning ->
     sw_rows w !! k = Some row \/
     (k = (dq_ProjectID req, dq_Name req) /\ is_Some (current (dq_Key req) (dq_Gen req) w) /\
      sw_calls w' = RtReady (probeURL req endpoint) (probeTimeout cfg) true :: sw_calls w)).
Proof.
  apply healthCheck_runs in Hrun. split; [done|]. intros k row Hk Hst.
  destruct Hrun as [a w' Ha Hr| |a Ha|a w' Ha Hr|]; try (by left).
  - destruct (reported_rows _ _ _ _ _ _ _ _ _ _ Hr Hk) as [H|(s & -> & _ & _)]; [by left|]. right. split; [done|]. split; [by exists a|]. by destruct Hr.
  - destruct (reported_rows _ _ _ _ _ _ _ _ _ _ Hr Hk) as [H|(s & -> & _ & ->)]; [by left|done].
Qed.

(** A status report changes at most the row of its service, and only if there
    is one that no other runtime owns; it never changes which deployment the row
    is, an empty status keeps the one the row has, and a change of status, and only
    that, is published. *)
Theorem report_confined cfg answers p rid n st ep w re w'
    (Hrun : runs cfg answers (UpdateStatus p rid n st ep) w = Some (re, w')) :
  (sw_rows w' = sw_rows w /\ sw_events w' = sw_events w /\ is_ok re = false) \/
  exists s, sw_rows w !! (p, n) = Some s /\ (rid = ""%string \/ sv_RuntimeID s = ""%string \/ sv_RuntimeID s = rid) /\
    let st' := if String.eqb st "" then sv_Status s else st in
    sw_rows w' = <[(p, n) := withStatusEndpoint st' ep (sw_now w) s]> (sw_rows w) /\
    sameDeployment s (withStatusEndpoint st' ep (sw_now w) s) /\
    sw_events w' = sw_events w ++
      (if (is_ok re && negb (String.eqb st' (sv_Status s)))%bool
       then [(p, "service.status"%string, [("name"%string, n); ("status"%string, st')])] else []).
Proof.
  revert Hrun. unfold UpdateStatus. destruct (String.eqb p ""); [intros H; apply runs_ret in H; simplify_eq; by left|].
  intros H. apply get_runs in H as (rest & g & _ & H & [->|[_ [e ->]]]); [|apply runs_ret in H; simplify_eq; by left].
  cbn in H. destruct (sw_rows w !! (p, n)) as [s|] eqn:Es; [|apply runs_ret in H; simplify_eq; by left].
  destruct (negb (String.eqb rid "") && negb (String.eqb (sv_RuntimeID s) "") && negb (String.eqb (sv_RuntimeID s) rid))%bool eqn:Eo;
    [apply runs_ret in H; simplify_eq; by left|].
  assert (Hown : rid = ""%string \/ sv_RuntimeID s = ""%string \/ sv_RuntimeID s = rid).
  { destruct (String.eqb_spec rid ""), (String.eqb_spec (sv_RuntimeID s) ""), (String.eqb_spec (sv_RuntimeID s) rid); simpl in Eo; auto; done. }
  cbn in H. apply runs_call in H as (i & rest2 & g & w1 & new & -> & Hh & H). simpl in Hh. rewrite (lookup_setRow _ _ _ _ Es) in Hh.
  destruct g as [u|e].
  - right. exists s. apply statement_ok in Hh as ->. cbn in H. repeat (split; [done|]). set (st' := if String.eqb st "" then _ else _) in *.
    destruct (String.eqb st' (sv_Status s)).
    + apply runs_ret in H. simplify_eq/=. by rewrite app_nil_r.
    + apply runs_call in H as (i2 & rest3 & g2 & w2 & new2 & -> & Hh2 & H). apply runs_ret in H. simpl in Hh2. unfold external in Hh2.
      by simplify_eq/=.
  - apply runs_ret in H. apply write_inv in Hh as [_ Hw1]. simplify_eq/=. destruct Hw1 as [->| ->]; [by left|]. right. exists s.
    repeat (split; [done|]). simpl. by rewrite app_nil_r.
Qed.
