(* ===== verification/ServingDemo.v ===== *)
(** * Model services: concrete runs

    The theorems at concrete runs of a bare-metal installation, and runs in which
    the code does not do what it means to. *)

From S2P Require Import Prelude Prog Pipeline Serving ServingManager ServingWorld ServingSafety ServingHistory ServingSpec.
From stdpp Require Import options.
#[local] Open Scope string_scope.
#[local] Open Scope Z_scope.
#[local] Open Scope list_scope.

(** ** An installation *)

Definition demoModel (runtime uri : string) : ModelService :=
  mkModelService (mkTypeMeta "piper/v1" "ModelService") (mkObjectMeta "demo" 0 "" ∅ "" [])
    (mkServiceSpec (mkSpecOptions [] 0) (mkModelRef None uri) (mkServiceRun ["serve"] 8000 "")
       (mkDriver runtime None (Some (mkDocker "img" "" "" "" false "" "" [] [] None)) None)).

(** Versions of a service, and one for a runtime this installation does not have. *)
Definition demoDecode (yaml : string) : option ModelService :=
  if String.eqb yaml "v1" then Some (demoModel "" "/m/v1")
  else if String.eqb yaml "v2" then Some (demoModel "" "/m/v2")
  else if String.eqb yaml "v3" then Some (demoModel "" "/m/v3")
  else if String.eqb yaml "docker" then Some (demoModel "docker" "/m/v3")
  else None.

Definition demoConfig : LocalConfig := mkLocalConfig "piper-serving-runtime" false false 0.
Definition demoResolver : localResolver := mkResolver "/out" "" (Ok ("", "")) NoStore "".
Definition demoItoa (z : Z) : string := "8000".

Abbreviation demoExec := (exec demoConfig demoItoa "baremetal" demoDecode demoResolver "").
Abbreviation demoOrderly := (orderly demoConfig demoItoa "baremetal" demoDecode demoResolver "").

Definition on (tid : nat) : list vchoice -> list op := map (OThread tid).
Definition endpoint : string := "http://localhost:8000".
Definition started : vchoice := VString (Ok endpoint).

(** A first deployment, and the report of its health check by thread [t]. *)
Definition deployFirst : list op :=
  ONext (RDeploy "u" "p" "v1") :: on 0 [VDone; VDone; VDone; VDone; started; VDone; VDone; VDone; VDone].
Definition becomesHealthy (t : nat) : list op := on t [VUnit (Ok tt); VDone; VDone; VDone; VDone].
(** The calls of a stop and of a deployment over an existing row. *)
Definition stopCalls : list vchoice := [VDone; VDone; VDone; VUnit (Ok tt); VDone; VDone].
Definition deployOver : list vchoice := [VDone; VDone; VDone; VDone; started; VDone; VDone; VDone].
Definition redeploy (yaml : string) : list op :=
  ONext (RDeploy "u" "p" yaml) :: on 0 ([VDone] ++ stopCalls ++ deployOver ++ [VDone]).

Definition view (s : SWorld * list (V unit)) :=
  (match sw_rows s.1 !! ("p", "demo") with Some r => Some (sv_Status r, sv_YAML r, sv_Endpoint r) | None => None end,
   map (fun h => (sh_YAML h, sh_Status h)) (sw_history s.1)).

Example deployed_and_healthy :
  view <$> demoExec (deployFirst ++ becomesHealthy 1) (start 0) = Some (Some ("running", "v1", endpoint), []).
Proof. vm_compute. reflexivity. Qed.

Example redeployed :
  view <$> demoExec (deployFirst ++ becomesHealthy 1 ++ redeploy "v2" ++ becomesHealthy 2) (start 0) =
  Some (Some ("running", "v2", endpoint), [("v1", "stopped")]).
Proof. vm_compute. reflexivity. Qed.

(** ** The theorems at these runs *)

Definition twoVersions : list op :=
  deployFirst ++ becomesHealthy 1 ++ [OTick 5] ++ redeploy "v2" ++ becomesHealthy 2 ++ [OExit 0 "failed"; OThread 3 VDone].

Definition state_of (ops : list op) : SWorld * list (V unit) := default (start 0) (demoExec ops (start 0)).



(** The world in which the first version runs. *)
Definition running : SWorld := (state_of (deployFirst ++ becomesHealthy 1)).1.
Definition after {A} (x : option (A * SWorld)) : SWorld := match x with Some (_, w) => w | None => running end.

Definition stopBroken : list vchoice := [VDone; VDone; VDone; VUnit (Err (SMsg "supervisor")); VDone].

Lemma Stop_outcomes_witness :
  exists e w', runs demoConfig stopBroken (@Stop (localDriver demoConfig) "p" "demo") running = Some (Err e, w') /\
    stopped "p" "demo" (faulty stopBroken) running (Err e) w'.
Proof.
  eexists _, _. split; [vm_compute; reflexivity|].
  eapply (fun H => proj1 (Stop_outcomes demoConfig stopBroken "p" "demo" running _ _ H)). vm_compute. reflexivity.
Defined.

Definition deleteCalls : list vchoice := [VDone] ++ stopCalls ++ [VDone; VDone].

Lemma Delete_archives_witness :
  exists w', runs demoConfig deleteCalls (@Delete (localDriver demoConfig) "p" "demo") running = Some (Ok tt, w') /\
    exists s, sw_rows running !! ("p", "demo") = Some s /\ sw_rows w' = delete ("p", "demo") (sw_rows running) /\
      sw_history w' = historyOf (lastRow s (sw_now running)) (sw_now running) :: sw_history running /\
      sw_calls w' = (if idle s then [] else [RtStop (workload s) true]) ++ sw_calls running /\
      (idle s = false -> sw_slots w' !! serviceKey (sv_ProjectID s) (sv_Name s) = None /\
                         sv_Status (lastRow s (sw_now running)) = StatusStopped).
Proof.
  eexists. split; [vm_compute; reflexivity|].
  apply (Delete_archives demoConfig deleteCalls "p" "demo" running). vm_compute. reflexivity.
Defined.

(** The first version before its check. *)
Definition unchecked : SWorld := (state_of deployFirst).1.
Definition checkOf (gen : nat) : DeployRequest :=
  deployRequest demoConfig (withProjectID "p" (demoModel "" "/m/v1")) (localPath "/m/v1") [] gen.

Lemma healthCheck_outcomes_witness :
  exists w', runs demoConfig [VUnit (Ok tt); VDone; VDone; VDone; VDone] (healthCheck demoConfig (checkOf 1) endpoint) unchecked = Some (tt, w') /\
    (sv_Status <$> sw_rows w' !! ("p", "demo")) = Some StatusRunning /\
    sw_calls w' = [RtReady "http://localhost:8000/" (30 * time_Second) true] /\
    checked demoConfig (checkOf 1) endpoint (faulty [VUnit (Ok tt); VDone; VDone; VDone; VDone]) unchecked w'.
Proof.
  eexists. split; [vm_compute; reflexivity|]. split; [vm_compute; reflexivity|]. split; [vm_compute; reflexivity|].
  eapply (fun H => proj1 (healthCheck_outcomes demoConfig [VUnit (Ok tt); VDone; VDone; VDone; VDone] (checkOf 1) endpoint unchecked tt _ H)).
  vm_compute. reflexivity.
Defined.

(** A superseded generation reports nothing. *)
Example late_check :
  (fun x => sw_rows x.2) <$> runs demoConfig [VUnit (Ok tt); VDone] (healthCheck demoConfig (checkOf 0) endpoint) unchecked =
  Some (sw_rows unchecked).
Proof. vm_compute. reflexivity. Qed.

Lemma report_confined_witness :
  exists re w', runs demoConfig [VDone; VDone; VDone] (UpdateStatus "p" "piper-serving-runtime" "demo" "failed" "") running = Some (re, w') /\
  ((sw_rows w' = sw_rows running /\ sw_events w' = sw_events running /\ is_ok re = false) \/
   exists s, sw_rows running !! ("p", "demo") = Some s /\
     ("piper-serving-runtime" = "" \/ sv_RuntimeID s = "" \/ sv_RuntimeID s = "piper-serving-runtime") /\
     let st' := if String.eqb "failed" "" then sv_Status s else "failed" in
     sw_rows w' = <[("p", "demo") := withStatusEndpoint st' "" (sw_now running) s]> (sw_rows running) /\
     sameDeployment s (withStatusEndpoint st' "" (sw_now running) s) /\
     sw_events w' = sw_events running ++
       (if (is_ok re && negb (String.eqb st' (sv_Status s)))%bool
        then [("p", "service.status", [("name", "demo"); ("status", st')])] else [])).
Proof.
  eexists _, _. split; [vm_compute; reflexivity|].
  apply (report_confined demoConfig [VDone; VDone; VDone] "p" "piper-serving-runtime" "demo" "failed" "" running). vm_compute. reflexivity.
Defined.

(** ** Where the code falls short *)

Definition active (s : SWorld * list (V unit)) : option nat := as_gen <$> sw_slots s.1 !! "p:demo".
Definition outcome (ops : list op) := (fun s => (view s, active s)) <$> demoExec ops (start 0).

(** [Stop] puts back the status of a service it could not stop; [deployService]
    then marks the same row failed, although the service still runs. *)
Example running_marked_failed :
  outcome (deployFirst ++ becomesHealthy 1 ++ [ONext (RDeploy "u" "p" "v2")] ++ on 0 ([VDone] ++ stopBroken ++ [VDone])) =
  Some ((Some ("failed", "v1", endpoint), []), Some 1%nat).
Proof. vm_compute. reflexivity. Qed.

(** A manifest whose placement this installation does not accept is refused only
    after the running version was stopped. *)
Example refused_after_stop :
  outcome (deployFirst ++ becomesHealthy 1 ++ [ONext (RDeploy "u" "p" "docker")] ++ on 0 ([VDone] ++ stopCalls ++ [VDone])) =
  Some ((Some ("failed", "v1", endpoint), []), None).
Proof. vm_compute. reflexivity. Qed.

(** When the read before the overwrite fails, the previous version is not archived. *)
Example unread_version_lost :
  outcome (deployFirst ++ becomesHealthy 1 ++ [ONext (RDeploy "u" "p" "v2")] ++
           on 0 ([VDone] ++ stopCalls ++ [VFailed AttemptLost "locked"; VDone; VDone; started; VDone; VDone; VDone; VDone])) =
  Some ((Some ("starting", "v2", endpoint), []), Some 2%nat).
Proof. vm_compute. reflexivity. Qed.

(** Two deployments at once: v2 runs, but its row was overwritten by v3, which the
    driver refused, and is in no history. *)
Example concurrent_version_lost :
  outcome (deployFirst ++ becomesHealthy 1 ++ [ORequest (RDeploy "u" "p" "v2"); ORequest (RDeploy "u" "p" "v3")] ++
           on 2 ([VDone] ++ stopCalls ++ [VDone]) ++ on 3 [VDone; VDone; VDone] ++
           on 2 [VDone; VDone; VDone; started; VDone] ++ on 3 [VDone; VDone; VDone; VDone; VDone]) =
  Some ((Some ("failed", "v3", ""), [("v1", "stopped"); ("v1", "stopped")]), Some 2%nat).
Proof. vm_compute. reflexivity. Qed.

(** A stopped service keeps its endpoint. *)
Example stopped_keeps_endpoint :
  outcome (deployFirst ++ becomesHealthy 1 ++ [ONext (RStop "p" "demo")] ++ on 0 stopCalls) =
  Some ((Some ("stopped", "v1", endpoint), []), None).
Proof. vm_compute. reflexivity. Qed.

(** The history says of v2, deployed at 5, that it was deployed at 0. *)
Example deployed_at_of_first :
  (fun s => map (fun h => (sh_YAML h, sh_DeployedAt h, sh_StoppedAt h)) (sw_history s.1)) <$>
  demoExec (deployFirst ++ [OTick 5] ++ redeploy "v2" ++ [OTick 3; ONext (RDelete "p" "demo")] ++ on 0 deleteCalls) (start 0) =
  Some [("v2", 0, 8); ("v1", 0, 5)].
Proof. vm_compute. reflexivity. Qed.

(** The exit of v1 is granted, v2 is deployed and passes its check, and then the
    report about v1 arrives: v2 runs, its row says failed. *)
Example stale_exit_overwrites :
  outcome (deployFirst ++ becomesHealthy 1 ++ [OExit 0 "failed"; OThread 2 VDone; ONext (RDeploy "u" "p" "v2")] ++
           on 0 ([VDone; VDone; VDone; VDone; VUnit (Ok tt); VDone] ++ deployOver ++ [VDone]) ++ becomesHealthy 3 ++
           on 2 [VDone; VDone; VDone]) =
  Some ((Some ("failed", "v2", ""), [("v1", "stopped")]), Some 2%nat).
Proof. vm_compute. reflexivity. Qed.

(** The check of v1 succeeds and finds its generation current, v2 is deployed, and
    then the report about v1 arrives: v2, which answered nothing yet, is shown
    running. *)
Example stale_running_overwrites :
  outcome (deployFirst ++ on 1 [VUnit (Ok tt); VDone] ++ redeploy "v2" ++ on 1 [VDone; VDone; VDone]) =
  Some ((Some ("running", "v2", endpoint), [("v1", "stopped")]), Some 2%nat).
Proof. vm_compute. reflexivity. Qed.

(** A stop that failed and could not put the status back: from then on a stop does
    nothing, and a deletion removes the row of a service that runs. *)
Definition stuck : list op :=
  deployFirst ++ becomesHealthy 1 ++ [ONext (RStop "p" "demo")] ++
  on 0 [VDone; VDone; VDone; VUnit (Err (SMsg "supervisor")); VFailed AttemptLost "locked"].
Example stopping_is_stuck :
  outcome (stuck ++ [ONext (RStop "p" "demo")] ++ on 0 [VDone]) = Some ((Some ("stopping", "v1", endpoint), []), Some 1%nat) /\
  outcome (stuck ++ [ONext (RDelete "p" "demo")] ++ on 0 [VDone; VDone; VDone]) = Some ((None, [("v1", "stopping")]), Some 1%nat).
Proof. split; vm_compute; reflexivity. Qed.

(** A download of an artifact that failed half-way is taken for the artifact the
    next time. *)
Definition remoteResolver : localResolver := mkResolver "/out" "s3://b" (Ok ("s3", "b")) RemoteStore "".
Definition twoObjects : vchoice := VStrings (Ok ["r1/train/model/a"; "r1/train/model/b"]).
Definition firstTry := runs demoConfig
  [VOptString (Ok None); VDone; twoObjects; VDone; VString (Ok "A"); VDone; VDone; VDone; VString (Err (SMsg "reset"))]
  (Resolve remoteResolver "p" "pl" "train" "model" "r1" TargetLocal) running.
Example partial_download_reused :
  (exists e w, firstTry = Some (Err e, w)) /\
  match runs demoConfig [VOptString (Ok None); VDone] (Resolve remoteResolver "p" "pl" "train" "model" "r1" TargetLocal) (after firstTry) with
  | Some (Ok art, w) => rs_LocalPath art = "/out/artifact-cache/r1/train/model" /\
      sw_files w !! "/out/artifact-cache/r1/train/model/a" = Some "A" /\ sw_files w !! "/out/artifact-cache/r1/train/model/b" = None
  | _ => False
  end.
Proof. split; [eexists _, _; vm_compute; reflexivity|]. vm_compute. auto. Qed.

(** A valid service name leads out of the directory of models. *)
Definition escapingModel : ModelService :=
  mkModelService (mkTypeMeta "piper/v1" "ModelService") (mkObjectMeta "../../etc" 0 "" ∅ "" [])
    (ms_Spec (demoModel "" "http://h/passwd")).
Example model_dir_escapes :
  ValidateService escapingModel = Ok tt /\ modelDir demoResolver "" (m_Name (ms_Metadata escapingModel)) = "/etc".
Proof. split; vm_compute; reflexivity. Qed.

(** A remote runtime is refused a file URI but not the same path without a scheme. *)
Example bare_path_unchecked :
  resolveModelURI demoResolver "" "demo" "file:///m" TargetRemote = Ret (Err (SMsg "remote serving cannot access a master-local file URI")) /\
  resolveModelURI demoResolver "" "demo" "/m" TargetRemote = Ret (Ok (localPath "/m")).
Proof. split; reflexivity. Qed.
