(* ===== verification/NotebookModel.v ===== *)
(** * Notebook servers: manifests, rows, calls

    The data of [pkg/notebook]: manifests with their validation ([spec.go],
    [parse.go], [prepare.go]), the script that starts a notebook ([prepare.go]), the
    rows ([model.go], [volume.go]) and the calls through which the manager reaches
    the repositories and the driver. *)

From S2P Require Import Prelude Prog Pipeline.
From stdpp Require Import pretty.
From stdpp Require Import options.
#[local] Open Scope Z_scope.

(** ** Manifests *)

Record VolumeSpec := mkVolumeSpec { vs_Size : string; vs_StorageClass : string }.
Record NotebookPrepareStep := mkPrepareStep { pp_Type : string; pp_Backend : string; pp_Command : list string }.
Record NotebookPrepareSpec := mkPrepareSpec { pr_Presets : list string; pr_Steps : list NotebookPrepareStep }.
Record NotebookSpec := mkNotebookSpec {
  ns_Options : SpecOptions; ns_Prepare : option NotebookPrepareSpec; ns_Volume : option VolumeSpec; ns_Driver : DriverSpec }.
Record Notebook := mkNotebook { nb_TypeMeta : TypeMeta; nb_Metadata : ObjectMeta; nb_Spec : NotebookSpec }.

(** One constructor per message; [NWrap] is [fmt.Errorf] with [%w]. *)
Inductive nbErr : Type :=
| NMeta (e : verr) | NDecode
| NNameRequired | NReserved (name : string)
| NDockerImage | NK8sImage | NK8sNamespace | NVolumeSize | NRuntime (runtime : string)
| NPlacement (owned : string)
| NStepType (i : nat) | NStepCommand (i : nat) | NStepUnsupported (i : nat) | NStepBackend (i : nat)
| NBaseCommand
| NProject
| NNotFound | NConflict (status : string)
| NWrongRuntime (owner reporter : string)
| NNoVolume
| NMsg (msg : string)
| NWrap (context : string) (e : nbErr)
| NRestore (e restoreErr : nbErr).

Definition reservedNotebookNames : list string := ["history"].

Definition volumeSize (n : Notebook) : string :=
  match ns_Volume (nb_Spec n) with Some v => vs_Size v | None => "" end.

Definition validateNotebookDriver (requireVolumeSize : bool) (n : Notebook) : res nbErr unit :=
  let d := ns_Driver (nb_Spec n) in
  if String.eqb (dr_Runtime d) "baremetal" then Ok tt
  else if String.eqb (dr_Runtime d) "docker" then
    check match dr_Docker d with None => true | Some k => String.eqb (d_Image k) "" end NDockerImage
  else if String.eqb (dr_Runtime d) "k8s" then
    _ ← check match dr_K8s d with None => true | Some k => String.eqb (k8s_Image k) "" end NK8sImage;
    _ ← check match dr_K8s d with None => true | Some k => String.eqb (k8s_Namespace k) "" end NK8sNamespace;
    check (requireVolumeSize && String.eqb (volumeSize n) "") NVolumeSize
  else if String.eqb (dr_Runtime d) "" then Ok tt
  else Err (NRuntime (dr_Runtime d)).

Definition validateNotebook (requireVolumeSize : bool) (n : Notebook) : res nbErr unit :=
  let name := m_Name (nb_Metadata n) in
  _ ← match ValidateTypeMeta (nb_TypeMeta n) "Notebook" with Ok _ => Ok tt | Err e => Err (NMeta e) end;
  _ ← check (String.eqb (TrimSpace name) "") NNameRequired;
  _ ← check (existsb (String.eqb name) reservedNotebookNames) (NReserved name);
  validateNotebookDriver requireVolumeSize n.

Definition ValidateNotebook (n : Notebook) : res nbErr unit := validateNotebook true n.
Definition ValidateForExistingVolume (n : Notebook) : res nbErr unit := validateNotebook false n.

(** [manifest.ValidateRuntimePlacement] *)
Definition validatePlacement (n : Notebook) (owned : string) : res nbErr unit :=
  let runtime := dr_Runtime (ns_Driver (nb_Spec n)) in
  if String.eqb owned "" then Ok tt
  else check (negb (String.eqb runtime "") && negb (String.eqb runtime owned))%bool (NPlacement owned).

(** *** Preparation: [prepare.go] *)

Definition PrepareStepCommand : string := "command".
Definition prepareBackends : list string := ["process"; "docker"; "k8s"].

Definition validateStep (i : nat) (step : NotebookPrepareStep) : res nbErr unit :=
  _ ← check (String.eqb (pp_Type step) "") (NStepType i);
  _ ← (if String.eqb (pp_Type step) PrepareStepCommand
       then check (Nat.eqb (List.length (pp_Command step)) 0) (NStepCommand i)
       else Err (NStepUnsupported i));
  check (negb (String.eqb (pp_Backend step) "") && negb (existsb (String.eqb (pp_Backend step)) prepareBackends))%bool (NStepBackend i).

Definition ValidatePrepare (s : option NotebookPrepareSpec) : res nbErr unit :=
  match s with None => Ok tt | Some s => eachi validateStep (pr_Steps s) end.

Fixpoint stepsFor (backend : string) (i : nat) (l : list NotebookPrepareStep) : res nbErr (list NotebookPrepareStep) :=
  match l with
  | [] => Ok []
  | step :: l =>
      if (negb (String.eqb (pp_Backend step) "") && negb (String.eqb (pp_Backend step) backend))%bool then stepsFor backend (S i) l
      else if negb (String.eqb (pp_Type step) PrepareStepCommand) then Err (NStepUnsupported i)
      else out ← stepsFor backend (S i) l; Ok (step :: out)
  end.

Definition StepsForBackend (s : option NotebookPrepareSpec) (backend : string) : res nbErr (list NotebookPrepareStep) :=
  _ ← ValidatePrepare s;
  match s with None => Ok [] | Some s => stepsFor backend 0 (pr_Steps s) end.

(** [parse]; [decode] is the strict YAML decoder. *)
Definition parseNotebook (decode : string -> option Notebook) (existingVolume : bool) (data : string) : res nbErr Notebook :=
  match decode data with
  | None => Err (NWrap "parse Notebook YAML" NDecode)
  | Some n =>
      _ ← match RequireTypeMeta (nb_TypeMeta n) "Notebook" with Ok _ => Ok tt | Err e => Err (NMeta e) end;
      _ ← (if existingVolume then ValidateForExistingVolume n else ValidateNotebook n);
      match ValidatePrepare (ns_Prepare (nb_Spec n)) with
      | Ok _ => Ok n
      | Err e => Err (NWrap "invalid prepare spec" e)
      end
  end.

(** *** The script *)

Definition newline : ascii := ascii_of_nat 10.
Definition squote : ascii := ascii_of_nat 39.
Definition dquote : ascii := ascii_of_nat 34.
Definition char (c : ascii) : string := String c "".

Definition inRange (lo hi : nat) (c : ascii) : bool := (Nat.leb lo (nat_of_ascii c) && Nat.leb (nat_of_ascii c) hi)%bool.
Definition isShellSafe (c : ascii) : bool :=
  (inRange 97 122 c || inRange 65 90 c || inRange 48 57 c || str_mem c "_-./:,=+@%")%bool.
Fixpoint isShellSafeWord (s : string) : bool :=
  match s with EmptyString => true | String c s => (isShellSafe c && isShellSafeWord s)%bool end.

(** [strings.ReplaceAll(s, c, by)] for one byte [c] *)
Fixpoint replaceByte (c : ascii) (by_ : string) (s : string) : string :=
  match s with
  | EmptyString => ""
  | String d s => ((if Ascii.eqb d c then by_ else char d) +:+ replaceByte c by_ s)%string
  end.

(** A quote inside single quotes: end them, a quote in double quotes, begin again. *)
Definition quotedQuote : string := String squote (String dquote (String squote (String dquote (char squote)))).

Definition shellQuote (s : string) : string :=
  if String.eqb s "" then String squote (char squote)
  else if isShellSafeWord s then s
  else (char squote +:+ replaceByte squote quotedQuote s +:+ char squote)%string.

Definition shellJoin (args : list string) : string := str_join " "%char (map shellQuote args).

(** [line], with a newline if it has none at its end *)
Definition withNewline (line : string) : string :=
  if String.eqb (str_drop (String.length line - 1) line) (char newline) then line else (line +:+ char newline)%string.

Definition prefixLine (line : string) : string := if String.eqb line "" then "" else withNewline line.

Fixpoint concatStrings (l : list string) : string :=
  match l with [] => "" | s :: l => (s +:+ concatStrings l)%string end.

Definition BuildLaunchScript (prefixLines : list string) (steps : list NotebookPrepareStep) (baseCommand : list string)
    (workDir : string) : res nbErr string :=
  _ ← check (Nat.eqb (List.length baseCommand) 0) NBaseCommand;
  Ok ("set -e" +:+ char newline +:+
      concatStrings (map prefixLine prefixLines) +:+
      (if String.eqb workDir "" then "" else "cd " +:+ shellQuote workDir +:+ char newline) +:+
      concatStrings (map (fun step => shellJoin (pp_Command step) +:+ char newline) steps) +:+
      "exec " +:+ shellJoin baseCommand +:+ char newline)%string.

(** *** Commands: [runtime.go], [notebookdriver/driver.go], [process/driver.go] *)

Definition ContainerWorkDir : string := "/home/jovyan/work".
Definition allowHiddenArg : string := "--ContentsManager.allow_hidden=True".

Definition JupyterLabArgs (baseURL token rootDir : string) (port : Z) : list string :=
  ["--ServerApp.base_url=" +:+ baseURL; "--ServerApp.token=" +:+ token; "--IdentityProvider.token=" +:+ token;
   "--ServerApp.root_dir=" +:+ rootDir; "--ServerApp.trust_xheaders=True"; "--ServerApp.allow_origin=*"; "--no-browser";
   "--ServerApp.port_retries=0"; allowHiddenArg; "--ServerApp.port=" +:+ pretty port]%string.

Definition JupyterStartArgs (baseURL token rootDir : string) (port : Z) : list string :=
  "start-notebook.py"%string :: JupyterLabArgs baseURL token rootDir port.

Record StartRequest := mkStartRequest {
  nq_RuntimeName : string; nq_ProjectID : string; nq_Name : string; nq_Spec : Notebook; nq_WorkDir : string; nq_Port : Z;
  nq_Token : string; nq_BaseURL : string; nq_ExtraEnv : list string; nq_Key : string; nq_Gen : nat }.

(** [strings.CutPrefix] *)
Definition cutPrefix (prefix s : string) : option string :=
  if String.prefix prefix s then Some (str_drop (String.length prefix) s) else None.

Definition launchCommand (req : StartRequest) (bin : string) (extraArgs : list string) (envPath : string)
    (prepSteps : list NotebookPrepareStep) : res nbErr (list string) :=
  let jupyterArgs := JupyterLabArgs (nq_BaseURL req) (nq_Token req) (nq_WorkDir req) (nq_Port req) in
  match cutPrefix "conda:" envPath with
  | Some condaName =>
      _ ← check (String.eqb condaName "") (NMsg "conda env name is empty");
      script ← BuildLaunchScript [] prepSteps (["jupyter"; "lab"] ++ jupyterArgs) (nq_WorkDir req);
      Ok [bin; "run"; "--no-capture-output"; "-n"; condaName; "sh"; "-lc"; script]%string
  | None =>
      script ← BuildLaunchScript [] prepSteps (([bin] ++ extraArgs) ++ jupyterArgs) (nq_WorkDir req);
      Ok ["sh"; "-lc"; script]%string
  end.

(** [strconv.Atoi] *)
Definition maxInt64 : Z := 9223372036854775807.
Fixpoint digits (acc : Z) (s : string) : option Z :=
  match s with
  | EmptyString => Some acc
  | String c s => if inRange 48 57 c then digits (acc * 10 + Z.of_nat (nat_of_ascii c - 48)) s else None
  end.
Definition digitsOf (s : string) : option Z := if String.eqb s "" then None else digits 0 s.
Definition Atoi (s : string) : option Z :=
  match s with
  | String c rest =>
      if Ascii.eqb c "-"%char then n ← digitsOf rest; if n <=? maxInt64 + 1 then Some (- n) else None
      else n ← digitsOf (if Ascii.eqb c "+"%char then rest else s); if n <=? maxInt64 then Some n else None
  | EmptyString => None
  end.

(** ** Rows *)

Definition StatusProvisioning : string := "provisioning".
Definition StatusStarting : string := "starting".
Definition StatusRunning : string := "running".
Definition StatusStopping : string := "stopping".
Definition StatusStopped : string := "stopped".
Definition StatusFailed : string := "failed".
Definition VolumeStatusBound : string := "bound".
Definition VolumeStatusReleased : string := "released".

Record NotebookServer := mkServer {
  sv_ProjectID : string; sv_Name : string; sv_Status : string; sv_Env : string; sv_Endpoint : string; sv_PID : Z;
  sv_WorkDir : string; sv_Token : string; sv_RuntimeID : string; sv_VolumeID : string; sv_Reason : string; sv_YAML : string;
  sv_CreatedBy : string; sv_CreatedAt : Z; sv_StartedAt : Z; sv_UpdatedAt : Z }.

Record NotebookHistory := mkNbHistory {
  nh_ProjectID : string; nh_Name : string; nh_Status : string; nh_Env : string; nh_Endpoint : string; nh_PID : Z;
  nh_WorkDir : string; nh_RuntimeID : string; nh_VolumeID : string; nh_Reason : string; nh_YAML : string;
  nh_CreatedBy : string; nh_DeployedAt : Z; nh_StoppedAt : Z }.

Record NotebookVolume := mkVolume {
  vl_ProjectID : string; vl_ID : string; vl_Label : string; vl_WorkDir : string; vl_Status : string; vl_RuntimeID : string;
  vl_CreatedAt : Z; vl_UpdatedAt : Z }.

Record StatusReport := mkReport {
  rp_Status : string; rp_Reason : string; rp_Endpoint : string; rp_WorkDir : string; rp_Token : string; rp_PID : Z; rp_Env : string }.

Definition ended (status : string) : bool := (String.eqb status StatusStopped || String.eqb status StatusFailed)%bool.

(** ** The local driver's data: [localdriver/driver.go], [notebookdriver/driver.go] *)

Record activeNotebook := mkActive { ac_projectID : string; ac_name : string; ac_port : Z; ac_gen : nat }.
Record RecoveredHandle := mkHandle { rh_ProjectID : string; rh_Name : string; rh_RuntimeName : string; rh_Port : Z }.
Record StartedHandle := mkStarted { st_PID : Z; st_Token : string; st_EnvPath : string }.

(** A runtime reports an exit to the closure of a start or of a recovery. *)
Record exitCallback := mkCallback {
  cb_ProjectID : string; cb_Name : string; cb_Key : string; cb_Gen : nat; cb_Port : Z; cb_Recovered : bool }.

(** ** Calls *)

Inductive ncall : Type :=
(* the repository of servers; [Create] stamps the record it is given *)
| NGet (projectID name : string)
| NCreate (nb : NotebookServer)
| NUpdate (nb : NotebookServer)
| NSetStatus (projectID name status reason : string)
| NStartRun (projectID name : string)
| NFinishRun (projectID name status reason : string)
| NDelete (projectID name : string)
(* the repository of volumes *)
| NVolGet (id_ : string)
| NVolCreate (v : NotebookVolume)
| NVolUpdate (v : NotebookVolume)
| NVolSetStatus (id_ status : string)
| NVolDelete (id_ : string)
(* the local driver's locked sections *)
| NPortsUsed
| NReserve (port : Z)
| NRelease (port : Z)
| NRegister (key projectID name : string) (port : Z)
| NActive (key : string)
| NIsCurrent (key : string) (gen : nat)
| NEnd (key : string) (gen : nat) (port : Z) (status : string)
| NReattach (key : string) (h : RecoveredHandle)
| NTerminal (key status : string)
(* what it uses: files, [net.Listen], credentials, the runtime *)
| NMkdirAll (path : string)
| NRemoveAll (path : string)
| NListen (port : Z)
| NResolveEnv (projectID : string) (env : list EnvVar)
| NRtStart (req : StartRequest)
| NRtStop (name : string)
| NRtRecover
| NOnExit (cb : exitCallback)
(* the rest: uuid.NewString, events, go statements *)
| NNewID
| NPublish (projectID eventType : string) (fields : list (string * string))
| NGoProvision (projectID : string) (v : NotebookVolume) (spec : Notebook) (yaml : string)
| NGoStartWithVolume (projectID : string) (v : NotebookVolume) (spec : Notebook) (yaml : string)
| NGoRestart (projectID name : string) (v : NotebookVolume) (spec : Notebook) (yaml : string)
| NGoStartAsync (req : StartRequest) (endpoint : string).

Definition nreply (c : ncall) : Type :=
  match c with
  | NGet _ _ => res nbErr (option NotebookServer)
  | NCreate _ => res nbErr NotebookServer
  | NFinishRun _ _ _ _ => res nbErr bool
  | NVolCreate _ => res nbErr NotebookVolume
  | NVolGet _ => res nbErr (option NotebookVolume)
  | NPortsUsed => gset Z
  | NReserve _ | NIsCurrent _ _ | NEnd _ _ _ _ | NTerminal _ _ | NListen _ => bool
  | NRegister _ _ _ _ => option nat
  | NActive _ => option activeNotebook
  | NReattach _ _ => nat
  | NResolveEnv _ _ => res nbErr (list string)
  | NRtStart _ => res nbErr StartedHandle
  | NRtRecover => res nbErr (list (RecoveredHandle * option string))
  | NNewID => string
  | NRelease _ | NOnExit _ | NPublish _ _ _ | NGoProvision _ _ _ _ | NGoStartWithVolume _ _ _ _ | NGoRestart _ _ _ _ _
  | NGoStartAsync _ _ => unit
  | _ => res nbErr unit
  end.

Abbreviation N := (prog nreply).
Abbreviation invoke c := (perform (reply := nreply) c).

Definition wrapping {A} (context : string) (m : N (res nbErr A)) : N (res nbErr A) :=
  r ← m; Ret match r with Ok a => Ok a | Err e => Err (NWrap context e) end.

Definition lift {A} (r : res nbErr A) : N (res nbErr A) := Ret r.
