(* ===== verification/NotebookManager.v ===== *)
(** * Notebook servers: the manager and the status sink

    The life cycle of a notebook server and of its volume
    ([pkg/notebook/manager.go]), and the reports of runtimes ([status.go]), as
    programs over the calls of [NotebookModel]; the goroutines they start are
    programs of their own. *)

From S2P Require Import Prelude Prog Pipeline NotebookModel.
From stdpp Require Import options.
#[local] Open Scope Z_scope.

Definition setStatusOf (status reason : string) (nb : NotebookServer) : NotebookServer :=
  mkServer (sv_ProjectID nb) (sv_Name nb) status (sv_Env nb) (sv_Endpoint nb) (sv_PID nb) (sv_WorkDir nb) (sv_Token nb)
    (sv_RuntimeID nb) (sv_VolumeID nb) reason (sv_YAML nb) (sv_CreatedBy nb) (sv_CreatedAt nb) (sv_StartedAt nb) (sv_UpdatedAt nb).

Definition orElse (new old : string) : string := if String.eqb new "" then old else new.
Definition orElseZ (new old : Z) : Z := if new =? 0 then old else new.

(** ** [StatusSink] *)

Definition publishReport (projectID name : string) (r : StatusReport) : N unit :=
  if String.eqb (rp_Status r) StatusRunning then invoke (NPublish projectID "notebook.running" [("name", name)])
  else if String.eqb (rp_Status r) StatusStopped then invoke (NPublish projectID "notebook.stopped" [("name", name)])
  else if String.eqb (rp_Status r) StatusFailed then
    invoke (NPublish projectID "notebook.failed" [("name", name); ("error", rp_Reason r)])
  else invoke (NPublish projectID "notebook.status" [("name", name); ("status", rp_Status r)]).

(** The fields of a report that are not empty. *)
Definition applyReport (r : StatusReport) (nb : NotebookServer) : NotebookServer :=
  let nb := if String.eqb (rp_Status r) "" then nb else setStatusOf (rp_Status r) (rp_Reason r) nb in
  mkServer (sv_ProjectID nb) (sv_Name nb) (sv_Status nb) (orElse (rp_Env r) (sv_Env nb)) (orElse (rp_Endpoint r) (sv_Endpoint nb))
    (orElseZ (rp_PID r) (sv_PID nb)) (orElse (rp_WorkDir r) (sv_WorkDir nb)) (orElse (rp_Token r) (sv_Token nb))
    (sv_RuntimeID nb) (sv_VolumeID nb) (sv_Reason nb) (sv_YAML nb) (sv_CreatedBy nb) (sv_CreatedAt nb) (sv_StartedAt nb) (sv_UpdatedAt nb).

Definition withWorkDir (dir : string) (v : NotebookVolume) : NotebookVolume :=
  mkVolume (vl_ProjectID v) (vl_ID v) (vl_Label v) dir (vl_Status v) (vl_RuntimeID v) (vl_CreatedAt v) (vl_UpdatedAt v).

Definition moveVolume (r : StatusReport) (nb : NotebookServer) : N unit :=
  if (negb (String.eqb (rp_WorkDir r) "") && negb (String.eqb (sv_VolumeID nb) ""))%bool then
    vol ← invoke (NVolGet (sv_VolumeID nb));
    match vol with
    | Ok (Some vol) =>
        if String.eqb (vl_WorkDir vol) (rp_WorkDir r) then Ret tt
        else _ ← invoke (NVolUpdate (withWorkDir (rp_WorkDir r) vol)); Ret tt
    | _ => Ret tt
    end
  else Ret tt.

Definition UpdateStatus (projectID runtimeID name : string) (r : StatusReport) : N (res nbErr unit) :=
  if String.eqb projectID "" then Ret (Err NProject)
  else
    nb ←! wrapping "notebook: get status target" (invoke (NGet projectID name));
    match nb with
    | None => Ret (Err NNotFound)
    | Some nb =>
        if (negb (String.eqb runtimeID "") && negb (String.eqb (sv_RuntimeID nb) "") &&
            negb (String.eqb (sv_RuntimeID nb) runtimeID))%bool
        then Ret (Err (NWrongRuntime (sv_RuntimeID nb) runtimeID))
        else if ended (rp_Status r) then
          finished ←! wrapping "notebook: finish run" (invoke (NFinishRun projectID name (rp_Status r) (rp_Reason r)));
          _ ← (if finished : bool then publishReport projectID name r else Ret tt);
          Ret (Ok tt)
        else
          let previousStatus := sv_Status nb in
          let nb := applyReport r nb in
          _ ← moveVolume r nb;
          _ ←! wrapping "notebook: update" (invoke (NUpdate nb));
          if (String.eqb (rp_Status r) "" || String.eqb (rp_Status r) previousStatus)%bool then Ret (Ok tt)
          else _ ← publishReport projectID name r; Ret (Ok tt)
    end.

(** ** [Manager] *)

(** [notebook.Driver]; a provisioning answers with the volume it filled in. *)
Class NotebookDriver := {
  driverValidateSpec : Notebook -> N (res nbErr unit);
  driverProvisionVolume : NotebookVolume -> Notebook -> N (res nbErr NotebookVolume);
  driverStart : Notebook -> NotebookVolume -> string -> N (res nbErr NotebookServer);
  driverStop : NotebookServer -> N (res nbErr unit);
  driverRemove : NotebookServer -> N (res nbErr unit);
  driverDeprovisionVolume : NotebookVolume -> N (res nbErr unit) }.

Section Manager.

Context {D : NotebookDriver}.

(** [Manager.runtime]; the decoder of manifests; the texts of errors. *)
Context (runtime : string) (decode : string -> option Notebook) (errText : nbErr -> string).

Definition withProject (p : string) (n : Notebook) : Notebook :=
  let m := nb_Metadata n in
  mkNotebook (nb_TypeMeta n) (mkObjectMeta (m_Name m) (m_Version m) p (m_Labels m) (m_Description m) (m_Tags m)) (nb_Spec n).

(** The checks of [Create] and [CreateWithVolume] before any record is made. *)
Definition checkSpec (valid : Notebook -> res nbErr unit) (spec : Notebook) : N (res nbErr unit) :=
  _ ←! lift (check (String.eqb (m_Name (nb_Metadata spec)) "") NNameRequired);
  _ ←! wrapping "notebook" (lift (valid spec));
  _ ←! wrapping "notebook" (lift (validatePlacement spec runtime));
  _ ←! wrapping "notebook" (driverValidateSpec spec);
  wrapping "notebook: invalid prepare spec" (lift (ValidatePrepare (ns_Prepare (nb_Spec spec)))).

Definition checkAbsent (projectID name : string) : N (res nbErr unit) :=
  existing ←! wrapping "notebook: check existing server" (invoke (NGet projectID name));
  Ret match existing with Some nb => Err (NConflict (sv_Status nb)) | None => Ok tt end.

Definition newServer (identity projectID name status volumeID yaml : string) : NotebookServer :=
  mkServer projectID name status "" "" 0 "" "" "" volumeID "" yaml identity 0 0 0.

Definition Create (identity projectID : string) (spec : Notebook) (yamlStr : string) : N (res nbErr NotebookServer) :=
  if String.eqb projectID "" then Ret (Err NProject)
  else
    let spec := withProject projectID spec in
    let name := m_Name (nb_Metadata spec) in
    _ ←! checkSpec ValidateNotebook spec;
    _ ←! checkAbsent projectID name;
    id_ ← invoke NNewID;
    let vol := mkVolume projectID id_ name "" VolumeStatusBound "" 0 0 in
    vol ←! wrapping "notebook: create volume" (invoke (NVolCreate vol));
    created ← invoke (NCreate (newServer identity projectID name StatusProvisioning (vl_ID vol) yamlStr));
    match created with
    | Err err => _ ← invoke (NVolDelete (vl_ID vol)); Ret (Err (NWrap "notebook: create server record" err))
    | Ok nb =>
        _ ← invoke (NGoProvision projectID vol spec yamlStr);
        _ ← invoke (NPublish projectID "notebook.creating" [("name", name)]);
        Ret (Ok nb)
    end.

Definition publishFailed (projectID name : string) (err : nbErr) : N unit :=
  invoke (NPublish projectID "notebook.failed" [("name", name); ("error", errText err)]).

(** The assignment that a start returns, kept on the row. *)
Definition assign (withPID : bool) (fresh nb : NotebookServer) : NotebookServer :=
  mkServer (sv_ProjectID nb) (sv_Name nb) (sv_Status nb) (sv_Env nb) (orElse (sv_Endpoint fresh) (sv_Endpoint nb))
    (if withPID then orElseZ (sv_PID fresh) (sv_PID nb) else sv_PID nb) (orElse (sv_WorkDir fresh) (sv_WorkDir nb))
    (orElse (sv_Token fresh) (sv_Token nb)) (orElse (sv_RuntimeID fresh) (sv_RuntimeID nb)) (sv_VolumeID nb) (sv_Reason nb)
    (sv_YAML nb) (sv_CreatedBy nb) (sv_CreatedAt nb) (sv_StartedAt nb) (sv_UpdatedAt nb).

Definition provisionAndStart (projectID : string) (vol : NotebookVolume) (spec : Notebook) (yamlStr : string) : N unit :=
  let spec := withProject projectID spec in
  let name := m_Name (nb_Metadata spec) in
  provisioned ← driverProvisionVolume vol spec;
  match provisioned with
  | Err err =>
      _ ← invoke (NFinishRun projectID name StatusFailed (errText err));
      _ ← invoke (NVolDelete (vl_ID vol));
      publishFailed projectID name err
  | Ok vol =>
      _ ← invoke (NVolUpdate vol);
      _ ← invoke (NSetStatus projectID name StatusStarting "");
      started ← driverStart spec vol yamlStr;
      match started with
      | Err err =>
          _ ← invoke (NFinishRun projectID name StatusFailed (errText err));
          _ ← driverDeprovisionVolume vol;
          _ ← invoke (NVolDelete (vl_ID vol));
          publishFailed projectID name err
      | Ok fresh =>
          nb ← invoke (NGet projectID name);
          match nb with
          | Ok (Some nb) => _ ← invoke (NUpdate (assign false fresh nb)); Ret tt
          | _ => Ret tt
          end
      end
  end.

Definition CreateWithVolume (identity projectID : string) (spec : Notebook) (volumeID yamlStr : string) : N (res nbErr NotebookServer) :=
  if String.eqb projectID "" then Ret (Err NProject)
  else
    let spec := withProject projectID spec in
    let name := m_Name (nb_Metadata spec) in
    _ ←! checkSpec ValidateForExistingVolume spec;
    vol ←! wrapping "notebook: get volume" (invoke (NVolGet volumeID));
    match vol with
    | None => Ret (Err NNotFound)
    | Some vol =>
        if negb (String.eqb (vl_ProjectID vol) projectID) then Ret (Err NNotFound)
        else if negb (String.eqb (vl_Status vol) VolumeStatusReleased) then Ret (Err (NConflict (vl_Status vol)))
        else
          _ ←! checkAbsent projectID name;
          _ ←! wrapping "notebook: bind volume" (invoke (NVolSetStatus (vl_ID vol) VolumeStatusBound));
          created ← invoke (NCreate (newServer identity projectID name StatusStarting (vl_ID vol) yamlStr));
          match created with
          | Err err => _ ← invoke (NVolSetStatus (vl_ID vol) VolumeStatusReleased); Ret (Err (NWrap "notebook: create server record" err))
          | Ok nb =>
              _ ← invoke (NGoStartWithVolume projectID vol spec yamlStr);
              _ ← invoke (NPublish projectID "notebook.creating" [("name", name); ("volume_id", vl_ID vol)]);
              Ret (Ok nb)
          end
    end.

(** [Handler.createNotebook], whose answer is the status of the HTTP response. *)
Definition createNotebook (identity projectID volumeID yaml : string) : N (res nbErr NotebookServer) :=
  _ ←! lift (check (String.eqb yaml "") (NMsg "yaml field is required"));
  spec ←! wrapping "invalid YAML" (lift (parseNotebook decode (negb (String.eqb volumeID "")) yaml));
  if String.eqb volumeID "" then Create identity projectID spec yaml
  else CreateWithVolume identity projectID spec volumeID yaml.

(** [volCopy], bound and with the runtime of the start. *)
Definition boundCopy (fresh : NotebookServer) (v : NotebookVolume) : NotebookVolume :=
  mkVolume (vl_ProjectID v) (vl_ID v) (vl_Label v) (vl_WorkDir v) VolumeStatusBound (orElse (sv_RuntimeID fresh) (vl_RuntimeID v))
    (vl_CreatedAt v) (vl_UpdatedAt v).

Definition keepAssignment (withPID : bool) (projectID name : string) (fresh : NotebookServer) (vol : NotebookVolume) : N unit :=
  nb ← invoke (NGet projectID name);
  match nb with
  | Ok (Some nb) =>
      _ ← invoke (NUpdate (assign withPID fresh nb));
      _ ← invoke (NVolUpdate (boundCopy fresh vol)); Ret tt
  | _ => Ret tt
  end.

(** The goroutine of [CreateWithVolume]. *)
Definition startWithVolume (projectID : string) (vol : NotebookVolume) (spec : Notebook) (yamlStr : string) : N unit :=
  let name := m_Name (nb_Metadata spec) in
  started ← driverStart spec vol yamlStr;
  match started with
  | Err err =>
      _ ← invoke (NFinishRun projectID name StatusFailed (errText err));
      _ ← invoke (NVolSetStatus (vl_ID vol) VolumeStatusReleased);
      publishFailed projectID name err
  | Ok fresh => keepAssignment false projectID name fresh vol
  end.

Definition Stop (projectID name : string) : N (res nbErr unit) :=
  if String.eqb projectID "" then Ret (Err NProject)
  else
    nb ←! wrapping "notebook: get server" (invoke (NGet projectID name));
    match nb with
    | None => Ret (Err NNotFound)
    | Some nb =>
        if (String.eqb (sv_Status nb) StatusStopped || String.eqb (sv_Status nb) StatusStopping)%bool then Ret (Ok tt)
        else
          _ ←! wrapping "notebook: set status stopping" (invoke (NSetStatus projectID name StatusStopping ""));
          stopped ← driverStop nb;
          match stopped with
          | Err err =>
              restored ← invoke (NSetStatus projectID name (sv_Status nb) (sv_Reason nb));
              Ret match restored with Err restoreErr => Err (NRestore err restoreErr) | Ok _ => Err (NWrap "notebook: stop" err) end
          | Ok _ => Ret (Ok tt)
          end
    end.

(** The volume of a restart: the record, or one made up from the work directory. *)
Definition volumeOf (projectID : string) (nb : NotebookServer) : N (res nbErr NotebookVolume) :=
  vol ← (if String.eqb (sv_VolumeID nb) "" then Ret (Ok None) else invoke (NVolGet (sv_VolumeID nb)));
  Ret match vol with
      | Ok (Some vol) => Ok vol
      | _ => if String.eqb (sv_WorkDir nb) "" then Err NNoVolume
             else Ok (mkVolume projectID (sv_VolumeID nb) "" (sv_WorkDir nb) "" "" 0 0)
      end.

Definition emptySpec (name : string) : Notebook :=
  mkNotebook (mkTypeMeta "" "") (mkObjectMeta name 0 "" ∅ "" [])
    (mkNotebookSpec (mkSpecOptions [] 0) None None (mkDriver "" None None None)).

Definition storedSpec (nb : NotebookServer) : res nbErr Notebook :=
  if String.eqb (sv_YAML nb) "" then Ok (emptySpec (sv_Name nb))
  else match parseNotebook decode false (sv_YAML nb) with Ok n => Ok n | Err e => Err (NWrap "notebook: parse stored manifest" e) end.

Definition live (nb : NotebookServer) : bool :=
  existsb (String.eqb (sv_Status nb)) [StatusRunning; StatusStarting; StatusProvisioning].

Definition Restart (projectID name : string) : N (res nbErr unit) :=
  if String.eqb projectID "" then Ret (Err NProject)
  else
    nb ←! wrapping "notebook: get server" (invoke (NGet projectID name));
    match nb with
    | None => Ret (Err NNotFound)
    | Some nb =>
        if live nb then Ret (Ok tt)
        else
          vol ←! volumeOf projectID nb;
          spec ←! lift (storedSpec nb);
          _ ←! wrapping "notebook" (lift (validatePlacement spec runtime));
          _ ←! wrapping "notebook" (driverValidateSpec spec);
          _ ←! wrapping "notebook: invalid prepare spec" (lift (ValidatePrepare (ns_Prepare (nb_Spec spec))));
          let spec := withProject projectID spec in
          _ ←! wrapping "notebook: set status starting" (invoke (NStartRun projectID name));
          _ ← invoke (NGoRestart projectID name vol spec (sv_YAML nb));
          Ret (Ok tt)
    end.

(** The goroutine of [Restart], for the name the request gave. *)
Definition restartRun (projectID name : string) (vol : NotebookVolume) (spec : Notebook) (yamlStr : string) : N unit :=
  started ← driverStart spec vol yamlStr;
  match started with
  | Err err => _ ← invoke (NFinishRun projectID name StatusFailed (errText err)); Ret tt
  | Ok fresh => keepAssignment true projectID name fresh vol
  end.

Definition Delete (projectID name : string) : N (res nbErr unit) :=
  if String.eqb projectID "" then Ret (Err NProject)
  else
    nb ←! wrapping "notebook: get server" (invoke (NGet projectID name));
    match nb with
    | None => Ret (Err NNotFound)
    | Some nb =>
        _ ←! (if String.eqb (sv_Status nb) StatusStopped then Ret (Ok tt)
              else
                _ ←! wrapping "notebook: stop before delete" (driverStop nb);
                _ ←! wrapping "notebook: mark stopped before delete" (invoke (NFinishRun projectID name StatusStopped ""));
                Ret (Ok tt));
        _ ←! wrapping "notebook: remove runtime objects" (driverRemove nb);
        _ ←! wrapping "notebook: delete record" (invoke (NDelete projectID name));
        _ ← (if String.eqb (sv_VolumeID nb) "" then Ret (Ok tt) else invoke (NVolSetStatus (sv_VolumeID nb) VolumeStatusReleased));
        _ ← invoke (NPublish projectID "notebook.deleted" [("name", name)]);
        Ret (Ok tt)
    end.

Definition PurgeVolume (projectID volumeID : string) : N (res nbErr unit) :=
  if String.eqb projectID "" then Ret (Err NProject)
  else
    vol ←! wrapping "notebook: get volume" (invoke (NVolGet volumeID));
    match vol with
    | None => Ret (Err NNotFound)
    | Some vol =>
        if negb (String.eqb (vl_ProjectID vol) projectID) then Ret (Err NNotFound)
        else if negb (String.eqb (vl_Status vol) VolumeStatusReleased) then Ret (Err (NConflict (vl_Status vol)))
        else
          _ ← driverDeprovisionVolume vol;
          _ ←! wrapping "notebook: delete volume record" (invoke (NVolDelete volumeID));
          _ ← invoke (NPublish (vl_ProjectID vol) "notebook.volume.purged" [("volume_id", volumeID)]);
          Ret (Ok tt)
    end.

End Manager.
