(* ===== verification/NotebookShell.v ===== *)
(** * Notebook servers: what the launch script says

    A POSIX shell's reading of one line into the words of a simple command (XCU 2.2,
    quoting; 2.4, reserved words; 2.9.1, assignments), for the lines that
    [prepare.go] writes, and the script of [BuildLaunchScript] read back: but for a
    first word that the shell knows, no byte of a command, an argument or a directory
    reaches the shell as anything but itself. *)

From S2P Require Import Prelude Pipeline NotebookModel.
From stdpp Require Import options.

(** ** Reading words *)

Inductive quoting : Type := Unquoted | SingleQuoted | DoubleQuoted.

Definition extend (cur : option string) (c : ascii) : option string :=
  Some (default ""%string cur +:+ char c)%string.

(** The words of the line at the front of a script and what follows the line.
    [cur] is the word being read, if one has begun. A byte with a meaning of its
    own to the shell ends the reading: expansions, escapes, operators, comments,
    and bytes of which [isShellSafe] does not know. NUL is no text. *)
Fixpoint readWords (q : quoting) (cur : option string) (words : list string) (s : string) : option (list string * string) :=
  match s with
  | EmptyString => None
  | String c s =>
      match q with
      | Unquoted =>
          if Ascii.eqb c newline then Some (words ++ option_list cur, s)
          else if Ascii.eqb c " "%char then readWords Unquoted None (words ++ option_list cur) s
          else if Ascii.eqb c squote then readWords SingleQuoted (Some (default ""%string cur)) words s
          else if Ascii.eqb c dquote then readWords DoubleQuoted (Some (default ""%string cur)) words s
          else if isShellSafe c then readWords Unquoted (extend cur c) words s
          else None
      | SingleQuoted =>
          if Ascii.eqb c squote then readWords Unquoted cur words s
          else if Ascii.eqb c "000"%char then None
          else readWords SingleQuoted (extend cur c) words s
      | DoubleQuoted =>
          if Ascii.eqb c dquote then readWords Unquoted cur words s
          else if str_mem c "$`\" || Ascii.eqb c "000"%char then None
          else readWords DoubleQuoted (extend cur c) words s
      end
  end.

(** A line whose first word is an assignment, [NAME=] with the name and the equals
    sign unquoted, or a reserved word, all of it unquoted, is not the command of
    that name; the words that some shells reserve are counted. *)
Definition nameByte (first : bool) (c : ascii) : bool :=
  (inRange 97 122 c || inRange 65 90 c || Ascii.eqb c "_"%char || (negb first && inRange 48 57 c))%bool.
Fixpoint nameBytes (first : bool) (s : string) : bool :=
  match s with EmptyString => negb first | String c s => (nameByte first c && nameBytes false s)%bool end.
Definition assignmentWord (w : string) : bool :=
  match str_index "="%char w with Some i => nameBytes true (str_take i w) | None => false end.
Definition reservedWord (w : string) : bool :=
  existsb (String.eqb w)
    ["!"; "{"; "}"; "case"; "do"; "done"; "elif"; "else"; "esac"; "fi"; "for"; "if"; "in"; "then"; "until"; "while";
     "[["; "]]"; "function"; "select"; "time"; "coproc"]%string.

(** The first word of a line as it is written, up to a blank that is outside of
    quotes or the end of the line. A quote ends a name and is in no reserved word, so
    what follows it does not matter. *)
Fixpoint rawWord (s : string) : string :=
  match s with
  | EmptyString => ""
  | String c s => if (Ascii.eqb c newline || Ascii.eqb c " "%char)%bool then "" else String c (rawWord s)
  end.
Fixpoint skipBlanks (s : string) : string :=
  match s with String c rest => if Ascii.eqb c " "%char then skipBlanks rest else s | EmptyString => s end.
Definition commandStart (s : string) : bool :=
  let w := rawWord (skipBlanks s) in (negb (assignmentWord w) && negb (reservedWord w))%bool.

(** The words of a simple command, and what follows its line. *)
Definition readLine (s : string) : option (list string * string) :=
  if commandStart s then readWords Unquoted None [] s else None.

(** A script as its lines, each as its words. *)
Fixpoint readLines (fuel : nat) (s : string) : option (list (list string)) :=
  match s with
  | EmptyString => Some []
  | _ =>
      match fuel with
      | O => None
      | S fuel => '(words, rest) ← readLine s; more ← readLines fuel rest; Some (words :: more)
      end
  end.

(** A line takes at least its newline. *)
Definition readScript (s : string) : option (list (list string)) := readLines (String.length s) s.

Definition isText (s : string) : bool := negb (str_mem "000"%char s).

(** A first word that is written in quotes, or that the shell does not know. *)
Definition commandWord (w : string) : bool := (negb (isShellSafeWord w) || negb (assignmentWord w || reservedWord w))%bool.
Definition plainCommand (args : list string) : bool :=
  (forallb isText args && match args with w :: _ => commandWord w | [] => true end)%bool.

(** ** What the quoting writes is read back *)

Lemma app_empty_r s : (s +:+ "" = s)%string.
Proof. induction s as [|c s IH]; [done|]. by rewrite <- IH at 2. Qed.
Lemma app_app a b c : ((a +:+ b) +:+ c = a +:+ (b +:+ c))%string.
Proof. induction a as [|x a IH]; [done|]. simpl. by f_equal. Qed.
Lemma app_cons c a b : (String c a +:+ b = String c (a +:+ b))%string.
Proof. done. Qed.

Lemma length_string_app a b : String.length (a +:+ b)%string = String.length a + String.length b.
Proof. induction a as [|c a IH]; [done|]. simpl. by f_equal. Qed.

Lemma safe_plain c : isShellSafe c = true ->
  Ascii.eqb c newline = false /\ Ascii.eqb c " "%char = false /\ Ascii.eqb c squote = false /\ Ascii.eqb c dquote = false.
Proof. destruct c as [[] [] [] [] [] [] [] []]; vm_compute; intros; done || (repeat split). Qed.

Lemma read_safe c cur words s : isShellSafe c = true ->
  readWords Unquoted cur words (String c s) = readWords Unquoted (extend cur c) words s.
Proof. intros H. destruct (safe_plain c H) as (E1 & E2 & E3 & E4). cbn -[Ascii.eqb isShellSafe]. by rewrite E1, E2, E3, E4, H. Qed.

Lemma read_safe_word w cur words s : isShellSafeWord w = true -> w <> ""%string ->
  readWords Unquoted cur words (w +:+ s)%string = readWords Unquoted (Some (default ""%string cur +:+ w)%string) words s.
Proof.
  revert cur; induction w as [|c w IH]; intros cur Hw Hne; [done|].
  simpl in Hw. apply andb_true_iff in Hw as [Hc Hw]. rewrite app_cons, (read_safe c _ _ _ Hc).
  destruct w as [|d w]; [done|]. rewrite IH by done. unfold extend. simpl. f_equal. f_equal. by rewrite app_app.
Qed.

Lemma read_single_byte c cur words s : Ascii.eqb c squote = false -> Ascii.eqb c "000"%char = false ->
  readWords SingleQuoted (Some cur) words (String c s) = readWords SingleQuoted (Some (cur +:+ char c)%string) words s.
Proof. intros H1 H2. cbn -[Ascii.eqb]. by rewrite H1, H2. Qed.

Lemma read_single_quote cur words s :
  readWords SingleQuoted (Some cur) words (quotedQuote +:+ s)%string =
  readWords SingleQuoted (Some (cur +:+ char squote)%string) words s.
Proof. done. Qed.

(** Inside single quotes, up to their end: a quote of [w] leaves them, is read in
    double quotes, and enters them again. *)
Lemma read_single w cur words s : isText w = true ->
  readWords SingleQuoted (Some cur) words (replaceByte squote quotedQuote w +:+ String squote s)%string =
  readWords Unquoted (Some (cur +:+ w)%string) words s.
Proof.
  revert cur; induction w as [|c w IH]; intros cur Hw.
  - simpl. by rewrite app_empty_r.
  - unfold isText in Hw. simpl in Hw. apply negb_true_iff, orb_false_iff in Hw as [Hc Hw].
    assert (Hw' : isText w = true) by (unfold isText; by rewrite Hw).
    cbn [replaceByte]. rewrite app_app. destruct (Ascii.eqb c squote) eqn:E.
    + apply Ascii.eqb_eq in E as ->. by rewrite read_single_quote, IH, app_app.
    + change (char c +:+ ?t)%string with (String c t). by rewrite read_single_byte, IH, app_app.
Qed.

Lemma read_quoted w words s : isText w = true ->
  readWords Unquoted None words (shellQuote w +:+ s)%string = readWords Unquoted (Some w) words s.
Proof.
  intros Hw. unfold shellQuote. destruct (String.eqb_spec w "") as [->|Hne]; [done|].
  destruct (isShellSafeWord w) eqn:Es; [by rewrite read_safe_word|].
  unfold char. rewrite !app_app. simpl. by rewrite read_single.
Qed.

(** The words of a command up to its newline. *)
Lemma read_join args words s : Forall (fun w => isText w = true) args ->
  readWords Unquoted None words (shellJoin args +:+ String newline s)%string = Some (words ++ args, s).
Proof.
  revert words; induction args as [|w args IH]; intros words Ht; [simpl; by rewrite !app_nil_r|].
  apply Forall_cons in Ht as [Hw Ht]. destruct args as [|v args].
  - unfold shellJoin. simpl. by rewrite read_quoted.
  - change (shellJoin (w :: v :: args)) with (shellQuote w +:+ String " "%char (shellJoin (v :: args)))%string.
    rewrite app_app, read_quoted by done. rewrite app_cons. simpl readWords at 1. cbn [Ascii.eqb].
    change (Ascii.eqb " "%char newline) with false. change (Ascii.eqb " "%char " "%char) with true. cbv iota.
    rewrite IH by done. simpl. by rewrite <- app_assoc.
Qed.

(** *** The first word *)

Lemma commandStart_raw s w : rawWord (skipBlanks s) = w -> assignmentWord w = false -> reservedWord w = false -> commandStart s = true.
Proof. intros Hr Ha Hw. unfold commandStart. by rewrite Hr, Ha, Hw. Qed.

Lemma quote_unknown s : assignmentWord (String squote s) = false /\ reservedWord (String squote s) = false.
Proof.
  split; [|reflexivity]. unfold assignmentWord. simpl. destruct (str_index "="%char s); reflexivity.
Qed.

Definition blank (c : ascii) : bool := (Ascii.eqb c newline || Ascii.eqb c " "%char)%bool.

Lemma rawWord_safe w c s : isShellSafeWord w = true -> blank c = true -> rawWord (w +:+ String c s)%string = w.
Proof.
  intros Hw Hc. induction w as [|d w IH]; [simpl; unfold blank in Hc; by rewrite Hc|].
  simpl in Hw. apply andb_true_iff in Hw as [Hd Hw]. destruct (safe_plain d Hd) as (E1 & E2 & _).
  rewrite app_cons. cbn -[Ascii.eqb]. by rewrite E1, E2, IH.
Qed.

Lemma skipBlanks_safe w s : isShellSafeWord w = true -> w <> ""%string -> skipBlanks (w +:+ s)%string = (w +:+ s)%string.
Proof.
  intros Hw Hne. destruct w as [|d w]; [done|]. simpl in Hw. apply andb_true_iff in Hw as [Hd _].
  destruct (safe_plain d Hd) as (_ & E2 & _). cbn -[Ascii.eqb]. by rewrite E2.
Qed.

Lemma commandStart_safe w c s : isShellSafeWord w = true -> w <> ""%string -> blank c = true ->
  assignmentWord w = false -> reservedWord w = false -> commandStart (w +:+ String c s)%string = true.
Proof.
  intros Hw Hne Hc Ha Hr. apply (commandStart_raw _ w); [|done..]. rewrite skipBlanks_safe by done. by apply rawWord_safe.
Qed.

Lemma commandStart_quote w c s : commandWord w = true -> blank c = true -> commandStart (shellQuote w +:+ String c s)%string = true.
Proof.
  intros Hw Hc. unfold shellQuote. destruct (String.eqb_spec w "") as [->|Hne].
  { rewrite app_cons. eapply commandStart_raw; [reflexivity|apply quote_unknown..]. }
  unfold commandWord in Hw. destruct (isShellSafeWord w) eqn:Es.
  - simpl in Hw. apply negb_true_iff, orb_false_iff in Hw as [Ha Hr]. by apply commandStart_safe.
  - unfold char. rewrite !app_app. cbn [String.append]. eapply commandStart_raw; [reflexivity|apply quote_unknown..].
Qed.

Lemma plainCommand_start args s : plainCommand args = true -> commandStart (shellJoin args +:+ String newline s)%string = true.
Proof.
  intros H. apply andb_true_iff in H as [_ H]. destruct args as [|w args]; [done|]. destruct args as [|v args].
  - by apply commandStart_quote.
  - change (shellJoin (w :: v :: args)) with (shellQuote w +:+ String " "%char (shellJoin (v :: args)))%string.
    rewrite app_app, app_cons. by apply commandStart_quote.
Qed.

Lemma plainCommand_text args : plainCommand args = true -> Forall (fun w => isText w = true) args.
Proof. intros H. apply andb_true_iff in H as [H _]. apply Forall_forall. intros w Hw. rewrite forallb_forall in H. by apply H, list_elem_of_In. Qed.

Lemma readLine_join args s : plainCommand args = true -> readLine (shellJoin args +:+ String newline s)%string = Some (args, s).
Proof.
  intros H. unfold readLine. rewrite plainCommand_start by done. apply (read_join args []). by apply plainCommand_text.
Qed.

(** A word before the command, as [cd] and [exec]. *)
Lemma readLine_word w args s : isShellSafeWord w = true -> w <> ""%string -> assignmentWord w = false -> reservedWord w = false ->
  Forall (fun w => isText w = true) args -> args <> [] ->
  readLine (w +:+ String " "%char (shellJoin args +:+ String newline s))%string = Some (w :: args, s).
Proof.
  intros Hw Hne Ha Hr Ht Hargs. unfold readLine. rewrite commandStart_safe by done. rewrite read_safe_word by done.
  transitivity (readWords Unquoted None [w] (shellJoin args +:+ String newline s)%string); [done|]. by rewrite read_join.
Qed.

(** What follows a line does not change its reading. *)
Lemma readWords_app q cur words s t ws : readWords q cur words s = Some (ws, ""%string) ->
  readWords q cur words (s +:+ t)%string = Some (ws, t).
Proof.
  revert q cur words; induction s as [|c s IH]; intros q cur words; [done|]. rewrite app_cons.
  destruct q; simpl; repeat (case_match; try done); try apply IH. by intros [= <- ->].
Qed.

Lemma readWords_length q cur words s ws rest : readWords q cur words s = Some (ws, rest) -> String.length rest < String.length s.
Proof.
  revert q cur words; induction s as [|c s IH]; intros q cur words; [done|]. intros H. simpl in H.
  destruct q; repeat (case_match; try done); simpl; try (apply IH in H; lia). simplify_eq. lia.
Qed.

Lemma readWords_newline q cur words s ws rest : readWords q cur words s = Some (ws, rest) -> str_mem newline s = true.
Proof.
  revert q cur words; induction s as [|c s IH]; intros q cur words; [done|]. simpl. intros H. apply orb_true_iff.
  destruct q; repeat (case_match; try done); try (right; by eapply IH). by left.
Qed.

Lemma rawWord_app s t : str_mem newline s = true -> rawWord (s +:+ t)%string = rawWord s.
Proof.
  induction s as [|c s IH]; [done|]. rewrite app_cons. cbn [rawWord str_mem]. intros H. destruct (Ascii.eqb c newline); [done|].
  cbn [orb] in *. destruct (Ascii.eqb c " "%char); [done|]. f_equal. by apply IH.
Qed.

Lemma skipBlanks_app s t : str_mem newline s = true ->
  str_mem newline (skipBlanks s) = true /\ skipBlanks (s +:+ t)%string = (skipBlanks s +:+ t)%string.
Proof.
  induction s as [|c s IH]; [done|]. rewrite app_cons. cbn [skipBlanks]. intros H. destruct (Ascii.eqb c " "%char) eqn:E; [|done].
  apply IH. cbn [str_mem] in H. apply orb_true_iff in H as [H|H]; [|done]. apply Ascii.eqb_eq in E as ->. done.
Qed.

Lemma readLine_words s x : readLine s = Some x -> commandStart s = true /\ readWords Unquoted None [] s = Some x.
Proof. unfold readLine. by destruct (commandStart s). Qed.

Lemma readLine_app s t ws : readLine s = Some (ws, ""%string) -> readLine (s +:+ t)%string = Some (ws, t).
Proof.
  intros H. apply readLine_words in H as [Hc H]. pose proof (readWords_newline _ _ _ _ _ _ H) as Hn.
  unfold readLine, commandStart in *. destruct (skipBlanks_app s t Hn) as [Hn' ->]. rewrite rawWord_app by done. rewrite Hc.
  by apply readWords_app.
Qed.

Lemma readLine_length s ws rest : readLine s = Some (ws, rest) -> String.length rest < String.length s.
Proof. intros H. apply readLine_words in H as [_ H]. by apply readWords_length in H. Qed.

(** ** The script *)

Lemma readLines_line fuel s rest ws : readLine s = Some (ws, rest) ->
  readLines (S fuel) s = more ← readLines fuel rest; Some (ws :: more).
Proof. intros H. destruct s as [|c s]; [done|]. simpl. by rewrite H. Qed.

Lemma readLines_fuel n m s : String.length s <= n -> n <= m -> readLines m s = readLines n s.
Proof.
  revert n s; induction m as [|m IH]; intros n s Hn Hm; [by assert (n = 0) as -> by lia|].
  destruct s as [|c s]; [by destruct n|]. destruct n as [|n]; [simpl in Hn; lia|].
  destruct (readLine (String c s)) as [[ws rest]|] eqn:E; [|simpl; by rewrite E].
  rewrite !(readLines_line _ _ _ _ E). apply readLine_length in E. simpl in E, Hn.
  rewrite (IH n rest) by lia. done.
Qed.

Lemma readScript_line s rest ws : readLine s = Some (ws, rest) ->
  readScript s = more ← readScript rest; Some (ws :: more).
Proof.
  intros H. pose proof (readLine_length _ _ _ H) as Hl. unfold readScript.
  destruct s as [|c s]; [done|]. simpl String.length. rewrite (readLines_line _ _ _ _ H).
  simpl in Hl. by rewrite (readLines_fuel (String.length rest) (String.length s)) by lia.
Qed.

Lemma readScript_steps steps rest : Forall (fun step => plainCommand (pp_Command step) = true) steps ->
  readScript (concatStrings (map (fun step => shellJoin (pp_Command step) +:+ char newline) steps) +:+ rest)%string =
  more ← readScript rest; Some (map pp_Command steps ++ more).
Proof.
  intros H. induction H as [|step steps Hs H IH]; simpl; [by destruct (readScript rest)|].
  rewrite !app_app. change (char newline +:+ ?t)%string with (String newline t).
  rewrite (readScript_line _ _ _ (readLine_join _ _ Hs)), IH.
  by destruct (readScript rest).
Qed.

Lemma readScript_prefix prefixLines lines rest :
  Forall2 (fun line ws => readLine (prefixLine line) = Some (ws, ""%string)) prefixLines lines ->
  readScript (concatStrings (map prefixLine prefixLines) +:+ rest)%string = more ← readScript rest; Some (lines ++ more).
Proof.
  intros H. induction H as [|line ws prefixLines lines Hl H IH]; simpl; [by destruct (readScript rest)|].
  rewrite app_app. rewrite (readScript_line _ _ _ (readLine_app _ _ _ Hl)). rewrite IH. by destruct (readScript rest).
Qed.

(** C28: The script that starts a notebook, read by a POSIX shell, is exactly the
    commands it was built from, word for word, whatever bytes but NUL their
    arguments and the directory hold, provided that no preparation step begins with a
    word that is written without quotes and that the shell takes for an assignment
    or a reserved word. *)
Theorem launch_script_roundtrip prefixLines lines steps baseCommand workDir
    (Hprefix : Forall2 (fun line ws => readLine (prefixLine line) = Some (ws, ""%string)) prefixLines lines)
    (Hsteps : Forall (fun step => plainCommand (pp_Command step) = true) steps)
    (Hbase : Forall (fun w => isText w = true) baseCommand) (Hdir : isText workDir = true) :
  match BuildLaunchScript prefixLines steps baseCommand workDir with
  | Err e => e = NBaseCommand /\ baseCommand = []
  | Ok script =>
      readScript script = Some ([["set"; "-e"]] ++ lines ++
        (if String.eqb workDir "" then [] else [["cd"; workDir]]) ++ map pp_Command steps ++ [("exec"%string :: baseCommand)])
  end.
Proof.
  destruct baseCommand as [|base baseArgs]; [by split|]. set (baseCommand := base :: baseArgs) in *.
  assert (Hne : baseCommand <> []) by done.
  match goal with |- match ?build with _ => _ end => let b := eval unfold BuildLaunchScript in build in change build with b end.
  cbn [List.length Nat.eqb check mbind res_bind baseCommand]. fold baseCommand.
  assert (Hexec : readScript ("exec " +:+ shellJoin baseCommand +:+ char newline)%string = Some [("exec"%string :: baseCommand)]).
  { change ("exec " +:+ ?t)%string with ("exec" +:+ String " "%char t)%string. change (char newline) with (String newline "").
    by rewrite (readScript_line _ _ _ (readLine_word "exec" baseCommand "" eq_refl ltac:(done) eq_refl eq_refl Hbase Hne)). }
  match goal with |- readScript (?a +:+ char newline +:+ ?t)%string = _ =>
    rewrite (readScript_line (a +:+ char newline +:+ t)%string t ["set"; "-e"]%string eq_refl) end.
  rewrite (readScript_prefix _ _ _ Hprefix).
  destruct (String.eqb_spec workDir "") as [->|Hd].
  - change ("" +:+ ?t)%string with t. rewrite readScript_steps by done. rewrite Hexec. done.
  - change ("cd " +:+ ?s)%string with ("cd" +:+ String " "%char s)%string. rewrite !app_app.
    change (shellQuote workDir) with (shellJoin [workDir]). rewrite (app_cons " "%char), app_app.
    change (char newline +:+ ?t)%string with (String newline t).
    rewrite (readScript_line _ _ _ (readLine_word "cd" [workDir] _ eq_refl ltac:(done) eq_refl eq_refl ltac:(by repeat constructor) ltac:(done))).
    rewrite readScript_steps by done. rewrite Hexec. done.
Qed.
