(* ===== verification/Containers.v ===== *)
(** * Containers

    The containers in which Docker runs work: the resources of a manifest
    ([internal/docker/resources.go]) and what each of the three drivers asks the
    daemon to create, for a pipeline step, a notebook and a model service. *)

From Stdlib Require Import Floats.SpecFloat.
From S2P Require Import Prelude Pipeline Queue NotebookModel Serving.
From stdpp Require Import pretty.
From stdpp Require Import options.
#[local] Open Scope Z_scope.

Inductive contErr : Type :=
| CMemory (s : string) | CShmSize (s : string) | CCPUs (s : string) | CDeviceCount (s : string)
| CNoSpec | CImage | CPort | CCommand | CWorkDir
| CVolumeNotAllowed (name : string) | CDuplicateTarget (path : string)
| CNetwork | CVolumeName (i : nat) | CDuplicateName (name : string) | CVolumePath (name path : string)
| CHostPath (name : string) (e : contErr)
| CHostPathEmpty | CHostPathResolve | CHostRoot | CUserHome | CDockerSocket | CStat | CNotDirectory
| CPrepare (e : nbErr) | CStep | CAgentArgs.

(** ** Resources *)

Record DeviceRequest := mkDeviceRequest {
  rq_Driver : string; rq_Count : Z; rq_DeviceIDs : list string; rq_Capabilities : list (list string) }.
Record ContainerResources := mkContainerResources {
  cr_Memory : Z; cr_NanoCPUs : Z; cr_DeviceRequests : list DeviceRequest; cr_ShmSize : Z }.

Definition noResources : ContainerResources := mkContainerResources 0 0 [] 0.

Definition hasCapability (capabilities : list string) (target : string) : bool := existsb (fun c => String.eqb c target) capabilities.

Definition DockerDeviceRequest (dev : DockerDevice) : res contErr DeviceRequest :=
  let driver := if String.eqb (dd_Driver dev) "" then "nvidia"%string else dd_Driver dev in
  match dd_DeviceIDs dev with
  | [] =>
      if (String.eqb (dd_Count dev) "" || String.eqb (dd_Count dev) "all")%bool
      then Ok (mkDeviceRequest driver (-1) [] [["gpu"%string]])
      else match Atoi (dd_Count dev) with
           | Some n => if n <? 0 then Err (CDeviceCount (dd_Count dev)) else Ok (mkDeviceRequest driver n [] [["gpu"%string]])
           | None => Err (CDeviceCount (dd_Count dev))
           end
  | ids => Ok (mkDeviceRequest driver 0 ids [["gpu"%string]])
  end.

Fixpoint deviceRequests (devices : list DockerDevice) : res contErr (list DeviceRequest) :=
  match devices with
  | [] => Ok []
  | dev :: devices =>
      if negb (hasCapability (dd_Capabilities dev) "gpu") then deviceRequests devices
      else req ← DockerDeviceRequest dev; reqs ← deviceRequests devices; Ok (req :: reqs)
  end.

(** The parts between commas that are not empty. *)
Definition splitCSV (value : string) : list string := List.filter (fun p => negb (String.eqb p "")) (str_split ","%char value).

Definition GPUDeviceRequestFromSelector (selector : string) : res contErr DeviceRequest :=
  if String.eqb selector "" then Ok (mkDeviceRequest "" 0 [] [])
  else if String.eqb selector "all" then DockerDeviceRequest (mkDockerDevice "" "all" [] ["gpu"%string])
  else DockerDeviceRequest (mkDockerDevice "" "" (splitCSV selector) ["gpu"%string]).

Section Containers.

(** [units.RAMInBytes] of go-units, [strconv.ParseFloat]; what a conversion to an
    integer gives for a float out of its range, which Go leaves to the machine. *)
Context (RAMInBytes : string -> option Z) (ParseFloat : string -> option spec_float) (outOfRange : spec_float -> Z).

Definition billion : spec_float := S754_finite false 8388608000000000 (-23).

Definition truncate (f : spec_float) : Z :=
  match f with
  | S754_zero _ => 0
  | S754_finite s m e =>
      let a := if 0 <=? e then Zpos m * 2 ^ e else Zpos m / 2 ^ (- e) in
      let n := if s then - a else a in
      if (- (maxInt64 + 1) <=? n) && (n <=? maxInt64) then n else outOfRange f
  | _ => outOfRange f
  end.

Definition optionalBytes (s : string) (e : string -> contErr) : res contErr Z :=
  if String.eqb s "" then Ok 0 else match RAMInBytes s with Some n => Ok n | None => Err (e s) end.

Definition nanoCPUs (s : string) : res contErr Z :=
  if String.eqb s "" then Ok 0
  else match ParseFloat s with
       | Some cpus => if SFltb cpus (S754_zero false) then Err (CCPUs s) else Ok (truncate (SFmul 53 1024 cpus billion))
       | None => Err (CCPUs s)
       end.

Definition ResourcesFromDriverDocker (ds : option DriverDockerSpec) : res contErr ContainerResources :=
  match ds with
  | None => Ok noResources
  | Some ds =>
      memory ← optionalBytes (d_MemLimit ds) CMemory;
      shmSize ← optionalBytes (d_ShmSize ds) CShmSize;
      cpus ← nanoCPUs (d_CPUs ds);
      devices ← match d_Deploy ds with
                | Some deploy =>
                    match Reservations (Resources deploy) with Some r => deviceRequests (Devices r) | None => Ok [] end
                | None => Ok []
                end;
      Ok (mkContainerResources memory cpus devices shmSize)
  end.

(** ** What is created *)

Record Mount := mkMount { mt_Source : string; mt_Target : string; mt_ReadOnly : bool }.
Record PortBinding := mkBinding { pb_ContainerPort : string; pb_HostIP : string; pb_HostPort : string }.
Record ContainerOptions := mkOptions {
  co_Name : string; co_Entrypoint : list string; co_Image : string; co_Cmd : list string; co_User : string;
  co_WorkingDir : string; co_Labels : list (string * string); co_Env : list string; co_NetworkMode : string;
  co_Ports : list PortBinding; co_ReadonlyRootfs : bool; co_Tmpfs : list string; co_CapDrop : list string;
  co_SecurityOpt : list string; co_Resources : ContainerResources; co_Mounts : list Mount }.

(** [filepath.Abs], [filepath.EvalSymlinks], [os.UserHomeDir] with the empty
    string for its error, and [os.Stat], saying whether it is a directory. *)
Context (Abs EvalSymlinks : string -> option string) (UserHomeDir : string) (Stat : string -> option bool).

(** *** Names *)

Definition nameChar (c : ascii) : bool :=
  (inRange 97 122 c || inRange 65 90 c || inRange 48 57 c || str_mem c "_.-")%bool.

(** [dockerNamePattern.ReplaceAllString(name, "-")]: a dash for each run of other
    bytes; [inRun] inside one. *)
Fixpoint replaceRuns (inRun : bool) (s : string) : string :=
  match s with
  | EmptyString => ""
  | String c s =>
      if nameChar c then String c (replaceRuns false s)
      else if inRun then replaceRuns true s else String "-"%char (replaceRuns true s)
  end.

(** [strings.Trim] with a set of bytes *)
Fixpoint trimLeft (set_ s : string) : string :=
  match s with
  | String c rest => if str_mem c set_ then trimLeft set_ rest else s
  | EmptyString => ""
  end.
Fixpoint trimRight (set_ s : string) : string :=
  match s with
  | EmptyString => ""
  | String c s =>
      match trimRight set_ s with
      | EmptyString => if str_mem c set_ then "" else char c
      | s => String c s
      end
  end.
Definition Trim (set_ s : string) : string := trimRight set_ (trimLeft set_ s).

Definition dockerContainerName (name : string) : string :=
  let clean := Trim "-_." (replaceRuns false name) in
  let clean := if String.eqb clean "" then "notebook"%string else clean in
  ("piper-notebook-" +:+ str_take 48 clean)%string.

(** [strings.NewReplacer(":", "-", "/", "-", "__", "-")] *)
Fixpoint replaceSeparators (s : string) : string :=
  match s with
  | EmptyString => ""
  | String c rest =>
      if (Ascii.eqb c ":"%char || Ascii.eqb c "/"%char)%bool then String "-"%char (replaceSeparators rest)
      else match rest with
           | String d rest' =>
               if (Ascii.eqb c "_"%char && Ascii.eqb d "_"%char)%bool then String "-"%char (replaceSeparators rest')
               else String c (replaceSeparators rest)
           | EmptyString => char c
           end
  end.

Definition containerName (rn : string) : string := ("piper-serving-" +:+ str_take 48 (replaceSeparators rn))%string.

(** *** Notebooks: [notebookdriver/docker/driver.go] *)

Record Volume := mkDockerVolume { dv_Name : string; dv_HostPath : string; dv_ContainerPath : string; dv_ReadOnly : bool }.
Record DockerConfig := mkDockerConfig { dc_Network : string; dc_Volumes : list Volume }.

Definition secureHostPath (path : string) : res contErr string :=
  if String.eqb path "" then Err CHostPathEmpty
  else match Abs path with
  | None => Err CHostPathResolve
  | Some abs =>
      match EvalSymlinks abs with
      | None => Err CHostPathResolve
      | Some resolved =>
          _ ← check (String.eqb resolved "/") CHostRoot;
          _ ← check (negb (String.eqb UserHomeDir "") && String.eqb resolved UserHomeDir)%bool CUserHome;
          _ ← check (String.eqb resolved "/var/run/docker.sock" || String.eqb resolved "/run/docker.sock")%bool CDockerSocket;
          match Stat resolved with
          | None => Err CStat
          | Some isDir => _ ← check (negb isDir) CNotDirectory; Ok resolved
          end
      end
  end.

(** [filepath.IsAbs] on Unix *)
Definition IsAbs (p : string) : bool := String.prefix "/" p.

Fixpoint normalizeVolumes (i : nat) (names targets : list string) (vols : list Volume) : res contErr (list Volume) :=
  match vols with
  | [] => Ok []
  | vol :: vols =>
      _ ← check (String.eqb (dv_Name vol) "") (CVolumeName i);
      _ ← check (existsb (String.eqb (dv_Name vol)) names) (CDuplicateName (dv_Name vol));
      hostPath ← match secureHostPath (dv_HostPath vol) with Ok p => Ok p | Err e => Err (CHostPath (dv_Name vol) e) end;
      _ ← check (negb (IsAbs (dv_ContainerPath vol))) (CVolumePath (dv_Name vol) (dv_ContainerPath vol));
      _ ← check (String.eqb (dv_ContainerPath vol) ContainerWorkDir ||
                 String.prefix (ContainerWorkDir +:+ "/") (dv_ContainerPath vol))%bool (CVolumePath (dv_Name vol) (dv_ContainerPath vol));
      _ ← check (existsb (String.eqb (dv_ContainerPath vol)) targets) (CDuplicateTarget (dv_ContainerPath vol));
      rest ← normalizeVolumes (S i) (dv_Name vol :: names) (dv_ContainerPath vol :: targets) vols;
      Ok (mkDockerVolume (dv_Name vol) hostPath (dv_ContainerPath vol) (dv_ReadOnly vol) :: rest)
  end.

Definition normalizeDockerConfig (cfg : DockerConfig) : res contErr DockerConfig :=
  let network := if String.eqb (dc_Network cfg) "" then "bridge"%string else dc_Network cfg in
  _ ← check (negb (String.eqb network "bridge") && negb (String.eqb network "none"))%bool CNetwork;
  vols ← normalizeVolumes 0 [] [ContainerWorkDir] (dc_Volumes cfg);
  Ok (mkDockerConfig network vols).

(** [byName]: the last of a name, had two the same *)
Definition volumeNamed (allowlist : list Volume) (name : string) : option Volume :=
  List.find (fun v => String.eqb (dv_Name v) name) (rev allowlist).

Fixpoint selectDockerVolumes (allowlist : list Volume) (seen names : list string) : res contErr (list Volume) :=
  match names with
  | [] => Ok []
  | name :: names =>
      if existsb (String.eqb name) seen then selectDockerVolumes allowlist seen names
      else match volumeNamed allowlist name with
           | None => Err (CVolumeNotAllowed name)
           | Some vol => rest ← selectDockerVolumes allowlist (name :: seen) names; Ok (vol :: rest)
           end
  end.

Fixpoint volumeMounts (targets : list string) (vols : list Volume) : res contErr (list Mount) :=
  match vols with
  | [] => Ok []
  | vol :: vols =>
      _ ← check (existsb (String.eqb (dv_ContainerPath vol)) targets) (CDuplicateTarget (dv_ContainerPath vol));
      rest ← volumeMounts (dv_ContainerPath vol :: targets) vols;
      Ok (mkMount (dv_HostPath vol) (dv_ContainerPath vol) (dv_ReadOnly vol) :: rest)
  end.

Definition dockerMounts (workDir : string) (vols : list Volume) : res contErr (list Mount) :=
  match Abs workDir with
  | None => Err CWorkDir
  | Some absWorkDir =>
      mounts ← volumeMounts [ContainerWorkDir] vols;
      Ok (mkMount absWorkDir ContainerWorkDir false :: mounts)
  end.

Definition dockerNotebookUmask : string := "umask 0000".

(** [runtimeID] is the driver's. *)
Definition containerCreateOptions (runtimeID : string) (cfg : DockerConfig) (req : StartRequest) : res contErr ContainerOptions :=
  match dr_Docker (ns_Driver (nb_Spec (nq_Spec req))) with
  | None => Err CNoSpec
  | Some ds =>
      _ ← check (String.eqb (d_Image ds) "") CImage;
      resources ← ResourcesFromDriverDocker (Some ds);
      selected ← selectDockerVolumes (dc_Volumes cfg) [] (d_Volumes ds);
      mounts ← dockerMounts (nq_WorkDir req) selected;
      prepSteps ← match StepsForBackend (ns_Prepare (nb_Spec (nq_Spec req))) "docker" with Ok l => Ok l | Err e => Err (CPrepare e) end;
      let jupyter := JupyterStartArgs (nq_BaseURL req) (nq_Token req) ContainerWorkDir 8888 in
      '(entrypoint, cmd) ← match prepSteps with
        | [] => Ok ([], ["/bin/sh"; "-c"; dockerNotebookUmask +:+ " && exec " +:+ char dquote +:+ "$@" +:+ char dquote; "sh"]%string ++ jupyter)
        | _ => match BuildLaunchScript [dockerNotebookUmask] prepSteps jupyter ContainerWorkDir with
               | Ok script => Ok (["/bin/sh"%string], ["-lc"%string; script])
               | Err e => Err (CPrepare e)
               end
        end;
      Ok (mkOptions (dockerContainerName (nq_RuntimeName req)) entrypoint (d_Image ds) cmd (d_User ds) ContainerWorkDir
            [("piper.managed", "true"); ("piper.notebook", nq_Name req); ("piper.project-id", nq_ProjectID req);
             ("piper.runtime-name", nq_RuntimeName req); ("piper.runtime-id", runtimeID)]%string
            (nq_ExtraEnv req) (if String.eqb (d_NetworkMode ds) "" then dc_Network cfg else d_NetworkMode ds)
            [mkBinding "8888/tcp" "127.0.0.1" (pretty (nq_Port req))] (d_ReadOnly ds) (d_Tmpfs ds) ["ALL"%string]
            ["no-new-privileges"%string] resources mounts)
  end.

(** *** Model services: [servingdriver/docker/driver.go] *)

(** The order in which a map is read. *)
Context (mapOrder : gmap string string -> list (string * string)).

Definition serviceOptions (runtimeID network : string) (req : DeployRequest) : res contErr ContainerOptions :=
  _ ← check (String.eqb (dq_Image req) "") CImage;
  _ ← check (dq_Port req =? 0) CPort;
  match dq_Command req with
  | [] => Err CCommand
  | entry :: args =>
      resources ← ResourcesFromDriverDocker (dq_Docker req);
      resources ← (if (negb (String.eqb (dq_GPUs req) "") && Nat.eqb (List.length (cr_DeviceRequests resources)) 0)%bool
                   then gpu ← GPUDeviceRequestFromSelector (dq_GPUs req);
                        Ok (mkContainerResources (cr_Memory resources) (cr_NanoCPUs resources)
                              (cr_DeviceRequests resources ++ [gpu]) (cr_ShmSize resources))
                   else Ok resources);
      mounts ← (if String.eqb (dq_ModelDir req) "" then Ok []
                else match Abs (dq_ModelDir req) with
                     | None => Err CWorkDir
                     | Some dir => Ok [mkMount dir "/piper/model" true]
                     end);
      Ok (mkOptions (containerName (dq_RuntimeName req)) [entry] (dq_Image req) args "" ""
            [("piper.managed", "true"); ("piper.serving", dq_Name req); ("piper.project-id", dq_ProjectID req);
             ("piper.runtime-name", dq_RuntimeName req); ("piper.runtime-id", runtimeID)]%string
            (map (fun kv => kv.1 +:+ "=" +:+ kv.2)%string (mapOrder (dq_Env req)))
            (if String.eqb network "" then "bridge"%string else network)
            [mkBinding (pretty (dq_Port req) +:+ "/tcp") "" (pretty (dq_Port req))] false [] [] [] resources mounts)
  end.

(** *** Pipeline steps: [pipelinedriver/docker/driver.go] *)

Definition ContainerOutputDir : string := "/piper-outputs".
Definition ContainerInputDir : string := "/piper-inputs".
Definition ContainerResultDir : string := "/piper-runtime".
Definition ContainerPiperBin : string := "/piper-tools/piper".

Definition containerTaskFile (runtimeKey : string) : string := (ContainerResultDir +:+ "/" +:+ runtimeKey +:+ ".task.json")%string.
Definition containerResultFile (runtimeKey : string) : string := (ContainerResultDir +:+ "/" +:+ runtimeKey +:+ ".result.json")%string.

Record AgentExecConfig := mkAgentExec {
  ae_StorageToken : string; ae_StorageURL : string; ae_OutputDir : string; ae_InputDir : string; ae_TaskFile : string; ae_ResultFile : string }.

Definition flag (name value : string) : list string := if String.eqb value "" then [] else [(name +:+ value)%string].

(** [EncodeTask], [json.Unmarshal] of a step. *)
Context (EncodeTask : Task -> option string) (unmarshalStep : string -> option Step).

Definition BuildAgentExec (task : Task) (cfg : AgentExecConfig) : res contErr (list string) :=
  _ ← check (String.eqb (ae_ResultFile cfg) "") CAgentArgs;
  taskArg ← (if negb (String.eqb (ae_TaskFile cfg) "") then Ok ("--task-file=" +:+ ae_TaskFile cfg)%string
             else match EncodeTask task with Some b64 => Ok ("--task=" +:+ b64)%string | None => Err CAgentArgs end);
  Ok (["agent"; "exec"; "--result-file=" +:+ ae_ResultFile cfg; taskArg]%string ++
      flag "--storage-token=" (ae_StorageToken cfg) ++ flag "--storage-url=" (ae_StorageURL cfg) ++
      flag "--output-dir=" (ae_OutputDir cfg) ++ flag "--input-dir=" (ae_InputDir cfg)).

(** [spec.Image], [spec.RuntimeKey] and the storage of the step; [piperBin] is the
    agent's binary on the host. *)
Definition stepOptions (runtimeID network piperBin image runtimeKey storageToken storageURL : string) (task : Task)
    : res contErr ContainerOptions :=
  _ ← check (String.eqb image "") CImage;
  agentArgs ← BuildAgentExec task (mkAgentExec storageToken storageURL ContainerOutputDir ContainerInputDir
                                     (containerTaskFile runtimeKey) (containerResultFile runtimeKey));
  docker ← match t_Step task with
           | None => Ok None
           | Some doc => if String.eqb doc "" then Ok None
                         else match unmarshalStep doc with Some step => Ok (dr_Docker (s_Driver step)) | None => Err CStep end
           end;
  resources ← ResourcesFromDriverDocker docker;
  Ok (mkOptions runtimeKey [ContainerPiperBin] image agentArgs "" ""
        [("piper.managed", "true"); ("piper.pipeline", "true"); ("piper.runtime-id", runtimeID); ("piper.runtime-key", runtimeKey);
         ("piper.task-id", t_ID task); ("piper.run-id", t_RunID task); ("piper.step-name", t_StepName task);
         ("piper.attempt", pretty (t_Attempt task))]%string
        [] (if String.eqb network "" then "bridge"%string else network) [] false [] [] [] resources
        [mkMount piperBin ContainerPiperBin true]).

End Containers.
