(* ===== verification/ContainersSpec.v ===== *)
(** * Containers: what a notebook's container may reach

    The mounts, network, ports and privileges of the container that the Docker
    driver asks for, for any manifest and any configuration it accepts whose
    container paths are written clean, with what the checks let through. *)

From Stdlib Require Import Floats.SpecFloat.
From S2P Require Import Prelude Pipeline NotebookModel Containers.
From stdpp Require Import options.
#[local] Open Scope Z_scope.
#[local] Set Default Proof Using "All".

Lemma existsb_eqb_false x l : existsb (String.eqb x) l = false <-> x ∉ l.
Proof.
  induction l as [|y l IH]; simpl; [by split; [set_solver|]|].
  by rewrite orb_false_iff, IH, not_elem_of_cons, String.eqb_neq.
Qed.

Section Policy.

Context (RAMInBytes : string -> option Z) (ParseFloat : string -> option spec_float) (outOfRange : spec_float -> Z).
Context (Abs EvalSymlinks : string -> option string) (UserHomeDir : string) (Stat : string -> option bool).

Abbreviation normalizeVolumes := (normalizeVolumes Abs EvalSymlinks UserHomeDir Stat).
Abbreviation normalizeDockerConfig := (normalizeDockerConfig Abs EvalSymlinks UserHomeDir Stat).

(** A host directory that may be mounted. *)
Definition hostAllowed (p : string) : Prop :=
  p <> "/"%string /\ (UserHomeDir <> ""%string -> p <> UserHomeDir) /\ p <> "/var/run/docker.sock"%string /\
  p <> "/run/docker.sock"%string /\ Stat p = Some true.

(** A place in a container for it: the path that its text leads to is outside of
    the work directory. *)
Definition targetAllowed (t : string) : Prop :=
  IsAbs t = true /\ path_Clean t <> ContainerWorkDir /\ String.prefix (ContainerWorkDir +:+ "/") (path_Clean t) = false.

(** A volume whose container path is written as [filepath.Clean] writes it. *)
Definition cleanTarget (v : Volume) : Prop := path_Clean (dv_ContainerPath v) = dv_ContainerPath v.

Lemma secureHostPath_ok path p : secureHostPath Abs EvalSymlinks UserHomeDir Stat path = Ok p -> hostAllowed p.
Proof.
  unfold secureHostPath. intros H. destruct (String.eqb path ""); [done|].
  destruct (Abs path) as [abs|]; [|done]. destruct (EvalSymlinks abs) as [resolved|]; [|done].
  apply bind_ok in H as (? & H1%check_ok & H). apply bind_ok in H as (? & H2%check_ok & H).
  apply bind_ok in H as (? & H3%check_ok & H). destruct (Stat resolved) as [isDir|] eqn:Es; [|done].
  apply bind_ok in H as (? & H4%check_ok & H). simplify_eq.
  apply orb_false_iff in H3 as [H3 H5]. apply String.eqb_neq in H1, H3, H5. apply negb_false_iff in H4 as ->.
  repeat (split; [done|]). split; [|by split].
  intros Hh ->. by rewrite String.eqb_refl, andb_true_r, negb_false_iff, String.eqb_eq in H2.
Qed.

Definition volumeOK (v : Volume) : Prop := hostAllowed (dv_HostPath v) /\ targetAllowed (dv_ContainerPath v).

Lemma normalizeVolumes_ok i names targets vols out : Forall cleanTarget vols -> normalizeVolumes i names targets vols = Ok out ->
  Forall (fun v => volumeOK v /\ cleanTarget v) out /\ NoDup (map dv_ContainerPath out) /\ Forall (fun v => dv_ContainerPath v ∉ targets) out.
Proof.
  intros Hclean. revert i names targets out; induction Hclean as [|v vols Hv Hclean IH]; intros i names targets out H; simpl in H.
  { simplify_eq. repeat constructor. }
  apply bind_ok in H as (? & _ & H). apply bind_ok in H as (? & _ & H). apply bind_ok in H as (host & Hh & H).
  apply bind_ok in H as (? & H1%check_ok & H). apply bind_ok in H as (? & H2%check_ok & H).
  apply bind_ok in H as (? & H3%check_ok & H). apply bind_ok in H as (rest & Hr & H). simplify_eq.
  apply IH in Hr as (Hok & Hnd & Hnew). apply existsb_eqb_false in H3.
  destruct (secureHostPath _ _ _ _ _) as [p|] eqn:Ep; simplify_eq. apply secureHostPath_ok in Ep.
  apply orb_false_iff in H2 as [H2 H2']. apply String.eqb_neq in H2. apply negb_false_iff in H1.
  split.
  { constructor; [|done]. split; [|exact Hv]. split; [done|]. unfold targetAllowed. simpl. by rewrite Hv. }
  split.
  - simpl. constructor; [|done]. rewrite list_elem_of_fmap. intros (v' & E & Hv'). rewrite Forall_forall in Hnew.
    specialize (Hnew _ Hv'). rewrite <- E in Hnew. set_solver.
  - constructor; [done|]. eapply Forall_impl; [exact Hnew|]. set_solver.
Qed.

Lemma selectDockerVolumes_in allowlist seen names out : selectDockerVolumes allowlist seen names = Ok out ->
  Forall (fun v => v ∈ allowlist /\ dv_Name v ∈ names) out.
Proof.
  revert seen out; induction names as [|n names IH]; intros seen out H; simpl in H; [by simplify_eq; constructor|].
  destruct (existsb _ _); [eapply Forall_impl; [by eapply IH|]; set_solver|].
  destruct (volumeNamed allowlist n) as [v|] eqn:E; [|done]. apply bind_ok in H as (rest & Hr & H). simplify_eq.
  apply find_some in E as [Hin Hn]. apply String.eqb_eq in Hn. rewrite <- in_rev in Hin. constructor.
  - split; [by apply list_elem_of_In|]. rewrite Hn. set_solver.
  - eapply Forall_impl; [by eapply IH|]. set_solver.
Qed.

Definition mountOf (v : Volume) : Mount := mkMount (dv_HostPath v) (dv_ContainerPath v) (dv_ReadOnly v).

Lemma volumeMounts_ok targets vols out : volumeMounts targets vols = Ok out ->
  out = map mountOf vols /\ NoDup (map mt_Target out) /\ Forall (fun m => mt_Target m ∉ targets) out.
Proof.
  revert targets out; induction vols as [|v vols IH]; intros targets out H; simpl in H.
  { simplify_eq. repeat constructor. }
  apply bind_ok in H as (? & H1%check_ok & H). apply bind_ok in H as (rest & Hr & H). simplify_eq.
  apply IH in Hr as (-> & Hnd & Hnew). apply existsb_eqb_false in H1. split; [done|]. split.
  - simpl. constructor; [|done]. rewrite list_elem_of_fmap. intros (m & E & Hm). rewrite Forall_forall in Hnew.
    specialize (Hnew _ Hm). rewrite <- E in Hnew. set_solver.
  - constructor; [done|]. eapply Forall_impl; [exact Hnew|]. set_solver.
Qed.

(** Clean targets are their own cleaning. *)
Lemma cleanTargets vols : Forall cleanTarget vols ->
  map (fun m => path_Clean (mt_Target m)) (map mountOf vols) = map mt_Target (map mountOf vols).
Proof. intros H. induction H as [|v vols Hv _ IH]; simpl; [done|]. by rewrite IH, Hv. Qed.

(** C31: The container of a notebook, for every manifest and every configuration
    that the driver accepts and whose container paths are written clean: besides the
    work directory it mounts only volumes that the manifest names and the
    installation allows, read-only where the installation says so, from host
    directories that passed the checks, at places that differ from each other and
    are not in the work directory, going by their paths; it has no capability and
    cannot gain privileges; its port is reachable from this host only, and its
    network is the installation's, [bridge] or [none], unless the manifest names
    one. *)
Theorem notebook_container_policy runtimeID cfg0 cfg req o
    (Hclean : Forall cleanTarget (dc_Volumes cfg0)) (Hcfg : normalizeDockerConfig cfg0 = Ok cfg)
    (Ho : containerCreateOptions RAMInBytes ParseFloat outOfRange Abs runtimeID cfg req = Ok o) :
  exists ds dir vols, dr_Docker (ns_Driver (nb_Spec (nq_Spec req))) = Some ds /\ Abs (nq_WorkDir req) = Some dir /\
    co_Mounts o = mkMount dir ContainerWorkDir false :: map mountOf vols /\
    Forall (fun v => v ∈ dc_Volumes cfg /\ dv_Name v ∈ d_Volumes ds /\ volumeOK v) vols /\
    NoDup (map (fun m => path_Clean (mt_Target m)) (co_Mounts o)) /\
    co_CapDrop o = ["ALL"%string] /\ co_SecurityOpt o = ["no-new-privileges"%string] /\
    Forall (fun b => pb_HostIP b = "127.0.0.1"%string) (co_Ports o) /\
    (d_NetworkMode ds = ""%string -> co_NetworkMode o = dc_Network cfg /\ (dc_Network cfg = "bridge"%string \/ dc_Network cfg = "none"%string)).
Proof.
  unfold normalizeDockerConfig in Hcfg. apply bind_ok in Hcfg as (? & Hn%check_ok & Hcfg).
  apply bind_ok in Hcfg as (allowed & Hv & Hcfg). injection Hcfg as <-.
  apply (normalizeVolumes_ok _ _ _ _ _ Hclean) in Hv as (Hok & _ & _). rewrite Forall_forall in Hok.
  unfold containerCreateOptions in Ho. destruct (dr_Docker _) as [ds|]; [|done].
  apply bind_ok in Ho as (? & _ & Ho). apply bind_ok in Ho as (resources & _ & Ho).
  apply bind_ok in Ho as (vols & Hs & Ho). apply bind_ok in Ho as (mounts & Hm & Ho).
  apply bind_ok in Ho as (steps & _ & Ho). apply bind_ok in Ho as ([entry cmd] & _ & Ho). injection Ho as <-.
  unfold dockerMounts in Hm. destruct (Abs _) as [dir|]; [|done]. apply bind_ok in Hm as (ms & Hm & [= <-]).
  apply volumeMounts_ok in Hm as (-> & Hnd & Hnew). exists ds, dir, vols. simpl.
  apply selectDockerVolumes_in in Hs. assert (Hvols : Forall cleanTarget vols).
  { eapply Forall_impl; [exact Hs|]. intros v [Hv _]. by apply Hok. }
  repeat (split; [done|]). split; [|split; [|repeat (split; [done|])]].
  - eapply Forall_impl; [exact Hs|]. intros v [H1 H2]. split; [done|]. split; [done|]. by apply Hok.
  - rewrite cleanTargets by done. constructor; [|done]. rewrite list_elem_of_fmap. intros (m & E & Hin). rewrite Forall_forall in Hnew.
    specialize (Hnew _ Hin). change (path_Clean ContainerWorkDir) with ContainerWorkDir in E. set_solver.
  - split; [by repeat constructor|]. intros ->. split; [done|].
    apply andb_false_iff in Hn as [H|H]; apply negb_false_iff, String.eqb_eq in H; auto.
Qed.

End Policy.

(** ** Witness and what the checks let through *)

Definition demo_docker (network : string) (vols : list string) : DriverDockerSpec :=
  mkDocker "jupyter" "" "" "" false "" network [] vols None.
Definition demo_notebook (ds : DriverDockerSpec) : Notebook :=
  mkNotebook (mkTypeMeta "piper.io/v1" "Notebook") (mkObjectMeta "nb" 0 "p" ∅ "" [])
    (mkNotebookSpec (mkSpecOptions [] 0) None None (mkDriver "docker" None (Some ds) None)).
Definition demo_request (ds : DriverDockerSpec) : StartRequest :=
  mkStartRequest "p__nb" "p" "nb" (demo_notebook ds) "/data/v1" 8890 "token" "/projects/p/notebooks/nb/proxy/" [] "p:nb" 1.

Definition demo_config (host target : string) : DockerConfig := mkDockerConfig "" [mkDockerVolume "data" host target true].
Definition demo_normalize := normalizeDockerConfig Some Some "/home/piper" (fun p => Some (negb (String.prefix "/etc" p))).
Definition demo_options (cfg : DockerConfig) (ds : DriverDockerSpec) :=
  containerCreateOptions (fun _ => None) (fun _ => None) (fun _ => 0) Some "r" cfg (demo_request ds).

Lemma notebook_container_policy_witness :
  exists cfg o, demo_normalize (demo_config "/srv/data" "/data") = Ok cfg /\ demo_options cfg (demo_docker "" ["data"%string]) = Ok o /\
    co_Mounts o = [mkMount "/data/v1" ContainerWorkDir false; mkMount "/srv/data" "/data" true] /\
    NoDup (map (fun m => path_Clean (mt_Target m)) (co_Mounts o)).
Proof.
  set (cfg := mkDockerConfig "bridge" [mkDockerVolume "data" "/srv/data" "/data" true]).
  assert (Hcfg : demo_normalize (demo_config "/srv/data" "/data") = Ok cfg) by (vm_compute; reflexivity).
  destruct (demo_options cfg (demo_docker "" ["data"%string])) as [o|e] eqn:Ho; [|vm_compute in Ho; discriminate].
  exists cfg, o. split; [exact Hcfg|]. split; [exact Ho|]. split; [vm_compute in Ho; by simplify_eq|].
  destruct (notebook_container_policy (fun _ => None) (fun _ => None) (fun _ => 0) Some Some "/home/piper"
    (fun p => Some (negb (String.prefix "/etc" p))) "r"
    (demo_config "/srv/data" "/data") cfg (demo_request (demo_docker "" ["data"%string])) o ltac:(repeat constructor) Hcfg Ho) as (ds & dir & vols & _ & _ & _ & _ & H & _).
  exact H.
Defined.

(** A manifest chooses the network of the host, although the configuration only
    admits [bridge] and [none]. *)
Example manifest_network_wins :
  match demo_normalize (mkDockerConfig "none" []) with
  | Ok cfg => match demo_options cfg (demo_docker "host" []) with Ok o => co_NetworkMode o = "host"%string | Err _ => False end
  | Err _ => False
  end.
Proof. vm_compute. reflexivity. Qed.

(** The socket is refused, the directory that holds it is not. *)
Example socket_directory_allowed :
  match demo_normalize (demo_config "/run" "/host-run") with
  | Ok cfg => match demo_options cfg (demo_docker "" ["data"%string]) with
              | Ok o => mkMount "/run" "/host-run" true ∈ co_Mounts o
              | Err _ => False
              end
  | Err _ => False
  end.
Proof. vm_compute. repeat constructor. Qed.

(** The overlap with the work directory is looked for in the text of the path. *)
Example unclean_target_overlaps :
  (exists cfg, demo_normalize (demo_config "/srv/data" "/home/jovyan//work/data") = Ok cfg) /\
  path_Clean "/home/jovyan//work/data" = (ContainerWorkDir +:+ "/data")%string.
Proof. split; [eexists; vm_compute; reflexivity|vm_compute; reflexivity]. Qed.

(** Two notebooks of one project whose names differ in a byte that is no name
    character get the same container name. *)
Example container_names_collide : dockerContainerName "p__a b" = dockerContainerName "p__a+b".
Proof. reflexivity. Qed.
