(* ===== verification/NotebookDriver.v ===== *)
(** * Notebook servers: the local driver

    The driver that runs notebooks on Piper's own host
    ([dispatch/localdriver/driver.go]): ports, the table of active notebooks, the
    start that goes on in the background, exits and recovery, over a process or
    container runtime. *)

From stdpp Require Import pretty.
From S2P Require Import Prelude Prog Pipeline NotebookModel NotebookManager.
From stdpp Require Import options.
#[local] Open Scope Z_scope.

(** The fields of its [Config]; the notebooks' root as [filepath.Abs] gives it. *)
Record NbConfig := mkNbConfig {
  nc_RuntimeID : string; nc_PlacementRuntime : string; nc_root : string; nc_PortRange : string; nc_EnvResolver : bool }.

Section Driver.

Context (cfg : NbConfig) (errText : nbErr -> string).

Definition notebookKey (projectID name : string) : string := (projectID +:+ ":" +:+ name)%string.
Definition runtimeName (projectID name : string) : string :=
  if String.eqb projectID "" then name else (projectID +:+ "__" +:+ name)%string.

(** [filepath.Join] below the root *)
Definition volumeDir (volumeID : string) : string :=
  path_Clean (if String.eqb volumeID "" then nc_root cfg else nc_root cfg +:+ "/" +:+ volumeID)%string.

(** [cfg.ReportStatus] of the composition root, its error logged. *)
Definition report (projectID name : string) (r : StatusReport) : N unit :=
  _ ← UpdateStatus projectID (nc_RuntimeID cfg) name r; Ret tt.

Definition statusReport (status reason workDir : string) : StatusReport := mkReport status reason "" workDir "" 0 "".

Definition exitReport (status : string) : StatusReport :=
  statusReport status (if String.eqb status StatusFailed then "notebook server exited with an error; see its logs" else "")%string "".

(** *** Volumes *)

Definition localProvisionVolume (vol : NotebookVolume) (spec : Notebook) : N (res nbErr NotebookVolume) :=
  if String.eqb (vl_ID vol) "" then Ret (Err (NMsg "localdriver: volume id is required"))
  else
    let dir := volumeDir (vl_ID vol) in
    _ ←! wrapping "localdriver: create volume dir" (invoke (NMkdirAll dir));
    Ret (Ok (withWorkDir dir vol)).

(** [filepath.Rel] of two clean absolute paths leads out of [root]. *)
Definition outside (root dir : string) : bool :=
  let below := if String.eqb root "/" then "/"%string else (root +:+ "/")%string in
  negb (String.eqb dir root) && negb (String.prefix below dir).

Definition localDeprovisionVolume (vol : NotebookVolume) : N (res nbErr unit) :=
  if String.eqb (vl_ID vol) "" then Ret (Ok tt)
  else
    let dir := volumeDir (vl_ID vol) in
    if outside (path_Clean (nc_root cfg)) dir then Ret (Err (NMsg "work_dir is outside notebooks root"))
    else invoke (NRemoveAll dir).

(** *** Ports *)

Definition parsePortRange (s : string) : res nbErr (Z * Z) :=
  match str_index "-"%char s with
  | None => Err (NMsg "invalid port_range: expected START-END")
  | Some i =>
      match Atoi (TrimSpace (str_take i s)), Atoi (TrimSpace (str_drop (S i) s)) with
      | Some start, Some end_ => if ((start <=? 0) || (end_ <? start))%bool then Err (NMsg "invalid port_range") else Ok (start, end_)
      | _, _ => Err (NMsg "invalid port_range")
      end
  end.

(** The loop over the ports of the range, over those left. *)
Fixpoint tryPorts (used : gset Z) (ports : list Z) : N (res nbErr Z) :=
  match ports with
  | [] => Ret (Err (NMsg "no available port in range"))
  | port :: ports =>
      if bool_decide (port ∈ used) then tryPorts used ports
      else
        free ← invoke (NListen port);
        if (free : bool) then
          got ← invoke (NReserve port);
          if (got : bool) then Ret (Ok port) else tryPorts used ports
        else tryPorts used ports
  end.

Definition allocatePort : N (res nbErr Z) :=
  '(start, end_) ←! lift (parsePortRange (if String.eqb (nc_PortRange cfg) "" then "8888-9900" else nc_PortRange cfg));
  used ← invoke NPortsUsed;
  tryPorts used (seqZ start (end_ - start + 1)).

Definition releasePort (port : Z) : N unit := if port <=? 0 then Ret tt else invoke (NRelease port).

(** *** Starting *)

Definition buildNotebookEnv (optionsEnv : list EnvVar) (resolvedEnv : list string) : list string :=
  map (fun e => ev_Name e +:+ "=" +:+ ev_Value e)%string
    (List.filter (fun e => (match ev_ValueFrom e with None => true | Some _ => false end &&
                            negb (String.eqb (ev_Name e) "") && negb (String.eqb (ev_Value e) ""))%bool) optionsEnv)
  ++ resolvedEnv.

Definition localStart (spec : Notebook) (vol : NotebookVolume) (yamlStr : string) : N (res nbErr NotebookServer) :=
  let projectID := m_ProjectID (nb_Metadata spec) in
  let name := m_Name (nb_Metadata spec) in
  _ ←! lift (check (String.eqb projectID "") (NMsg "localdriver: project_id is required"));
  _ ←! lift (check (String.eqb name "") (NMsg "localdriver: metadata.name is required"));
  _ ←! wrapping "localdriver" (lift (validatePlacement spec (nc_PlacementRuntime cfg)));
  let key := notebookKey projectID name in
  port ←! allocatePort;
  if (String.eqb (vl_WorkDir vol) "" && String.eqb (vl_ID vol) "")%bool then
    _ ← releasePort port; Ret (Err (NMsg "localdriver: volume is required when work_dir is empty"))
  else
    let workDir := if String.eqb (vl_WorkDir vol) "" then volumeDir (vl_ID vol) else vl_WorkDir vol in
    token ← invoke NNewID;
    let baseURL := ("/projects/" +:+ projectID +:+ "/notebooks/" +:+ name +:+ "/proxy/")%string in
    let endpoint := ("http://127.0.0.1:" +:+ pretty port)%string in
    slot ← invoke (NRegister key projectID name port);
    match slot with
    | None => _ ← releasePort port; Ret (Err (NMsg "notebook is already active"))
    | Some gen =>
        _ ← invoke (NGoStartAsync (mkStartRequest (runtimeName projectID name) projectID name spec workDir port token baseURL [] key gen) endpoint);
        Ret (Ok (mkServer "" "" "" "" endpoint 0 workDir token (nc_RuntimeID cfg) "" "" "" "" 0 0 0))
    end.

Definition failStart (req : StartRequest) (cause : nbErr) : N unit :=
  current ← invoke (NEnd (nq_Key req) (nq_Gen req) (nq_Port req) StatusFailed);
  if (current : bool) then report (nq_ProjectID req) (nq_Name req) (statusReport StatusFailed (errText cause) (nq_WorkDir req)) else Ret tt.

(** [None] when there is nothing to resolve. *)
Definition resolveEnv (projectID : string) (env : list EnvVar) : N (res nbErr (list string)) :=
  if (nc_EnvResolver cfg && negb (Nat.eqb (List.length env) 0))%bool then invoke (NResolveEnv projectID env) else Ret (Ok []).

Definition withEnv (env : list string) (req : StartRequest) : StartRequest :=
  mkStartRequest (nq_RuntimeName req) (nq_ProjectID req) (nq_Name req) (nq_Spec req) (nq_WorkDir req) (nq_Port req)
    (nq_Token req) (nq_BaseURL req) env (nq_Key req) (nq_Gen req).

(** The goroutine of a start; [req] lacks only the environment. *)
Definition startAsync (req : StartRequest) (endpoint : string) : N unit :=
  made ← invoke (NMkdirAll (nq_WorkDir req));
  match made with
  | Err err => failStart req err
  | Ok _ =>
      let env := o_Env (ns_Options (nb_Spec (nq_Spec req))) in
      resolved ← resolveEnv (nq_ProjectID req) env;
      match resolved with
      | Err err => failStart req err
      | Ok resolved =>
          started ← invoke (NRtStart (withEnv (buildNotebookEnv env resolved) req));
          match started with
          | Err err => failStart req err
          | Ok started =>
              current ← invoke (NIsCurrent (nq_Key req) (nq_Gen req));
              if (current : bool) then
                report (nq_ProjectID req) (nq_Name req)
                  (mkReport StatusRunning "" endpoint (nq_WorkDir req)
                     (if String.eqb (st_Token started) "" then nq_Token req else st_Token started) (st_PID started) (st_EnvPath started))
              else Ret tt
          end
      end
  end.

(** *** Stopping, exits, recovery *)

Definition localStop (nb : NotebookServer) : N (res nbErr unit) :=
  let key := notebookKey (sv_ProjectID nb) (sv_Name nb) in
  active ← invoke (NActive key);
  match active with
  | None =>
      _ ←! invoke (NRtStop (runtimeName (sv_ProjectID nb) (sv_Name nb)));
      _ ← report (sv_ProjectID nb) (sv_Name nb) (statusReport StatusStopped "" "");
      Ret (Ok tt)
  | Some a =>
      _ ←! invoke (NRtStop (runtimeName (ac_projectID a) (ac_name a)));
      current ← invoke (NEnd key (ac_gen a) (ac_port a) StatusStopped);
      _ ← (if (current : bool) then report (ac_projectID a) (ac_name a) (statusReport StatusStopped "" "") else Ret tt);
      Ret (Ok tt)
  end.

(** The callbacks for an exit: [OnExit] of a start, and the one of [Recover]. *)
Definition onExit (cb : exitCallback) (status : string) : N unit :=
  current ← invoke (NEnd (cb_Key cb) (cb_Gen cb) (cb_Port cb) status);
  if (current : bool) then
    report (cb_ProjectID cb) (cb_Name cb) (if cb_Recovered cb then statusReport status "" "" else exitReport status)
  else Ret tt.

(** The runtime's [Recover] calls [onRecovered] for each workload that runs and
    [onTerminal], with a status, for each that has ended. *)
Fixpoint recoverEach (l : list (RecoveredHandle * option string)) : N unit :=
  match l with
  | [] => Ret tt
  | (h, ended) :: l =>
      let key := notebookKey (rh_ProjectID h) (rh_Name h) in
      _ ← match ended with
          | None =>
              gen ← invoke (NReattach key h);
              invoke (NOnExit (mkCallback (rh_ProjectID h) (rh_Name h) key gen (rh_Port h) true))
          | Some status =>
              idle ← invoke (NTerminal key status);
              if (idle : bool) then report (rh_ProjectID h) (rh_Name h) (statusReport status "" "") else Ret tt
          end;
      recoverEach l
  end.

Definition Recover : N (res nbErr unit) :=
  l ←! invoke NRtRecover;
  _ ← recoverEach l; Ret (Ok tt).

#[export] Instance localDriver : NotebookDriver := {
  driverValidateSpec := fun _ => Ret (Ok tt);
  driverProvisionVolume := localProvisionVolume;
  driverStart := localStart;
  driverStop := localStop;
  driverRemove := localStop;
  driverDeprovisionVolume := localDeprovisionVolume }.

End Driver.
