(* ===== verification/NotebookWorld.v ===== *)
(** * Notebook servers: tables, driver state, interleavings

    What each call does to the tables ([internal/store/sqlite/notebook.go] and
    [notebook_volume.go]) and to the local driver's maps
    ([localdriver/driver.go]), and the system of requests, starts in the
    background, exits of workloads, ticks of the clock, purges of the history and
    restarts of the process. *)

From S2P Require Import Prelude Prog Pipeline NotebookModel NotebookManager NotebookDriver.
From stdpp Require Import options.
#[local] Open Scope Z_scope.

(** ** The statements *)

Abbreviation skey := (string * string)%type.
Definition serverKey (nb : NotebookServer) : skey := (sv_ProjectID nb, sv_Name nb).

Record Tables := mkTables {
  nt_servers : gmap skey NotebookServer; nt_volumes : gmap string NotebookVolume;
  nt_history : list NotebookHistory (* newest insertion first *) }.

Definition setServers m t := mkTables m (nt_volumes t) (nt_history t).
Definition setVolumes m t := mkTables (nt_servers t) m (nt_history t).
Definition setHistory h t := mkTables (nt_servers t) (nt_volumes t) h.

Definition onServer (f : NotebookServer -> NotebookServer) (k : skey) (t : Tables) : Tables := setServers (alter f k (nt_servers t)) t.
Definition onVolume (f : NotebookVolume -> NotebookVolume) (id_ : string) (t : Tables) : Tables := setVolumes (alter f id_ (nt_volumes t)) t.

(** The stamps of [Create]. *)
Definition stamped (now : Z) (nb : NotebookServer) : NotebookServer :=
  mkServer (sv_ProjectID nb) (sv_Name nb) (sv_Status nb) (sv_Env nb) (sv_Endpoint nb) (sv_PID nb) (sv_WorkDir nb) (sv_Token nb)
    (sv_RuntimeID nb) (sv_VolumeID nb) (sv_Reason nb) (sv_YAML nb) (sv_CreatedBy nb) now now now.

(** The project and the name are the primary key. *)
Definition createServer (nb : NotebookServer) (t : Tables) : option Tables :=
  match nt_servers t !! serverKey nb with
  | Some _ => None
  | None => Some (setServers (<[serverKey nb := nb]> (nt_servers t)) t)
  end.

(** [Update] leaves the key, the author and the two first stamps alone. *)
Definition updateServer (nb : NotebookServer) (now : Z) : Tables -> Tables :=
  onServer (fun old => mkServer (sv_ProjectID old) (sv_Name old) (sv_Status nb) (sv_Env nb) (sv_Endpoint nb) (sv_PID nb) (sv_WorkDir nb)
      (sv_Token nb) (sv_RuntimeID nb) (sv_VolumeID nb) (sv_Reason nb) (sv_YAML nb) (sv_CreatedBy old) (sv_CreatedAt old)
      (sv_StartedAt old) now) (serverKey nb).

Definition withTimes (started updated : Z) (nb : NotebookServer) : NotebookServer :=
  mkServer (sv_ProjectID nb) (sv_Name nb) (sv_Status nb) (sv_Env nb) (sv_Endpoint nb) (sv_PID nb) (sv_WorkDir nb) (sv_Token nb)
    (sv_RuntimeID nb) (sv_VolumeID nb) (sv_Reason nb) (sv_YAML nb) (sv_CreatedBy nb) (sv_CreatedAt nb) started updated.

Definition setStatus (k : skey) (status reason : string) (now : Z) : Tables -> Tables :=
  onServer (fun nb => withTimes (sv_StartedAt nb) now (setStatusOf status reason nb)) k.

Definition startRun (k : skey) (now : Z) : Tables -> Tables :=
  onServer (fun nb => withTimes now now (setStatusOf StatusStarting "" nb)) k.

(** *** [FinishRun] *)

Definition finishedRow (status reason : string) (now : Z) (nb : NotebookServer) : NotebookServer :=
  mkServer (sv_ProjectID nb) (sv_Name nb) status (sv_Env nb) "" 0 (sv_WorkDir nb) ""
    (sv_RuntimeID nb) (sv_VolumeID nb) reason (sv_YAML nb) (sv_CreatedBy nb) (sv_CreatedAt nb) (sv_StartedAt nb) now.

(** The columns that say which run a history row is of. *)
Abbreviation runKey := (string * string * Z)%type.
Definition runOf (nb : NotebookServer) : runKey := (sv_ProjectID nb, sv_Name nb, sv_StartedAt nb).
Definition historyRun (h : NotebookHistory) : runKey := (nh_ProjectID h, nh_Name h, nh_DeployedAt h).

Definition historyOf (nb : NotebookServer) (now : Z) : NotebookHistory :=
  mkNbHistory (sv_ProjectID nb) (sv_Name nb) (sv_Status nb) (sv_Env nb) (sv_Endpoint nb) (sv_PID nb) (sv_WorkDir nb) (sv_RuntimeID nb)
    (sv_VolumeID nb) (sv_Reason nb) (sv_YAML nb) (sv_CreatedBy nb) (sv_StartedAt nb) now.

Definition endedAgain (nb : NotebookServer) (now : Z) (h : NotebookHistory) : NotebookHistory :=
  mkNbHistory (nh_ProjectID h) (nh_Name h) (sv_Status nb) (nh_Env h) (nh_Endpoint h) (nh_PID h) (nh_WorkDir h) (nh_RuntimeID h)
    (nh_VolumeID h) (sv_Reason nb) (nh_YAML h) (nh_CreatedBy h) (nh_DeployedAt h) now.

(** The update of the run's history row, else its insertion. *)
Definition recordRun (nb : NotebookServer) (now : Z) (history : list NotebookHistory) : list NotebookHistory :=
  if existsb (fun h => bool_decide (historyRun h = runOf nb)) history
  then map (fun h => if bool_decide (historyRun h = runOf nb) then endedAgain nb now h else h) history
  else historyOf nb now :: history.

(** The row that the transaction finished, with the tables after it. *)
Definition finishRun (k : skey) (status reason : string) (now : Z) (t : Tables) : option NotebookServer * Tables :=
  match nt_servers t !! k with
  | Some nb =>
      if ended (sv_Status nb) then (None, t)
      else
        let nb := finishedRow status reason now nb in
        (Some nb, setHistory (recordRun nb now (nt_history t)) (setServers (<[k := nb]> (nt_servers t)) t))
  | None => (None, t)
  end.

Definition deleteServer (k : skey) (t : Tables) : Tables := setServers (delete k (nt_servers t)) t.

(** *** Reading: newest first; limit 0 is none *)

Definition newer (a b : NotebookServer) : Prop := sv_CreatedAt b <= sv_CreatedAt a.
#[export] Instance newer_dec : RelDecision newer.
Proof. intros a b. unfold newer. apply _. Defined.
Definition updatedLater (a b : NotebookServer) : Prop := sv_UpdatedAt b <= sv_UpdatedAt a.
#[export] Instance updatedLater_dec : RelDecision updatedLater.
Proof. intros a b. unfold updatedLater. apply _. Defined.
Definition stoppedLater (a b : NotebookHistory) : Prop := nh_StoppedAt b <= nh_StoppedAt a.
#[export] Instance stoppedLater_dec : RelDecision stoppedLater.
Proof. intros a b. unfold stoppedLater. apply _. Defined.
Definition newerVolume (a b : NotebookVolume) : Prop := vl_CreatedAt b <= vl_CreatedAt a.
#[export] Instance newerVolume_dec : RelDecision newerVolume.
Proof. intros a b. unfold newerVolume. apply _. Defined.

Definition page {A} (limit offset : nat) (l : list A) : list A := if Nat.ltb 0 limit then take limit (drop offset l) else l.

Definition serversOf (projectID : string) (t : Tables) : list NotebookServer :=
  List.filter (fun nb => String.eqb (sv_ProjectID nb) projectID) (map_to_list (nt_servers t)).*2.
Definition historyRows (projectID : string) (t : Tables) : list NotebookHistory :=
  List.filter (fun h => String.eqb (nh_ProjectID h) projectID) (nt_history t).
Definition volumesOf (projectID : string) (t : Tables) : list NotebookVolume :=
  List.filter (fun v => String.eqb (vl_ProjectID v) projectID) (map_to_list (nt_volumes t)).*2.

Definition listServers (projectID : string) (limit offset : nat) (t : Tables) : list NotebookServer :=
  page limit offset (merge_sort newer (serversOf projectID t)).
Definition countServers (projectID : string) (t : Tables) : nat := List.length (serversOf projectID t).
Definition getByVolumeID (projectID volumeID : string) (t : Tables) : option NotebookServer :=
  head (merge_sort updatedLater (List.filter (fun nb => String.eqb (sv_VolumeID nb) volumeID) (serversOf projectID t))).
Definition listHistory (projectID : string) (limit offset : nat) (t : Tables) : list NotebookHistory :=
  page limit offset (merge_sort stoppedLater (historyRows projectID t)).
Definition countHistory (projectID : string) (t : Tables) : nat := List.length (historyRows projectID t).
Definition purgeHistory (cutoff : Z) (t : Tables) : Tables * nat :=
  let kept := List.filter (fun h => negb (nh_StoppedAt h <? cutoff)) (nt_history t) in
  (setHistory kept t, (List.length (nt_history t) - List.length kept)%nat).

(** *** Volumes *)

Definition stampedVolume (now : Z) (v : NotebookVolume) : NotebookVolume :=
  mkVolume (vl_ProjectID v) (vl_ID v) (vl_Label v) (vl_WorkDir v) (vl_Status v) (vl_RuntimeID v) now now.
Definition createVolume (v : NotebookVolume) (t : Tables) : option Tables :=
  match nt_volumes t !! vl_ID v with
  | Some _ => None
  | None => Some (setVolumes (<[vl_ID v := v]> (nt_volumes t)) t)
  end.
Definition updateVolume (v : NotebookVolume) (now : Z) : Tables -> Tables :=
  onVolume (fun old => mkVolume (vl_ProjectID old) (vl_ID old) (vl_Label v) (vl_WorkDir v) (vl_Status v) (vl_RuntimeID v) (vl_CreatedAt old) now) (vl_ID v).
Definition setVolumeStatus (id_ status : string) (now : Z) : Tables -> Tables :=
  onVolume (fun v => mkVolume (vl_ProjectID v) (vl_ID v) (vl_Label v) (vl_WorkDir v) status (vl_RuntimeID v) (vl_CreatedAt v) now) id_.
Definition deleteVolume (id_ : string) (t : Tables) : Tables := setVolumes (delete id_ (nt_volumes t)) t.
Definition listVolumes (projectID : string) (limit offset : nat) (t : Tables) : list NotebookVolume :=
  page limit offset (merge_sort newerVolume (volumesOf projectID t)).
Definition countVolumes (projectID : string) (t : Tables) : nat := List.length (volumesOf projectID t).

(** ** The driver's maps *)

Record DriverState := mkDriverState {
  dn_notebooks : gmap string activeNotebook; dn_reserved : gset Z; dn_terminal : gmap string string; dn_nextGen : nat }.

Definition idle : DriverState := mkDriverState ∅ ∅ ∅ 0.

Definition current (key : string) (gen : nat) (d : DriverState) : bool :=
  match dn_notebooks d !! key with Some a => Nat.eqb (ac_gen a) gen | None => false end.

Definition portsUsed (d : DriverState) : gset Z :=
  list_to_set (map (fun kv => ac_port kv.2) (map_to_list (dn_notebooks d))) ∪ dn_reserved d.

Definition reservePort (port : Z) (d : DriverState) : bool * DriverState :=
  if bool_decide (port ∈ dn_reserved d) then (false, d)
  else (true, mkDriverState (dn_notebooks d) ({[port]} ∪ dn_reserved d) (dn_terminal d) (dn_nextGen d)).

Definition freePort (port : Z) (d : DriverState) : DriverState :=
  mkDriverState (dn_notebooks d) (dn_reserved d ∖ {[port]}) (dn_terminal d) (dn_nextGen d).

Definition addNotebook (key projectID name : string) (port : Z) (d : DriverState) : DriverState :=
  mkDriverState (<[key := mkActive projectID name port (S (dn_nextGen d))]> (dn_notebooks d)) (dn_reserved d)
    (delete key (dn_terminal d)) (S (dn_nextGen d)).

Definition registerNotebook (key projectID name : string) (port : Z) (d : DriverState) : option nat * DriverState :=
  match dn_notebooks d !! key with
  | Some _ => (None, d)
  | None => (Some (S (dn_nextGen d)), addNotebook key projectID name port d)
  end.

(** The locked section of [failStart], of [Stop] and of both exit callbacks. *)
Definition endNotebook (key : string) (gen : nat) (port : Z) (status : string) (d : DriverState) : bool * DriverState :=
  if current key gen d
  then (true, mkDriverState (delete key (dn_notebooks d)) (dn_reserved d ∖ {[port]}) (<[key := status]> (dn_terminal d)) (dn_nextGen d))
  else (false, d).

Definition reattach (key : string) (h : RecoveredHandle) (d : DriverState) : nat * DriverState :=
  let d' := addNotebook key (rh_ProjectID h) (rh_Name h) (rh_Port h) d in
  (S (dn_nextGen d),
   if 0 <? rh_Port h then mkDriverState (dn_notebooks d') ({[rh_Port h]} ∪ dn_reserved d') (dn_terminal d') (dn_nextGen d') else d').

Definition terminalNotebook (key status : string) (d : DriverState) : bool * DriverState :=
  match dn_notebooks d !! key with
  | Some _ => (false, d)
  | None => (true, mkDriverState (dn_notebooks d) (dn_reserved d) (<[key := status]> (dn_terminal d)) (dn_nextGen d))
  end.

(** ** The world *)

Inductive rtCall : Type := RtStarted (name : string) | RtStopped (name : string).

Record NWorld := mkNWorld {
  nw_tables : Tables;
  nw_driver : DriverState;
  nw_now : Z;
  nw_callbacks : list exitCallback;        (* what the runtime may call *)
  nw_events : list (string * string * list (string * string));
  nw_dirs : gset string;
  (* what the runtime did for this process, newest first *)
  nw_calls : list rtCall }.

Definition nw_setTables t w := mkNWorld t (nw_driver w) (nw_now w) (nw_callbacks w) (nw_events w) (nw_dirs w) (nw_calls w).
Definition nw_setDriver d w := mkNWorld (nw_tables w) d (nw_now w) (nw_callbacks w) (nw_events w) (nw_dirs w) (nw_calls w).
Definition nw_setNow n w := mkNWorld (nw_tables w) (nw_driver w) n (nw_callbacks w) (nw_events w) (nw_dirs w) (nw_calls w).
Definition nw_setCallbacks l w := mkNWorld (nw_tables w) (nw_driver w) (nw_now w) l (nw_events w) (nw_dirs w) (nw_calls w).
Definition nw_setEvents l w := mkNWorld (nw_tables w) (nw_driver w) (nw_now w) (nw_callbacks w) l (nw_dirs w) (nw_calls w).
Definition nw_setDirs s w := mkNWorld (nw_tables w) (nw_driver w) (nw_now w) (nw_callbacks w) (nw_events w) s (nw_calls w).
Definition nw_setCalls l w := mkNWorld (nw_tables w) (nw_driver w) (nw_now w) (nw_callbacks w) (nw_events w) (nw_dirs w) l.

(** How a call ends: as it should; it fails without effect, or although it had
    its effect; or what the world outside answers. *)
Inductive nchoice : Type :=
| NDone
| NFailed (how : attempt) (msg : string)
| NFree (free : bool)
| NText (s : string)
| NTexts (r : res nbErr (list string))
| NUnit (r : res nbErr unit)
| NStarted (r : res nbErr StartedHandle)
| NHandles (r : res nbErr (list (RecoveredHandle * option string))).

(** What a runtime recovers: its workloads have names of their own, those that
    run listen on ports of their own, and the others ended as stopped or failed. *)
Definition runningPorts (l : list (RecoveredHandle * option string)) : list Z :=
  List.filter (fun p => 0 <? p) (map (fun h => rh_Port h.1) (List.filter (fun h => match h.2 with None => true | Some _ => false end) l)).
Definition recoverable (l : list (RecoveredHandle * option string)) : bool :=
  forallb (fun h => match h.2 with Some status => ended status | None => true end) l &&
  bool_decide (NoDup (map (fun h => notebookKey (rh_ProjectID h.1) (rh_Name h.1)) l)) &&
  bool_decide (NoDup (runningPorts l)).

Section World.

Context (cfg : NbConfig) (runtime : string) (decode : string -> option Notebook) (errText : nbErr -> string).

#[local] Instance driver : NotebookDriver := localDriver cfg.

Abbreviation outcome R := (option (R * NWorld * list (N unit))).
Definition external {R} (r : R) (w : NWorld) : outcome R := Some (r, w, []).

(** A statement that answers [a] and leaves [after]. *)
Definition statement {A} (i : nchoice) (w : NWorld) (a : A) (after : NWorld) : outcome (res nbErr A) :=
  match i with
  | NDone => external (Ok a) after
  | NFailed AttemptApplied msg => external (Err (NMsg msg)) after
  | NFailed _ msg => external (Err (NMsg msg)) w
  | _ => None
  end.

(** One that a constraint of the table may refuse. *)
Definition insertion {A} (i : nchoice) (w : NWorld) (a : A) (after : option Tables) : outcome (res nbErr A) :=
  match after with
  | Some t => statement i w a (nw_setTables t w)
  | None => external (Err (NMsg "UNIQUE constraint failed")) w
  end.

Definition written (f : Tables -> Tables) (w : NWorld) : NWorld := nw_setTables (f (nw_tables w)) w.

Definition finished (k : skey) (status reason : string) (w : NWorld) : bool * NWorld :=
  match finishRun k status reason (nw_now w) (nw_tables w) with
  | (Some _, t) => (true, nw_setTables t w)
  | (None, t) => (false, nw_setTables t w)
  end.

(** A locked section of the driver. *)
Definition section {R} (f : DriverState -> R * DriverState) (w : NWorld) : outcome R :=
  let '(r, d) := f (nw_driver w) in external r (nw_setDriver d w).

Definition handle (c : ncall) (tid : nat) (i : nchoice) (w : NWorld) : outcome (nreply c) :=
  match c as c return outcome (nreply c) with
  | NGet p n => statement i w (nt_servers (nw_tables w) !! (p, n)) w
  | NCreate nb => let nb := stamped (nw_now w) nb in insertion i w nb (createServer nb (nw_tables w))
  | NUpdate nb => statement i w tt (written (updateServer nb (nw_now w)) w)
  | NSetStatus p n st re => statement i w tt (written (setStatus (p, n) st re (nw_now w)) w)
  | NStartRun p n => statement i w tt (written (startRun (p, n) (nw_now w)) w)
  | NFinishRun p n st re => let '(b, w') := finished (p, n) st re w in statement i w b w'
  | NDelete p n => statement i w tt (written (deleteServer (p, n)) w)
  | NVolGet v => statement i w (nt_volumes (nw_tables w) !! v) w
  | NVolCreate v => let v := stampedVolume (nw_now w) v in insertion i w v (createVolume v (nw_tables w))
  | NVolUpdate v => statement i w tt (written (updateVolume v (nw_now w)) w)
  | NVolSetStatus v st => statement i w tt (written (setVolumeStatus v st (nw_now w)) w)
  | NVolDelete v => statement i w tt (written (deleteVolume v) w)
  | NPortsUsed => external (portsUsed (nw_driver w)) w
  | NReserve port => section (reservePort port) w
  | NRelease port => section (fun d => (tt, freePort port d)) w
  | NRegister key p n port => section (registerNotebook key p n port) w
  | NActive key => external (dn_notebooks (nw_driver w) !! key) w
  | NIsCurrent key gen => external (current key gen (nw_driver w)) w
  | NEnd key gen port st => section (endNotebook key gen port st) w
  | NReattach key h => section (reattach key h) w
  | NTerminal key st => section (terminalNotebook key st) w
  | NMkdirAll p => statement i w tt (nw_setDirs ({[p]} ∪ nw_dirs w) w)
  | NRemoveAll p => statement i w tt (nw_setDirs (filter (fun d => outside p d = true) (nw_dirs w)) w)
  | NListen _ => match i with NFree b => external b w | _ => None end
  | NResolveEnv _ _ => match i with NTexts r => external r w | _ => None end
  | NRtStart req =>
      match i with
      | NStarted r =>
          let w := nw_setCallbacks (mkCallback (nq_ProjectID req) (nq_Name req) (nq_Key req) (nq_Gen req) (nq_Port req) false :: nw_callbacks w) w in
          external r (match r with Ok _ => nw_setCalls (RtStarted (nq_RuntimeName req) :: nw_calls w) w | Err _ => w end)
      | _ => None
      end
  | NRtStop n =>
      match i with
      | NUnit (Ok _) => external (Ok tt) (nw_setCalls (RtStopped n :: nw_calls w) w)
      | NUnit (Err e) => external (Err e) w
      | _ => None
      end
  | NRtRecover =>
      match i with
      | NHandles (Ok l) => if recoverable l then external (Ok l) w else None
      | NHandles r => external r w
      | _ => None
      end
  | NOnExit cb => external tt (nw_setCallbacks (cb :: nw_callbacks w) w)
  | NNewID => match i with NText s => external s w | _ => None end
  | NPublish p t f => external tt (nw_setEvents (nw_events w ++ [(p, t, f)]) w)
  | NGoProvision p v spec y => Some (tt, w, [provisionAndStart errText p v spec y])
  | NGoStartWithVolume p v spec y => Some (tt, w, [startWithVolume errText p v spec y])
  | NGoRestart p n v spec y => Some (tt, w, [restartRun errText p n v spec y])
  | NGoStartAsync req endpoint => Some (tt, w, [startAsync cfg errText req endpoint])
  end.

(** ** The system *)

Inductive request : Type :=
| RCreate (identity projectID volumeID yaml : string)
| RStop (projectID name : string)
| RRestart (projectID name : string)
| RDelete (projectID name : string)
| RPurge (projectID volumeID : string).

Definition ignore {A} (m : N A) : N unit := _ ← m; Ret tt.

Definition program (q : request) : N unit :=
  match q with
  | RCreate a p v y => ignore (createNotebook runtime decode a p v y)
  | RStop p n => ignore (Stop p n)
  | RRestart p n => ignore (Restart runtime decode p n)
  | RDelete p n => ignore (Delete p n)
  | RPurge p v => ignore (PurgeVolume p v)
  end.

(** A call of a thread; a request, once thread 0 has recovered; an exit that the
    runtime reports, to any callback it was ever given; time; a purge of the
    history; a restart of the process, which keeps the tables and directories. *)
Inductive op : Type :=
| OThread (tid : nat) (i : nchoice)
| ORequest (q : request)
| OExit (j : nat) (status : string)
| OTick (d : Z)
| OPurge (cutoff : Z)
| ORestart.

Abbreviation sys := (NWorld * list (N unit))%type.

Definition purge (cutoff : Z) (w : NWorld) : NWorld :=
  nw_setTables (purgeHistory cutoff (nw_tables w)).1 w.

Definition restarted (w : NWorld) : NWorld :=
  mkNWorld (nw_tables w) idle (nw_now w) [] [] (nw_dirs w) [].

Definition boot : list (N unit) := [ignore (Recover cfg)].

Definition step (o : op) (s : sys) : option sys :=
  match o with
  | OThread tid i => thread_step NWorld nchoice handle tid i s
  | ORequest q => match s.2 !! 0%nat with Some (Ret _) => Some (s.1, s.2 ++ [program q]) | _ => None end
  | OExit j status =>
      cb ← nw_callbacks s.1 !! j;
      if ended status then Some (s.1, s.2 ++ [onExit cfg cb status]) else None
  | OTick d => if 0 <=? d then Some (nw_setNow (nw_now s.1 + d) s.1, s.2) else None
  | OPurge cutoff => Some (purge cutoff s.1, s.2)
  | ORestart => Some (restarted s.1, boot)
  end.

Fixpoint exec (ops : list op) (s : sys) : option sys :=
  match ops with
  | [] => Some s
  | o :: ops => s' ← step o s; exec ops s'
  end.

(** A new installation. *)
Definition start (now : Z) : sys :=
  (mkNWorld (mkTables ∅ ∅ []) idle now [] [] ∅ [], boot).

End World.
