(* ===== verification/NotebookPorts.v ===== *)
(** * Notebook servers: ports

    However requests, starts in the background, exits of workloads, failures and
    restarts of the process interleave, no two active notebooks share a port, and
    no port stays reserved that nothing uses. *)

From S2P Require Import Prelude Prog Pipeline NotebookModel NotebookManager NotebookDriver NotebookWorld.
From stdpp Require Import options.
#[local] Open Scope Z_scope.
#[local] Set Default Proof Using "All".

(** ** The discipline of a thread *)

(** The port that goes with a generation of a key. *)
Abbreviation fact := (string * nat * Z)%type.
Definition factOf (req : StartRequest) : fact := (nq_Key req, nq_Gen req, nq_Port req).
Definition cbFact (cb : exitCallback) : fact := (cb_Key cb, cb_Gen cb, cb_Port cb).

(** Thread 0 boots and recovers; requests and what they start may reserve ports;
    the others only end what was started. *)
Inductive role : Type := Booting | Recovering | Serving | Ending.

(** The port that a thread has reserved and not yet handed on; what it knows;
    the recovered notebooks it has yet to enter. *)
Record portPhase := mkPhase { ph_held : option Z; ph_facts : list fact; ph_pending : list (string * Z); ph_role : role }.

Definition learn (f : fact) (ph : portPhase) : portPhase := mkPhase (ph_held ph) (f :: ph_facts ph) (ph_pending ph) (ph_role ph).
Definition hold (p : option Z) (ph : portPhase) : portPhase := mkPhase p (ph_facts ph) (ph_pending ph) (ph_role ph).

Definition pendingOf (l : list (RecoveredHandle * option string)) : list (string * Z) :=
  map (fun h => (notebookKey (rh_ProjectID h.1) (rh_Name h.1), rh_Port h.1))
    (List.filter (fun h => match h.2 with None => true | Some _ => false end) l).

Definition portUse : discipline nreply :=
  mkDiscipline ncall nreply portPhase
    (fun ph c =>
       match c with
       | NReserve p => ph_role ph = Serving /\ ph_held ph = None /\ 0 < p
       | NRelease p => ph_held ph = Some p
       | NRegister _ _ _ p => ph_role ph = Serving /\ ph_held ph = Some p
       | NEnd key gen port _ => (key, gen, port) ∈ ph_facts ph
       | NReattach key h => exists rest, ph_pending ph = (key, rh_Port h) :: rest
       | NTerminal _ _ => ph_role ph <> Booting
       | NRtRecover => ph_role ph = Booting
       | NRtStart req | NGoStartAsync req _ => factOf req ∈ ph_facts ph
       | NOnExit cb => cbFact cb ∈ ph_facts ph
       | NGoProvision _ _ _ _ | NGoStartWithVolume _ _ _ _ | NGoRestart _ _ _ _ _ => ph_role ph = Serving
       | _ => True
       end)
    (fun _ c =>
       match c as c return nreply c -> Prop with
       | NRtRecover => fun r => match r with Ok l => recoverable l = true | Err _ => True end
       | _ => fun _ => True
       end)
    (fun ph c =>
       match c as c return nreply c -> portPhase with
       | NReserve p => fun got : bool => if got then hold (Some p) ph else ph
       | NRelease _ => fun _ => hold None ph
       | NRegister key _ _ p => fun r => match r with Some gen => learn (key, gen, p) (hold None ph) | None => ph end
       | NActive key => fun r => match r with Some a => learn (key, ac_gen a, ac_port a) ph | None => ph end
       | NReattach key h => fun gen =>
           mkPhase (ph_held ph) ((key, gen, rh_Port h) :: ph_facts ph) (tail (ph_pending ph)) (ph_role ph)
       | NRtRecover => fun r =>
           mkPhase (ph_held ph) (ph_facts ph) (match r with Ok l => pendingOf l | Err _ => [] end) Recovering
       | _ => fun _ => ph
       end).

Definition resting (ph : portPhase) : Prop := ph_held ph = None /\ ph_pending ph = [] /\ ph_role ph <> Booting.

(** *** Programs that keep a predicate on their phase *)

Definition quiet (c : ncall) : Prop :=
  match c with
  | NReserve _ | NRelease _ | NRegister _ _ _ _ | NActive _ | NEnd _ _ _ _ | NReattach _ _ | NTerminal _ _ | NRtRecover | NRtStart _ | NOnExit _
  | NGoProvision _ _ _ _ | NGoStartWithVolume _ _ _ _ | NGoRestart _ _ _ _ _ | NGoStartAsync _ _ => False
  | _ => True
  end.

Definition keeps (J : portPhase -> Prop) {A} (m : N A) : Prop := forall ph, J ph -> wp portUse ph m (fun _ => J).

Section Keeps.

Context (J : portPhase -> Prop).

Lemma stay_ret {A} (a : A) : keeps J (Ret a).
Proof. by intros ph. Qed.

Lemma stay_bind {A B} (m : N A) (f : A -> N B) : keeps J m -> (forall a, keeps J (f a)) -> keeps J (m ≫= f).
Proof. intros Hm Hf ph Hph. apply wp_bind. eapply wp_mono; [|by apply Hm]. intros a ph'. apply Hf. Qed.

Lemma keeps_tryOk {A B} (m : N (res nbErr A)) (f : A -> N (res nbErr B)) :
  keeps J m -> (forall a, keeps J (f a)) -> keeps J (tryOk m f).
Proof. intros Hm Hf. apply stay_bind; [done|]. intros [a|e]; [apply Hf|apply stay_ret]. Qed.

Lemma keeps_wrapping {A} ctx (m : N (res nbErr A)) : keeps J m -> keeps J (wrapping ctx m).
Proof. intros Hm. apply stay_bind; [done|]. intros r. apply stay_ret. Qed.

Lemma keeps_quiet c : quiet c -> keeps J (invoke c).
Proof. intros Hc ph Hph. simpl. by destruct c. Qed.

End Keeps.

Create HintDb ports.

Ltac keep :=
  intros;
  repeat match goal with
  | |- keeps _ (Ret _) => apply stay_ret
  | |- keeps _ (lift _) => apply stay_ret
  | |- keeps _ (wrapping _ _) => apply keeps_wrapping
  | |- keeps _ (tryOk _ _) => apply keeps_tryOk; [|intros ?]
  | |- keeps _ (mbind _ _) => apply stay_bind; [|intros ?]
  | |- keeps _ (perform _) => solve [apply keeps_quiet; exact I | auto with ports]
  | |- keeps _ (match ?x with _ => _ end) => destruct x
  | |- keeps _ (let _ := _ in _) => cbv zeta
  | _ => solve [auto with ports]
  end.

Section Programs.

Context (J : portPhase -> Prop).

Lemma UpdateStatus_keeps p rid n r : keeps J (UpdateStatus p rid n r).
Proof. unfold UpdateStatus, moveVolume, publishReport. keep. Qed.

Lemma report_keeps cfg p n r : keeps J (report cfg p n r).
Proof. unfold report. keep; apply UpdateStatus_keeps. Qed.

Lemma publishFailed_keeps errText p n e : keeps J (publishFailed errText p n e).
Proof. unfold publishFailed. keep. Qed.

Lemma keepAssignment_keeps b p n fresh v : keeps J (keepAssignment b p n fresh v).
Proof. unfold keepAssignment. keep. Qed.

End Programs.

#[export] Hint Resolve UpdateStatus_keeps report_keeps publishFailed_keeps keepAssignment_keeps : ports.

(** Requests and what they start. *)
Definition serving (ph : portPhase) : Prop := ph_role ph = Serving /\ ph_held ph = None /\ ph_pending ph = [].

Section Manager.

Context (cfg : NbConfig) (runtime : string) (decode : string -> option Notebook) (errText : nbErr -> string).

#[local] Instance driver : NotebookDriver := localDriver cfg.

Lemma serving_go c : match c with NGoProvision _ _ _ _ | NGoStartWithVolume _ _ _ _ | NGoRestart _ _ _ _ _ => True | _ => False end ->
  keeps serving (invoke c).
Proof. intros Hc ph (H1 & H2 & H3). by destruct c; simpl. Qed.

(** The phase of a thread that holds [p]. *)
Definition holding (p : Z) (ph : portPhase) : Prop := serving (hold None ph) /\ ph_held ph = Some p /\ 0 < p.

Lemma tryPorts_wp used ports ph : Forall (fun p => 0 < p) ports -> serving ph ->
  wp portUse ph (tryPorts used ports) (fun r ph' => match r with Ok p => holding p ph' | Err _ => serving ph' end).
Proof.
  intros Hp Hph. revert ph Hph. induction Hp as [|p ports Hp _ IH]; intros ph Hph; simpl; [done|].
  case_bool_decide; [by apply IH|]. simpl. split; [done|]. intros [] _; [|by apply IH]. simpl.
  destruct Hph as (H1 & H2 & H3). split; [done|]. intros [] _; [|by apply IH]. by repeat split.
Qed.

Lemma allocatePort_wp ph : serving ph ->
  wp portUse ph (allocatePort cfg) (fun r ph' => match r with Ok p => holding p ph' | Err _ => serving ph' end).
Proof.
  intros Hph. unfold allocatePort, lift. destruct (parsePortRange _) as [[start end_]|e] eqn:Er; [|done]. simpl.
  split; [done|]. intros used _. apply tryPorts_wp; [|done].
  apply Forall_forall. intros p [Hp _]%elem_of_seqZ. unfold parsePortRange in Er. destruct (str_index _ _); [|done].
  destruct (Atoi _) as [a|]; [|done]. destruct (Atoi _) as [b|]; [|done]. destruct (_ || _)%bool eqn:Eb; [done|]. simplify_eq.
  apply orb_false_iff in Eb as [H%Z.leb_gt _]. lia.
Qed.

Lemma releasePort_wp {A} p ph (a : A) : holding p ph -> wp portUse ph (_ ← releasePort p; Ret a) (fun _ => serving).
Proof. intros (Hs & Hh & Hp). unfold releasePort. destruct (Z.leb_spec p 0); [lia|]. by split. Qed.

Lemma localStart_keeps spec v y : keeps serving (localStart cfg spec v y).
Proof.
  unfold localStart. apply keeps_tryOk; [keep|intros _]. apply keeps_tryOk; [keep|intros _]. apply keeps_tryOk; [keep|intros _].
  intros ph Hph. apply wp_tryOk. eapply wp_mono; [|by apply allocatePort_wp]. intros [port|e] ph' H; [|done].
  destruct (_ && _)%bool; [by apply releasePort_wp|]. simpl.
  split; [done|]. intros token _. destruct H as (Hs & Hh & Hp). split; [split; [apply Hs|done]|].
  intros [gen|] _; simpl.
  - split; [unfold factOf; simpl; set_solver|]. intros _ _. exact Hs.
  - by apply releasePort_wp.
Qed.

Lemma localStop_keeps nb : keeps serving (localStop cfg nb).
Proof.
  intros ph Hph. unfold localStop. simpl. split; [done|]. intros [a|] _; simpl; (split; [done|]); intros [u|e] _; simpl; try done.
  - split; [simpl; set_solver|]. intros b _. apply wp_bind.
    assert (Hk : keeps serving (if b then report cfg (ac_projectID a) (ac_name a) (statusReport StatusStopped "" "") else Ret tt)) by keep.
    by apply Hk.
  - apply wp_bind. by apply report_keeps.
Qed.

#[local] Hint Resolve localStart_keeps localStop_keeps : ports.

Lemma localProvisionVolume_keeps v spec : keeps serving (localProvisionVolume cfg v spec).
Proof. unfold localProvisionVolume. keep. Qed.

Lemma localDeprovisionVolume_keeps v : keeps serving (localDeprovisionVolume cfg v).
Proof. unfold localDeprovisionVolume. keep. Qed.

#[local] Hint Extern 1 (keeps serving (driverValidateSpec _)) => apply stay_ret : ports.
#[local] Hint Extern 1 (keeps serving (driverProvisionVolume _ _)) => apply localProvisionVolume_keeps : ports.
#[local] Hint Extern 1 (keeps serving (driverStart _ _ _)) => apply localStart_keeps : ports.
#[local] Hint Extern 1 (keeps serving (driverStop _)) => apply localStop_keeps : ports.
#[local] Hint Extern 1 (keeps serving (driverRemove _)) => apply localStop_keeps : ports.
#[local] Hint Extern 1 (keeps serving (driverDeprovisionVolume _)) => apply localDeprovisionVolume_keeps : ports.
#[local] Hint Extern 1 (keeps serving (perform _)) => apply serving_go; exact I : ports.

Lemma checkSpec_keeps valid spec : keeps serving (checkSpec runtime valid spec).
Proof. unfold checkSpec. keep. Qed.

Lemma checkAbsent_keeps p n : keeps serving (checkAbsent p n).
Proof. unfold checkAbsent. keep. Qed.

#[local] Hint Resolve checkSpec_keeps checkAbsent_keeps : ports.

Lemma program_keeps q : keeps serving (program cfg runtime decode q).
Proof.
  destruct q; unfold program, ignore; (apply stay_bind; [|intros; apply stay_ret]).
  - unfold createNotebook, Create, CreateWithVolume. keep.
  - unfold Stop. keep.
  - unfold Restart, volumeOf. keep.
  - unfold Delete. keep.
  - unfold PurgeVolume. keep.
Qed.

Lemma provisionAndStart_keeps p v spec y : keeps serving (provisionAndStart errText p v spec y).
Proof. unfold provisionAndStart. keep. Qed.
Lemma startWithVolume_keeps p v spec y : keeps serving (startWithVolume errText p v spec y).
Proof. unfold startWithVolume. keep. Qed.
Lemma restartRun_keeps p n v spec y : keeps serving (restartRun errText p n v spec y).
Proof. unfold restartRun. keep. Qed.

(** *** Threads that end what was started *)

Definition ending (f : fact) (ph : portPhase) : Prop := f ∈ ph_facts ph /\ resting ph.

Lemma NEnd_keeps key gen port st : keeps (ending (key, gen, port)) (invoke (NEnd key gen port st)).
Proof. intros ph Hph. split; [apply Hph|done]. Qed.

#[local] Hint Extern 1 (keeps (ending _) (perform (NEnd _ _ _ _))) => apply NEnd_keeps : ports.

Lemma failStart_keeps req e : keeps (ending (factOf req)) (failStart cfg errText req e).
Proof. unfold failStart, factOf. keep. Qed.

#[local] Hint Resolve failStart_keeps : ports.

Lemma startAsync_keeps req ep : keeps (ending (factOf req)) (startAsync cfg errText req ep).
Proof.
  unfold startAsync, resolveEnv. keep. intros ph Hph. split; [apply Hph|done].
Qed.

Lemma onExit_keeps cb st : keeps (ending (cbFact cb)) (onExit cfg cb st).
Proof. unfold onExit, cbFact. keep. Qed.

(** *** Recovery *)

Lemma recoverEach_wp l ph : ph_held ph = None -> ph_pending ph = pendingOf l -> ph_role ph <> Booting ->
  wp portUse ph (recoverEach cfg l) (fun _ => resting).
Proof.
  revert ph; induction l as [|[h [st|]] l IH]; intros ph Hh Hp Hr; simpl; [by split_and!|..].
  - split; [done|]. intros [] _; simpl; [|by apply IH]. apply wp_bind.
    assert (Hk : keeps (fun ph' => ph' = ph) (report cfg (rh_ProjectID h) (rh_Name h) (statusReport st "" ""))) by keep.
    eapply wp_mono; [|by apply Hk]. simpl. intros _ ph' ->. by apply IH.
  - split; [exists (pendingOf l); exact Hp|]. intros gen _. simpl. split; [unfold cbFact; simpl; set_solver|]. intros _ _. simpl.
    apply IH; simpl; [done|by rewrite Hp|done].
Qed.

Lemma boot_wp : wp portUse (mkPhase None [] [] Booting) (ignore (Recover cfg)) (fun _ => resting).
Proof.
  unfold ignore, Recover. apply wp_bind. apply wp_tryOk. simpl. split; [done|]. intros [l|e] _; simpl; [|by split_and!].
  apply wp_bind. eapply wp_mono; [|by apply recoverEach_wp]. done.
Qed.

End Manager.
