(* ===== verification/NotebookPortsInv.v ===== *)
(** * Notebook servers: no port is shared, none is lost

    The invariant that relates the driver's maps to what every thread holds and
    knows, for every interleaving. *)

From S2P Require Import Prelude Prog Pipeline NotebookModel NotebookManager NotebookDriver NotebookWorld NotebookPorts.
From stdpp Require Import options.
#[local] Open Scope Z_scope.
#[local] Set Default Proof Using "All".

(** ** A set of reserved ports and the list of their owners' claims *)

Definition sync (R : gset Z) (L : list Z) : Prop := NoDup L /\ Forall (fun p => 0 < p) L /\ forall p, p ∈ R <-> p ∈ L.

Lemma sync_perm R L L' : L ≡ₚ L' -> sync R L -> sync R L'.
Proof. intros HL (H1 & H2 & H3). split_and!; [by rewrite <- HL..|]. intros p. by rewrite <- HL. Qed.

Lemma sync_add p R L : 0 < p -> p ∉ R -> sync R L -> sync ({[p]} ∪ R) (p :: L).
Proof.
  intros Hp Hn (H1 & H2 & H3). split_and!; [constructor; [by rewrite <- H3|done]|by constructor|].
  intros q. rewrite elem_of_cons, elem_of_union, elem_of_singleton. by rewrite H3.
Qed.

Lemma sync_remove p R L : sync R (p :: L) -> sync (R ∖ {[p]}) L.
Proof.
  intros (H1 & H2 & H3). apply NoDup_cons in H1 as [Hn H1]. apply Forall_cons in H2 as [_ H2].
  split_and!; [done|done|]. intros q. rewrite elem_of_difference, elem_of_singleton, H3, elem_of_cons. naive_solver.
Qed.

Lemma sync_skip p R L : p <= 0 -> sync R L -> sync (R ∖ {[p]}) L.
Proof.
  intros Hp (H1 & H2 & H3). split_and!; [done|done|]. intros q. rewrite elem_of_difference, elem_of_singleton, H3.
  split; [by intros [? _]|]. intros Hq. split; [done|]. intros ->. rewrite Forall_forall in H2. specialize (H2 _ Hq). lia.
Qed.

(** ** The invariant *)

Definition positive (l : list Z) : list Z := filter (fun p => 0 < p) l.
Definition slotPorts (m : gmap string activeNotebook) : list Z := positive (ac_port <$> (map_to_list m).*2).
Definition claims (d : DriverState) (phs : list portPhase) : list Z := slotPorts (dn_notebooks d) ++ omap ph_held phs.
Definition pendingAll (phs : list portPhase) : list (string * Z) := concat (map ph_pending phs).

Definition fact_ok (d : DriverState) (f : fact) : Prop :=
  (f.1.2 <= dn_nextGen d)%nat /\ forall a, dn_notebooks d !! f.1.1 = Some a -> ac_gen a = f.1.2 -> ac_port a = f.2.

Definition pending_ok (d : DriverState) (l : list (string * Z)) : Prop :=
  NoDup l.*1 /\ NoDup (positive l.*2) /\ Forall (fun kp => dn_notebooks d !! kp.1 = None /\ kp.2 ∉ dn_reserved d) l.

Definition bootPhase : portPhase := mkPhase None [] [] Booting.

Record ports_ok (d : DriverState) (cbs : list exitCallback) (phs : list portPhase) : Prop := mkPortsOk {
  ok_gens : forall key a, dn_notebooks d !! key = Some a -> (ac_gen a <= dn_nextGen d)%nat;
  ok_ports : sync (dn_reserved d) (claims d phs);
  ok_facts : Forall (fun ph => Forall (fact_ok d) (ph_facts ph)) phs;
  ok_callbacks : Forall (fun cb => fact_ok d (cbFact cb)) cbs;
  ok_pending : pending_ok d (pendingAll phs);
  ok_serving : Forall (fun ph => ph_role ph = Serving -> pendingAll phs = []) phs;
  ok_tail : Forall (fun ph => ph_pending ph = []) (tail phs);
  ok_boot : (phs = [bootPhase] /\ d = idle /\ cbs = []) \/ Forall (fun ph => ph_role ph <> Booting) phs }.

Lemma lookup_split {A} (l : list A) i x : l !! i = Some x ->
  exists l1 l2, l = l1 ++ x :: l2 /\ forall y, <[i := y]> l = l1 ++ y :: l2.
Proof.
  intros Hi. exists (take i l), (drop (S i) l). split; [by rewrite take_drop_middle|].
  intros y. apply insert_take_drop. by eapply lookup_lt_Some.
Qed.

Lemma pendingAll_app l1 l2 : pendingAll (l1 ++ l2) = pendingAll l1 ++ pendingAll l2.
Proof. unfold pendingAll. by rewrite map_app, concat_app. Qed.

Lemma pendingAll_cons ph l : pendingAll (ph :: l) = ph_pending ph ++ pendingAll l.
Proof. done. Qed.

(** A thread that is not booting, at work among the others. *)
Lemma not_booting d cbs phs tid ph : ports_ok d cbs phs -> phs !! tid = Some ph -> ph <> bootPhase ->
  Forall (fun ph => ph_role ph <> Booting) phs.
Proof.
  intros Hok Hl Hne. destruct (ok_boot _ _ _ Hok) as [(-> & _ & _)|H]; [|done].
  destruct tid as [|tid]; simpl in Hl; [by simplify_eq|]. by rewrite lookup_nil in Hl.
Qed.

Lemma pendingAll_same phs tid ph ph' : phs !! tid = Some ph -> ph_pending ph' = ph_pending ph ->
  pendingAll (<[tid := ph']> phs) = pendingAll phs.
Proof.
  intros Hl Hp. destruct (lookup_split _ _ _ Hl) as (l1 & l2 & -> & ->). by rewrite !pendingAll_app, !pendingAll_cons, Hp.
Qed.

(** A thread that comes. *)
Lemma ok_spawn d cbs phs ph : ports_ok d cbs phs -> Forall (fun ph => ph_role ph <> Booting) phs ->
  ph_held ph = None -> ph_pending ph = [] -> ph_role ph <> Booting -> (ph_role ph = Serving -> pendingAll phs = []) ->
  Forall (fact_ok d) (ph_facts ph) -> ports_ok d cbs (phs ++ [ph]).
Proof.
  intros [H1 H2 H3 H4 H5 H6 H7 _] Hb Hh Hp Hr Hs Hf.
  assert (Hpa : pendingAll (phs ++ [ph]) = pendingAll phs).
  { rewrite pendingAll_app, pendingAll_cons, Hp. unfold pendingAll at 2. simpl. by rewrite !app_nil_r. }
  constructor; [done| | |done| | | |right]; rewrite ?Hpa, ?Forall_app, ?Forall_singleton; try done.
  - unfold claims. rewrite omap_app. simpl. rewrite Hh. by rewrite !app_nil_r.
  - destruct phs as [|ph0 phs]; simpl in *; [done|]. by rewrite Forall_app, Forall_singleton.
Qed.

(** *** Changes of the driver's maps *)

(** What a thread holds, in front. *)
Lemma claims_split d l1 ph l2 : claims d (l1 ++ ph :: l2) ≡ₚ option_list (ph_held ph) ++ claims d (l1 ++ l2).
Proof. unfold claims. rewrite !omap_app. simpl. destruct (ph_held ph); simpl; solve_Permutation. Qed.

Lemma positive_cons p l : positive (p :: l) = if decide (0 < p) then p :: positive l else positive l.
Proof. done. Qed.

Lemma slotPorts_insert m key a : m !! key = None -> slotPorts (<[key := a]> m) ≡ₚ positive [ac_port a] ++ slotPorts m.
Proof.
  intros Hn. unfold slotPorts, positive. rewrite (map_to_list_insert _ _ _ Hn). simpl.
  rewrite !filter_cons. by destruct (decide _).
Qed.

Lemma slotPorts_delete m key a : m !! key = Some a -> slotPorts m ≡ₚ positive [ac_port a] ++ slotPorts (delete key m).
Proof.
  intros Hs. unfold slotPorts, positive. rewrite <- (map_to_list_delete _ _ _ Hs). simpl.
  rewrite !filter_cons. by destruct (decide _).
Qed.

(** Facts outlive every change but a new generation's, which has no past. *)
Lemma fact_ok_mono d d' f :
  (dn_nextGen d <= dn_nextGen d')%nat ->
  (forall a, dn_notebooks d' !! f.1.1 = Some a -> ac_gen a = f.1.2 -> (f.1.2 <= dn_nextGen d)%nat -> dn_notebooks d !! f.1.1 = Some a) ->
  fact_ok d f -> fact_ok d' f.
Proof. intros Hn Hm [H1 H2]. split; [lia|]. intros a Ha Hg. apply H2; [|done]. by apply Hm. Qed.

Lemma facts_mono d d' (phs : list portPhase) :
  (forall f, fact_ok d f -> fact_ok d' f) -> Forall (fun ph => Forall (fact_ok d) (ph_facts ph)) phs ->
  Forall (fun ph => Forall (fact_ok d') (ph_facts ph)) phs.
Proof. intros H Hf. eapply Forall_impl; [exact Hf|]. intros ph Hph. eapply Forall_impl; [exact Hph|done]. Qed.

Lemma callbacks_mono d d' (cbs : list exitCallback) :
  (forall f, fact_ok d f -> fact_ok d' f) -> Forall (fun cb => fact_ok d (cbFact cb)) cbs -> Forall (fun cb => fact_ok d' (cbFact cb)) cbs.
Proof. intros H Hf. eapply Forall_impl; [exact Hf|]. intros cb. apply H. Qed.

(** The shape of every transition of a thread that is not booting: the maps go
    from [d] to [d'] and its phase from [ph] to [ph']. *)
Lemma ok_transition d d' cbs phs tid ph ph' :
  ports_ok d cbs phs -> phs !! tid = Some ph -> ph <> bootPhase -> ph_role ph' = ph_role ph ->
  (forall key a, dn_notebooks d' !! key = Some a -> (ac_gen a <= dn_nextGen d')%nat) ->
  (forall f, fact_ok d f -> fact_ok d' f) ->
  Forall (fact_ok d') (ph_facts ph') ->
  (forall rest, sync (dn_reserved d) (option_list (ph_held ph) ++ slotPorts (dn_notebooks d) ++ rest) ->
                sync (dn_reserved d') (option_list (ph_held ph') ++ slotPorts (dn_notebooks d') ++ rest)) ->
  ph_pending ph' `suffix_of` ph_pending ph ->
  (pending_ok d (pendingAll phs) -> pending_ok d' (pendingAll (<[tid := ph']> phs))) ->
  ports_ok d' cbs (<[tid := ph']> phs).
Proof.
  intros Hok Hl Hne Hr Hg Hf Hfp Hsync Hsuf Hpend. pose proof (not_booting _ _ _ _ _ Hok Hl Hne) as Hb.
  destruct Hok as [H1 H2 H3 H4 H5 H6 Ht _]. specialize (Hpend H5).
  destruct (lookup_split _ _ _ Hl) as (l1 & l2 & -> & Hins). rewrite Hins in *.
  apply (facts_mono _ d') in H3; [|done]. rewrite !Forall_app, !Forall_cons in *.
  constructor; [done| | |by eapply callbacks_mono|done| | |right].
  - apply (sync_perm _ (option_list (ph_held ph') ++ slotPorts (dn_notebooks d') ++ omap ph_held (l1 ++ l2))).
    { symmetry. etransitivity; [apply claims_split|]. unfold claims. done. }
    apply Hsync. eapply sync_perm; [|exact H2]. etransitivity; [apply claims_split|]. done.
  - rewrite Forall_app, Forall_cons. naive_solver.
  - assert (Hpa : pendingAll (l1 ++ ph :: l2) = [] -> pendingAll (l1 ++ ph' :: l2) = []).
    { rewrite !pendingAll_app, !pendingAll_cons, !app_nil. destruct Hsuf as [pre Hsuf]. rewrite Hsuf. destruct pre; naive_solver. }
    rewrite Forall_app, Forall_cons, Hr. destruct H6 as (H6 & H7 & H8). split_and!; [|naive_solver|].
    + eapply Forall_impl; [exact H6|]. naive_solver.
    + eapply Forall_impl; [exact H8|]. naive_solver.
  - destruct l1 as [|ph0 l1]; simpl in *; [done|]. rewrite Forall_app, Forall_cons in *. destruct Ht as (T1 & T2 & T3).
    rewrite T2 in Hsuf. destruct Hsuf as [[|] [=]]. naive_solver.
  - rewrite Forall_app, Forall_cons, Hr. naive_solver.
Qed.

Lemma ok_phase d cbs phs tid ph ph' : ports_ok d cbs phs -> phs !! tid = Some ph -> ph <> bootPhase ->
  ph_held ph' = ph_held ph -> ph_pending ph' = ph_pending ph -> ph_role ph' = ph_role ph -> Forall (fact_ok d) (ph_facts ph') ->
  ports_ok d cbs (<[tid := ph']> phs).
Proof.
  intros Hok Hl Hne Hh Hp Hr Hf. eapply ok_transition; try done.
  - apply Hok.
  - by rewrite Hh.
  - by rewrite Hp.
  - by rewrite (pendingAll_same _ _ _ _ Hl Hp).
Qed.

Lemma facts_at d cbs phs tid ph : ports_ok d cbs phs -> phs !! tid = Some ph -> Forall (fact_ok d) (ph_facts ph).
Proof. intros Hok Hl. exact (Forall_lookup_1 _ _ _ _ (ok_facts _ _ _ Hok) Hl). Qed.

Lemma serving_pending d cbs phs tid ph : ports_ok d cbs phs -> phs !! tid = Some ph -> ph_role ph = Serving -> pendingAll phs = [].
Proof. intros Hok Hl Hr. exact (Forall_lookup_1 _ _ _ _ (ok_serving _ _ _ Hok) Hl Hr). Qed.

(** [hold] and [learn] leave the pending notebooks alone, of which there are none
    while requests are served. *)
Lemma pending_none d phs tid ph ph' : phs !! tid = Some ph -> ph_pending ph' = ph_pending ph -> pendingAll phs = [] ->
  pending_ok d (pendingAll (<[tid := ph']> phs)).
Proof. intros Hl Hp Hn. rewrite (pendingAll_same _ _ _ _ Hl Hp), Hn. repeat constructor. Qed.

Lemma serving_not_boot ph : ph_role ph = Serving -> ph <> bootPhase.
Proof. by intros H ->. Qed.

Lemma ok_reserve d cbs phs tid ph p b d' : ports_ok d cbs phs -> phs !! tid = Some ph ->
  ph_role ph = Serving -> ph_held ph = None -> 0 < p -> reservePort p d = (b, d') ->
  ports_ok d' cbs (<[tid := if b then hold (Some p) ph else ph]> phs).
Proof.
  intros Hok Hl Hr Hh Hp. unfold reservePort. case_bool_decide as Hin; intros [= <- <-].
  { by rewrite list_insert_id. }
  eapply ok_transition; try done; [by apply serving_not_boot|apply Hok|exact (facts_at _ _ _ _ _ Hok Hl)| |].
  - simpl. rewrite Hh. simpl. intros rest Hs. by apply sync_add.
  - intros _. eapply pending_none; [done|done|by eapply serving_pending].
Qed.

Lemma ok_release d cbs phs tid ph p : ports_ok d cbs phs -> phs !! tid = Some ph -> ph_held ph = Some p ->
  ports_ok (freePort p d) cbs (<[tid := hold None ph]> phs).
Proof.
  intros Hok Hl Hh. eapply ok_transition; try done; [by intros ->|apply Hok|exact (facts_at _ _ _ _ _ Hok Hl)| |].
  - simpl. rewrite Hh. simpl. intros rest Hs. by apply sync_remove.
  - rewrite (pendingAll_same _ _ _ _ Hl) by done. intros (H1 & H2 & H3). split_and!; [done|done|].
    eapply Forall_impl; [exact H3|]. simpl. intros kp [Hn Hr]. split; [done|]. set_solver.
Qed.

(** *** New generations *)

Lemma add_gens key p n port d : (forall k a, dn_notebooks d !! k = Some a -> (ac_gen a <= dn_nextGen d)%nat) ->
  forall k a, dn_notebooks (addNotebook key p n port d) !! k = Some a -> (ac_gen a <= S (dn_nextGen d))%nat.
Proof. intros H k a. simpl. rewrite lookup_insert_Some. intros [[<- <-]|[_ Ha]]; simpl; [done|]. apply H in Ha. lia. Qed.

Lemma add_facts key p n port d f : fact_ok d f -> fact_ok (addNotebook key p n port d) f.
Proof.
  apply fact_ok_mono; simpl; [lia|]. intros a. rewrite lookup_insert_Some. intros [[_ <-]|[_ Ha]]; simpl; [lia|done].
Qed.

Lemma add_fact key p n port d : fact_ok (addNotebook key p n port d) (key, S (dn_nextGen d), port).
Proof. split; simpl; [done|]. intros a. rewrite lookup_insert_Some. by intros [[_ <-]|[? _]]. Qed.

Lemma ok_register d cbs phs tid ph key p n port r d' : ports_ok d cbs phs -> phs !! tid = Some ph ->
  ph_role ph = Serving -> ph_held ph = Some port -> registerNotebook key p n port d = (r, d') ->
  ports_ok d' cbs (<[tid := match r with Some gen => learn (key, gen, port) (hold None ph) | None => ph end]> phs).
Proof.
  intros Hok Hl Hr Hh. unfold registerNotebook. destruct (dn_notebooks d !! key) eqn:En; intros [= <- <-].
  { by rewrite list_insert_id. }
  eapply ok_transition; try done; [by apply serving_not_boot|by apply add_gens, (ok_gens _ _ _ Hok)|by apply add_facts| | |].
  - simpl. constructor; [apply add_fact|]. eapply Forall_impl; [by eapply facts_at|]. intros f. apply add_facts.
  - intros rest Hs. simpl. rewrite Hh in Hs. simpl in Hs. eapply sync_perm; [|exact Hs].
    rewrite (slotPorts_insert _ _ _ En). unfold positive at 1. rewrite filter_cons. simpl.
    destruct Hs as (_ & Hpos & _). apply Forall_cons in Hpos as [Hpos _]. rewrite decide_True by done. done.
  - intros _. eapply pending_none; [done|done|by eapply serving_pending].
Qed.

Lemma ok_end d cbs phs tid ph key gen port st b d' : ports_ok d cbs phs -> phs !! tid = Some ph ->
  (key, gen, port) ∈ ph_facts ph -> endNotebook key gen port st d = (b, d') -> ports_ok d' cbs (<[tid := ph]> phs).
Proof.
  intros Hok Hl Hf. pose proof (facts_at _ _ _ _ _ Hok Hl) as Hfs. rewrite Forall_forall in Hfs.
  pose proof (Hfs _ Hf) as [_ Hport]. simpl in Hport. unfold endNotebook, current.
  destruct (dn_notebooks d !! key) as [a|] eqn:En; [|intros [= <- <-]; by rewrite list_insert_id].
  destruct (Nat.eqb_spec (ac_gen a) gen) as [Eg|]; intros [= <- <-]; [|by rewrite list_insert_id].
  assert (Hp : ac_port a = port) by (by apply Hport). clear Hport.
  assert (Hmono : forall f, fact_ok d f ->
    fact_ok (mkDriverState (delete key (dn_notebooks d)) (dn_reserved d ∖ {[port]}) (<[key := st]> (dn_terminal d)) (dn_nextGen d)) f).
  { intros f. apply fact_ok_mono; simpl; [done|]. intros a' [_ Ha]%lookup_delete_Some. done. }
  eapply ok_transition; try done; [intros ->; by apply not_elem_of_nil in Hf| | | |].
  - simpl. intros k a' [_ Ha]%lookup_delete_Some. by eapply ok_gens.
  - apply Forall_forall. intros f Hf'. by apply Hmono, Hfs.
  - intros rest Hs. simpl. destruct (decide (0 < port)) as [Hpos|Hpos].
    + apply sync_remove. eapply sync_perm; [|exact Hs]. rewrite (slotPorts_delete _ _ _ En). unfold positive at 1.
      rewrite filter_cons, Hp, decide_True by done. simpl. solve_Permutation.
    + apply sync_skip; [lia|]. eapply sync_perm; [|exact Hs]. rewrite (slotPorts_delete _ _ _ En). unfold positive at 1.
      rewrite filter_cons, Hp, decide_False by done. simpl. done.
  - rewrite list_insert_id by done. intros (H1 & H2 & H3). split_and!; [done|done|].
    eapply Forall_impl; [exact H3|]. simpl. intros kp [Hn Hr]. split; [by rewrite lookup_delete_None; right|set_solver].
Qed.

Lemma ok_terminal d cbs phs key st b d' : ports_ok d cbs phs -> terminalNotebook key st d = (b, d') ->
  Forall (fun ph => ph_role ph <> Booting) phs -> ports_ok d' cbs phs.
Proof.
  intros [H1 H2 H3 H4 H5 H6 H7 _] Ht Hb. unfold terminalNotebook in Ht. destruct (_ !! _); simplify_eq; constructor; auto.
Qed.

Lemma positive_app l l' : positive (l ++ l') = positive l ++ positive l'.
Proof. apply filter_app. Qed.

Lemma ok_reattach d cbs phs tid ph key h rest : ports_ok d cbs phs -> phs !! tid = Some ph ->
  ph_pending ph = (key, rh_Port h) :: rest ->
  ports_ok (reattach key h d).2 cbs
    (<[tid := mkPhase (ph_held ph) ((key, (reattach key h d).1, rh_Port h) :: ph_facts ph) (tail (ph_pending ph)) (ph_role ph)]> phs).
Proof.
  intros Hok Hl Hp. pose proof (ok_pending _ _ _ Hok) as Hpend.
  destruct (lookup_split _ _ _ Hl) as (l1 & l2 & Ephs & Hins).
  rewrite Ephs, pendingAll_app, pendingAll_cons, Hp in Hpend.
  assert (Hperm : pendingAll l1 ++ ((key, rh_Port h) :: rest) ++ pendingAll l2 ≡ₚ (key, rh_Port h) :: pendingAll l1 ++ rest ++ pendingAll l2)
    by solve_Permutation.
  destruct Hpend as (Hk & Hn & Hf). rewrite Hperm in Hk, Hf. unfold positive in Hn. rewrite Hperm in Hn. simpl in Hk, Hn.
  apply NoDup_cons in Hk as [Hk Hk']. apply Forall_cons in Hf as [[En Hr] Hf]. simpl in En, Hr.
  set (d' := (reattach key h d).2).
  assert (Enb : dn_notebooks d' = dn_notebooks (addNotebook key (rh_ProjectID h) (rh_Name h) (rh_Port h) d)).
  { unfold d', reattach. simpl. by destruct (0 <? rh_Port h). }
  assert (Egen : dn_nextGen d' = S (dn_nextGen d)) by (unfold d', reattach; simpl; by destruct (0 <? rh_Port h)).
  assert (Hfact : forall f, fact_ok (addNotebook key (rh_ProjectID h) (rh_Name h) (rh_Port h) d) f -> fact_ok d' f).
  { intros f [F1 F2]. split; rewrite ?Egen, ?Enb; done. }
  eapply ok_transition; try done; [by intros ->| | | | | |].
  - rewrite Egen, Enb. apply add_gens, (ok_gens _ _ _ Hok).
  - intros f Hff. by apply Hfact, add_facts.
  - simpl. constructor; [by apply Hfact, add_fact|]. eapply Forall_impl; [by eapply facts_at|]. intros f Hff. by apply Hfact, add_facts.
  - intros others Hs. rewrite Enb. simpl. unfold d', reattach.
    destruct (Z.ltb_spec 0 (rh_Port h)) as [Hpos|Hpos]; simpl.
    + eapply sync_perm; [|apply (sync_add (rh_Port h)); [done|done|exact Hs]].
      rewrite (slotPorts_insert _ _ _ En). unfold positive. rewrite filter_cons. simpl. rewrite decide_True by done. solve_Permutation.
    + eapply sync_perm; [|exact Hs]. rewrite (slotPorts_insert _ _ _ En). unfold positive. rewrite filter_cons. simpl.
      by rewrite decide_False by lia.
  - simpl. rewrite Hp. simpl. by exists [(key, rh_Port h)].
  - intros _. rewrite Hins, pendingAll_app, pendingAll_cons. simpl. rewrite Hp. simpl. split_and!; [done| |].
    + unfold positive. rewrite filter_cons in Hn. destruct (decide _); [by apply NoDup_cons in Hn as [_ Hn]|done].
    + rewrite Forall_forall in *. intros kp Hkp. specialize (Hf _ Hkp) as [Hf1 Hf2].
      assert (Hkey : kp.1 <> key) by (intros <-; apply Hk, list_elem_of_fmap; eauto).
      split; [rewrite Enb; simpl; by rewrite lookup_insert_ne|].
      unfold d', reattach. destruct (Z.ltb_spec 0 (rh_Port h)) as [Hpos|]; simpl; [|done].
      rewrite elem_of_union, elem_of_singleton. intros [E|]; [|done].
      rewrite filter_cons, decide_True in Hn by done. apply NoDup_cons in Hn as [Hn _]. apply Hn.
      apply list_elem_of_filter. split; [done|]. rewrite <- E. apply list_elem_of_fmap. eauto.
Qed.

Lemma NoDup_map_filter {A B} (f : A -> B) (g : A -> bool) l : NoDup (map f l) -> NoDup (map f (List.filter g l)).
Proof.
  induction l as [|x l IH]; simpl; [done|]. intros [Hn Hl]%NoDup_cons. destruct (g x); [|by apply IH].
  simpl. constructor; [|by apply IH]. rewrite list_elem_of_fmap in *. intros (y & E & Hy). apply Hn. exists y. split; [done|].
  apply list_elem_of_In, filter_In in Hy as [Hy _]. by apply list_elem_of_In.
Qed.

Lemma filter_List (l : list Z) : List.filter (fun p => 0 <? p) l = positive l.
Proof.
  induction l as [|p l IH]; [done|]. simpl. unfold positive. rewrite filter_cons, IH.
  destruct (Z.ltb_spec 0 p), (decide (0 < p)); done || lia.
Qed.

(** What recovery finds, before anything is active. *)
Lemma recovered_pending l : recoverable l = true -> pending_ok idle (pendingOf l).
Proof.
  unfold recoverable. rewrite !andb_true_iff, !bool_decide_eq_true. intros [[_ Hk] Hp]. unfold pendingOf. split_and!.
  - change (?f <$> map ?g ?l) with (map f (map g l)). rewrite map_map. simpl. by apply (NoDup_map_filter (fun h => notebookKey (rh_ProjectID h.1) (rh_Name h.1))).
  - change (?f <$> map ?g ?l) with (map f (map g l)). rewrite map_map. simpl. unfold runningPorts in Hp. by rewrite filter_List in Hp.
  - apply Forall_forall. intros kp _. split; [apply lookup_empty|apply not_elem_of_empty].
Qed.

(** ** Every call keeps it *)

Definition ports_inv (w : NWorld) (phs : list portPhase) : Prop := ports_ok (nw_driver w) (nw_callbacks w) phs.

Section Keep.

Context (cfg : NbConfig) (runtime : string) (decode : string -> option Notebook) (errText : nbErr -> string).

Abbreviation handle := (handle cfg errText).

Lemma statement_driver {A} i w (a : A) after r w' new : statement i w a after = Some (r, w', new) ->
  new = [] /\ (w' = w \/ w' = after).
Proof. unfold statement, external. intros H. repeat case_match; simplify_eq; auto. Qed.

(** Calls that have nothing to do with ports. *)
Lemma ports_quiet c tid i w r w' new : quiet c -> handle c tid i w = Some (r, w', new) ->
  new = [] /\ nw_callbacks w' = nw_callbacks w /\ nw_driver w' = nw_driver w.
Proof.
  intros Hq Hh. destruct c; try done; simpl in Hh; unfold insertion, finished, written, external in Hh;
    repeat match type of Hh with
    | statement _ _ _ _ = Some _ => apply statement_driver in Hh as [-> [-> | ->]]
    | context [match ?x with _ => _ end] => destruct x eqn:?
    end; simplify_eq/=; repeat case_match; by simplify_eq/=.
Qed.

Lemma quiet_next ph c r : quiet c -> next portUse ph c r = ph.
Proof. by destruct c. Qed.

(** The threads that a request or a start leaves behind. *)
Definition servingPhase : portPhase := mkPhase None [] [] Serving.
Definition endingPhase (f : fact) : portPhase := mkPhase None [f] [] Ending.

Abbreviation obeys := (obeys portUse resting).

Lemma serving_obeys m : keeps serving m -> obeys servingPhase m.
Proof. intros Hk. eapply wp_mono; [|by apply Hk]. intros _ ph (H1 & H2 & H3). split_and!; [done|done|by rewrite H1]. Qed.

Lemma ending_obeys f m : keeps (ending f) m -> obeys (endingPhase f) m.
Proof. intros Hk. eapply wp_mono; [|apply Hk]; [by intros _ ph [_ H]|]. split; [by apply list_elem_of_singleton|by split_and!]. Qed.

Lemma spawn_serving d cbs phs tid ph : ports_ok d cbs phs -> phs !! tid = Some ph -> ph_role ph = Serving ->
  ports_ok d cbs (phs ++ [servingPhase]).
Proof.
  intros Hok Hl Hr. apply ok_spawn; try done; [eapply not_booting; [done|done|by apply serving_not_boot]|].
  intros _. by eapply serving_pending.
Qed.

Lemma spawn_ending d cbs phs f : ports_ok d cbs phs -> Forall (fun ph => ph_role ph <> Booting) phs -> fact_ok d f ->
  ports_ok d cbs (phs ++ [endingPhase f]).
Proof. intros Hok Hb Hf. apply ok_spawn; try done. by apply Forall_singleton. Qed.

Lemma ok_callback d cbs phs cb : ports_ok d cbs phs -> Forall (fun ph => ph_role ph <> Booting) phs -> fact_ok d (cbFact cb) ->
  ports_ok d (cb :: cbs) phs.
Proof. intros [H1 H2 H3 H4 H5 H6 H7 _] Hb Hf. constructor; auto. Qed.

Lemma knows d cbs phs tid ph f : ports_ok d cbs phs -> phs !! tid = Some ph -> f ∈ ph_facts ph ->
  fact_ok d f /\ ph <> bootPhase /\ Forall (fun ph => ph_role ph <> Booting) phs.
Proof.
  intros Hok Hl Hf. assert (Hne : ph <> bootPhase) by (intros ->; by apply not_elem_of_nil in Hf).
  split_and!; [|done|by eapply not_booting]. pose proof (facts_at _ _ _ _ _ Hok Hl) as Hfs. rewrite Forall_forall in Hfs. by apply Hfs.
Qed.

Lemma ports_keep w phs tid ph c i r w' new :
  ports_inv w phs -> phs !! tid = Some ph -> allowed portUse ph c -> handle c tid i w = Some (r, w', new) ->
  rely portUse ph c r /\ exists phs', Forall2 obeys phs' new /\ ports_inv w' (<[tid := next portUse ph c r]> phs ++ phs').
Proof.
  intros Hok Hl Ha Hh. unfold ports_inv in *.
  assert (Hcase : quiet c \/ ~ quiet c) by (destruct c; auto). destruct Hcase as [Hq|Hq].
      { assert (E : <[tid := next portUse ph c r]> phs = phs) by (rewrite (quiet_next _ _ _ Hq); by apply list_insert_id).
    destruct (ports_quiet _ _ _ _ _ _ _ Hq Hh) as (-> & Hc & Hd).
    split; [by destruct c|]. exists []. split; [constructor|]. by rewrite E, app_nil_r, Hc, Hd. }
  destruct c; try (exfalso; by apply Hq); clear Hq; simpl in Ha, Hh; unfold section, external in Hh; simpl.
  - destruct Ha as (Hr & Hn & Hp). destruct (reservePort port (nw_driver w)) as [b d] eqn:E. simplify_eq. split; [done|].
    exists []. split; [constructor|]. rewrite app_nil_r. by eapply ok_reserve.
  - simplify_eq. split; [done|]. exists []. split; [constructor|]. rewrite app_nil_r. by apply ok_release.
  - destruct Ha as [Hr Hn]. destruct (registerNotebook key projectID name port (nw_driver w)) as [o d] eqn:E. simplify_eq.
    split; [done|]. exists []. split; [constructor|]. rewrite app_nil_r. by eapply ok_register.
  - simplify_eq. split; [done|]. exists []. split; [constructor|]. rewrite app_nil_r.
    destruct (dn_notebooks (nw_driver w') !! key) as [a|] eqn:E; [|by rewrite list_insert_id].
    assert (Hne : ph <> bootPhase).
    { intros ->. destruct (ok_boot _ _ _ Hok) as [(_ & Hi & _)|Hb]; [rewrite Hi in E; simpl in E; by rewrite lookup_empty in E|].
      rewrite Forall_forall in Hb. apply list_elem_of_lookup_2 in Hl. by apply (Hb _ Hl). }
    apply ok_phase with ph; try done. simpl. constructor; [|by eapply facts_at]. split; simpl.
    + by eapply ok_gens.
    + intros a' Ha'. by simplify_eq.
  - destruct (endNotebook key gen port status (nw_driver w)) as [b d] eqn:E. simplify_eq. split; [done|].
    exists []. split; [constructor|]. rewrite app_nil_r. by eapply ok_end.
  - destruct Ha as [rest Hp]. pose proof (ok_reattach _ _ _ _ _ _ _ _ Hok Hl Hp) as Hok'.
    destruct (reattach key h (nw_driver w)) as [gen d] eqn:E. simplify_eq. split; [done|].
    exists []. split; [constructor|]. by rewrite app_nil_r.
  - destruct (terminalNotebook key status (nw_driver w)) as [b d] eqn:E. simplify_eq. split; [done|].
    exists []. split; [constructor|]. rewrite app_nil_r, list_insert_id by done. eapply ok_terminal; [done|done|].
    eapply not_booting; [done|done|by intros ->].
  - destruct (knows _ _ _ _ _ _ Hok Hl Ha) as (Hf & _ & Hb). destruct i; try done. split; [done|].
    exists []. destruct r0; simplify_eq; (split; [constructor|]); rewrite app_nil_r, list_insert_id by done; by apply ok_callback.
  - assert (Hboot : phs = [bootPhase] /\ nw_driver w = idle /\ nw_callbacks w = []).
    { destruct (ok_boot _ _ _ Hok) as [H|Hb]; [done|]. rewrite Forall_forall in Hb. apply list_elem_of_lookup_2 in Hl. by apply Hb in Hl. }
    destruct Hboot as (-> & Hd & Hc). destruct tid as [|tid]; simpl in Hl; [|by rewrite lookup_nil in Hl]. simplify_eq.
    assert (Hnew : forall l, pending_ok idle l -> ports_ok (nw_driver w) (nw_callbacks w) [mkPhase None [] l Recovering]).
    { intros l Hl. rewrite Hd, Hc. constructor; simpl; [done| | |done| | | |right]; try (by repeat constructor).
      - split_and!; [constructor|constructor|]. intros p. split; [by intros ?%not_elem_of_empty|by intros ?%not_elem_of_nil].
      - unfold pendingAll. simpl. by rewrite app_nil_r. }
    destruct i as [| | | | | | |[l|e]]; try done; [destruct (recoverable l) eqn:Er; [|done]|]; simplify_eq; (split; [done|]);
      exists []; (split; [constructor|]); apply Hnew; [by apply recovered_pending|repeat constructor].
  - destruct (knows _ _ _ _ _ _ Hok Hl Ha) as (Hf & _ & Hb). simplify_eq. split; [done|]. exists []. split; [constructor|].
    rewrite app_nil_r, list_insert_id by done. by apply ok_callback.
  - simplify_eq. split; [done|]. exists [servingPhase]. split.
    + constructor; [|constructor]. by eapply serving_obeys, provisionAndStart_keeps.
    + rewrite list_insert_id by done. by eapply spawn_serving.
  - simplify_eq. split; [done|]. exists [servingPhase]. split.
    + constructor; [|constructor]. by eapply serving_obeys, startWithVolume_keeps.
    + rewrite list_insert_id by done. by eapply spawn_serving.
  - simplify_eq. split; [done|]. exists [servingPhase]. split.
    + constructor; [|constructor]. by eapply serving_obeys, restartRun_keeps.
    + rewrite list_insert_id by done. by eapply spawn_serving.
  - destruct (knows _ _ _ _ _ _ Hok Hl Ha) as (Hf & _ & Hb). simplify_eq. split; [done|]. exists [endingPhase (factOf req)]. split.
    + constructor; [|constructor]. by eapply ending_obeys, startAsync_keeps.
    + rewrite list_insert_id by done. by apply spawn_ending.
Qed.

(** ** Every run *)

Abbreviation step := (step cfg runtime decode errText).
Abbreviation exec := (exec cfg runtime decode errText).
Abbreviation ports_good := (good NWorld portUse resting ports_inv).

Lemma boot_good w : nw_driver w = idle -> nw_callbacks w = [] -> ports_good (w, boot cfg).
Proof.
  intros Hd Hc. exists [bootPhase]. split; [constructor; [by eapply boot_wp|constructor]|]. unfold ports_inv. simpl. rewrite Hd, Hc.
  constructor; simpl; [done| |repeat constructor|constructor|repeat constructor|by repeat constructor|constructor|by left].
  split_and!; [constructor|constructor|]. intros p. split; [by intros ?%not_elem_of_empty|by intros ?%not_elem_of_nil].
Qed.

Lemma ports_step o s s' : ports_good s -> step o s = Some s' -> ports_good s'.
Proof.
  intros Hg Hs. destruct o as [tid i|q|j st|d|cut|]; simpl in Hs.
  - eapply good_step; [|exact Hg|exact Hs]. intros. by eapply ports_keep.
  - destruct (s.2 !! 0%nat) as [[u|]|] eqn:E; simplify_eq. destruct Hg as (phs & Hf & Hi).
    destruct (Forall2_lookup_r _ _ _ _ _ Hf E) as (ph & Hl & Hrest & Hpe & Hnb). exists (phs ++ [servingPhase]). split.
    { apply Forall2_app; [done|]. constructor; [|constructor]. by eapply serving_obeys, program_keeps. }
    assert (Hb : Forall (fun ph => ph_role ph <> Booting) phs) by (eapply not_booting; [exact Hi|exact Hl|by intros ->]).
    apply ok_spawn; try done. intros _. destruct phs as [|ph0 phs]; [done|]. simpl in Hl. injection Hl as ->.
    rewrite pendingAll_cons, Hpe. simpl. pose proof (ok_tail _ _ _ Hi) as Ht. simpl in Ht. clear -Ht.
    induction Ht as [|ph' phs Hp _ IH]; [done|]. by rewrite pendingAll_cons, Hp.
  - apply bind_Some in Hs as (cb & Hcb & Hs). destruct (ended st); simplify_eq. destruct Hg as (phs & Hf & Hi).
    exists (phs ++ [endingPhase (cbFact cb)]). split.
    { apply Forall2_app; [done|]. constructor; [|constructor]. by eapply ending_obeys, onExit_keeps. }
    apply spawn_ending; [done| |].
    + destruct (ok_boot _ _ _ Hi) as [(_ & _ & Hc)|]; [rewrite Hc in Hcb; by rewrite lookup_nil in Hcb|done].
    + pose proof (ok_callbacks _ _ _ Hi) as Hc. rewrite Forall_forall in Hc. apply Hc. by eapply list_elem_of_lookup_2.
  - destruct (0 <=? d); simplify_eq. destruct Hg as (phs & Hf & Hi). by exists phs.
  - simplify_eq. destruct Hg as (phs & Hf & Hi). by exists phs.
  - simplify_eq. by apply boot_good.
Qed.

Lemma ports_run ops s s' : ports_good s -> exec ops s = Some s' -> ports_good s'.
Proof.
  revert s; induction ops as [|o ops IH]; intros s Hg He; simpl in He; [by simplify_eq|].
  apply bind_Some in He as (s1 & Hs & He). eapply IH; [|exact He]. by eapply ports_step.
Qed.

Lemma start_good now : ports_good (start cfg now).
Proof. by apply boot_good. Qed.

End Keep.

Lemma slot_port d key a : dn_notebooks d !! key = Some a -> 0 < ac_port a ->
  slotPorts (dn_notebooks d) ≡ₚ ac_port a :: slotPorts (delete key (dn_notebooks d)).
Proof.
  intros Ha Hp. rewrite (slotPorts_delete _ _ _ Ha). unfold positive. rewrite filter_cons, decide_True by done. done.
Qed.

(** C21: However requests, starts in the background, exits, failures, recoveries
    and restarts of the process interleave: two active notebooks never have the
    same port, the port of an active notebook is reserved, and once no thread is
    at work the reserved ports are exactly those of the active notebooks, so none
    is lost. A port that a runtime recovers counts when it is known, that is
    positive. *)
Theorem ports_exclusive cfg runtime decode errText ops now s
    (Hrun : exec cfg runtime decode errText ops (start cfg now) = Some s) :
  let d := nw_driver s.1 in
  (forall key key' a a', dn_notebooks d !! key = Some a -> dn_notebooks d !! key' = Some a' -> 0 < ac_port a ->
     ac_port a = ac_port a' -> key = key') /\
  (forall key a, dn_notebooks d !! key = Some a -> 0 < ac_port a -> ac_port a ∈ dn_reserved d) /\
  (Forall (fun m => exists u, m = Ret u) s.2 ->
     forall p, p ∈ dn_reserved d -> exists key a, dn_notebooks d !! key = Some a /\ ac_port a = p).
Proof.
  destruct (ports_run _ _ _ _ _ _ _ (start_good cfg runtime decode errText now) Hrun) as (phs & Hf & Hi). destruct (ok_ports _ _ _ Hi) as (Hnd & Hpos & Hin).
  unfold claims in *. apply NoDup_app in Hnd as (Hnd & _ & _). cbv zeta. split_and!.
  - intros key key' a a' Ha Ha' Hp E. destruct (decide (key = key')) as [|Hne]; [done|]. exfalso.
    rewrite (slot_port _ _ _ Ha Hp) in Hnd. apply NoDup_cons in Hnd as [Hn _]. apply Hn.
    assert (Ea : delete key (dn_notebooks (nw_driver s.1)) !! key' = Some a') by (by rewrite lookup_delete_ne).
    rewrite (slotPorts_delete _ _ _ Ea). unfold positive. rewrite <- E, filter_cons, decide_True by done.
    apply elem_of_app. left. apply elem_of_cons. by left.
  - intros key a Ha Hp. apply Hin. apply elem_of_app. left. rewrite (slot_port _ _ _ Ha Hp). apply elem_of_cons. by left.
  - intros Hall p Hp%Hin. apply elem_of_app in Hp as [Hp|Hp].
    + unfold slotPorts, positive in Hp. apply list_elem_of_filter in Hp as [_ Hp]. apply list_elem_of_fmap in Hp as (a & -> & Ha).
      apply list_elem_of_fmap in Ha as ([key a'] & -> & Hka). apply elem_of_map_to_list in Hka. eauto.
    + exfalso. apply list_elem_of_omap in Hp as (ph & Hph & Hh). apply list_elem_of_lookup in Hph as [j Hj].
      destruct (Forall2_lookup_l _ _ _ _ _ Hf Hj) as (m & Hm & Ho). rewrite Forall_forall in Hall.
      destruct (Hall m) as [u ->]; [by eapply list_elem_of_lookup_2|]. destruct Ho as [Hn _]. congruence.
Qed.
