(* ===== verification/NotebookHistory.v ===== *)
(** * Notebook servers: the history of runs

    In every interleaving, with failing statements, purges and restarts: the
    history has one row per run and loses none but to a purge; a row of it says
    what the notebook's row said when the run ended; and no notebook's row becomes
    ended without the run's row in the history, except by a write of a status that
    was read while it still stood. *)

From S2P Require Import Prelude Prog Pipeline NotebookModel NotebookManager NotebookDriver NotebookWorld.
From stdpp Require Import options.
#[local] Open Scope Z_scope.
#[local] Set Default Proof Using "All".

(** ** What a statement does to servers and history *)

(** What a history row tells of a server's row, at a time. *)
Definition tells (h : NotebookHistory) (nb : NotebookServer) (at_ : Z) : Prop :=
  historyRun h = runOf nb /\ nh_Status h = sv_Status nb /\ nh_Reason h = sv_Reason nb /\ nh_StoppedAt h = at_.

Abbreviation servers w := (nt_servers (nw_tables w)).
Abbreviation history w := (nt_history (nw_tables w)).

Lemma existsb_run run hs :
  existsb (fun h => bool_decide (historyRun h = run)) hs = true <-> exists h, h ∈ hs /\ historyRun h = run.
Proof.
  rewrite existsb_exists. split; intros (h & Hh & E); exists h; (split; [by apply list_elem_of_In|]).
  - by apply bool_decide_eq_true in E.
  - by apply bool_decide_eq_true.
Qed.

Lemma historyRun_endedAgain nb now h : historyRun (endedAgain nb now h) = historyRun h.
Proof. done. Qed.

(** The runs of the history after a run's end is recorded. *)
Lemma recordRun_runs nb now hs :
  map historyRun (recordRun nb now hs) =
  if existsb (fun h => bool_decide (historyRun h = runOf nb)) hs then map historyRun hs else runOf nb :: map historyRun hs.
Proof.
  unfold recordRun. destruct (existsb _ _); [|done]. rewrite map_map. apply map_ext. intros h. by case_bool_decide.
Qed.

Lemma recordRun_once nb now hs : NoDup (map historyRun hs) -> NoDup (map historyRun (recordRun nb now hs)).
Proof.
  intros Ho. rewrite recordRun_runs. destruct (existsb _ _) eqn:E; [done|]. constructor; [|done].
  intros (h & Er & Hh)%list_elem_of_fmap.
  assert (existsb (fun h => bool_decide (historyRun h = runOf nb)) hs = true) by (apply existsb_run; eauto). congruence.
Qed.

Lemma recordRun_elem nb now hs h : h ∈ recordRun nb now hs -> tells h nb now \/ h ∈ hs.
Proof.
  unfold recordRun. destruct (existsb _ _) eqn:E.
  - intros (h0 & -> & Hh)%list_elem_of_fmap. case_bool_decide as Er; [left|by right]. by repeat split.
  - intros [->|Hh]%elem_of_cons; [left; by repeat split|by right].
Qed.

Lemma recordRun_keeps nb now hs h : h ∈ hs -> exists h', h' ∈ recordRun nb now hs /\ historyRun h' = historyRun h.
Proof.
  intros Hh. assert (Hin : historyRun h ∈ map historyRun (recordRun nb now hs)).
  { rewrite recordRun_runs. destruct (existsb _ _); [|right]; apply list_elem_of_fmap; eauto. }
  apply list_elem_of_fmap in Hin as (h' & E & Hh'). eauto.
Qed.

Lemma recordRun_has nb now hs : exists h, h ∈ recordRun nb now hs /\ tells h nb now.
Proof.
  assert (Hin : runOf nb ∈ map historyRun (recordRun nb now hs)).
  { rewrite recordRun_runs. destruct (existsb _ _) eqn:E; [|by left]. apply existsb_run in E as (h & Hh & <-). apply list_elem_of_fmap. eauto. }
  apply list_elem_of_fmap in Hin as (h & E & Hh). exists h. split; [done|].
  unfold recordRun in Hh. destruct (existsb _ _) eqn:Ex.
  - apply list_elem_of_fmap in Hh as (h0 & -> & Hh). case_bool_decide as Er; [|congruence]. by repeat split.
  - apply elem_of_cons in Hh as [->|Hh]; [by repeat split|].
    assert (existsb (fun h => bool_decide (historyRun h = runOf nb)) hs = true) by (apply existsb_run; eauto). congruence.
Qed.

(** The calls that write servers or the history, and what they leave. *)
Definition wrote (c : ncall) (now : Z) (t t' : Tables) : Prop :=
  match c with
  | NCreate nb => createServer (stamped now nb) t = Some t'
  | NUpdate nb => t' = updateServer nb now t
  | NSetStatus p n st re => t' = setStatus (p, n) st re now t
  | NStartRun p n => t' = startRun (p, n) now t
  | NFinishRun p n st re => t' = (finishRun (p, n) st re now t).2
  | NDelete p n => t' = deleteServer (p, n) t
  | _ => False
  end.

Lemma statement_worlds {A} i w (a : A) after r w' new : statement i w a after = Some (r, w', new) -> w' = w \/ w' = after.
Proof. unfold statement, external. intros H. repeat case_match; simplify_eq; auto. Qed.

Section History.

Context (cfg : NbConfig) (runtime : string) (decode : string -> option Notebook) (errText : nbErr -> string).

#[local] Instance driver : NotebookDriver := localDriver cfg.

Abbreviation handle := (handle cfg errText).

Lemma finished_tables k st re w : nw_now (finished k st re w).2 = nw_now w /\
  nw_tables (finished k st re w).2 = (finishRun k st re (nw_now w) (nw_tables w)).2.
Proof. unfold finished. by destruct (finishRun _ _ _ _ _) as [[nb|] t]. Qed.

Lemma handle_wrote c tid i w r w' new : handle c tid i w = Some (r, w', new) -> nw_now w' = nw_now w /\
  ((servers w' = servers w /\ history w' = history w) \/ wrote c (nw_now w) (nw_tables w) (nw_tables w')).
Proof.
  intros Hh. destruct c; simpl in Hh; unfold insertion, written, section, external in Hh.
  6: { pose proof (finished_tables (projectID, name) status reason w) as [Hn Ht]. destruct (finished _ _ _ _) as [b w1]. simpl in *.
       apply statement_worlds in Hh as [-> | ->]; [by split; [|left]|]. split; [done|by right]. }
  all: repeat match type of Hh with
    | statement _ _ _ _ = Some _ => apply statement_worlds in Hh as [-> | ->]
    | context [match ?x with _ => _ end] => destruct x eqn:?
    end; simplify_eq/=; (split; [done|]); try (by left); try (by right).
  left. unfold createVolume in *. case_match; by simplify_eq.
Qed.

Lemma handle_answer p n tid i w r w' new : handle (NGet p n) tid i w = Some (r, w', new) ->
  forall nb, r = Ok (Some nb) -> servers w !! (p, n) = Some nb.
Proof. simpl. unfold statement, external. intros H nb ->. by repeat case_match; simplify_eq. Qed.

(** ** Ends *)

(** Every server's row is stored under its own key. *)
Definition keyed (t : Tables) : Prop := forall k nb, nt_servers t !! k = Some nb -> serverKey nb = k.

(** The statuses that a thread has read; it may write only those back that end a
    run. *)
Definition mayWrite (known : skey -> string -> Prop) (c : ncall) : Prop :=
  match c with
  | NCreate nb => ended (sv_Status nb) = false
  | NUpdate nb => ended (sv_Status nb) = true -> known (serverKey nb) (sv_Status nb)
  | NSetStatus p n st _ => ended st = true -> known (p, n) st
  | NFinishRun _ _ st _ => ended st = true
  | _ => True
  end.

Abbreviation readings := (gset (skey * string)).
Definition writesBack : discipline nreply :=
  mkDiscipline ncall nreply readings
    (fun ph c => mayWrite (fun k st => (k, st) ∈ ph) c)
    (fun _ c =>
       match c as c return nreply c -> Prop with
       | NGet p n => fun r => match r with Ok (Some nb) => serverKey nb = (p, n) | _ => True end
       | _ => fun _ => True
       end)
    (fun ph c =>
       match c as c return nreply c -> readings with
       | NGet p n => fun r => match r with Ok (Some nb) => {[((p, n), sv_Status nb)]} ∪ ph | _ => ph end
       | _ => fun _ => ph
       end).

(** What a step leaves: a row that becomes ended is in the history, or has a
    status that was written back; the history loses no run, and tells only what the
    rows do. *)
Record accounted (known : skey -> string -> Prop) (now : Z) (t t' : Tables) : Prop := mkAccounted {
  ac_keyed : keyed t';
  ac_once : NoDup (map historyRun (nt_history t'));
  ac_new : forall k nb', nt_servers t !! k = None -> nt_servers t' !! k = Some nb' -> ended (sv_Status nb') = false;
  ac_end : forall k nb nb', nt_servers t !! k = Some nb -> nt_servers t' !! k = Some nb' ->
    ended (sv_Status nb') = true -> sv_Status nb' <> sv_Status nb ->
    (runOf nb' = runOf nb /\ exists h, h ∈ nt_history t' /\ tells h nb' now) \/ known k (sv_Status nb');
  ac_kept : forall h, h ∈ nt_history t -> exists h', h' ∈ nt_history t' /\ historyRun h' = historyRun h;
  ac_said : forall h, h ∈ nt_history t' -> h ∈ nt_history t \/
    exists k nb', nt_servers t' !! k = Some nb' /\ ended (sv_Status nb') = true /\ tells h nb' now }.

(** A write that only touches servers. *)
Lemma servers_accounted known now t m : NoDup (map historyRun (nt_history t)) ->
  (forall k nb', m !! k = Some nb' -> serverKey nb' = k /\
     match nt_servers t !! k with
     | Some nb => ended (sv_Status nb') = true -> sv_Status nb' <> sv_Status nb -> known k (sv_Status nb')
     | None => ended (sv_Status nb') = false
     end) ->
  accounted known now t (setServers m t).
Proof.
  intros Ho Hm. constructor; simpl; [|done|..].
  - intros k nb Hk. by apply Hm in Hk as [? _].
  - intros k nb' Hn Hk. apply Hm in Hk as [_ Hk]. by rewrite Hn in Hk.
  - intros k nb nb' Hs Hk He Hne. apply Hm in Hk as [_ Hk]. rewrite Hs in Hk. right. by apply Hk.
  - eauto.
  - by left.
Qed.

Lemma alter_accounted (f : NotebookServer -> NotebookServer) k known now t :
  keyed t -> NoDup (map historyRun (nt_history t)) -> (forall nb, serverKey (f nb) = serverKey nb) ->
  (forall nb, ended (sv_Status (f nb)) = true -> known k (sv_Status (f nb))) ->
  accounted known now t (onServer f k t).
Proof.
  intros Hk Ho Hf Hs. apply servers_accounted; [done|]. intros k' nb'. rewrite lookup_alter_Some.
  intros [(<- & nb & Hnb & ->)|[_ Hnb]]; rewrite Hnb.
  - split; [rewrite Hf; by apply Hk|]. intros He _. by apply Hs.
  - split; [by apply Hk|]. by intros.
Qed.

Lemma same_accounted known now t t' : nt_servers t' = nt_servers t -> nt_history t' = nt_history t ->
  keyed t -> NoDup (map historyRun (nt_history t)) -> accounted known now t t'.
Proof.
  intros Es Eh Hk Ho. constructor; unfold keyed; rewrite ?Es, ?Eh; try done; try (by left).
  - intros k nb' H1 H2. congruence.
  - intros k nb nb' H1 H2 _ Hne. congruence.
  - eauto.
Qed.

Lemma finishRun_accounted k st re known now t : keyed t -> NoDup (map historyRun (nt_history t)) -> ended st = true ->
  accounted known now t (finishRun k st re now t).2.
Proof.
  intros Hk Ho Hst. unfold finishRun. destruct (nt_servers t !! k) as [nb|] eqn:E; [|by apply same_accounted].
  destruct (ended (sv_Status nb)) eqn:Ee; [by apply same_accounted|]. simpl. set (nb' := finishedRow st re now nb).
  constructor; unfold keyed; simpl.
  - intros k' row. rewrite lookup_insert_Some. intros [[<- <-]|[_ Hr]]; [by apply (Hk _ _ E)|by apply Hk].
  - by apply recordRun_once.
  - intros k' row Hn. rewrite lookup_insert_ne by congruence. congruence.
  - intros k' row row' Hr. rewrite lookup_insert_Some. intros [[<- <-]|[_ Hr']] _ Hne; [|congruence].
    left. split; [|apply recordRun_has]. by rewrite E in Hr; simplify_eq.
  - intros h. apply recordRun_keeps.
  - intros h [Ht|Hh]%recordRun_elem; [|by left]. right. exists k, nb'. by rewrite lookup_insert_eq.
Qed.

Lemma wrote_accounted known c now t t' : keyed t -> NoDup (map historyRun (nt_history t)) -> mayWrite known c ->
  wrote c now t t' -> accounted known now t t'.
Proof.
  intros Hk Ho Hc Hw. destruct c; try done; simpl in Hw, Hc.
  - unfold createServer in Hw. destruct (nt_servers t !! _) eqn:E; simplify_eq. apply servers_accounted; [done|].
    intros k nb'. rewrite lookup_insert_Some. intros [[<- <-]|[_ Hnb]]; [by rewrite E|]. rewrite Hnb. split; [by apply Hk|done].
  - subst. by apply alter_accounted.
  - subst. by apply alter_accounted.
  - subst. by apply alter_accounted.
  - subst. by apply finishRun_accounted.
  - subst. apply servers_accounted; [done|]. intros k nb' [_ Hnb]%lookup_delete_Some. rewrite Hnb. split; [by apply Hk|done].
Qed.

(** ** The programs write back only what they read *)

(** A program that obeys the discipline and forgets nothing. *)
Definition grows {A} (m : N A) : Prop := forall ph : readings, wp writesBack ph m (fun _ (ph' : readings) => ph ⊆ ph').

Lemma grows_ret {A} (a : A) : grows (Ret a).
Proof. intros ph. simpl. reflexivity. Qed.

Lemma grows_bind {A B} (m : N A) (f : A -> N B) : grows m -> (forall a, grows (f a)) -> grows (m ≫= f).
Proof.
  intros Hm Hf ph. apply wp_bind. eapply wp_mono; [|apply Hm]. intros a ph' Hs. simpl.
  eapply wp_mono; [|apply Hf]. intros b ph'' Hs'. set_solver.
Qed.

Lemma grows_tryOk {A B} (m : N (res nbErr A)) (f : A -> N (res nbErr B)) : grows m -> (forall a, grows (f a)) -> grows (tryOk m f).
Proof. intros Hm Hf. apply grows_bind; [done|]. intros [a|e]; [apply Hf|apply grows_ret]. Qed.

Lemma grows_wrapping {A} ctx (m : N (res nbErr A)) : grows m -> grows (wrapping ctx m).
Proof. intros Hm. apply grows_bind; [done|]. intros r. apply grows_ret. Qed.

(** Calls that need no reading first. *)
Lemma grows_call c : (forall known, mayWrite known c) -> grows (invoke c).
Proof. intros Hc ph. split; [apply Hc|]. intros r _. destruct c; simpl; try reflexivity. destruct r as [[nb|]|]; set_solver. Qed.

(** A row is read, and what follows may write its status back under its key. *)
Lemma grows_get {A} p n (f : res nbErr (option NotebookServer) -> N A) :
  (forall nb (ph : readings), serverKey nb = (p, n) -> ((p, n), sv_Status nb) ∈ ph -> wp writesBack ph (f (Ok (Some nb))) (fun _ (ph' : readings) => ph ⊆ ph')) ->
  grows (f (Ok None)) -> (forall e, grows (f (Err e))) -> grows (r ← invoke (NGet p n); f r).
Proof.
  intros Hs Hn He ph. simpl. split; [done|]. intros [[nb|]|e] Hr; [|apply Hn|apply He].
  eapply wp_mono; [|apply Hs; [done|set_solver]]. set_solver.
Qed.

Ltac grow :=
  intros;
  repeat match goal with
  | |- grows (Ret _) => apply grows_ret
  | |- grows (lift _) => apply grows_ret
  | |- grows (wrapping _ _) => apply grows_wrapping
  | |- grows (tryOk _ _) => apply grows_tryOk; [|intros ?]
  | |- grows (mbind _ _) => apply grows_bind; [|intros ?]
  | |- grows (perform _) => solve [apply grows_call; done]
  | |- grows (match ?x with _ => _ end) => destruct x
  | |- grows (let _ := _ in _) => cbv zeta
  | _ => solve [auto]
  end.

Lemma publishReport_grows p n r : grows (publishReport p n r).
Proof. unfold publishReport. grow. Qed.
Lemma moveVolume_grows r nb : grows (moveVolume r nb).
Proof. unfold moveVolume. grow. Qed.

Lemma applyReport_status r nb : serverKey (applyReport r nb) = serverKey nb /\
  sv_Status (applyReport r nb) = if String.eqb (rp_Status r) "" then sv_Status nb else rp_Status r.
Proof. unfold applyReport, serverKey. by destruct (String.eqb (rp_Status r) ""). Qed.

Lemma UpdateStatus_grows p rid n r : grows (UpdateStatus p rid n r).
Proof.
  unfold UpdateStatus. destruct (String.eqb p ""); [apply grows_ret|]. unfold tryOk at 1, wrapping at 1.
  intros ph. apply wp_bind, wp_bind. simpl. split; [done|]. intros [[nb|]|e] Hr; simpl; [|done..].
  destruct (_ && _)%bool; [set_solver|]. destruct (ended (rp_Status r)) eqn:Ee.
  - simpl. split; [done|]. intros [b|e] _; simpl; [|set_solver]. apply wp_bind.
    assert (Hg : grows (if b then publishReport p n r else Ret tt)) by (grow; apply publishReport_grows).
    eapply wp_mono; [|apply Hg]. set_solver.
  - apply wp_bind. eapply wp_mono; [|apply moveVolume_grows]. simpl. intros _ ph' Hph.
    destruct (applyReport_status r nb) as [Hk Hs]. split.
    + change (ended (sv_Status (applyReport r nb)) = true -> (serverKey (applyReport r nb), sv_Status (applyReport r nb)) ∈ ph').
      rewrite Hk, Hs, Hr. destruct (String.eqb (rp_Status r) ""); [set_solver|congruence].
    + intros [u|e] _; simpl; [|set_solver]. destruct (_ || _)%bool; [simpl; set_solver|]. apply wp_bind.
      eapply wp_mono; [|apply publishReport_grows]. simpl. set_solver.
Qed.

Lemma report_grows p n r : grows (report cfg p n r).
Proof. unfold report. grow. apply UpdateStatus_grows. Qed.

(** The write of an assignment keeps the status that was just read. *)
Lemma assign_grows {A} p n b fresh (m : N A) (d : A) : grows m ->
  grows (nb ← invoke (NGet p n);
         match nb with Ok (Some nb) => _ ← invoke (NUpdate (assign b fresh nb)); m | _ => Ret d end).
Proof.
  intros Hm. apply grows_get; [|apply grows_ret..]. intros nb ph Hk Hin. simpl. split; [intros _; change ((serverKey nb, sv_Status nb) ∈ ph); by rewrite Hk|].
  intros r _. apply Hm.
Qed.

#[local] Hint Resolve UpdateStatus_grows report_grows publishReport_grows : core.

Lemma publishFailed_grows p n e : grows (publishFailed errText p n e).
Proof. unfold publishFailed. grow. Qed.
#[local] Hint Resolve publishFailed_grows : core.

Lemma tryPorts_grows used ports : grows (tryPorts used ports).
Proof. induction ports as [|port ports IH]; cbn [tryPorts]; grow. Qed.
#[local] Hint Resolve tryPorts_grows : core.

Lemma releasePort_grows port : grows (releasePort port).
Proof. unfold releasePort. grow. Qed.
#[local] Hint Resolve releasePort_grows : core.

Lemma localStart_grows spec v y : grows (localStart cfg spec v y).
Proof. unfold localStart, allocatePort. grow. Qed.
Lemma localStop_grows nb : grows (localStop cfg nb).
Proof. unfold localStop. grow. Qed.
Lemma localProvisionVolume_grows v spec : grows (localProvisionVolume cfg v spec).
Proof. unfold localProvisionVolume. grow. Qed.
Lemma localDeprovisionVolume_grows v : grows (localDeprovisionVolume cfg v).
Proof. unfold localDeprovisionVolume. grow. Qed.

#[local] Hint Extern 1 (grows (driverValidateSpec _)) => apply grows_ret : core.
#[local] Hint Extern 1 (grows (driverProvisionVolume _ _)) => apply localProvisionVolume_grows : core.
#[local] Hint Extern 1 (grows (driverStart _ _ _)) => apply localStart_grows : core.
#[local] Hint Extern 1 (grows (driverStop _)) => apply localStop_grows : core.
#[local] Hint Extern 1 (grows (driverRemove _)) => apply localStop_grows : core.
#[local] Hint Extern 1 (grows (driverDeprovisionVolume _)) => apply localDeprovisionVolume_grows : core.

Lemma keepAssignment_grows b p n fresh v : grows (keepAssignment b p n fresh v).
Proof. unfold keepAssignment. apply assign_grows. grow. Qed.
#[local] Hint Resolve keepAssignment_grows : core.

Lemma provisionAndStart_grows p v spec y : grows (provisionAndStart errText p v spec y).
Proof.
  unfold provisionAndStart. cbv zeta. apply grows_bind; [auto|]. intros [vol|e]; [|grow].
  do 2 (apply grows_bind; [grow|]; intros _). apply grows_bind; [auto|]. intros [fresh|e]; [|grow]. apply assign_grows. grow.
Qed.
Lemma startWithVolume_grows p v spec y : grows (startWithVolume errText p v spec y).
Proof. unfold startWithVolume. grow. Qed.
Lemma restartRun_grows p n v spec y : grows (restartRun errText p n v spec y).
Proof. unfold restartRun. grow. Qed.

(** A stop that fails writes back the status it read. *)
Lemma stopTail_wp (p n : string) (nb : NotebookServer) (ph : readings) : ((p, n), sv_Status nb) ∈ ph ->
  wp writesBack ph
    (stopped ← driverStop nb;
     match stopped with
     | Err err =>
         restored ← invoke (NSetStatus p n (sv_Status nb) (sv_Reason nb));
         Ret match restored with Err restoreErr => Err (NRestore err restoreErr) | Ok _ => Err (NWrap "notebook: stop" err) end
     | Ok _ => Ret (Ok tt)
     end) (fun _ (ph' : readings) => ph ⊆ ph').
Proof.
  intros Hin. apply wp_bind. eapply wp_mono; [|apply localStop_grows]. simpl. intros [u'|e] ph' Hph; simpl; [set_solver|].
  split; [intros _; set_solver|]. intros [u'|e'] _; simpl; set_solver.
Qed.

Lemma Stop_grows p n : grows (Stop p n).
Proof.
  unfold Stop. destruct (String.eqb p ""); [apply grows_ret|]. unfold tryOk at 1, wrapping at 1.
  intros ph. apply wp_bind, wp_bind. simpl. split; [done|]. intros [[nb|]|e] Hr; [|simpl; reflexivity..].
  cbn [wp]. destruct (_ || _)%bool; [simpl; set_solver|].
  split; [done|]. intros [u|e] _; [|simpl; set_solver].
  eapply wp_mono; [|apply stopTail_wp; set_solver]. set_solver.
Qed.
#[local] Hint Resolve Stop_grows : core.

Lemma checkSpec_grows valid spec : grows (checkSpec runtime valid spec).
Proof. unfold checkSpec. grow. Qed.
Lemma checkAbsent_grows p n : grows (checkAbsent p n).
Proof. unfold checkAbsent. grow. Qed.
#[local] Hint Resolve checkSpec_grows checkAbsent_grows : core.

Lemma program_grows q : grows (program cfg runtime decode q).
Proof.
  destruct q; unfold program, ignore; (apply grows_bind; [|intros; apply grows_ret]).
  - unfold createNotebook, Create, CreateWithVolume. grow.
  - auto.
  - unfold Restart, volumeOf. grow.
  - unfold Delete. grow.
  - unfold PurgeVolume. grow.
Qed.

Lemma failStart_grows req e : grows (failStart cfg errText req e).
Proof. unfold failStart. grow. Qed.
#[local] Hint Resolve failStart_grows : core.
Lemma startAsync_grows req ep : grows (startAsync cfg errText req ep).
Proof. unfold startAsync, resolveEnv. grow. Qed.
Lemma onExit_grows cb st : grows (onExit cfg cb st).
Proof. unfold onExit. grow. Qed.
Lemma recoverEach_grows l : grows (recoverEach cfg l).
Proof. induction l as [|[h [st|]] l IH]; cbn [recoverEach]; grow. Qed.
#[local] Hint Resolve recoverEach_grows : core.
Lemma boot_grows : grows (ignore (Recover cfg)).
Proof. unfold ignore, Recover. grow. Qed.

(** ** Every step *)

Abbreviation step := (step cfg runtime decode errText).
Abbreviation exec := (exec cfg runtime decode errText).

Definition remembers (known : skey -> string -> Prop) (ph : readings) : Prop := forall k st, (k, st) ∈ ph -> known k st.

(** The tables are sound, and what the threads remember is [known]. *)
Record back_inv (known : skey -> string -> Prop) (w : NWorld) (phs : list readings) : Prop := mkBack {
  bk_keyed : keyed (nw_tables w);
  bk_once : NoDup (map historyRun (history w));
  bk_known : Forall (remembers known) phs }.

Abbreviation back_good known := (good NWorld writesBack (fun _ => True) (back_inv known)).

Lemma obeys_grows (m : N unit) : grows m -> obeys writesBack (fun _ => True) (∅ : readings) m.
Proof. intros Hm. eapply wp_mono; [|apply Hm]. done. Qed.

Lemma handle_threads c tid i w r w' new : handle c tid i w = Some (r, w', new) ->
  Forall2 (obeys writesBack (fun _ => True)) (replicate (List.length new) (∅ : readings)) new.
Proof.
  intros Hh. assert (Hn : Forall grows new).
  { destruct c; simpl in Hh; unfold insertion, statement, written, section, external in Hh;
      repeat match type of Hh with context [match ?x with _ => _ end] => destruct x eqn:? end; simplify_eq; try (by constructor);
      apply Forall_singleton; auto using provisionAndStart_grows, startWithVolume_grows, restartRun_grows, startAsync_grows. }
  clear Hh. induction Hn as [|m new Hm _ IH]; simpl; constructor; [by apply obeys_grows|exact IH].
Qed.

Lemma mayWrite_mono (known known' : skey -> string -> Prop) c :
  (forall k st, known k st -> known' k st) -> mayWrite known c -> mayWrite known' c.
Proof. intros Hs. destruct c; simpl; auto. Qed.

(** A call of a thread leaves its tables accounted for. *)
Lemma handle_accounted known ph c tid i w r w' new :
  keyed (nw_tables w) -> NoDup (map historyRun (history w)) -> remembers known ph -> allowed writesBack ph c ->
  handle c tid i w = Some (r, w', new) -> accounted known (nw_now w) (nw_tables w) (nw_tables w').
Proof.
  intros Hk Ho Hr Ha Hh. destruct (handle_wrote _ _ _ _ _ _ _ Hh) as [_ [[Es Eh]|Hw]]; [by apply same_accounted|].
  eapply wrote_accounted; [done|done| |exact Hw]. eapply mayWrite_mono; [|exact Ha]. exact Hr.
Qed.

Lemma back_thread (known known' : skey -> string -> Prop) tid i s s' :
  (forall k st, known k st -> known' k st) -> (forall k nb, servers s.1 !! k = Some nb -> known' k (sv_Status nb)) ->
  back_good known s -> step (OThread tid i) s = Some s' ->
  back_good known' s' /\ accounted known (nw_now s.1) (nw_tables s.1) (nw_tables s'.1).
Proof.
  intros Hs Hseen Hg Hst. split.
  - eapply good_step_from; [|exact Hg|exact Hst]. intros phs ph c r w' new [Hk Ho Hp] Hl Ha Hh.
    assert (Hr : remembers known ph) by exact (Forall_lookup_1 _ _ _ _ Hp Hl).
    destruct (handle_accounted _ _ _ _ _ _ _ _ _ Hk Ho Hr Ha Hh) as [Hk' Ho' _ _ _ _].
    assert (Hre : rely writesBack ph c r /\ remembers known' (next writesBack ph c r)).
    { destruct c; try (split; [done|]; intros k st Hin; by apply Hs, Hr). simpl. destruct r as [[nb|]|e].
      - pose proof (handle_answer _ _ _ _ _ _ _ _ Hh nb eq_refl) as Hnb. split; [by apply Hk|].
        intros k st [E%elem_of_singleton|Hin]%elem_of_union; [simplify_eq; by apply Hseen|by apply Hs, Hr].
      - split; [done|]. intros k st Hin. by apply Hs, Hr.
      - split; [done|]. intros k st Hin. by apply Hs, Hr. }
    split; [apply Hre|]. exists (replicate (List.length new) ∅). split; [by eapply handle_threads|].
    constructor; [done|done|]. apply Forall_app. split.
    + apply Forall_insert; [|apply Hre]. eapply Forall_impl; [exact Hp|]. intros ph' Hph' k st Hin. by apply Hs, Hph'.
    + apply Forall_replicate. intros k st Hin. by apply not_elem_of_empty in Hin.
  - destruct Hg as (phs & Hf & [Hk Ho Hp]). apply thread_step_inv in Hst as (c & k & re & w' & new & Et & Eh & ->).
    destruct (Forall2_lookup_r _ _ _ _ _ Hf Et) as (ph & Hl & [Ha _]). eapply handle_accounted; try done.
    exact (Forall_lookup_1 _ _ _ _ Hp Hl).
Qed.

(** A step that is no purge. *)
Lemma back_step (known known' : skey -> string -> Prop) o s s' :
  (forall k st, known k st -> known' k st) -> (forall k nb, servers s.1 !! k = Some nb -> known' k (sv_Status nb)) ->
  back_good known s -> step o s = Some s' ->
  back_good known' s' /\
  match o with
  | OPurge cutoff => nw_tables s'.1 = (purgeHistory cutoff (nw_tables s.1)).1
  | _ => accounted known (nw_now s.1) (nw_tables s.1) (nw_tables s'.1)
  end.
Proof.
  intros Hs Hseen Hg Hst. pose proof Hg as (phs & Hf & [Hk Ho Hp]).
  assert (Hp' : Forall (remembers known') phs).
  { eapply Forall_impl; [exact Hp|]. intros ph Hph k st Hin. by apply Hs, Hph. }
  assert (Hspawn : forall m, grows m -> back_good known' (s.1, s.2 ++ [m])).
  { intros m Hm. exists (phs ++ [∅]). split; [apply Forall2_app; [done|]; constructor; [by apply obeys_grows|constructor]|].
    constructor; [done|done|]. apply Forall_app. split; [done|]. constructor; [|constructor].
    intros k st Hin. by apply not_elem_of_empty in Hin. }
  assert (Hsame : forall w, nw_tables w = nw_tables s.1 -> back_good known' (w, s.2)).
  { intros w E. exists phs. split; [done|]. by constructor; simpl; rewrite ?E. }
  destruct o as [tid i|q|j st|d|cut|].
  - by eapply back_thread.
  - simpl in Hst. destruct (s.2 !! 0%nat) as [[u|]|]; simplify_eq/=. split; [apply Hspawn, program_grows|by apply same_accounted].
  - simpl in Hst. apply bind_Some in Hst as (cb & _ & Hst). destruct (ended st); simplify_eq/=.
    split; [apply Hspawn, onExit_grows|by apply same_accounted].
  - simpl in Hst. destruct (0 <=? d); simplify_eq/=. split; [by apply Hsame|by apply same_accounted].
  - simpl in Hst. simplify_eq. split; [|done]. exists phs. split; [done|]. constructor; [done| |done]. simpl.
    clear -Ho. induction (history s.1) as [|h hs IH]; simpl in *; [done|]. apply NoDup_cons in Ho as [Hn Ho].
    destruct (negb _); [|by apply IH]. simpl. constructor; [|by apply IH].
    rewrite list_elem_of_fmap in *. intros (h' & E & Hh'). apply Hn. exists h'. split; [done|].
    apply list_elem_of_In, filter_In in Hh' as [Hh' _]. by apply list_elem_of_In.
  - simpl in Hst. simplify_eq. split; [|by apply same_accounted]. exists [∅]. split; [constructor; [apply obeys_grows, boot_grows|constructor]|].
    constructor; [done|done|]. constructor; [|constructor]. intros k st Hin. by apply not_elem_of_empty in Hin.
Qed.

(** The statuses that a notebook's row had while these steps were made. *)
Definition shown (now : Z) (ops : list op) (k : skey) (status : string) : Prop :=
  exists n s nb, exec (take n ops) (start cfg now) = Some s /\ servers s.1 !! k = Some nb /\ sv_Status nb = status.

Lemma exec_snoc ops o s s' : exec (ops ++ [o]) s = Some s' -> exists s1, exec ops s = Some s1 /\ step o s1 = Some s'.
Proof.
  revert s; induction ops as [|o1 ops IH]; intros s; cbn [app NotebookWorld.exec].
  - intros H. apply bind_Some in H as (s1 & H & [= <-]). eauto.
  - intros H. apply bind_Some in H as (s1 & H1 & H). apply IH in H as (s2 & H2 & H). exists s2. split; [|done].
    cbn [NotebookWorld.exec]. by rewrite H1.
Qed.

Lemma shown_snoc now ops o k st : shown now ops k st -> shown now (ops ++ [o]) k st.
Proof.
  intros (n & s & nb & Hs & H). exists (n `min` List.length ops)%nat, s, nb. split; [|done].
  by rewrite <- firstn_firstn, take_app_length.
Qed.

Lemma shown_now now ops s : exec ops (start cfg now) = Some s -> forall k nb, servers s.1 !! k = Some nb -> shown now ops k (sv_Status nb).
Proof. intros Hs k nb Hk. exists (List.length ops), s, nb. by rewrite firstn_all. Qed.

Lemma back_run now ops s : exec ops (start cfg now) = Some s -> back_good (shown now ops) s.
Proof.
  revert s; induction ops as [|o ops IH] using rev_ind; intros s Hs.
  - simpl in Hs. simplify_eq. exists [∅]. split; [constructor; [apply obeys_grows, boot_grows|constructor]|].
    constructor; [intros k nb Hk; exfalso; exact (lookup_empty_Some (M := gmap skey) k nb Hk)|constructor|]. constructor; [|constructor].
    intros k st Hin. by apply not_elem_of_empty in Hin.
  - apply exec_snoc in Hs as (s1 & H1 & Ho). eapply back_step; [|..|exact Ho].
    + apply shown_snoc.
    + intros k nb Hk. eapply shown_snoc, shown_now; eauto.
    + by apply IH.
Qed.

End History.

