(* ===== verification/NotebookDemo.v ===== *)
(** * Notebook servers: concrete runs

    The theorems at concrete runs of a bare-metal installation, and runs in which
    the code does not do what it means to. *)

From stdpp Require Import pretty.
From S2P Require Import Prelude Prog Pipeline NotebookModel NotebookManager NotebookShell NotebookDriver NotebookWorld NotebookPortsInv NotebookHistory.
From stdpp Require Import options.
#[local] Open Scope string_scope.
#[local] Open Scope Z_scope.
#[local] Open Scope list_scope.

(** ** Scripts *)

Definition demoSteps : list NotebookPrepareStep := [mkPrepareStep "command" "" ["pip"; "install"; "it's $HOME; rm -rf *"; ""]].

Lemma launch_script_roundtrip_witness :
  exists script, BuildLaunchScript ["umask 0000"] demoSteps ["jupyter"; "lab"] "/data/my dir" = Ok script /\
    readScript script = Some [["set"; "-e"]; ["umask"; "0000"]; ["cd"; "/data/my dir"];
      ["pip"; "install"; "it's $HOME; rm -rf *"; ""]; ["exec"; "jupyter"; "lab"]].
Proof.
  eexists. split; [vm_compute; reflexivity|].
  apply (launch_script_roundtrip ["umask 0000"] [["umask"; "0000"]] demoSteps ["jupyter"; "lab"] "/data/my dir");
    [repeat constructor; reflexivity|repeat constructor; reflexivity|repeat constructor; reflexivity|reflexivity].
Defined.

(** A first word that is an assignment or a reserved word to the shell stays one: it
    is safe text and gets no quotes, so another command runs, or none. *)
Example assignment_is_not_quoted :
  shellJoin ["PIP_INDEX_URL=http://mirror"; "pip"] = "PIP_INDEX_URL=http://mirror pip" /\
  shellJoin ["if"; "pip"] = "if pip" /\
  plainCommand ["PIP_INDEX_URL=http://mirror"; "pip"] = false /\ plainCommand ["if"; "pip"] = false.
Proof. repeat split; reflexivity. Qed.

(** ** An installation *)

Definition demoConfig : NbConfig := mkNbConfig "piper-notebook-runtime" "baremetal" "/nb" "8888-8889" false.
Definition demoNotebook (name : string) : Notebook :=
  mkNotebook (mkTypeMeta APIVersionV1 "Notebook") (mkObjectMeta name 0 "" ∅ "" [])
    (mkNotebookSpec (mkSpecOptions [] 0) None None (mkDriver "" None None None)).
Definition demoText (e : nbErr) : string := match e with NMsg m => m | _ => "error" end.

(** A manifest's text is its name. *)
Abbreviation demoStep := (step demoConfig "baremetal" (fun y => Some (demoNotebook y)) demoText).
Abbreviation demoExec := (exec demoConfig "baremetal" (fun y => Some (demoNotebook y)) demoText).

(** What the world answers when all goes well. *)
Definition answer (tid : nat) (c : ncall) : nchoice :=
  match c with
  | NListen _ => NFree true
  | NNewID => NText ("id" +:+ pretty tid)
  | NResolveEnv _ _ => NTexts (Ok [])
  | NRtStart _ => NStarted (Ok (mkStarted 7 "" ""))
  | NRtStop _ => NUnit (Ok tt)
  | NRtRecover => NHandles (Ok [])
  | _ => NDone
  end.

(** Up to [n] calls of a thread with these answers; or one step. *)
Inductive cmd : Type := Go (tid n : nat) | Do (o : op).

Fixpoint advance (n tid : nat) (s : NWorld * list (N unit)) : list op * (NWorld * list (N unit)) :=
  match n, s.2 !! tid with
  | S n, Some (Call c k) =>
      match demoStep (OThread tid (answer tid c)) s with
      | Some s' => let '(l, s') := advance n tid s' in (OThread tid (answer tid c) :: l, s')
      | None => ([], s)
      end
  | _, _ => ([], s)
  end.

Fixpoint ops_of (cs : list cmd) (s : NWorld * list (N unit)) : list op :=
  match cs with
  | [] => []
  | Go tid n :: cs => let '(l, s') := advance n tid s in l ++ ops_of cs s'
  | Do o :: cs => o :: match demoStep o s with Some s' => ops_of cs s' | None => [] end
  end.

Abbreviation demoStart := (start demoConfig 100).
Definition demo (cs : list cmd) : list op := ops_of (Go 0 9 :: cs) demoStart.
Definition state_of (cs : list cmd) : NWorld * list (N unit) := default demoStart (demoExec (demo cs) demoStart).

(** A notebook is created by thread 1, provisioned by 2 and started by 3. *)
Definition created : list cmd := [Do (ORequest (RCreate "u" "p" "" "nb")); Go 1 50; Go 2 50].
Definition started : list cmd := created ++ [Go 3 50].

Definition row (name : string) (s : NWorld * list (N unit)) : option (string * string * string) :=
  (fun nb => (sv_Status nb, sv_Endpoint nb, sv_Token nb)) <$> nt_servers (nw_tables s.1) !! ("p", name).
Definition past (s : NWorld * list (N unit)) : list (string * string * string * Z) :=
  map (fun h => (nh_Name h, nh_Status h, nh_Reason h, nh_DeployedAt h)) (nt_history (nw_tables s.1)).
Definition active (s : NWorld * list (N unit)) : list (string * Z) :=
  map (fun kv => (kv.1, ac_port kv.2)) (map_to_list (dn_notebooks (nw_driver s.1))).

Definition endpoint : string := "http://127.0.0.1:8888".

Example started_runs :
  let s := state_of started in
  row "nb" s = Some ("running", endpoint, "id2") /\ active s = [("p:nb", 8888)] /\ nw_calls s.1 = [RtStarted "p__nb"].
Proof. vm_compute. split_and!; reflexivity. Qed.

Definition stopped : list cmd := started ++ [Do (OTick 5); Do (ORequest (RStop "p" "nb")); Go 4 50].

Example stopped_is_recorded :
  let s := state_of stopped in
  row "nb" s = Some ("stopped", "", "") /\ past s = [("nb", "stopped", "", 100)] /\ active s = [].
Proof. vm_compute. split_and!; reflexivity. Qed.

(** ** The theorems at such runs *)

Definition twoNotebooks : list cmd :=
  started ++ [Do (ORequest (RCreate "u" "p" "" "other")); Go 4 50; Go 5 50; Go 6 50].

Lemma ports_exclusive_witness :
  active (state_of twoNotebooks) = [("p:other", 8889); ("p:nb", 8888)] /\
  let d := nw_driver (state_of twoNotebooks).1 in
  (forall key key' a a', dn_notebooks d !! key = Some a -> dn_notebooks d !! key' = Some a' -> 0 < ac_port a ->
     ac_port a = ac_port a' -> key = key') /\
  (forall key a, dn_notebooks d !! key = Some a -> 0 < ac_port a -> ac_port a ∈ dn_reserved d) /\
  (Forall (fun m => exists u, m = Ret u) (state_of twoNotebooks).2 ->
     forall p, p ∈ dn_reserved d -> exists key a, dn_notebooks d !! key = Some a /\ ac_port a = p).
Proof.
  split; [vm_compute; reflexivity|].
  apply (ports_exclusive demoConfig "baremetal" (fun y => Some (demoNotebook y)) demoText (demo twoNotebooks) 100 (state_of twoNotebooks)).
  vm_compute. reflexivity.
Defined.

(** Started again after a stop, and about to record that it exited with an error. *)
Definition secondRun : list cmd :=
  stopped ++ [Do (OTick 5); Do (ORequest (RRestart "p" "nb")); Go 5 50; Go 6 50; Go 7 50; Do (OTick 5); Do (OExit 0 "failed"); Go 8 2].
Definition ending : op := OThread 8 NDone.
Definition ended_ : NWorld * list (N unit) := default demoStart (demoStep ending (state_of secondRun)).


(** A purge takes the row of the first run. *)
Example first_run_purged :
  past (state_of (secondRun ++ [Do ending; Do (OPurge 110)])) =
  [("nb", "failed", "notebook server exited with an error; see its logs", 110)].
Proof. vm_compute. reflexivity. Qed.

(** ** Where the code does not do what it means to *)

(** Stopped while the start still goes on in the background: the runtime is asked
    to stop before it starts, and then starts. The notebook is shown stopped, no
    one tracks the workload, and its port is free for another. *)
Definition stopWhileStarting : list cmd := created ++ [Do (ORequest (RStop "p" "nb")); Go 4 50; Go 3 50].

Example stop_while_starting_orphans :
  let s := state_of stopWhileStarting in
  row "nb" s = Some ("stopped", "", "") /\ active s = [] /\ dn_reserved (nw_driver s.1) = ∅ /\
  nw_calls s.1 = [RtStarted "p__nb"; RtStopped "p__nb"].
Proof. vm_compute. split_and!; reflexivity. Qed.

(** The same with a deletion: nothing is left that could stop the workload. *)
Example delete_while_starting_orphans :
  let s := state_of (created ++ [Do (ORequest (RDelete "p" "nb")); Go 4 50; Go 3 50]) in
  row "nb" s = None /\ active s = [] /\ head (nw_calls s.1) = Some (RtStarted "p__nb").
Proof. vm_compute. split_and!; reflexivity. Qed.

(** Stopping a failed notebook rewrites how its run ended. *)
Definition failedRun : list cmd := started ++ [Do (OExit 0 "failed"); Go 4 50].

Example stop_rewrites_failure :
  past (state_of failedRun) = [("nb", "failed", "notebook server exited with an error; see its logs", 100)] /\
  past (state_of (failedRun ++ [Do (ORequest (RStop "p" "nb")); Go 5 50])) = [("nb", "stopped", "", 100)].
Proof. vm_compute. split; reflexivity. Qed.

(** A workload that exits with an error because it was told to stop, and reports
    before the driver does: the run a user stopped is recorded as failed. *)
Example stop_recorded_as_failure :
  past (state_of (started ++ [Do (ORequest (RStop "p" "nb")); Go 4 4; Do (OExit 0 "failed"); Go 5 50; Go 4 50])) =
  [("nb", "failed", "notebook server exited with an error; see its logs", 100)].
Proof. vm_compute. reflexivity. Qed.

(** A start that fails between the read and the write of [provisionAndStart]: the
    write puts the old status, the endpoint and the token back. The run is over,
    the notebook is shown starting, and a restart does nothing. *)
Definition lateFailure : list cmd :=
  [Do (ORequest (RCreate "u" "p" "" "nb")); Go 1 50; Go 2 10; Go 3 1;
   Do (OThread 3 (NStarted (Err (NMsg "no python")))); Go 3 50; Go 2 50].

Example failed_start_shown_starting :
  let s := state_of lateFailure in
  row "nb" s = Some ("starting", endpoint, "id2") /\ past s = [("nb", "failed", "no python", 100)] /\ active s = [] /\
  row "nb" (state_of (lateFailure ++ [Do (ORequest (RRestart "p" "nb")); Go 4 50])) = row "nb" s.
Proof. vm_compute. split_and!; reflexivity. Qed.

(** A deletion that read the status before a restart removes the row of the run
    that the restart began: the workload runs on, and its end is nowhere recorded. *)
Definition deleteRacesRestart : list cmd :=
  stopped ++ [Do (OTick 5); Do (ORequest (RDelete "p" "nb")); Go 5 5; Do (ORequest (RRestart "p" "nb")); Go 6 50; Go 7 50; Go 8 50;
              Go 5 50].

Example run_lost_by_delete :
  let s := state_of deleteRacesRestart in
  row "nb" s = None /\ active s = [("p:nb", 8888)] /\
  past (state_of (deleteRacesRestart ++ [Do (OExit 0 "failed"); Go 9 50])) = [("nb", "stopped", "", 100)].
Proof. vm_compute. split_and!; reflexivity. Qed.

(** [provisionAndStart] reads the row of a run that failed, and writes it back when
    the next run has begun: that run is shown failed for the first one's reason, and
    its own end, for another reason, finds it ended already and is not recorded. *)
Definition writtenBack : list cmd :=
  [Do (ORequest (RCreate "u" "p" "" "nb")); Go 1 50; Go 2 9; Go 3 1; Do (OThread 3 (NStarted (Err (NMsg "no python")))); Go 3 50; Go 2 1;
   Do (OTick 5); Do (ORequest (RRestart "p" "nb")); Go 4 50; Go 2 50; Go 5 50; Go 6 1; Do (OThread 6 (NStarted (Err (NMsg "no disk")))); Go 6 50].

Example end_lost_by_write_back :
  let s := state_of writtenBack in
  ((fun nb => (sv_Status nb, sv_Reason nb, sv_StartedAt nb)) <$> nt_servers (nw_tables s.1) !! ("p", "nb")) = Some ("failed", "no python", 105) /\
  past s = [("nb", "failed", "no python", 100)] /\ active s = [].
Proof. vm_compute. split_and!; reflexivity. Qed.

(** A start on an existing volume that fails releases the volume, and the failed
    notebook keeps its name. Another notebook takes the volume; deleting the
    failed one releases it under the other, and a purge removes its files. *)
Definition released : list cmd := started ++ [Do (ORequest (RDelete "p" "nb")); Go 4 50].
Definition failsOnVolume : list cmd :=
  released ++ [Do (ORequest (RCreate "u" "p" "id1" "a")); Go 5 50; Go 6 1; Do (OThread 6 (NFree false)); Do (OThread 6 (NFree false)); Go 6 50].
Definition takenByOther : list cmd :=
  failsOnVolume ++ [Do (ORequest (RCreate "u" "p" "id1" "b")); Go 7 50; Go 8 50; Go 9 50].
Definition purgedUnderOther : list cmd :=
  takenByOther ++ [Do (ORequest (RDelete "p" "a")); Go 10 50; Do (ORequest (RPurge "p" "id1")); Go 11 50].

Example volume_purged_while_in_use :
  row "b" (state_of takenByOther) = Some ("running", endpoint, "id8") /\ nw_dirs (state_of takenByOther).1 = {["/nb/id1"]} /\
  let s := state_of purgedUnderOther in
  row "b" s = Some ("running", endpoint, "id8") /\ active s = [("p:b", 8888)] /\
  nw_dirs s.1 = ∅ /\ nt_volumes (nw_tables s.1) = ∅.
Proof. vm_compute. split_and!; reflexivity. Qed.

(** Two requests that both read a released volume bind it to two notebooks. *)
Example volume_bound_twice :
  let s := state_of (released ++ [Do (ORequest (RCreate "u" "p" "id1" "a")); Do (ORequest (RCreate "u" "p" "id1" "b")); Go 5 1; Go 6 1;
                                  Go 5 50; Go 6 50]) in
  (sv_VolumeID <$> nt_servers (nw_tables s.1) !! ("p", "a")) = Some "id1" /\
  (sv_VolumeID <$> nt_servers (nw_tables s.1) !! ("p", "b")) = Some "id1".
Proof. vm_compute. split; reflexivity. Qed.

(** A notebook for Kubernetes on an existing volume needs no volume size; the
    restart parses its manifest as if it were to provision one, and refuses it. *)
Definition k8sNotebook : Notebook :=
  mkNotebook (mkTypeMeta APIVersionV1 "Notebook") (mkObjectMeta "nb" 0 "" ∅ "" [])
    (mkNotebookSpec (mkSpecOptions [] 0) None None
       (mkDriver "k8s" (Some (mkK8s "img" "ns" 1 "" (mkResourceSpec "" "" "") ANil)) None None)).

Example existing_volume_cannot_restart :
  parseNotebook (fun _ => Some k8sNotebook) true "yaml" = Ok k8sNotebook /\
  storedSpec (fun _ => Some k8sNotebook) (newServer "u" "p" "nb" StatusStopped "v1" "yaml") =
    Err (NWrap "notebook: parse stored manifest" NVolumeSize).
Proof. split; reflexivity. Qed.
