(* ===== verification/AccessModel.v ===== *)
(** * Access: users, sessions, projects, calls

    The data of [pkg/auth], [pkg/security] and [pkg/project]: users with their
    password hashes ([hash.go]), sessions, memberships and roles, projects, what a
    request carries and what an answer says, and the calls through which the
    provider and the handlers reach the tables, the clock and the random source. *)

From S2P Require Import Prelude Prog.
From stdpp Require Import options.
#[local] Open Scope Z_scope.
#[local] Open Scope string_scope.

(** ** Rows *)

Record User := mkUser {
  us_ID : string; us_Username : string; us_PasswordHash : string; us_SystemAdmin : bool; us_Disabled : bool;
  us_CreatedAt : Z; us_UpdatedAt : Z }.

Record Session := mkSession {
  ss_ID : string; ss_UserID : string; ss_RefreshTokenHash : string; ss_ExpiresAt : Z; ss_RevokedAt : option Z;
  ss_CreatedAt : Z; ss_LastUsedAt : Z }.

Record LoginAttempt := mkLoginAttempt {
  la_ID : string; la_UserID : string; la_Username : string; la_Success : bool; la_FailureReason : string; la_AttemptedAt : Z }.

Record ProjectMember := mkMember { mb_ProjectID : string; mb_UserID : string; mb_Role : string; mb_CreatedAt : Z; mb_UpdatedAt : Z }.

(** The zero [CreatedAt] is [None]. *)
Record Project := mkProject {
  pj_ID : string; pj_Name : string; pj_Description : string; pj_OwnerMemberID : string; pj_CreatedAt : option Z; pj_UpdatedAt : Z }.

(** ** Identities and roles *)

Record Identity := mkIdentity { id_ID : string; id_DisplayName : string; id_Username : string; id_SystemAdmin : bool }.

(** [ProjectRole]: the constants count from 1; 0 comes with an error. *)
Definition ProjectRoleViewer : Z := 1.
Definition ProjectRoleMember : Z := 2.
Definition ProjectRoleAdmin : Z := 3.

Definition roleStringToProjectRole (role : string) : Z :=
  if String.eqb role "admin" then ProjectRoleAdmin
  else if String.eqb role "member" then ProjectRoleMember
  else ProjectRoleViewer.

Definition DefaultID : string := "default".
Definition SystemID : string := "system".
Definition Reserved (id : string) : bool := String.eqb id SystemID.

(** [^[a-z0-9][a-z0-9-]{0,62}$] *)
Definition lowerDigit (c : ascii) : bool :=
  let n := nat_of_ascii c in ((Nat.leb 97 n && Nat.leb n 122) || (Nat.leb 48 n && Nat.leb n 57))%bool.
Definition validProjectID (id : string) : bool :=
  match id with
  | "" => false
  | String c rest =>
      (lowerDigit c && forallb (fun c => lowerDigit c || Ascii.eqb c "-"%char)%bool (String.list_ascii_of_string rest) &&
       Nat.leb (String.length rest) 62)%bool
  end.

(** [project.Context]: what the middleware resolved. *)
Record ProjectContext := mkContext { pc_ID : string; pc_OwnerMemberID : string; pc_Role : Z }.

Definition userToIdentity (u : User) : Identity := mkIdentity (us_ID u) "" (us_Username u) (us_SystemAdmin u).

(** [security.User] *)
Record UserInfo := mkUserInfo { ui_ID : string; ui_Username : string; ui_DisplayName : string; ui_SystemAdmin : bool; ui_Disabled : bool }.
Definition userView (u : User) : UserInfo := mkUserInfo (us_ID u) (us_Username u) "" (us_SystemAdmin u) (us_Disabled u).

(** ** Passwords and tokens *)

(** [encoding/hex] *)
Fixpoint hexEncode (s : string) : string :=
  match s with
  | "" => ""
  | String c s =>
      String (hexDigit (Nat.div (nat_of_ascii c) 16)) (String (hexDigit (Nat.modulo (nat_of_ascii c) 16)) (hexEncode s))
  end.

Definition fromHex (c : ascii) : option nat :=
  let n := nat_of_ascii c in
  if (Nat.leb 48 n && Nat.leb n 57)%bool then Some (n - 48)%nat
  else if (Nat.leb 97 n && Nat.leb n 102)%bool then Some (n - 87)%nat
  else if (Nat.leb 65 n && Nat.leb n 70)%bool then Some (n - 55)%nat
  else None.

Fixpoint hexDecode (s : string) : option string :=
  match s with
  | "" => Some ""
  | String a (String b s) => x ← fromHex a; y ← fromHex b; t ← hexDecode s; Some (String (ascii_of_nat (16 * x + y)) t)
  | String _ "" => None
  end.

(** [fmt.Sscanf(s, "%s")] succeeds: a token follows the spaces of the line. *)
Fixpoint scansToken (fuel : nat) (s : string) : bool :=
  match fuel, s with
  | O, _ | _, "" => false
  | S fuel, String c _ =>
      if Ascii.eqb c "010"%char then false
      else match drop_space_rune s with Some s => scansToken fuel s | None => true end
  end.

Definition hashPrefix : string := "argon2id$".
Definition dollar : ascii := "$"%char.

(** The comparison that looks at every byte. *)
Definition sameBytes (a b : string) : bool :=
  N.eqb (foldl (fun diff p => N.lor diff (N.lxor (N_of_ascii p.1) (N_of_ascii p.2))) 0%N
           (combine (String.list_ascii_of_string a) (String.list_ascii_of_string b))) 0%N.

Section Hash.

(** [argon2.IDKey] with the parameters of the code: password, salt. *)
Context (argon2 : string -> string -> string).

(** [hashPassword], for the salt that the random source gave. *)
Definition encodePassword (password salt : string) : string :=
  hashPrefix +:+ (hexEncode salt +:+ String dollar (hexEncode (argon2 password salt))).

Definition verifyPassword (password encoded : string) : bool :=
  if negb (String.prefix hashPrefix encoded && scansToken (String.length encoded) (str_drop (String.length hashPrefix) encoded)) then false
  else if Nat.leb (String.length encoded) (String.length hashPrefix) then false
  else
    let rest := str_drop (String.length hashPrefix) encoded in
    match str_index dollar rest with
    | None => false
    | Some i =>
        match hexDecode (str_take i rest), hexDecode (str_drop (S i) rest) with
        | Some salt, Some expected =>
            let actual := argon2 password salt in
            (Nat.eqb (String.length actual) (String.length expected) && sameBytes actual expected)%bool
        | _, _ => false
        end
    end.

End Hash.

(** [jwtClaims] *)
Record jwtClaims := mkClaims {
  cl_UserID : string; cl_Username : string; cl_SystemAdmin : bool; cl_Issuer : string; cl_Subject : string;
  cl_IssuedAt : Z; cl_ExpiresAt : Z }.

(** [Config], after [withDefaults]; the signing key belongs to the token codec. *)
Record AuthConfig := mkAuthConfig { ac_Issuer : string; ac_AccessTTL : Z; ac_RefreshTTL : Z }.
Definition withDefaults (c : AuthConfig) : AuthConfig :=
  mkAuthConfig (if String.eqb (ac_Issuer c) "" then "piper" else ac_Issuer c)
    (if (ac_AccessTTL c =? 0)%Z then (15 * time_Minute)%Z else ac_AccessTTL c)
    (if (ac_RefreshTTL c =? 0)%Z then (7 * 24 * 60 * time_Minute)%Z else ac_RefreshTTL c).

Record LoginResult := mkLoginResult { lr_AccessToken : string; lr_RefreshToken : string; lr_ExpiresAt : Z; lr_User : User }.

Record CreateUserInput := mkUserInput { ci_Username : string; ci_Password : string; ci_SystemAdmin : bool }.

(** ** Requests and answers *)

(** What the middleware and the session routes read of a request: the header
    [Authorization] ("" when absent), the two cookies, and the [refresh_token] of a
    body that is JSON. *)
Record Request := mkRequest {
  rq_Authorization : string; rq_AccessCookie : option string; rq_RefreshCookie : option string; rq_BodyToken : option string }.

Record userViewDTO := mkUserDTO { ud_ID : string; ud_Username : string; ud_SystemAdmin : bool; ud_Disabled : bool }.
Record membershipView := mkMembershipView { mv_ProjectID : string; mv_UserID : string; mv_Role : string }.
Record memberView := mkMemberView { mw_ProjectID : string; mw_UserID : string; mw_Username : string; mw_Role : string }.

Definition persistedUserView (u : User) : userViewDTO := mkUserDTO (us_ID u) (us_Username u) (us_SystemAdmin u) (us_Disabled u).
Definition securityUserView (u : UserInfo) : userViewDTO := mkUserDTO (ui_ID u) (ui_Username u) (ui_SystemAdmin u) (ui_Disabled u).

Inductive body : Type :=
| BNone
| BError (msg : string)
| BUser (u : userViewDTO)
| BUsers (l : list userViewDTO)
| BMemberships (l : list membershipView)
| BMember (m : memberView)
| BMembers (l : list memberView)
| BCandidates (l : list string)
| BProject (p : Project)
| BProjects (l : list Project)
| BRequired (b : bool)
| BAdmitted (c : ProjectContext).   (* a handler of another package was reached *)

(** The access and the refresh token that the answer's cookies carry, cleared,
    or no cookies. *)
Inductive cookies : Type := CKeep | CClear | CSet (access refresh : string).

(** The status, the body, [X-Total-Count], the cookies. *)
Record response := mkResponse { rs_Code : Z; rs_Body : body; rs_Total : option Z; rs_Cookies : cookies }.

Definition JSON (code : Z) (b : body) : response := mkResponse code b None CKeep.
Definition RespondUnauthorized (msg : string) : response :=
  JSON 401 (BError (if String.eqb msg "" then "authentication required" else msg)).
Definition RespondForbidden (msg : string) : response := JSON 403 (BError msg).
(** [httpx.InternalError]; the reference to the log is left out. *)
Definition InternalError (msg : string) : response := JSON 500 (BError (if String.eqb msg "" then "internal error" else msg)).

Record projectRequest := mkProjectRequest { pq_ID : string; pq_Name : string; pq_Description : string; pq_OwnerMemberID : string }.

(** The routes of sessions, users, projects and members; [RProject] stands for the
    routes of other packages under a project, [RSystem] for those of system
    credentials, each with the role it requires. *)
Inductive route : Type :=
| RLogin (req : res string (string * string))
| RRefresh
| RLogout
| RMe
| RBootstrapStatus
| RBootstrap (req : res string (string * string))
| RUsers (limit offset : nat)
| RUserMemberships (id : string)
| RCreateUser (req : res string CreateUserInput)
| RDeleteUser (id : string)
| RProjects
| RProjectGet (id : string)
| RProjectCreate (req : res string projectRequest)
| RProjectDelete (id : string)
| RMembers (id : string) (limit offset : nat)
| RCandidates (id : string)
| RAddMember (id : string) (req : res string (string * string * string))
| RUpdateMember (id userID : string) (req : res string string)
| RRemoveMember (id userID : string)
| RProject (id : string) (minRole : Z)
| RSystem (minRole : Z)
| REvents (filterProject : string)
| RMetrics
| RWorkload.

(** What a client got for its request. *)
Record answer := mkAnswer { an_Thread : nat; an_Request : Request; an_Route : route; an_Response : response }.

(** ** Calls *)

Inductive acall : Type :=
| AUserCreate (u : User)
| AUserByID (id : string)
| AUserByUsername (username : string)
| AUserList (limit offset : nat)
| AUserCount
| AUserDelete (id : string)
| AMemberAdd (m : ProjectMember)
| AMemberGet (projectID userID : string)
| AMembersByUser (userID : string)
| AMembersByProject (projectID : string) (limit offset : nat)
| AMemberCount (projectID : string)
| AMemberUpdate (m : ProjectMember)
| AMemberRemove (projectID userID : string)
| ASessionCreate (s : Session)
| ASessionByHash (hash : string)
| ASessionRevoke (id : string) (at_ : Z)
| ASessionRevokeAll (userID : string)
| ARecordLogin (a : LoginAttempt)
| AProjectGet (id : string)
| AProjectList
| AProjectCreate (p : Project)
| AProjectDelete (id : string)
| ABeforeDelete (p : Project)          (* the clean-up before a deletion *)
| ANow
| AUUID
| ARandom (n : nat)                    (* [rand.Read] *)
| ALockBootstrap
| AUnlockBootstrap
| ARespond (q : Request) (t : route) (r : response).

(** Errors are their texts; that of a clean-up also tells whether the statistics
    backend was unavailable. *)
Definition areply (c : acall) : Type :=
  match c with
  | AUserCreate _ | AUserDelete _ | AMemberAdd _ | AMemberUpdate _ | AMemberRemove _ _ | ASessionCreate _
  | ASessionRevoke _ _ | ASessionRevokeAll _ | ARecordLogin _ | AProjectDelete _ => res string unit
  | AProjectCreate _ => res string Project   (* with the times the repository sets *)
  | AUserByID _ | AUserByUsername _ => res string (option User)
  | AUserList _ _ => res string (list User)
  | AUserCount | AMemberCount _ => res string Z
  | AMemberGet _ _ => res string (option ProjectMember)
  | AMembersByUser _ | AMembersByProject _ _ _ => res string (list ProjectMember)
  | ASessionByHash _ => res string (option Session)
  | AProjectGet _ => res string (option Project)
  | AProjectList => res string (list Project)
  | ABeforeDelete _ => res (string * bool) unit
  | ANow => Z
  | AUUID => string
  | ARandom _ => res string string
  | ALockBootstrap | AUnlockBootstrap | ARespond _ _ _ => unit
  end.

Abbreviation A := (prog areply).
Definition invoke (c : acall) : A (areply c) := perform c.

(** [fmt.Errorf("prefix: %w", err)] *)
Definition wrapErr {X} (prefix : string) (r : res string X) : res string X :=
  match r with Ok x => Ok x | Err e => Err (prefix +:+ ": " +:+ e) end.
Definition wrapping {X} (prefix : string) (m : A (res string X)) : A (res string X) := r ← m; Ret (wrapErr prefix r).
