(* ===== verification/AccessProvider.v ===== *)
(** * Access: the built-in provider

    Authentication, sessions, users and memberships ([pkg/auth/provider.go],
    [jwt.go], [hash.go]) as programs over the calls of [AccessModel], and the
    interface through which the handlers ask for authorization
    ([security.Authorizer]). *)

From S2P Require Import Prelude Prog AccessModel.
From stdpp Require Import options.
#[local] Open Scope Z_scope.
#[local] Open Scope string_scope.

(** [security.Authorizer]; a map that is nil is [None]. *)
Record Authorizer := mkAuthorizer {
  ListProjectRoles : option Identity -> A (res string (option (gmap string Z)));
  ProjectRole : option Identity -> string -> A (res string Z);
  AuthorizeSystem : option Identity -> A (res string unit) }.

(** [security.Authenticator]: no identity for an anonymous request. *)
Definition Authenticator : Type := Request -> A (res string (option Identity)).

Section Provider.

(** The configuration; [strings.ToLower]; the key derivation; the hexadecimal
    SHA-256; the codec of access tokens with the signing key, whose parser is given
    the time. *)
Context (cfg : AuthConfig) (ToLower : string -> string) (argon2 : string -> string -> string) (SHA256Hex : string -> string).
Context (signToken : jwtClaims -> res string string) (parseToken : Z -> string -> res string jwtClaims).

(** ** Authentication, authorization *)

Definition bearerToken (r : Request) : string :=
  if String.prefix "Bearer " (rq_Authorization r) then str_drop 7 (rq_Authorization r) else "".

Definition Authenticate (r : Request) : A (res string (option Identity)) :=
  let token := bearerToken r in
  let token := if String.eqb token "" then default "" (rq_AccessCookie r) else token in
  if String.eqb token "" then Ret (Ok None)
  else
    now ← invoke ANow;
    match parseToken now token with
    | Err e => Ret (Err ("invalid access token: " +:+ e))
    | Ok claims =>
        u ← invoke (AUserByID (cl_UserID claims));
        Ret match u with
            | Ok (Some u) => if us_Disabled u then Err "user not found or disabled" else Ok (Some (userToIdentity u))
            | _ => Err "user not found or disabled"
            end
    end.

Definition rolesOf (l : list ProjectMember) : gmap string Z :=
  foldl (fun roles m => <[mb_ProjectID m := roleStringToProjectRole (mb_Role m)]> roles) ∅ l.

Definition listProjectRoles (identity : option Identity) : A (res string (option (gmap string Z))) :=
  match identity with
  | None => Ret (Ok None)
  | Some identity =>
      if id_SystemAdmin identity then Ret (Ok None)
      else memberships ←! invoke (AMembersByUser (id_ID identity)); Ret (Ok (Some (rolesOf memberships)))
  end.

Definition projectRole (identity : option Identity) (projectID : string) : A (res string Z) :=
  match identity with
  | None => Ret (Err "authentication required")
  | Some identity =>
      if id_SystemAdmin identity then Ret (Ok ProjectRoleAdmin)
      else
        m ← invoke (AMemberGet projectID (id_ID identity));
        Ret match m with
            | Ok (Some m) => Ok (roleStringToProjectRole (mb_Role m))
            | _ => Err ("no access to project " +:+ Quote projectID)
            end
  end.

Definition authorizeSystem (identity : option Identity) : A (res string unit) :=
  Ret match identity with
      | None => Err "authentication required"
      | Some identity => if id_SystemAdmin identity then Ok tt else Err "system admin access required"
      end.

Definition provider : Authorizer := mkAuthorizer listProjectRoles projectRole authorizeSystem.

(** ** Sessions *)

Definition claimsFor (u : User) (now : Z) : jwtClaims :=
  mkClaims (us_ID u) (us_Username u) (us_SystemAdmin u) (ac_Issuer cfg) (us_ID u) now (now + ac_AccessTTL cfg)%Z.

Definition issueAccessToken (u : User) : A (res string string) :=
  now ← invoke ANow; Ret (signToken (claimsFor u now)).

Definition randomToken (length : nat) : A (res string string) :=
  b ←! wrapping "generate token" (invoke (ARandom length)); Ret (Ok (hexEncode b)).

Definition hashToken (token : string) : string := SHA256Hex token.

Definition newSession (u : User) (id refreshToken : string) (now : Z) : Session :=
  mkSession id (us_ID u) (hashToken refreshToken) (now + ac_RefreshTTL cfg)%Z None now now.

Definition createSession (u : User) : A (res string LoginResult) :=
  accessToken ←! wrapping "issue access token" (issueAccessToken u);
  refreshToken ←! wrapping "generate refresh token" (randomToken 32);
  now ← invoke ANow;
  id ← invoke AUUID;
  let s := newSession u id refreshToken now in
  _ ←! wrapping "create session" (invoke (ASessionCreate s));
  Ret (Ok (mkLoginResult accessToken refreshToken (ss_ExpiresAt s) u)).

Definition Login (username password : string) : A (res string LoginResult) :=
  let username := ToLower (TrimSpace username) in
  id ← invoke AUUID;
  at_ ← invoke ANow;
  let record userID success reason := invoke (ARecordLogin (mkLoginAttempt id userID username success reason at_)) in
  u ← invoke (AUserByUsername username);
  match u with
  | Ok (Some u) =>
      if us_Disabled u then _ ← record (us_ID u) false "account_disabled"; Ret (Err "account disabled")
      else if negb (verifyPassword argon2 password (us_PasswordHash u))
      then _ ← record (us_ID u) false "invalid_credentials"; Ret (Err "invalid credentials")
      else
        result ← createSession u;
        match result with
        | Err e => _ ← record (us_ID u) false "session_creation_failed"; Ret (Err e)
        | Ok r => _ ← record (us_ID u) true ""; Ret (Ok r)
        end
  | _ => _ ← record "" false "invalid_credentials"; Ret (Err "invalid credentials")
  end.

Definition Refresh (refreshToken : string) : A (res string LoginResult) :=
  s ← invoke (ASessionByHash (hashToken refreshToken));
  match s with
  | Ok (Some s) =>
      match ss_RevokedAt s with
      | Some _ => Ret (Err "session revoked")
      | None =>
          now ← invoke ANow;
          if (ss_ExpiresAt s <? now)%Z then Ret (Err "session expired")
          else
            now ← invoke ANow;
            _ ←! wrapping "revoke old session" (invoke (ASessionRevoke (ss_ID s) now));
            u ← invoke (AUserByID (ss_UserID s));
            match u with
            | Ok (Some u) => if us_Disabled u then Ret (Err "user not found or disabled") else createSession u
            | _ => Ret (Err "user not found or disabled")
            end
      end
  | _ => Ret (Err "invalid refresh token")
  end.

Definition Logout (refreshToken : string) : A (res string unit) :=
  s ← invoke (ASessionByHash (hashToken refreshToken));
  match s with
  | Ok (Some s) => now ← invoke ANow; invoke (ASessionRevoke (ss_ID s) now)
  | _ => Ret (Ok tt)
  end.

Definition RevokeAllSessions (userID : string) : A (res string unit) := invoke (ASessionRevokeAll userID).

(** ** Users and memberships *)

Definition hashPassword (password : string) : A (res string string) :=
  salt ←! wrapping "generate salt" (invoke (ARandom 16)); Ret (Ok (encodePassword argon2 password salt)).

Definition hasSpace (s : string) : bool :=
  (str_mem " "%char s || str_mem "009"%char s || str_mem "013"%char s || str_mem "010"%char s)%bool.

Definition CreateUser (input : CreateUserInput) : A (res string UserInfo) :=
  let username := ToLower (TrimSpace (ci_Username input)) in
  if String.eqb username "" then Ret (Err "username is required")
  else if Nat.ltb 128 (String.length username) then Ret (Err "username must be at most 128 characters")
  else if hasSpace username then Ret (Err "username must not contain whitespace")
  else
    hash ←! wrapping "hash password" (hashPassword (ci_Password input));
    now ← invoke ANow;
    id ← invoke AUUID;
    let u := mkUser id username hash (ci_SystemAdmin input) false now now in
    _ ←! wrapping "create user" (invoke (AUserCreate u));
    Ret (Ok (userView u)).

Definition ListUsers (limit offset : nat) : A (res string (list UserInfo)) :=
  users ←! invoke (AUserList limit offset); Ret (Ok (map userView users)).

Definition CountUsers : A (res string Z) := invoke AUserCount.

Definition DeleteUser (id : string) : A (res string unit) :=
  _ ←! wrapping "revoke sessions" (invoke (ASessionRevokeAll id));
  invoke (AUserDelete id).

Definition GetUser (userID : string) : A (res string (option UserInfo)) :=
  user ←! invoke (AUserByID userID); Ret (Ok (userView <$> user)).

Definition FindUser (username : string) : A (res string (option UserInfo)) :=
  user ←! invoke (AUserByUsername (ToLower (TrimSpace username))); Ret (Ok (userView <$> user)).

Definition ListMembers (projectID : string) (limit offset : nat) : A (res string (list ProjectMember)) :=
  invoke (AMembersByProject projectID limit offset).
Definition CountMembers (projectID : string) : A (res string Z) := invoke (AMemberCount projectID).
Definition ListUserMemberships (userID : string) : A (res string (list ProjectMember)) := invoke (AMembersByUser userID).
Definition AddMember (m : ProjectMember) : A (res string unit) := invoke (AMemberAdd m).
Definition GetMember (projectID userID : string) : A (res string (option ProjectMember)) := invoke (AMemberGet projectID userID).
Definition UpdateMember (m : ProjectMember) : A (res string unit) := invoke (AMemberUpdate m).
Definition RemoveMember (projectID userID : string) : A (res string unit) := invoke (AMemberRemove projectID userID).

End Provider.
