(* ===== verification/AccessHandlers.v ===== *)
(** * Access: middleware, handlers, routes

    The middleware that establishes the caller and the project
    ([serve.go], [pkg/project/context.go]), the handlers of sessions and users
    ([pkg/auth/handler.go]), of projects ([pkg/project/handler.go]) and of members
    ([member_handler.go]), and the routes that lead to them ([routes_access.go],
    [serve.go]), as programs. *)

From S2P Require Import Prelude Prog AccessModel AccessProvider.
From stdpp Require Import options.
#[local] Open Scope Z_scope.
#[local] Open Scope string_scope.

(** A middleware passes on what it resolved, or answers. *)
Abbreviation MW R := (A (res response R)).
Definition through {R} (m : MW R) (handler : R -> A response) : A response :=
  r ← m; match r with Err resp => Ret resp | Ok x => handler x end.

(** [httpx.LookupFailed] *)
Definition LookupFailed {R} (r : res string (option R)) (message : string) (k : R -> A response) : A response :=
  match r with
  | Err _ => Ret (InternalError "")
  | Ok None => Ret (JSON 404 (BError message))
  | Ok (Some x) => k x
  end.

(** [httpx.BindJSON]: a body that cannot be read is answered. *)
Definition BindJSON {R} (req : res string R) (k : R -> A response) : A response :=
  match req with Err msg => Ret (JSON 400 (BError msg)) | Ok x => k x end.

(** [httpx.SetTotalCountHeader] *)
Definition withTotal (limit : nat) (total : Z) (r : response) : response :=
  mkResponse (rs_Code r) (rs_Body r) (if Nat.ltb 0 limit then Some total else None) (rs_Cookies r).

(** ** Middleware *)

Section Middleware.

Context (authenticator : option Authenticator) (authorizer : option Authorizer) (WorkloadToken : string).

Definition authenticateUser (r : Request) : MW (option Identity) :=
  match authenticator with
  | None => Ret (Ok None)
  | Some authenticate =>
      identity ← authenticate r;
      Ret match identity with
          | Err e => Err (RespondUnauthorized e)
          | Ok identity => Ok identity
          end
  end.

Definition requireSystemAdmin (identity : option Identity) : MW unit :=
  match authorizer with
  | None => Ret (Ok tt)
  | Some a =>
      match identity with
      | None => Ret (Err (RespondUnauthorized ""))
      | Some _ =>
          r ← AuthorizeSystem a identity;
          Ret match r with Err _ => Err (RespondForbidden "system admin required") | Ok _ => Ok tt end
      end
  end.

(** [project.Require] *)
Definition Require_ (minRole : Z) (identity : option Identity) (projectID : string) : MW ProjectContext :=
  p ← invoke (AProjectGet projectID);
  match p with
  | Err _ => Ret (Err (InternalError ""))
  | Ok None => Ret (Err (JSON 404 (BError "project not found")))
  | Ok (Some p) =>
      match authorizer with
      | None => Ret (Ok (mkContext (pj_ID p) (pj_OwnerMemberID p) ProjectRoleAdmin))
      | Some a =>
          match identity with
          | None => Ret (Err (RespondUnauthorized ""))
          | Some _ =>
              r ← ProjectRole a identity projectID;
              Ret match r with
                  | Ok role =>
                      if (role <? minRole)%Z then Err (RespondForbidden "forbidden")
                      else Ok (mkContext (pj_ID p) (pj_OwnerMemberID p) role)
                  | Err _ => Err (RespondForbidden "forbidden")
                  end
          end
      end
  end.

(** [project.RequireRole], [project.SystemContext] *)
Definition RequireRole (minRole : Z) (c : ProjectContext) : MW unit :=
  Ret (if (pc_Role c <? minRole)%Z then Err (RespondForbidden "insufficient project role") else Ok tt).
Definition SystemContext : ProjectContext := mkContext SystemID "" ProjectRoleAdmin.

Definition workloadTokenMiddleware (r : Request) : MW unit :=
  if String.eqb WorkloadToken "" then Ret (Ok tt)
  else
    let auth := rq_Authorization r in
    if (negb (String.prefix "Bearer " auth) || negb (String.eqb (str_drop 7 auth) WorkloadToken))%bool
    then Ret (Err (RespondUnauthorized "invalid workload token"))
    else Ret (Ok tt).

Definition metricsAuth (r : Request) : MW (option Identity) :=
  if (negb (String.eqb WorkloadToken "") && String.eqb (rq_Authorization r) ("Bearer " +:+ WorkloadToken))%bool
  then Ret (Ok None)
  else
    match authenticator, authorizer with
    | Some authenticate, Some a =>
        identity ← authenticate r;
        match identity with
        | Err _ | Ok None => Ret (Err (RespondUnauthorized "metrics authentication required"))
        | Ok (Some who) =>
            ok ← AuthorizeSystem a (Some who);
            Ret match ok with Err _ => Err (RespondForbidden "system admin required") | Ok _ => Ok (Some who) end
        end
    | _, _ => Ret (Ok None)
    end.

(** The access check of [eventsHandler]. *)
Definition eventsAccess (identity : option Identity) (filterProject : string) : MW unit :=
  match authorizer with
  | None => Ret (Ok tt)
  | Some a =>
      match identity with
      | None => Ret (Err (RespondUnauthorized ""))
      | Some _ =>
          if negb (String.eqb filterProject "") then
            r ← ProjectRole a identity filterProject;
            Ret match r with
                | Ok role => if (role <? ProjectRoleViewer)%Z then Err (RespondForbidden "forbidden") else Ok tt
                | Err _ => Err (RespondForbidden "forbidden")
                end
          else
            r ← AuthorizeSystem a identity;
            Ret match r with
                | Err _ => Err (RespondForbidden "system admin required for global event stream")
                | Ok _ => Ok tt
                end
      end
  end.

End Middleware.

(** ** Sessions and users *)

Section AuthHandlers.

Context (cfg : AuthConfig) (ToLower : string -> string) (argon2 : string -> string -> string) (SHA256Hex : string -> string).
Context (signToken : jwtClaims -> res string string).

Definition refreshTokenFromRequest (r : Request) : string :=
  let cookie := default "" (rq_RefreshCookie r) in
  if negb (String.eqb cookie "") then cookie else default "" (rq_BodyToken r).

Definition setTokenCookies (result : LoginResult) (r : response) : response :=
  mkResponse (rs_Code r) (rs_Body r) (rs_Total r) (CSet (lr_AccessToken result) (lr_RefreshToken result)).
Definition clearTokenCookies (r : response) : response := mkResponse (rs_Code r) (rs_Body r) (rs_Total r) CClear.

Definition login (req : res string (string * string)) : A response :=
  BindJSON req (fun '(username, password) =>
    result ← Login cfg ToLower argon2 SHA256Hex signToken username password;
    Ret match result with
        | Err e => RespondUnauthorized e
        | Ok result => setTokenCookies result (JSON 200 (BUser (persistedUserView (lr_User result))))
        end).

Definition refresh (r : Request) : A response :=
  let refreshToken := refreshTokenFromRequest r in
  if String.eqb refreshToken "" then Ret (RespondUnauthorized "missing refresh token")
  else
    result ← Refresh cfg SHA256Hex signToken refreshToken;
    Ret match result with
        | Err e => clearTokenCookies (RespondUnauthorized e)
        | Ok result => setTokenCookies result (JSON 200 (BUser (persistedUserView (lr_User result))))
        end.

Definition logout (r : Request) (identity : option Identity) : A response :=
  let refreshToken := refreshTokenFromRequest r in
  _ ← (if negb (String.eqb refreshToken "") then Logout SHA256Hex refreshToken
       else match identity with
            | Some identity => RevokeAllSessions (id_ID identity)
            | None => Ret (Ok tt)
            end);
  Ret (clearTokenCookies (JSON 204 BNone)).

Definition me (identity : option Identity) : A response :=
  match identity with
  | None => Ret (RespondUnauthorized "not authenticated")
  | Some identity =>
      u ← GetUser (id_ID identity);
      Ret match u with
          | Ok (Some u) => JSON 200 (BUser (securityUserView u))
          | _ => RespondUnauthorized "user not found"
          end
  end.

Definition listUserMemberships (id : string) : A response :=
  memberships ← ListUserMemberships id;
  Ret match memberships with
      | Err _ => InternalError ""
      | Ok l => JSON 200 (BMemberships (map (fun m => mkMembershipView (mb_ProjectID m) (mb_UserID m) (mb_Role m)) l))
      end.

Definition bootstrapStatus : A response :=
  total ← CountUsers;
  Ret match total with Err _ => InternalError "" | Ok total => JSON 200 (BRequired (total =? 0)%Z) end.

Definition createUser (req : res string CreateUserInput) : A response :=
  BindJSON req (fun input =>
    u ← CreateUser ToLower argon2 input;
    Ret match u with
        | Err e => JSON 400 (BError e)
        | Ok u => JSON 201 (BUser (securityUserView u))
        end).

(** The section under [bootstrapMu]. *)
Definition bootstrapLocked (req : res string (string * string)) : A response :=
  total ← CountUsers;
  match total with
  | Err _ => Ret (InternalError "")
  | Ok total =>
      if (0 <? total)%Z
      then Ret (JSON 409 (BError "setup already completed; sign in or ask an existing admin to create your account"))
      else createUser ((fun '(username, password) => mkUserInput username password true) <$> req)
  end.

Definition bootstrap (req : res string (string * string)) : A response :=
  _ ← invoke ALockBootstrap;
  r ← bootstrapLocked req;
  _ ← invoke AUnlockBootstrap;
  Ret r.

Definition listUsers (limit offset : nat) : A response :=
  users ← ListUsers limit offset;
  match users with
  | Err _ => Ret (InternalError "")
  | Ok users =>
      let out := JSON 200 (BUsers (map securityUserView users)) in
      if Nat.ltb 0 limit then
        total ← CountUsers;
        Ret match total with Err _ => InternalError "" | Ok total => withTotal limit total out end
      else Ret out
  end.

Definition deleteUser (id : string) : A response :=
  r ← DeleteUser id;
  Ret match r with Err _ => InternalError "" | Ok _ => JSON 204 BNone end.

End AuthHandlers.

(** ** Members *)

Section MemberHandlers.

(** Whether a user directory is configured. *)
Context (ToLower : string -> string) (directory : bool).

Definition viewMember (m : ProjectMember) : A memberView :=
  let view name := mkMemberView (mb_ProjectID m) (mb_UserID m) name (mb_Role m) in
  if directory then
    user ← GetUser (mb_UserID m);
    Ret match user with Ok (Some user) => view (ui_Username user) | _ => view "" end
  else Ret (view "").

Fixpoint viewMembers (l : list ProjectMember) : A (list memberView) :=
  match l with
  | [] => Ret []
  | m :: l => v ← viewMember m; rest ← viewMembers l; Ret (v :: rest)
  end.

Definition usernameBefore (a b : string) : Prop := String.leb a b = true.
#[export] Instance usernameBefore_dec : RelDecision usernameBefore.
Proof. intros a b. unfold usernameBefore. apply _. Defined.

Definition candidateNames (users : list UserInfo) (members : list ProjectMember) : list string :=
  let existing : gset string := list_to_set (map mb_UserID members) in
  merge_sort usernameBefore
    (map ui_Username
       (List.filter (fun user => negb (ui_Disabled user || ui_SystemAdmin user || String.eqb (ui_Username user) "" ||
                                       bool_decide (ui_ID user ∈ existing)))%bool users)).

Definition candidates (c : ProjectContext) : A response :=
  if negb directory then Ret (JSON 501 (BError "user directory is unavailable"))
  else
    users ← ListUsers 0 0;
    match users with
    | Err _ => Ret (InternalError "")
    | Ok users =>
        members ← ListMembers (pc_ID c) 0 0;
        Ret match members with
            | Err _ => InternalError ""
            | Ok members => JSON 200 (BCandidates (candidateNames users members))
            end
    end.

Definition listMembers (c : ProjectContext) (limit offset : nat) : A response :=
  members ← ListMembers (pc_ID c) limit offset;
  match members with
  | Err _ => Ret (InternalError "")
  | Ok members =>
      let answer total := out ← viewMembers members; Ret (withTotal limit total (JSON 200 (BMembers out))) in
      if Nat.ltb 0 limit then
        total ← CountMembers (pc_ID c);
        match total with Err _ => Ret (InternalError "") | Ok total => answer total end
      else answer 0%Z
  end.

(** [add], from the point where the user's ID is known. *)
Definition addMemberID (c : ProjectContext) (Role userID : string) : A response :=
  if String.eqb userID "" then Ret (JSON 400 (BError "username is required"))
  else
    now ← invoke ANow;
    let member := mkMember (pc_ID c) userID Role now now in
    r ← AddMember member;
    match r with
    | Err e => Ret (JSON 400 (BError e))
    | Ok _ => v ← viewMember member; Ret (JSON 201 (BMember v))
    end.

(** [user_id], [username], [role] of the body. *)
Definition addMember (c : ProjectContext) (req : res string (string * string * string)) : A response :=
  BindJSON req (fun '(UserID, Username, Role) =>
    if (String.eqb UserID "" && negb (String.eqb Username "") && directory)%bool then
      user ← FindUser ToLower Username;
      match user with
      | Ok (Some user) => addMemberID c Role (ui_ID user)
      | _ => Ret (JSON 400 (BError "user not found"))
      end
    else addMemberID c Role UserID).

Definition updateMember (c : ProjectContext) (userID : string) (req : res string string) : A response :=
  BindJSON req (fun Role =>
    member ← GetMember (pc_ID c) userID;
    LookupFailed member "member not found" (fun member =>
      let member := mkMember (mb_ProjectID member) (mb_UserID member) Role (mb_CreatedAt member) (mb_UpdatedAt member) in
      r ← UpdateMember member;
      match r with
      | Err _ => Ret (InternalError "")
      | Ok _ => v ← viewMember member; Ret (JSON 200 (BMember v))
      end)).

Definition removeMember (c : ProjectContext) (userID : string) : A response :=
  r ← RemoveMember (pc_ID c) userID;
  Ret match r with Err _ => InternalError "" | Ok _ => JSON 204 BNone end.

End MemberHandlers.
