(* ===== verification/AccessRoutes.v ===== *)
(** * Access: projects, and the routes

    The handlers of projects ([pkg/project/handler.go]), the seeding of the two
    projects every installation has ([piper.go]), and the routes with the
    middleware in front of each handler ([routes_access.go], [serve.go]). *)

From S2P Require Import Prelude Prog AccessModel AccessProvider AccessHandlers.
From stdpp Require Import options.
#[local] Open Scope Z_scope.
#[local] Open Scope string_scope.

Definition LocalMemberID : string := "member-local".

(** [project.Handler]; the hooks are optional. *)
Record ProjectHandler := mkProjectHandler {
  ph_authorizer : option Authorizer;
  ph_owner : string -> string -> res string string;
  ph_creator : option (Project -> string -> A (res string Project));
  ph_beforeDelete : option (Project -> A (res (string * bool) unit)) }.

(** The owner of a project in a standalone installation. *)
Definition standaloneOwner (projectID requested : string) : res string string :=
  if (String.eqb requested "" || String.eqb requested LocalMemberID)%bool then Ok LocalMemberID
  else Err ("remote Owner Member " +:+ Quote requested +:+ " is not available in standalone mode").

(** ** Handlers of projects *)

Section Projects.

Context (h : ProjectHandler).

(** The order in which Go ranges over the roles. *)
Context (rangeKeys : gmap string Z -> list string).

Definition visibleProjects (projects : list Project) : list Project :=
  List.filter (fun p => negb (Reserved (pj_ID p))) projects.

Fixpoint accessibleProjects (ids : list string) : A (list Project) :=
  match ids with
  | [] => Ret []
  | id :: ids =>
      p ← invoke (AProjectGet id);
      rest ← accessibleProjects ids;
      Ret match p with Ok (Some p) => p :: rest | _ => rest end
  end.

Definition listAll : A response :=
  projects ← invoke AProjectList;
  Ret match projects with Err _ => InternalError "" | Ok l => JSON 200 (BProjects (visibleProjects l)) end.

Definition listProjects (identity : option Identity) : A response :=
  match ph_authorizer h with
  | None => listAll
  | Some a =>
      match identity with
      | None => Ret (RespondUnauthorized "")
      | Some _ =>
          system ← AuthorizeSystem a identity;
          match system with
          | Ok _ => listAll
          | Err _ =>
              roles ← ListProjectRoles a identity;
              match roles with
              | Err _ => Ret (InternalError "role lookup failed")
              | Ok roles => l ← accessibleProjects (rangeKeys (default ∅ roles)); Ret (JSON 200 (BProjects l))
              end
          end
      end
  end.

Definition createProject (identity : option Identity) (req : res string projectRequest) : A response :=
  BindJSON req (fun req =>
    let id := TrimSpace (pq_ID req) in
    let name := TrimSpace (pq_Name req) in
    if negb (validProjectID id)
    then Ret (JSON 400 (BError "id must contain only lowercase letters, numbers, and hyphens"))
    else if Reserved id then Ret (JSON 400 (BError "project id is reserved"))
    else if String.eqb name "" then Ret (JSON 400 (BError "name is required"))
    else
      match ph_owner h id (TrimSpace (pq_OwnerMemberID req)) with
      | Err e => Ret (JSON 400 (BError e))
      | Ok ownerMemberID =>
          let p := mkProject id name (TrimSpace (pq_Description req)) ownerMemberID None 0 in
          let actorID := match identity with Some i => id_ID i | None => "" end in
          r ← match ph_creator h with Some create => create p actorID | None => invoke (AProjectCreate p) end;
          Ret match r with Err e => JSON 409 (BError e) | Ok p => JSON 201 (BProject p) end
      end).

Definition getProject (identity : option Identity) (projectID : string) : A response :=
  let find := p ← invoke (AProjectGet projectID);
              LookupFailed p "project not found" (fun p => Ret (JSON 200 (BProject p))) in
  match ph_authorizer h with
  | None => find
  | Some a =>
      match identity with
      | None => Ret (RespondUnauthorized "")
      | Some _ =>
          r ← ProjectRole a identity projectID;
          match r with
          | Ok role => if (role <? ProjectRoleViewer)%Z then Ret (RespondForbidden "forbidden") else find
          | Err _ => Ret (RespondForbidden "forbidden")
          end
      end
  end.

Definition removeProject (projectID : string) : A response :=
  r ← invoke (AProjectDelete projectID);
  Ret match r with Err e => JSON 409 (BError e) | Ok _ => JSON 204 BNone end.

Definition deleteProject (projectID : string) : A response :=
  if Reserved projectID then Ret (JSON 400 (BError "project id is reserved"))
  else if String.eqb projectID DefaultID then Ret (JSON 400 (BError "the default project cannot be deleted"))
  else
    p ← invoke (AProjectGet projectID);
    LookupFailed p "project not found" (fun p =>
      projects ← invoke AProjectList;
      match projects with
      | Err _ => Ret (InternalError "")
      | Ok projects =>
          if Nat.leb (List.length (visibleProjects projects)) 1
          then Ret (JSON 409 (BError "the last project cannot be deleted"))
          else
            cleaned ← match ph_beforeDelete h with Some before => before p | None => Ret (Ok tt) end;
            match cleaned with
            | Err (message, unavailable) =>
                Ret (JSON 503 (BError (if unavailable : bool then "statistics backend unavailable" else message)))
            | Ok _ => removeProject projectID
            end
      end).

End Projects.

(** [ensureDefaultProject], [ensureSystemProject] *)
Definition ensureProject (id name description : string) : A (res string unit) :=
  existing ←! invoke (AProjectGet id);
  match existing with
  | Some _ => Ret (Ok tt)
  | None => _ ←! invoke (AProjectCreate (mkProject id name description "" None 0)); Ret (Ok tt)
  end.
Definition ensureDefaultProject : A (res string unit) := ensureProject DefaultID "Default" "Default project".
Definition ensureSystemProject : A (res string unit) :=
  ensureProject SystemID "System" "Reserved project for system-scoped credentials".

(** ** Routes *)

Section Routes.

Context (cfg : AuthConfig) (ToLower : string -> string) (argon2 : string -> string -> string) (SHA256Hex : string -> string).
Context (signToken : jwtClaims -> res string string) (parseToken : Z -> string -> res string jwtClaims).
Context (rangeKeys : gmap string Z -> list string) (WorkloadToken : string).

(** The server with the built-in provider; projects are local. *)
Definition authenticator : option Authenticator := Some (Authenticate parseToken).
Definition authorizer : option Authorizer := Some provider.
Definition projectHandler : ProjectHandler :=
  mkProjectHandler authorizer standaloneOwner None (Some (fun p => invoke (ABeforeDelete p))).

Definition asUser (r : Request) (handler : option Identity -> A response) : A response :=
  through (authenticateUser authenticator r) handler.
Definition asAdmin (r : Request) (handler : option Identity -> A response) : A response :=
  asUser r (fun identity => through (requireSystemAdmin authorizer identity) (fun _ => handler identity)).
Definition inProject (r : Request) (id : string) (minRole : Z) (handler : ProjectContext -> A response) : A response :=
  asUser r (fun identity =>
    through (Require_ authorizer ProjectRoleViewer identity id) (fun c =>
      through (RequireRole minRole c) (fun _ => handler c))).

Definition serve (r : Request) (t : route) : A response :=
  match t with
  | RLogin req => login cfg ToLower argon2 SHA256Hex signToken req
  | RRefresh => refresh cfg SHA256Hex signToken r
  | RLogout => asUser r (logout SHA256Hex r)
  | RMe => asUser r me
  | RBootstrapStatus => bootstrapStatus
  | RBootstrap req => bootstrap ToLower argon2 req
  | RUsers limit offset => asAdmin r (fun _ => listUsers limit offset)
  | RUserMemberships id => asAdmin r (fun _ => listUserMemberships id)
  | RCreateUser req => asAdmin r (fun _ => createUser ToLower argon2 req)
  | RDeleteUser id => asAdmin r (fun _ => deleteUser id)
  | RProjects => asUser r (listProjects projectHandler rangeKeys)
  | RProjectGet id => asUser r (fun identity => getProject projectHandler identity id)
  | RProjectCreate req => asAdmin r (fun identity => createProject projectHandler identity req)
  | RProjectDelete id => asAdmin r (fun _ => deleteProject projectHandler id)
  | RMembers id limit offset => inProject r id ProjectRoleViewer (fun c => listMembers true c limit offset)
  | RCandidates id => inProject r id ProjectRoleAdmin (candidates true)
  | RAddMember id req => inProject r id ProjectRoleAdmin (fun c => addMember ToLower true c req)
  | RUpdateMember id userID req => inProject r id ProjectRoleAdmin (fun c => updateMember true c userID req)
  | RRemoveMember id userID => inProject r id ProjectRoleAdmin (fun c => removeMember c userID)
  | RProject id minRole => inProject r id minRole (fun c => Ret (JSON 200 (BAdmitted c)))
  | RSystem minRole =>
      asAdmin r (fun _ => through (RequireRole minRole SystemContext) (fun _ => Ret (JSON 200 (BAdmitted SystemContext))))
  | REvents filterProject =>
      asUser r (fun identity =>
        through (eventsAccess authorizer identity (TrimSpace filterProject)) (fun _ => Ret (JSON 200 BNone)))
  | RMetrics => through (metricsAuth authenticator authorizer WorkloadToken r) (fun _ => Ret (JSON 200 BNone))
  | RWorkload => through (workloadTokenMiddleware WorkloadToken r) (fun _ => Ret (JSON 200 BNone))
  end.

End Routes.
