(* ===== verification/AccessWorld.v ===== *)
(** * Access: tables, interleavings

    What each call does to the tables ([internal/store/sqlite/auth.go],
    [project.go]; their keys, checks and cascades are those of the migrations
    [00001_core_tables.sql] and [00021_auth.sql]), and the system of requests,
    commands of the command line, ticks of the clock and restarts. *)

From S2P Require Import Prelude Prog AccessModel AccessProvider AccessHandlers AccessRoutes.
From stdpp Require Import options.
#[local] Open Scope Z_scope.

(** ** Tables *)

Record Tables := mkTables {
  at_users : gmap string User;
  at_members : gmap (string * string) ProjectMember;
  at_sessions : gmap string Session;
  at_projects : gmap string Project;
  at_logins : list LoginAttempt }.

Definition setUsers m t := mkTables m (at_members t) (at_sessions t) (at_projects t) (at_logins t).
Definition setMembers m t := mkTables (at_users t) m (at_sessions t) (at_projects t) (at_logins t).
Definition setSessions m t := mkTables (at_users t) (at_members t) m (at_projects t) (at_logins t).
Definition setProjects m t := mkTables (at_users t) (at_members t) (at_sessions t) m (at_logins t).
Definition setLogins l t := mkTables (at_users t) (at_members t) (at_sessions t) (at_projects t) l.

Definition page {X} (limit offset : nat) (l : list X) : list X := if Nat.ltb 0 limit then take limit (drop offset l) else l.

(** The rows that satisfy a condition, in no particular order. *)
Definition rows {K X} `{Countable K} (P : X -> bool) (m : gmap K X) : list X := List.filter P (map_to_list m).*2.

(** *** Users *)

Definition userByName (username : string) (t : Tables) : option User :=
  head (rows (fun u => String.eqb (us_Username u) username) (at_users t)).

(** The ID is the primary key, the name is unique. *)
Definition createUserRow (u : User) (t : Tables) : option Tables :=
  match at_users t !! us_ID u, userByName (us_Username u) t with
  | None, None => Some (setUsers (<[us_ID u := u]> (at_users t)) t)
  | _, _ => None
  end.

(** The check on the name holds for a row that the statement changes. *)
Definition updateUserRow (u : User) (now : Z) (t : Tables) : option Tables :=
  match at_users t !! us_ID u with
  | None => Some t
  | Some old =>
      if match userByName (us_Username u) t with Some other => String.eqb (us_ID other) (us_ID u) | None => true end
      then Some (setUsers (<[us_ID u :=
                   mkUser (us_ID old) (us_Username u) (us_PasswordHash u) (us_SystemAdmin u) (us_Disabled u) (us_CreatedAt old) now]>
                   (at_users t)) t)
      else None
  end.

Definition newerUser (a b : User) : Prop := us_CreatedAt b <= us_CreatedAt a.
#[export] Instance newerUser_dec : RelDecision newerUser.
Proof. intros a b. unfold newerUser. apply _. Defined.
Definition listUserRows (limit offset : nat) (t : Tables) : list User :=
  page limit offset (merge_sort newerUser (map_to_list (at_users t)).*2).
Definition countUsers (t : Tables) : Z := Z.of_nat (size (at_users t)).

(** The members and sessions of the user go with it. *)
Definition deleteUserRow (id : string) (t : Tables) : Tables :=
  mkTables (delete id (at_users t)) (filter (fun kv => mb_UserID kv.2 <> id) (at_members t))
    (filter (fun kv => ss_UserID kv.2 <> id) (at_sessions t)) (at_projects t) (at_logins t).

(** *** Members *)

Definition validRole (role : string) : bool := (String.eqb role "viewer" || String.eqb role "member" || String.eqb role "admin")%bool.

Definition addMemberRow (m : ProjectMember) (t : Tables) : option Tables :=
  match at_members t !! (mb_ProjectID m, mb_UserID m), at_users t !! mb_UserID m, at_projects t !! mb_ProjectID m with
  | None, Some _, Some _ =>
      if validRole (mb_Role m) then Some (setMembers (<[(mb_ProjectID m, mb_UserID m) := m]> (at_members t)) t) else None
  | _, _, _ => None
  end.

Definition membersByUser (userID : string) (t : Tables) : list ProjectMember :=
  rows (fun m => String.eqb (mb_UserID m) userID) (at_members t).

Definition byUserID (a b : ProjectMember) : Prop := String.leb (mb_UserID a) (mb_UserID b) = true.
#[export] Instance byUserID_dec : RelDecision byUserID.
Proof. intros a b. unfold byUserID. apply _. Defined.
Definition membersByProject (projectID : string) (limit offset : nat) (t : Tables) : list ProjectMember :=
  page limit offset (merge_sort byUserID (rows (fun m => String.eqb (mb_ProjectID m) projectID) (at_members t))).
Definition countMembers (projectID : string) (t : Tables) : Z :=
  Z.of_nat (List.length (rows (fun m => String.eqb (mb_ProjectID m) projectID) (at_members t))).

(** The check on the role holds for a row that the statement changes. *)
Definition updateMemberRow (m : ProjectMember) (now : Z) (t : Tables) : option Tables :=
  match at_members t !! (mb_ProjectID m, mb_UserID m) with
  | None => Some t
  | Some old =>
      if validRole (mb_Role m)
      then Some (setMembers (<[(mb_ProjectID m, mb_UserID m) :=
                   mkMember (mb_ProjectID old) (mb_UserID old) (mb_Role m) (mb_CreatedAt old) now]> (at_members t)) t)
      else None
  end.

Definition removeMemberRow (projectID userID : string) (t : Tables) : Tables :=
  setMembers (delete (projectID, userID) (at_members t)) t.

(** *** Sessions *)

Definition sessionByHash (hash : string) (t : Tables) : option Session :=
  head (rows (fun s => String.eqb (ss_RefreshTokenHash s) hash) (at_sessions t)).

Definition createSessionRow (s : Session) (t : Tables) : option Tables :=
  match at_sessions t !! ss_ID s, sessionByHash (ss_RefreshTokenHash s) t, at_users t !! ss_UserID s with
  | None, None, Some _ => Some (setSessions (<[ss_ID s := s]> (at_sessions t)) t)
  | _, _, _ => None
  end.

Definition revoked (at_ : Z) (s : Session) : Session :=
  mkSession (ss_ID s) (ss_UserID s) (ss_RefreshTokenHash s) (ss_ExpiresAt s) (Some at_) (ss_CreatedAt s) (ss_LastUsedAt s).

Definition revokeSession (id : string) (at_ : Z) (t : Tables) : Tables :=
  setSessions (alter (revoked at_) id (at_sessions t)) t.

Definition revokeAllSessions (userID : string) (now : Z) (t : Tables) : Tables :=
  setSessions ((fun s => if (String.eqb (ss_UserID s) userID && match ss_RevokedAt s with None => true | Some _ => false end)%bool
                         then revoked now s else s) <$> at_sessions t) t.

Definition touchLastUsed (id : string) (now : Z) (t : Tables) : Tables :=
  setSessions (alter (fun s => mkSession (ss_ID s) (ss_UserID s) (ss_RefreshTokenHash s) (ss_ExpiresAt s) (ss_RevokedAt s)
                                 (ss_CreatedAt s) now) id (at_sessions t)) t.

Definition deleteExpired (now : Z) (t : Tables) : Tables :=
  setSessions (filter (fun kv => now <= ss_ExpiresAt kv.2) (at_sessions t)) t.

Definition recordLogin (a : LoginAttempt) (t : Tables) : Tables := setLogins (a :: at_logins t) t.

(** *** Projects *)

Definition stampedProject (now : Z) (p : Project) : Project :=
  mkProject (pj_ID p) (pj_Name p) (pj_Description p)
    (if String.eqb (pj_OwnerMemberID p) "" then LocalMemberID else pj_OwnerMemberID p)
    (Some (default now (pj_CreatedAt p))) now.

Definition createProjectRow (p : Project) (t : Tables) : option Tables :=
  match at_projects t !! pj_ID p with
  | Some _ => None
  | None => Some (setProjects (<[pj_ID p := p]> (at_projects t)) t)
  end.

Definition olderProject (a b : Project) : Prop := default 0 (pj_CreatedAt a) <= default 0 (pj_CreatedAt b).
#[export] Instance olderProject_dec : RelDecision olderProject.
Proof. intros a b. unfold olderProject. apply _. Defined.
Definition listProjectRows (t : Tables) : list Project := merge_sort olderProject (map_to_list (at_projects t)).*2.

Definition setOwner (id memberID : string) (now : Z) (t : Tables) : Tables :=
  setProjects (alter (fun p => mkProject (pj_ID p) (pj_Name p) (pj_Description p) memberID (pj_CreatedAt p) now) id (at_projects t)) t.

(** The members of the project go with it. *)
Definition deleteProjectRow (id : string) (t : Tables) : Tables :=
  mkTables (at_users t) (filter (fun kv => mb_ProjectID kv.2 <> id) (at_members t)) (at_sessions t)
    (delete id (at_projects t)) (at_logins t).

(** ** The world *)

Record AWorld := mkAWorld {
  aw_tables : Tables;
  aw_lock : option nat;           (* bootstrapMu, with the thread that has it *)
  aw_now : Z;
  (* what was observed: what the random source and the source of UUIDs gave, the
     hashes of the sessions that were stored, the answers, newest first *)
  aw_drawn : gset string;
  aw_ids : gset string;
  aw_issued : gset string;
  aw_answers : list answer }.

Definition aw_setTables t w := mkAWorld t (aw_lock w) (aw_now w) (aw_drawn w) (aw_ids w) (aw_issued w) (aw_answers w).
Definition aw_setLock l w := mkAWorld (aw_tables w) l (aw_now w) (aw_drawn w) (aw_ids w) (aw_issued w) (aw_answers w).
Definition aw_setNow n w := mkAWorld (aw_tables w) (aw_lock w) n (aw_drawn w) (aw_ids w) (aw_issued w) (aw_answers w).
Definition aw_setDrawn s w := mkAWorld (aw_tables w) (aw_lock w) (aw_now w) s (aw_ids w) (aw_issued w) (aw_answers w).
Definition aw_setIds s w := mkAWorld (aw_tables w) (aw_lock w) (aw_now w) (aw_drawn w) s (aw_issued w) (aw_answers w).
Definition aw_setIssued s w := mkAWorld (aw_tables w) (aw_lock w) (aw_now w) (aw_drawn w) (aw_ids w) s (aw_answers w).
Definition aw_setAnswers l w := mkAWorld (aw_tables w) (aw_lock w) (aw_now w) (aw_drawn w) (aw_ids w) (aw_issued w) l.

(** How a call ends: as it should; it fails without effect, or although it had
    its effect; or what the world outside answers. *)
Inductive achoice : Type :=
| ADone
| AFailed (how : attempt) (msg : string)
| AText (s : string)
| ACleanup (r : res (string * bool) unit).

Abbreviation outcome R := (option (R * AWorld * list (A unit))).
Definition external {R} (r : R) (w : AWorld) : outcome R := Some (r, w, []).

(** A statement that answers [a] and leaves [after]. *)
Definition statement {X} (i : achoice) (w : AWorld) (a : X) (after : AWorld) : outcome (res string X) :=
  match i with
  | ADone => external (Ok a) after
  | AFailed AttemptApplied msg => external (Err msg) after
  | AFailed _ msg => external (Err msg) w
  | _ => None
  end.

(** One that a constraint of the table may refuse; [seen] is what is observed
    when it is not. *)
Definition constrained {X} (i : achoice) (w : AWorld) (a : X) (after : option Tables) (seen : AWorld -> AWorld) : outcome (res string X) :=
  match after with
  | Some t => statement i w a (seen (aw_setTables t w))
  | None => external (Err "constraint failed"%string) w
  end.

Definition written (f : Tables -> Tables) (w : AWorld) : AWorld := aw_setTables (f (aw_tables w)) w.
Definition reading {X} (i : achoice) (w : AWorld) (f : Tables -> X) : outcome (res string X) := statement i w (f (aw_tables w)) w.

(** The random source never gives the same bytes twice, nor does that of UUIDs. *)
Definition handle (c : acall) (tid : nat) (i : achoice) (w : AWorld) : outcome (areply c) :=
  match c as c return outcome (areply c) with
  | AUserCreate u => constrained i w tt (createUserRow u (aw_tables w)) id
  | AUserByID u => reading i w (fun t => at_users t !! u)
  | AUserByUsername n => reading i w (userByName n)
  | AUserList l o => reading i w (listUserRows l o)
  | AUserCount => reading i w countUsers
  | AUserDelete u => statement i w tt (written (deleteUserRow u) w)
  | AMemberAdd m => constrained i w tt (addMemberRow m (aw_tables w)) id
  | AMemberGet p u => reading i w (fun t => at_members t !! (p, u))
  | AMembersByUser u => reading i w (membersByUser u)
  | AMembersByProject p l o => reading i w (membersByProject p l o)
  | AMemberCount p => reading i w (countMembers p)
  | AMemberUpdate m => constrained i w tt (updateMemberRow m (aw_now w) (aw_tables w)) id
  | AMemberRemove p u => statement i w tt (written (removeMemberRow p u) w)
  | ASessionCreate s =>
      constrained i w tt (createSessionRow s (aw_tables w)) (fun w => aw_setIssued ({[ss_RefreshTokenHash s]} ∪ aw_issued w) w)
  | ASessionByHash h => reading i w (sessionByHash h)
  | ASessionRevoke s at_ => statement i w tt (written (revokeSession s at_) w)
  | ASessionRevokeAll u => statement i w tt (written (revokeAllSessions u (aw_now w)) w)
  | ARecordLogin a => statement i w tt (written (recordLogin a) w)
  | AProjectGet p => reading i w (fun t => at_projects t !! p)
  | AProjectList => reading i w listProjectRows
  | AProjectCreate p =>
      let p := stampedProject (aw_now w) p in constrained i w p (createProjectRow p (aw_tables w)) id
  | AProjectDelete p => statement i w tt (written (deleteProjectRow p) w)
  | ABeforeDelete _ => match i with ACleanup r => external r w | _ => None end
  | ANow => external (aw_now w) w
  | AUUID =>
      match i with
      | AText u => if bool_decide (u ∈ aw_ids w) then None else external u (aw_setIds ({[u]} ∪ aw_ids w) w)
      | _ => None
      end
  | ARandom n =>
      match i with
      | AText b =>
          if (bool_decide (b ∈ aw_drawn w) || negb (Nat.eqb (String.length b) n))%bool then None
          else external (Ok b) (aw_setDrawn ({[b]} ∪ aw_drawn w) w)
      | AFailed _ msg => external (Err msg) w
      | _ => None
      end
  | ALockBootstrap =>
      match aw_lock w with
      | None => external tt (aw_setLock (Some tid) w)
      | Some _ => None
      end
  | AUnlockBootstrap => external tt (aw_setLock None w)
  | ARespond q t r => external tt (aw_setAnswers (mkAnswer tid q t r :: aw_answers w) w)
  end.

(** ** The system *)

Section World.

Context (cfg : AuthConfig) (ToLower : string -> string) (argon2 : string -> string -> string) (SHA256Hex : string -> string).
Context (signToken : jwtClaims -> res string string) (parseToken : Z -> string -> res string jwtClaims).
Context (rangeKeys : gmap string Z -> list string) (WorkloadToken : string).

Definition program (q : Request) (t : route) : A unit :=
  r ← serve cfg ToLower argon2 SHA256Hex signToken parseToken rangeKeys WorkloadToken q t;
  invoke (ARespond q t r).

Definition ignore {X} (m : A X) : A unit := _ ← m; Ret tt.

(** The commands of [piper user], a process of its own. *)
Inductive command : Type := CliCreate (username password : string) (admin : bool) | CliDelete (id : string).

Definition cli (c : command) : A unit :=
  match c with
  | CliCreate username password admin =>
      if (String.eqb username "" || Nat.ltb (String.length password) 8)%bool then Ret tt
      else ignore (CreateUser ToLower argon2 (mkUserInput username password admin))
  | CliDelete id => ignore (DeleteUser id)
  end.

Definition seed : A unit :=
  r ← ensureDefaultProject;
  match r with Ok _ => ignore ensureSystemProject | Err _ => Ret tt end.

(** A call of a thread; a request; a command; time; a purge of expired sessions
    (which nothing in the program asks for); a restart, which keeps the tables. *)
Inductive op : Type :=
| OThread (tid : nat) (i : achoice)
| ORequest (q : Request) (t : route)
| OCommand (c : command)
| OTick (d : Z)
| ODeleteExpired
| ORestart.

Abbreviation sys := (AWorld * list (A unit))%type.

Definition step (o : op) (s : sys) : option sys :=
  match o with
  | OThread tid i => thread_step AWorld achoice handle tid i s
  | ORequest q t => Some (s.1, s.2 ++ [program q t])
  | OCommand c => Some (s.1, s.2 ++ [cli c])
  | OTick d => if 0 <=? d then Some (aw_setNow (aw_now s.1 + d) s.1, s.2) else None
  | ODeleteExpired => Some (written (deleteExpired (aw_now s.1)) s.1, s.2)
  | ORestart => Some (aw_setLock None s.1, map (fun _ => Ret tt) s.2 ++ [seed])
  end.

Fixpoint exec (ops : list op) (s : sys) : option sys :=
  match ops with
  | [] => Some s
  | o :: ops => s' ← step o s; exec ops s'
  end.

End World.

(** A new installation. *)
Definition start (now : Z) : AWorld * list (A unit) :=
  (mkAWorld (mkTables ∅ ∅ ∅ ∅ []) None now ∅ ∅ ∅ [], [seed]).
