(* ===== verification/AccessSpec.v ===== *)
(** * Access: what a request may do

    One request by itself, whatever its statements answer: passwords are verified
    against what was stored, and a route under a project admits exactly the users
    whose token, account and role allow it. *)

From S2P Require Import Prelude Prog AccessModel AccessProvider AccessHandlers AccessRoutes AccessWorld.
From stdpp Require Import options.
#[local] Open Scope Z_scope.
#[local] Set Default Proof Using "Type".

(** ** Passwords *)

Lemma fromHex_hexDigit n : (n < 16)%nat -> fromHex (hexDigit n) = Some n.
Proof. intros Hn. do 16 (destruct n as [|n]; [reflexivity|]). lia. Qed.

Lemma hexDigit_not_dollar n : (n < 16)%nat -> Ascii.eqb (hexDigit n) dollar = false.
Proof. intros Hn. do 16 (destruct n as [|n]; [reflexivity|]). lia. Qed.

(** The two digits of a byte. *)
Lemma nibbles c : let n := nat_of_ascii c in
  (Nat.div n 16 < 16)%nat /\ (Nat.modulo n 16 < 16)%nat /\ ascii_of_nat (16 * Nat.div n 16 + Nat.modulo n 16) = c.
Proof.
  intros n. pose proof (nat_ascii_bounded c : (n < 256)%nat). split_and!.
  - by apply Nat.Div0.div_lt_upper_bound.
  - by apply Nat.mod_upper_bound.
  - rewrite <- Nat.div_mod_eq. apply ascii_nat_embedding.
Qed.

Lemma hexDecode_hexEncode s : hexDecode (hexEncode s) = Some s.
Proof.
  induction s as [|c s IH]; [done|]. destruct (nibbles c) as (Hd & Hm & E). cbn [hexEncode hexDecode].
  rewrite !fromHex_hexDigit by done. cbn [mbind option_bind]. rewrite IH. cbn [mbind option_bind]. by rewrite E.
Qed.

Lemma hexEncode_no_dollar s : str_mem dollar (hexEncode s) = false.
Proof.
  induction s as [|c s IH]; [done|]. destruct (nibbles c) as (Hd & Hm & _). cbn [hexEncode str_mem].
  by rewrite !hexDigit_not_dollar, IH.
Qed.

Lemma sameBytes_iff a b : String.length a = String.length b -> sameBytes a b = true <-> a = b.
Proof.
  unfold sameBytes. rewrite N.eqb_eq.
  assert (Hz : forall l d, foldl (fun diff p => N.lor diff (N.lxor (N_of_ascii p.1) (N_of_ascii p.2))) d l = 0%N <->
                 d = 0%N /\ Forall (fun p => N_of_ascii p.1 = N_of_ascii p.2) l).
  { induction l as [|p l IH]; intros d; simpl; [naive_solver|].
    rewrite IH, N.lor_eq_0_iff, N.lxor_eq_0_iff, Forall_cons. naive_solver. }
  rewrite Hz. clear Hz. revert b; induction a as [|c a IH]; intros [|d b]; simpl; intros Hl; try done.
  rewrite Forall_cons. specialize (IH b ltac:(lia)). simpl. split.
  - intros (_ & Hc & Hf). f_equal; [|apply IH; done].
    rewrite <- (ascii_N_embedding c), <- (ascii_N_embedding d). by f_equal.
  - intros [= -> ->]. split_and!; [done..|]. by apply IH.
Qed.

Lemma graphic_no_space c s : (32 < nat_of_ascii c < 128)%nat -> drop_space_rune (String c s) = None.
Proof.
  intros Hc. unfold drop_space_rune. rewrite !(bool_decide_eq_false_2 (_ <= _ <= _)%nat) by lia.
  rewrite (bool_decide_eq_false_2 (nat_of_ascii c = 32)%nat) by lia. cbn [orb].
  destruct s as [|c2 s2]; [done|]. rewrite bool_decide_eq_false_2 by lia.
  destruct s2 as [|c3 s3]; [done|]. by rewrite bool_decide_eq_false_2 by lia.
Qed.

Lemma scans_graphic fuel c s : (32 < nat_of_ascii c < 128)%nat -> scansToken (S fuel) (String c s) = true.
Proof.
  intros Hc. cbn [scansToken]. rewrite graphic_no_space by done. destruct (Ascii.eqb_spec c "010"%char) as [->|]; [|done].
  vm_compute in Hc. lia.
Qed.

Lemma hexDigit_graphic n : (n < 16)%nat -> (32 < nat_of_ascii (hexDigit n) < 128)%nat.
Proof. intros Hn. do 16 (destruct n as [|n]; [vm_compute; lia|]). lia. Qed.

Lemma scans_rest fuel salt s : scansToken (S fuel) (hexEncode salt +:+ String dollar s) = true.
Proof.
  destruct salt as [|c salt]; apply scans_graphic; [vm_compute; lia|]. apply hexDigit_graphic, nibbles.
Qed.

Lemma str_prefix_of_app a b : String.prefix a (a +:+ b) = true.
Proof. induction a as [|c a IH]; simpl; [by destruct b|]. by destruct (ascii_dec c c). Qed.

(** A password is accepted exactly when it derives the key that was stored. *)
Lemma verify_encoded argon2 password password' salt :
  verifyPassword argon2 password' (encodePassword argon2 password salt) = true <->
  argon2 password' salt = argon2 password salt.
Proof.
  unfold verifyPassword, encodePassword. set (rest := (hexEncode salt +:+ _)%string).
  assert (Hd : str_drop (String.length hashPrefix) (hashPrefix +:+ rest) = rest) by apply str_drop_app.
  rewrite Hd. replace (String.prefix hashPrefix (hashPrefix +:+ rest)) with true by (symmetry; apply str_prefix_of_app).
  replace (String.length (hashPrefix +:+ rest)) with (S (8 + String.length rest)) by reflexivity.
  unfold rest at 2. rewrite scans_rest. cbn [negb andb].
  assert (Hn : (0 < String.length rest)%nat) by (unfold rest; destruct salt; simpl; lia).
  replace (Nat.leb (S (8 + String.length rest)) (String.length hashPrefix)) with false
    by (symmetry; apply Nat.leb_gt; simpl; lia).
  unfold rest. rewrite str_index_app by apply hexEncode_no_dollar.
  rewrite str_take_app, str_drop_S_app, !hexDecode_hexEncode, andb_true_iff, Nat.eqb_eq. split.
  - intros [Hl Hs]. by apply sameBytes_iff.
  - intros ->. split; [done|]. by apply sameBytes_iff.
Qed.

(** ** One request by itself *)

(** A program run alone; each call ends as the next choice says. *)
Fixpoint run {X} (m : A X) (cs : list achoice) (w : AWorld) : option (X * list achoice * AWorld) :=
  match m with
  | Ret x => Some (x, cs, w)
  | Call c k =>
      match cs with
      | i :: cs => '(r, w, _) ← handle c 0 i w; run (k r) cs w
      | [] => None
      end
  end.

Lemma run_bind {X Y} (m : A X) (f : X -> A Y) cs w :
  run (m ≫= f) cs w = '(x, cs, w) ← run m cs w; run (f x) cs w.
Proof.
  revert cs w; induction m as [x|c k IH]; intros cs w; simpl; [done|].
  destruct cs as [|i cs]; [done|]. destruct (handle c 0 i w) as [[[r w'] new]|]; simpl; [|done]. apply IH.
Qed.

Lemma run_bind_inv {X Y} (m : A X) (f : X -> A Y) cs w y cs' w' : run (m ≫= f) cs w = Some (y, cs', w') ->
  exists x cs1 w1, run m cs w = Some (x, cs1, w1) /\ run (f x) cs1 w1 = Some (y, cs', w').
Proof. rewrite run_bind. intros ([[x cs1] w1] & Hm & Hf)%bind_Some. eauto. Qed.

Lemma run_only (P : acall -> Prop) (R : AWorld -> AWorld -> Prop) `{!PreOrder R} {X} (m : A X) cs w x cs' w' :
  (forall c i w r w' new, P c -> handle c 0 i w = Some (r, w', new) -> R w w') ->
  only P m -> run m cs w = Some (x, cs', w') -> R w w'.
Proof.
  intros HP. revert cs w; induction m as [a|c k IH]; intros cs w; simpl; [by intros _ [= _ _ ->]|].
  intros [Hc Hk] Hr. destruct cs as [|i cs]; [done|]. apply bind_Some in Hr as ([[r w1] new] & Hh & Hr).
  transitivity w1; [by eapply HP|]. by eapply IH.
Qed.

(** Statements that only read leave the world as it is. *)
Definition reads (c : acall) : Prop :=
  match c with
  | AUserByID _ | AUserByUsername _ | AUserList _ _ | AUserCount | AMemberGet _ _ | AMembersByUser _ | AMembersByProject _ _ _
  | AMemberCount _ | ASessionByHash _ | AProjectGet _ | AProjectList | ANow => True
  | _ => False
  end.

Lemma reads_handle c tid i w r w' new : reads c -> handle c tid i w = Some (r, w', new) -> w' = w.
Proof.
  destruct c; simpl; try done; intros _ H; unfold reading, statement, external in H; repeat case_match; by simplify_eq.
Qed.

(** A statement's answer: what the tables say, or an error. *)
Lemma reading_answer {X} i w (f : Tables -> X) r w' new : reading i w f = Some (r, w', new) ->
  (r = Ok (f (aw_tables w)) \/ (i <> ADone /\ exists e, r = Err e)) /\ w' = w.
Proof. unfold reading, statement, external. intros H. repeat case_match; simplify_eq; naive_solver. Qed.

Lemma run_suffix {X} (m : A X) cs w x cs' w' : run m cs w = Some (x, cs', w') -> exists used, cs = used ++ cs'.
Proof.
  revert cs w; induction m as [a|c k IH]; intros cs w; simpl; [intros [= _ <- _]; by exists []|].
  intros Hr. destruct cs as [|i cs]; [done|]. apply bind_Some in Hr as ([[r w1] new] & _ & Hr).
  destruct (IH _ _ _ Hr) as [used ->]. by exists (i :: used).
Qed.

(** No statement fails. *)
Abbreviation allDone cs := (Forall (eq ADone) cs).

Lemma run_done {X} (m : A X) cs w x cs' w' : run m cs w = Some (x, cs', w') -> allDone cs -> allDone cs'.
Proof. intros [used ->]%run_suffix. by intros [_ ?]%Forall_app. Qed.

Section Gates.

Context (parseToken : Z -> string -> res string jwtClaims).
#[local] Set Default Proof Using "All".

(** The token of a request: that of the header before that of the cookie. *)
Definition tokenOf (q : Request) : string :=
  if String.eqb (bearerToken q) "" then default ""%string (rq_AccessCookie q) else bearerToken q.

(** Who a request comes from: its token is accepted now and names an account that
    exists and is not disabled. *)
Definition signedIn (w : AWorld) (q : Request) (u : User) : Prop :=
  exists c, tokenOf q <> ""%string /\ parseToken (aw_now w) (tokenOf q) = Ok c /\
    at_users (aw_tables w) !! cl_UserID c = Some u /\ us_Disabled u = false.

(** The role of an account in a project. *)
Definition holds (w : AWorld) (u : User) (projectID : string) (role : Z) : Prop :=
  if us_SystemAdmin u then role = ProjectRoleAdmin
  else exists m, at_members (aw_tables w) !! (projectID, us_ID u) = Some m /\ role = roleStringToProjectRole (mb_Role m).

Lemma role_at_least role : ProjectRoleViewer <= roleStringToProjectRole role.
Proof. unfold roleStringToProjectRole, ProjectRoleViewer, ProjectRoleMember, ProjectRoleAdmin. repeat case_match; lia. Qed.

Lemma holds_at_least w u p role : holds w u p role -> ProjectRoleViewer <= role.
Proof. unfold holds. case_match; [intros ->; done|]. intros (m & _ & ->). apply role_at_least. Qed.

Lemma holds_ext w u u' p role : userToIdentity u = userToIdentity u' -> holds w u p role -> holds w u' p role.
Proof. unfold holds. intros [= <- _ <-]. done. Qed.

Lemma authenticate_run q cs w r cs' w' :
  run (authenticateUser (authenticator parseToken) q) cs w = Some (r, cs', w') ->
  w' = w /\
  match r with
  | Ok None => tokenOf q = ""%string
  | Ok (Some who) => exists u, signedIn w q u /\ who = userToIdentity u
  | Err resp => rs_Code resp = 401 /\ (allDone cs -> tokenOf q <> ""%string /\ forall u, ~ signedIn w q u)
  end.
Proof.
  unfold authenticateUser, authenticator, Authenticate. fold (tokenOf q). cbv zeta. intros Hr.
  destruct (String.eqb_spec (tokenOf q) "") as [E|E]; simpl in Hr; [by simplify_eq|].
  destruct cs as [|i cs]; [done|]. unfold external in Hr. simpl in Hr.
  destruct (parseToken (aw_now w) (tokenOf q)) as [c|e] eqn:Ep; simpl in Hr.
  2:{ simplify_eq. split_and!; [done..|]. intros _. split; [done|]. intros u (c & _ & Ec & _). congruence. }
  destruct cs as [|i2 cs]; [done|]. apply bind_Some in Hr as ([[r1 w1] new] & Hh & Hr).
  apply reading_answer in Hh as [Hans ->]. destruct Hans as [-> | (Hi & e & ->)]; simpl in Hr; injection Hr as <- <- <-.
  - destruct (at_users (aw_tables w) !! cl_UserID c) as [u|] eqn:Eu; simpl.
    + destruct (us_Disabled u) eqn:Ed; simpl; (split; [done|]).
      * split; [done|]. intros _. split; [done|]. intros u' (c' & _ & Ec & Eu' & ?). assert (c' = c) as -> by congruence. congruence.
      * exists u. split; [|done]. by exists c.
    + split_and!; [done..|]. intros _. split; [done|]. intros u' (c' & _ & Ec & Eu' & ?). assert (c' = c) as -> by congruence. congruence.
  - split_and!; [done..|]. intros Hd. apply Forall_cons in Hd as [_ [? _]%Forall_cons]. done.
Qed.

(** What [project.Require] decides for a caller, when it read the project. *)
Inductive decided (w : AWorld) (who : option Identity) (projectID : string) : res response ProjectContext -> Prop :=
| DNoProject : at_projects (aw_tables w) !! projectID = None ->
    decided w who projectID (Err (JSON 404 (BError "project not found")))
| DAnonymous p : at_projects (aw_tables w) !! projectID = Some p -> who = None ->
    decided w who projectID (Err (RespondUnauthorized ""))
| DStranger p u : at_projects (aw_tables w) !! projectID = Some p -> who = Some (userToIdentity u) ->
    (forall role, ~ holds w u projectID role) ->
    decided w who projectID (Err (RespondForbidden "forbidden"))
| DMember p u role : at_projects (aw_tables w) !! projectID = Some p -> who = Some (userToIdentity u) -> holds w u projectID role ->
    decided w who projectID (Ok (mkContext (pj_ID p) (pj_OwnerMemberID p) role)).

Lemma projectRole_run w u projectID cs r cs' w' :
  run (projectRole (Some (userToIdentity u)) projectID) cs w = Some (r, cs', w') ->
  w' = w /\
  match r with
  | Ok role => holds w u projectID role
  | Err _ => allDone cs -> forall role, ~ holds w u projectID role
  end.
Proof.
  unfold projectRole, holds. simpl. destruct (us_SystemAdmin u) eqn:Ea; simpl; intros Hr; [by simplify_eq|].
  destruct cs as [|i cs]; [done|]. apply bind_Some in Hr as ([[r1 w1] new] & Hh & Hr).
  apply reading_answer in Hh as [Hans ->]. destruct Hans as [-> | (Hi & e & ->)]; simpl in Hr; injection Hr as <- <- <-.
  - destruct (at_members _ !! _) as [m|] eqn:Em; simpl; (split; [done|]); [by exists m|].
    intros _ role (m & Em' & _). clear -Em Em'. congruence.
  - split; [done|]. intros [? _]%Forall_cons. done.
Qed.

Lemma require_run w who projectID cs r cs' w' :
  (forall i, who = Some i -> exists u, i = userToIdentity u) ->
  run (Require_ (authorizer) ProjectRoleViewer who projectID) cs w = Some (r, cs', w') ->
  w' = w /\
  match r with
  | Ok c => decided w who projectID (Ok c)
  | Err resp => rs_Code resp <> 200 /\ (allDone cs -> decided w who projectID (Err resp))
  end.
Proof.
  intros Hwho Hr. unfold Require_ in Hr. simpl in Hr.
  destruct cs as [|i cs]; [done|]. apply bind_Some in Hr as ([[r1 w1] new] & Hh & Hr).
  apply reading_answer in Hh as [Hans ->].
  destruct Hans as [-> | (Hi & e & ->)]; simpl in Hr.
  2:{ injection Hr as <- <- <-. split_and!; [done..|]. by intros [? _]%Forall_cons. }
  destruct (at_projects (aw_tables w) !! projectID) as [p|] eqn:Ep; simpl in Hr.
  2:{ injection Hr as <- <- <-. split_and!; [done..|]. intros _. by constructor. }
  destruct who as [who|]; simpl in Hr.
  2:{ injection Hr as <- <- <-. split_and!; [done..|]. intros _. by eapply DAnonymous. }
  destruct (Hwho _ eq_refl) as [u ->].
  apply run_bind_inv in Hr as (r1 & cs1 & w1 & Hp & Hr).
  change (run (projectRole (Some (userToIdentity u)) projectID) cs w = Some (r1, cs1, w1)) in Hp. apply projectRole_run in Hp as [-> Hp].
  destruct r1 as [role|e]; simpl in Hr; injection Hr as <- <- <-.
  - assert (Hl := holds_at_least _ _ _ _ Hp). replace (role <? ProjectRoleViewer) with false by (symmetry; by apply Z.ltb_ge).
    split; [done|]. by eapply DMember.
  - split_and!; [done..|]. intros [_ Hd]%Forall_cons. by eapply DStranger; auto.
Qed.

(** Why a route under a project refuses a request, and with which status. *)
Inductive refused (w : AWorld) (q : Request) (projectID : string) (minRole : Z) : Z -> Prop :=
| FBadToken : tokenOf q <> ""%string -> (forall u, ~ signedIn w q u) -> refused w q projectID minRole 401
| FNoProject : at_projects (aw_tables w) !! projectID = None -> tokenOf q = ""%string \/ (exists u, signedIn w q u) ->
    refused w q projectID minRole 404
| FAnonymous p : tokenOf q = ""%string -> at_projects (aw_tables w) !! projectID = Some p -> refused w q projectID minRole 401
| FNoRole u p : signedIn w q u -> at_projects (aw_tables w) !! projectID = Some p ->
    (forall role, holds w u projectID role -> role < minRole) -> refused w q projectID minRole 403.

Abbreviation asUser := (asUser parseToken).
Abbreviation asAdmin := (asAdmin parseToken).
Abbreviation inProject := (inProject parseToken).

Lemma asUser_run q handler cs w resp cs' w' : run (asUser q handler) cs w = Some (resp, cs', w') ->
  (exists who cs1, run (handler who) cs1 w = Some (resp, cs', w') /\ (allDone cs -> allDone cs1) /\
     (who = None -> tokenOf q = ""%string) /\ (forall i, who = Some i -> exists u, signedIn w q u /\ i = userToIdentity u)) \/
  (w' = w /\ rs_Code resp = 401 /\ (allDone cs -> tokenOf q <> ""%string /\ forall u, ~ signedIn w q u)).
Proof.
  intros (r & cs1 & w1 & Ha & Hr)%run_bind_inv. pose proof (run_done _ _ _ _ _ _ Ha) as Hd.
  apply authenticate_run in Ha as [-> Ha]. destruct r as [who|e]; simpl in Hr; [|right; naive_solver].
  left. exists who, cs1. split_and!; [done..| |]; intros; subst; naive_solver.
Qed.

Lemma inProject_run q projectID minRole handler cs w resp cs' w' :
  run (inProject q projectID minRole handler) cs w = Some (resp, cs', w') ->
  (exists u p role cs1, signedIn w q u /\ at_projects (aw_tables w) !! projectID = Some p /\ holds w u projectID role /\ minRole <= role /\
     run (handler (mkContext (pj_ID p) (pj_OwnerMemberID p) role)) cs1 w = Some (resp, cs', w')) \/
  (w' = w /\ rs_Code resp <> 200 /\ (allDone cs -> refused w q projectID minRole (rs_Code resp))).
Proof.
  intros [(who & cs1 & Hr & Hd & Hn & Hs)|(-> & Ec & Hw)]%asUser_run.
  2:{ right. split_and!; [done|by rewrite Ec|]. intros Hd. rewrite Ec. destruct (Hw Hd). by apply FBadToken. }
  apply run_bind_inv in Hr as (r & cs2 & w1 & Hq & Hr). pose proof (run_done _ _ _ _ _ _ Hq) as Hd2.
  apply require_run in Hq as [-> Hq]; [|intros i Hi; destruct (Hs i Hi) as (u & _ & ->); by exists u].
  destruct r as [c|resp1]; simpl in Hr.
  - inversion Hq as [| | |p u role Ep Ew Hh]; subst. destruct (Hs _ eq_refl) as (u' & Hu & Eu).
    assert (Hh' : holds w u' projectID role) by (by eapply holds_ext).
    unfold RequireRole in Hr. simpl in Hr. destruct (role <? minRole) eqn:El; simpl in Hr.
    + injection Hr as <- <- <-. right. split_and!; [done..|]. intros _. apply (FNoRole _ _ _ _ u' p); [done..|].
      intros role' Hr'. apply Z.ltb_lt in El. unfold holds in *. case_match; [by subst|].
      destruct Hh' as (m & ? & ->), Hr' as (m' & ? & ->). by simplify_eq.
    + left. exists u', p, role, cs2. apply Z.ltb_ge in El. naive_solver.
  - injection Hr as <- <- <-. destruct Hq as [Hc Hq]. right. split_and!; [done..|]. intros Hdone.
    assert (Hq' := Hq (Hd Hdone)). inversion Hq' as [Ep|p Ep Ew|p u Ep Ew Hh|]; subst; simpl.
    + apply FNoProject; [done|]. destruct who as [i|]; [right; destruct (Hs i eq_refl) as (u & ? & _); by exists u|left; by apply Hn].
    + eapply FAnonymous; [by apply Hn|done].
    + destruct (Hs _ eq_refl) as (u' & Hu & Eu). apply (FNoRole _ _ _ _ u' p); [done..|]. intros role Hr. exfalso.
      apply (Hh role). by eapply holds_ext.
Qed.

Lemma asAdmin_run q handler cs w resp cs' w' : run (asAdmin q handler) cs w = Some (resp, cs', w') ->
  (exists u cs1, signedIn w q u /\ us_SystemAdmin u = true /\ run (handler (Some (userToIdentity u))) cs1 w = Some (resp, cs', w')) \/
  (w' = w /\ (rs_Code resp = 401 \/ rs_Code resp = 403)).
Proof.
  intros [(who & cs1 & Hr & _ & _ & Hs)|(-> & Ec & _)]%asUser_run; [|right; auto].
  destruct who as [i|]; simpl in Hr; [|simplify_eq; right; auto].
  destruct (Hs i eq_refl) as (u & Hu & ->). simpl in Hr. destruct (us_SystemAdmin u) eqn:Ea; simpl in Hr.
  - left. exists u, cs1. done.
  - injection Hr as <- <- <-. right. auto.
Qed.

End Gates.

(** ** What a request may change *)

(** Every row is stored under its key. *)
Record keyed (w : AWorld) : Prop := mkKeyed {
  ky_users : forall id u, at_users (aw_tables w) !! id = Some u -> us_ID u = id;
  ky_members : forall k m, at_members (aw_tables w) !! k = Some m -> (mb_ProjectID m, mb_UserID m) = k;
  ky_projects : forall id p, at_projects (aw_tables w) !! id = Some p -> pj_ID p = id }.

Lemma keyed_handle c tid i w r w' new : handle c tid i w = Some (r, w', new) -> keyed w -> keyed w'.
Proof.
  intros Hh [Hu Hm Hp]. destruct c; simpl in Hh; unfold constrained, reading, statement, external, written in Hh;
    repeat case_match; simplify_eq/=; try done;
    unfold createUserRow, addMemberRow, updateMemberRow, createSessionRow, createProjectRow in *; repeat case_match; simplify_eq/=; try done;
    split; try done; simpl; intros k x Hx;
    repeat match goal with
    | H : <[_ := _]> _ !! _ = Some _ |- _ => apply lookup_insert_Some in H as [[<- <-]|[_ H]]
    | H : delete _ _ !! _ = Some _ |- _ => apply lookup_delete_Some in H as [_ H]
    | H : filter _ _ !! _ = Some _ |- _ => apply map_lookup_filter_Some in H as [H _]
    end; eauto.
  all: simpl; by apply Hm.
Qed.

(** Every installation keeps its rows so. *)
Lemma keyed_step cfg ToLower argon2 SHA256Hex signToken parseToken rangeKeys WorkloadToken o s s' :
  step cfg ToLower argon2 SHA256Hex signToken parseToken rangeKeys WorkloadToken o s = Some s' -> keyed s.1 -> keyed s'.1.
Proof.
  intros Hs Hk. destruct o; simpl in Hs; try (injection Hs as <-; by destruct Hk).
  - apply thread_step_inv in Hs as (c & k & re & w' & new & _ & Hh & ->). by eapply keyed_handle.
  - case_match; [|done]. injection Hs as <-. by destruct Hk.
Qed.

Lemma keyed_exec cfg ToLower argon2 SHA256Hex signToken parseToken rangeKeys WorkloadToken ops s s' :
  exec cfg ToLower argon2 SHA256Hex signToken parseToken rangeKeys WorkloadToken ops s = Some s' -> keyed s.1 -> keyed s'.1.
Proof.
  revert s; induction ops as [|o ops IH]; intros s He Hk; simpl in He; [by simplify_eq|].
  apply bind_Some in He as (s1 & Hs & He). by eapply IH, keyed_step.
Qed.

Lemma keyed_start now : keyed (start now).1.
Proof. split; simpl; intros k x Hx; by apply lookup_empty_Some in Hx. Qed.

(** Users and projects are left alone, and so are the members of other projects
    than those of [P]. *)
Definition changesMembers (P : string -> Prop) (w w' : AWorld) : Prop :=
  at_users (aw_tables w') = at_users (aw_tables w) /\ at_projects (aw_tables w') = at_projects (aw_tables w) /\
  forall k, ~ P k.1 -> at_members (aw_tables w') !! k = at_members (aw_tables w) !! k.

#[export] Instance changesMembers_preorder P : PreOrder (changesMembers P).
Proof.
  split; [done|]. intros w1 w2 w3 (E1 & E2 & E3) (F1 & F2 & F3).
  split_and!; [congruence..|]. intros k Hk. by rewrite F3, E3.
Qed.

Lemma changesMembers_mono (P Q : string -> Prop) w w' : (forall p, P p -> Q p) -> changesMembers P w w' -> changesMembers Q w w'.
Proof. intros HPQ (E1 & E2 & E3). split_and!; [done..|]. intros k Hk. apply E3. naive_solver. Qed.

(** Calls that change no more than members of projects of [P]. *)
Definition memberCall (P : string -> Prop) (c : acall) : Prop :=
  match c with
  | AUserCreate _ | AUserDelete _ | AProjectCreate _ | AProjectDelete _ => False
  | AMemberAdd m | AMemberUpdate m => P (mb_ProjectID m)
  | AMemberRemove p _ => P p
  | _ => True
  end.

Abbreviation nowhere := (fun _ : string => False).

Lemma memberCall_handle P c tid i w r w' new : memberCall P c -> handle c tid i w = Some (r, w', new) -> changesMembers P w w'.
Proof.
  intros HP Hh. destruct c; simpl in HP; try done; simpl in Hh;
    unfold constrained, reading, statement, external, written in Hh; repeat case_match; simplify_eq/=; try done.
  all: unfold addMemberRow, updateMemberRow, removeMemberRow, createSessionRow in *; repeat case_match; simplify_eq/=; try done.
  all: try (split_and!; [done..|]; intros [p' u'] Hk; simpl in *).
  all: first [apply lookup_insert_ne|apply lookup_delete_ne]; naive_solver.
Qed.

Lemma member_run P {X} (m : A X) cs w x cs' w' : only (memberCall P) m -> run m cs w = Some (x, cs', w') -> changesMembers P w w'.
Proof.
  intros Hm. refine (run_only (memberCall P) (changesMembers P) m cs w x cs' w' _ Hm).
  intros c i w1 r w2 new. apply memberCall_handle.
Qed.

Section Changes.

Context (cfg : AuthConfig) (ToLower : string -> string) (argon2 : string -> string -> string) (SHA256Hex : string -> string).
Context (signToken : jwtClaims -> res string string) (parseToken : Z -> string -> res string jwtClaims).
Context (rangeKeys : gmap string Z -> list string) (WorkloadToken : string).

Abbreviation serve := (serve cfg ToLower argon2 SHA256Hex signToken parseToken rangeKeys WorkloadToken).

Abbreviation asUser := (AccessRoutes.asUser parseToken).
Abbreviation inProject := (AccessRoutes.inProject parseToken).
#[local] Set Default Proof Using "Type".

Abbreviation quiet := (only (memberCall nowhere)).

(** Which of the calls that write a route may make. *)
Definition callsOf (t : route) (c : acall) : Prop :=
  match c with
  | AUserCreate _ => match t with RBootstrap _ | RCreateUser _ => True | _ => False end
  | AUserDelete _ => match t with RDeleteUser _ => True | _ => False end
  | AMemberAdd _ => match t with RAddMember _ _ => True | _ => False end
  | AMemberUpdate _ => match t with RUpdateMember _ _ _ => True | _ => False end
  | AMemberRemove _ _ => match t with RRemoveMember _ _ => True | _ => False end
  | ASessionCreate _ => match t with RLogin _ | RRefresh => True | _ => False end
  | AProjectCreate _ => match t with RProjectCreate _ => True | _ => False end
  | AProjectDelete _ => match t with RProjectDelete _ => True | _ => False end
  | ALockBootstrap | AUnlockBootstrap => match t with RBootstrap _ => True | _ => False end
  | ARespond _ _ _ => False
  | _ => True
  end.

Abbreviation keepsTo t := (only (callsOf t)).

Lemma createSession_calls t u : callsOf t (ASessionCreate (mkSession "" "" "" 0 None 0 0)) ->
  keepsTo t (createSession cfg SHA256Hex signToken u).
Proof.
  intros Ht. simpl in Ht. unfold createSession, issueAccessToken, randomToken, wrapping, wrapErr, invoke, perform.
  repeat match goal with |- context [callsOf t (ASessionCreate _)] => simpl | _ => progress wp_walk end; done.
Qed.

#[local] Opaque createSession.

Lemma login_calls req : keepsTo (RLogin req) (login cfg ToLower argon2 SHA256Hex signToken req).
Proof.
  unfold login, BindJSON, Login, invoke, perform. destruct req as [[username password]|]; [|done]. simpl.
  split; [done|]. intros id. split; [done|]. intros at_. split; [done|]. intros [[u|]|e]; [|by wp_walk..].
  destruct (us_Disabled u); [by wp_walk|]. destruct (negb _); [by wp_walk|].
  apply only_bind; [|intros []; done]. apply only_bind; [by apply createSession_calls|]. intros []; by wp_walk.
Qed.

Lemma refresh_calls q : keepsTo RRefresh (refresh cfg SHA256Hex signToken q).
Proof.
  unfold refresh, Refresh, invoke, perform. destruct (String.eqb _ _); [done|]. simpl. split; [done|].
  intros [[s|]|e]; [|done..]. destruct (ss_RevokedAt s); [done|]. simpl. split; [done|]. intros now.
  destruct (_ <? _); [done|]. simpl. split; [done|]. intros now'. split; [done|]. intros [[]|e]; [|done]. simpl.
  split; [done|]. intros [[u|]|e]; [|done..]. simpl. destruct (us_Disabled u); [done|].
  apply only_bind; [by apply createSession_calls|]. intros []; done.
Qed.

Lemma accessibleProjects_calls t ids : keepsTo t (accessibleProjects ids).
Proof.
  induction ids as [|id ids IH]; [done|]. cbn [accessibleProjects]. unfold invoke, perform. simpl. split; [done|]. intros r.
  by apply only_bind; [|intros; destruct r as [[]|]].
Qed.

Lemma viewMember_calls t directory m : keepsTo t (viewMember directory m).
Proof. unfold viewMember, GetUser, invoke, perform. by wp_walk. Qed.

Lemma viewMembers_calls t directory l : keepsTo t (viewMembers directory l).
Proof.
  induction l as [|m l IH]; [done|]. simpl. apply only_bind; [apply viewMember_calls|]. intros v. by apply only_bind.
Qed.

Lemma listProjects_calls t identity : keepsTo t (listProjects projectHandler rangeKeys identity).
Proof.
  unfold listProjects. simpl. destruct identity as [who|]; [|done]. unfold listAll, listProjectRoles, invoke, perform. simpl.
  destruct (id_SystemAdmin who); simpl; [by wp_walk|]. split; [done|]. intros [l|e]; [|done]. simpl.
  apply only_bind; [apply accessibleProjects_calls|done].
Qed.

Lemma listMembers_calls t directory c limit offset : keepsTo t (listMembers directory c limit offset).
Proof.
  unfold listMembers, ListMembers, CountMembers, invoke, perform. simpl. split; [done|]. intros [l|e]; [|done].
  destruct (Nat.ltb 0 limit).
  - simpl. split; [done|]. intros [n|e]; [|done]. by apply only_bind; [apply viewMembers_calls|].
  - by apply only_bind; [apply viewMembers_calls|].
Qed.

Lemma createUser_calls t req : callsOf t (AUserCreate (mkUser "" "" "" false false 0 0)) ->
  keepsTo t (createUser ToLower argon2 req).
Proof.
  intros Ht. simpl in Ht. unfold createUser, BindJSON, CreateUser, hashPassword, wrapping, invoke, perform.
  destruct req as [input|]; [|done]. by wp_walk.
Qed.

Lemma asUser_calls t q handler : (forall who, keepsTo t (handler who)) -> keepsTo t (asUser q handler).
Proof.
  intros Hh. unfold AccessRoutes.asUser, through.
  apply only_bind; [unfold authenticateUser; simpl; unfold Authenticate, invoke, perform; by wp_walk|].
  intros [who|]; [apply Hh|done].
Qed.

Lemma asAdmin_calls t q handler : (forall who, keepsTo t (handler who)) -> keepsTo t (AccessRoutes.asAdmin parseToken q handler).
Proof.
  intros Hh. apply asUser_calls. intros who. unfold through. apply only_bind; [unfold requireSystemAdmin; simpl; by wp_walk|].
  intros [[]|]; [apply Hh|done].
Qed.

Lemma inProject_calls t q id minRole handler : (forall c, keepsTo t (handler c)) -> keepsTo t (inProject q id minRole handler).
Proof.
  intros Hh. apply asUser_calls. intros who. unfold through.
  apply only_bind; [unfold Require_, invoke, perform; simpl; unfold projectRole, invoke, perform; by wp_walk|].
  intros [c|]; [|done]. unfold RequireRole. simpl. destruct (_ <? _); simpl; [done|apply Hh].
Qed.

Lemma addMember_calls id directory c req : keepsTo (RAddMember id req) (addMember ToLower directory c req).
Proof.
  unfold addMember, BindJSON. destruct req as [[[userID username] role]|]; [|done]. unfold FindUser, AddMember, invoke, perform.
  assert (Ha : forall u t, callsOf t (AMemberAdd (mkMember "" "" "" 0 0)) -> keepsTo t (addMemberID directory c role u)).
  { intros u t Ht. simpl in Ht. unfold addMemberID, AddMember, invoke, perform. destruct (String.eqb u ""); [done|]. simpl.
    split; [done|]. intros now. split; [done|]. intros [[]|e]; [|done]. by apply only_bind; [apply viewMember_calls|]. }
  case_match; [|by apply Ha]. simpl. split; [done|]. intros [[u|]|e]; simpl; [by apply Ha|done..].
Qed.

Lemma updateMember_calls id directory c userID req : keepsTo (RUpdateMember id userID req) (updateMember directory c userID req).
Proof.
  unfold updateMember, BindJSON, GetMember, UpdateMember, LookupFailed, invoke, perform. destruct req as [role|]; [|done]. simpl.
  split; [done|]. intros [[m|]|e]; [|done..]. simpl. split; [done|]. intros [[]|e]; [|done].
  by apply only_bind; [apply viewMember_calls|].
Qed.

Lemma serve_calls q t : keepsTo t (serve q t).
Proof.
  destruct t; cbn [AccessRoutes.serve].
  - apply login_calls.
  - apply refresh_calls.
  - apply asUser_calls. intros who. unfold logout, Logout, RevokeAllSessions, invoke, perform. by wp_walk.
  - apply asUser_calls. intros who. unfold me, GetUser, invoke, perform. by wp_walk.
  - unfold bootstrapStatus, CountUsers, invoke, perform. by wp_walk.
  - unfold bootstrap. apply only_bind; [by wp_walk|]. intros []. apply only_bind; [|by wp_walk].
    unfold bootstrapLocked, CountUsers, invoke, perform. simpl. split; [done|]. intros [n|e]; [|done].
    destruct (_ <? _); [done|]. by apply createUser_calls.
  - apply asAdmin_calls. intros _. unfold listUsers, ListUsers, CountUsers, invoke, perform. by wp_walk.
  - apply asAdmin_calls. intros _. unfold listUserMemberships, ListUserMemberships, invoke, perform. by wp_walk.
  - apply asAdmin_calls. intros _. by apply createUser_calls.
  - apply asAdmin_calls. intros _. unfold deleteUser, DeleteUser, wrapping, invoke, perform. by wp_walk.
  - apply asUser_calls, listProjects_calls.
  - apply asUser_calls. intros who. unfold getProject, LookupFailed, invoke, perform. simpl. unfold projectRole, invoke, perform. by wp_walk.
  - apply asAdmin_calls. intros who. unfold createProject, BindJSON, invoke, perform. simpl. destruct req; [|done].
    repeat case_match; by wp_walk.
  - apply asAdmin_calls. intros _. unfold deleteProject, removeProject, LookupFailed, invoke, perform. simpl. by wp_walk.
  - apply inProject_calls. intros c. apply listMembers_calls.
  - apply inProject_calls. intros c. unfold candidates, ListUsers, ListMembers, invoke, perform. by wp_walk.
  - apply inProject_calls. intros c. apply addMember_calls.
  - apply inProject_calls. intros c. apply updateMember_calls.
  - apply inProject_calls. intros c. unfold removeMember, RemoveMember, invoke, perform. by wp_walk.
  - by apply inProject_calls.
  - apply asAdmin_calls. intros _. unfold through, RequireRole. by wp_walk.
  - apply asUser_calls. intros who. unfold eventsAccess, through. simpl. unfold projectRole, invoke, perform. by wp_walk.
  - unfold through, metricsAuth. simpl. unfold Authenticate, invoke, perform. by wp_walk.
  - unfold through, workloadTokenMiddleware. by wp_walk.
Qed.

(** The routes that change none of accounts, projects, members. *)
Definition open_route (t : route) : Prop :=
  match t with
  | RLogin _ | RRefresh | RLogout | RMe | RBootstrapStatus | RProjects | RProjectGet _ | RMembers _ _ _ | RCandidates _
  | RProject _ _ | REvents _ | RMetrics | RWorkload => True
  | _ => False
  end.

#[export] Instance open_route_dec t : Decision (open_route t).
Proof. destruct t; simpl; apply _. Defined.

Lemma open_quiet q t : open_route t -> quiet (serve q t).
Proof.
  intros Ht. eapply only_mono; [|apply (serve_calls q t)]. intros c. destruct c; simpl; try done; by destruct t.
Qed.

Abbreviation membersOf id := (only (memberCall (eq id))).

Lemma viewMember_members directory P m : only (memberCall P) (viewMember directory m).
Proof. unfold viewMember, GetUser, invoke, perform. by wp_walk. Qed.

Lemma addMemberID_members directory c role id : membersOf (pc_ID c) (addMemberID directory c role id).
Proof.
  unfold addMemberID, AddMember, invoke, perform. destruct (String.eqb id ""); [done|]. simpl. split; [done|]. intros now.
  split; [done|]. intros [[]|e]; [|done]. by apply only_bind; [apply viewMember_members|].
Qed.

Lemma addMember_members directory c req : membersOf (pc_ID c) (addMember ToLower directory c req).
Proof.
  unfold addMember, BindJSON. destruct req as [[[userID username] role]|]; [|done].
  case_match; [|apply addMemberID_members]. unfold FindUser, invoke, perform. simpl. split; [done|].
  intros [[u|]|e]; simpl; [apply addMemberID_members|done..].
Qed.

Lemma updateMember_run directory c userID req cs w resp cs' w' : keyed w ->
  run (updateMember directory c userID req) cs w = Some (resp, cs', w') -> changesMembers (eq (pc_ID c)) w w'.
Proof.
  intros Hk. unfold updateMember, BindJSON, GetMember, invoke, perform. destruct req as [role|]; simpl; [|by intros [= _ _ ->]].
  destruct cs as [|i cs]; [done|]. intros ([[r w1] new] & Hh & Hr)%bind_Some. apply reading_answer in Hh as [Hans ->].
  destruct Hans as [-> | (_ & e & ->)]; simpl in Hr; [|by injection Hr as _ _ ->].
  destruct (at_members (aw_tables w) !! (pc_ID c, userID)) as [m|] eqn:Em; simpl in Hr; [|by injection Hr as _ _ ->].
  apply (ky_members _ Hk) in Em. injection Em as Ep _. rewrite <- Ep. destruct cs as [|i2 cs]; [done|].
  apply bind_Some in Hr as ([[r w1] new2] & Hh & Hr).
  transitivity w1; [exact (memberCall_handle (eq (mb_ProjectID m)) (AMemberUpdate (mkMember (mb_ProjectID m) (mb_UserID m) role (mb_CreatedAt m) (mb_UpdatedAt m)))
                   0%nat i2 w r w1 new2 eq_refl Hh)|].
  refine (member_run _ _ _ _ _ _ _ _ Hr). destruct r; [|done]. by apply only_bind; [apply viewMember_members|].
Qed.

Lemma removeMember_members c userID : membersOf (pc_ID c) (removeMember c userID).
Proof. unfold removeMember, RemoveMember, invoke, perform. by wp_walk. Qed.

Lemma inProject_admin q id handler cs w resp cs' w' : keyed w ->
  (forall c cs1, pc_ID c = id -> run (handler c) cs1 w = Some (resp, cs', w') -> changesMembers (eq id) w w') ->
  run (inProject q id ProjectRoleAdmin handler) cs w = Some (resp, cs', w') ->
  w' = w \/ (changesMembers (eq id) w w' /\ exists u, signedIn parseToken w q u /\ holds w u id ProjectRoleAdmin).
Proof.
  intros Hk Hh [(u & p & role & cs1 & Hu & Ep & Hr & Hl & Hrun)|(-> & _ & _)]%inProject_run; [right|by left].
  apply Hh in Hrun; [|by apply (ky_projects _ Hk)]. split; [done|]. exists u. split; [done|].
  unfold holds in *. destruct (us_SystemAdmin u); [done|]. destruct Hr as (m & Em & ->). exists m. split; [done|].
  unfold roleStringToProjectRole, ProjectRoleAdmin, ProjectRoleMember, ProjectRoleViewer in *. by repeat case_match.
Qed.

Lemma createUser_members req : only (fun c => match c with AUserCreate _ => True | _ => memberCall nowhere c end) (createUser ToLower argon2 req).
Proof.
  eapply only_mono; [|by apply (createUser_calls (RCreateUser req))]. intros c. by destruct c.
Qed.

(** The first account is created only while there is none. *)
Lemma bootstrap_run req cs w resp cs' w' : run (bootstrap ToLower argon2 req) cs w = Some (resp, cs', w') ->
  at_projects (aw_tables w') = at_projects (aw_tables w) /\ at_members (aw_tables w') = at_members (aw_tables w) /\
  (at_users (aw_tables w') <> at_users (aw_tables w) -> at_users (aw_tables w) = ∅).
Proof.
  unfold bootstrap. intros ([] & cs1 & w1 & Hl & (r & cs2 & w2 & Hb & Hu)%run_bind_inv)%run_bind_inv.
  destruct cs as [|i cs]; [done|]. simpl in Hl. destruct (aw_lock w); [done|]. unfold external in Hl. simpl in Hl.
  injection Hl as <- <-. destruct cs2 as [|i2 cs2]; [done|]. unfold external in Hu. simpl in Hu. injection Hu as <- <- <-. simpl.
  unfold bootstrapLocked, CountUsers, invoke, perform in Hb. simpl in Hb. destruct cs as [|i3 cs]; [done|].
  apply bind_Some in Hb as ([[r1 w3] new] & Hh & Hb). apply reading_answer in Hh as [Hans ->].
  destruct Hans as [-> | (_ & e & ->)]; [|by simplify_eq/=]. simpl in Hb. unfold countUsers in Hb. simpl in Hb.
  destruct (0 <? _) eqn:En; [by simplify_eq/=|]. apply Z.ltb_ge in En.
  assert (Hs : at_users (aw_tables w) = ∅) by (apply map_size_empty_iff; lia).
  assert (Hq : forall w', run (createUser ToLower argon2 ((fun '(u, p) => mkUserInput u p true) <$> req)) cs (aw_setLock (Some 0%nat) w) = Some (r, i2 :: cs2, w') ->
     at_projects (aw_tables w') = at_projects (aw_tables w) /\ at_members (aw_tables w') = at_members (aw_tables w)).
  2:{ destruct (Hq _ Hb). done. }
  clear Hb. intros w4 Hb. pose proof (createUser_members ((fun '(u, p) => mkUserInput u p true) <$> req)) as Ho.
  refine (run_only _ (fun w w' => at_projects (aw_tables w') = at_projects (aw_tables w) /\ at_members (aw_tables w') = at_members (aw_tables w))
            _ _ _ _ _ _ _ Ho Hb).
  - split; [done|]. intros a b c [] []. split; congruence.
  - intros c i4 w5 r3 w6 new3 Hc Hh. destruct c;
      try (destruct (memberCall_handle nowhere _ _ _ _ _ _ _ Hc Hh) as (_ & E2 & E3); split; [exact E2|];
           apply map_eq; intros k; apply E3; by intros []).
    simpl in Hh. unfold constrained, statement, external, createUserRow in Hh. repeat case_match; by simplify_eq/=.
Qed.

Lemma quiet_same {X} (m : A X) cs w x cs' w' : quiet m -> run m cs w = Some (x, cs', w') ->
  at_users (aw_tables w') = at_users (aw_tables w) /\ at_projects (aw_tables w') = at_projects (aw_tables w) /\
  at_members (aw_tables w') = at_members (aw_tables w).
Proof.
  intros Hq Hr. destruct (member_run _ _ _ _ _ _ _ Hq Hr) as (E1 & E2 & E3). split_and!; [done..|].
  apply map_eq. intros k. apply E3. by intros [].
Qed.

End Changes.

(** ** The theorems *)

(** C22: A route under a project, whatever the tables hold and whichever statements
    fail: it is reached only by a request whose token is accepted now and names an
    account that is not disabled, for a project that exists, with at least the
    role that the route requires, that of the project's members or of a system
    administrator. When no statement fails, everything else is refused for a reason
    that the status names: 401 exactly without an identity, 403 without the role,
    404 without the project. Nothing changes. *)
Theorem project_access cfg ToLower argon2 SHA256Hex signToken parseToken rangeKeys WorkloadToken q projectID minRole cs w resp cs' w'
    (Hrun : run (serve cfg ToLower argon2 SHA256Hex signToken parseToken rangeKeys WorkloadToken q (RProject projectID minRole))
              cs w = Some (resp, cs', w')) :
  w' = w /\
  (rs_Code resp = 200 ->
     exists u p role, signedIn parseToken w q u /\ at_projects (aw_tables w) !! projectID = Some p /\
       holds w u projectID role /\ minRole <= role /\
       resp = JSON 200 (BAdmitted (mkContext (pj_ID p) (pj_OwnerMemberID p) role))) /\
  (rs_Code resp <> 200 -> allDone cs -> refused parseToken w q projectID minRole (rs_Code resp)).
Proof.
  apply inProject_run in Hrun as [(u & p & role & cs1 & Hu & Ep & Hh & Hl & Hr)|(-> & Hc & Hf)]; [|naive_solver].
  simpl in Hr. injection Hr as <- <- <-. split; [done|]. split; [|done]. intros _. by exists u, p, role.
Qed.

(** Who may make which change. *)
Definition authorized (parseToken : Z -> string -> res string jwtClaims) (q : Request) (t : route) (w w' : AWorld) : Prop :=
  let admin := exists u, signedIn parseToken w q u /\ us_SystemAdmin u = true in
  (at_users (aw_tables w') <> at_users (aw_tables w) ->
     admin \/ ((exists req, t = RBootstrap req) /\ at_users (aw_tables w) = ∅)) /\
  (at_projects (aw_tables w') <> at_projects (aw_tables w) -> admin) /\
  (forall project user, at_members (aw_tables w') !! (project, user) <> at_members (aw_tables w) !! (project, user) ->
     exists u, signedIn parseToken w q u /\ holds w u project ProjectRoleAdmin).

Lemma same_authorized parseToken q t w w' : at_users (aw_tables w') = at_users (aw_tables w) ->
  at_projects (aw_tables w') = at_projects (aw_tables w) -> at_members (aw_tables w') = at_members (aw_tables w) ->
  authorized parseToken q t w w'.
Proof. unfold authorized. by intros -> -> ->. Qed.

Lemma admin_authorized parseToken q t w w' u : signedIn parseToken w q u -> us_SystemAdmin u = true -> authorized parseToken q t w w'.
Proof.
  intros Hu Ha. split_and!; [left; by exists u|intros _; by exists u|].
  intros p k _. exists u. split; [done|]. unfold holds. by rewrite Ha.
Qed.

Lemma member_authorized parseToken q t w w' id u : changesMembers (eq id) w w' -> signedIn parseToken w q u ->
  holds w u id ProjectRoleAdmin -> authorized parseToken q t w w'.
Proof.
  intros (E1 & E2 & E3) Hu Hh. split_and!; [done..|]. intros project user Hne. destruct (decide (project = id)) as [->|Hn].
  - by exists u.
  - destruct Hne. apply E3. simpl. congruence.
Qed.

(** C23: What one request may change, whatever the tables hold and whichever
    statements fail: accounts only if it comes from a system administrator, or is
    the first-run setup while there is no account; projects only if it comes from a
    system administrator; the members of a project only if it comes from an
    administrator of that project or of the system. *)
Theorem changes_authorized cfg ToLower argon2 SHA256Hex signToken parseToken rangeKeys WorkloadToken q t cs w resp cs' w'
    (Hkeyed : keyed w)
    (Hrun : run (serve cfg ToLower argon2 SHA256Hex signToken parseToken rangeKeys WorkloadToken q t) cs w = Some (resp, cs', w')) :
  authorized parseToken q t w w'.
Proof.
  assert (Hadmin : forall handler, run (asAdmin parseToken q handler) cs w = Some (resp, cs', w') -> authorized parseToken q t w w').
  { intros handler [(u & _ & Hu & Ha & _)|[-> _]]%asAdmin_run; [by eapply admin_authorized|by apply same_authorized]. }
  assert (Hmember : forall id handler,
    (forall c cs1, pc_ID c = id -> run (handler c) cs1 w = Some (resp, cs', w') -> changesMembers (eq id) w w') ->
    run (inProject parseToken q id ProjectRoleAdmin handler) cs w = Some (resp, cs', w') -> authorized parseToken q t w w').
  { intros id handler Hh [->|(Hc & u & Hu & Hr)]%inProject_admin; [by apply same_authorized|by eapply member_authorized|done..]. }
  destruct (decide (open_route t)) as [Ho|Ho].
  { pose proof (open_quiet cfg ToLower argon2 SHA256Hex signToken parseToken rangeKeys WorkloadToken q t Ho) as Hq.
    destruct (quiet_same _ _ _ _ _ _ Hq Hrun) as (? & ? & ?). by apply same_authorized. }
  destruct t; simpl in Ho; try done; simpl in Hrun; try (by eapply Hadmin).
  - destruct (bootstrap_run _ _ _ _ _ _ _ _ Hrun) as (E1 & E2 & E3). split_and!; [|by rewrite E1|by rewrite E2].
    intros Hn. right. split; [by eexists|by apply E3].
  - eapply Hmember; [|exact Hrun]. intros c cs1 <- Hr. refine (member_run _ _ _ _ _ _ _ _ Hr). apply addMember_members.
  - eapply Hmember; [|exact Hrun]. intros c cs1 <- Hr. by eapply updateMember_run.
  - eapply Hmember; [|exact Hrun]. intros c cs1 <- Hr. refine (member_run _ _ _ _ _ _ _ _ Hr). apply removeMember_members.
Qed.
