(* ===== verification/AccessSessions.v ===== *)
(** * Access: sessions in every interleaving

    Whatever requests, commands, failures of statements, purges and restarts
    interleave: a session that was revoked is revoked for good. *)

From S2P Require Import Prelude Prog AccessModel AccessProvider AccessHandlers AccessRoutes AccessWorld AccessSpec.
From stdpp Require Import options.
#[local] Open Scope Z_scope.
#[local] Set Default Proof Using "All".

(** What a thread is, as long as it runs: one that began after a given moment or
    before, with the token that it drew and did not store yet. *)
Record sessionPhase := mkSessionPhase { sp_after : bool; sp_token : option string }.

Section Sessions.

Context (cfg : AuthConfig) (ToLower : string -> string) (argon2 : string -> string -> string) (SHA256Hex : string -> string).
Context (signToken : jwtClaims -> res string string) (parseToken : Z -> string -> res string jwtClaims).
Context (rangeKeys : gmap string Z -> list string) (WorkloadToken : string).

(** Two tokens that the random source gave have different hashes. *)
Context (Hsha : forall a b, String.length a = 32%nat -> String.length b = 32%nat ->
  SHA256Hex (hexEncode a) = SHA256Hex (hexEncode b) -> a = b).

(** The refresh token that the theorem is about. *)
Context (token : string).

Abbreviation hashOf b := (SHA256Hex (hexEncode b)).

(** An answer that gives no tokens. *)
Definition turnedAway (r : response) : Prop := rs_Code r = 401 /\ forall access refresh, rs_Cookies r <> CSet access refresh.

Definition refreshOf (q : Request) (t : route) : Prop := t = RRefresh /\ refreshTokenFromRequest q = token.

(** A session is stored with the token that was drawn for it; a refresh that
    finds its session revoked is turned away. *)
Definition sessionUse : discipline areply := mkDiscipline acall areply
  sessionPhase
  (fun ph c =>
     match c with
     | ASessionCreate s => exists b, sp_token ph = Some b /\ ss_RefreshTokenHash s = hashOf b
     | ARespond q t r => sp_after ph = true -> refreshOf q t -> turnedAway r
     | _ => True
     end)
  (fun ph c =>
     match c as c return areply c -> Prop with
     | ASessionByHash h => fun r => sp_after ph = true -> h = SHA256Hex token -> forall s, r = Ok (Some s) -> ss_RevokedAt s <> None
     | ARandom n => fun r => forall b, r = Ok b -> String.length b = n
     | _ => fun _ => True
     end)
  (fun ph c =>
     match c as c return areply c -> sessionPhase with
     | ARandom n => fun r => mkSessionPhase (sp_after ph)
         (match r with Ok b => if Nat.eqb n 32 then Some b else None | Err _ => None end)
     | ASessionCreate _ => fun _ => mkSessionPhase (sp_after ph) None
     | _ => fun _ => ph
     end).

Abbreviation wp := (wp sessionUse).
Abbreviation same ph := (fun ph' : phase sessionUse => sp_after ph' = sp_after ph).

(** Programs that store no session. *)
Definition plain (c : acall) : Prop := match c with ASessionCreate _ | ARespond _ _ _ => False | _ => True end.

Lemma access_plain_wp {X} ph (m : A X) : only plain m -> wp ph m (fun _ => same ph).
Proof.
  revert ph; induction m as [a|c k IH]; intros ph; simpl; [done|]. intros [Hc Hk]. split; [by destruct c|].
  intros r _. eapply wp_mono; [|apply IH, Hk]. simpl. intros _ ph' ->. by destruct c.
Qed.

Lemma createSession_wp ph u : wp ph (createSession cfg SHA256Hex signToken u) (fun _ => same ph).
Proof.
  unfold createSession, issueAccessToken, randomToken, wrapping, wrapErr, invoke, perform. simpl. split; [done|]. intros now _.
  destruct (signToken _); [|done]. simpl. split; [done|]. intros [b|e] _; [|done]. simpl. split; [done|]. intros now' _.
  split; [done|]. intros id _. split; [by exists b|]. intros [[]|e] _; done.
Qed.

#[local] Opaque createSession.

Lemma refresh_wp ph q : wp ph (refresh cfg SHA256Hex signToken q)
  (fun r ph' => same ph ph' /\ (sp_after ph = true -> refreshTokenFromRequest q = token -> turnedAway r)).
Proof.
  unfold refresh. destruct (String.eqb _ ""); [by split|]. apply wp_bind. eapply wp_mono.
  2:{ instantiate (1 := fun r ph' => same ph ph' /\ (sp_after ph = true -> refreshTokenFromRequest q = token -> exists e, r = Err e)).
    unfold Refresh, hashToken, invoke, perform. simpl. split; [done|]. intros [[s|]|e] Hr; [|simpl; eauto..].
    destruct (ss_RevokedAt s) as [at_|] eqn:Er; simpl; [eauto|].
    assert (Hnew : sp_after ph = true -> refreshTokenFromRequest q = token -> False).
    { intros Ha <-. by apply (Hr Ha eq_refl s). }
    split; [done|]. intros now _. destruct (_ <? _); simpl; [eauto|]. split; [done|]. intros now' _. split; [done|].
    intros [[]|e] _; simpl; [|eauto]. split; [done|]. intros [[u|]|e] _; simpl; [|eauto..].
    destruct (us_Disabled u); simpl; [eauto|]. eapply wp_mono; [|apply createSession_wp]. simpl. intros r ph' E. split; [done|].
    intros Ha Ht. by destruct Hnew. }
  simpl. intros r ph' [E Hr]. destruct r as [result|e]; simpl; (split; [done|]).
  - intros Ha Ht. by destruct (Hr Ha Ht).
  - intros _ _. by split.
Qed.

Lemma login_wp ph req : wp ph (login cfg ToLower argon2 SHA256Hex signToken req) (fun _ => same ph).
Proof.
  unfold login, BindJSON. destruct req as [[username password]|]; [|done]. unfold Login, invoke, perform. cbv zeta.
  apply wp_bind. eapply wp_mono; [|instantiate (1 := fun _ => same ph)].
  { by intros [r|e] ph' E. }
  simpl. split; [done|]. intros id _. split; [done|]. intros at_ _. split; [done|].
  intros [[u|]|e] _; [|simpl; by split|simpl; by split]. destruct (us_Disabled u); [simpl; by split|].
  destruct (negb _); [simpl; by split|]. apply wp_bind. eapply wp_mono; [|apply createSession_wp].
  simpl. intros [r|e] ph' E; by split.
Qed.

(** Every thread obeys. *)
Lemma access_program_wp ph q t : wp ph (program cfg ToLower argon2 SHA256Hex signToken parseToken rangeKeys WorkloadToken q t) (fun _ _ => True).
Proof.
  unfold program. apply wp_bind. eapply wp_mono.
  2:{ instantiate (1 := fun r ph' => same ph ph' /\ (sp_after ph = true -> refreshOf q t -> turnedAway r)).
    destruct (match t with RLogin _ | RRefresh => true | _ => false end) eqn:Et.
    - destruct t; try done; simpl.
      + eapply wp_mono; [|apply login_wp]. simpl. intros r ph' E. split; [done|]. by intros _ [].
      + eapply wp_mono; [|apply refresh_wp]. simpl. intros r ph' [E Hr]. split; [done|]. intros Ha [_ Ht]. by apply Hr.
    - eapply wp_mono; [|apply access_plain_wp; eapply only_mono; [|apply serve_calls]].
      + simpl. intros r ph' E. split; [done|]. by intros _ [-> _].
      + intros c. destruct c; simpl; try done. by destruct t. }
  simpl. intros r ph' [E Hr]. split; [|done]. rewrite E. done.
Qed.

Lemma cli_plain c : only plain (cli ToLower argon2 c).
Proof.
  destruct c; simpl; unfold ignore, DeleteUser, wrapping, invoke, perform; [|by wp_walk].
  destruct (_ || _)%bool; [done|]. apply only_bind; [|done]. unfold CreateUser, hashPassword, wrapping, invoke, perform. by wp_walk.
Qed.

Lemma seed_plain : only plain seed.
Proof. unfold seed, ignore, ensureDefaultProject, ensureSystemProject, ensureProject, invoke, perform. by wp_walk. Qed.

Lemma plain_obeys ph (m : A unit) : only plain m -> wp ph m (fun _ _ => True).
Proof. intros Hm. eapply wp_mono; [|by apply access_plain_wp]. done. Qed.

(** ** The invariant *)

Abbreviation sessionsOf w := (at_sessions (aw_tables w)).

(** Sessions go, or are revoked; none comes, none comes back. *)
Record shrinks (w w' : AWorld) : Prop := mkShrinks {
  sk_issued : aw_issued w' = aw_issued w;
  sk_drawn : aw_drawn w' = aw_drawn w;
  sk_rows : forall id s', sessionsOf w' !! id = Some s' -> exists s, sessionsOf w !! id = Some s /\
    ss_RefreshTokenHash s' = ss_RefreshTokenHash s /\ (ss_RevokedAt s <> None -> ss_RevokedAt s' <> None) }.

Record sessions_ok (w : AWorld) (phs : list sessionPhase) : Prop := mkSessionsOk {
  so_issued : forall id s, sessionsOf w !! id = Some s -> ss_RefreshTokenHash s ∈ aw_issued w;
  so_unique : forall i j s s', sessionsOf w !! i = Some s -> sessionsOf w !! j = Some s' ->
    ss_RefreshTokenHash s = ss_RefreshTokenHash s' -> i = j;
  so_origin : forall h, h ∈ aw_issued w -> exists b, String.length b = 32%nat /\ b ∈ aw_drawn w /\ h = hashOf b;
  so_held : forall i ph b, phs !! i = Some ph -> sp_token ph = Some b ->
    String.length b = 32%nat /\ b ∈ aw_drawn w /\ hashOf b ∉ aw_issued w;
  so_apart : forall i j ph ph' b, phs !! i = Some ph -> phs !! j = Some ph' -> sp_token ph = Some b -> sp_token ph' = Some b -> i = j }.

(** The token was issued, and its session is revoked if it is still there. *)
Definition dead (w : AWorld) : Prop :=
  SHA256Hex token ∈ aw_issued w /\
  forall id s, sessionsOf w !! id = Some s -> ss_RefreshTokenHash s = SHA256Hex token -> ss_RevokedAt s <> None.

Lemma shrinks_refl w : shrinks w w.
Proof. split; [done..|]. eauto. Qed.

Lemma shrinks_ok w w' phs : shrinks w w' -> sessions_ok w phs -> sessions_ok w' phs.
Proof.
  intros [Ei Ed Hr] [H1 Hu H2 H3 H4]. split; rewrite ?Ei, ?Ed; [| |done..].
  - intros id s' (s & Hs & -> & _)%Hr. by eapply H1.
  - intros i j s s' (x & Hx & -> & _)%Hr (y & Hy & -> & _)%Hr. by apply Hu.
Qed.

Lemma shrinks_dead w w' : shrinks w w' -> dead w -> dead w'.
Proof.
  intros [Ei Ed Hr] [H1 H2]. split; [by rewrite Ei|]. intros id s' (s & Hs & E & Hv)%Hr. rewrite E. intros Eh. eapply Hv, H2; eauto.
Qed.

(** A phase that keeps its token changes nothing. *)
Lemma ok_same_token w phs tid ph ph' : phs !! tid = Some ph -> sp_token ph' = sp_token ph ->
  sessions_ok w phs -> sessions_ok w (<[tid := ph']> phs).
Proof.
  intros Hp Et [H1 Hu H2 H3 H4].
  assert (Hl : forall i p b, <[tid := ph']> phs !! i = Some p -> sp_token p = Some b ->
    exists p', phs !! i = Some p' /\ sp_token p' = Some b).
  { intros i p b Hi Hb. apply list_lookup_insert_Some in Hi as [(<- & -> & _)|[_ Hi]]; [|eauto]. rewrite Et in Hb. eauto. }
  split; [done..| |].
  - intros i p b Hi Hb. destruct (Hl _ _ _ Hi Hb) as (p' & Hi' & Hb'). by eapply H3.
  - intros i j p p' b Hi Hj Hb Hb'. destruct (Hl _ _ _ Hi Hb) as (q & Hq & Eq), (Hl _ _ _ Hj Hb') as (q' & Hq' & Eq'). by eapply H4.
Qed.

Lemma sessionByHash_row h t s : sessionByHash h t = Some s -> exists id, at_sessions t !! id = Some s /\ ss_RefreshTokenHash s = h.
Proof.
  unfold sessionByHash, rows. intros Hs%head_Some_elem_of. apply list_elem_of_In, filter_In in Hs as [Hs Eh%String.eqb_eq].
  apply list_elem_of_In, list_elem_of_fmap in Hs as ([id s'] & -> & Hs). exists id. split; [by apply elem_of_map_to_list|done].
Qed.

Lemma shrinks_tables w w' : aw_issued w' = aw_issued w -> aw_drawn w' = aw_drawn w -> sessionsOf w' = sessionsOf w -> shrinks w w'.
Proof. intros E1 E2 E3. split; [done..|]. rewrite E3. eauto. Qed.

(** Every call but the drawing and the storing of a token. *)
Lemma handle_shrinks c tid i w r w' new : handle c tid i w = Some (r, w', new) ->
  match c with ARandom _ | ASessionCreate _ => True | _ => shrinks w w' end.
Proof.
  intros Hh. destruct c; simpl in Hh; unfold constrained, reading, statement, external, written in Hh; repeat case_match;
    simplify_eq/=; try done; try apply shrinks_refl; try (by apply shrinks_tables).
  all: try (apply shrinks_tables; unfold createUserRow, addMemberRow, updateMemberRow, createProjectRow in *;
            repeat case_match; by simplify_eq).
  all: split; [done..|]; simpl; intros k s' Hs.
  all: first
    [ apply map_lookup_filter_Some in Hs as [Hs _]; eauto
    | apply lookup_alter_Some in Hs as [(<- & s & Hs & ->)|[_ Hs]]; eauto
    | rewrite lookup_fmap in Hs; apply fmap_Some in Hs as (s & Hs & ->); exists s; by case_match ].
Qed.

Lemma draw_ok w phs tid ph b n : phs !! tid = Some ph -> b ∉ aw_drawn w -> String.length b = n -> sessions_ok w phs ->
  sessions_ok (aw_setDrawn ({[b]} ∪ aw_drawn w) w)
    (<[tid := mkSessionPhase (sp_after ph) (if Nat.eqb n 32 then Some b else None)]> phs).
Proof.
  intros Hp Hb Hn [H1 Hu H2 H3 H4]. set (phs' := <[tid := _]> phs).
  assert (Hl : forall i p c, phs' !! i = Some p -> sp_token p = Some c ->
    (i = tid /\ c = b /\ n = 32%nat) \/ (i <> tid /\ phs !! i = Some p)).
  { intros i p c Hi Hc. apply list_lookup_insert_Some in Hi as [(<- & <- & _)|[? Hi]]; [left|by right].
    simpl in Hc. destruct (Nat.eqb_spec n 32); naive_solver. }
  split; simpl; [done..| | |].
  - intros h Hh. destruct (H2 h Hh) as (c & ? & ? & ->). exists c. set_solver.
  - intros i p c Hi Hc. destruct (Hl _ _ _ Hi Hc) as [(-> & -> & ->)|[_ Hi']].
    + split_and!; [done|set_solver|]. intros Hh. destruct (H2 _ Hh) as (c & Hc' & Hd & E). apply Hsha in E as ->; done.
    + destruct (H3 _ _ _ Hi' Hc) as (? & ? & ?). split_and!; [done|set_solver|done].
  - intros i j p p' c Hi Hj Hc Hc'. destruct (Hl _ _ _ Hi Hc) as [(-> & -> & _)|[_ Hi']], (Hl _ _ _ Hj Hc') as [(-> & E & _)|[_ Hj']].
    + done.
    + exfalso. apply Hb. by eapply (H3 j).
    + subst. exfalso. apply Hb. by eapply (H3 i).
    + by eapply H4.
Qed.

Lemma drop_ok w phs tid ph : phs !! tid = Some ph -> sessions_ok w phs ->
  sessions_ok w (<[tid := mkSessionPhase (sp_after ph) None]> phs).
Proof.
  intros Hp [H1 Hu H2 H3 H4].
  assert (Hl : forall i p c, <[tid := mkSessionPhase (sp_after ph) None]> phs !! i = Some p -> sp_token p = Some c -> phs !! i = Some p).
  { intros i p c Hi Hc. by apply list_lookup_insert_Some in Hi as [(<- & <- & _)|[? Hi]]. }
  split; [done..| |].
  - intros i p c Hi Hc. apply (H3 i p c); [by eapply Hl|done].
  - intros i j p p' c Hi Hj Hc Hc'. apply (H4 i j p p' c); [by eapply Hl|by eapply Hl|done..].
Qed.

(** Storing the drawn token's session, whatever was stored before. *)
Lemma store_ok w phs tid ph s t b : phs !! tid = Some ph -> sp_token ph = Some b -> ss_RefreshTokenHash s = hashOf b ->
  createSessionRow s (aw_tables w) = Some t -> sessions_ok w phs ->
  let w' := aw_setIssued ({[ss_RefreshTokenHash s]} ∪ aw_issued w) (aw_setTables t w) in
  sessions_ok w' (<[tid := mkSessionPhase (sp_after ph) None]> phs) /\ (dead w -> dead w').
Proof.
  intros Hp Hb Eh Hc [H1 Hu H2 H3 H4] w'. destruct (H3 _ _ _ Hp Hb) as (Hlen & Hdr & Hni).
  assert (Et : at_sessions t = <[ss_ID s := s]> (sessionsOf w)) by (unfold createSessionRow in Hc; repeat case_match; by simplify_eq).
  assert (Hl : forall i p c, <[tid := mkSessionPhase (sp_after ph) None]> phs !! i = Some p -> sp_token p = Some c ->
    i <> tid /\ phs !! i = Some p).
  { intros i p c Hi Hc'. by apply list_lookup_insert_Some in Hi as [(<- & <- & _)|[? Hi]]. }
  split.
  - split; unfold w'; simpl.
    + intros k s'. rewrite Et. intros [(<- & <-)|[_ Hs]]%lookup_insert_Some; [set_solver|]. apply H1 in Hs. set_solver.
    + intros k j x y. rewrite Et. intros Hx Hy E.
      apply lookup_insert_Some in Hx as [(<- & <-)|[? Hx]], Hy as [(<- & <-)|[? Hy]]; [done| | |by eapply Hu].
      * apply H1 in Hy. by rewrite <- E, Eh in Hy.
      * apply H1 in Hx. by rewrite E, Eh in Hx.
    + intros h [Hh%elem_of_singleton|Hh]%elem_of_union; [exists b; by rewrite Hh, Eh|by apply H2].
    + intros i p c Hi Hc'. destruct (Hl _ _ _ Hi Hc') as [Hne Hi']. destruct (H3 _ _ _ Hi' Hc') as (Hlc & Hdc & Hnc).
      split_and!; [done..|]. rewrite Eh. intros [E%elem_of_singleton|?]%elem_of_union; [|done]. apply Hsha in E as ->; [|done..].
      apply Hne. by eapply H4.
    + intros i j p p' c Hi Hj Hc' Hc''. destruct (Hl _ _ _ Hi Hc') as [_ Hi'], (Hl _ _ _ Hj Hc'') as [_ Hj']. by eapply H4.
  - intros [D1 D2]. split; unfold w'; simpl; [set_solver|]. intros k s'. rewrite Et.
    intros [(<- & <-)|[_ Hs]]%lookup_insert_Some; [|by eapply D2]. intros E. rewrite <- E, Eh in D1. done.
Qed.

(** *** Every call *)

(** Before the moment, or after it. *)
Definition after_ok (cut : option nat) (w : AWorld) (phs : list sessionPhase) : Prop :=
  match cut with
  | None =>
      (forall ph, ph ∈ phs -> sp_after ph = false) /\ (forall a, a ∈ aw_answers w -> (an_Thread a < List.length phs)%nat)
  | Some n =>
      dead w /\ (forall i ph, phs !! i = Some ph -> (n <= i)%nat -> sp_after ph = true) /\
      (forall a, a ∈ aw_answers w -> (n <= an_Thread a)%nat -> refreshOf (an_Request a) (an_Route a) -> turnedAway (an_Response a))
  end.

Definition sessions_inv (cut : option nat) (w : AWorld) (phs : list sessionPhase) : Prop := sessions_ok w phs /\ after_ok cut w phs.

Lemma after_ok_step cut w w' phs tid ph ph' : phs !! tid = Some ph -> sp_after ph' = sp_after ph -> (dead w -> dead w') ->
  aw_answers w' = aw_answers w -> after_ok cut w phs -> after_ok cut w' (<[tid := ph']> phs).
Proof.
  intros Hp Ea Hd Ew. destruct cut as [n|]; simpl; rewrite Ew.
  - intros (H1 & H2 & H3). split_and!; [auto| |done]. intros i p Hi Hn.
    apply list_lookup_insert_Some in Hi as [(<- & -> & _)|[_ Hi]]; [rewrite Ea|]; eauto.
  - intros (H1 & H2). split; [|by rewrite length_insert]. intros p [i Hi]%list_elem_of_lookup.
    apply list_lookup_insert_Some in Hi as [(<- & -> & _)|[_ Hi]]; [rewrite Ea|]; apply H1; by eapply list_elem_of_lookup_2.
Qed.

Abbreviation obeys := (obeys sessionUse (fun _ => True)).
Abbreviation good cut := (good AWorld sessionUse (fun _ => True) (sessions_inv cut)).

Lemma handle_answers c tid i w r w' new : handle c tid i w = Some (r, w', new) ->
  new = [] /\
  aw_answers w' = match c with ARespond q t resp => mkAnswer tid q t resp :: aw_answers w | _ => aw_answers w end.
Proof.
  intros Hh. destruct c; simpl in Hh; unfold constrained, reading, statement, external, written in Hh; repeat case_match; by simplify_eq/=.
Qed.

Lemma sessions_keep cut w phs tid ph c i r w' new :
  sessions_inv cut w phs -> phs !! tid = Some ph -> allowed sessionUse ph c -> handle c tid i w = Some (r, w', new) ->
  rely sessionUse ph c r /\
  exists phs', Forall2 obeys phs' new /\ sessions_inv cut w' (<[tid := next sessionUse ph c r]> phs ++ phs').
Proof.
  intros [Hok Haft] Hp Ha Hh. destruct (handle_answers _ _ _ _ _ _ _ Hh) as [-> Hans]. split.
  - destruct c; try exact I; simpl in Hh |- *.
    + intros Hnew -> s ->. unfold reading, statement, external in Hh. repeat case_match; simplify_eq/=.
      apply sessionByHash_row in Hh as (k & Hk & Eh) || match goal with H : sessionByHash _ _ = Some _ |- _ => apply sessionByHash_row in H as (k & Hk & Eh) end.
      destruct cut as [n|]; simpl in Haft.
      * destruct Haft as ((_ & Hd) & _). by eapply Hd.
      * destruct Haft as [Hf _]. apply list_elem_of_lookup_2, Hf in Hp. congruence.
    + intros b ->. unfold external in Hh. repeat case_match; simplify_eq/=. to_prop. by apply Nat.eqb_eq.
  - exists []. split; [done|]. rewrite app_nil_r. 
    assert (Hc : (exists n, c = ARandom n) \/ (exists s, c = ASessionCreate s) \/
                 match c with ARandom _ | ASessionCreate _ => False | _ => True end) by (destruct c; eauto).
    destruct Hc as [[n ->]|[[s ->]|Hc]].
    { simpl in Hh |- *. unfold external in Hh. destruct i; try done.
      - simplify_eq/=. split; [by apply drop_ok|by eapply after_ok_step].
      - case_match eqn:Eb; [done|]. simplify_eq/=. to_prop. split.
        + apply draw_ok; [done..|by apply Nat.eqb_eq|done].
        + by eapply after_ok_step. }
    { simpl in Ha, Hh |- *. destruct Ha as (b & Eb & Es). unfold constrained in Hh.
      destruct (createSessionRow s (aw_tables w)) as [t|] eqn:Ec.
      - destruct (store_ok _ _ _ _ _ _ _ Hp Eb Es Ec Hok) as [Hs Hd]. unfold statement, external in Hh.
        repeat case_match; simplify_eq/=; split; try done; try (by apply drop_ok); by eapply after_ok_step.
      - unfold external in Hh. simplify_eq/=. split; [by apply drop_ok|by eapply after_ok_step]. }
    assert (Hsh : shrinks w w') by (apply handle_shrinks in Hh; by destruct c).
    assert (En : next sessionUse ph c r = ph) by (by destruct c). rewrite En, list_insert_id by done.
    split; [by eapply shrinks_ok|]. destruct cut as [n|]; simpl in Haft |- *; rewrite Hans.
    + destruct Haft as (Hd & Hf & Hl). split_and!; [by eapply shrinks_dead|done|].
      intros a. destruct c; try apply Hl. intros [->|Hin]%elem_of_cons; [|by apply Hl]. simpl. intros Hn Hq.
      apply Ha; [by eapply Hf|done].
    + destruct Haft as (Hf & Hl). split; [done|]. intros a. destruct c; try apply Hl.
      intros [->|Hin]%elem_of_cons; [|by apply Hl]. simpl. by eapply lookup_lt_Some.
Qed.

(** A thread that begins, with the phases of those that run. *)
Lemma sessions_begin cut w phs : match cut with Some n => (n <= List.length phs)%nat | None => True end ->
  sessions_inv cut w phs -> sessions_inv cut w (phs ++ [mkSessionPhase (bool_decide (is_Some cut)) None]).
Proof.
  intros Hcut [[H1 Hu H2 H3 H4] Ha].
  assert (Hl : forall i p, (phs ++ [mkSessionPhase (bool_decide (is_Some cut)) None]) !! i = Some p ->
    phs !! i = Some p \/ p = mkSessionPhase (bool_decide (is_Some cut)) None).
  { intros i p [Hi|[_ [_ <-]%list_lookup_singleton_Some]]%lookup_app_Some; auto. }
  split.
  - split; [done..| |].
    + intros i p b Hi Hb. destruct (Hl _ _ Hi) as [Hi'| ->]; [by eapply H3|done].
    + intros i j p p' b Hi Hj Hb Hb'. destruct (Hl _ _ Hi) as [Hi'| ->]; [|done]. destruct (Hl _ _ Hj) as [Hj'| ->]; [|done].
      by eapply H4.
  - destruct cut as [n|]; simpl in *.
    + destruct Ha as (Hd & Hf & Hq). split_and!; [done| |done]. intros i p Hi Hn. destruct (Hl _ _ Hi) as [Hi'| ->]; [by eapply Hf|done].
    + destruct Ha as [Hf Hq]. split.
      * intros p [Hp|Hp%list_elem_of_singleton]%elem_of_app; [by apply Hf|by subst].
      * intros a Hin. apply Hq in Hin. rewrite length_app. simpl. lia.
Qed.

Lemma shrinks_inv cut w w' phs : shrinks w w' -> aw_answers w' = aw_answers w -> sessions_inv cut w phs -> sessions_inv cut w' phs.
Proof.
  intros Hs Ea [Ho Haft]. split; [by eapply shrinks_ok|]. destruct cut; simpl in *; rewrite Ea; [|done].
  destruct Haft as (Hd & ?). split; [by eapply shrinks_dead|done].
Qed.

(** A restart ends every thread. *)
Definition ended (ph : sessionPhase) : sessionPhase := mkSessionPhase (sp_after ph) None.

Lemma ended_inv cut w phs : sessions_inv cut w phs -> sessions_inv cut w (map ended phs).
Proof.
  intros [[H1 Hu H2 H3 H4] Ha].
  assert (Hl : forall i p, map ended phs !! i = Some p -> exists p', phs !! i = Some p' /\ p = ended p').
  { intros i p Hi. rewrite list_lookup_fmap in Hi. apply fmap_Some in Hi as (p' & ? & ->). eauto. }
  split.
  - split; [done..| |].
    + intros i p b Hi Hb. by destruct (Hl _ _ Hi) as (p' & _ & ->).
    + intros i j p p' b Hi _ Hb _. by destruct (Hl _ _ Hi) as (p'' & _ & ->).
  - destruct cut as [n|]; simpl in *.
    + destruct Ha as (Hd & Hf & Hq). split_and!; [done| |done]. intros i p Hi Hn. destruct (Hl _ _ Hi) as (p' & Hi' & ->). exact (Hf i p' Hi' Hn).
    + destruct Ha as [Hf Hq]. rewrite length_map. split; [|done]. intros p (p' & -> & Hp)%list_elem_of_fmap. exact (Hf _ Hp).
Qed.

Abbreviation step := (step cfg ToLower argon2 SHA256Hex signToken parseToken rangeKeys WorkloadToken).
Abbreviation exec := (exec cfg ToLower argon2 SHA256Hex signToken parseToken rangeKeys WorkloadToken).

Lemma phases_length (phs : list sessionPhase) (ths : list (A unit)) : Forall2 obeys phs ths -> List.length phs = List.length ths.
Proof. apply Forall2_length. Qed.

Lemma sessions_good_begin cut s m : match cut with Some n => (n <= List.length s.2)%nat | None => True end ->
  (forall ph, wp ph m (fun _ _ => True)) -> good cut s -> good cut (s.1, s.2 ++ [m]).
Proof.
  intros Hcut Hm (phs & Hf & Hi). eexists (phs ++ [_]). split; [|apply sessions_begin; [|done]].
  - apply Forall2_app; [done|]. constructor; [apply Hm|constructor].
  - apply phases_length in Hf. destruct cut; [lia|done].
Qed.

Lemma good_world cut s w' : (forall phs, sessions_inv cut s.1 phs -> sessions_inv cut w' phs) -> good cut s -> good cut (w', s.2).
Proof. intros Hw (phs & Hf & Hi). exists phs. auto. Qed.

Lemma sessions_step cut o s s' : match cut with Some n => (n <= List.length s.2)%nat | None => True end ->
  good cut s -> step o s = Some s' -> good cut s' /\ (List.length s.2 <= List.length s'.2)%nat.
Proof.
  intros Hcut Hg Hs. destruct o as [tid i|q t|c|d| |]; simpl in Hs.
  - split; [by eapply good_step; [apply sessions_keep|..]|].
    apply thread_step_inv in Hs as (c & k & re & w1 & new & _ & _ & ->). simpl. rewrite length_app, length_insert. lia.
  - simplify_eq. split; [|simpl; rewrite length_app; lia]. apply sessions_good_begin; [done|intros ph; apply access_program_wp|done].
  - simplify_eq. split; [|simpl; rewrite length_app; lia]. apply sessions_good_begin; [done|intros ph; apply plain_obeys, cli_plain|done].
  - case_match; simplify_eq. split; [|done]. apply good_world; [|done]. intros phs. by apply shrinks_inv; [apply shrinks_tables|].
  - simplify_eq. split; [|done]. apply good_world; [|done]. intros phs. apply shrinks_inv; [|done].
    split; [done..|]. simpl. intros k x [Hx _]%map_lookup_filter_Some. eauto.
  - simplify_eq. split; [|simpl; rewrite length_app, length_map; lia].
    apply (sessions_good_begin cut (aw_setLock None s.1, map (fun _ => Ret tt) s.2)); [destruct cut; simpl; [by rewrite length_map|done]|intros ph; apply plain_obeys, seed_plain|].
    destruct Hg as (phs & Hf & Hi). exists (map ended phs). split.
    + apply Forall2_fmap. eapply Forall2_impl; [exact Hf|]. intros; exact I.
    + simpl. apply (shrinks_inv _ s.1); [by apply shrinks_tables|done|]. by apply ended_inv.
Qed.

Lemma sessions_run cut ops s s' : match cut with Some n => (n <= List.length s.2)%nat | None => True end ->
  good cut s -> exec ops s = Some s' -> good cut s'.
Proof.
  revert s; induction ops as [|o ops IH]; intros s Hcut Hg He; simpl in He; [by simplify_eq|].
  apply bind_Some in He as (s1 & Hs & He). destruct (sessions_step _ _ _ _ Hcut Hg Hs) as [Hg' Hl].
  eapply IH; [|exact Hg'|exact He]. destruct cut; [lia|done].
Qed.

Lemma sessions_start now : good None (start now).
Proof.
  exists [mkSessionPhase false None]. split.
  - constructor; [|constructor]. apply plain_obeys, seed_plain.
  - split; [split; simpl|].
    + intros k x Hx. by apply lookup_empty_Some in Hx.
    + intros i j x y Hx. by apply lookup_empty_Some in Hx.
    + set_solver.
    + intros i ph b [_ <-]%list_lookup_singleton_Some. done.
    + intros i j ph ph' b [-> _]%list_lookup_singleton_Some [-> _]%list_lookup_singleton_Some. done.
    + split; [|set_solver]. by intros ph ->%list_elem_of_singleton.
Qed.

(** From a moment at which the token's session is revoked. *)
Lemma good_cut s k x : good None s -> sessionsOf s.1 !! k = Some x -> ss_RefreshTokenHash x = SHA256Hex token ->
  ss_RevokedAt x <> None -> good (Some (List.length s.2)) s.
Proof.
  intros (phs & Hf & Ho & Hq & Hans) Hk Ex Hd. exists phs. split; [done|]. split; [done|].
  apply phases_length in Hf. split_and!.
  - split; [rewrite <- Ex; by eapply so_issued|]. intros k' x' Hk' Ex'.
    assert (k' = k) as -> by (eapply so_unique; [done..|congruence]). by simplify_eq.
  - intros i ph Hi Hn. apply lookup_lt_Some in Hi. lia.
  - intros a Ha Hn. apply Hans in Ha. lia.
Qed.

End Sessions.

(** C24: Whatever requests, commands, failures of statements, purges of sessions and
    restarts interleave: once a session's row says that it was revoked (by a
    logout, by the rotation of its token, by the revocation of all sessions of the
    user), every refresh with its token that begins afterwards is answered 401 and
    gives no tokens. No two tokens that the random source gave are taken to have
    the same hash. *)
Theorem revoked_for_good cfg ToLower argon2 SHA256Hex signToken parseToken rangeKeys WorkloadToken now ops1 ops2 s1 s2 id session token
    (Hsha : forall a b, String.length a = 32%nat -> String.length b = 32%nat ->
       SHA256Hex (hexEncode a) = SHA256Hex (hexEncode b) -> a = b)
    (Hrun1 : exec cfg ToLower argon2 SHA256Hex signToken parseToken rangeKeys WorkloadToken ops1 (start now) = Some s1)
    (Hrow : at_sessions (aw_tables s1.1) !! id = Some session)
    (Hhash : ss_RefreshTokenHash session = SHA256Hex token)
    (Hrevoked : ss_RevokedAt session <> None)
    (Hrun2 : exec cfg ToLower argon2 SHA256Hex signToken parseToken rangeKeys WorkloadToken ops2 s1 = Some s2) :
  forall a, a ∈ aw_answers s2.1 -> (List.length s1.2 <= an_Thread a)%nat -> an_Route a = RRefresh ->
    refreshTokenFromRequest (an_Request a) = token ->
    rs_Code (an_Response a) = 401 /\ forall access refresh, rs_Cookies (an_Response a) <> CSet access refresh.
Proof.
  intros a Ha Hn Ht Hq.
  pose proof (sessions_start cfg ToLower argon2 SHA256Hex signToken parseToken rangeKeys WorkloadToken Hsha token now) as Hg.
  apply (sessions_run cfg ToLower argon2 SHA256Hex signToken parseToken rangeKeys WorkloadToken Hsha token None ops1 _ s1 I) in Hg; [|done].
  apply (good_cut cfg ToLower argon2 SHA256Hex signToken parseToken rangeKeys WorkloadToken Hsha token s1 id session) in Hg; [|done..].
  destruct (sessions_run cfg ToLower argon2 SHA256Hex signToken parseToken rangeKeys WorkloadToken Hsha token (Some _) ops2 _ s2 (le_n _) Hg Hrun2) as (phs & _ & _ & _ & _ & Hans).
  by apply (Hans a).
Qed.
