(* ===== verification/AccessBootstrap.v ===== *)
(** * Access: the first account, in every interleaving

    As long as no account is deleted, the first-run setup, which anyone may ask
    for, succeeds at most once, whatever requests, commands, failures of statements
    and restarts interleave. *)

From S2P Require Import Prelude Prog AccessModel AccessProvider AccessHandlers AccessRoutes AccessWorld AccessSpec.
From stdpp Require Import options.
#[local] Open Scope Z_scope.
#[local] Set Default Proof Using "All".

(** What a thread is, as long as it runs: outside of the lock; in it, before it
    counted or after it saw that there is an account; in it, having seen none; in
    it, having created one; out again, with an account created. *)
Inductive bootPhase : Type := BIdle | BLocked | BZero | BMade | BOut.

#[export] Instance bootPhase_eq_dec : EqDecision bootPhase.
Proof. solve_decision. Defined.

Definition isBootstrap (t : route) : bool := match t with RBootstrap _ => true | _ => false end.

(** An answer to a setup that succeeded. *)
Definition bootstrapped (a : answer) : bool := (isBootstrap (an_Route a) && (rs_Code (an_Response a) =? 201))%bool.

Definition bootUse : discipline areply := mkDiscipline acall areply
  bootPhase
  (fun ph c =>
     match c with
     | ALockBootstrap => ph = BIdle
     | AUnlockBootstrap => ph = BLocked \/ ph = BZero \/ ph = BMade
     | AUserCreate _ => ph = BIdle \/ ph = BZero
     | AUserDelete _ => False
     | ARespond _ t r => isBootstrap t = true -> rs_Code r = 201 -> ph = BOut
     | _ => True
     end)
  (fun _ _ _ => True)
  (fun ph c =>
     match c as c return areply c -> bootPhase with
     | ALockBootstrap => fun _ => BLocked
     | AUnlockBootstrap => fun _ => match ph with BMade => BOut | _ => BIdle end
     | AUserCount => fun r =>
         match ph, r with
         | BLocked, Ok n => if n <=? 0 then BZero else BLocked
         | _, _ => ph
         end
     | AUserCreate _ => fun r => match ph, r with BZero, Ok _ => BMade | BZero, Err _ => BLocked | _, _ => ph end
     | ARespond _ t r => fun _ => BIdle
     | _ => fun _ => ph
     end).

Section Bootstrap.

Context (cfg : AuthConfig) (ToLower : string -> string) (argon2 : string -> string -> string) (SHA256Hex : string -> string).
Context (signToken : jwtClaims -> res string string) (parseToken : Z -> string -> res string jwtClaims).
Context (rangeKeys : gmap string Z -> list string) (WorkloadToken : string).

Abbreviation wp := (wp bootUse).

(** ** The programs *)

Definition outside (c : acall) : Prop :=
  match c with ALockBootstrap | AUnlockBootstrap | AUserDelete _ | ARespond _ _ _ => False | _ => True end.

Lemma outside_wp {X} (m : A X) : only outside m -> wp BIdle m (fun _ ph' => ph' = BIdle).
Proof. apply only_wp. intros c Hc. destruct c; try done; (split; [by try left|by intros []]). Qed.

Lemma createUser_wp req : wp BZero (createUser ToLower argon2 req)
  (fun r ph' => (ph' = BLocked \/ ph' = BZero \/ ph' = BMade) /\ (rs_Code r = 201 -> ph' = BMade)).
Proof.
  unfold createUser, BindJSON. destruct req as [input|]; [|simpl; naive_solver].
  unfold CreateUser, hashPassword, wrapping, wrapErr, invoke, perform.
  destruct (String.eqb _ _); [simpl; naive_solver|]. destruct (Nat.ltb _ _); [simpl; naive_solver|]. destruct (hasSpace _); [simpl; naive_solver|].
  simpl. split; [done|]. intros [salt|e] _; [|simpl; naive_solver]. simpl.
  split; [done|]. intros now _. split; [done|]. intros id _. split; [by right|]. intros [[]|e] _; simpl; naive_solver.
Qed.

Lemma bootstrap_wp req : wp BIdle (bootstrap ToLower argon2 req)
  (fun r ph' => (ph' = BIdle \/ ph' = BOut) /\ (rs_Code r = 201 -> ph' = BOut)).
Proof.
  unfold bootstrap. apply wp_bind. unfold invoke at 1, perform. cbn [Prog.wp allowed rely next bootUse].
  split; [done|]. intros [] _. apply wp_bind.
  eapply wp_mono.
  2:{ instantiate (1 := fun r ph' => (ph' = BLocked \/ ph' = BZero \/ ph' = BMade) /\ (rs_Code r = 201 -> ph' = BMade)).
    unfold bootstrapLocked, CountUsers, invoke, perform. simpl. split; [done|]. intros [n|e] _; [|simpl; naive_solver].
    destruct (Z.ltb_spec 0 n); [simpl; destruct (n <=? 0); simpl; naive_solver|].
    replace (n <=? 0) with true by (symmetry; by apply Z.leb_le). apply createUser_wp. }
  simpl. intros r ph' [Hph Hr]. split; [done|]. intros [] _. split.
  - destruct Hph as [->|[->| ->]]; auto.
  - intros Hc. by rewrite (Hr Hc).
Qed.

(** Requests and commands that delete no account. *)
Definition keepsUsers (t : route) : Prop := match t with RDeleteUser _ => False | _ => True end.

Lemma program_boot q t : keepsUsers t ->
  wp BIdle (program cfg ToLower argon2 SHA256Hex signToken parseToken rangeKeys WorkloadToken q t) (fun _ _ => True).
Proof.
  intros Ht. unfold program. apply wp_bind. destruct (isBootstrap t) eqn:Eb.
  - destruct t; try done. cbn [AccessRoutes.serve]. eapply wp_mono; [|apply bootstrap_wp]. simpl. intros r ph' [Hph Hr]. split; [|done].
    intros _. exact Hr.
  - eapply wp_mono; [|apply outside_wp; eapply only_mono; [|apply serve_calls]].
    + simpl. intros r ph' ->. split; [|done]. congruence.
    + intros c. destruct c; simpl; try done; by destruct t.
Qed.

Lemma cli_boot c : match c with CliDelete _ => False | _ => True end -> only outside (cli ToLower argon2 c).
Proof.
  destruct c; simpl; [|done]. intros _. unfold ignore.
  destruct (_ || _)%bool; [done|]. apply only_bind; [|done]. unfold CreateUser, hashPassword, wrapping, invoke, perform. by wp_walk.
Qed.

Lemma seed_boot : only outside seed.
Proof. unfold seed, ignore, ensureDefaultProject, ensureSystemProject, ensureProject, invoke, perform. by wp_walk. Qed.

Lemma outside_obeys (m : A unit) : only outside m -> wp BIdle m (fun _ _ => True).
Proof. intros Hm. eapply wp_mono; [|by apply outside_wp]. done. Qed.

(** ** The invariant *)

Definition weight (ph : bootPhase) : nat := match ph with BMade | BOut => 1 | _ => 0 end.
Definition inLock (ph : bootPhase) : Prop := match ph with BLocked | BZero | BMade => True | _ => False end.

(** The setups that succeeded: those still to be answered, and the answered. *)
Definition succeeded (w : AWorld) (phs : list bootPhase) : nat :=
  sum_list_with weight phs + List.length (List.filter bootstrapped (aw_answers w)).

Record boot_inv (w : AWorld) (phs : list bootPhase) : Prop := mkBootInv {
  bi_lock : forall i ph, phs !! i = Some ph -> inLock ph -> aw_lock w = Some i;
  bi_one : (succeeded w phs <= 1)%nat;
  bi_users : succeeded w phs <> 0%nat -> at_users (aw_tables w) <> ∅;
  bi_zero : forall i, phs !! i = Some BZero -> succeeded w phs = 0%nat }.

Lemma sum_insert (l : list bootPhase) i x y : l !! i = Some x ->
  (sum_list_with weight (<[i := y]> l) + weight x = sum_list_with weight l + weight y)%nat.
Proof.
  revert i; induction l as [|z l IH]; intros [|i] Hl; simpl in *; try done.
  - simplify_eq. lia.
  - specialize (IH _ Hl). lia.
Qed.

(** A thread goes on: it keeps out of the lock what it kept out, no success is
    new, and accounts stay. *)
Lemma boot_move w w' phs tid ph ph' : phs !! tid = Some ph -> boot_inv w phs ->
  (inLock ph' -> aw_lock w' = Some tid) ->
  (forall i p, i <> tid -> phs !! i = Some p -> inLock p -> aw_lock w = Some i -> aw_lock w' = Some i) ->
  (weight ph' + List.length (List.filter bootstrapped (aw_answers w')) <= weight ph + List.length (List.filter bootstrapped (aw_answers w)))%nat ->
  (at_users (aw_tables w) <> ∅ -> at_users (aw_tables w') <> ∅) ->
  (ph' = BZero -> succeeded w phs = 0%nat) ->
  boot_inv w' (<[tid := ph']> phs).
Proof.
  intros Hp [Hl Ho Hu Hz] Hl1 Hl2 Hw Hus Hz1.
  assert (Hs : (succeeded w' (<[tid := ph']> phs) <= succeeded w phs)%nat).
  { unfold succeeded. pose proof (sum_insert phs tid ph ph' Hp). lia. }
  split.
  - intros i p Hi Hin. apply list_lookup_insert_Some in Hi as [(<- & -> & _)|[Hne Hi]]; [by apply Hl1|].
    eapply Hl2; [done|exact Hi|done|by eapply Hl].
  - lia.
  - intros Hne. apply Hus, Hu. lia.
  - intros i Hi. apply list_lookup_insert_Some in Hi as [(<- & E & _)|[_ Hi]]; [specialize (Hz1 E)|specialize (Hz _ Hi)]; lia.
Qed.

(** *** What calls do to the lock, the accounts and the answers *)

Lemma handle_rest c tid i w r w' new : handle c tid i w = Some (r, w', new) ->
  new = [] /\
  match c with
  | ALockBootstrap => aw_lock w = None /\ aw_lock w' = Some tid
  | AUnlockBootstrap => aw_lock w' = None
  | _ => aw_lock w' = aw_lock w
  end /\
  match c with ARespond q t resp => aw_answers w' = mkAnswer tid q t resp :: aw_answers w | _ => aw_answers w' = aw_answers w end /\
  match c with
  | AUserCreate _ => at_users (aw_tables w) <> ∅ -> at_users (aw_tables w') <> ∅
  | AUserDelete _ => True
  | _ => at_users (aw_tables w') = at_users (aw_tables w)
  end.
Proof.
  intros Hh. destruct c; simpl in Hh; unfold constrained, reading, statement, external, written in Hh; repeat case_match; simplify_eq/=;
    try (unfold addMemberRow, updateMemberRow, createSessionRow, createProjectRow in *; repeat case_match; simplify_eq/=);
    split_and!; try done.
  all: unfold createUserRow in *; repeat case_match; simplify_eq/=; intros; apply insert_non_empty.
Qed.

Lemma created u tid i w w' new : handle (AUserCreate u) tid i w = Some (Ok tt, w', new) -> at_users (aw_tables w') <> ∅.
Proof.
  simpl. unfold constrained, statement, external, createUserRow. intros Hh. repeat case_match; simplify_eq/=. apply insert_non_empty.
Qed.

Lemma counted tid i w n w' new : handle AUserCount tid i w = Some (Ok n, w', new) -> n <= 0 -> at_users (aw_tables w) = ∅.
Proof.
  simpl. intros Hh Hn. unfold reading, statement, external in Hh. repeat case_match; simplify_eq/=.
  unfold countUsers in Hn. apply map_size_empty_iff. lia.
Qed.

Abbreviation obeys := (obeys bootUse (fun _ => True)).
Abbreviation good := (good AWorld bootUse (fun _ => True) boot_inv).

(** The thread that has the lock and saw no account creates one. *)
Lemma boot_made w w' phs tid : phs !! tid = Some BZero -> boot_inv w phs -> aw_lock w' = aw_lock w -> aw_answers w' = aw_answers w ->
  at_users (aw_tables w') <> ∅ -> boot_inv w' (<[tid := BMade]> phs).
Proof.
  intros Hp [Hl Ho Hu Hz] El Ea Hus. assert (Hme := Hl _ _ Hp I).
  assert (Hs : succeeded w' (<[tid := BMade]> phs) = 1%nat).
  { specialize (Hz _ Hp). unfold succeeded in *. pose proof (sum_insert phs tid BZero BMade Hp) as E. simpl in E. rewrite Ea. lia. }
  split; [|lia|done|].
  - intros i p Hi Hin. rewrite El. apply list_lookup_insert_Some in Hi as [(<- & _ & _)|[_ Hi]]; [done|by eapply Hl].
  - intros i Hi. apply list_lookup_insert_Some in Hi as [(_ & E & _)|[Hne Hi]]; [done|]. specialize (Hl _ _ Hi I). congruence.
Qed.

(** A call that leaves the lock and the answers. *)
Lemma boot_stays w w' phs tid ph ph' : phs !! tid = Some ph -> boot_inv w phs -> (inLock ph' -> inLock ph) -> (weight ph' <= weight ph)%nat ->
  (ph' = BZero -> succeeded w phs = 0%nat) -> aw_lock w' = aw_lock w -> aw_answers w' = aw_answers w ->
  (at_users (aw_tables w) <> ∅ -> at_users (aw_tables w') <> ∅) ->
  boot_inv w' (<[tid := ph']> phs).
Proof.
  intros Hp Hi Hin Hw Hz El Ea Hu. eapply boot_move; [exact Hp|exact Hi|..]; rewrite ?El, ?Ea; try done; [|lia].
  intros Hl. by eapply bi_lock; [exact Hi|exact Hp|apply Hin].
Qed.

Lemma boot_keep w phs tid ph c i r w' new :
  boot_inv w phs -> phs !! tid = Some ph -> allowed bootUse ph c -> handle c tid i w = Some (r, w', new) ->
  rely bootUse ph c r /\
  exists phs', Forall2 obeys phs' new /\ boot_inv w' (<[tid := next bootUse ph c r]> phs ++ phs').
Proof.
  intros Hi Hp Ha Hh. split; [done|]. destruct (handle_rest _ _ _ _ _ _ _ Hh) as (-> & Hlock & Hans & Hus). exists []. split; [constructor|].
  rewrite app_nil_r.
  destruct c; simpl in Ha |- *; try done;
    try (eapply boot_stays; [exact Hp|exact Hi|done|done|intros ->; by eapply bi_zero|exact Hlock|exact Hans|by rewrite Hus]).
  - (* an account is created *)
    destruct r as [[]|e]; destruct Ha as [-> | ->];
      try (eapply boot_stays; [exact Hp|exact Hi|done|simpl; lia|done|exact Hlock|exact Hans|exact Hus]).
    eapply boot_made; [exact Hp|exact Hi|exact Hlock|exact Hans|exact (created _ _ _ _ _ _ Hh)].
  - (* accounts are counted *)
    eapply boot_stays; [exact Hp|exact Hi| | | |exact Hlock|exact Hans|by rewrite Hus].
    1,2: destruct ph, r as [n|e]; simpl; try destruct (n <=? 0); simpl; try done; lia.
    destruct ph, r as [n|e]; try done; [|intros _; by eapply bi_zero..].
    destruct (Z.leb_spec n 0); [|done]. intros _. destruct (decide (succeeded w phs = 0%nat)) as [E|E]; [done|].
    apply (bi_users _ _ Hi) in E. by apply (counted _ _ _ _ _ _ Hh) in H.
  - (* the lock is taken *)
    subst ph. destruct Hlock as [Hn Hl]. eapply boot_move; [exact Hp|exact Hi|done| |by rewrite Hans|by rewrite Hus|done].
    intros j p _ _ _ E. congruence.
  - (* it is given back *)
    assert (Hme : aw_lock w = Some tid) by (eapply bi_lock; [exact Hi|exact Hp|by destruct Ha as [-> |[-> | ->]]]).
    eapply boot_move; [exact Hp|exact Hi| | | |by rewrite Hus|].
    + by destruct Ha as [-> |[-> | ->]].
    + intros j p Hne _ _ E. congruence.
    + rewrite Hans. destruct Ha as [-> |[-> | ->]]; simpl; lia.
    + by destruct Ha as [-> |[-> | ->]].
  - (* a request is answered *)
    eapply boot_move; [exact Hp|exact Hi|done| | |by rewrite Hus|done]; [intros; by rewrite Hlock|].
    rewrite Hans. cbn [List.filter]. destruct (bootstrapped _) eqn:Eb; [|simpl; lia].
    unfold bootstrapped in Eb. simpl in Eb. apply andb_true_iff in Eb as [Eb Ec%Z.eqb_eq]. rewrite (Ha Eb Ec). simpl. lia.
Qed.

(** *** Every step *)

Abbreviation step := (step cfg ToLower argon2 SHA256Hex signToken parseToken rangeKeys WorkloadToken).
Abbreviation exec := (exec cfg ToLower argon2 SHA256Hex signToken parseToken rangeKeys WorkloadToken).

(** No account is deleted: by no request, by no command. *)
Definition keeps (o : op) : Prop :=
  match o with
  | ORequest _ t => keepsUsers t
  | OCommand (CliDelete _) => False
  | _ => True
  end.

Lemma sum_app (l k : list bootPhase) : sum_list_with weight (l ++ k) = (sum_list_with weight l + sum_list_with weight k)%nat.
Proof. induction l as [|x l IH]; simpl; [done|]. rewrite IH. lia. Qed.

Lemma boot_begin w phs : boot_inv w phs -> boot_inv w (phs ++ [BIdle]).
Proof.
  intros [Hl Ho Hu Hz].
  assert (Hs : succeeded w (phs ++ [BIdle]) = succeeded w phs) by (unfold succeeded; rewrite sum_app; simpl; lia).
  assert (Hi : forall i ph, (phs ++ [BIdle]) !! i = Some ph -> phs !! i = Some ph \/ ph = BIdle).
  { intros i ph [?|[_ [_ <-]%list_lookup_singleton_Some]]%lookup_app_Some; auto. }
  split; rewrite ?Hs; try done.
  - intros i ph Hph Hin. destruct (Hi _ _ Hph) as [?| ->]; [by eapply Hl|done].
  - intros i Hph. by destruct (Hi _ _ Hph) as [?|]; [eapply Hz|].
Qed.

Lemma boot_ext w w' phs : aw_lock w' = aw_lock w -> aw_answers w' = aw_answers w ->
  at_users (aw_tables w') = at_users (aw_tables w) -> boot_inv w phs -> boot_inv w' phs.
Proof.
  intros El Ea Eu [Hl Ho Hu Hz]. assert (Es : succeeded w' phs = succeeded w phs) by (unfold succeeded; by rewrite Ea).
  split; rewrite ?El, ?Es, ?Eu; done.
Qed.

Lemma boot_ended w phs : boot_inv w phs -> boot_inv (aw_setLock None w) (map (fun _ => BIdle) phs).
Proof.
  intros [Hl Ho Hu Hz].
  assert (Hs : (succeeded (aw_setLock None w) (map (fun _ => BIdle) phs) <= succeeded w phs)%nat).
  { unfold succeeded. simpl. replace (sum_list_with weight (map (fun _ => BIdle) phs)) with 0%nat; [lia|].
    clear. by induction phs. }
  assert (Hi : forall i ph, map (fun _ => BIdle) phs !! i = Some ph -> ph = BIdle).
  { intros i ph H. rewrite list_lookup_fmap in H. by apply fmap_Some in H as (? & _ & ->). }
  split.
  - by intros i ph ->%Hi.
  - lia.
  - intros Hne. apply Hu. lia.
  - by intros i ?%Hi.
Qed.

Lemma boot_good_begin s m : wp BIdle m (fun _ _ => True) -> good s -> good (s.1, s.2 ++ [m]).
Proof.
  intros Hm (phs & Hf & Hi). exists (phs ++ [BIdle]). split; [|by apply boot_begin].
  apply Forall2_app; [done|]. constructor; [apply Hm|constructor].
Qed.

Lemma boot_step o s s' : keeps o -> good s -> step o s = Some s' -> good s'.
Proof.
  intros Hk Hg Hs. destruct o as [tid i|q t|c|d| |]; simpl in Hs.
  - by eapply good_step; [apply boot_keep|..].
  - simplify_eq. apply boot_good_begin; [by apply program_boot|done].
  - simplify_eq. apply boot_good_begin; [apply outside_obeys, cli_boot; by destruct c|done].
  - case_match; simplify_eq. destruct Hg as (phs & Hf & Hi). exists phs. split; [done|]. by eapply boot_ext; [..|exact Hi].
  - simplify_eq. destruct Hg as (phs & Hf & Hi). exists phs. split; [done|]. by eapply boot_ext; [..|exact Hi].
  - simplify_eq. apply (boot_good_begin (aw_setLock None s.1, map (fun _ => Ret tt) s.2)); [apply outside_obeys, seed_boot|].
    destruct Hg as (phs & Hf & Hi). exists (map (fun _ => BIdle) phs). split; [|by apply boot_ended].
    apply Forall2_fmap. eapply Forall2_impl; [exact Hf|]. intros; exact I.
Qed.

Lemma boot_run ops s s' : Forall keeps ops -> good s -> exec ops s = Some s' -> good s'.
Proof.
  revert s; induction ops as [|o ops IH]; intros s Hk Hg He; simpl in He; [by simplify_eq|].
  apply Forall_cons in Hk as [Ho Hk]. apply bind_Some in He as (s1 & Hs & He). eapply IH; [done| |exact He]. by eapply boot_step.
Qed.

Lemma boot_start now : good (start now).
Proof.
  exists [BIdle]. split.
  - apply Forall2_cons. split; [apply outside_obeys, seed_boot|done].
  - split; unfold succeeded; simpl; try done; try lia.
    by intros i ph [_ <-]%list_lookup_singleton_Some.
Qed.

End Bootstrap.

(** C25: Whatever requests, commands, failures of statements, purges and restarts
    interleave, as long as no account is deleted: of the setups of a first
    administrator, which anyone may ask for without signing in, at most one is ever
    answered 201; the others find that there are accounts, or fail. *)
Theorem bootstrap_once cfg ToLower argon2 SHA256Hex signToken parseToken rangeKeys WorkloadToken now ops s
    (Hkeep : Forall keeps ops)
    (Hrun : exec cfg ToLower argon2 SHA256Hex signToken parseToken rangeKeys WorkloadToken ops (start now) = Some s) :
  (List.length (List.filter bootstrapped (aw_answers s.1)) <= 1)%nat.
Proof.
  pose proof (boot_run cfg ToLower argon2 SHA256Hex signToken parseToken rangeKeys WorkloadToken ops _ s Hkeep
    (boot_start cfg ToLower argon2 SHA256Hex signToken parseToken rangeKeys WorkloadToken now) Hrun) as (phs & _ & Hi).
  pose proof (bi_one _ _ Hi). unfold succeeded in *. lia.
Qed.
