(* ===== verification/AccessDemo.v ===== *)
(** * Access: concrete runs

    The theorems at concrete runs of an installation, and runs in which the code
    does not do what it means to. *)

From stdpp Require Import pretty.
From S2P Require Import Prelude Prog AccessModel AccessProvider AccessHandlers AccessRoutes AccessWorld AccessSpec AccessSessions AccessBootstrap.
From stdpp Require Import options.
#[local] Open Scope string_scope.
#[local] Open Scope Z_scope.
#[local] Open Scope list_scope.

(** ** An installation *)

(** Hashes that keep what they hash; an access token is the ID of its account. *)
Definition demoArgon (password salt : string) : string := (password +:+ salt)%string.
Definition demoHash (s : string) : string := s.
Definition demoConfig : AuthConfig := withDefaults (mkAuthConfig "" 0 0).
Definition demoSign (c : jwtClaims) : res string string := Ok (cl_UserID c).
Definition demoParse (now : Z) (token : string) : res string jwtClaims := Ok (mkClaims token "" false "piper" token now now).
Definition demoKeys (m : gmap string Z) : list string := (map_to_list m).*1.

Abbreviation demoServe := (serve demoConfig id demoArgon demoHash demoSign demoParse demoKeys "").
Abbreviation demoStep := (step demoConfig id demoArgon demoHash demoSign demoParse demoKeys "").
Abbreviation demoExec := (exec demoConfig id demoArgon demoHash demoSign demoParse demoKeys "").

Fixpoint repeated (n : nat) (c : ascii) : string := match n with O => "" | S n => String c (repeated n c) end.

(** What the world answers when all goes well. *)
Definition demoAnswer (c : acall) (w : AWorld) : achoice :=
  match c with
  | AUUID => AText ("id" +:+ pretty (size (aw_ids w)))
  | ARandom n => AText (repeated n (ascii_of_nat (size (aw_drawn w))))
  | ABeforeDelete _ => ACleanup (Ok tt)
  | _ => ADone
  end.

(** Up to [n] calls of a thread with these answers; or one step. *)
Inductive cmd : Type := Go (tid n : nat) | Do (o : op).

Fixpoint advance (n tid : nat) (s : AWorld * list (A unit)) : list op * (AWorld * list (A unit)) :=
  match n, s.2 !! tid with
  | S n, Some (Call c k) =>
      match demoStep (OThread tid (demoAnswer c s.1)) s with
      | Some s' => let '(l, s') := advance n tid s' in (OThread tid (demoAnswer c s.1) :: l, s')
      | None => ([], s)
      end
  | _, _ => ([], s)
  end.

Fixpoint ops_of (cs : list cmd) (s : AWorld * list (A unit)) : list op :=
  match cs with
  | [] => []
  | Go tid n :: cs => let '(l, s') := advance n tid s in l ++ ops_of cs s'
  | Do o :: cs => o :: match demoStep o s with Some s' => ops_of cs s' | None => [] end
  end.

Abbreviation demoStart := (start 100).
Definition demo (cs : list cmd) : list op := ops_of (Go 0 9 :: cs) demoStart.
Definition state_of (cs : list cmd) : AWorld * list (A unit) := default demoStart (demoExec (demo cs) demoStart).

(** Requests without credentials; with an access token; with a refresh token. *)
Definition anonymous : Request := mkRequest "" None None None.
Definition as_ (id : string) : Request := mkRequest ("Bearer " +:+ id) None None None.
Definition with_ (token : string) : Request := mkRequest "" None (Some token) None.

(** A request that runs to its end, as thread [tid]. *)
Definition ask (tid : nat) (q : Request) (t : route) : list cmd := [Do (ORequest q t); Go tid 50].

(** The statuses of the answers, in their order. *)
Definition statuses (s : AWorld * list (A unit)) : list Z := map (fun a => rs_Code (an_Response a)) (rev (aw_answers s.1)).
Definition lastBody (s : AWorld * list (A unit)) : option body := (fun a => rs_Body (an_Response a)) <$> head (aw_answers s.1).

(** The administrator of the first run is "id0", the member "id1" of the project
    "team" has the role "member". *)
Definition setUp : list cmd :=
  ask 1 anonymous (RBootstrap (Ok ("root", "secret12"))) ++
  ask 2 (as_ "id0") (RCreateUser (Ok (mkUserInput "bob" "hunter22" false))) ++
  ask 3 (as_ "id0") (RProjectCreate (Ok (mkProjectRequest "team" "Team" "" ""))) ++
  ask 4 (as_ "id0") (RAddMember "team" (Ok ("", "bob", "member"))).

Example set_up : statuses (state_of setUp) = [201; 201; 201; 201].
Proof. vm_compute. reflexivity. Qed.

(** Bob signs in as thread 5; his refresh token is the third thing drawn. *)
Definition signIn : list cmd := setUp ++ ask 5 anonymous (RLogin (Ok ("bob", "hunter22"))).
Definition bobToken : string := hexEncode (repeated 32 (ascii_of_nat 2)).

Definition liveSessions (s : AWorld * list (A unit)) : list string :=
  (filter (fun kv => ss_RevokedAt kv.2 = None) (map_to_list (at_sessions (aw_tables s.1)))).*1.

Example signed_in : statuses (state_of signIn) = [201; 201; 201; 201; 200] /\ liveSessions (state_of signIn) = ["id3"].
Proof. vm_compute. split; reflexivity. Qed.

(** ** The theorems at such runs *)

Lemma project_access_witness : exists resp cs' w',
  run (demoServe (as_ "id1") (RProject "team" 2)) [ADone; ADone; ADone; ADone] (state_of setUp).1 = Some (resp, cs', w') /\
  rs_Code resp = 200 /\
  exists u p role, signedIn demoParse (state_of setUp).1 (as_ "id1") u /\ at_projects (aw_tables (state_of setUp).1) !! "team" = Some p /\
    holds (state_of setUp).1 u "team" role /\ 2 <= role /\
    resp = JSON 200 (BAdmitted (mkContext (pj_ID p) (pj_OwnerMemberID p) role)).
Proof.
  destruct (run (demoServe (as_ "id1") (RProject "team" 2)) [ADone; ADone; ADone; ADone] (state_of setUp).1) as [[[resp cs'] w']|] eqn:E;
    [|vm_compute in E; discriminate].
  exists resp, cs', w'. split; [reflexivity|].
  assert (Hc : rs_Code resp = 200).
  { transitivity (default 0 ((fun x => rs_Code x.1.1) <$> Some (resp, cs', w'))); [reflexivity|]. rewrite <- E. vm_compute. reflexivity. }
  split; [exact Hc|].
  apply (project_access demoConfig id demoArgon demoHash demoSign demoParse demoKeys "" (as_ "id1") "team" 2 _ _ resp cs' w' E). exact Hc.
Defined.

(** An administrator takes the member out of the project. *)
Lemma changes_authorized_witness : exists resp cs' w',
  run (demoServe (as_ "id0") (RRemoveMember "team" "id1")) [ADone; ADone; ADone; ADone] (state_of setUp).1 = Some (resp, cs', w') /\
  at_members (aw_tables (state_of setUp).1) !! ("team", "id1") <> None /\ at_members (aw_tables w') = ∅ /\
  authorized demoParse (as_ "id0") (RRemoveMember "team" "id1") (state_of setUp).1 w'.
Proof.
  assert (Hr : demoExec (demo setUp) demoStart = Some (state_of setUp)) by (vm_compute; reflexivity).
  assert (Hk : keyed (state_of setUp).1) by exact (keyed_exec _ _ _ _ _ _ _ _ _ _ _ Hr (keyed_start 100)).
  destruct (run (demoServe (as_ "id0") (RRemoveMember "team" "id1")) [ADone; ADone; ADone; ADone] (state_of setUp).1) as [[[resp cs'] w']|] eqn:E;
    [|vm_compute in E; discriminate].
  exists resp, cs', w'. split; [reflexivity|]. split; [vm_compute; discriminate|]. split.
  - transitivity (default ∅ ((fun x => at_members (aw_tables x.2)) <$> Some (resp, cs', w'))); [reflexivity|]. rewrite <- E. vm_compute. reflexivity.
  - apply (changes_authorized demoConfig id demoArgon demoHash demoSign demoParse demoKeys "" _ _ _ _ resp cs' w' Hk E).
Defined.

(** Bob's token is rotated, then presented again. *)
Definition rotated : list cmd := signIn ++ ask 6 (with_ bobToken) RRefresh.
Definition presentedAgain : list op := ops_of (ask 7 (with_ bobToken) RRefresh) (state_of rotated).
Definition afterwards : AWorld * list (A unit) := default demoStart (demoExec presentedAgain (state_of rotated)).

Lemma revoked_for_good_witness :
  statuses afterwards = [201; 201; 201; 201; 200; 200; 401] /\ liveSessions afterwards = ["id4"] /\
  forall a, a ∈ aw_answers afterwards.1 -> (7 <= an_Thread a)%nat -> an_Route a = RRefresh ->
    refreshTokenFromRequest (an_Request a) = bobToken ->
    rs_Code (an_Response a) = 401 /\ forall access refresh, rs_Cookies (an_Response a) <> CSet access refresh.
Proof.
  split; [vm_compute; reflexivity|]. split; [vm_compute; reflexivity|].
  change 7%nat with (List.length (state_of rotated).2).
  apply (revoked_for_good demoConfig id demoArgon demoHash demoSign demoParse demoKeys "" 100 (demo rotated) presentedAgain
           (state_of rotated) afterwards "id3" (default (mkSession "" "" "" 0 None 0 0) (at_sessions (aw_tables (state_of rotated).1) !! "id3")) bobToken).
  - intros a b _ _ E. unfold demoHash in E. apply (f_equal hexDecode) in E. rewrite !hexDecode_hexEncode in E. by injection E.
  - vm_compute. reflexivity.
  - vm_compute. reflexivity.
  - vm_compute. reflexivity.
  - vm_compute. discriminate.
  - vm_compute. reflexivity.
Defined.

(** Two setups at a time: the second waits for the lock, and is refused. *)
Definition twoSetups : list cmd :=
  [Do (ORequest anonymous (RBootstrap (Ok ("root", "secret12")))); Do (ORequest anonymous (RBootstrap (Ok ("mallory", "secret12"))));
   Go 1 3; Go 2 1; Go 1 50; Go 2 50].

Lemma bootstrap_once_witness :
  statuses (state_of twoSetups) = [201; 409] /\ (List.length (List.filter bootstrapped (aw_answers (state_of twoSetups).1)) <= 1)%nat.
Proof.
  split; [vm_compute; reflexivity|].
  apply (bootstrap_once demoConfig id demoArgon demoHash demoSign demoParse demoKeys "" 100 (demo twoSetups)).
  - vm_compute. repeat constructor.
  - vm_compute. reflexivity.
Defined.

(** ** Where the code falls short *)

(** The rotation is not conditional: two refreshes with the same token that overlap
    both succeed, and leave two live sessions. *)
Definition refreshTwice : list cmd :=
  signIn ++ [Do (ORequest (with_ bobToken) RRefresh); Do (ORequest (with_ bobToken) RRefresh); Go 6 1; Go 7 1; Go 6 50; Go 7 50].

Example refresh_twice :
  statuses (state_of refreshTwice) = [201; 201; 201; 201; 200; 200; 200] /\ List.length (liveSessions (state_of refreshTwice)) = 2%nat.
Proof. vm_compute. split; reflexivity. Qed.

(** Revoking all sessions of a user misses the one that a refresh is about to
    store: the user asked to be signed out everywhere, and is not. *)
Definition revokeAllMissed : list cmd :=
  signIn ++ [Do (ORequest (with_ bobToken) RRefresh); Go 6 5] ++ ask 7 (as_ "id1") RLogout ++ [Go 6 50].

Example revoke_all_missed :
  statuses (state_of revokeAllMissed) = [201; 201; 201; 201; 200; 204; 200] /\ liveSessions (state_of revokeAllMissed) = ["id4"].
Proof. vm_compute. split; reflexivity. Qed.

(** When the accounts were all deleted, anyone becomes the administrator; with an
    empty password, which the command line refuses. *)
Definition reopened : list cmd :=
  setUp ++ ask 5 (as_ "id0") (RDeleteUser "id1") ++ ask 6 (as_ "id0") (RDeleteUser "id0") ++
  ask 7 anonymous (RBootstrap (Ok ("mallory", ""))).

Example bootstrap_reopens :
  statuses (state_of reopened) = [201; 201; 201; 201; 204; 204; 201] /\
  cli id demoArgon (CliCreate "mallory" "" true) = Ret tt.
Proof. split; [vm_compute|]; reflexivity. Qed.

(** The reserved project is hidden from administrators, and listed to its members. *)
Definition systemMember : list cmd := setUp ++ ask 5 (as_ "id0") (RAddMember "system" (Ok ("", "bob", "viewer"))).
Definition listed (s : AWorld * list (A unit)) : list string :=
  match lastBody s with Some (BProjects l) => map pj_ID l | _ => [] end.

Example system_project_listed :
  listed (state_of (systemMember ++ ask 6 (as_ "id0") RProjects)) = ["default"; "team"] /\
  listed (state_of (systemMember ++ ask 6 (as_ "id1") RProjects)) = ["system"; "team"].
Proof. vm_compute. split; reflexivity. Qed.
